(* ===== verification/_CoqProject ===== *)
-Q . S2P
Prelude.v
Words.v
Float.v
Random.v
Faults.v
Socket.v
Network.v
FdTable.v
Pipe.v
Monitor.v
Stream.v
Disk.v
Runner.v
Tracee.v
Syscalls.v
HookTable.v
Addr.v
World.v
Hooks.v
HookSpec.v
HookProps.v
Delivery.v
Seeds.v
Clock.v
Child.v
Barrier.v
Worker.v
Dispatch.v
Startup.v
Main.v
SysFile.v
Metrics.v
Launch.v
Programs.v
Varint.v
RowSet.v
Ints.v
Chars.v
NumText.v
HashTab.v
Bitvec.v
Utf.v
Like.v
Page.v
PageSpace.v
PageCells.v
PageList.v
PageLoad.v
PageParse.v
PageFill.v
Wal.v
WalFrame.v
WalWrite.v
WalIndex.v
WalFind.v
WalLog.v
WalRecover.v
WalDurable.v
