(* ===== verification/Prelude.v ===== *)
(** * Redstone: a verification library for the redstone fault simulator

    redstone runs unmodified programs under ptrace(2), answers part of their
    system calls itself (sockets, clocks) and injects network faults drawn from
    a seeded generator.  This library models the simulator, src/ of the
    repository, as executable Gallina definitions and proves what its parts
    promise each other.  It rests on the Standard Library and stdpp only and
    assumes no axiom.

    ** How the program is put together, and where it is modelled

    [main] (src/main.cpp; Main.v) reads a TOML configuration, builds one
    [simulator] (src/sim/simulator.hpp; World.v) and starts one [machine] per
    replica.  Starting a machine forks the program and spawns a worker thread
    (src/sim/runner/ptrace.cpp): the two meet at a [barrier] (Barrier.v), the
    worker waits for execve and hides the vDSO (Startup.v, over Child.v, which
    decodes wait statuses; Launch.v has the thread around it, the start-up and
    the handle that is returned) and then loops (Worker.v): at each system call entry
    it looks the number up (HookTable.v, whose names come from Syscalls.v),
    calls the hook (src/hook/impls.cpp; Hooks.v, addresses in Addr.v) and either
    lets the kernel go on or replaces the call by gettid and overwrites the
    result.  Dispatch.v joins loop, table and hooks.  Hooks reach the program's
    memory through [runner_handle] (Runner.v, the interface; Tracee.v, its
    ptrace implementation) and work on the replica's descriptor table
    (FdTable.v), the address table of the simulator (Network.v, addresses in
    Socket.v), stream sockets (Stream.v) and datagram sockets (World.v), whose
    inbound pipe (Pipe.v; its synchronisation in Monitor.v) applies the fault
    options (Faults.v) with the generators of src/random (Random.v).  Disk.v,
    SysFile.v and Metrics.v model src/disk, src/sys/file.cpp and src/metrics.hpp,
    on which the rest does not depend.  Programs.v has the programs that are run
    under the simulator: the demo pair (demo/), the benchmarks and the smoke
    test (benches/, src/simple.cpp).

    The repository vendors SQLite, which the simulator links and does not call.
    Self-contained algorithms of it that programs under test rely on are
    modelled from deps/sqlite3/sqlite3.c: Varint.v (the variable-length integers
    of the file format), RowSet.v (the sets of row numbers), Ints.v (checked
    arithmetic, logarithmic estimates), Chars.v (character tables,
    case-insensitive comparison), NumText.v (integers as text), HashTab.v (the
    hash table of the schema, on a store of linked cells), Bitvec.v (the bitmaps
    of journalled pages), Utf.v (text encodings), Like.v (pattern matching), Page.v to
    PageFill.v (single B-tree pages, the records in their cells and the overflow
    pages behind them) and the write-ahead log (wal.c): Wal.v (the index in
    shared memory: hash tables from pages to frames, rollback, savepoints),
    WalFrame.v (checksums and frames) and WalWrite.v ([walFrames] and
    [walIndexRecover] over a file), whose proofs are WalIndex.v (one table, the
    entry and removal of frames), WalFind.v (the search), WalLog.v (the index as
    a log, snapshots), WalRecover.v (recovery) and WalDurable.v (commits).

    ** Conventions

    - Integers are [Z]; unsigned and signed 64- and 32-bit conversions are
      [u64], [i64], [u32], [i32] of Words.v and stand wherever the C++ code
      converts or wraps.  Signed overflow is [Undefined].  A [double] is a
      [spec_float] of precision 53 (Float.v) with the standard's rounding.
    - A call is an [outcome]: a value, a failed [assert], an exception,
      undefined behaviour, or out of fuel.  Both builds are covered: [NDEBUG] is
      a class argument, and a theorem without a build hypothesis holds in both.
    - A member function takes the state of its object and returns the new one.
      A [shared_ptr] is an object id in the store of the simulator, a
      [weak_ptr] an id with liveness (ownership by some descriptor table)
      as an argument of [lock].
    - What lives outside src/ is an argument or a class with its documented
      laws: shared memory and files of SQLite ([Shm] with [ShmOk], [Vfs] with
      [VfsRead] and [VfsWrite]), the kernel ([Ptrace] and [PtraceOk], [Process], [Program], scripts
      of results), std::priority_queue ([PriorityQueue]), the Bernoulli
      distribution ([Bernoulli]), toml++ ([Toml]), the allocator ([alloc]),
      uninitialised memory ([garbage]), clock readings ([now]).  Each class has
      an instance in the library (FlatMemory, PacketList, xoshiro, a small TOML,
      demo programs), so the theorems apply to concrete runs; the witnesses do so.

    ** What is proved

    - Whole system: HookProps.v (an invariant of all interleavings of all
      processes' calls; which calls reach the kernel; the life of a name from
      bind to close; socket, connect), Delivery.v (a datagram from the memory of
      one process to that of another, through the faults), Dispatch.v (a run of
      the worker has only four kinds of steps, so the kernel never sees a call
      that is to be simulated), Seeds.v (the faults of a socket depend on the
      configured seed and the order of creation only), Worker.v (the ptrace loop refines interposition,
      both directions).
    - State and refinement: FdTable.v (number allocation, reuse, and the double
      allocation a stray lookup leads to), Network.v (the table refines a partial
      function), Disk.v (the buffered mode refines the write-through mode),
      Stream.v (byte order), Pipe.v (what histories of sends and receives can
      deliver; ordering; latency windows), Runner.v and Tracee.v (memory
      transfers are exact on mapped memory and silent elsewhere).
    - Concurrency: Barrier.v (any number of threads, rounds and spurious
      wake-ups; the notification alone completes every round), Monitor.v (no
      lost wake-up with one reader, one with two).
    - Start-up: Launch.v (how [ptrace_run] can end, in every interleaving of its
      two threads), Startup.v, Main.v.
    - Decoding and tables: Addr.v, Child.v, HookTable.v, Syscalls.v.
    - Programs: Programs.v (what the demos say to each other, what the Fibonacci
      benchmark prints, what the socket benchmark does to the descriptor table).
    - SQLite: Varint.v (decoder equivalence, round trip), RowSet.v (refinement of
      plain sets, sorted extraction, balanced trees), Ints.v (both builds against
      exact arithmetic, accuracy of the logarithms), Chars.v (comparison of
      lower-case forms), NumText.v (what a text says, in each encoding; round
      trip), HashTab.v (refinement of a finite map, no cell lost), Bitvec.v
      (refinement of a set of numbers, no block lost), Utf.v (round trips, the
      translation stays in its buffers), Like.v (the matcher decides the
      declarative meaning of a pattern), PageLoad.v (a page refines a list of
      cells with a budget of bytes, over every sequence of insertions and
      removals and whatever fragments they leave; loading arbitrary bytes is safe
      and terminates), PageParse.v (the two measures of a cell agree, the inlined
      decoder is the decoder of Varint.v), PageFill.v (round trip of records).
    - The write-ahead log: WalFrame.v (a frame survives the file, whatever the
      byte orders), WalLog.v (a search finds what a scan would find; readers keep
      their snapshot while a writer works between their loads; the index refines
      an append-only log of committed frames), WalRecover.v (recovery makes of
      any file the log of its valid frames up to the last commit; a savepoint
      rollback that loses a later commit), WalDurable.v (what the first call of
      [walFrames] in a transaction commits is found by recovery).
    - Numbers: Random.v (ranges, permutation, period, byte streams, thresholds),
      Faults.v (latencies, replays), Clock.v (scaled time), Metrics.v.

    Several theorems state behaviour that differs from what the code means to
    do (lost path characters, inverted listening test, reads that cannot fail,
    discarded signals and others); their comments say so.

    ** Fuel

    [replay_count], [stdout_write], [worker], [skip_vectors] and [patch_auxv]
    take fuel; the theorems about them say how much is enough
    ([replay_count_spec]: one more than the replays; [stdout_write_rounds_up]:
    one pass per 8192 bytes and one more; [worker_refines_interposition]: two
    passes per event; [remove_vdso_patches]: one per stack word).  The
    length loop of Varint.v gets ten passes, the tree builder of RowSet.v one more
    than the list is long; both always suffice.  The loops of NumText.v get one
    pass per byte of the buffer and one more, those of HashTab.v one per cell,
    those of Ints.v the number of bits divided by the shift: the theorems show
    that this is enough.  The walks down a bitmap of Bitvec.v get nine passes,
    twice the four levels that a 32-bit size can lead to and one more, and its
    probes one pass per slot of the table; the loops of Utf.v and Like.v get one
    pass per byte of their text and one more.  The walks over the free blocks of a
    page get one pass more than the page has bytes, and a block is longer than
    that pass; the loops over a payload size get the eight or nine passes that
    their end pointer allows; the loop that writes a payload gets one pass per
    byte and two more.  The loops over frames and tables of the write-ahead log
    get the number that is left and two more, its probes as many as the code
    allows collisions, its checksum one pass per byte.  The loops of
    Tracee.v get the length of the transfer, which always suffices.  Loops
    driven by the outside ([recv], [wait_until_execve], the file loops,
    [run_hook], [current_replica], the demo loops) consume a list of its inputs
    instead.

    ** Not modelled

    Logging and printing ([dump], spdlog; the lines of [print_stats] and of the
    demo are modelled); destructors; data races
    outside the mutexes (a world step is a whole hook call, which the mutexes of
    the tables and pipes justify for everything but the simulator's generator);
    files that are not built or do not compile (src/hook_impls.cpp,
    src/net/udp.cpp, benches/dgram.cpp) and stubs; the rest of SQLite, which
    has no part in the simulator: of its B-tree only single pages and the
    writing of overflow chains are modelled, not the balancing of several pages,
    the cursors or the pager; of the write-ahead log not the choice of a
    snapshot, checkpoints, read marks, locks and the restart of a log that has
    been copied back.  [commit_is_durable] is about the first call of a
    transaction; frames that are overwritten by a later call, whose checksums
    [walRewriteChecksums] renews, are modelled and run in [savepoint_loses_commit]
    but have no general theorem. *)

From stdpp Require Export base tactics list option numbers strings gmap sets.
From Stdlib Require Export ZArith Lia.

#[global] Open Scope Z_scope.

(** ** Outcomes of C++ code

    A call returns a value, aborts in [assert], throws an exception, or has
    undefined behaviour (division by zero, a null dereference, an
    out-of-range float conversion, a signed overflow).  [OutOfFuel] is not a
    behaviour of the program: a loop that is run with a fuel argument yields it
    when the fuel ends first; theorems say how much fuel is enough. *)

Inductive exn : Type :=
| system_error (code : Z)
| invalid_argument
| runtime_error
| out_of_range
| length_error
| bad_alloc
| bad_optional_access.

Inductive outcome (A : Type) : Type :=
| Ret (a : A)
| Abort_
| Throw (e : exn)
| Undefined
| OutOfFuel.
Arguments Ret {A} a.
Arguments Abort_ {A}.
Arguments Throw {A} e.
Arguments Undefined {A}.
Arguments OutOfFuel {A}.

#[export] Instance outcome_ret : MRet outcome := fun A a => Ret a.
#[export] Instance outcome_bind : MBind outcome := fun A B f o =>
  match o with
  | Ret a => f a
  | Abort_ => Abort_
  | Throw e => Throw e
  | Undefined => Undefined
  | OutOfFuel => OutOfFuel
  end.
#[export] Instance outcome_fmap : FMap outcome := fun A B f o =>
  match o with
  | Ret a => Ret (f a)
  | Abort_ => Abort_
  | Throw e => Throw e
  | Undefined => Undefined
  | OutOfFuel => OutOfFuel
  end.

#[export] Instance exn_eq_dec : EqDecision exn.
Proof. solve_decision. Defined.
#[export] Instance outcome_eq_dec {A} `{EqDecision A} : EqDecision (outcome A).
Proof. solve_decision. Defined.

Lemma outcome_bind_ret {A B} (a : A) (f : A -> outcome B) : (mret a ≫= f) = f a.
Proof. reflexivity. Qed.
Lemma outcome_ret_bind {A} (o : outcome A) : (o ≫= mret) = o.
Proof. by destruct o. Qed.
Lemma outcome_bind_assoc {A B C} (o : outcome A) (f : A -> outcome B) (g : B -> outcome C) :
  (o ≫= f) ≫= g = o ≫= (fun a => f a ≫= g).
Proof. by destruct o. Qed.

Lemma bind_Ret_inv {A B} (o : outcome A) (f : A -> outcome B) b :
  o ≫= f = Ret b -> exists a, o = Ret a /\ f a = Ret b.
Proof. destruct o; cbn; intros H; try discriminate. by eexists. Qed.

Lemma fmap_Ret_inv {A B} (o : outcome A) (f : A -> B) b :
  f <$> o = Ret b -> exists a, o = Ret a /\ f a = b.
Proof. destruct o; cbn; intros H; try discriminate. injection H; eauto. Qed.

(** The call comes back to its caller. *)
Definition returns {A} (o : outcome A) : bool :=
  match o with Ret _ => true | _ => false end.

(** The two builds: with [NDEBUG] an [assert] is compiled out. *)
Class Build := { NDEBUG : bool }.
Definition debug_build : Build := {| NDEBUG := false |}.
Definition release_build : Build := {| NDEBUG := true |}.

Definition assert_ `{Build} (b : bool) : outcome unit :=
  if NDEBUG then Ret tt else if b then Ret tt else Abort_.

Lemma assert_true `{Build} b : b = true -> assert_ b = Ret tt.
Proof. intros ->. unfold assert_. by destruct NDEBUG. Qed.
Lemma assert_Ret_inv `{Build} b : assert_ b = Ret tt -> b = true \/ NDEBUG = true.
Proof. unfold assert_. destruct NDEBUG, b; auto; discriminate. Qed.

(** ** errno values (Linux, x86-64) *)
Definition ESRCH := 3.
Definition EINTR := 4.
Definition EBADF := 9.
Definition EAGAIN := 11.
Definition EFAULT := 14.
Definition EINVAL := 22.
Definition EMFILE := 24.
Definition EBADFD := 77.
Definition ENOTSOCK := 88.
Definition EOPNOTSUPP := 95.
Definition ENOTSUP := 95.
Definition EAFNOSUPPORT := 97.
Definition EADDRNOTAVAIL := 99.
Definition ECONNREFUSED := 111.
Definition EHOSTUNREACH := 113.

(** ** Automation *)

Create HintDb redstone.
Create Rewrite HintDb outcome.
#[export] Hint Resolve assert_true : redstone.
#[export] Hint Rewrite @outcome_bind_ret @outcome_ret_bind @outcome_bind_assoc : outcome.

(** Split a monadic computation that is known to return. *)
Ltac inv_ret :=
  repeat match goal with
  | H : _ ≫= _ = Ret _ |- _ =>
      let a := fresh "a" in let Ha := fresh "Ha" in
      apply bind_Ret_inv in H as (a & Ha & H)
  | H : _ <$> _ = Ret _ |- _ =>
      let a := fresh "a" in let Ha := fresh "Ha" in
      apply fmap_Ret_inv in H as (a & Ha & H)
  | H : Ret _ = Ret _ |- _ => injection H as H; try subst
  | H : Abort_ = Ret _ |- _ => discriminate H
  | H : Throw _ = Ret _ |- _ => discriminate H
  | H : Undefined = Ret _ |- _ => discriminate H
  | H : OutOfFuel = Ret _ |- _ => discriminate H
  end.

(** Case split on the innermost test of a definition. *)
Ltac split_if :=
  match goal with
  | |- context [if ?b then _ else _] => destruct b eqn:?
  | H : context [if ?b then _ else _] |- _ => destruct b eqn:?
  end.

Ltac zify_bool :=
  repeat match goal with
  | H : (_ && _)%bool = true |- _ => apply andb_prop in H as [? ?]
  | H : (_ || _)%bool = false |- _ => apply orb_false_elim in H as [? ?]
  | H : negb _ = true |- _ => apply negb_true_iff in H
  | H : negb _ = false |- _ => apply negb_false_iff in H
  | H : (_ <=? _) = true |- _ => apply Z.leb_le in H
  | H : (_ <=? _) = false |- _ => apply Z.leb_gt in H
  | H : (_ <? _) = true |- _ => apply Z.ltb_lt in H
  | H : (_ <? _) = false |- _ => apply Z.ltb_ge in H
  | H : (_ =? _) = true |- _ => apply Z.eqb_eq in H
  | H : (_ =? _) = false |- _ => apply Z.eqb_neq in H
  | H : bool_decide _ = true |- _ => apply bool_decide_eq_true in H
  | H : bool_decide _ = false |- _ => apply bool_decide_eq_false in H
  end.
