(* ===== verification/Words.v ===== *)
(** * Machine words and bytes

    The fixed-width integers of the program: values are [Z], an unsigned
    [w]-bit value lies in [0, 2^w), and every conversion or wrapping operation
    is written out.  A byte is [Byte.byte]; multi-byte values are
    little-endian, as on the x86-64 target. *)

From Stdlib Require Import Strings.Byte.
From S2P Require Import Prelude.

Definition u64 (z : Z) : Z := z mod 2 ^ 64.
Definition u32 (z : Z) : Z := z mod 2 ^ 32.
Definition u16 (z : Z) : Z := z mod 2 ^ 16.
(** Conversion to a signed type keeps the value modulo [2^w]. *)
Definition i64 (z : Z) : Z := (z + 2 ^ 63) mod 2 ^ 64 - 2 ^ 63.
Definition i32 (z : Z) : Z := (z + 2 ^ 31) mod 2 ^ 32 - 2 ^ 31.

Abbreviation is_u64 z := (0 <= z < 2 ^ 64).
Abbreviation is_u32 z := (0 <= z < 2 ^ 32).
Abbreviation is_i64 z := (- 2 ^ 63 <= z < 2 ^ 63).
Abbreviation is_i32 z := (- 2 ^ 31 <= z < 2 ^ 31).

(** [std::rotl] on 64 bits, [0 < k < 64]. *)
Definition rotl64 (x k : Z) : Z := Z.lor (u64 (Z.shiftl x k)) (Z.shiftr x (64 - k)).
Definition rotr64 (x k : Z) : Z := Z.lor (Z.shiftr x k) (u64 (Z.shiftl x (64 - k))).

Lemma u64_range z : is_u64 (u64 z).
Proof. apply Z.mod_pos_bound; lia. Qed.
Lemma u32_range z : is_u32 (u32 z).
Proof. apply Z.mod_pos_bound; lia. Qed.
Lemma i64_range z : is_i64 (i64 z).
Proof. unfold i64. pose proof (Z.mod_pos_bound (z + 2 ^ 63) (2 ^ 64)). lia. Qed.
Lemma i32_range z : is_i32 (i32 z).
Proof. unfold i32. pose proof (Z.mod_pos_bound (z + 2 ^ 31) (2 ^ 32)). lia. Qed.
Lemma u64_id z : is_u64 z -> u64 z = z.
Proof. intros. by apply Z.mod_small. Qed.
Lemma u32_id z : is_u32 z -> u32 z = z.
Proof. intros. by apply Z.mod_small. Qed.
Lemma i64_id z : is_i64 z -> i64 z = z.
Proof. intros. unfold i64. rewrite Z.mod_small; lia. Qed.
Lemma i32_id z : is_i32 z -> i32 z = z.
Proof. intros. unfold i32. rewrite Z.mod_small; lia. Qed.
Lemma i64_u64 z : i64 (u64 z) = i64 z.
Proof. unfold i64, u64. by rewrite Zplus_mod_idemp_l. Qed.
Lemma u64_i64 z : u64 (i64 z) = u64 z.
Proof.
  unfold i64, u64. rewrite Zminus_mod_idemp_l. f_equal; lia.
Qed.
Lemma u64_add_l a b : u64 (u64 a + b) = u64 (a + b).
Proof. apply Zplus_mod_idemp_l. Qed.
Lemma u64_add_r a b : u64 (a + u64 b) = u64 (a + b).
Proof. apply Zplus_mod_idemp_r. Qed.
Lemma u64_mul_l a b : u64 (u64 a * b) = u64 (a * b).
Proof. apply Zmult_mod_idemp_l. Qed.
#[export] Hint Resolve u64_range u32_range i64_range i32_range : redstone.

(** ** Bits *)

Lemma testbit_high z w i : 0 <= z < 2 ^ w -> w <= i -> Z.testbit z i = false.
Proof.
  intros Hz Hi. destruct (Z.lt_ge_cases w 0).
  { rewrite Z.pow_neg_r in Hz by lia. lia. }
  rewrite <- (Z.mod_small z (2 ^ w)) by lia. apply Z.mod_pow2_bits_high; lia.
Qed.

Lemma range_of_bits z w :
  0 <= w -> 0 <= z -> (forall i, w <= i -> Z.testbit z i = false) -> 0 <= z < 2 ^ w.
Proof.
  intros Hw Hz Hb. split; [done|].
  assert (z = z mod 2 ^ w) as ->; [|apply Z.mod_pos_bound; lia].
  apply Z.bits_inj'; intros i Hi. destruct (Z.lt_ge_cases i w).
  - by rewrite Z.mod_pow2_bits_low by lia.
  - by rewrite Z.mod_pow2_bits_high, Hb by lia.
Qed.

Lemma u64_testbit z i : Z.testbit (u64 z) i = (Z.testbit z i && (i <? 64))%bool.
Proof.
  unfold u64. destruct (Z.ltb_spec i 64).
  - destruct (Z.lt_ge_cases i 0); [by rewrite !Z.testbit_neg_r by lia|].
    rewrite Z.mod_pow2_bits_low by lia. by rewrite andb_true_r.
  - rewrite Z.mod_pow2_bits_high by lia. by rewrite andb_false_r.
Qed.

Lemma lxor_range w a b : 0 <= w -> 0 <= a < 2 ^ w -> 0 <= b < 2 ^ w -> 0 <= Z.lxor a b < 2 ^ w.
Proof.
  intros Hw Ha Hb. apply range_of_bits; [lia|apply Z.lxor_nonneg; lia|].
  intros i Hi. by rewrite Z.lxor_spec, (testbit_high a w), (testbit_high b w) by lia.
Qed.
Lemma lor_range w a b : 0 <= w -> 0 <= a < 2 ^ w -> 0 <= b < 2 ^ w -> 0 <= Z.lor a b < 2 ^ w.
Proof.
  intros Hw Ha Hb. apply range_of_bits; [lia|apply Z.lor_nonneg; lia|].
  intros i Hi. by rewrite Z.lor_spec, (testbit_high a w), (testbit_high b w) by lia.
Qed.
Lemma shiftr_range w a k : 0 <= k -> 0 <= a < 2 ^ w -> 0 <= Z.shiftr a k < 2 ^ w.
Proof.
  intros Hk Ha. rewrite Z.shiftr_div_pow2 by lia.
  split; [apply Z.div_pos; lia|]. apply Z.le_lt_trans with a; [|lia].
  apply Z.div_le_upper_bound; nia.
Qed.

Lemma rotl64_range x k : 0 <= k <= 64 -> is_u64 x -> is_u64 (rotl64 x k).
Proof.
  intros. apply lor_range; [lia|apply u64_range|apply shiftr_range; lia].
Qed.

Lemma rotl64_testbit x k i :
  0 < k < 64 -> is_u64 x -> 0 <= i < 64 ->
  Z.testbit (rotl64 x k) i = Z.testbit x ((i - k) mod 64).
Proof.
  intros Hk Hx Hi. unfold rotl64.
  rewrite Z.lor_spec, u64_testbit, Z.shiftl_spec, Z.shiftr_spec by lia.
  rewrite (proj2 (Z.ltb_lt i 64)) by lia. rewrite andb_true_r.
  destruct (Z.lt_ge_cases i k).
  - rewrite (Z.testbit_neg_r x (i - k)) by lia.
    rewrite <- (Z.mod_add (i - k) 1 64), Z.mod_small by lia. cbn. f_equal; lia.
  - rewrite Z.mod_small by lia.
    rewrite (testbit_high x 64 (i + (64 - k))) by lia. by rewrite orb_false_r.
Qed.

Lemma rotr64_testbit x k i :
  0 < k < 64 -> is_u64 x -> 0 <= i < 64 ->
  Z.testbit (rotr64 x k) i = Z.testbit x ((i + k) mod 64).
Proof.
  intros Hk Hx Hi. unfold rotr64.
  rewrite Z.lor_spec, u64_testbit, Z.shiftl_spec, Z.shiftr_spec by lia.
  rewrite (proj2 (Z.ltb_lt i 64)) by lia. rewrite andb_true_r.
  destruct (Z.lt_ge_cases (i + k) 64).
  - rewrite (Z.testbit_neg_r x (i - (64 - k))) by lia.
    rewrite Z.mod_small by lia. by rewrite orb_false_r.
  - rewrite (testbit_high x 64 (i + k)) by lia.
    rewrite <- (Z.mod_add (i + k) (-1) 64), Z.mod_small by lia. cbn. f_equal; lia.
Qed.

Lemma rotr64_range x k : 0 <= k <= 64 -> is_u64 x -> is_u64 (rotr64 x k).
Proof.
  intros. apply lor_range; [lia|apply shiftr_range; lia|apply u64_range].
Qed.

(** Two words with the same 64 bits are equal. *)
Lemma u64_bits_inj x y :
  is_u64 x -> is_u64 y ->
  (forall i, 0 <= i < 64 -> Z.testbit x i = Z.testbit y i) -> x = y.
Proof.
  intros Hx Hy H. apply Z.bits_inj'; intros i Hi. destruct (Z.lt_ge_cases i 64); [by apply H|].
  by rewrite (testbit_high x 64), (testbit_high y 64) by lia.
Qed.

Lemma rotr_rotl x k : 0 < k < 64 -> is_u64 x -> rotr64 (rotl64 x k) k = x.
Proof.
  intros Hk Hx. pose proof (rotl64_range x k).
  apply u64_bits_inj; [apply rotr64_range; lia|done|]. intros i Hi.
  rewrite rotr64_testbit by lia.
  rewrite rotl64_testbit by (try apply Z.mod_pos_bound; lia).
  rewrite Zminus_mod_idemp_l. f_equal. rewrite Z.mod_small; lia.
Qed.

(** ** Bytes *)

Definition byte_val (b : byte) : Z := Z.of_N (Byte.to_N b).
Definition byte_of (z : Z) : byte :=
  match Byte.of_N (Z.to_N (z mod 256)) with Some b => b | None => x00 end.

#[export] Instance byte_eq_dec : EqDecision byte := Byte.byte_eq_dec.
#[export] Instance byte_inhabited : Inhabited byte := populate x00.
#[export] Instance byte_countable : Countable byte := inj_countable Byte.to_N Byte.of_N Byte.of_to_N.

Lemma byte_val_range b : 0 <= byte_val b < 256.
Proof. unfold byte_val. pose proof (Byte.to_N_bounded b). lia. Qed.
Lemma byte_of_val b : byte_of (byte_val b) = b.
Proof.
  unfold byte_of. rewrite Z.mod_small by apply byte_val_range.
  unfold byte_val. by rewrite N2Z.id, Byte.of_to_N.
Qed.
Lemma byte_val_of z : byte_val (byte_of z) = z mod 256.
Proof.
  unfold byte_val, byte_of. pose proof (Z.mod_pos_bound z 256 ltac:(lia)).
  destruct (Byte.of_N _) eqn:E.
  - apply Byte.to_of_N in E. rewrite E. lia.
  - apply Byte.of_N_None_iff in E. lia.
Qed.
Lemma byte_val_inj a b : byte_val a = byte_val b -> a = b.
Proof. intros H. by rewrite <- (byte_of_val a), H, byte_of_val. Qed.

(** [n] bytes of [z], and the value of a byte string, least significant first. *)
Fixpoint le_bytes (n : nat) (z : Z) : list byte :=
  match n with
  | O => []
  | S n => byte_of z :: le_bytes n (z / 256)
  end.
Fixpoint le_value (bs : list byte) : Z :=
  match bs with
  | [] => 0
  | b :: bs => byte_val b + 256 * le_value bs
  end.

Lemma length_le_bytes n z : length (le_bytes n z) = n.
Proof. revert z; induction n; intros; cbn; auto. Qed.
Lemma le_bytes_value bs : le_bytes (length bs) (le_value bs) = bs.
Proof.
  induction bs as [|b bs IH]; [done|]. cbn [length le_value le_bytes].
  pose proof (byte_val_range b). f_equal.
  - apply byte_val_inj. rewrite byte_val_of.
    rewrite Z.mul_comm, Z.mod_add by lia. by apply Z.mod_small.
  - rewrite Z.mul_comm, Z.div_add, Z.div_small by lia. apply IH.
Qed.
Lemma le_value_bytes n z : le_value (le_bytes n z) = z mod 256 ^ Z.of_nat n.
Proof.
  revert z; induction n as [|n IH]; intros z; cbn [le_bytes le_value]; [by rewrite Z.mod_1_r|].
  rewrite IH, byte_val_of, Nat2Z.inj_succ, Z.pow_succ_r by lia.
  rewrite Z.rem_mul_r; [done|lia|]. apply Z.pow_pos_nonneg; lia.
Qed.
Lemma le_value_range bs : 0 <= le_value bs < 256 ^ Z.of_nat (length bs).
Proof.
  rewrite <- (le_bytes_value bs) at 1 2. rewrite le_value_bytes.
  apply Z.mod_pos_bound. apply Z.pow_pos_nonneg; lia.
Qed.
