(* ===== verification/Float.v ===== *)
(** * IEEE binary64

    The program's [double]s are values of [spec_float] (Stdlib), computed with
    round-to-nearest-even at precision 53.  This file fixes the operations the
    program uses and shows that scaling by 2^64 is exact, which is what the
    probability threshold of [gen_bool] relies on. *)

From Stdlib Require Import SpecFloat.
From S2P Require Import Prelude Words.

Definition double := spec_float.

Definition prec := 53.
Definition emax := 1024.

Definition dmul : double -> double -> double := SFmul prec emax.
Definition ddiv : double -> double -> double := SFdiv prec emax.
Definition dadd : double -> double -> double := SFadd prec emax.
Definition dle : double -> double -> bool := SFleb.
Definition dlt : double -> double -> bool := SFltb.
(** Conversion of an integer, rounded. *)
Definition of_int (z : Z) : double := binary_normalize prec emax z 0 false.

(** Truncation toward zero; [None] for an infinity or a NaN. *)
Definition trunc (d : double) : option Z :=
  match d with
  | S754_zero _ => Some 0
  | S754_finite s m e =>
      let v := if 0 <=? e then Zpos m * 2 ^ e else Zpos m / 2 ^ (- e) in
      Some (if s then - v else v)
  | _ => None
  end.

(** [static_cast<uint64_t>(d)]: undefined when the truncated value does not fit. *)
Definition to_u64 (d : double) : outcome Z :=
  match trunc d with
  | Some v => if (0 <=? v) && (v <? 2 ^ 64) then Ret v else Undefined
  | None => Undefined
  end.
(** The same for a signed 64-bit target. *)
Definition to_i64 (d : double) : outcome Z :=
  match trunc d with
  | Some v => if (- 2 ^ 63 <=? v) && (v <? 2 ^ 63) then Ret v else Undefined
  | None => Undefined
  end.

Lemma to_u64_trunc d v : trunc d = Some v -> is_u64 v -> to_u64 d = Ret v.
Proof.
  intros E Hv. unfold to_u64. rewrite E.
  destruct (Z.leb_spec 0 v); [|lia]. destruct (Z.ltb_spec v (2 ^ 64)); [done|lia].
Qed.

#[export] Instance double_eq_dec : EqDecision double.
Proof. unfold double. solve_decision. Defined.

Definition d0 : double := S754_zero false.
Definition d1 : double := S754_finite false 4503599627370496 (-52).
(** [2^64] *)
Definition two64 : double := S754_finite false 4503599627370496 12.

Example of_int_1 : of_int 1 = d1.
Proof. reflexivity. Qed.
Example two64_eq : dmul (of_int 2) (of_int (2 ^ 63)) = two64.
Proof. reflexivity. Qed.

(** ** Exactness of scaling by a power of two *)

Lemma shr_1_double m : shr_1 {| shr_m := Zpos m~0; shr_r := false; shr_s := false |}
  = {| shr_m := Zpos m; shr_r := false; shr_s := false |}.
Proof. reflexivity. Qed.

Definition pos_shl (m : positive) (k : nat) : positive := Nat.iter k xO m.

Lemma pos_shl_S m k : pos_shl m (S k) = xO (pos_shl m k).
Proof. reflexivity. Qed.
Lemma pos_shl_Z m k : Zpos (pos_shl m k) = Zpos m * 2 ^ Z.of_nat k.
Proof.
  induction k as [|k IH]; [cbn; lia|].
  rewrite pos_shl_S, Pos2Z.inj_xO, IH, Nat2Z.inj_succ, Z.pow_succ_r by lia. lia.
Qed.

Lemma iter_shr m k j :
  Nat.iter k shr_1 {| shr_m := Zpos (pos_shl m (k + j)); shr_r := false; shr_s := false |}
  = {| shr_m := Zpos (pos_shl m j); shr_r := false; shr_s := false |}.
Proof.
  induction k as [|k IH]; [done|].
  rewrite Nat.iter_succ_r. cbn [Nat.add]. rewrite pos_shl_S, shr_1_double. apply IH.
Qed.

Lemma iter_pos_nat {A} (f : A -> A) p x : SpecFloat.iter_pos f p x = Nat.iter (Pos.to_nat p) f x.
Proof.
  revert x; induction p as [p IH|p IH|]; intros x; cbn [SpecFloat.iter_pos]; [| |done].
  - rewrite !IH, Pos2Nat.inj_xI, Nat.iter_succ_r.
    rewrite <- Nat.iter_add. f_equal. lia.
  - rewrite !IH, Pos2Nat.inj_xO, <- Nat.iter_add. f_equal. lia.
Qed.

Lemma shr_exact m (k j : nat) e :
  shr {| shr_m := Zpos (pos_shl m (k + j)); shr_r := false; shr_s := false |} e (Z.of_nat k)
  = ({| shr_m := Zpos (pos_shl m j); shr_r := false; shr_s := false |}, e + Z.of_nat k).
Proof.
  destruct k as [|k].
  - cbn [shr Z.of_nat Nat.add]. by rewrite Z.add_0_r.
  - rewrite <- (iter_shr m (S k) j). unfold shr. cbn [Z.of_nat]. f_equal.
    rewrite iter_pos_nat. by rewrite SuccNat2Pos.id_succ.
Qed.

Lemma digits_shl m k : Zdigits2 (Zpos (pos_shl m k)) = Zdigits2 (Zpos m) + Z.of_nat k.
Proof.
  induction k as [|k IH]; [by rewrite Z.add_0_r|].
  rewrite pos_shl_S. cbn [Zdigits2 digits2_pos] in *. rewrite Pos2Z.inj_succ, IH. lia.
Qed.

Lemma mul_pow52 m : (m * 4503599627370496)%positive = pos_shl m 52.
Proof.
  apply (inj Zpos). rewrite pos_shl_Z, Pos2Z.inj_mul. reflexivity.
Qed.

(** The product of a canonical double of value at most one by [2^64] has the
    exact value. *)
Lemma dmul_two64 m e :
  bounded prec emax m e = true -> e <= 0 ->
  exists j k : nat, (k + j = 52)%nat /\
    dmul (S754_finite false m e) two64
      = S754_finite false (pos_shl m j) (e + 12 + Z.of_nat k).
Proof.
  unfold bounded, canonical_mantissa, fexp, emin, prec, emax.
  intros Hb He. zify_bool.
  set (D := Zpos (digits2_pos m)) in *.
  assert (HD : 1 <= D <= 53) by lia.
  exists (Z.to_nat (53 - D)), (Z.to_nat (D - 1)). split; [lia|].
  unfold dmul, two64. cbn [SFmul xorb]. rewrite mul_pow52.
  assert (E52 : pos_shl m 52 = pos_shl m (Z.to_nat (D - 1) + Z.to_nat (53 - D)))
    by (f_equal; lia).
  unfold binary_round_aux, shr_fexp. rewrite digits_shl.
  change (Zdigits2 (Zpos m)) with D. cbn [shr_record_of_loc].
  replace (fexp prec emax (D + Z.of_nat 52 + (e + 12)) - (e + 12)) with (Z.of_nat (Z.to_nat (D - 1)))
    by (unfold fexp, emin, prec, emax; lia).
  rewrite E52, shr_exact. cbn [shr_m loc_of_shr_record round_nearest_even].
  rewrite digits_shl. change (Zdigits2 (Zpos m)) with D.
  replace (fexp _ _ _ - _) with 0 by (unfold fexp, emin, prec, emax; lia).
  cbn [shr shr_m]. rewrite (proj2 (Z.leb_le _ _)) by (unfold emax, prec; lia). done.
Qed.

(** [floor(p * 2^64)] for [p = m * 2^e]. *)
Definition scaled64 (m : positive) (e : Z) : Z :=
  if 0 <=? e + 64 then Zpos m * 2 ^ (e + 64) else Zpos m / 2 ^ (- (e + 64)).

Lemma trunc_mul_two64 m e :
  bounded prec emax m e = true -> e <= 0 ->
  trunc (dmul (S754_finite false m e) two64) = Some (scaled64 m e).
Proof.
  intros Hb He. destruct (dmul_two64 m e Hb He) as (j & k & Hjk & ->).
  cbn [trunc]. rewrite pos_shl_Z. unfold scaled64. f_equal.
  destruct (Z.leb_spec 0 (e + 12 + Z.of_nat k)).
  - rewrite (proj2 (Z.leb_le _ _)), <- Z.mul_assoc, <- Z.pow_add_r by lia. do 2 f_equal; lia.
  - destruct (Z.leb_spec 0 (e + 64)).
    + replace (2 ^ Z.of_nat j) with (2 ^ (e + 64) * 2 ^ (- (e + 12 + Z.of_nat k)))
        by (rewrite <- Z.pow_add_r by lia; f_equal; lia).
      rewrite Z.mul_assoc, Z.div_mul by (apply Z.pow_nonzero; lia). done.
    + replace (- (e + 12 + Z.of_nat k)) with (Z.of_nat j + - (e + 64)) by lia.
      rewrite Z.pow_add_r by lia.
      rewrite (Z.mul_comm (2 ^ Z.of_nat j)), Z.div_mul_cancel_r by (apply Z.pow_nonzero; lia). done.
Qed.

Lemma digits_bound m : Zpos m < 2 ^ Zpos (digits2_pos m).
Proof.
  induction m as [m IH|m IH|]; cbn [digits2_pos]; [| |reflexivity];
    rewrite Pos2Z.inj_succ, Z.pow_succ_r by lia; lia.
Qed.

Lemma dlt_pos e1 e2 m1 m2 :
  dlt (S754_finite false m1 e1) (S754_finite false m2 e2) = true ->
  e1 < e2 \/ (e1 = e2 /\ (m1 < m2)%positive).
Proof.
  unfold dlt, SFltb. cbn [SFcompare]. destruct (Z.compare_spec e1 e2); [|by left|done].
  destruct (Pos.compare_cont Eq m1 m2) eqn:E; [done| |done]. by right.
Qed.

Lemma dlt_d1 m e :
  dlt (S754_finite false m e) d1 = true -> e < -52 \/ (e = -52 /\ Zpos m < 4503599627370496).
Proof. apply dlt_pos. Qed.

(** A canonical double below one is [m * 2^e] with a threshold well below
    [2^64]: the spacing of doubles there is at least 2048. *)
Lemma scaled64_range m e :
  bounded prec emax m e = true -> dlt (S754_finite false m e) d1 = true ->
  e <= 0 /\ 0 <= scaled64 m e <= 2 ^ 64 - 2048.
Proof.
  intros Hb Hlt. pose proof (digits_bound m) as Hm.
  unfold bounded, canonical_mantissa, fexp, emin, prec, emax in Hb. zify_bool.
  assert (Hc : e < -52 \/ (e = -52 /\ Zpos m < 4503599627370496)) by by apply dlt_d1.
  assert (Hm53 : Zpos m < 2 ^ 53).
  { eapply Z.lt_le_trans; [exact Hm|]. apply Z.pow_le_mono_r; lia. }
  split; [lia|]. unfold scaled64. destruct (Z.leb_spec 0 (e + 64)).
  - destruct Hc as [Hc|[-> Hc]]; [|cbn; lia]. split; [lia|].
    apply Z.le_trans with ((2 ^ 53 - 1) * 2 ^ 11); [|lia].
    apply Z.mul_le_mono_nonneg; try lia. apply Z.pow_le_mono_r; lia.
  - split; [apply Z.div_pos; lia|]. apply Z.div_le_upper_bound; [lia|].
    assert (1 < 2 ^ (- (e + 64))) by (apply Z.pow_gt_1; lia). nia.
Qed.

Lemma dlt_dle x y : dlt x y = true -> dle x y = true.
Proof.
  unfold dlt, dle, SFltb, SFleb. destruct (SFcompare x y) as [[]|]; congruence.
Qed.
