(* ===== verification/Random.v ===== *)
(** * The random generators: src/random/splitmix.hpp, xoshiro.hpp, rng.hpp

    [SplitMix] and [Xoshiro] model the two generators; the class [Rng] is the
    [next()] interface the templates of rng.hpp are written against, and
    [RngOk] its law (a 64-bit result, an invariant that is kept).  The
    sampling templates ([gen_range]) are proved against the interface. *)

From Stdlib Require Import Strings.Byte Btauto.
From Stdlib Require Import SpecFloat.
From S2P Require Import Prelude Words Float.

(** ** The interface *)

Class Rng (R : Type) := rng_next : R -> Z * R.

Class RngOk (R : Type) `{Rng R} := {
  rng_wf : R -> Prop;
  rng_next_range : forall r, rng_wf r -> is_u64 (rng_next r).1;
  rng_next_wf : forall r, rng_wf r -> rng_wf (rng_next r).2;
}.

(** ** SplitMix *)

(** [z ^ (z >> k)] *)
Definition xorshr (z k : Z) : Z := Z.lxor z (Z.shiftr z k).

Module SplitMix.

Record split_mix := { seed_ : Z; gamma_ : Z }.

Definition default_gamma : Z := 0x9e3779b97f4a7c15.

Definition make (seed gamma : Z) : split_mix := {| seed_ := seed; gamma_ := gamma |}.

Definition next_seed (r : split_mix) : Z * split_mix :=
  let s := u64 (seed_ r + gamma_ r) in (s, {| seed_ := s; gamma_ := gamma_ r |}).

Definition mix32 (z : Z) : Z :=
  let z := u64 (xorshr z 30 * 0xbf58476d1ce4e5b9) in
  let z := u64 (xorshr z 27 * 0x94d049bb133111eb) in
  u32 (xorshr z 31).

(** The 64-bit value [mix64] computes before its [uint32_t] return type
    narrows it. *)
Definition mix64_bits (z : Z) : Z :=
  let z := u64 (xorshr z 33 * 0xff51afd7ed558ccd) in
  let z := u64 (xorshr z 33 * 0xc4ceb9fe1a85ec53) in
  xorshr z 33.

Definition mix64 (z : Z) : Z := u32 (mix64_bits z).

Definition mix64variant13 (z : Z) : Z :=
  let z := u64 (xorshr z 30 * 0xbf58476d1ce4e5b9) in
  let z := u64 (xorshr z 27 * 0x94d049bb133111eb) in
  xorshr z 31.

Definition popcountll (z : Z) : Z :=
  Z.of_nat (length (filter (fun i => Z.testbit z i = true) (seqZ 0 64))).

Definition mix_gamma (z : Z) : Z :=
  let z := Z.lor (mix64variant13 z) 1 in
  let n := popcountll (xorshr z 1) in
  if 24 <=? n then Z.lxor z 0xaaaaaaaaaaaaaaaa else z.

Definition next (r : split_mix) : Z * split_mix :=
  let '(s, r) := next_seed r in (mix64 s, r).

#[global] Instance split_mix_rng : Rng split_mix := next.

End SplitMix.

(** ** Xoshiro256** *)

Module Xoshiro.

Record xoshiro256_star_star := mk { s0 : Z; s1 : Z; s2 : Z; s3 : Z }.

Definition seed_size : nat := 32.

(** The default constructor value-initialises the state. *)
Definition default : xoshiro256_star_star := mk 0 0 0 0.

Definition set_seed (a b c d : Z) : xoshiro256_star_star := mk a b c d.

(** [memcpy] of 32 bytes into [state_]. *)
Definition of_bytes (bs : list byte) : xoshiro256_star_star :=
  mk (le_value (take 8 bs)) (le_value (take 8 (drop 8 bs)))
     (le_value (take 8 (drop 16 bs))) (le_value (take 8 (drop 24 bs))).

(** [seed(seq)]: [gen] is the eight words [seq.generate] stores. *)
Definition seed (gen : list Z) : xoshiro256_star_star :=
  of_bytes (flat_map (fun w => le_bytes 4 w) (take 8 gen)).

Definition min : Z := 0.
Definition max : Z := 2 ^ 64 - 1.

Definition next (r : xoshiro256_star_star) : Z * xoshiro256_star_star :=
  let result := u64 (rotl64 (u64 (s1 r * 5)) 7 * 9) in
  let t := u64 (Z.shiftl (s1 r) 17) in
  let a2 := Z.lxor (s2 r) (s0 r) in
  let a3 := Z.lxor (s3 r) (s1 r) in
  let a1 := Z.lxor (s1 r) a2 in
  let a0 := Z.lxor (s0 r) a3 in
  let a2 := Z.lxor a2 t in
  let a3 := rotl64 a3 45 in
  (result, mk a0 a1 a2 a3).

#[global] Instance xoshiro_rng : Rng xoshiro256_star_star := next.

(** [seed_from(rng)]: four draws of the source. *)
Definition seed_from {R} `{Rng R} (rng : R) : xoshiro256_star_star * R :=
  let '(a, rng) := rng_next rng in
  let '(b, rng) := rng_next rng in
  let '(c, rng) := rng_next rng in
  let '(d, rng) := rng_next rng in
  (mk a b c d, rng).

#[global] Instance xoshiro_eq_dec : EqDecision xoshiro256_star_star.
Proof. solve_decision. Defined.

End Xoshiro.

(** ** Templates over a generator (rng.hpp and the [fill_bytes] members) *)

Section Templates.
Context {R : Type} `{Rng R}.

(** [fill_bytes(buf)] over a span of [n] bytes: whole 8-byte blocks, then one
    more draw for the (possibly empty) rest.  The loop runs at most
    [n / 8 < fuel] times. *)
Fixpoint fill_loop (fuel n : nat) (r : R) : list byte * R :=
  match fuel with
  | O => ([], r)
  | S fuel =>
      let '(block, r) := rng_next r in
      if (8 <=? n)%nat then
        let '(rest, r) := fill_loop fuel (n - 8) r in (le_bytes 8 block ++ rest, r)
      else (take n (le_bytes 8 block), r)
  end.
Definition fill_bytes (n : nat) (r : R) : list byte * R := fill_loop (S n) n r.

(** [seed_from_rng<xoshiro256_star_star>(source)] *)
Definition seed_from_rng (source : R) : Xoshiro.xoshiro256_star_star * R :=
  let '(bytes, source) := fill_bytes Xoshiro.seed_size source in
  (Xoshiro.of_bytes bytes, source).

(** [sample_uniform<uint64_t>]: [v % 0] is undefined. *)
Definition sample_uniform_u64 (r : R) (first last : Z) : outcome (Z * R) :=
  let width := u64 (last - first) in
  let '(v, r) := rng_next r in
  if width =? 0 then Undefined else Ret (u64 (first + v mod width), r).

(** [sample_uniform<long>] converts to [uint64_t] and back. *)
Definition sample_uniform_long (r : R) (first last : Z) : outcome (Z * R) :=
  '(v, r) ← sample_uniform_u64 r (u64 first) (u64 last); Ret (i64 v, r).

(** [sample_uniform<duration>]: a duration is its count. *)
Definition sample_uniform_duration (r : R) (first last : Z) : outcome (Z * R) :=
  '(v, r) ← sample_uniform_long r first last; Ret (v, r).

Definition gen_range (r : R) (first last : Z) : outcome (Z * R) :=
  sample_uniform_duration r first last.

(** [gen_bool(rng, p)]: the threshold is [p] scaled by [2.0 * 2^63]. *)
Definition gen_bool `{Build} (r : R) (p : double) : outcome (bool * R) :=
  _ ← assert_ (dle d0 p && dle p d1);
  threshold ← to_u64 (dmul p (dmul (of_int 2) (of_int (2 ^ 63))));
  let '(v, r) := rng_next r in
  if threshold =? 2 ^ 64 - 1 then Ret (true, r) else Ret (v <? threshold, r).

End Templates.

(** ** Proof automation for words, bit by bit *)

Create Rewrite HintDb wbits.
#[export] Hint Rewrite Z.lxor_spec Z.lor_spec u64_testbit : wbits.

Ltac word_ranges :=
  repeat first
    [ assumption | apply u64_range | apply lxor_range; [lia| |] | apply lor_range; [lia| |]
    | apply rotl64_range; [lia|] | apply rotr64_range; [lia|]
    | apply shiftr_range; [lia|] | lia ].

Lemma xorshr_range z k : 0 <= k -> is_u64 z -> is_u64 (xorshr z k).
Proof. intros. unfold xorshr. word_ranges. Qed.

(** [x ^ (x >> k)] with [2k >= 64] undoes itself. *)
Lemma xorshr_involutive z k : 32 <= k -> is_u64 z -> xorshr (xorshr z k) k = z.
Proof.
  intros Hk Hz. unfold xorshr. apply u64_bits_inj; [word_ranges|done|]. intros i Hi.
  rewrite !Z.lxor_spec, !Z.shiftr_spec, Z.lxor_spec, Z.shiftr_spec by lia.
  rewrite (testbit_high z 64 (i + k + k)) by lia. btauto.
Qed.

(** Multiplying by an odd constant undoes with its inverse modulo [2^64]. *)
Lemma mul_odd_inv z c d : u64 (c * d) = 1 -> is_u64 z -> u64 (u64 (z * c) * d) = z.
Proof.
  intros Hcd Hz. rewrite u64_mul_l, <- Z.mul_assoc, Z.mul_comm.
  rewrite <- u64_mul_l, Hcd, Z.mul_1_l. by apply u64_id.
Qed.

(** Multiples of an odd number modulo [2^64] tell the multipliers apart. *)
Lemma odd_multiple_inj a g i j :
  g mod 2 = 1 -> 0 <= i < 2 ^ 64 -> 0 <= j < 2 ^ 64 ->
  u64 (a + i * g) = u64 (a + j * g) -> i = j.
Proof.
  intros Hg Hi Hj E.
  assert (Hrel : Z.gcd (2 ^ 64) g = 1).
  { apply (Z.coprime_pow_l 2 g 64); [lia|]. unfold Z.coprime.
    rewrite <- (Z.gcd_mod g 2) by lia. by rewrite Hg. }
  assert (Hdiv : (2 ^ 64 | g * (i - j))).
  { apply Z.mod_divide; [lia|]. unfold u64 in E.
    replace (g * (i - j)) with ((a + i * g) - (a + j * g)) by ring.
    by rewrite Zminus_mod, E, Z.sub_diag. }
  apply Z.gauss in Hdiv; [|done]. destruct Hdiv as [k Hk]. nia.
Qed.

Module SplitMixFacts.
Import SplitMix.

(** The inverse of [mix64_bits]. *)
Definition unmix64_bits (z : Z) : Z :=
  let z := xorshr z 33 in
  let z := xorshr (u64 (z * 0x9cb4b2f8129337db)) 33 in
  xorshr (u64 (z * 0x4f74430c22a54005)) 33.

Lemma mix64_bits_range z : is_u64 z -> is_u64 (mix64_bits z).
Proof. intros. unfold mix64_bits. apply xorshr_range; [lia|apply u64_range]. Qed.

Lemma unmix_mix z : is_u64 z -> unmix64_bits (mix64_bits z) = z.
Proof.
  intros Hz. unfold unmix64_bits, mix64_bits.
  rewrite (xorshr_involutive (u64 _)) by (try apply u64_range; lia).
  rewrite mul_odd_inv; [|reflexivity|apply xorshr_range; [lia|apply u64_range]].
  rewrite xorshr_involutive by (try apply u64_range; lia).
  rewrite mul_odd_inv; [|reflexivity|apply xorshr_range; [lia|done]].
  by apply xorshr_involutive.
Qed.

(** [next_seed] walks a full-period counter: after [n] calls the state is
    [seed + n * gamma]. *)
Definition seed_after (r : split_mix) (n : nat) : split_mix :=
  Nat.iter n (fun r => (next r).2) r.

Lemma seed_next r : seed_ (next r).2 = u64 (seed_ r + gamma_ r).
Proof. reflexivity. Qed.
Lemma gamma_next r : gamma_ (next r).2 = gamma_ r.
Proof. reflexivity. Qed.

Lemma seed_after_eq r n :
  is_u64 (seed_ r) ->
  seed_ (seed_after r n) = u64 (seed_ r + Z.of_nat n * gamma_ r)
  /\ gamma_ (seed_after r n) = gamma_ r.
Proof.
  intros Hs. unfold seed_after. induction n as [|n [IH1 IH2]].
  { cbn [Nat.iter nat_rect]. rewrite Z.mul_0_l, Z.add_0_r. by rewrite u64_id. }
  rewrite Nat.iter_succ, seed_next, gamma_next, IH1, IH2, u64_add_l. split; [f_equal; lia|done].
Qed.

End SplitMixFacts.

Module XoshiroFacts.
Import Xoshiro.

Definition wf (r : xoshiro256_star_star) : Prop :=
  is_u64 (s0 r) /\ is_u64 (s1 r) /\ is_u64 (s2 r) /\ is_u64 (s3 r).

Definition step (r : xoshiro256_star_star) := (next r).2.

Lemma next_range r : wf r -> is_u64 (next r).1.
Proof. intros _. apply u64_range. Qed.
Lemma step_wf r : wf r -> wf (step r).
Proof.
  intros (H0 & H1 & H2 & H3). unfold step, wf; cbn [next snd s0 s1 s2 s3].
  refine (conj _ (conj _ (conj _ _))); word_ranges.
Qed.

(** The inverse of [x ^ (x << 17)]. *)
Definition unshl17 (y : Z) : Z :=
  Z.lxor (Z.lxor y (u64 (Z.shiftl y 17)))
         (Z.lxor (u64 (Z.shiftl y 34)) (u64 (Z.shiftl y 51))).

Lemma unshl17_spec x : is_u64 x -> unshl17 (Z.lxor x (u64 (Z.shiftl x 17))) = x.
Proof.
  intros Hx. unfold unshl17. apply u64_bits_inj; [word_ranges|done|]. intros i Hi.
  autorewrite with wbits. rewrite !Z.shiftl_spec by lia. autorewrite with wbits.
  rewrite (proj2 (Z.ltb_lt i 64)) by lia.
  rewrite (proj2 (Z.ltb_lt (i - 17) 64)), (proj2 (Z.ltb_lt (i - 34) 64)),
    (proj2 (Z.ltb_lt (i - 51) 64)) by lia.
  assert (S17 : forall j, j < 64 ->
    Z.testbit (Z.shiftl x 17) j = Z.testbit x (j - 17)).
  { intros j Hj. destruct (Z.lt_ge_cases j 0).
    - by rewrite !Z.testbit_neg_r by lia.
    - by rewrite Z.shiftl_spec by lia. }
  rewrite !S17 by lia.
  replace (i - 17 - 17) with (i - 34) by lia. replace (i - 34 - 17) with (i - 51) by lia.
  rewrite (Z.testbit_neg_r x (i - 51 - 17)) by lia. btauto.
Qed.

(** The inverse transition. *)
Definition unstep (r : xoshiro256_star_star) : xoshiro256_star_star :=
  let a3 := rotr64 (s3 r) 45 in
  let b0 := Z.lxor (s0 r) a3 in
  let b1 := unshl17 (Z.lxor (s1 r) (s2 r)) in
  let a2 := Z.lxor (s1 r) b1 in
  mk b0 b1 (Z.lxor a2 b0) (Z.lxor a3 b1).

Lemma unstep_step r : wf r -> unstep (step r) = r.
Proof.
  intros (H0 & H1 & H2 & H3). destruct r as [a b c d]; cbn in *.
  unfold unstep, step; cbn.
  rewrite rotr_rotl by (word_ranges; lia).
  replace (Z.lxor (Z.lxor b (Z.lxor c a)) (Z.lxor (Z.lxor c a) (u64 (Z.shiftl b 17))))
    with (Z.lxor b (u64 (Z.shiftl b 17))).
  2:{ rewrite Z.lxor_assoc. f_equal. rewrite <- Z.lxor_assoc.
      by rewrite Z.lxor_nilpotent, Z.lxor_0_l. }
  rewrite unshl17_spec by done.
  f_equal; apply Z.bits_inj'; intros i Hi; rewrite !Z.lxor_spec; btauto.
Qed.

Lemma seed_from_wf {R} `{RngOk R} (rng : R) : rng_wf rng -> wf (seed_from rng).1.
Proof.
  intros Hr. unfold seed_from.
  destruct (rng_next rng) as [a r1] eqn:E1.
  pose proof (rng_next_range rng Hr) as A. pose proof (rng_next_wf rng Hr) as W1.
  rewrite E1 in A, W1; cbn in A, W1.
  destruct (rng_next r1) as [b r2] eqn:E2.
  pose proof (rng_next_range r1 W1) as B. pose proof (rng_next_wf r1 W1) as W2.
  rewrite E2 in B, W2; cbn in B, W2.
  destruct (rng_next r2) as [c r3] eqn:E3.
  pose proof (rng_next_range r2 W2) as C. pose proof (rng_next_wf r2 W2) as W3.
  rewrite E3 in C, W3; cbn in C, W3.
  destruct (rng_next r3) as [d r4] eqn:E4.
  pose proof (rng_next_range r3 W3) as D. rewrite E4 in D; cbn in D.
  exact (conj A (conj B (conj C D))).
Qed.

End XoshiroFacts.

#[export] Program Instance split_mix_ok : RngOk SplitMix.split_mix := {|
  rng_wf r := True |}.
Next Obligation.
  intros r _. cbn. unfold SplitMix.mix64. pose proof (u32_range (SplitMix.mix64_bits (u64 (SplitMix.seed_ r + SplitMix.gamma_ r)))). lia.
Qed.
Next Obligation. done. Qed.

#[export] Instance xoshiro_ok : RngOk Xoshiro.xoshiro256_star_star := {|
  rng_wf := XoshiroFacts.wf;
  rng_next_range := XoshiroFacts.next_range;
  rng_next_wf := XoshiroFacts.step_wf |}.

(** ** The stream of a generator, and the templates in terms of it *)

Section Streams.
Context {R : Type} `{RngOk R}.

Definition after (r : R) (k : nat) : R := Nat.iter k (fun r => (rng_next r).2) r.
Definition draw (r : R) (k : nat) : Z := (rng_next (after r k)).1.
Fixpoint draws (r : R) (k : nat) : list Z :=
  match k with
  | O => []
  | S k => let '(v, r) := rng_next r in v :: draws r k
  end.

Lemma after_S r k : after r (S k) = after (rng_next r).2 k.
Proof. unfold after. rewrite Nat.iter_succ_r. done. Qed.
Lemma after_wf r k : rng_wf r -> rng_wf (after r k).
Proof.
  intros Hr. induction k as [|k IH]; [done|]. unfold after. rewrite Nat.iter_succ.
  by apply rng_next_wf.
Qed.
Lemma draw_range r k : rng_wf r -> is_u64 (draw r k).
Proof. intros. by apply rng_next_range, after_wf. Qed.
Lemma draw_S r k : draw r (S k) = draw (rng_next r).2 k.
Proof. unfold draw. by rewrite after_S. Qed.
Lemma draw_after_1 r : rng_next r = (draw r 0, after r 1).
Proof. unfold draw, after. cbn. by destruct (rng_next r). Qed.
Lemma draws_lookup r k i : (i < k)%nat -> draws r k !! i = Some (draw r i).
Proof.
  revert r i; induction k as [|k IH]; intros r i Hi; [lia|]. cbn.
  destruct (rng_next r) as [v r'] eqn:E. destruct i as [|i]; cbn.
  - unfold draw; cbn. by rewrite E.
  - rewrite IH by lia. rewrite draw_S. by rewrite E.
Qed.
Lemma length_draws r k : length (draws r k) = k.
Proof.
  revert r; induction k as [|k IH]; intros r; cbn; [done|].
  destruct (rng_next r); cbn. by rewrite IH.
Qed.

(** The bytes [fill_bytes] stores: those of [n / 8 + 1] draws, cut at [n]. *)
Lemma fill_loop_eq fuel n r :
  (n < fuel)%nat ->
  fill_loop fuel n r =
    (take n (flat_map (le_bytes 8) (draws r (n / 8 + 1))), after r (n / 8 + 1)).
Proof.
  revert n r; induction fuel as [|fuel IH]; intros n r Hn; [lia|].
  cbn [fill_loop]. rewrite (Nat.add_comm (n / 8)). cbn [Nat.add draws]. rewrite after_S.
  destruct (rng_next r) as [v r'] eqn:E. cbn [flat_map snd].
  destruct (Nat.leb_spec 8 n).
  - rewrite IH by lia.
    assert (n / 8 = (n - 8) / 8 + 1)%nat as ->.
    { replace n with (n - 8 + 1 * 8)%nat at 1 by lia. rewrite Nat.div_add by lia. lia. }
    f_equal. rewrite take_app_ge by (rewrite length_le_bytes; lia).
    by rewrite length_le_bytes.
  - rewrite Nat.div_small by lia. cbn [draws flat_map]. by rewrite app_nil_r.
Qed.

Lemma length_flat_map_le_bytes (vs : list Z) :
  length (flat_map (le_bytes 8) vs) = (8 * length vs)%nat.
Proof.
  induction vs as [|v vs IH]; [done|]. cbn [flat_map].
  rewrite length_app, length_le_bytes, IH. cbn [length]. lia.
Qed.

Lemma le_value_8 v : is_u64 v -> le_value (le_bytes 8 v) = v.
Proof. intros. rewrite le_value_bytes. by apply Z.mod_small. Qed.

Lemma seed_from_stream r :
  rng_wf r ->
  Xoshiro.of_bytes (take Xoshiro.seed_size (flat_map (le_bytes 8) (draws r 5)))
    = (Xoshiro.seed_from r).1
  /\ (Xoshiro.seed_from r).2 = after r 4.
Proof.
  intros Hr. pose proof (draw_range r 0 Hr) as D0. pose proof (draw_range r 1 Hr) as D1.
  pose proof (draw_range r 2 Hr) as D2. pose proof (draw_range r 3 Hr) as D3.
  unfold Xoshiro.seed_from, after, draw, after in *. cbn [Nat.iter nat_rect draws] in *.
  destruct (rng_next r) as [a r1]. cbn [fst snd] in *.
  destruct (rng_next r1) as [b r2]. cbn [fst snd] in *.
  destruct (rng_next r2) as [c r3]. cbn [fst snd] in *.
  destruct (rng_next r3) as [d r4]. cbn [fst snd] in *.
  destruct (rng_next r4) as [e r5]. split; [|done]. cbn [fst].
  transitivity (Xoshiro.mk (le_value (le_bytes 8 a)) (le_value (le_bytes 8 b))
                           (le_value (le_bytes 8 c)) (le_value (le_bytes 8 d))); [reflexivity|].
  by rewrite !le_value_8.
Qed.

Lemma sample_u64_inv r first last v r' :
  sample_uniform_u64 r first last = Ret (v, r') ->
  u64 (last - first) <> 0 /\ v = u64 (first + draw r 0 mod u64 (last - first))
  /\ r' = after r 1.
Proof.
  unfold sample_uniform_u64, draw, after; cbn.
  destruct (rng_next r) as [d r1]; cbn.
  destruct (Z.eqb_spec (u64 (last - first)) 0); [done|].
  intros [= <- <-]. done.
Qed.

(** [gen_range] over [long]: the width is positive and nothing wraps. *)
Lemma gen_range_eq r first last :
  is_i64 first -> is_i64 last -> first < last ->
  gen_range r first last = Ret (first + draw r 0 mod (last - first), after r 1).
Proof.
  intros Hf Hl Hlt.
  assert (Hw : u64 (u64 last - u64 first) = last - first).
  { unfold u64. rewrite <- Zminus_mod. apply Z.mod_small; lia. }
  unfold gen_range, sample_uniform_duration, sample_uniform_long, sample_uniform_u64.
  rewrite Hw. unfold draw, after; cbn. destruct (rng_next r) as [d r1]; cbn.
  destruct (Z.eqb_spec (last - first) 0); [lia|]. cbn.
  rewrite i64_u64, <- (i64_u64 (u64 first + _)), u64_add_l, i64_u64.
  pose proof (Z.mod_pos_bound d (last - first)). rewrite i64_id by lia. done.
Qed.

(** [gen_bool] for a canonical double strictly between zero and one. *)
Lemma gen_bool_finite `{Build} r m e :
  bounded prec emax m e = true -> dlt (S754_finite false m e) d1 = true ->
  gen_bool r (S754_finite false m e) = Ret (draw r 0 <? scaled64 m e, after r 1).
Proof.
  intros Hb Hlt. destruct (scaled64_range m e Hb Hlt) as [He Hs].
  unfold gen_bool. rewrite (dlt_dle _ _ Hlt). rewrite assert_true by done.
  cbn [mbind outcome_bind].
  rewrite two64_eq, (to_u64_trunc _ (scaled64 m e)) by (try apply trunc_mul_two64; lia || done).
  cbn [mbind outcome_bind]. rewrite (draw_after_1 r).
  destruct (Z.eqb_spec (scaled64 m e) (2 ^ 64 - 1)); [lia|done].
Qed.
Lemma gen_bool_zero `{Build} r : rng_wf r -> gen_bool r d0 = Ret (false, after r 1).
Proof.
  intros Hr. unfold gen_bool. rewrite assert_true by done. cbn [mbind outcome_bind].
  change (to_u64 (dmul d0 (dmul (of_int 2) (of_int (2 ^ 63))))) with (Ret (A:=Z) 0).
  cbn [mbind outcome_bind]. rewrite (draw_after_1 r). pose proof (draw_range r 0 Hr).
  change (0 =? 2 ^ 64 - 1) with false. cbv iota beta.
  by rewrite (proj2 (Z.ltb_ge (draw r 0) 0)) by lia.
Qed.

End Streams.
Arguments after {R _} r k : simpl never.
Arguments draw {R _} r k : simpl never.

(** The published test vector of xoshiro256** for the state 1, 2, 3, 4. *)
Example xoshiro_vector :
  draws (Xoshiro.set_seed 1 2 3 4) 4 = [11520; 0; 1509978240; 1215971899390074240].
Proof. reflexivity. Qed.

(** * Properties *)

(** [gen_range] over a signed 64-bit duration with [first < last] returns
    (no division by zero), lands in [first, last), and consumes exactly one
    draw of the generator; with [first = last] the modulus is zero and the
    behaviour is undefined. *)
Theorem gen_range_bounds {R} `{RngOk R} (r : R) (first last : Z)
  (Hf : is_i64 first) (Hl : is_i64 last) :
  (first < last -> exists v, gen_range r first last = Ret (v, after r 1) /\ first <= v < last)
  /\ (first = last -> gen_range r first last = Undefined).
Proof.
  split.
  - intros Hlt. eexists. split; [by apply gen_range_eq|].
    pose proof (Z.mod_pos_bound (draw r 0) (last - first)). lia.
  - intros ->. unfold gen_range, sample_uniform_duration, sample_uniform_long, sample_uniform_u64.
    rewrite Z.sub_diag. by destruct (rng_next r).
Qed.

Definition sample_seed : Xoshiro.xoshiro256_star_star := Xoshiro.set_seed 1 2 3 4.

Example gen_range_bounds_witness :
  exists v, gen_range sample_seed (-5) 7 = Ret (v, after sample_seed 1) /\ -5 <= v < 7.
Proof.
  apply (proj1 (gen_range_bounds sample_seed (-5) 7 ltac:(lia) ltac:(lia))). reflexivity.
Defined.

(** The xoshiro256** transition is injective on 64-bit states (it is
    undone by [unstep]), keeps every word in 64 bits, fixes the all-zero state
    of the default constructor (which only ever yields 0), and never enters it
    from another state. *)
Theorem xoshiro_step_permutes (a b : Xoshiro.xoshiro256_star_star)
  (Ha : XoshiroFacts.wf a) (Hb : XoshiroFacts.wf b) :
  XoshiroFacts.wf (Xoshiro.next a).2
  /\ ((Xoshiro.next a).2 = (Xoshiro.next b).2 -> a = b)
  /\ Xoshiro.next Xoshiro.default = (0, Xoshiro.default)
  /\ (a <> Xoshiro.default -> (Xoshiro.next a).2 <> Xoshiro.default).
Proof.
  assert (Hinj : forall a b, XoshiroFacts.wf a -> XoshiroFacts.wf b ->
    (Xoshiro.next a).2 = (Xoshiro.next b).2 -> a = b).
  { intros x y Hx Hy E. rewrite <- (XoshiroFacts.unstep_step x Hx), <- (XoshiroFacts.unstep_step y Hy).
    unfold XoshiroFacts.step. by rewrite E. }
  assert (Hz : Xoshiro.next Xoshiro.default = (0, Xoshiro.default)) by reflexivity.
  split_and!; [by apply XoshiroFacts.step_wf|by apply Hinj|done|].
  intros Hne E. apply Hne, Hinj; [done| |by rewrite Hz].
  unfold XoshiroFacts.wf; cbn. lia.
Qed.

Example xoshiro_step_permutes_witness :
  (Xoshiro.next sample_seed).2 <> Xoshiro.default.
Proof.
  assert (Hw : XoshiroFacts.wf sample_seed) by (unfold XoshiroFacts.wf; cbn; lia).
  apply (proj2 (proj2 (proj2 (xoshiro_step_permutes sample_seed sample_seed Hw Hw)))).
  discriminate.
Defined.

(** SplitMix: the 64-bit mixer inside [mix64] loses nothing (it is
    injective), an odd increment walks through 2^64 different states, and yet
    every output of [next] fits in 32 bits, because [mix64] is declared to
    return [uint32_t]. *)
Theorem split_mix_next_narrow (r : SplitMix.split_mix)
  (Hs : is_u64 (SplitMix.seed_ r)) (Hg : SplitMix.gamma_ r mod 2 = 1) :
  is_u32 (SplitMix.next r).1
  /\ (forall x y, is_u64 x -> is_u64 y ->
        SplitMix.mix64_bits x = SplitMix.mix64_bits y -> x = y)
  /\ (forall i j, Z.of_nat i < 2 ^ 64 -> Z.of_nat j < 2 ^ 64 ->
        SplitMix.seed_ (SplitMixFacts.seed_after r i)
          = SplitMix.seed_ (SplitMixFacts.seed_after r j) -> i = j).
Proof.
  split; [|split].
  - apply u32_range.
  - intros x y Hx Hy E.
    by rewrite <- (SplitMixFacts.unmix_mix x Hx), E, SplitMixFacts.unmix_mix.
  - intros i j Hi Hj E.
    rewrite (proj1 (SplitMixFacts.seed_after_eq r i Hs)),
      (proj1 (SplitMixFacts.seed_after_eq r j Hs)) in E.
    apply Nat2Z.inj. refine (odd_multiple_inj _ _ _ _ Hg _ _ E); lia.
Qed.

Example split_mix_next_narrow_witness :
  is_u32 (SplitMix.next (SplitMix.make 0xfeedbeef SplitMix.default_gamma)).1.
Proof.
  refine (proj1 (split_mix_next_narrow _ _ _)); [cbn; lia|reflexivity].
Defined.

(** [fill_bytes] writes exactly the [n] bytes it is given: the little-endian
    bytes of the next [n / 8 + 1] draws cut at [n] (a draw is spent even on an
    empty rest), and seeding xoshiro through 32 such bytes gives the state the
    four-draw [seed_from] gives, at the price of one more draw. *)
Theorem fill_bytes_stream {R} `{RngOk R} (r : R) (n : nat) (Hr : rng_wf r) :
  fill_bytes n r = (take n (flat_map (le_bytes 8) (draws r (n / 8 + 1))), after r (n / 8 + 1))
  /\ length (fill_bytes n r).1 = n
  /\ (seed_from_rng r).1 = (Xoshiro.seed_from r).1
  /\ (seed_from_rng r).2 = after r 5 /\ (Xoshiro.seed_from r).2 = after r 4.
Proof.
  assert (E : forall n, fill_bytes n r
    = (take n (flat_map (le_bytes 8) (draws r (n / 8 + 1))), after r (n / 8 + 1)))
    by (intros; apply fill_loop_eq; lia).
  split; [apply E|split].
  { rewrite E; cbn [fst]. rewrite length_take. apply Nat.min_l.
    rewrite length_flat_map_le_bytes, length_draws.
    pose proof (Nat.div_mod_eq n 8). pose proof (Nat.mod_upper_bound n 8). lia. }
  unfold seed_from_rng. rewrite E. destruct (seed_from_stream r Hr). done.
Qed.

Example fill_bytes_stream_witness :
  length (fill_bytes 11 sample_seed).1 = 11%nat.
Proof.
  assert (Hw : rng_wf sample_seed) by (cbv; intuition discriminate).
  apply (proj1 (proj2 (fill_bytes_stream sample_seed 11 Hw))).
Defined.

(** [gen_bool] in any build. For a double [p = m * 2^e] strictly between
    zero and one, exactly the draws below [floor(p * 2^64)] give [true] and one
    draw is consumed; the special case for the largest threshold is never
    taken. A zero probability never gives [true]. A probability of exactly one
    has undefined behaviour: [2^64] does not fit the [uint64_t] it is cast to. *)
Theorem gen_bool_threshold {R} `{RngOk R} `{Build} (r : R) (m : positive) (e : Z)
  (Hcanon : bounded prec emax m e = true)
  (Hlt : dlt (S754_finite false m e) d1 = true) (Hr : rng_wf r) :
  gen_bool r (S754_finite false m e) = Ret (draw r 0 <? scaled64 m e, after r 1)
  /\ scaled64 m e <> 2 ^ 64 - 1
  /\ gen_bool r d0 = Ret (false, after r 1)
  /\ gen_bool r d1 = Undefined.
Proof.
  destruct (scaled64_range m e Hcanon Hlt) as [He Hs].
  split; [by apply gen_bool_finite|split; [lia|split]].
  - by apply gen_bool_zero.
  - unfold gen_bool. by rewrite assert_true by done.
Qed.

(** [0.4], as demo_fault.toml sets it. *)
Example gen_bool_threshold_witness :
  @gen_bool _ _ debug_build sample_seed (S754_finite false 7205759403792794 (-54))
  = Ret (draw sample_seed 0 <? scaled64 7205759403792794 (-54), after sample_seed 1).
Proof.
  refine (proj1 (@gen_bool_threshold _ _ _ debug_build sample_seed 7205759403792794 (-54) _ _ _));
    [reflexivity|reflexivity|cbv; intuition discriminate].
Defined.
