(* ===== verification/Faults.v ===== *)
(** * Network fault options: src/net/fault.hpp

    Latency, drop and replay decisions, drawn from the generator the caller
    passes.  [std::bernoulli_distribution] leaves its algorithm to the library:
    it is the operation of the class [Bernoulli], with the one law the standard
    gives for probability zero. *)

From Stdlib Require Import SpecFloat.
From S2P Require Import Prelude Words Float Random.

Class Bernoulli (R : Type) := bernoulli : double -> R -> bool * R.

Class BernoulliOk (R : Type) `{RngOk R} `{Bernoulli R} := {
  bernoulli_zero : forall r, rng_wf r -> (bernoulli d0 r).1 = false;
  bernoulli_wf : forall p r, rng_wf r -> rng_wf (bernoulli p r).2;
}.

Record net_fault_options := {
  min_latency : Z;   (* nanoseconds, int64 *)
  max_latency : Z;
  p_drop : double;
  p_replay : double;
}.

Definition default_options : net_fault_options :=
  {| min_latency := 0; max_latency := 0; p_drop := d0; p_replay := d0 |}.

(** Signed 64-bit addition; overflow is undefined. *)
Definition add_i64 (a b : Z) : outcome Z :=
  if (- 2 ^ 63 <=? a + b) && (a + b <? 2 ^ 63) then Ret (a + b) else Undefined.
Definition mul_i64 (a b : Z) : outcome Z :=
  if (- 2 ^ 63 <=? a * b) && (a * b <? 2 ^ 63) then Ret (a * b) else Undefined.

Section Options.
Context {R : Type} `{Rng R} `{Bernoulli R} `{Build}.
Implicit Types (o : net_fault_options) (r : R).

Definition latency o r : outcome (Z * R) :=
  last ← add_i64 (max_latency o) 1;
  gen_range r (min_latency o) last.

Definition should_drop o r : bool * R := bernoulli (p_drop o) r.

(** [replay_count]: count successes until the first failure. *)
Fixpoint replay_loop (fuel : nat) (p : double) (n : Z) r : outcome (Z * R) :=
  match fuel with
  | O => OutOfFuel
  | S fuel =>
      '(b, r) ← gen_bool r p;
      if b : bool then replay_loop fuel p (u64 (n + 1)) r else Ret (n, r)
  end.
Definition replay_count (fuel : nat) o r : outcome (Z * R) :=
  replay_loop fuel (p_replay o) 0 r.

End Options.

(** A one-draw implementation of the distribution for the witnesses:
    [v < p * (max - min)] as libraries implement it. *)
Definition bernoulli_draw {R} `{Rng R} (p : double) (r : R) : bool * R :=
  let '(v, r) := rng_next r in (dlt (of_int v) (dmul p (of_int (2 ^ 64 - 1))), r).

Lemma binary_round_aux_sign sx m e :
  match binary_round_aux prec emax sx m e loc_Exact with
  | S754_zero s | S754_infinity s | S754_finite s _ _ => s = sx
  | S754_nan => True
  end.
Proof.
  unfold binary_round_aux. repeat case_match; try done; by simplify_eq.
Qed.

Lemma of_int_not_negative z x s : 0 <= z -> of_int z = x -> dlt x (S754_zero s) = false.
Proof.
  intros Hz Hx. unfold of_int in Hx. destruct z as [|m|m]; [by subst|cbn in Hx|lia].
  unfold binary_round in Hx. destruct (shl_align _ _ _) as [mz ez].
  pose proof (binary_round_aux_sign false (Zpos mz) ez) as Hs. rewrite Hx in Hs.
  by destruct x as [?|[]| |[] ? ?].
Qed.

#[export] Instance xoshiro_bernoulli : Bernoulli Xoshiro.xoshiro256_star_star := bernoulli_draw.

#[export] Instance xoshiro_bernoulli_ok : BernoulliOk Xoshiro.xoshiro256_star_star.
Proof.
  split; intros *; intros Hr; unfold bernoulli, xoshiro_bernoulli, bernoulli_draw.
  - pose proof (rng_next_range r Hr) as Hv. destruct (rng_next r) as [v r']; cbn [fst] in *.
    change (dmul d0 _) with (S754_zero false). by apply (of_int_not_negative v); [lia|].
  - pose proof (rng_next_wf r Hr) as Hv. by destruct (rng_next r).
Qed.

(** ** The replay loop in terms of the stream of draws *)

Section Facts.
Context {R : Type} `{RngOk R} `{Build}.
Implicit Types r : R.

Lemma replay_loop_step fuel m e n r :
  bounded prec emax m e = true -> dlt (S754_finite false m e) d1 = true ->
  replay_loop (S fuel) (S754_finite false m e) n r
    = if draw r 0 <? scaled64 m e
      then replay_loop fuel (S754_finite false m e) (u64 (n + 1)) (after r 1)
      else Ret (n, after r 1).
Proof.
  intros Hb Hlt. cbn [replay_loop].
  rewrite gen_bool_finite by done. done.
Qed.

Lemma replay_loop_spec k fuel m e n r :
  bounded prec emax m e = true -> dlt (S754_finite false m e) d1 = true ->
  (forall i, (i < k)%nat -> draw r i < scaled64 m e) -> scaled64 m e <= draw r k ->
  (k < fuel)%nat -> 0 <= n -> n + Z.of_nat k < 2 ^ 64 ->
  replay_loop fuel (S754_finite false m e) n r = Ret (n + Z.of_nat k, after r (S k)).
Proof.
  intros Hb Hlt. revert fuel n r. induction k as [|k IH]; intros fuel n r Hlo Hhi Hf Hn Hm.
  - destruct fuel; [lia|]. rewrite replay_loop_step by done.
    rewrite (proj2 (Z.ltb_ge _ _)) by lia. by rewrite Z.add_0_r.
  - destruct fuel; [lia|]. rewrite replay_loop_step by done.
    rewrite (proj2 (Z.ltb_lt _ _)) by (apply Hlo; lia).
    rewrite u64_id by lia. rewrite IH; try lia.
    + rewrite !after_S. do 2 f_equal. lia.
    + intros i Hi. change (after r 1) with (rng_next r).2. rewrite <- draw_S. apply Hlo. lia.
    + change (after r 1) with (rng_next r).2. by rewrite <- draw_S.
Qed.

Lemma latency_eq (o : net_fault_options) r :
  is_i64 (min_latency o) -> min_latency o <= max_latency o < 2 ^ 63 - 1 ->
  latency o r
    = Ret (min_latency o + draw r 0 mod (max_latency o + 1 - min_latency o), after r 1).
Proof.
  intros Hmin Hmax. unfold latency, add_i64.
  rewrite (proj2 (Z.leb_le _ _)), (proj2 (Z.ltb_lt _ _)) by lia. cbn [andb mbind outcome_bind].
  by rewrite gen_range_eq by lia.
Qed.

End Facts.

(** * Properties *)

(** For a configuration with [min_latency <= max_latency] a drawn latency
    lies between the two bounds, both included, and costs one draw; with
    [max_latency + 1 = min_latency] the modulus is zero, and with the largest
    latency the addition overflows: both are undefined behaviour the
    configuration parser does not exclude. *)
Theorem latency_bounds {R} `{RngOk R} (o : net_fault_options) (r : R)
  (Hmin : is_i64 (min_latency o)) (Hmax : is_i64 (max_latency o)) :
  (min_latency o <= max_latency o -> max_latency o < 2 ^ 63 - 1 ->
     exists l, latency o r = Ret (l, after r 1) /\ min_latency o <= l <= max_latency o)
  /\ (max_latency o + 1 = min_latency o -> latency o r = Undefined)
  /\ (max_latency o = 2 ^ 63 - 1 -> latency o r = Undefined).
Proof.
  split; [|split].
  - intros Hle Hlt. eexists. rewrite latency_eq by lia. split; [done|].
    pose proof (Z.mod_pos_bound (draw r 0) (max_latency o + 1 - min_latency o)). lia.
  - intros E. unfold latency, add_i64. rewrite E.
    rewrite (proj2 (Z.leb_le _ _)), (proj2 (Z.ltb_lt _ _)) by lia. cbn [andb mbind outcome_bind].
    unfold gen_range, sample_uniform_duration, sample_uniform_long, sample_uniform_u64.
    rewrite Z.sub_diag. by destruct (rng_next r).
  - intros E. unfold latency, add_i64. rewrite E. reflexivity.
Qed.

Example latency_bounds_witness :
  let o := {| min_latency := 1000; max_latency := 2000; p_drop := d0; p_replay := d0 |} in
  exists l, latency o sample_seed = Ret (l, after sample_seed 1) /\ 1000 <= l <= 2000.
Proof.
  intros o.
  exact (proj1 (latency_bounds o sample_seed ltac:(cbn; lia) ltac:(cbn; lia))
    ltac:(cbn; lia) ltac:(cbn; lia)).
Defined.

(** [replay_count] returns [k] exactly when the first [k] draws are below
    the threshold [floor(p_replay * 2^64)] and draw [k] is the first that is
    not, after [k + 1] draws; any fuel above [k] is enough.  With replay
    probability zero it returns 0 after one draw; with one it is undefined, so
    the loop never runs forever on that setting. *)
Theorem replay_count_spec {R} `{RngOk R} `{Build} (o : net_fault_options) (r : R) (fuel : nat)
  (Hr : rng_wf r) (Hfuel : (0 < fuel)%nat) :
  (forall m e k, p_replay o = S754_finite false m e ->
     bounded prec emax m e = true -> dlt (p_replay o) d1 = true ->
     (forall i, (i < k)%nat -> draw r i < scaled64 m e) -> scaled64 m e <= draw r k ->
     (k < fuel)%nat -> Z.of_nat k < 2 ^ 64 ->
     replay_count fuel o r = Ret (Z.of_nat k, after r (S k)))
  /\ (p_replay o = d0 -> replay_count fuel o r = Ret (0, after r 1))
  /\ (p_replay o = d1 -> replay_count fuel o r = Undefined).
Proof.
  unfold replay_count. split; [|split].
  - intros m e k -> Hb Hlt Hlo Hhi Hk H64. by apply (replay_loop_spec k).
  - intros ->. destruct fuel; [lia|]. cbn [replay_loop]. by rewrite gen_bool_zero.
  - intros ->. destruct fuel; [lia|]. cbn [replay_loop].
    unfold gen_bool. by rewrite assert_true by done.
Qed.

Definition replay_30_percent : net_fault_options :=
  {| min_latency := 0; max_latency := 0; p_drop := d0;
     p_replay := S754_finite false 5404319552844595 (-54) |}.

Example replay_count_spec_witness :
  @replay_count _ _ release_build 10 replay_30_percent sample_seed = Ret (6, after sample_seed 7).
Proof.
  assert (Hw : rng_wf sample_seed) by (cbv; intuition discriminate).
  refine (proj1 (@replay_count_spec _ _ _ release_build replay_30_percent sample_seed 10 Hw ltac:(lia))
    5404319552844595%positive (-54) 6%nat eq_refl eq_refl eq_refl _ _ _ _); [|vm_compute; discriminate|lia|lia].
  intros i Hi. do 6 (destruct i as [|i]; [vm_compute; reflexivity|]). lia.
Defined.
