(* ===== verification/Socket.v ===== *)
(** * Socket addresses: src/net/socket.hpp

    The address variants with their hand-written comparison operators and
    hashes, and the base class's fields.  Characters are bytes, compared as
    [unsigned char] the way [memcmp] and [std::string] do. *)

From Stdlib Require Import Strings.Byte.
From S2P Require Import Prelude Words.

Inductive address_family := ipv4 | unix_.
Inductive socket_type := stream | datagram.

#[export] Instance address_family_eq_dec : EqDecision address_family.
Proof. solve_decision. Defined.
#[export] Instance socket_type_eq_dec : EqDecision socket_type.
Proof. solve_decision. Defined.

(** [char octets[4]] as four fields. *)
Record ipv4_addr := { port : Z; octet0 : byte; octet1 : byte; octet2 : byte; octet3 : byte }.
Definition octets (a : ipv4_addr) : list byte := [octet0 a; octet1 a; octet2 a; octet3 a].

Record unix_addr := { path : list byte }.

Inductive socket_addr :=
| Ipv4 (a : ipv4_addr)
| Unix (a : unix_addr).

(** A value-initialised variant holds its first alternative, zeroed. *)
Definition default_addr : socket_addr :=
  Ipv4 {| port := 0; octet0 := x00; octet1 := x00; octet2 := x00; octet3 := x00 |}.

#[export] Instance ipv4_addr_eq_dec : EqDecision ipv4_addr.
Proof. solve_decision. Defined.
#[export] Instance unix_addr_eq_dec : EqDecision unix_addr.
Proof. solve_decision. Defined.
#[export] Instance socket_addr_eq_dec : EqDecision socket_addr.
Proof. solve_decision. Defined.
#[export] Instance socket_addr_countable : Countable socket_addr.
Proof.
  refine (inj_countable'
    (fun a => match a with
      | Ipv4 a => inl (port a, octet0 a, octet1 a, octet2 a, octet3 a)
      | Unix a => inr (path a) end)
    (fun x => match x with
      | inl (p, a, b, c, d) =>
          Ipv4 {| port := p; octet0 := a; octet1 := b; octet2 := c; octet3 := d |}
      | inr p => Unix {| path := p |} end) _).
  by intros [[]|[]].
Defined.

(** [memcmp] over equally long buffers: the sign of the first difference. *)
Fixpoint memcmp (a b : list byte) : Z :=
  match a, b with
  | x :: a, y :: b => if byte_val x =? byte_val y then memcmp a b else byte_val x - byte_val y
  | _, _ => 0
  end.

(** [std::string::operator<]: lexicographic, a proper prefix is smaller. *)
Fixpoint string_lt (a b : list byte) : bool :=
  match a, b with
  | [], _ :: _ => true
  | _, [] => false
  | x :: a, y :: b =>
      if byte_val x =? byte_val y then string_lt a b else byte_val x <? byte_val y
  end.

Module Ipv4Addr.
Definition lt (lhs rhs : ipv4_addr) : bool :=
  if memcmp (octets lhs) (octets rhs) <? 0 then true else port lhs <? port rhs.
Definition gt (lhs rhs : ipv4_addr) : bool := lt rhs lhs.
Definition le (lhs rhs : ipv4_addr) : bool := negb (lt rhs lhs).
Definition ge (lhs rhs : ipv4_addr) : bool := negb (lt lhs rhs).
Definition eq (lhs rhs : ipv4_addr) : bool :=
  (port lhs =? port rhs) && (memcmp (octets lhs) (octets rhs) =? 0).
Definition ne (lhs rhs : ipv4_addr) : bool := negb (eq lhs rhs).
End Ipv4Addr.

Module UnixAddr.
Definition lt (lhs rhs : unix_addr) : bool := string_lt (path lhs) (path rhs).
Definition gt (lhs rhs : unix_addr) : bool := lt rhs lhs.
Definition le (lhs rhs : unix_addr) : bool := negb (lt rhs lhs).
Definition ge (lhs rhs : unix_addr) : bool := negb (lt lhs rhs).
Definition eq (lhs rhs : unix_addr) : bool := bool_decide (path lhs = path rhs).
Definition ne (lhs rhs : unix_addr) : bool := negb (eq lhs rhs).
End UnixAddr.

(** [std::variant]'s [operator==]: same alternative, equal values. *)
Definition addr_eq (a b : socket_addr) : bool :=
  match a, b with
  | Ipv4 a, Ipv4 b => Ipv4Addr.eq a b
  | Unix a, Unix b => UnixAddr.eq a b
  | _, _ => false
  end.

(** The hashes; [std::hash] of the basic types is the library's. *)
Section Hash.
Variables (hash_char : byte -> Z) (hash_u16 : Z -> Z) (hash_string : list byte -> Z).

Definition hash_unix (a : unix_addr) : Z := hash_string (path a).

Definition hash_ipv4 (a : ipv4_addr) : Z :=
  let h1 := hash_char (octet0 a) in
  let h2 := hash_char (octet1 a) in
  let h3 := hash_char (octet2 a) in
  let h4 := hash_char (octet3 a) in
  let h5 := hash_u16 (port a) in
  Z.lxor (Z.lxor (Z.lxor (Z.lxor h1 (u64 (Z.shiftl h2 1))) (u64 (Z.shiftl h3 2)))
    (u64 (Z.shiftl h4 3))) (u64 (Z.shiftl h5 4)).

Definition hash_addr (a : socket_addr) : Z :=
  match a with Ipv4 a => hash_ipv4 a | Unix a => hash_unix a end.
End Hash.

(** The fields of the base class [socket]. *)
Record socket := { af_ : address_family; type_ : socket_type }.
Definition get_af (s : socket) : address_family := af_ s.

(** ** Facts *)

Lemma memcmp_eq a b : length a = length b -> memcmp a b = 0 <-> a = b.
Proof.
  revert b; induction a as [|x a IH]; intros [|y b] Hl; try done; cbn in *.
  destruct (Z.eqb_spec (byte_val x) (byte_val y)) as [E|E].
  - apply byte_val_inj in E as ->. rewrite IH by lia. split; [by intros ->|congruence].
  - split; [lia|congruence].
Qed.

Lemma memcmp_antisym a b : memcmp b a = - memcmp a b.
Proof.
  revert b; induction a as [|x a IH]; intros [|y b]; try done; cbn [memcmp].
  rewrite Z.eqb_sym. destruct (byte_val x =? byte_val y); [apply IH|lia].
Qed.

Lemma ipv4_eq_spec a b : Ipv4Addr.eq a b = true <-> a = b.
Proof.
  unfold Ipv4Addr.eq. rewrite andb_true_iff, !Z.eqb_eq, memcmp_eq by done.
  destruct a, b; unfold octets; cbn. split; [intros [-> [= -> -> -> ->]]|intros [= -> -> -> -> ->]]; done.
Qed.
Lemma unix_eq_spec a b : UnixAddr.eq a b = true <-> a = b.
Proof.
  unfold UnixAddr.eq. rewrite bool_decide_eq_true. destruct a, b; cbn. split; congruence.
Qed.

Lemma string_lt_irrefl a : string_lt a a = false.
Proof. induction a as [|x a IH]; [done|]. cbn. by rewrite Z.eqb_refl. Qed.
Lemma string_lt_trans a b c :
  string_lt a b = true -> string_lt b c = true -> string_lt a c = true.
Proof.
  revert b c; induction a as [|x a IH]; intros [|y b] [|z c]; cbn; try done.
  destruct (Z.eqb_spec (byte_val x) (byte_val y)), (Z.eqb_spec (byte_val y) (byte_val z)),
    (Z.eqb_spec (byte_val x) (byte_val z)); rewrite ?Z.ltb_lt; try lia; eauto.
Qed.
Lemma string_lt_total a b : a <> b -> string_lt a b = true \/ string_lt b a = true.
Proof.
  revert b; induction a as [|x a IH]; intros [|y b] Hne; cbn; [done|by left|by right|].
  rewrite (Z.eqb_sym (byte_val y)). destruct (Z.eqb_spec (byte_val x) (byte_val y)) as [E|E].
  - apply byte_val_inj in E. apply IH. congruence.
  - rewrite !Z.ltb_lt. lia.
Qed.

(** * Properties *)

(** The key requirements of [std::unordered_map<socket_addr, ...>] hold:
    the variant's equality is exactly equality of the stored fields (so it is
    an equivalence) and equal addresses have equal hashes, whatever the
    library's hashes of characters, ports and strings are. *)
Theorem addr_key_ok (hc : byte -> Z) (hp : Z -> Z) (hs : list byte -> Z) (a b : socket_addr) :
  (addr_eq a b = true <-> a = b)
  /\ (addr_eq a b = true -> hash_addr hc hp hs a = hash_addr hc hp hs b).
Proof.
  assert (E : addr_eq a b = true <-> a = b).
  { destruct a as [a|a], b as [b|b]; cbn; try done;
      [rewrite ipv4_eq_spec|rewrite unix_eq_spec]; split; congruence. }
  split; [exact E|]. rewrite E. by intros ->.
Qed.

Example addr_key_ok_witness :
  hash_addr byte_val id (fun _ => 0) default_addr = hash_addr byte_val id (fun _ => 0) default_addr.
Proof. apply (addr_key_ok byte_val id (fun _ => 0) default_addr default_addr). reflexivity. Defined.

(** [operator<] on path addresses is a strict total order, but on IPv4
    addresses it is not an order at all: [a < b] and [b < a] both hold exactly
    when the octets and the ports are ordered opposite ways, and then
    [a < b] holds while [a <= b] does not. *)
Theorem addr_less_than (a b : ipv4_addr) (u v w : unix_addr) :
  (Ipv4Addr.lt a b = true /\ Ipv4Addr.lt b a = true
     <-> (memcmp (octets a) (octets b) < 0 /\ port b < port a)
         \/ (0 < memcmp (octets a) (octets b) /\ port a < port b))
  /\ (Ipv4Addr.lt a b = true -> Ipv4Addr.lt b a = true -> Ipv4Addr.le a b = false)
  /\ UnixAddr.lt u u = false
  /\ (UnixAddr.lt u v = true -> UnixAddr.lt v w = true -> UnixAddr.lt u w = true)
  /\ (u <> v -> UnixAddr.lt u v = true \/ UnixAddr.lt v u = true).
Proof.
  split_and!.
  - unfold Ipv4Addr.lt. rewrite (memcmp_antisym (octets a) (octets b)).
    destruct (Z.ltb_spec (memcmp (octets a) (octets b)) 0),
      (Z.ltb_spec (- memcmp (octets a) (octets b)) 0); rewrite ?Z.ltb_lt; intuition lia.
  - unfold Ipv4Addr.le. by intros _ ->.
  - apply string_lt_irrefl.
  - apply string_lt_trans.
  - intros Hne. apply string_lt_total. intros E. apply Hne. destruct u, v; cbn in E. congruence.
Qed.

(** 10.0.0.1:9 and 10.0.0.2:8 *)
Example addr_less_than_witness :
  let a := {| port := 9; octet0 := x0a; octet1 := x00; octet2 := x00; octet3 := x01 |} in
  let b := {| port := 8; octet0 := x0a; octet1 := x00; octet2 := x00; octet3 := x02 |} in
  Ipv4Addr.le a b = false.
Proof.
  intros a b. pose (u := {| path := [] |}).
  exact (proj1 (proj2 (addr_less_than a b u u u)) eq_refl eq_refl).
Defined.
