(* ===== verification/Network.v ===== *)
(** * The address table: src/net/network.cpp

    [network] maps addresses to weak pointers.  Objects are named by ids;
    which of them are still owned by some [shared_ptr] is the argument
    [alive] of every operation that calls [lock()]. *)

From S2P Require Import Prelude Socket.

Definition obj_id := positive.

Definition EOK := 0.

Module Network.

(** [std::weak_ptr<socket>]; [None] is the empty pointer. *)
Definition weak_ptr := option obj_id.

Definition lock (alive : obj_id -> bool) (w : weak_ptr) : option obj_id :=
  match w with Some s => if alive s then Some s else None | None => None end.

Record network := { map_ : gmap socket_addr weak_ptr }.

Definition empty : network := {| map_ := ∅ |}.

(** [map_[addr]]: a missing key is inserted with the empty pointer. *)
Definition slot (n : network) (addr : socket_addr) : weak_ptr * network :=
  match map_ n !! addr with
  | Some w => (w, n)
  | None => (None, {| map_ := <[addr := None]> (map_ n) |})
  end.

Definition bind (alive : obj_id -> bool) (addr : socket_addr) (sock : obj_id) (n : network)
  : Z * network :=
  let '(w, n) := slot n addr in
  match lock alive w with
  | Some _ => (EADDRNOTAVAIL, n)
  | None => (EOK, {| map_ := <[addr := Some sock]> (map_ n) |})
  end.

Definition clear (alive : obj_id -> bool) (addr : socket_addr) (s : obj_id) (n : network)
  : network :=
  match map_ n !! addr with
  | None => n
  | Some w =>
      match lock alive w with
      | Some p => if bool_decide (p <> s) then n else {| map_ := delete addr (map_ n) |}
      | None => {| map_ := delete addr (map_ n) |}
      end
  end.

Definition get (alive : obj_id -> bool) (addr : socket_addr) (n : network)
  : option obj_id * network :=
  let '(w, n) := slot n addr in (lock alive w, n).

(** ** Specification: a name service

    What the table promises its clients: a partial function from addresses to
    live sockets. *)

Definition resolve (alive : obj_id -> bool) (n : network) (addr : socket_addr) : option obj_id :=
  map_ n !! addr ≫= lock alive.

Definition update {V} (f : socket_addr -> option V) (a : socket_addr) (v : option V) :
  socket_addr -> option V := fun b => if bool_decide (a = b) then v else f b.

Definition spec_bind (addr : socket_addr) (s : obj_id) (f : socket_addr -> option obj_id)
  : Z * (socket_addr -> option obj_id) :=
  match f addr with Some _ => (EADDRNOTAVAIL, f) | None => (EOK, update f addr (Some s)) end.

Definition spec_clear (addr : socket_addr) (s : obj_id) (f : socket_addr -> option obj_id)
  : socket_addr -> option obj_id :=
  if bool_decide (f addr = Some s) then update f addr None else f.

Lemma resolve_slot alive n addr b :
  resolve alive (slot n addr).2 b = resolve alive n b
  /\ lock alive (slot n addr).1 = resolve alive n addr.
Proof.
  unfold slot, resolve. destruct (map_ n !! addr) as [w|] eqn:E; cbn [fst snd map_]; [done|].
  split; [|done]. destruct (decide (addr = b)) as [->|Hne].
  - by rewrite lookup_insert_eq, E.
  - by rewrite lookup_insert_ne.
Qed.

Lemma resolve_insert alive m addr w b :
  resolve alive {| map_ := <[addr := w]> m |} b
  = update (resolve alive {| map_ := m |}) addr (lock alive w) b.
Proof.
  unfold resolve, update; cbn. case_bool_decide; subst.
  - by rewrite lookup_insert_eq.
  - by rewrite lookup_insert_ne.
Qed.
Lemma resolve_delete alive m addr b :
  resolve alive {| map_ := delete addr m |} b
  = update (resolve alive {| map_ := m |}) addr None b.
Proof.
  unfold resolve, update; cbn. case_bool_decide; subst.
  - by rewrite lookup_delete_eq.
  - by rewrite lookup_delete_ne.
Qed.

Lemma resolve_Some alive n addr s : resolve alive n addr = Some s -> alive s = true.
Proof.
  unfold resolve. intros (w & Hw & Hl)%bind_Some. destruct w as [w|]; [|done]. cbn in Hl.
  destruct (alive w) eqn:E; [|done]. congruence.
Qed.

Lemma map_eta n : {| map_ := map_ n |} = n.
Proof. by destruct n. Qed.

(** Each operation against its specification. *)
Lemma bind_refines alive addr s n : alive s = true ->
  (bind alive addr s n).1 = (spec_bind addr s (resolve alive n)).1
  /\ forall b, resolve alive (bind alive addr s n).2 b = (spec_bind addr s (resolve alive n)).2 b.
Proof.
  intros Hs. unfold bind, spec_bind. pose proof (resolve_slot alive n addr) as Hsl.
  destruct (slot n addr) as [w n'] eqn:E; cbn in Hsl.
  rewrite <- (proj2 (Hsl addr)). destruct (lock alive w); cbn.
  - split; [done|]. intros b. apply Hsl.
  - split; [done|]. intros b. rewrite resolve_insert, map_eta. unfold update; cbn.
    rewrite Hs. case_bool_decide; [done|apply Hsl].
Qed.

Lemma get_refines alive addr n :
  (get alive addr n).1 = resolve alive n addr
  /\ forall b, resolve alive (get alive addr n).2 b = resolve alive n b.
Proof.
  unfold get. pose proof (resolve_slot alive n addr) as Hsl.
  destruct (slot n addr) as [w n'] eqn:E; cbn in *. split; [apply (Hsl addr)|]. intros b. apply Hsl.
Qed.

Lemma clear_refines alive addr s n b :
  resolve alive (clear alive addr s n) b = spec_clear addr s (resolve alive n) b.
Proof.
  unfold clear, spec_clear.
  assert (Hr : resolve alive n addr = map_ n !! addr ≫= lock alive) by done.
  destruct (map_ n !! addr) as [w|] eqn:E; cbn in Hr; [|by rewrite bool_decide_eq_false_2 by congruence].
  destruct (lock alive w) as [p|] eqn:El.
  - destruct (decide (p = s)) as [->|Hne].
    + rewrite bool_decide_eq_false_2, bool_decide_eq_true_2 by auto.
      by rewrite resolve_delete, map_eta.
    + rewrite bool_decide_eq_true_2, bool_decide_eq_false_2 by congruence. done.
  - rewrite bool_decide_eq_false_2 by congruence. rewrite resolve_delete, map_eta.
    unfold update. case_bool_decide as Hb; [|done]. by subst.
Qed.

(** ** Tables with the same bindings

    Two tables are equivalent if no client can tell them apart, whichever
    objects are alive; they may differ in empty slots.  Every operation
    respects this, and a lookup stays within the class of its table. *)

#[export] Instance network_equiv : Equiv network := fun n1 n2 =>
  forall alive addr, resolve alive n1 addr = resolve alive n2 addr.

#[export] Instance network_equivalence : Equivalence (≡@{network}).
Proof.
  split.
  - intros n alive addr. done.
  - intros n1 n2 Hn alive addr. by rewrite Hn.
  - intros n1 n2 n3 H1 H2 alive addr. by rewrite H1, H2.
Qed.

#[export] Instance resolve_proper alive : Proper ((≡) ==> (=) ==> (=)) (resolve alive).
Proof. intros n1 n2 Hn addr ? <-. apply Hn. Qed.

Lemma get_pure alive addr n : (get alive addr n).2 ≡ n.
Proof.
  intros alive' b. unfold get. destruct (slot n addr) as [w n'] eqn:E. cbn [snd].
  rewrite <- (proj1 (resolve_slot alive' n addr b)). by rewrite E.
Qed.

Lemma bind_resolve alive addr s n alive' b :
  resolve alive' (bind alive addr s n).2 b
  = match resolve alive n addr with
    | Some _ => resolve alive' n b
    | None => update (resolve alive' n) addr (lock alive' (Some s)) b
    end.
Proof.
  unfold bind. pose proof (resolve_slot alive n addr b) as [_ Hl].
  pose proof (resolve_slot alive' n addr) as Hsl.
  destruct (slot n addr) as [w n'] eqn:E; cbn [fst snd] in *. rewrite <- Hl.
  destruct (lock alive w); cbn [snd]; [apply Hsl|].
  rewrite resolve_insert, map_eta. unfold update. case_bool_decide; [done|apply Hsl].
Qed.

Lemma clear_resolve alive addr s n alive' b :
  resolve alive' (clear alive addr s n) b
  = match resolve alive n addr with
    | Some p => if bool_decide (p = s) then update (resolve alive' n) addr None b else resolve alive' n b
    | None => update (resolve alive' n) addr None b
    end.
Proof.
  unfold clear. assert (Hr : resolve alive n addr = map_ n !! addr ≫= lock alive) by done.
  destruct (map_ n !! addr) as [w|] eqn:E; cbn in Hr; rewrite Hr.
  - destruct (lock alive w) as [p|]; [|by rewrite resolve_delete, map_eta].
    destruct (decide (p = s)) as [->|Hne].
    + rewrite bool_decide_eq_false_2, bool_decide_eq_true_2 by auto. by rewrite resolve_delete, map_eta.
    + by rewrite bool_decide_eq_true_2, bool_decide_eq_false_2 by auto.
  - unfold update. case_bool_decide as Hb; [|done]. subst. unfold resolve. by rewrite E.
Qed.

#[export] Instance bind_proper alive addr s : Proper ((≡) ==> prod_relation (=) (≡)) (bind alive addr s).
Proof.
  intros n1 n2 Hn. split.
  - unfold bind. pose proof (resolve_slot alive n1 addr addr) as [_ H1].
    pose proof (resolve_slot alive n2 addr addr) as [_ H2].
    destruct (slot n1 addr), (slot n2 addr); cbn [fst] in *. rewrite H1, H2, Hn.
    by destruct (resolve alive n2 addr).
  - intros alive' b. rewrite !bind_resolve, Hn. unfold update. by rewrite !Hn.
Qed.

#[export] Instance clear_proper alive addr s : Proper ((≡) ==> (≡)) (clear alive addr s).
Proof. intros n1 n2 Hn alive' b. rewrite !clear_resolve, Hn. unfold update. by rewrite !Hn. Qed.

#[export] Instance get_proper alive addr : Proper ((≡) ==> prod_relation (=) (≡)) (get alive addr).
Proof.
  intros n1 n2 Hn. split.
  - by rewrite !(proj1 (get_refines _ _ _)), Hn.
  - by rewrite !get_pure.
Qed.

(** Any number of lookups. *)
Definition lookups (alive : obj_id -> bool) (addrs : list socket_addr) (n : network) : network :=
  foldl (fun n a => (get alive a n).2) n addrs.

Lemma lookups_pure alive addrs n : lookups alive addrs n ≡ n.
Proof.
  revert n. unfold lookups. induction addrs as [|a addrs IH]; intros n; cbn [foldl]; [done|].
  by rewrite IH, get_pure.
Qed.

End Network.

(** * Properties *)

Import Network.

(** C10: the table refines the name service.  For a socket that is alive,
    [bind] answers and changes the live bindings exactly as the specification
    does (refused with EADDRNOTAVAIL while the address has a live owner,
    accepted otherwise, in particular after the owner died), [get] returns the
    live owner and changes no binding, and [clear] removes the binding only
    for its own socket. Lookups before an operation, whatever they are for,
    change neither its answer nor the bindings it leaves, although each adds
    an entry to the map. *)
Theorem network_refines (alive : obj_id -> bool) (addr : socket_addr) (s : obj_id) (n : network)
  (addrs : list socket_addr) (Hs : alive s = true) :
  ((bind alive addr s n).1 = (spec_bind addr s (resolve alive n)).1
   /\ forall b, resolve alive (bind alive addr s n).2 b
                = (spec_bind addr s (resolve alive n)).2 b)
  /\ ((get alive addr n).1 = resolve alive n addr
      /\ forall b, resolve alive (get alive addr n).2 b = resolve alive n b)
  /\ (forall b, resolve alive (clear alive addr s n) b = spec_clear addr s (resolve alive n) b)
  /\ prod_relation (=) (≡) (bind alive addr s (lookups alive addrs n)) (bind alive addr s n)
  /\ clear alive addr s (lookups alive addrs n) ≡ clear alive addr s n.
Proof.
  split; [by apply bind_refines|]. split; [apply get_refines|]. split; [intros b; apply clear_refines|].
  split; [apply bind_proper, lookups_pure|by rewrite lookups_pure].
Qed.

Example network_refines_witness :
  (bind (fun _ => true) default_addr 1%positive empty).1
  = (spec_bind default_addr 1%positive (resolve (fun _ => true) empty)).1.
Proof.
  exact (proj1 (proj1 (network_refines (fun _ => true) default_addr 1%positive empty [] eq_refl))).
Defined.
