(* ===== verification/FdTable.v ===== *)
(** * File descriptors: src/sim/file_descriptor.hpp, file_descriptor.cpp

    [file_descriptor_table] hands out simulated descriptor numbers (bit 30
    set).  A table entry is a [shared_ptr], so it can exist and be null:
    [table_[fd]] creates a null entry for an unknown number.  The payload type
    [F] stands for the pointed-to object.  Also here: the base class's
    [read]/[write] and the stdout descriptor. *)

From Stdlib Require Import Strings.Byte.
From S2P Require Import Prelude Words.

Module FdTable.
Section Ops.
Context {F : Type} `{Build}.

Definition simulated : Z := 2 ^ 30.
Definition capacity : Z := 2 ^ 30 - 1.

Definition is_simulated (fd : Z) : bool := negb (Z.land fd simulated =? 0).

(** [unused_] is a vector used as a stack: its back is the head here. *)
Record table := { table_ : gmap Z (option F); unused_ : list Z }.

Definition empty : table := {| table_ := ∅; unused_ := [] |}.

Definition get (fd : Z) (t : table) : option F * table :=
  match table_ t !! fd with
  | Some v => (v, t)
  | None => (None, {| table_ := <[fd := None]> (table_ t); unused_ := unused_ t |})
  end.

Definition close (fd : Z) (t : table) : outcome (Z * table) :=
  match table_ t !! fd with
  | None | Some None => Ret (- EBADFD, t)
  | Some (Some _) =>
      _ ← assert_ (is_simulated fd);
      _ ← assert_ (0 <=? fd);
      Ret (0, {| table_ := delete fd (table_ t); unused_ := fd :: unused_ t |})
  end.

(** The second half of [insert]: store into the slot of the chosen number. *)
Definition store (fd : Z) (fildes : F) (t : table) : outcome (Z * table) :=
  _ ← assert_ (0 <=? fd);
  _ ← assert_ (is_simulated fd);
  let '(slot, t) := get fd t in
  _ ← assert_ (match slot with None => true | Some _ => false end);
  Ret (fd, {| table_ := <[fd := Some fildes]> (table_ t); unused_ := unused_ t |}).

Definition insert (fildes : F) (t : table) : outcome (Z * table) :=
  match unused_ t with
  | fd :: rest => store fd fildes {| table_ := table_ t; unused_ := rest |}
  | [] =>
      if capacity <=? Z.of_nat (size (table_ t)) then Ret (-1, t)
      else
        let fd := i32 (Z.of_nat (size (table_ t))) in
        _ ← assert_ (negb (is_simulated fd));
        store (Z.lor fd simulated) fildes t
  end.

(** The descriptors that are open. *)
Definition live (t : table) (fd : Z) : option F := table_ t !! fd ≫= id.

End Ops.
Arguments table F : clear implicits.
End FdTable.

(** ** The base class and stdout *)

Module FileDescriptor.

Definition read : Z := - EINVAL.
Definition write : Z := - EINVAL.

Inductive output :=
| Println (text : list byte)      (* "output: '{}'" *)
| Fwrite (data : list byte)
| PrintCount (n : Z).             (* "output: {}" *)

(** [load] overwrites the span it is given: its argument and result are the
    span's contents; [T] is the state behind the callback. *)
Section Stdout.
Context {T : Type} (load : list byte -> T -> Z * list byte * T).

Fixpoint write_loop (fuel : nat) (buf : list byte) (bytes done : Z) (out : list output) (s : T)
  : outcome (Z * list output * T) :=
  match fuel with
  | O => OutOfFuel
  | S fuel =>
      if done <? bytes then
        let n := Z.min (Z.of_nat (length buf)) bytes in
        let tmp := take (Z.to_nat n) buf in
        let '(res, tmp, s) := load tmp s in
        if res <? 0 then Ret (res, out, s)
        else
          let buf := tmp ++ drop (Z.to_nat n) buf in
          write_loop fuel buf bytes (u64 (done + n))
            (out ++ [Println tmp; Fwrite tmp; PrintCount n]) s
      else Ret (i64 done, out, s)
  end.

Definition stdout_write (fuel : nat) (bytes : Z) (s : T) : outcome (Z * list output * T) :=
  let buf := replicate (Z.to_nat 8192) x00 in
  write_loop fuel buf bytes 0 [Println (take 4 buf)] s.

End Stdout.
End FileDescriptor.

(** ** Allocation invariant *)

Module FdFacts.
Import FdTable.

(** [n] numbers have been handed out so far. *)
Definition allocated (n fd : Z) : Prop := simulated <= fd < simulated + n.

Lemma is_simulated_add i : 0 <= i < 2 ^ 30 -> is_simulated (simulated + i) = true.
Proof.
  intros Hi. unfold is_simulated, simulated.
  destruct (Z.eqb_spec (Z.land (2 ^ 30 + i) (2 ^ 30)) 0) as [E|]; [|done].
  assert (Hb : Z.testbit (2 ^ 30 + i) 30 = true).
  { apply Z.testbit_true; [lia|]. replace (2 ^ 30 + i) with (i + 1 * 2 ^ 30) by lia.
    by rewrite Z.div_add, Z.div_small by lia. }
  apply (f_equal (fun z => Z.testbit z 30)) in E.
  by rewrite Z.land_spec, Z.pow2_bits_true, Z.bits_0, Hb in E by lia.
Qed.
Lemma not_simulated_small i : 0 <= i < 2 ^ 30 -> is_simulated i = false.
Proof.
  intros Hi. unfold is_simulated, simulated. apply negb_false_iff, Z.eqb_eq, Z.bits_inj'.
  intros j Hj. rewrite Z.land_spec, Z.bits_0, Z.pow2_bits_eqb by lia.
  destruct (Z.eqb_spec 30 j); [|by rewrite andb_false_r]. subst.
  by rewrite (testbit_high i 30) by lia.
Qed.
Lemma lor_simulated i : 0 <= i < 2 ^ 30 -> Z.lor i simulated = simulated + i.
Proof.
  intros Hi. unfold simulated. rewrite Z.add_comm. symmetry. rewrite <- Z.lxor_lor.
  - apply Z.add_nocarry_lxor. pose proof (not_simulated_small i Hi) as Hn.
    unfold is_simulated, simulated in Hn. apply negb_false_iff, Z.eqb_eq in Hn. done.
  - pose proof (not_simulated_small i Hi) as Hn.
    unfold is_simulated, simulated in Hn. by apply negb_false_iff, Z.eqb_eq in Hn.
Qed.

Section Invariant.
Context {F : Type}.
Implicit Types (t : table F) (n fd : Z) (f : F).

(** Every handed-out number is either open or on the free stack, once; only
    handed-out numbers have entries. *)
Record inv n t : Prop := {
  inv_bound : 0 <= n <= capacity;
  inv_dom : forall fd, is_Some (table_ t !! fd) -> allocated n fd;
  inv_unused : forall fd, fd ∈ unused_ t -> allocated n fd;
  inv_nodup : NoDup (unused_ t);
  inv_live : forall fd, allocated n fd -> is_Some (live t fd) <-> fd ∉ unused_ t;
}.

Lemma inv_empty : inv 0 (@empty F).
Proof.
  split; cbn; try (unfold allocated, capacity; lia).
  - intros fd. rewrite lookup_empty. by intros [].
  - intros fd Hfd. by apply not_elem_of_nil in Hfd.
  - constructor.
Qed.

Definition numbers n : list Z := (fun i => simulated + i) <$> seqZ 0 n.

Lemma elem_of_numbers n fd : fd ∈ numbers n <-> allocated n fd.
Proof.
  unfold numbers, allocated. rewrite list_elem_of_fmap. split.
  - intros (i & -> & Hi). apply elem_of_seqZ in Hi. lia.
  - intros Hfd. exists (fd - simulated). rewrite elem_of_seqZ. lia.
Qed.
Lemma nodup_numbers n : NoDup (numbers n).
Proof. apply NoDup_fmap_2; [intros x y; lia|apply NoDup_seqZ]. Qed.

Lemma live_entry t fd : is_Some (live t fd) -> is_Some (table_ t !! fd).
Proof. unfold live. intros [f Hf]. destruct (table_ t !! fd); eauto. done. Qed.

(** With an empty free stack the table holds exactly [n] entries. *)
Lemma inv_size n t : inv n t -> unused_ t = [] -> Z.of_nat (size (table_ t)) = n.
Proof.
  intros Hi Hu. assert (Hdom : dom (table_ t) = list_to_set (C := gset Z) (numbers n)).
  { apply set_eq. intros fd. rewrite elem_of_dom, elem_of_list_to_set, elem_of_numbers. split.
    - apply (inv_dom _ _ Hi).
    - intros Ha. apply live_entry, (inv_live _ _ Hi); [done|]. rewrite Hu. apply not_elem_of_nil. }
  rewrite <- size_dom, Hdom, size_list_to_set by apply nodup_numbers.
  unfold numbers. rewrite length_fmap, length_seqZ. pose proof (inv_bound _ _ Hi). lia.
Qed.

(** Reading back the live map after each kind of table update. *)
Lemma live_insert t fd v u fd' :
  live {| table_ := <[fd := v]> (table_ t); unused_ := u |} fd'
  = if bool_decide (fd = fd') then v else live t fd'.
Proof.
  unfold live; cbn. case_bool_decide as E.
  - subst. by rewrite lookup_insert_eq.
  - by rewrite lookup_insert_ne.
Qed.
Lemma live_delete t fd u fd' :
  live {| table_ := delete fd (table_ t); unused_ := u |} fd'
  = if bool_decide (fd = fd') then None else live t fd'.
Proof.
  unfold live; cbn. case_bool_decide as E.
  - subst. by rewrite lookup_delete_eq.
  - by rewrite lookup_delete_ne.
Qed.
Lemma live_get fd t fd' : live (get fd t).2 fd' = live t fd' /\ (get fd t).1 = live t fd.
Proof.
  unfold get. destruct (table_ t !! fd) as [v|] eqn:E; cbn [fst snd].
  - split; [done|]. unfold live. by rewrite E.
  - rewrite live_insert. case_bool_decide as Hb; [subst|]; unfold live; by rewrite E.
Qed.

(** [get] only disturbs the invariant on a number never handed out. *)
Lemma get_inv n t fd : inv n t -> allocated n fd -> inv n (get fd t).2.
Proof.
  intros Hi Ha. assert (Hu : unused_ (get fd t).2 = unused_ t)
    by (unfold get; by destruct (table_ t !! fd)).
  split; rewrite ?Hu; try apply Hi; try (apply (inv_unused _ _ Hi)).
  - intros fd' Hs. unfold get in Hs. destruct (table_ t !! fd); cbn in Hs; [by apply (inv_dom _ _ Hi)|].
    destruct (decide (fd = fd')) as [->|Hne]; [done|].
    rewrite lookup_insert_ne in Hs by done. by apply (inv_dom _ _ Hi).
  - intros fd' Ha'. rewrite (proj1 (live_get fd t fd')). by apply (inv_live _ _ Hi).
Qed.

Lemma store_ok `{Build} fd f t :
  0 <= fd -> is_simulated fd = true -> live t fd = None ->
  store fd f t = Ret (fd, {| table_ := <[fd := Some f]> (table_ t); unused_ := unused_ t |}).
Proof.
  intros H0 Hs Hl. unfold store. rewrite !assert_true by (done || apply Z.leb_le; lia).
  cbn [mbind outcome_bind]. pose proof (proj2 (live_get fd t fd)) as Hg. rewrite Hl in Hg.
  unfold get in *. destruct (table_ t !! fd) as [v|] eqn:E; cbn [fst] in Hg; subst.
  - by rewrite assert_true.
  - rewrite assert_true by done. cbn. by rewrite insert_insert_eq.
Qed.

(** The state after an insertion on number [fd]. *)
Lemma insert_inv n n' t fd f rest :
  inv n t -> allocated n' fd -> n <= n' <= capacity ->
  (forall fd', allocated n' fd' -> allocated n fd' \/ fd' = fd) ->
  (forall fd', fd' ∈ rest <-> fd' ∈ unused_ t /\ fd' <> fd) -> NoDup rest ->
  inv n' {| table_ := <[fd := Some f]> (table_ t); unused_ := rest |}.
Proof.
  intros Hi Ha Hn Hnew Hrest Hnd. assert (Hup : forall x, allocated n x -> allocated n' x)
    by (unfold allocated; lia). pose proof (inv_bound _ _ Hi).
  split; cbn [table_ unused_]; try done; try lia.
  - intros fd' Hs. destruct (decide (fd = fd')) as [->|Hne]; [done|].
    rewrite lookup_insert_ne in Hs by done. by apply Hup, (inv_dom _ _ Hi).
  - intros fd' Hin. apply Hrest in Hin as [Hin _]. by apply Hup, (inv_unused _ _ Hi).
  - intros fd' Ha'. rewrite live_insert, Hrest. case_bool_decide as E.
    { subst. split; [intros _ [_ Hne]; done|eauto]. }
    destruct (Hnew _ Ha') as [Hal|Heq]; [|congruence]. rewrite (inv_live _ _ Hi) by done.
    split; [by intros Hu [Hin _]|intros Hnr Hin; apply Hnr; done].
Qed.

Lemma insert_spec `{Build} n t f :
  inv n t ->
  (unused_ t = [] -> n = capacity -> insert f t = Ret (-1, t))
  /\ (unused_ t <> [] \/ n < capacity -> exists fd t' n',
       insert f t = Ret (fd, t') /\ inv n' t' /\ n <= n' <= n + 1
       /\ live t fd = None /\ allocated n' fd
       /\ (forall fd', live t' fd' = if bool_decide (fd = fd') then Some f else live t fd')).
Proof.
  intros Hi. pose proof (inv_bound _ _ Hi) as Hb. unfold insert. split.
  - intros Hu Hn. rewrite Hu, (inv_size n t) by done.
    by rewrite (proj2 (Z.leb_le _ _)) by lia.
  - intros Hfree. destruct (unused_ t) as [|fd rest] eqn:Hu.
    + assert (n < capacity) as Hlt by (destruct Hfree; [done|lia]). clear Hfree.
      rewrite (inv_size n t) by done.
      rewrite (proj2 (Z.leb_gt _ _)) by lia. unfold capacity in *.
      rewrite i32_id, (not_simulated_small n), lor_simulated by lia.
      rewrite assert_true by done. cbn [mbind outcome_bind].
      assert (Hnl : live t (simulated + n) = None).
      { destruct (live t (simulated + n)) eqn:E; [|done].
        assert (allocated n (simulated + n)) as Hbad by (apply (inv_dom _ _ Hi), live_entry; eauto).
        unfold allocated in Hbad. lia. }
      rewrite store_ok; [|unfold simulated; lia|by apply is_simulated_add; lia|done].
      assert (Ha : allocated (n + 1) (simulated + n)) by (unfold allocated, simulated in *; lia).
      eexists _, _, (n + 1). split; [done|]. split.
      { apply (insert_inv n); [done|done|unfold capacity; lia| | |rewrite Hu; constructor].
        - intros fd' Hfd'. unfold allocated in *. lia.
        - intros fd'. rewrite Hu. split; [intros Hin|intros [Hin _]]; by apply not_elem_of_nil in Hin. }
      split; [lia|]. split; [done|]. split; [done|]. intros fd'. by rewrite live_insert.
    + assert (Hin : fd ∈ unused_ t) by (rewrite Hu; apply list_elem_of_here).
      pose proof (inv_unused _ _ Hi fd Hin) as Ha.
      assert (Hnl : live t fd = None).
      { destruct (live t fd) eqn:E; [|done]. exfalso.
        apply (inv_live _ _ Hi fd Ha); [by eexists|done]. }
      pose proof (inv_nodup _ _ Hi) as Hnd. rewrite Hu in Hnd. apply NoDup_cons in Hnd as [Hnin Hnd].
      unfold allocated, capacity in *.
      rewrite store_ok; [|unfold simulated in *; lia| |done].
      2:{ replace fd with (simulated + (fd - simulated)) by lia. apply is_simulated_add. lia. }
      eexists _, _, n. split; [done|]. split.
      { apply (insert_inv n n t); [exact Hi|exact Ha|unfold capacity; lia|by left| |exact Hnd].
        intros fd'. rewrite Hu, elem_of_cons. split.
        + intros Hin'. split; [by right|]. intros ->. done.
        + intros [[->|Hin'] Hne]; done. }
      split; [lia|]. split; [done|]. split; [done|]. intros fd'.
      apply (live_insert {| table_ := table_ t; unused_ := rest |}).
Qed.

Lemma close_spec `{Build} n t fd :
  inv n t ->
  (live t fd = None -> close fd t = Ret (- EBADFD, t))
  /\ (forall f, live t fd = Some f -> exists t',
       close fd t = Ret (0, t') /\ inv n t' /\ unused_ t' = fd :: unused_ t
       /\ (forall fd', live t' fd' = if bool_decide (fd = fd') then None else live t fd')).
Proof.
  intros Hi. unfold close, live. split.
  - by destruct (table_ t !! fd) as [[]|].
  - intros f Hf. assert (Hl : is_Some (live t fd)) by (unfold live; rewrite Hf; eauto).
    assert (Ha : allocated n fd) by (by apply (inv_dom _ _ Hi), live_entry).
    pose proof (inv_bound _ _ Hi) as Hb. unfold allocated, capacity in *.
    destruct (table_ t !! fd) as [[f'|]|] eqn:E; cbn in Hf; try done.
    rewrite !assert_true.
    2:{ replace fd with (simulated + (fd - simulated)) by lia. apply is_simulated_add. lia. }
    2:{ apply Z.leb_le. unfold simulated in *; lia. }
    cbn [mbind outcome_bind]. eexists. split; [done|].
    split; [|split; [done|intros fd'; apply live_delete]].
    pose proof (proj1 (inv_live _ _ Hi fd Ha) Hl) as Hnin.
    split; cbn [table_ unused_]; try done.
    + intros fd' Hs. destruct (decide (fd = fd')) as [->|Hne].
      { by rewrite lookup_delete_eq in Hs; destruct Hs. }
      rewrite lookup_delete_ne in Hs by done. by apply (inv_dom _ _ Hi).
    + intros fd' [->|Hin]%elem_of_cons; [done|by apply (inv_unused _ _ Hi)].
    + constructor; [done|apply (inv_nodup _ _ Hi)].
    + intros fd' Ha'. rewrite live_delete, elem_of_cons. case_bool_decide as Eq.
      * subst. split; [by intros []|]. intros Hn. exfalso. apply Hn. by left.
      * rewrite (inv_live _ _ Hi) by done.
        split; [intros Hn [->|?]; done|intros Hn Hin; apply Hn; by right].
Qed.

End Invariant.
End FdFacts.

(** ** Histories

    [reach issued t]: [t] is reached from the empty table by insertions,
    closes of any number, and lookups of numbers that were issued. *)

Module FdHistory.
Import FdTable FdFacts.
Section Reach.
Context {F : Type} `{Build}.

Inductive reach : list Z -> table F -> Prop :=
| reach_empty : reach [] empty
| reach_insert l t f fd t' :
    reach l t -> insert f t = Ret (fd, t') -> 0 <= fd -> reach (fd :: l) t'
| reach_full l t f fd t' :
    reach l t -> insert f t = Ret (fd, t') -> fd < 0 -> reach l t'
| reach_close l t fd r t' :
    reach l t -> close fd t = Ret (r, t') -> reach l t'
| reach_get l t fd :
    reach l t -> fd ∈ l -> reach l (get fd t).2.

Lemma reach_inv l t : reach l t -> exists n, inv n t /\ (forall fd, fd ∈ l -> allocated n fd).
Proof.
  induction 1 as [|l t f fd t' _ (n & Hi & Hl) Hins H0|l t f fd t' _ (n & Hi & Hl) Hins H0
                 |l t fd r t' _ (n & Hi & Hl) Hc|l t fd _ (n & Hi & Hl) Hin].
  - exists 0. split; [apply inv_empty|]. intros fd Hfd. by apply not_elem_of_nil in Hfd.
  - destruct (insert_spec n t f Hi) as [Hfull Hok]. pose proof (inv_bound _ _ Hi).
    destruct (decide (unused_ t = [] /\ n = capacity)) as [[Hu Hn]|Hne].
    { rewrite Hfull in Hins by done. injection Hins as <- <-. lia. }
    destruct Hok as (fd' & t'' & n' & Hins' & Hi' & Hn & _ & Ha & _).
    { destruct (decide (unused_ t = [])); [right|by left]. destruct (decide (n = capacity)); [tauto|lia]. }
    rewrite Hins in Hins'. injection Hins' as <- <-. exists n'. split; [done|].
    intros fd' [->|Hin]%elem_of_cons; [done|]. specialize (Hl _ Hin). unfold allocated in *; lia.
  - destruct (insert_spec n t f Hi) as [Hfull Hok]. pose proof (inv_bound _ _ Hi).
    destruct (decide (unused_ t = [] /\ n = capacity)) as [[Hu Hn]|Hne].
    { rewrite Hfull in Hins by done. injection Hins as <- <-. by exists n. }
    destruct Hok as (fd' & t'' & n' & Hins' & Hi' & Hn & _ & Ha & _).
    { destruct (decide (unused_ t = [])); [right|by left]. destruct (decide (n = capacity)); [tauto|lia]. }
    rewrite Hins in Hins'. injection Hins' as <- <-. unfold allocated, simulated in Ha. lia.
  - exists n. split; [|done]. destruct (close_spec n t fd Hi) as [Hno Hyes].
    destruct (live t fd) as [f|] eqn:E.
    + destruct (Hyes f eq_refl) as (t'' & Hc' & Hi' & _). rewrite Hc in Hc'. by injection Hc' as _ <-.
    + rewrite Hno in Hc by done. by injection Hc as _ <-.
  - exists n. split; [|done]. apply get_inv; auto.
Qed.

(** Insert a list of objects in order. *)
Fixpoint insert_all (fs : list F) (t : table F) : outcome (list Z * table F) :=
  match fs with
  | [] => Ret ([], t)
  | f :: fs => '(fd, t) ← insert f t; '(fds, t) ← insert_all fs t; Ret (fd :: fds, t)
  end.

(** After a lookup of the never-issued number [simulated + k] and [j < k]
    insertions. *)
Record stray (k j : Z) (t : table F) : Prop := {
  stray_unused : unused_ t = [];
  stray_dom : dom (table_ t) = list_to_set (C := gset Z) ((fun i => simulated + i) <$> k :: seqZ 1 j);
  stray_null : live t (simulated + k) = None;
}.

Lemma stray_size k j t : 0 <= j < k -> stray k j t -> Z.of_nat (size (table_ t)) = j + 1.
Proof.
  intros Hj Hs. rewrite <- size_dom, (stray_dom _ _ _ Hs), size_list_to_set.
  - rewrite length_fmap; cbn [length]. rewrite length_seqZ. lia.
  - apply NoDup_fmap_2; [intros x y; lia|]. constructor; [rewrite elem_of_seqZ; lia|apply NoDup_seqZ].
Qed.

Lemma stray_entry_none k j t i :
  stray k j t -> 0 <= j < k -> j < i -> live t (simulated + i) = None.
Proof.
  intros Hs Hj Hi. destruct (decide (i = k)) as [->|Hne]; [apply (stray_null _ _ _ Hs)|].
  destruct (live t (simulated + i)) eqn:E; [|done]. exfalso.
  assert (Hin : simulated + i ∈ dom (table_ t)) by (apply elem_of_dom, live_entry; eauto).
  rewrite (stray_dom _ _ _ Hs), elem_of_list_to_set, list_elem_of_fmap in Hin.
  destruct Hin as (x & Hx & [->|Hin]%elem_of_cons); [lia|]. apply elem_of_seqZ in Hin. lia.
Qed.

Lemma stray_insert k j t f :
  0 <= j < k -> k < capacity -> stray k j t ->
  insert f t = Ret (simulated + (j + 1),
    {| table_ := <[simulated + (j + 1) := Some f]> (table_ t); unused_ := [] |}).
Proof.
  intros Hj Hk Hs. unfold insert. rewrite (stray_unused _ _ _ Hs), (stray_size k j t) by done.
  rewrite (proj2 (Z.leb_gt _ _)) by lia. unfold capacity in *.
  rewrite i32_id, (not_simulated_small (j + 1)), lor_simulated by lia.
  rewrite assert_true by done. cbn [mbind outcome_bind].
  rewrite store_ok, (stray_unused _ _ _ Hs);
    [done|unfold simulated; lia|apply is_simulated_add; lia|].
  apply (stray_entry_none k j); [done|lia|lia].
Qed.

Lemma stray_step k j t f :
  0 <= j -> j + 1 < k -> stray k j t ->
  stray k (j + 1) {| table_ := <[simulated + (j + 1) := Some f]> (table_ t); unused_ := [] |}.
Proof.
  intros Hj Hk Hs. split; [done| |].
  - cbn [table_]. rewrite dom_insert_L, (stray_dom _ _ _ Hs).
    rewrite (seqZ_app 1 j 1) by lia. cbn. rewrite fmap_app, list_to_set_app_L. cbn.
    replace (1 + j) with (j + 1) by lia. clear; set_solver.
  - rewrite live_insert. rewrite bool_decide_eq_false_2 by lia. apply (stray_null _ _ _ Hs).
Qed.

Lemma stray_insert_all k j fs t :
  0 <= j -> j + Z.of_nat (length fs) = k -> fs <> [] -> k < capacity -> stray k j t ->
  exists t', insert_all fs t = Ret ((fun i => simulated + i) <$> seqZ (j + 1) (k - j), t')
    /\ unused_ t' = [] /\ Z.of_nat (size (table_ t')) = k
    /\ live t' (simulated + k) = last fs.
Proof.
  revert j t. induction fs as [|f fs IH]; intros j t Hj Hl Hne Hk Hs; [done|].
  cbn [length] in Hl. cbn [insert_all]. rewrite (stray_insert k j) by (done || lia).
  cbn [mbind outcome_bind]. rewrite (seqZ_cons (j + 1)) by lia. cbn [fmap list_fmap].
  destruct fs as [|f' fs].
  - cbn in Hl. assert (k = j + 1) as -> by lia. eexists. split.
    { cbn. by rewrite seqZ_nil by lia. }
    split; [done|]. split.
    + cbn [table_]. rewrite map_size_insert_Some.
      { rewrite (stray_size (j + 1) j t) by (done || lia). lia. }
      apply elem_of_dom. rewrite (stray_dom _ _ _ Hs). cbn. set_solver.
    + rewrite live_insert. by rewrite bool_decide_eq_true_2.
  - destruct (IH (j + 1) {| table_ := <[simulated + (j + 1) := Some f]> (table_ t); unused_ := [] |})
      as (t' & Ht' & Hrest); [lia|cbn [length] in *; lia|done|lia| |].
    { apply (stray_step k j); [lia| |done]. cbn [length] in Hl. lia. }
    exists t'. split; [|done]. rewrite Ht'. cbn [mbind outcome_bind].
    replace (Z.succ (j + 1)) with (j + 1 + 1) by lia.
    by replace (Z.pred (k - j)) with (k - (j + 1)) by lia.
Qed.

End Reach.

(** The two builds agree on a run that returns in both. *)
Lemma insert_build {F} (f : F) t (B1 B2 : Build) x y :
  @insert _ B1 f t = Ret x -> @insert _ B2 f t = Ret y -> x = y.
Proof.
  unfold insert, store, assert_. intros H1 H2.
  destruct (@NDEBUG B1), (@NDEBUG B2); repeat case_match; cbn in *; simplify_eq; done.
Qed.
Lemma insert_all_build {F} (fs : list F) t (B1 B2 : Build) x y :
  @insert_all _ B1 fs t = Ret x -> @insert_all _ B2 fs t = Ret y -> x = y.
Proof.
  revert t x y. induction fs as [|f fs IH]; intros t x y H1 H2; cbn in H1, H2; [congruence|].
  apply bind_Ret_inv in H1 as ([fd t1] & E1 & H1). apply bind_Ret_inv in H2 as ([fd' t1'] & E2 & H2).
  pose proof (insert_build _ _ _ _ _ _ E1 E2) as E. injection E as <- <-.
  apply bind_Ret_inv in H1 as ([fds t2] & E3 & H1). apply bind_Ret_inv in H2 as ([fds' t2'] & E4 & H2).
  pose proof (IH _ _ _ E3 E4) as E. injection E as <- <-. congruence.
Qed.

End FdHistory.

(** ** The stdout loop *)

Module StdoutFacts.
Import FileDescriptor.
Section Loop.
Context {T : Type} (load : list byte -> T -> Z * list byte * T).

(** The callback succeeds and fills the span it is given. *)
Definition load_ok : Prop :=
  forall tmp s, 0 <= (load tmp s).1.1 /\ length (load tmp s).1.2 = length tmp.

(** How many bytes went to [fwrite]. *)
Definition written (out : list output) : Z :=
  fold_right (fun o n => match o with Fwrite d => Z.of_nat (length d) + n | _ => n end) 0 out.

Lemma written_app a b : written (a ++ b) = written a + written b.
Proof.
  unfold written. induction a as [|o a IH]; [done|]. cbn [fold_right app]. rewrite IH. destruct o; lia.
Qed.

Lemma stdout_loop_spec k fuel buf bytes done out s c :
  load_ok -> c = Z.min (Z.of_nat (length buf)) bytes -> 0 < c -> 0 <= done ->
  bytes <= done + Z.of_nat k * c < bytes + c -> (done < bytes \/ k = 0%nat) ->
  bytes + c < 2 ^ 63 -> (k < fuel)%nat ->
  exists out' s', write_loop load fuel buf bytes done out s
    = Ret (done + Z.of_nat k * c, out', s') /\ written out' = written out + Z.of_nat k * c.
Proof.
  intros Hload. revert fuel buf done out s.
  induction k as [|k IH]; intros fuel buf done out s Hc Hpos Hd Hk Hlt Hm Hf.
  - destruct fuel; [lia|]. cbn [write_loop]. rewrite (proj2 (Z.ltb_ge _ _)) by lia.
    rewrite i64_id by lia. eexists _, _. replace (done + Z.of_nat 0 * c) with done by lia. split; [done|lia].
  - destruct fuel; [lia|]. cbn [write_loop].
    assert (done < bytes) as Hdb by (destruct Hlt; [done|lia]).
    rewrite (proj2 (Z.ltb_lt _ _)) by lia. rewrite <- Hc.
    set (tmp := take (Z.to_nat c) buf). destruct (Hload tmp s) as [Hres Hlen].
    destruct (load tmp s) as [[res tmp'] s'] eqn:E; cbn [fst snd] in *.
    assert (Htmp : length tmp = Z.to_nat c) by (unfold tmp; rewrite length_take; lia).
    rewrite (proj2 (Z.ltb_ge _ _)) by lia. rewrite u64_id by lia.
    edestruct (IH fuel (tmp' ++ drop (Z.to_nat c) buf) (done + c)) as (out' & s'' & Heq & Hw);
      [rewrite length_app, length_drop; lia|lia|lia|nia|nia|lia|lia|].
    exists out', s''. rewrite Heq. replace (done + c + Z.of_nat k * c) with (done + Z.of_nat (S k) * c) by lia.
    split; [done|].
    rewrite Hw, written_app. cbn. lia.
Qed.

End Loop.
End StdoutFacts.

(** * Properties *)

Import FdTable FdFacts FdHistory.

(** C8: in every state reached by inserting, closing and looking up numbers
    that were issued, [insert] returns in both builds (no assertion can
    fail): either the table is full and it answers -1 with the table
    unchanged, or it answers a non-negative number with the simulated bit that
    is not open, opens exactly that number with the given object, and leaves
    every other descriptor as it was. *)
Theorem insert_never_aborts {F} `{Build} (l : list Z) (t : table F) (f : F) (Ht : reach l t) :
  exists fd t', insert f t = Ret (fd, t')
    /\ ((fd = -1 /\ t' = t)
        \/ (0 <= fd /\ is_simulated fd = true /\ live t fd = None /\ reach (fd :: l) t'
            /\ forall fd', live t' fd' = if bool_decide (fd = fd') then Some f else live t fd')).
Proof.
  destruct (reach_inv l t Ht) as (n & Hi & _). pose proof (inv_bound _ _ Hi).
  destruct (insert_spec n t f Hi) as [Hfull Hok].
  destruct (decide (unused_ t = [] /\ n = capacity)) as [[Hu Hn]|Hne].
  { exists (-1), t. split; [by apply Hfull|by left]. }
  destruct Hok as (fd & t' & n' & Hins & Hi' & Hn & Hnl & Ha & Hl).
  { destruct (decide (unused_ t = [])); [right|by left]. destruct (decide (n = capacity)); [tauto|lia]. }
  exists fd, t'. split; [done|]. right. pose proof (inv_bound _ _ Hi').
  unfold allocated, capacity in *.
  assert (0 <= fd) by (unfold simulated in *; lia).
  split; [done|]. split.
  { replace fd with (simulated + (fd - simulated)) by lia. apply is_simulated_add; lia. }
  split; [done|]. split; [by eapply reach_insert|done].
Qed.

Example insert_never_aborts_witness :
  exists fd t', @insert _ debug_build 7 (@empty Z) = Ret (fd, t')
    /\ ((fd = -1 /\ t' = empty)
        \/ (0 <= fd /\ is_simulated fd = true /\ live (@empty Z) fd = None
            /\ @reach _ debug_build [fd] t'
            /\ forall fd', live t' fd' = if bool_decide (fd = fd') then Some 7 else live (@empty Z) fd')).
Proof.
  exact (@insert_never_aborts _ debug_build [] empty 7 (@reach_empty _ debug_build)).
Defined.

(** [close] on a reachable table answers -EBADFD without any change when
    the number is not open; otherwise it returns 0, closes that number only,
    and the very next [insert] gives the same number out again. *)
Theorem close_then_reuse {F} `{Build} (l : list Z) (t : table F) (fd : Z) (g : F) (Ht : reach l t) :
  (live t fd = None -> close fd t = Ret (- EBADFD, t))
  /\ (is_Some (live t fd) -> exists t1 t2,
        close fd t = Ret (0, t1)
        /\ (forall fd', live t1 fd' = if bool_decide (fd = fd') then None else live t fd')
        /\ insert g t1 = Ret (fd, t2)
        /\ (forall fd', live t2 fd' = if bool_decide (fd = fd') then Some g else live t fd')).
Proof.
  destruct (reach_inv l t Ht) as (n & Hi & _).
  destruct (close_spec n t fd Hi) as [Hno Hyes]. split; [done|].
  intros [f Hf]. destruct (Hyes f Hf) as (t1 & Hc & Hi1 & Hu1 & Hl1).
  assert (Ha : allocated n fd) by (apply (inv_dom _ _ Hi), live_entry; eauto).
  pose proof (inv_bound _ _ Hi). unfold allocated, capacity in Ha.
  exists t1. eexists. split; [done|]. split; [done|]. unfold insert. rewrite Hu1. split.
  - apply store_ok; [unfold simulated in *; lia| |].
    + replace fd with (simulated + (fd - simulated)) by lia. apply is_simulated_add.
      unfold capacity in *; lia.
    + change (live t1 fd = None). rewrite Hl1. by rewrite bool_decide_eq_true_2.
  - intros fd'. rewrite (live_insert {| table_ := table_ t1; unused_ := unused_ t |}).
    case_bool_decide as E; [done|]. change (live t1 fd' = live t fd'). rewrite Hl1.
    by rewrite bool_decide_eq_false_2.
Qed.

Example close_then_reuse_witness :
  exists t1 t2,
    @close _ debug_build (2 ^ 30) {| table_ := {[ 2 ^ 30 := Some 5 ]}; unused_ := [] |} = Ret (0, t1)
    /\ (forall fd', live t1 fd' = if bool_decide (2 ^ 30 = fd') then None
          else live {| table_ := {[ 2 ^ 30 := Some 5 ]}; unused_ := [] |} fd')
    /\ @insert _ debug_build 6 t1 = Ret (2 ^ 30, t2)
    /\ (forall fd', live t2 fd' = if bool_decide (2 ^ 30 = fd') then Some 6
          else live {| table_ := {[ 2 ^ 30 := Some 5 ]}; unused_ := [] |} fd').
Proof.
  assert (Hr : @reach Z debug_build [2 ^ 30] {| table_ := {[ 2 ^ 30 := Some 5 ]}; unused_ := [] |})
    by (apply (@reach_insert _ debug_build [] empty 5); [apply reach_empty|reflexivity|done]).
  apply (proj2 (@close_then_reuse _ debug_build [2 ^ 30] _ (2 ^ 30) 6 Hr)). by eexists.
Defined.

(** C9: looking up a number that was never issued breaks the allocator.
    After a [get] of [simulated + k], the next [k] insertions succeed, the last
    of them on that very number, and the one after picks the same number
    again: a debug build aborts there, a release build silently replaces the
    open descriptor. *)
Theorem stray_get_double_allocation {F} (k : Z) (fs : list F) (g : F)
  (Hk : 1 <= k < capacity) (Hlen : Z.of_nat (length fs) = k) :
  exists t f,
    (forall B : Build, insert_all fs (get (simulated + k) empty).2
       = Ret ((fun i => simulated + i) <$> seqZ 1 k, t))
    /\ live t (simulated + k) = Some f
    /\ @insert _ debug_build g t = Abort_
    /\ exists t', @insert _ release_build g t = Ret (simulated + k, t')
                  /\ live t' (simulated + k) = Some g.
Proof.
  assert (Hs : stray k 0 (get (simulated + k) (@empty F)).2).
  { unfold get. cbn [table_ empty]. rewrite lookup_empty. cbn [snd]. split; [done| |].
    - cbn. rewrite dom_insert_L, dom_empty_L. cbn. done.
    - unfold live; cbn. by rewrite lookup_insert_eq. }
  assert (Hne : fs <> []) by (intros ->; cbn in Hlen; lia).
  destruct (@stray_insert_all _ debug_build k 0 fs _ ltac:(lia) ltac:(lia) Hne ltac:(lia) Hs)
    as (t & Hd & Hu & Hsz & Hlast).
  destruct (last fs) as [f|] eqn:Ef; [|by apply last_None in Ef].
  exists t, f. split.
  { intros B.
    destruct (@stray_insert_all _ B k 0 fs _ ltac:(lia) ltac:(lia) Hne ltac:(lia) Hs)
      as (t2 & Hd2 & Hu2 & Hsz2 & Hlast2).
    rewrite Hd2. replace (k - 0) with k in * by lia.
    pose proof (insert_all_build fs (get (simulated + k) empty).2 B debug_build _ _ Hd2 Hd) as E.
    by rewrite E. }
  split; [done|].
  assert (Hent : table_ t !! (simulated + k) = Some (Some f)).
  { unfold live in Hlast. destruct (table_ t !! (simulated + k)) as [o|]; cbn in Hlast; [by f_equal|done]. }
  unfold capacity in Hk.
  assert (Hbody : forall B : Build, @insert _ B g t = @store _ B (simulated + k) g t).
  { intros B. unfold insert. rewrite Hu, Hsz. rewrite (proj2 (Z.leb_gt _ _)) by (unfold capacity; lia).
    rewrite i32_id, (not_simulated_small k), lor_simulated by lia. by rewrite assert_true. }
  assert (Hsim : is_simulated (simulated + k) = true) by (apply is_simulated_add; lia).
  assert (H0 : (0 <=? simulated + k) = true) by (apply Z.leb_le; unfold simulated; lia).
  rewrite !Hbody. unfold store, get. rewrite Hent, Hsim, H0. split; [done|].
  eexists. split; [done|]. rewrite live_insert. by rewrite bool_decide_eq_true_2.
Qed.

(** Two sockets end on one number after a read of descriptor 0x40000001. *)
Example stray_get_double_allocation_witness :
  exists t f,
    (forall B : Build, insert_all [10] (get (simulated + 1) (@empty Z)).2
       = Ret ((fun i => simulated + i) <$> seqZ 1 1, t))
    /\ live t (simulated + 1) = Some f
    /\ @insert _ debug_build 20 t = Abort_
    /\ exists t', @insert _ release_build 20 t = Ret (simulated + 1, t')
                  /\ live t' (simulated + 1) = Some 20.
Proof.
  apply (stray_get_double_allocation 1 [10] 20); [unfold capacity; lia|reflexivity].
Defined.

Lemma chunks_bound bytes : 0 < bytes ->
  (bytes + Z.min 8192 bytes - 1) / Z.min 8192 bytes <= bytes / 8192 + 1.
Proof.
  intros Hb. assert (H0 : 0 <= bytes / 8192) by (apply Z.div_pos; lia).
  destruct (Z.le_ge_cases bytes 8192).
  - rewrite Z.min_r by lia.
    assert ((bytes + bytes - 1) / bytes < 2) by (apply Z.div_lt_upper_bound; lia). lia.
  - rewrite Z.min_l by lia.
    replace (bytes + 8192 - 1) with (bytes - 1 + 1 * 8192) by lia. rewrite Z.div_add by lia.
    pose proof (Z.div_le_mono (bytes - 1) bytes 8192 ltac:(lia) ltac:(lia)). lia.
Qed.

(** Writing to the stdout descriptor. With a callback that succeeds, the
    call returns (fuel above the number of chunks is enough) the number of
    bytes it passed to [fwrite]; that number is the request rounded up to
    whole chunks of [min(8192, bytes)], so more than was asked for as soon as
    [bytes] is larger than 8192 and not a multiple of it. *)
Theorem stdout_write_rounds_up {T} (load : list byte -> T -> Z * list byte * T)
  (s : T) (bytes : Z) (fuel : nat)
  (Hload : StdoutFacts.load_ok load) (Hb : 0 < bytes < 2 ^ 62)
  (Hfuel : bytes / 8192 + 1 < Z.of_nat fuel) :
  let c := Z.min 8192 bytes in
  let n := (bytes + c - 1) / c * c in
  (exists out s', FileDescriptor.stdout_write load fuel bytes s = Ret (n, out, s')
     /\ StdoutFacts.written out = n)
  /\ bytes <= n /\ (n = bytes <-> bytes mod c = 0)
  /\ FileDescriptor.stdout_write load (S fuel) 0 s
     = Ret (0, [FileDescriptor.Println (replicate 4 x00)], s).
Proof.
  intros c n. assert (Hc : 0 < c) by lia.
  pose proof (Z.div_mod (bytes + c - 1) c ltac:(lia)) as Hdm.
  pose proof (Z.mod_pos_bound (bytes + c - 1) c Hc) as Hmb.
  assert (Hn : bytes <= n < bytes + c) by (unfold n; lia).
  split; [|split; [lia|split]].
  - unfold FileDescriptor.stdout_write.
    edestruct (StdoutFacts.stdout_loop_spec load (Z.to_nat ((bytes + c - 1) / c)) fuel
      (replicate (Z.to_nat 8192) x00) bytes 0
      [FileDescriptor.Println (take 4 (replicate (Z.to_nat 8192) x00))] s c Hload)
      as (out & s' & E & Hw).
    + by rewrite length_replicate, Z2Nat.id by lia.
    + done.
    + lia.
    + rewrite Z2Nat.id by (apply Z.div_pos; lia). unfold n in Hn; lia.
    + lia.
    + lia.
    + pose proof (chunks_bound bytes ltac:(lia)) as Hch. fold c in Hch.
      pose proof (Z.div_pos bytes 8192 ltac:(lia) ltac:(lia)). lia.
    + exists out, s'. rewrite Z2Nat.id in E, Hw by (apply Z.div_pos; lia). split; [done|].
      rewrite Hw. cbn. unfold n; lia.
  - split; intros E.
    + rewrite <- E. unfold n. apply Z.mod_mul; lia.
    + pose proof (Z.div_mod bytes c ltac:(lia)) as Hbm. unfold n.
      replace (bytes + c - 1) with (c - 1 + bytes / c * c) by lia.
      rewrite Z.div_add, (Z.div_small (c - 1)) by lia. lia.
  - reflexivity.
Qed.

Definition load_zeros (tmp : list byte) (s : unit) : Z * list byte * unit := (0, tmp, s).

(** 10000 bytes asked, 16384 written and reported. *)
Example stdout_write_rounds_up_witness :
  exists out s', FileDescriptor.stdout_write load_zeros 3 10000 tt = Ret (16384, out, s')
    /\ StdoutFacts.written out = 16384.
Proof.
  refine (proj1 (stdout_write_rounds_up load_zeros tt 10000 3 _ _ _)); [|lia|reflexivity].
  intros tmp s. done.
Defined.
