(* ===== verification/Pipe.v ===== *)
(** * The one-way datagram pipe: src/net/datagram_socket.cpp, datagram_socket.hpp

    [datagram_pipe] queues packets by arrival time and injects the faults of
    [net_fault_options].  [std::priority_queue] is used through the class
    [PriorityQueue], with the contract the standard gives it (a largest
    element on top, ties in any order); [PacketList] is an implementation.
    Times are [steady_clock] nanoseconds; every call is given the clock
    readings it makes. *)

From Stdlib Require Import SpecFloat Strings.Byte Permutation Sorting.Sorted.
From S2P Require Import Prelude Words Float Random Faults Socket.

(** ** Packets *)

Record packet := { arrival : Z; bytes : list byte; consumed : nat; from : socket_addr }.

#[export] Instance packet_eq_dec : EqDecision packet.
Proof. solve_decision. Defined.

Module Packet.
Definition lt (lhs rhs : packet) : bool := arrival rhs <? arrival lhs.
Definition gt (lhs rhs : packet) : bool := lt rhs lhs.
Definition le (lhs rhs : packet) : bool := negb (lt rhs lhs).
Definition ge (lhs rhs : packet) : bool := negb (lt lhs rhs).
(** [data.subspan(consumed)]: undefined past the end. *)
Definition remaining (p : packet) : outcome (list byte) :=
  if (consumed p <=? length (bytes p))%nat then Ret (drop (consumed p) (bytes p)) else Undefined.
End Packet.

(** ** The queue's contract *)

Class PriorityQueue (Q : Type) := {
  pq_empty : Q;
  pq_push : packet -> Q -> Q;
  pq_top : Q -> option packet;
  pq_pop : Q -> Q;
}.

Class PriorityQueueOk (Q : Type) `{PriorityQueue Q} := {
  pq_elems : Q -> list packet;
  pq_elems_empty : pq_elems pq_empty = [];
  pq_elems_push : forall p q, pq_elems (pq_push p q) ≡ₚ p :: pq_elems q;
  pq_top_none : forall q, pq_top q = None -> pq_elems q = [];
  pq_top_some : forall q p, pq_top q = Some p ->
    pq_elems q ≡ₚ p :: pq_elems (pq_pop q)
    /\ forall x, x ∈ pq_elems q -> Packet.lt p x = false;
}.

(** ** The pipe *)

Record datagram_pipe (Q R : Type) := {
  packets_ : Q;
  fault_options_ : net_fault_options;
  rng_ : R;
}.
Arguments packets_ {Q R} _.
Arguments fault_options_ {Q R} _.
Arguments rng_ {Q R} _.
Arguments Build_datagram_pipe {Q R} _ _ _.

(** What one pass of [recv]'s loop finds. *)
Inductive recv_result (A : Type) :=
| Wait                        (* the queue is empty: [cond_.wait] *)
| WaitUntil (t : Z)           (* nothing has arrived yet *)
| Got (a : A).
Arguments Wait {A}.
Arguments WaitUntil {A} t.
Arguments Got {A} a.

Section Pipe.
Context {Q R : Type} `{PriorityQueue Q} `{Rng R} `{Bernoulli R} `{Build}.
(** Named in an [assert] of [send], defined nowhere in the live code. *)
Variable max_udp_packet_size : Z.
Implicit Types pipe : datagram_pipe Q R.

Definition make (o : net_fault_options) (rng : R) : datagram_pipe Q R :=
  Build_datagram_pipe pq_empty o rng.

(** [seed(rng)], for the one generator the pipe is declared with. *)
Definition seed {S} `{Rng S} (rng : S) (pipe : datagram_pipe Q Xoshiro.xoshiro256_star_star)
  : datagram_pipe Q Xoshiro.xoshiro256_star_star * S :=
  let '(r, rng) := Xoshiro.seed_from rng in
  (Build_datagram_pipe (packets_ pipe) (fault_options_ pipe) r, rng).

(** The [while (replays.size() < replay_count)] loop: [n] copies of [p], each
    with its own doubled latency. *)
Fixpoint make_replays (n : nat) (o : net_fault_options) (now : Z) (p : packet) (r : R)
  : outcome (list packet * R) :=
  match n with
  | O => Ret ([], r)
  | S n =>
      '(l, r) ← latency o r;
      l2 ← mul_i64 l 2;
      a ← add_i64 now l2;
      '(ps, r) ← make_replays n o now p r;
      Ret ({| arrival := a; bytes := bytes p; consumed := consumed p; from := from p |} :: ps, r)
  end.

Definition send (fuel : nat) (now : Z) (data : list byte) (addr : socket_addr) pipe
  : outcome (datagram_pipe Q R) :=
  let o := fault_options_ pipe in
  _ ← assert_ (Z.of_nat (length data) <? max_udp_packet_size);
  let '(drop, r) := should_drop o (rng_ pipe) in
  if drop then Ret (Build_datagram_pipe (packets_ pipe) o r)
  else
    '(l, r) ← latency o r;
    a ← add_i64 now l;
    let p := {| arrival := a; bytes := data; consumed := 0; from := addr |} in
    '(replays, r) ← replay_count fuel o r;
    '(ps, r) ← make_replays (Z.to_nat replays) o now p r;
    Ret (Build_datagram_pipe (fold_left (fun q p => pq_push p q) ps (pq_push p (packets_ pipe))) o r).

(** One pass of the loop in [recv], at clock reading [now]. *)
Definition recv_step (now : Z) pipe : recv_result (list byte * socket_addr * datagram_pipe Q R) :=
  match pq_top (packets_ pipe) with
  | None => Wait
  | Some p =>
      if now <? arrival p then WaitUntil (arrival p)
      else Got (bytes p, from p,
                Build_datagram_pipe (pq_pop (packets_ pipe)) (fault_options_ pipe) (rng_ pipe))
  end.

(** [recv] with nobody else touching the pipe: one clock reading per pass. *)
Fixpoint recv (clock : list Z) pipe : outcome (list byte * socket_addr * datagram_pipe Q R) :=
  match clock with
  | [] => OutOfFuel
  | now :: clock =>
      match recv_step now pipe with
      | Got x => Ret x
      | Wait | WaitUntil _ => recv clock pipe
      end
  end.

End Pipe.

(** ** An implementation of the queue *)

Module PacketList.

(** Sorted by arrival, later pushes after earlier ones of the same time. *)
Fixpoint insert (p : packet) (q : list packet) : list packet :=
  match q with
  | [] => [p]
  | x :: q' => if Packet.lt x p then p :: q else x :: insert p q'
  end.

Record queue := { elems : list packet; sorted : StronglySorted (fun a b => arrival a <= arrival b) elems }.

Lemma insert_perm p q : insert p q ≡ₚ p :: q.
Proof.
  induction q as [|x q IH]; cbn; [done|]. destruct (Packet.lt x p); [done|].
  rewrite IH. apply perm_swap.
Qed.
Lemma insert_sorted p q :
  StronglySorted (fun a b => arrival a <= arrival b) q ->
  StronglySorted (fun a b => arrival a <= arrival b) (insert p q).
Proof.
  induction 1 as [|x q Hs IH Hall]; cbn; [repeat constructor|].
  unfold Packet.lt. destruct (Z.ltb_spec (arrival p) (arrival x)).
  - constructor; [by constructor|]. constructor; [lia|].
    eapply List.Forall_impl; [|exact Hall]. cbn. lia.
  - constructor; [done|]. eapply Permutation_Forall; [symmetry; apply insert_perm|].
    by constructor.
Qed.

Lemma tail_sorted (q : list packet) :
  StronglySorted (fun a b => arrival a <= arrival b) q ->
  StronglySorted (fun a b => arrival a <= arrival b) (tail q).
Proof. destruct 1; [constructor|done]. Qed.

#[export] Instance queue_pq : PriorityQueue queue := {|
  pq_empty := {| elems := []; sorted := SSorted_nil _ |};
  pq_push p q := {| elems := insert p (elems q); sorted := insert_sorted p _ (sorted q) |};
  pq_top q := head (elems q);
  pq_pop q := {| elems := tail (elems q); sorted := tail_sorted _ (sorted q) |};
|}.

#[export] Instance queue_ok : PriorityQueueOk queue.
Proof.
  refine {| pq_elems := elems |}.
  - done.
  - intros p q. apply insert_perm.
  - intros [[|x q] Hs]; cbn; congruence.
  - intros [[|x q] Hs] p; cbn; [done|]. intros [= ->]. split; [done|].
    intros y [->|Hy]%elem_of_cons; unfold Packet.lt; apply Z.ltb_ge; [lia|].
    inversion_clear Hs as [|? ? _ Hall]. by eapply Forall_forall in Hall.
Defined.

End PacketList.

(** ** Facts *)

Section Facts.
Context {Q R : Type} `{PriorityQueueOk Q} `{BernoulliOk R} `{Build}.
Implicit Types pipe : datagram_pipe Q R.

Definition pending pipe : list packet := pq_elems (packets_ pipe).

Lemma push_all ps (q : Q) :
  pq_elems (fold_left (fun q p => pq_push p q) ps q) ≡ₚ ps ++ pq_elems q.
Proof.
  revert q. induction ps as [|p ps IH]; intros q; cbn; [done|].
  rewrite IH, pq_elems_push. symmetry. apply Permutation_middle.
Qed.

(** Latencies and clock readings that overflow nothing. *)
Definition sane (o : net_fault_options) (now : Z) : Prop :=
  0 <= min_latency o <= max_latency o /\ 0 <= now /\ now + 2 * max_latency o + 2 < 2 ^ 63.

Lemma latency_sane o now (r : R) :
  sane o now -> exists l, latency o r = Ret (l, after r 1)
    /\ min_latency o <= l <= max_latency o.
Proof.
  intros (Hl & Hn & Hm). eexists. split; [apply latency_eq; lia|].
  pose proof (Z.mod_pos_bound (draw r 0) (max_latency o + 1 - min_latency o)). lia.
Qed.

Lemma add_i64_ok a b : is_i64 (a + b) -> add_i64 a b = Ret (a + b).
Proof. intros Hr. unfold add_i64. by rewrite (proj2 (Z.leb_le _ _)), (proj2 (Z.ltb_lt _ _)) by lia. Qed.
Lemma mul_i64_ok a b : is_i64 (a * b) -> mul_i64 a b = Ret (a * b).
Proof. intros Hr. unfold mul_i64. by rewrite (proj2 (Z.leb_le _ _)), (proj2 (Z.ltb_lt _ _)) by lia. Qed.

(** A copy of [p] that arrives within the doubled latency window. *)
Definition replay_of (o : net_fault_options) (now : Z) (p x : packet) : Prop :=
  bytes x = bytes p /\ from x = from p /\ consumed x = consumed p
  /\ now + 2 * min_latency o <= arrival x <= now + 2 * max_latency o.

Lemma make_replays_spec n o now p (r : R) :
  sane o now -> rng_wf r ->
  exists ps r', make_replays n o now p r = Ret (ps, r') /\ length ps = n
    /\ Forall (replay_of o now p) ps /\ rng_wf r'.
Proof.
  intros Hs. revert r. induction n as [|n IH]; intros r Hr; cbn [make_replays].
  { by exists [], r. }
  destruct (latency_sane o now r Hs) as (l & -> & Hl). cbn [mbind outcome_bind].
  destruct Hs as (Hlat & Hn & Hm).
  rewrite mul_i64_ok by lia. cbn [mbind outcome_bind].
  rewrite add_i64_ok by lia. cbn [mbind outcome_bind].
  destruct (IH (after r 1)) as (ps & r' & -> & Hlen & Hps & Hr'); [by apply after_wf|].
  cbn [mbind outcome_bind]. eexists _, r'. split; [done|].
  split; [by cbn; f_equal|]. split; [|done].
  constructor; [|done]. unfold replay_of; cbn. split; [done|]. split; [done|]. split; [done|]. lia.
Qed.

Lemma replay_loop_range fuel p n (r : R) k r' :
  0 <= n < 2 ^ 64 -> replay_loop fuel p n r = Ret (k, r') -> 0 <= k < 2 ^ 64.
Proof.
  revert n r. induction fuel as [|fuel IH]; intros n r Hn Hk; [done|]. cbn [replay_loop] in Hk.
  apply bind_Ret_inv in Hk as ([b r1] & _ & Hk). destruct b.
  - eapply IH; [|exact Hk]. apply u64_range.
  - by injection Hk as <- _.
Qed.
Lemma replay_count_range fuel o (r : R) k r' :
  replay_count fuel o r = Ret (k, r') -> 0 <= k < 2 ^ 64.
Proof. apply replay_loop_range. lia. Qed.

Lemma replay_loop_wf fuel p n (r : R) k r' :
  rng_wf r -> replay_loop fuel p n r = Ret (k, r') -> rng_wf r'.
Proof.
  revert n r. induction fuel as [|fuel IH]; intros n r Hr Hk; [done|]. cbn [replay_loop] in Hk.
  apply bind_Ret_inv in Hk as ([b r1] & Hb & Hk).
  assert (Hr1 : rng_wf r1).
  { unfold gen_bool in Hb. apply bind_Ret_inv in Hb as (u & _ & Hb).
    apply bind_Ret_inv in Hb as (th & _ & Hb). pose proof (rng_next_wf r Hr) as Hw.
    destruct (rng_next r) as [v r2]; cbn in Hw. destruct (th =? 2 ^ 64 - 1); by injection Hb as _ <-. }
  destruct b; [by eapply IH|]. by injection Hk as _ <-.
Qed.

(** [send], once the drop decision and the replay count are known. *)
Lemma send_kept mx fuel now data addr pipe r1 k r2 :
  sane (fault_options_ pipe) now -> rng_wf (rng_ pipe) ->
  assert_ (Z.of_nat (length data) <? mx) = Ret tt ->
  should_drop (fault_options_ pipe) (rng_ pipe) = (false, r1) ->
  replay_count fuel (fault_options_ pipe) (after r1 1) = Ret (k, r2) ->
  exists p ps pipe', send mx fuel now data addr pipe = Ret pipe'
    /\ pending pipe' ≡ₚ p :: ps ++ pending pipe
    /\ Z.of_nat (length ps) = k
    /\ p = {| arrival := arrival p; bytes := data; consumed := 0; from := addr |}
    /\ now + min_latency (fault_options_ pipe) <= arrival p <= now + max_latency (fault_options_ pipe)
    /\ Forall (replay_of (fault_options_ pipe) now p) ps
    /\ fault_options_ pipe' = fault_options_ pipe /\ rng_wf (rng_ pipe').
Proof.
  intros Hs Hr Ha Hd Hc. pose proof (replay_count_range _ _ _ _ _ Hc) as Hk.
  assert (Hr1 : rng_wf r1).
  { pose proof (bernoulli_wf (p_drop (fault_options_ pipe)) (rng_ pipe) Hr) as Hw.
    unfold should_drop in Hd. by rewrite Hd in Hw. }
  assert (Hr2 : rng_wf r2) by (eapply replay_loop_wf; [by apply (after_wf r1 1)|exact Hc]).
  destruct (latency_sane (fault_options_ pipe) now r1 Hs) as (l & El & Hl).
  pose proof Hs as (Hlat & Hn & Hm).
  set (p := {| arrival := now + l; bytes := data; consumed := 0; from := addr |}).
  destruct (make_replays_spec (Z.to_nat k) (fault_options_ pipe) now p r2 Hs Hr2)
    as (ps & r3 & Eps & Hlen & Hps & Hr3).
  exists p, ps. eexists. split.
  { unfold send. rewrite Ha. cbn [mbind outcome_bind]. rewrite Hd, El. cbn [mbind outcome_bind].
    rewrite add_i64_ok by lia. cbn [mbind outcome_bind]. rewrite Hc. cbn [mbind outcome_bind].
    fold p. rewrite Eps. reflexivity. }
  unfold pending; cbn [packets_ fault_options_ rng_].
  split; [rewrite push_all, pq_elems_push; symmetry; apply Permutation_middle|].
  split; [lia|]. split; [done|]. split; [unfold p; cbn; lia|]. done.
Qed.

Lemma send_dropped mx fuel now data addr pipe r1 :
  assert_ (Z.of_nat (length data) <? mx) = Ret tt ->
  should_drop (fault_options_ pipe) (rng_ pipe) = (true, r1) ->
  send mx fuel now data addr pipe
    = Ret (Build_datagram_pipe (packets_ pipe) (fault_options_ pipe) r1).
Proof. intros Ha Hd. unfold send. by rewrite Ha, Hd. Qed.

(** Everything [recv_step] can answer. *)
Lemma recv_step_cases now pipe :
  match recv_step now pipe with
  | Wait => pending pipe = []
  | WaitUntil t => now < t /\ (exists p, p ∈ pending pipe /\ arrival p = t)
      /\ forall x, x ∈ pending pipe -> t <= arrival x
  | Got (data, addr, pipe') => exists p, pending pipe ≡ₚ p :: pending pipe'
      /\ data = bytes p /\ addr = from p /\ arrival p <= now
      /\ fault_options_ pipe' = fault_options_ pipe /\ rng_ pipe' = rng_ pipe
      /\ forall x, x ∈ pending pipe -> arrival p <= arrival x
  end.
Proof.
  unfold recv_step, pending. destruct (pq_top (packets_ pipe)) as [p|] eqn:E.
  2:{ by apply pq_top_none. }
  destruct (pq_top_some _ _ E) as [Hperm Hmax].
  assert (Hmin : forall x, x ∈ pq_elems (packets_ pipe) -> arrival p <= arrival x).
  { intros x Hx. specialize (Hmax x Hx). unfold Packet.lt in Hmax. by apply Z.ltb_ge in Hmax. }
  destruct (Z.ltb_spec now (arrival p)).
  - split; [done|]. split; [|done]. exists p. split; [|done].
    rewrite Hperm. apply list_elem_of_here.
  - exists p. cbn [packets_ fault_options_ rng_]. done.
Qed.

End Facts.

(** ** Histories of one pipe: a writer, a reader and a clock *)

Record history (Q R : Type) := {
  h_pipe : datagram_pipe Q R;
  h_clock : Z;
  h_sent : list (list byte * socket_addr);
  h_received : list (list byte * socket_addr);
}.
Arguments h_pipe {Q R} _.
Arguments h_clock {Q R} _.
Arguments h_sent {Q R} _.
Arguments h_received {Q R} _.
Arguments Build_history {Q R} _ _ _ _.

Section History.
Context {Q R : Type} `{PriorityQueueOk Q} `{BernoulliOk R} `{Build}.
Variable mx : Z.

Definition payload (p : packet) : list byte * socket_addr := (bytes p, from p).

Inductive hstep : history Q R -> history Q R -> Prop :=
| h_tick h t : h_clock h <= t ->
    hstep h (Build_history (h_pipe h) t (h_sent h) (h_received h))
| h_send h fuel data addr pipe' :
    send mx fuel (h_clock h) data addr (h_pipe h) = Ret pipe' ->
    hstep h (Build_history pipe' (h_clock h) ((data, addr) :: h_sent h) (h_received h))
| h_recv h data addr pipe' :
    recv_step (h_clock h) (h_pipe h) = Got (data, addr, pipe') ->
    hstep h (Build_history pipe' (h_clock h) (h_sent h) ((data, addr) :: h_received h)).

Definition h_init (o : net_fault_options) (rng : R) (t : Z) : history Q R :=
  Build_history (make o rng) t [] [].

Lemma latency_wf o (r : R) l r' : rng_wf r -> latency o r = Ret (l, r') -> rng_wf r'.
Proof.
  intros Hr. unfold latency, gen_range, sample_uniform_duration, sample_uniform_long. intros E.
  apply bind_Ret_inv in E as (last & _ & E). apply bind_Ret_inv in E as ([v1 r1] & E & E').
  apply bind_Ret_inv in E as ([v2 r2] & E & E''). injection E' as _ <-. injection E'' as _ <-.
  apply sample_u64_inv in E as (_ & _ & ->). by apply after_wf.
Qed.

Lemma make_replays_inv n o now p (r : R) ps r' :
  rng_wf r -> make_replays n o now p r = Ret (ps, r') ->
  length ps = n /\ Forall (fun x => payload x = payload p) ps /\ rng_wf r'.
Proof.
  intros Hr. revert r ps r' Hr. induction n as [|n IH]; intros r ps r' Hr E; cbn in E.
  { by injection E as <- <-. }
  apply bind_Ret_inv in E as ([l r1] & El & E).
  apply bind_Ret_inv in E as (l2 & _ & E). apply bind_Ret_inv in E as (a & _ & E).
  apply bind_Ret_inv in E as ([ps' r2] & Eps & E). injection E as <- <-.
  apply IH in Eps as (Hlen & Hall & Hw); [|by eapply latency_wf].
  split; [by cbn; f_equal|]. split; [by constructor|done].
Qed.

(** What a [send] that returned did to the queue. *)
Lemma send_inv fuel now data addr (pipe pipe' : datagram_pipe Q R) :
  rng_wf (rng_ pipe) -> send mx fuel now data addr pipe = Ret pipe' ->
  fault_options_ pipe' = fault_options_ pipe /\ rng_wf (rng_ pipe')
  /\ ((pending pipe' = pending pipe /\ p_drop (fault_options_ pipe) <> d0)
      \/ exists p ps, pending pipe' ≡ₚ p :: ps ++ pending pipe
           /\ Forall (fun x => payload x = (data, addr)) (p :: ps)
           /\ (p_replay (fault_options_ pipe) = d0 -> ps = [])).
Proof.
  intros Hr E. unfold send in E. apply bind_Ret_inv in E as (u & _ & E).
  destruct (should_drop (fault_options_ pipe) (rng_ pipe)) as [b r1] eqn:Ed.
  assert (Hr1 : rng_wf r1).
  { pose proof (bernoulli_wf (p_drop (fault_options_ pipe)) (rng_ pipe) Hr) as Hw.
    unfold should_drop in Ed. by rewrite Ed in Hw. }
  destruct b.
  { injection E as <-. split; [done|]. split; [done|]. left. split; [done|]. intros Hz.
    pose proof (bernoulli_zero (rng_ pipe) Hr) as Hw. rewrite <- Hz in Hw.
    unfold should_drop in Ed. by rewrite Ed in Hw. }
  apply bind_Ret_inv in E as ([l r2] & El & E). apply bind_Ret_inv in E as (a & _ & E).
  apply bind_Ret_inv in E as ([k r3] & Ek & E). apply bind_Ret_inv in E as ([ps r4] & Eps & E).
  pose proof (latency_wf _ _ _ _ Hr1 El) as Hr2.
  pose proof (replay_loop_wf _ _ _ _ _ _ Hr2 Ek) as Hr3.
  apply make_replays_inv in Eps as (Hlen & Hall & Hr4); [|done].
  injection E as <-. split; [done|]. split; [done|]. right. eexists _, ps.
  unfold pending; cbn [packets_]. split.
  { rewrite push_all, pq_elems_push. symmetry. apply Permutation_middle. }
  split; [by constructor|]. intros Hz.
  unfold replay_count in Ek. rewrite Hz in Ek. destruct fuel; [done|]. cbn [replay_loop] in Ek.
  rewrite gen_bool_zero in Ek by done. injection Ek as <- _. cbn in Hlen. by destruct ps.
Qed.

(** What survives every step: payloads are never invented, and with faults off
    none is lost or doubled. *)
Record hinv (o : net_fault_options) (h : history Q R) : Prop := {
  hinv_opt : fault_options_ (h_pipe h) = o;
  hinv_rng : rng_wf (rng_ (h_pipe h));
  hinv_sub : forall x, x ∈ h_received h ++ (payload <$> pending (h_pipe h)) -> x ∈ h_sent h;
  hinv_exact : p_drop o = d0 -> p_replay o = d0 ->
    h_received h ++ (payload <$> pending (h_pipe h)) ≡ₚ h_sent h;
}.

Lemma hinv_init o rng t : rng_wf rng -> hinv o (h_init o rng t).
Proof.
  intros Hr. split; cbn; try done; unfold pending; cbn; rewrite pq_elems_empty; cbn; done.
Qed.

Lemma payload_all (x : list byte * socket_addr) ps :
  Forall (fun p => payload p = x) ps -> payload <$> ps = replicate (length ps) x.
Proof. induction 1 as [|p ps Hp _ IH]; [done|]. cbn. by rewrite Hp, IH. Qed.

Lemma hinv_step o h h' : hinv o h -> hstep h h' -> hinv o h'.
Proof.
  intros [Ho Hr Hsub Hex] Hst. destruct Hst as [h t Ht|h fuel data addr pipe' E|h data addr pipe' E].
  - by split.
  - apply send_inv in E as (Ho' & Hr' & [[Hp Hd]|(p & ps & Hp & Hall & Hz)]); [| |done].
    + split; cbn; [congruence|done| |].
      * rewrite Hp. intros x Hx. right. by apply Hsub.
      * rewrite <- Ho. intros Hd0. done.
    + assert (Hpl : payload <$> pending pipe' ≡ₚ
        replicate (S (length ps)) (data, addr) ++ (payload <$> pending (h_pipe h))).
      { rewrite Hp. rewrite app_comm_cons, fmap_app, (payload_all (data, addr)) by done. done. }
      split; cbn [h_pipe h_sent h_received]; [congruence|done| |].
      * intros x Hx. rewrite Hpl in Hx. apply elem_of_app in Hx as [Hx|Hx].
        { right. apply Hsub, elem_of_app. by left. }
        apply elem_of_app in Hx as [Hx|Hx]; [apply elem_of_replicate in Hx as [-> _]; left|].
        right. apply Hsub, elem_of_app. by right.
      * intros Hd0 Hr0. rewrite Hz in Hpl by congruence. rewrite Hpl. cbn.
        rewrite <- Permutation_middle. by rewrite (Hex Hd0 Hr0).
  - pose proof (recv_step_cases (h_clock h) (h_pipe h)) as Hc. rewrite E in Hc.
    destruct Hc as (p & Hp & -> & -> & _ & Ho' & Hr' & _).
    assert (Hpl : (bytes p, from p) :: h_received h ++ (payload <$> pending pipe')
                  ≡ₚ h_received h ++ (payload <$> pending (h_pipe h))).
    { rewrite Hp. cbn. change (bytes p, from p) with (payload p). apply Permutation_middle. }
    split; cbn [h_pipe h_sent h_received]; [congruence|congruence| |].
    + intros x Hx. apply Hsub. rewrite <- Hpl. done.
    + intros Hd0 Hr0. cbn [app]. rewrite Hpl. by apply Hex.
Qed.

End History.

(** * Properties *)

(** [send] under a configuration whose latencies do not overflow. Either
    the packet is dropped and the queue is untouched, or, when the replay count
    comes out as [k], the call returns and queues exactly [k + 1] packets with
    the given bytes and sender: the original arriving between [min_latency] and
    [max_latency] from now, each replay within twice that window. *)
Theorem send_enqueues {Q R} `{PriorityQueueOk Q} `{BernoulliOk R} `{Build} (mx : Z) (fuel : nat) (now : Z)
  (data : list byte) (addr : socket_addr) (pipe : datagram_pipe Q R) (r1 : R)
  (Hlen : Z.of_nat (length data) < mx)
  (Hs : sane (fault_options_ pipe) now) (Hr : rng_wf (rng_ pipe)) :
  (should_drop (fault_options_ pipe) (rng_ pipe) = (true, r1) ->
     send mx fuel now data addr pipe
       = Ret (Build_datagram_pipe (packets_ pipe) (fault_options_ pipe) r1))
  /\ (forall k r2, should_drop (fault_options_ pipe) (rng_ pipe) = (false, r1) ->
       replay_count fuel (fault_options_ pipe) (after r1 1) = Ret (k, r2) ->
       exists p ps pipe', send mx fuel now data addr pipe = Ret pipe'
         /\ pending pipe' ≡ₚ p :: ps ++ pending pipe
         /\ Z.of_nat (length ps) = k
         /\ p = {| arrival := arrival p; bytes := data; consumed := 0; from := addr |}
         /\ now + min_latency (fault_options_ pipe) <= arrival p
              <= now + max_latency (fault_options_ pipe)
         /\ Forall (replay_of (fault_options_ pipe) now p) ps
         /\ fault_options_ pipe' = fault_options_ pipe /\ rng_wf (rng_ pipe')).
Proof.
  assert (Ha : assert_ (Z.of_nat (length data) <? mx) = Ret tt) by by apply assert_true, Z.ltb_lt.
  split.
  - intros Hd. by apply send_dropped.
  - intros k r2 Hd Hc. by eapply send_kept.
Qed.

Import PacketList.

Definition quiet : net_fault_options :=
  {| min_latency := 5; max_latency := 9; p_drop := d0; p_replay := d0 |}.

Definition quiet_pipe : datagram_pipe PacketList.queue Xoshiro.xoshiro256_star_star :=
  make quiet sample_seed.

(** A concrete send through the list queue and xoshiro. *)
Example send_enqueues_witness :
  exists p ps pipe',
    send (H2 := debug_build) 65407 1 100 [x01] default_addr quiet_pipe = Ret pipe'
    /\ pending pipe' ≡ₚ p :: ps ++ pending quiet_pipe
    /\ Z.of_nat (length ps) = 0
    /\ p = {| arrival := arrival p; bytes := [x01]; consumed := 0; from := default_addr |}
    /\ 100 + min_latency (fault_options_ quiet_pipe) <= arrival p
         <= 100 + max_latency (fault_options_ quiet_pipe)
    /\ Forall (replay_of (fault_options_ quiet_pipe) 100 p) ps
    /\ fault_options_ pipe' = fault_options_ quiet_pipe /\ rng_wf (rng_ pipe').
Proof.
  assert (Hw : rng_wf sample_seed) by (cbv; intuition discriminate).
  apply (proj2 (@send_enqueues PacketList.queue _ _ _ _ _ _ _ debug_build 65407 1 100 [x01] default_addr
    quiet_pipe (after sample_seed 1) ltac:(cbn; lia) ltac:(unfold sane; cbn; lia) Hw)
    0 (after sample_seed 3)); vm_compute; reflexivity.
Defined.

(** C12: [recv] always takes the packet that arrived first: what it hands out
    is due, no queued packet has an earlier arrival, and exactly that packet
    leaves the queue. It returns as soon as one of its clock readings reaches
    the earliest arrival of a non-empty queue, and not before. *)
Theorem recv_earliest {Q R} `{PriorityQueueOk Q} `{BernoulliOk R}
  (pipe : datagram_pipe Q R) (clock : list Z) (p : packet)
  (Hp : p ∈ pending pipe) (Hmin : forall x, x ∈ pending pipe -> arrival p <= arrival x) :
  ((exists t, t ∈ clock /\ arrival p <= t) ->
     exists q pipe', recv clock pipe = Ret (bytes q, from q, pipe')
       /\ arrival q = arrival p /\ pending pipe ≡ₚ q :: pending pipe')
  /\ ((forall t, t ∈ clock -> t < arrival p) -> recv clock pipe = OutOfFuel).
Proof.
  induction clock as [|now clock [IH1 IH2]].
  { split; [intros (t & Ht & _); by apply not_elem_of_nil in Ht|done]. }
  cbn [recv]. pose proof (recv_step_cases now pipe) as Hc.
  destruct (recv_step now pipe) as [|t|[[data addr] pipe']].
  - rewrite Hc in Hp. by apply not_elem_of_nil in Hp.
  - destruct Hc as (Hnow & (q & Hq & <-) & Hle). split.
    + intros (u & [->|Hu]%elem_of_cons & Hle'); [|eauto].
      specialize (Hle _ Hp). lia.
    + intros Hall. apply IH2. intros u Hu. apply Hall. by right.
  - destruct Hc as (q & Hperm & -> & -> & Hq & _ & _ & Hle).
    assert (Hqin : q ∈ pending pipe) by (rewrite Hperm; left).
    split.
    + intros _. exists q, pipe'. split; [done|]. split; [|done].
      specialize (Hle _ Hp). specialize (Hmin _ Hqin). lia.
    + intros Hall. specialize (Hall now ltac:(left)). specialize (Hmin _ Hqin). lia.
Qed.

Definition late : packet := {| arrival := 30; bytes := [x02]; consumed := 0; from := default_addr |}.
Definition early : packet := {| arrival := 20; bytes := [x01]; consumed := 0; from := default_addr |}.

Definition two_queued : datagram_pipe PacketList.queue Xoshiro.xoshiro256_star_star :=
  Build_datagram_pipe (pq_push late (pq_push early pq_empty)) quiet sample_seed.

Example recv_earliest_witness :
  exists q pipe', recv [10; 25] two_queued = Ret (bytes q, from q, pipe')
    /\ arrival q = 20 /\ pending two_queued ≡ₚ q :: pending pipe'.
Proof.
  assert (Hp : pending two_queued = [early; late]) by reflexivity.
  apply (proj1 (recv_earliest two_queued [10; 25] early
    ltac:(rewrite Hp; left)
    ltac:(intros x Hx; rewrite Hp in Hx;
          apply elem_of_cons in Hx as [->|[->|Hx]%elem_of_cons];
          [cbn; lia|cbn; lia|by apply not_elem_of_nil in Hx]))).
  exists 25. split; [right; left|cbn; lia].
Defined.

(** C11: in every history of sends, receives and clock advances, whatever the
    queue's tie-breaking: nothing is received (or still queued) that was not
    sent, and with drop and replay probability zero the received datagrams and
    the queued ones are together exactly the sent ones, each once. *)
Theorem pipe_history_faithful {Q R} `{PriorityQueueOk Q} `{BernoulliOk R} `{Build} (mx : Z)
  (o : net_fault_options) (rng : R) (t : Z) (h : history Q R)
  (Hr : rng_wf rng) (Hh : rtc (hstep mx) (h_init o rng t) h) :
  (forall x, x ∈ h_received h ++ (payload <$> pending (h_pipe h)) -> x ∈ h_sent h)
  /\ (p_drop o = d0 -> p_replay o = d0 ->
        h_received h ++ (payload <$> pending (h_pipe h)) ≡ₚ h_sent h).
Proof.
  assert (Hi : hinv o h).
  { pose proof (hinv_init (Q := Q) o rng t Hr) as Hi. revert Hi.
    induction Hh as [|h1 h2 h3 Hst _ IH]; [done|]. intros Hi. eapply IH, hinv_step; done. }
  split; apply Hi.
Qed.

(** A datagram and a second one are sent, the clock moves past both arrivals,
    the first one is received. *)
Definition sent_on (data : list byte) (pipe : datagram_pipe PacketList.queue Xoshiro.xoshiro256_star_star) :=
  match send (H2 := debug_build) 65507 8 0 data default_addr pipe with Ret p => p | _ => pipe end.
Definition both_sent : datagram_pipe PacketList.queue Xoshiro.xoshiro256_star_star :=
  sent_on [x62] (sent_on [x61] (make quiet sample_seed)).
Definition taken (pipe : datagram_pipe PacketList.queue Xoshiro.xoshiro256_star_star) :=
  match recv_step 50 pipe with Got (_, _, p) => p | _ => pipe end.
Definition one_received : history PacketList.queue Xoshiro.xoshiro256_star_star :=
  Build_history (taken both_sent) 50 [([x62], default_addr); ([x61], default_addr)] [([x61], default_addr)].

Lemma one_received_run : rtc (hstep (H5 := debug_build) 65507) (h_init quiet sample_seed 0) one_received.
Proof.
  eapply rtc_l.
  { exact (h_send (H5 := debug_build) 65507 (h_init quiet sample_seed 0) 8 [x61] default_addr
      (sent_on [x61] (make quiet sample_seed)) eq_refl). }
  eapply rtc_l.
  { exact (h_send (H5 := debug_build) 65507
      (Build_history (sent_on [x61] (make quiet sample_seed)) 0 [([x61], default_addr)] [])
      8 [x62] default_addr both_sent eq_refl). }
  eapply rtc_l; [exact (h_tick (H5 := debug_build) 65507
      (Build_history both_sent 0 [([x62], default_addr); ([x61], default_addr)] []) 50 ltac:(discriminate))|].
  apply rtc_once.
  exact (h_recv (H5 := debug_build) 65507
    (Build_history both_sent 50 [([x62], default_addr); ([x61], default_addr)] []) [x61] default_addr
    (taken both_sent) eq_refl).
Qed.

Example pipe_history_faithful_witness :
  [([x61], default_addr)] ++ (payload <$> pending (taken both_sent))
    ≡ₚ [([x62], default_addr); ([x61], default_addr)].
Proof.
  assert (Hw : rng_wf sample_seed) by (cbv; intuition discriminate).
  exact (proj2 (@pipe_history_faithful PacketList.queue _ _ _ _ _ _ _ debug_build 65507 quiet sample_seed 0
    one_received Hw one_received_run) eq_refl eq_refl).
Defined.

