(* ===== verification/Monitor.v ===== *)
(** * The pipe as a monitor: src/net/datagram_socket.cpp

    [send] and [recv] of [datagram_pipe] meet at a mutex and a condition
    variable.  The steps are what happens between two releases of the mutex:
    a receiver looks at the queue and takes a packet or goes to sleep, the
    writer (one at a time, [deliver] holds the socket's mutex) pushes and
    notifies one sleeper.  Any number of receivers, spurious wake-ups, and a
    clock that moves on its own. *)

From Stdlib Require Import SpecFloat Strings.Byte.
From S2P Require Import Prelude Words Float Random Faults Socket Pipe.

(** A thread that calls [recv]: not in it, about to look at the queue, in
    [cond_.wait] or in [cond_.wait_until]. *)
Inductive receiver := Idle | Ready | Asleep (deadline : option Z).

#[export] Instance receiver_eq_dec : EqDecision receiver.
Proof. solve_decision. Defined.

Definition asleep (r : receiver) : bool := match r with Asleep _ => true | _ => false end.

(** Who moves. *)
Inductive actor := Caller | Receiver | Writer | Chance | Time.

Record monitor (Q R : Type) := {
  m_pipe : datagram_pipe Q R;
  m_clock : Z;
  m_threads : list receiver;
  m_got : list (list byte * socket_addr);
}.
Arguments m_pipe {Q R} _.
Arguments m_clock {Q R} _.
Arguments m_threads {Q R} _.
Arguments m_got {Q R} _.
Arguments Build_monitor {Q R} _ _ _ _.

(** [notify_one]: one sleeper, if there is any. *)
Definition notified (ts ts' : list receiver) : Prop :=
  (exists i d, ts !! i = Some (Asleep d) /\ ts' = <[i := Ready]> ts)
  \/ (forall i r, ts !! i = Some r -> asleep r = false) /\ ts' = ts.

Section Steps.
Context {Q R : Type} `{PriorityQueue Q} `{Rng R} `{Bernoulli R} `{Build}.
Variable mx : Z.
Implicit Types s : monitor Q R.

Definition set_thread (i : nat) (r : receiver) s : monitor Q R :=
  Build_monitor (m_pipe s) (m_clock s) (<[i := r]> (m_threads s)) (m_got s).

Inductive mstep : actor -> monitor Q R -> monitor Q R -> Prop :=
| MCall s i :
    m_threads s !! i = Some Idle -> mstep Caller s (set_thread i Ready s)
| MWait s i :
    m_threads s !! i = Some Ready -> recv_step (m_clock s) (m_pipe s) = Wait ->
    mstep Receiver s (set_thread i (Asleep None) s)
| MWaitUntil s i t :
    m_threads s !! i = Some Ready -> recv_step (m_clock s) (m_pipe s) = WaitUntil t ->
    mstep Receiver s (set_thread i (Asleep (Some t)) s)
| MGet s i data addr pipe' :
    m_threads s !! i = Some Ready -> recv_step (m_clock s) (m_pipe s) = Got (data, addr, pipe') ->
    mstep Receiver s (Build_monitor pipe' (m_clock s) (<[i := Idle]> (m_threads s)) ((data, addr) :: m_got s))
| MTimeout s i t :
    m_threads s !! i = Some (Asleep (Some t)) -> t <= m_clock s ->
    mstep Receiver s (set_thread i Ready s)
| MSend s fuel now data addr pipe' ts :           (* [now] was read before the mutex was taken *)
    now <= m_clock s -> send mx fuel now data addr (m_pipe s) = Ret pipe' ->
    (if (should_drop (fault_options_ (m_pipe s)) (rng_ (m_pipe s))).1 then ts = m_threads s
     else notified (m_threads s) ts) ->
    mstep Writer s (Build_monitor pipe' (m_clock s) ts (m_got s))
| MSpurious s i d :
    m_threads s !! i = Some (Asleep d) -> mstep Chance s (set_thread i Ready s)
| MTick s t :
    m_clock s <= t -> mstep Time s (Build_monitor (m_pipe s) t (m_threads s) (m_got s)).

Definition any_step s s' : Prop := exists a, mstep a s s'.

Definition m_init (o : net_fault_options) (rng : R) (t : Z) (n : nat) : monitor Q R :=
  Build_monitor (make o rng) t (replicate n Idle) [].

End Steps.

(** ** Lemmas *)

Section Facts.
Context {Q R : Type} `{PriorityQueueOk Q} `{BernoulliOk R} `{Build}.
Variable mx : Z.
Implicit Types s : monitor Q R.

(** A sleeper has nothing to take: the queue is empty, or the deadline is its
    earliest arrival. *)
Definition settled (pipe : datagram_pipe Q R) (r : receiver) : Prop :=
  match r with
  | Idle | Ready => True
  | Asleep None => pending pipe = []
  | Asleep (Some t) =>
      (exists p, p ∈ pending pipe /\ arrival p = t) /\ forall x, x ∈ pending pipe -> t <= arrival x
  end.

Definition alone s : Prop := exists r, m_threads s = [r] /\ settled (m_pipe s) r.

Lemma send_drops fuel now data addr (pipe pipe' : datagram_pipe Q R) :
  (should_drop (fault_options_ pipe) (rng_ pipe)).1 = true ->
  send mx fuel now data addr pipe = Ret pipe' -> pending pipe' = pending pipe.
Proof.
  intros Hd E. unfold send in E. apply bind_Ret_inv in E as (u & _ & E).
  destruct (should_drop _ _) as [b r1]. cbn in Hd. subst b. by injection E as <-.
Qed.

Lemma one_thread {A} (l : list A) (a b : A) i : l = [a] -> l !! i = Some b -> i = 0%nat /\ a = b.
Proof. intros -> Hi. destruct i as [|i]; [|done]. by injection Hi as ->. Qed.

Lemma alone_step a s s' : alone s -> mstep mx a s s' -> alone s'.
Proof.
  intros (r & Ht & Hs) Hst.
  destruct Hst as [s i Hi|s i Hi Hr|s i t Hi Hr|s i data addr pipe' Hi Hr|s i t Hi Hle
    |s fuel now data addr pipe' ts Hn He Hw|s i d Hi|s t Hle];
    try (destruct (one_thread _ _ _ _ Ht Hi) as [-> ->]; unfold alone; cbn [m_threads set_thread]; rewrite Ht;
         cbn; eexists; split; [done|]); try done.
  - pose proof (recv_step_cases (m_clock s) (m_pipe s)) as Hc. by rewrite Hr in Hc.
  - pose proof (recv_step_cases (m_clock s) (m_pipe s)) as Hc. rewrite Hr in Hc. apply Hc.
  - unfold alone. cbn [m_threads m_pipe]. destruct (should_drop _ _).1 eqn:Ed.
    + subst ts. exists r. split; [done|]. unfold settled.
      by rewrite (send_drops _ _ _ _ _ _ Ed He).
    + destruct Hw as [(i & d & Hi & ->)|[Hno ->]].
      * destruct (one_thread _ _ _ _ Ht Hi) as [-> _]. rewrite Ht. by exists Ready.
      * exists r. split; [done|]. specialize (Hno 0%nat r). rewrite Ht in Hno. specialize (Hno eq_refl).
        by destruct r.
  - by exists r.
Qed.

Lemma alone_reachable o rng t s : rtc (any_step mx) (m_init o rng t 1) s -> alone s.
Proof.
  assert (Hi : alone (m_init (Q := Q) o rng t 1)) by by exists Idle.
  revert Hi. generalize (m_init (Q := Q) o rng t 1). intros s0 Hi Hr.
  induction Hr as [|s1 s2 s3 (a & Hs) _ IH]; [done|]. by eapply IH, alone_step.
Qed.

(** A ready receiver takes a packet that has arrived. *)
Lemma ready_takes s i p : m_threads s !! i = Some Ready -> p ∈ pending (m_pipe s) -> arrival p <= m_clock s ->
  exists q s', mstep mx Receiver s s' /\ m_got s' = (bytes q, from q) :: m_got s
    /\ pending (m_pipe s) ≡ₚ q :: pending (m_pipe s') /\ arrival q <= arrival p.
Proof.
  intros Hi Hp Hle. pose proof (recv_step_cases (m_clock s) (m_pipe s)) as Hc.
  destruct (recv_step (m_clock s) (m_pipe s)) as [|t|[[data addr] pipe']] eqn:E.
  - rewrite Hc in Hp. by apply not_elem_of_nil in Hp.
  - destruct Hc as (Ht & _ & Hmin). specialize (Hmin p Hp). lia.
  - destruct Hc as (q & Hq & -> & -> & _ & _ & _ & Hmin).
    exists q. eexists. split; [by eapply MGet|]. split; [done|]. split; [exact Hq|by apply Hmin].
Qed.

(** Nobody who is inside [recv] can move on his own. *)
Lemma stuck s s' : m_threads s = [Idle; Asleep None] -> ~ mstep mx Receiver s s'.
Proof.
  intros Ht Hst. inversion Hst; subst;
    match goal with Hi : m_threads _ !! ?i = Some _ |- _ => rewrite Ht in Hi; by destruct i as [|[|]] end.
Qed.

End Facts.

(** * Properties *)

(** C13: no wake-up is lost while a socket has one reader, which is how the
    workers use it. Whatever the writers, the clock and spurious wake-ups do,
    a reader that sleeps without a deadline has an empty queue, one that sleeps
    until [t] has nothing that arrives before [t], and as soon as a packet has
    arrived the reader gets an earliest one by its own steps. *)
Theorem no_lost_wakeup {Q R} `{PriorityQueueOk Q} `{BernoulliOk R} `{Build} (mx : Z) (o : net_fault_options)
    (rng : R) (t : Z) (s : monitor Q R) (r : receiver) :
  rtc (any_step mx) (m_init o rng t 1) s -> m_threads s = [r] ->
  (r = Asleep None -> pending (m_pipe s) = [])
  /\ (forall d x, r = Asleep (Some d) -> x ∈ pending (m_pipe s) -> d <= arrival x)
  /\ (forall p, p ∈ pending (m_pipe s) -> arrival p <= m_clock s -> r <> Idle ->
      exists q s', rtc (mstep mx Receiver) s s' /\ m_got s' = (bytes q, from q) :: m_got s
        /\ pending (m_pipe s) ≡ₚ q :: pending (m_pipe s') /\ arrival q <= arrival p).
Proof.
  intros Hr Ht. destruct (alone_reachable mx o rng t s Hr) as (r' & Ht' & Hs).
  assert (r' = r) as -> by congruence. split; [intros ->; exact Hs|]. split; [intros d x -> Hx; by apply Hs|].
  intros p Hp Hle Hid. destruct r as [| |[d|]]; [done| | |].
  - destruct (ready_takes mx s 0 p) as (q & s' & Hst & Hg); [by rewrite Ht|done..|].
    exists q, s'. split; [by apply rtc_once|exact Hg].
  - assert (Hd : d <= m_clock s) by (pose proof (proj2 Hs p Hp); lia).
    assert (Hz : m_threads s !! 0%nat = Some (Asleep (Some d))) by by rewrite Ht.
    destruct (ready_takes mx (set_thread 0 Ready s) 0 p) as (q & s' & Hst & Hg);
      [cbn; by rewrite Ht|done..|].
    exists q, s'. split; [|exact Hg]. eapply rtc_l; [by apply (MTimeout mx s 0 d)|by apply rtc_once].
  - cbn in Hs. rewrite Hs in Hp. by apply not_elem_of_nil in Hp.
Qed.

(** ** Runs of the list queue with xoshiro *)

Import PacketList.
Abbreviation demo := (monitor PacketList.queue Xoshiro.xoshiro256_star_star).

(** [n] readers, all asleep on the empty queue. *)
Definition sleepers (n : nat) : demo :=
  Build_monitor (make replay_30_percent sample_seed) 0 (replicate n (Asleep None)) [].
(** A packet and its replays are pushed. *)
Definition pushed `{Build} : datagram_pipe PacketList.queue Xoshiro.xoshiro256_star_star :=
  match send 65507 16 0 [x61] default_addr (make replay_30_percent sample_seed) with
  | Ret p => p
  | _ => make replay_30_percent sample_seed
  end.
(** The first reader has been woken. *)
Definition woken `{Build} (n : nat) : demo :=
  Build_monitor pushed 0 (Ready :: replicate n (Asleep None)) [].
(** It has taken a packet. *)
Definition rest `{Build} : datagram_pipe PacketList.queue Xoshiro.xoshiro256_star_star :=
  match recv_step 0 pushed with Got (_, _, p) => p | _ => pushed end.
Definition taken `{Build} (n : nat) : demo :=
  Build_monitor rest 0 (Idle :: replicate n (Asleep None)) [([x61], default_addr)].

Lemma first_taken : let b := debug_build in recv_step 0 pushed = Got ([x61], default_addr, rest).
Proof. vm_compute. reflexivity. Qed.

Lemma sleepers_reachable `{Build} n : (n <= 2)%nat ->
  rtc (any_step 65507) (m_init replay_30_percent sample_seed 0 n) (sleepers n).
Proof.
  intros Hn. unfold m_init, sleepers. destruct n as [|[|[|n]]]; [apply rtc_refl| | |lia].
  - eapply rtc_l; [exists Caller; by apply (MCall _ _ 0)|].
    eapply rtc_l; [exists Receiver; by apply (MWait _ _ 0)|]. apply rtc_refl.
  - eapply rtc_l; [exists Caller; by apply (MCall _ _ 0)|].
    eapply rtc_l; [exists Caller; by apply (MCall _ _ 1)|].
    eapply rtc_l; [exists Receiver; by apply (MWait _ _ 0)|].
    eapply rtc_l; [exists Receiver; by apply (MWait _ _ 1)|]. apply rtc_refl.
Qed.

Lemma woken_reachable n : (n <= 1)%nat ->
  let b := debug_build in rtc (any_step 65507) (m_init replay_30_percent sample_seed 0 (S n)) (woken n).
Proof.
  intros Hn b. eapply rtc_r; [apply sleepers_reachable; lia|]. exists Writer.
  refine (MSend 65507 (sleepers (S n)) 16 0 [x61] default_addr pushed _ _ _ _); [done|vm_compute; reflexivity|].
  left. by exists 0%nat, None.
Qed.

Example no_lost_wakeup_witness :
  let b := debug_build in
  exists q s', rtc (mstep 65507 Receiver) (woken 0) s' /\ m_got s' = [(bytes q, from q)].
Proof.
  intros b.
  destruct (proj2 (proj2 (no_lost_wakeup 65507 replay_30_percent sample_seed 0 (woken 0) Ready
    (woken_reachable 0 ltac:(lia)) eq_refl)) (default late (head (elems (packets_ pushed)))))
    as (q & s' & Hst & Hg & _).
  - vm_compute. left.
  - vm_compute. discriminate.
  - discriminate.
  - by exists q, s'.
Defined.

(** With two readers of one socket the replays of a datagram are not announced:
    [notify_one] wakes one of them, which takes one packet, while the other
    sleeps on, although a packet has arrived and only a spurious wake-up or
    another datagram will tell it. *)
Theorem two_readers_miss_replays :
  let b := debug_build in
  exists s : demo, rtc (any_step 65507) (m_init replay_30_percent sample_seed 0 2) s
    /\ m_threads s = [Idle; Asleep None]
    /\ (exists p, p ∈ pending (m_pipe s) /\ arrival p <= m_clock s)
    /\ forall s', ~ mstep 65507 Receiver s s'.
Proof.
  intros b. exists (taken 1). split; [|split; [|split]].
  - eapply rtc_r; [apply (woken_reachable 1); lia|]. exists Receiver.
    exact (MGet 65507 (woken 1) 0 [x61] default_addr rest eq_refl first_taken).
  - reflexivity.
  - exists (default late (head (elems (packets_ rest)))).
    split; [vm_compute; left|vm_compute; discriminate].
  - intros s'. by apply stuck.
Qed.
