(* ===== verification/Stream.v ===== *)
(** * Stream sockets: src/net/stream_socket.hpp, stream_socket.cpp

    A stream socket is a byte queue filled by its peer.  The peer is a weak
    pointer; [send] works on the peer object it resolves to.  The callbacks
    are functions on a state [T]: a reader fills the span it is given, a
    writer consumes it. *)

From Stdlib Require Import Strings.Byte.
From S2P Require Import Prelude Words Socket Network.

Record stream_socket := {
  s_base : socket;
  peer_ : Network.weak_ptr;
  buffer_ : list byte;       (* front of the queue first *)
  listening_ : bool;
}.

Definition make_stream (af : address_family) : stream_socket :=
  {| s_base := {| af_ := af; type_ := stream |}; peer_ := None; buffer_ := []; listening_ := false |}.
Definition make_stream_peer (af : address_family) (peer : obj_id) : stream_socket :=
  {| s_base := {| af_ := af; type_ := stream |}; peer_ := Some peer; buffer_ := []; listening_ := false |}.

Definition listening (s : stream_socket) : bool := listening_ s.

Definition set_buffer (s : stream_socket) (b : list byte) : stream_socket :=
  {| s_base := s_base s; peer_ := peer_ s; buffer_ := b; listening_ := listening_ s |}.
Definition set_peer (s : stream_socket) (p : Network.weak_ptr) : stream_socket :=
  {| s_base := s_base s; peer_ := p; buffer_ := buffer_ s; listening_ := listening_ s |}.

(** [std::vector<std::byte> buf{bytes, std::byte{}}]; [alloc] tells how many
    bytes can be had. *)
Definition make_buffer (alloc : Z -> bool) (bytes : Z) : outcome (list byte) :=
  if 2 ^ 63 - 1 <? bytes then Throw length_error
  else if alloc bytes then Ret (replicate (Z.to_nat bytes) x00) else Throw bad_alloc.

Section Callbacks.
Context {T : Type}.
Definition read_callback := list byte -> T -> Z * list byte * T.
Definition write_callback := list byte -> T -> Z * T.

(** One pass of [recv]'s loop; [None] when it waits on the condition. *)
Definition stream_recv_step (write_data : write_callback) (bytes : Z) (s : stream_socket) (st : T)
  : option (Z * stream_socket * T) :=
  match buffer_ s with
  | [] => None
  | _ =>
      let n := Z.min bytes (Z.of_nat (length (buffer_ s))) in
      let tmp := take (Z.to_nat n) (buffer_ s) in
      let s := set_buffer s (drop (Z.to_nat n) (buffer_ s)) in
      let '(res, st) := write_data tmp st in
      Some (if res <? 0 then res else n, s, st)
  end.

(** [send] on a resolved peer ([peer_.lock()]); a null peer is dereferenced. *)
Definition stream_send (alloc : Z -> bool) (read_data : read_callback) (bytes : Z) (peer : option stream_socket) (st : T)
  : outcome (Z * stream_socket * T) :=
  match peer with
  | None => Undefined
  | Some peer =>
      buf ← make_buffer alloc bytes;
      let '(res, buf, st) := read_data buf st in
      if res <? 0 then Ret (res, peer, st)
      else Ret (res, set_buffer peer (buffer_ peer ++ buf), st)
  end.

End Callbacks.
Arguments read_callback T : clear implicits.
Arguments write_callback T : clear implicits.

(** [connect(other)], [id] naming [other]. *)
Definition connect (s : stream_socket) (id : obj_id) (other : stream_socket) : Z * stream_socket :=
  if listening_ s then (- EOPNOTSUPP, s)
  else if bool_decide (get_af (s_base s) <> get_af (s_base other)) then (- EAFNOSUPPORT, s)
  else (0, set_peer s (Some id)).

(** ** A byte-stream specification

    What the pair of operations promises: bytes come out in the order they
    went in, each once. *)

Section Facts.
Context {T : Type}.

Lemma stream_send_eq alloc (rd : read_callback T) bytes peer st res buf st' :
  bytes < 2 ^ 63 -> alloc bytes = true ->
  rd (replicate (Z.to_nat bytes) x00) st = (res, buf, st') ->
  stream_send alloc rd bytes (Some peer) st
  = Ret (res, if res <? 0 then peer else set_buffer peer (buffer_ peer ++ buf), st').
Proof.
  intros Hb Ha E. unfold stream_send, make_buffer. rewrite (proj2 (Z.ltb_ge _ _)), Ha by lia.
  cbn [mbind outcome_bind]. rewrite E. by destruct (res <? 0).
Qed.

Lemma stream_recv_ok (wr : write_callback T) bytes s st :
  buffer_ s <> [] -> 0 <= bytes ->
  exists r st', stream_recv_step wr bytes s st
    = Some (r, set_buffer s (drop (Z.to_nat bytes) (buffer_ s)), st')
    /\ wr (take (Z.to_nat bytes) (buffer_ s)) st
       = ((wr (take (Z.to_nat bytes) (buffer_ s)) st).1, st')
    /\ r = (let res := (wr (take (Z.to_nat bytes) (buffer_ s)) st).1 in
            if res <? 0 then res else Z.min bytes (Z.of_nat (length (buffer_ s)))).
Proof.
  intros Hne Hb. unfold stream_recv_step.
  assert (Ht : take (Z.to_nat (Z.min bytes (Z.of_nat (length (buffer_ s))))) (buffer_ s)
    = take (Z.to_nat bytes) (buffer_ s)).
  { destruct (Z.le_ge_cases bytes (Z.of_nat (length (buffer_ s)))).
    - by rewrite Z.min_l.
    - rewrite Z.min_r by lia. rewrite !take_ge by lia. done. }
  assert (Hd : drop (Z.to_nat (Z.min bytes (Z.of_nat (length (buffer_ s))))) (buffer_ s)
    = drop (Z.to_nat bytes) (buffer_ s)).
  { destruct (Z.le_ge_cases bytes (Z.of_nat (length (buffer_ s)))).
    - by rewrite Z.min_l.
    - rewrite Z.min_r by lia. rewrite !drop_ge by lia. done. }
  rewrite Ht, Hd. destruct (wr (take (Z.to_nat bytes) (buffer_ s)) st) as [res st'] eqn:E.
  destruct (buffer_ s) as [|b bs]; [done|]. by eexists _, st'.
Qed.

End Facts.

(** ** Runs of a stream *)

(** What the reader supplied and what the writer was handed so far. *)
Definition log : Type := list byte * list byte.
Definition stream_run : Type := stream_socket * log.

(** A reader that succeeds logs the bytes it put into the span; one that fails
    logs nothing. A writer logs what it is handed, whether it fails or not. *)
Definition logs_reads (rd : read_callback log) : Prop := forall tmp st, exists buf,
  (rd tmp st).1.2 = buf /\ (rd tmp st).2 = if (rd tmp st).1.1 <? 0 then st else (st.1 ++ buf, st.2).
Definition logs_writes (wr : write_callback log) : Prop := forall tmp st,
  (wr tmp st).2 = (st.1, st.2 ++ tmp).

Inductive stream_step (alloc : Z -> bool) : stream_run -> stream_run -> Prop :=
| StepSend s st rd n res s' st' :
    logs_reads rd -> stream_send alloc rd n (Some s) st = Ret (res, s', st') ->
    stream_step alloc (s, st) (s', st')
| StepRecv s st wr n res s' st' :
    logs_writes wr -> 0 <= n -> stream_recv_step wr n s st = Some (res, s', st') ->
    stream_step alloc (s, st) (s', st').

Definition in_order (h : stream_run) : Prop := h.2.2 ++ buffer_ h.1 = h.2.1.

Lemma in_order_step alloc h h' : in_order h -> stream_step alloc h h' -> in_order h'.
Proof.
  intros Hi Hst. destruct Hst as [s st rd n res s' st' Hrd E|s st wr n res s' st' Hwr Hn E]; unfold in_order in *; cbn [fst snd] in *.
  - unfold stream_send in E. apply bind_Ret_inv in E as (tmp & _ & E).
    destruct (Hrd tmp st) as (buf & Hb & Hst). destruct (rd tmp st) as [[r b] st2]. cbn [fst snd] in *. subst b.
    revert E Hst. destruct (r <? 0); intros E ->; injection E as _ <- <-; [exact Hi|].
    cbn [fst snd buffer_ set_buffer]. by rewrite app_assoc, Hi.
  - destruct (decide (buffer_ s = [])) as [Hz|Hne]; [unfold stream_recv_step in E; by rewrite Hz in E|].
    destruct (stream_recv_ok wr n s st Hne Hn) as (r & st2 & E2 & Hw & _).
    rewrite E in E2. injection E2 as _ -> ->. specialize (Hwr (take (Z.to_nat n) (buffer_ s)) st).
    rewrite Hw in Hwr. cbn [snd] in Hwr. subst st2. cbn [fst snd buffer_ set_buffer].
    by rewrite <- app_assoc, take_drop.
Qed.

(** * Properties *)

(** C24: a stream keeps the byte order. The reader and the writer log the bytes
    they moved, whatever their results. After any sequence of sends to a fresh
    socket and receives from it, of any sizes, the bytes handed to the writer
    followed by the bytes still buffered are exactly the bytes the reader
    supplied, each once and in order: none is lost to a short receive, and a
    failed send adds nothing. *)
Theorem stream_in_order (alloc : Z -> bool) (af : address_family) (h : stream_run) :
  rtc (stream_step alloc) (make_stream af, ([], [])) h ->
  h.2.2 ++ buffer_ h.1 = h.2.1.
Proof.
  intros Hr. assert (Hi : in_order (make_stream af, ([], []))) by done.
  revert Hi. induction Hr as [|h1 h2 h3 Hs _ IH]; [done|]. intros Hi. by eapply IH, in_order_step.
Qed.

Definition sample_reader (data : list byte) : read_callback log :=
  fun _ st => (0, data, (st.1 ++ data, st.2)).
Definition sample_writer : write_callback log := fun tmp st => (0, (st.1, st.2 ++ tmp)).

(** Three bytes are sent, two received. *)
Example stream_in_order_witness :
  exists s, rtc (stream_step (fun _ => true)) (make_stream ipv4, ([], [])) (s, ([x61; x62; x63], [x61; x62]))
    /\ [x61; x62] ++ buffer_ s = [x61; x62; x63].
Proof.
  exists (set_buffer (make_stream ipv4) [x63]).
  assert (Hr : rtc (stream_step (fun _ => true)) (make_stream ipv4, ([], []))
    (set_buffer (make_stream ipv4) [x63], ([x61; x62; x63], [x61; x62]))).
  { eapply rtc_l; [|eapply rtc_l; [|apply rtc_refl]].
    - refine (StepSend (fun _ => true) (make_stream ipv4) ([], []) (sample_reader [x61; x62; x63]) 3 0 _ _ _ _);
        [|reflexivity]. intros tmp st. by exists [x61; x62; x63].
    - refine (StepRecv (fun _ => true) (set_buffer (make_stream ipv4) [x61; x62; x63]) ([x61; x62; x63], [])
        sample_writer 2 2 _ _ _ _ _); [|done|reflexivity]. done. }
  split; [exact Hr|]. exact (stream_in_order (fun _ => true) ipv4 _ Hr).
Defined.

(** One send and one receive in detail. Sending appends the bytes the reader
    supplied behind what is buffered; receiving [n] bytes hands the first [n]
    buffered bytes to the writer and removes exactly those, answering how many
    there were, or the writer's error, in which case those bytes are lost; an
    empty buffer waits. A send without a live peer dereferences null, and a
    failed read changes nothing. The value [send] returns is the reader's
    result, not the number of bytes queued. *)
Theorem stream_fifo {T} (alloc : Z -> bool) (rd : read_callback T) (wr : write_callback T)
  (s : stream_socket) (n m res : Z) (buf : list byte) (st st' : T)
  (Hrd : rd (replicate (Z.to_nat n) x00) st = (res, buf, st'))
  (Hn : n < 2 ^ 63) (Ha : alloc n = true) (Hbuf : buf <> []) (Hm : 0 <= m) :
  (0 <= res -> exists s1 r s2 st2,
     stream_send alloc rd n (Some s) st = Ret (res, s1, st')
     /\ buffer_ s1 = buffer_ s ++ buf
     /\ stream_recv_step wr m s1 st' = Some (r, s2, st2)
     /\ take (Z.to_nat m) (buffer_ s ++ buf) ++ buffer_ s2 = buffer_ s ++ buf
     /\ (wr (take (Z.to_nat m) (buffer_ s ++ buf)) st').2 = st2
     /\ r = (let w := (wr (take (Z.to_nat m) (buffer_ s ++ buf)) st').1 in
             if w <? 0 then w else Z.min m (Z.of_nat (length (buffer_ s ++ buf)))))
  /\ (res < 0 -> stream_send alloc rd n (Some s) st = Ret (res, s, st'))
  /\ stream_send alloc rd n None st = Undefined
  /\ stream_recv_step wr m (set_buffer s []) st = None.
Proof.
  split; [|split; [|done]].
  - intros Hr. exists (set_buffer s (buffer_ s ++ buf)).
    assert (Hne : buffer_ s ++ buf <> []) by (by intros [_ ?]%app_eq_nil).
    destruct (stream_recv_ok wr m (set_buffer s (buffer_ s ++ buf)) st' Hne Hm)
      as (r & st2 & E & Hw & Hres).
    eexists r, _, st2.
    split; [by rewrite (stream_send_eq alloc rd n s st res buf st'), (proj2 (Z.ltb_ge res 0))|]. split; [done|].
    split; [exact E|]. cbn [buffer_ set_buffer] in *. split; [apply take_drop|].
    split; [by rewrite Hw|exact Hres].
  - intros Hr. by rewrite (stream_send_eq alloc rd n s st res buf st'), (proj2 (Z.ltb_lt res 0)).
Qed.

(** A reader that stores two bytes and answers 0, as the runner's
    [read_memory] does. *)
Example stream_fifo_witness :
  let rd : read_callback unit := fun tmp st => (0, [x61; x62], st) in
  let wr : write_callback unit := fun tmp st => (0, st) in
  exists s1 r s2 st2,
     stream_send (fun _ => true) rd 2 (Some (make_stream ipv4)) tt = Ret (0, s1, tt)
     /\ buffer_ s1 = [x61; x62]
     /\ stream_recv_step wr 1 s1 tt = Some (r, s2, st2)
     /\ [x61] ++ buffer_ s2 = [x61; x62]
     /\ tt = st2
     /\ r = 1.
Proof.
  intros rd wr.
  exact (proj1 (stream_fifo (fun _ => true) rd wr (make_stream ipv4) 2 1 0 [x61; x62] tt tt eq_refl
    ltac:(reflexivity) eq_refl ltac:(discriminate) ltac:(lia)) ltac:(lia)).
Defined.
