(* ===== verification/Disk.v ===== *)
(** * Simulated disk: src/disk/disk.hpp, disk.cpp

    A [disk_file] is a growable byte array shared (by [shared_ptr]) between
    any number of [open_file] handles; the store maps file ids to contents, so
    aliasing handles name the same id.  A handle either writes through
    ([direct_]) or keeps a backlog that [fsync] and reads flush.  The largest
    vector the allocator can provide is the parameter [max_size]. *)

From Stdlib Require Import Strings.Byte.
From S2P Require Import Prelude Words.

Definition max_file_size : Z := 2 ^ 63 - 1.

Abbreviation file_id := positive.
Definition disk_file := list byte.

Record write_req := { req_bytes : list byte; req_pos : Z }.

Record open_file := {
  write_backlog_ : list write_req;
  disk_ : option file_id;      (* the shared_ptr; None is null *)
  pos_ : Z;
  direct_ : bool;
}.

Inductive whence := SEEK_SET | SEEK_CUR | SEEK_END | SEEK_OTHER.

Abbreviation store := (gmap file_id disk_file).

Definition size (f : list byte) : Z := Z.of_nat (length f).

(** [vector::resize]: zero-fills on growth. *)
Definition resize (n : Z) (f : list byte) : list byte :=
  take (Z.to_nat n) f ++ replicate (Z.to_nat n - length f) x00.

(** [std::copy] of [buf] over the bytes from [pos] on. *)
Definition overwrite (pos : Z) (buf f : list byte) : list byte :=
  take (Z.to_nat pos) f ++ buf ++ drop (Z.to_nat pos + length buf) f.

Section Ops.
Variable max_size : Z.

(** ** [disk_file] *)

Definition disk_write (pos : Z) (buf : list byte) (f : disk_file) : outcome (Z * disk_file) :=
  if (pos <? 0) || (max_file_size <=? pos) then Ret (- EINVAL, f)
  else
    f ← (if size f <? u64 (pos + size buf) then
           let newSize := u64 (pos + size buf) in
           if max_size <? newSize then Throw length_error else Ret (resize newSize f)
         else Ret f);
    Ret (size buf, overwrite pos buf f).

(** Reads into a span of [n] bytes; yields the bytes copied to its front. *)
Definition disk_read (pos n : Z) (f : disk_file) : Z * list byte :=
  if (pos <? 0) || (size f <=? pos) then (- EINVAL, [])
  else
    let num := Z.min n (size f - pos) in
    (num, take (Z.to_nat num) (drop (Z.to_nat pos) f)).

Definition get_size (f : disk_file) : Z := size f.

(** ** [open_file] *)

Definition state := (open_file * store)%type.

Definition with_pos (o : open_file) (p : Z) : open_file :=
  {| write_backlog_ := write_backlog_ o; disk_ := disk_ o; pos_ := p; direct_ := direct_ o |}.
Definition with_backlog (o : open_file) (b : list write_req) : open_file :=
  {| write_backlog_ := b; disk_ := disk_ o; pos_ := pos_ o; direct_ := direct_ o |}.

(** [disk_->]: undefined on a null pointer. *)
Definition deref (s : state) : outcome (file_id * disk_file) :=
  match disk_ s.1 with
  | None => Undefined
  | Some id => match s.2 !! id with None => Undefined | Some f => Ret (id, f) end
  end.

Definition disk_write_at (pos : Z) (buf : list byte) (s : state) : outcome (Z * state) :=
  '(id, f) ← deref s;
  '(r, f) ← disk_write pos buf f;
  Ret (r, (s.1, <[id := f]> s.2)).

Fixpoint flush_backlog (reqs : list write_req) (s : state) : outcome state :=
  match reqs with
  | [] => Ret s
  | req :: reqs =>
      '(_, s) ← disk_write_at (req_pos req) (req_bytes req) s;
      flush_backlog reqs s
  end.

Definition fsync_unlocked (s : state) : outcome (Z * state) :=
  if direct_ s.1 then Ret (0, s)
  else
    s ← flush_backlog (write_backlog_ s.1) s;
    Ret (0, (with_backlog s.1 [], s.2)).

Definition pwrite_unlocked (buf : list byte) (offset : Z) (s : state) : outcome (Z * state) :=
  if direct_ s.1 then
    '(r, s) ← disk_write_at offset buf s;
    Ret (i64 (u64 r), s)
  else
    Ret (size buf,
      (with_backlog s.1 (write_backlog_ s.1 ++ [{| req_bytes := buf; req_pos := offset |}]), s.2)).

Definition pread_unlocked (n offset : Z) (s : state) : outcome (Z * list byte * state) :=
  '(_, s) ← fsync_unlocked s;
  '(_, f) ← deref s;
  let '(r, data) := disk_read offset n f in
  Ret (i64 (u64 r), data, s).

Definition write (buf : list byte) (s : state) : outcome (Z * state) :=
  '(result, s) ← pwrite_unlocked buf (pos_ s.1) s;
  if result <? 0 then Ret (result, s)
  else Ret (result, (with_pos s.1 (u64 (pos_ s.1 + u64 result)), s.2)).

Definition read (n : Z) (s : state) : outcome (Z * list byte * state) :=
  '(result, data, s) ← pread_unlocked n (pos_ s.1) s;
  if result <? 0 then Ret (result, data, s)
  else Ret (result, data, (with_pos s.1 (u64 (pos_ s.1 + u64 result)), s.2)).

Definition pwrite (buf : list byte) (offset : Z) (s : state) : outcome (Z * state) :=
  pwrite_unlocked buf offset s.
Definition pread (n offset : Z) (s : state) : outcome (Z * list byte * state) :=
  pread_unlocked n offset s.

Definition lseek (offset : Z) (w : whence) (s : state) : outcome (Z * state) :=
  match w with
  | SEEK_SET => let o := with_pos s.1 offset in Ret (i64 (pos_ o), (o, s.2))
  | SEEK_CUR => let o := with_pos s.1 (u64 (pos_ s.1 + offset)) in Ret (i64 (pos_ o), (o, s.2))
  | SEEK_END =>
      '(_, f) ← deref s;
      let o := with_pos s.1 (u64 (get_size f + offset)) in Ret (i64 (pos_ o), (o, s.2))
  | SEEK_OTHER => Ret (- EINVAL, s)
  end.

Definition fsync (s : state) : outcome (Z * state) := fsync_unlocked s.

End Ops.

(** [class disk]: a name table no operation uses. *)
Record disk := { filenameMap : gmap (list byte) file_id }.

(** ** Contents after a write *)

Lemma length_resize n f : size f <= n -> length (resize n f) = Z.to_nat n.
Proof.
  unfold size. intros Hn. unfold resize. rewrite length_app, length_take, length_replicate. lia.
Qed.

Lemma size_resize n f : size f <= n -> size (resize n f) = n.
Proof. intros Hn. unfold size at 1. rewrite length_resize by done. unfold size in Hn. lia. Qed.

Lemma resize_lookup n f i :
  size f <= n -> (i < Z.to_nat n)%nat ->
  resize n f !! i = Some (default x00 (f !! i)).
Proof.
  unfold size. intros Hn Hi. unfold resize. rewrite take_ge by lia.
  destruct (decide (i < length f)%nat) as [Hl|Hl].
  - rewrite lookup_app_l by done. destruct (lookup_lt_is_Some_2 f i Hl) as [b ->]. done.
  - rewrite lookup_app_r, lookup_replicate_2 by lia. by rewrite (lookup_ge_None_2 f i) by lia.
Qed.

Lemma length_overwrite pos buf f :
  0 <= pos -> pos + size buf <= size f -> length (overwrite pos buf f) = length f.
Proof.
  unfold size. intros Hp Hf. unfold overwrite.
  rewrite !length_app, length_take, length_drop. lia.
Qed.

Lemma overwrite_lookup pos buf f i :
  0 <= pos -> pos + size buf <= size f ->
  overwrite pos buf f !! i
    = if bool_decide (Z.to_nat pos <= i < Z.to_nat pos + length buf)%nat
      then buf !! (i - Z.to_nat pos)%nat else f !! i.
Proof.
  unfold size. intros Hp Hf. unfold overwrite.
  assert (Hlt : length (take (Z.to_nat pos) f) = Z.to_nat pos) by (rewrite length_take; lia).
  case_bool_decide as Hb.
  - rewrite lookup_app_r, Hlt by lia. by rewrite lookup_app_l by lia.
  - destruct (decide (i < Z.to_nat pos)%nat).
    + rewrite lookup_app_l by lia. by rewrite lookup_take_lt.
    + rewrite lookup_app_r, Hlt by lia. rewrite lookup_app_r by lia.
      rewrite lookup_drop. f_equal. lia.
Qed.

(** What a write within the limits makes of the contents. *)
Definition written (pos : Z) (buf f : list byte) : list byte :=
  overwrite pos buf (resize (Z.max (size f) (pos + size buf)) f).

Definition fits (max_size pos : Z) (buf : list byte) : Prop :=
  0 <= pos < max_file_size /\ pos + size buf <= max_size /\ max_size < 2 ^ 63.

Lemma resize_same f : resize (size f) f = f.
Proof.
  unfold resize, size. rewrite Nat2Z.id, take_ge, Nat.sub_diag by lia. apply app_nil_r.
Qed.

Lemma disk_write_ok ms pos buf f :
  fits ms pos buf -> disk_write ms pos buf f = Ret (size buf, written pos buf f).
Proof.
  intros (Hp & Hm & H64). unfold disk_write, written.
  assert (0 <= size buf) by (unfold size; lia).
  rewrite (proj2 (Z.ltb_ge pos 0)), (proj2 (Z.leb_gt _ pos)) by lia. cbn [orb].
  rewrite u64_id by lia. destruct (Z.ltb_spec (size f) (pos + size buf)).
  - rewrite (proj2 (Z.ltb_ge _ _)) by lia. cbn [mbind outcome_bind]. by rewrite Z.max_r by lia.
  - cbn [mbind outcome_bind]. rewrite Z.max_l by lia. by rewrite resize_same.
Qed.

Lemma written_lookup pos buf f i :
  0 <= pos ->
  written pos buf f !! i
    = if bool_decide (pos <= Z.of_nat i < pos + size buf) then buf !! (i - Z.to_nat pos)%nat
      else if bool_decide (Z.of_nat i < Z.max (size f) (pos + size buf))
      then Some (default x00 (f !! i)) else None.
Proof.
  intros Hp. unfold written.
  pose proof (size_resize (Z.max (size f) (pos + size buf)) f ltac:(lia)) as Hl.
  rewrite overwrite_lookup by lia. unfold size in *. repeat case_bool_decide; try lia; try done.
  - apply resize_lookup; unfold size; lia.
  - apply lookup_ge_None. lia.
Qed.

Lemma size_written pos buf f :
  0 <= pos -> size (written pos buf f) = Z.max (size f) (pos + size buf).
Proof.
  intros Hp. pose proof (size_resize (Z.max (size f) (pos + size buf)) f ltac:(lia)) as Hl.
  transitivity (size (resize (Z.max (size f) (pos + size buf)) f)); [|exact Hl].
  unfold written. unfold size at 1. rewrite length_overwrite by lia. done.
Qed.

Lemma disk_read_written pos buf f :
  0 <= pos -> buf <> [] -> disk_read pos (size buf) (written pos buf f) = (size buf, buf).
Proof.
  intros Hp Hne. unfold disk_read. rewrite size_written by done.
  assert (Hs : 0 < size buf) by (unfold size; destruct buf; [done|cbn; lia]).
  rewrite (proj2 (Z.ltb_ge pos 0)), (proj2 (Z.leb_gt _ pos)) by lia. cbn [orb].
  rewrite Z.min_l by lia. f_equal. apply list_eq. intros i.
  destruct (decide (i < length buf)%nat) as [Hi|Hi].
  - rewrite lookup_take_lt, lookup_drop, written_lookup by (unfold size; lia).
    rewrite bool_decide_eq_true_2 by (unfold size; lia). f_equal. lia.
  - rewrite lookup_take_ge by (unfold size; lia). by rewrite lookup_ge_None_2 by lia.
Qed.

(** ** The buffered handle against the direct one *)

(** The direct handle over the flushed store: what a buffered handle stands for. *)
Definition apply_backlog (reqs : list write_req) (f : disk_file) : disk_file :=
  fold_left (fun f r => written (req_pos r) (req_bytes r) f) reqs f.

Definition flushed (s : state) : state :=
  ({| write_backlog_ := []; disk_ := disk_ s.1; pos_ := pos_ s.1; direct_ := true |},
   match disk_ s.1 with
   | Some id => alter (apply_backlog (write_backlog_ s.1)) id s.2
   | None => s.2
   end).

Definition backlog_ok (ms : Z) (s : state) : Prop :=
  Forall (fun r => fits ms (req_pos r) (req_bytes r)) (write_backlog_ s.1).

(** A buffered handle on an existing file, with a flushable backlog. *)
Record buffered (ms : Z) (s : state) (id : file_id) (f : disk_file) : Prop := {
  buf_mode : direct_ s.1 = false;
  buf_disk : disk_ s.1 = Some id;
  buf_file : s.2 !! id = Some f;
  buf_ok : backlog_ok ms s;
}.

Lemma flush_backlog_ok ms reqs o st id f :
  disk_ o = Some id -> st !! id = Some f ->
  Forall (fun r => fits ms (req_pos r) (req_bytes r)) reqs ->
  flush_backlog ms reqs (o, st) = Ret (o, <[id := apply_backlog reqs f]> st).
Proof.
  intros Hd. revert st f. induction reqs as [|r reqs IH]; intros st f Hf Hall; cbn [flush_backlog].
  - unfold apply_backlog; cbn [fold_left]. by rewrite insert_id.
  - apply Forall_cons in Hall as [Hr Hall].
    unfold disk_write_at, deref. cbn [fst snd]. rewrite Hd, Hf. cbn [mbind outcome_bind].
    rewrite disk_write_ok by done. cbn [mbind outcome_bind].
    rewrite (IH _ (written (req_pos r) (req_bytes r) f)); [|by rewrite lookup_insert_eq|done].
    by rewrite insert_insert_eq.
Qed.

Lemma fsync_buffered ms s id f :
  buffered ms s id f ->
  fsync_unlocked ms s
    = Ret (0, (with_backlog s.1 [], <[id := apply_backlog (write_backlog_ s.1) f]> s.2)).
Proof.
  intros [Hm Hd Hf Hok]. unfold fsync_unlocked. rewrite Hm. destruct s as [o st]; cbn [fst snd] in *.
  by rewrite (flush_backlog_ok ms _ o st id f).
Qed.

Lemma flushed_store ms s id f :
  buffered ms s id f -> (flushed s).2 = <[id := apply_backlog (write_backlog_ s.1) f]> s.2.
Proof.
  intros [Hm Hd Hf _]. unfold flushed; cbn. rewrite Hd.
  apply map_eq. intros i. destruct (decide (id = i)) as [->|Hne].
  - by rewrite lookup_alter_eq, Hf, lookup_insert_eq.
  - by rewrite lookup_alter_ne, lookup_insert_ne.
Qed.

(** ** Operations as data, and runs *)

Inductive op :=
| OWrite (buf : list byte)
| ORead (n : Z)
| OPwrite (buf : list byte) (offset : Z)
| OPread (n offset : Z)
| OSeek (offset : Z) (w : whence)
| OFsync.

Definition no_data (x : outcome (Z * state)) : outcome (Z * list byte * state) :=
  '(r, s) ← x; Ret (r, [], s).

Definition run (ms : Z) (o : op) (s : state) : outcome (Z * list byte * state) :=
  match o with
  | OWrite buf => no_data (write ms buf s)
  | ORead n => read ms n s
  | OPwrite buf offset => no_data (pwrite ms buf offset s)
  | OPread n offset => pread ms n offset s
  | OSeek offset w => no_data (lseek offset w s)
  | OFsync => no_data (fsync ms s)
  end.

Fixpoint run_all (ms : Z) (os : list op) (s : state) : outcome (list (Z * list byte) * state) :=
  match os with
  | [] => Ret ([], s)
  | o :: os =>
      '(r, d, s) ← run ms o s;
      '(rs, s) ← run_all ms os s;
      Ret ((r, d) :: rs, s)
  end.

(** Writes stay within the limits; no seek from the end. *)
Definition op_ok (ms : Z) (o : op) (s : state) : Prop :=
  match o with
  | OWrite buf => fits ms (pos_ s.1) buf
  | OPwrite buf offset => fits ms offset buf
  | OSeek _ SEEK_END => False
  | _ => True
  end.

Fixpoint ops_ok (ms : Z) (os : list op) (s : state) : Prop :=
  match os with
  | [] => True
  | o :: os => op_ok ms o s
      /\ match run ms o s with Ret (_, _, s) => ops_ok ms os s | _ => True end
  end.

Section Simulation.
Variable ms : Z.

Definition direct_of (s : state) : open_file :=
  {| write_backlog_ := []; disk_ := disk_ s.1; pos_ := pos_ s.1; direct_ := true |}.

Lemma flushed_eq s id f :
  buffered ms s id f ->
  flushed s = (direct_of s, <[id := apply_backlog (write_backlog_ s.1) f]> s.2).
Proof. intros Hb. rewrite (surjective_pairing (flushed s)). by rewrite (flushed_store ms s id f). Qed.

(** Both handles after a flush see the same file. *)
Lemma buffered_after_fsync s id f :
  buffered ms s id f ->
  let s' := (with_backlog s.1 [], <[id := apply_backlog (write_backlog_ s.1) f]> s.2) in
  buffered ms s' id (apply_backlog (write_backlog_ s.1) f) /\ flushed s' = flushed s.
Proof.
  intros Hb s'. pose proof Hb as [Hm Hd Hf Hok].
  assert (Hb' : buffered ms s' id (apply_backlog (write_backlog_ s.1) f)).
  { split; cbn; try done; [by rewrite lookup_insert_eq|by apply Forall_nil]. }
  split; [done|]. rewrite (flushed_eq _ _ _ Hb'), (flushed_eq _ _ _ Hb). cbn.
  by rewrite insert_insert_eq.
Qed.

Lemma with_pos_buffered s id f p : buffered ms s id f -> buffered ms (with_pos s.1 p, s.2) id f.
Proof. intros [Hm Hd Hf Hok]. by split. Qed.
Lemma with_pos_flushed s p : flushed (with_pos s.1 p, s.2) = (with_pos (flushed s).1 p, (flushed s).2).
Proof. done. Qed.

Lemma pwrite_sim s id f buf off :
  buffered ms s id f -> fits ms off buf ->
  exists s', pwrite_unlocked ms buf off s = Ret (size buf, s') /\ buffered ms s' id f
    /\ pos_ s'.1 = pos_ s.1
    /\ pwrite_unlocked ms buf off (flushed s) = Ret (size buf, flushed s').
Proof.
  intros Hb Hfit. pose proof Hb as [Hm Hd Hf Hok].
  eexists. unfold pwrite_unlocked at 1. rewrite Hm. split; [done|].
  assert (Hb' : buffered ms (with_backlog s.1 (write_backlog_ s.1 ++ [{| req_bytes := buf; req_pos := off |}]), s.2) id f).
  { split; cbn; try done. apply Forall_app. split; [done|]. by apply Forall_singleton. }
  split; [done|]. split; [done|].
  rewrite (flushed_eq _ _ _ Hb), (flushed_eq _ _ _ Hb'). unfold pwrite_unlocked, disk_write_at, deref.
  cbn [fst snd direct_of direct_ disk_]. rewrite Hd, lookup_insert_eq. cbn [mbind outcome_bind].
  rewrite disk_write_ok by done. cbn [mbind outcome_bind].
  destruct Hfit as (Hp & Hm1 & Hm2). unfold size in *. rewrite u64_id, i64_id by lia.
  rewrite insert_insert_eq. unfold apply_backlog; cbn [fst write_backlog_ with_backlog]. rewrite fold_left_app. done.
Qed.

Lemma pread_sim s id f n off :
  buffered ms s id f ->
  exists r d s' f', pread_unlocked ms n off s = Ret (r, d, s') /\ buffered ms s' id f'
    /\ pos_ s'.1 = pos_ s.1
    /\ pread_unlocked ms n off (flushed s) = Ret (r, d, flushed s').
Proof.
  intros Hb. pose proof Hb as [Hm Hd Hf Hok].
  destruct (buffered_after_fsync s id f Hb) as [Hb' Hfl].
  destruct (disk_read off n (apply_backlog (write_backlog_ s.1) f)) as [r d] eqn:E.
  eexists _, _, _, _. unfold pread_unlocked at 1. rewrite (fsync_buffered ms s id f Hb).
  cbn [mbind outcome_bind]. unfold deref at 1. cbn [fst snd with_backlog disk_]. rewrite Hd, lookup_insert_eq.
  cbn [mbind outcome_bind]. rewrite E. split; [reflexivity|]. split; [exact Hb'|]. split; [done|].
  rewrite Hfl. rewrite (flushed_eq _ _ _ Hb). unfold pread_unlocked, fsync_unlocked, deref.
  cbn [fst snd direct_of direct_ disk_ mbind outcome_bind].
  rewrite Hd, lookup_insert_eq. cbn [mbind outcome_bind]. by rewrite E.
Qed.

(** One step of the simulation. *)
Lemma run_sim o s id f :
  buffered ms s id f -> op_ok ms o s ->
  exists r d s' f', run ms o s = Ret (r, d, s') /\ buffered ms s' id f'
    /\ run ms o (flushed s) = Ret (r, d, flushed s').
Proof.
  intros Hb Hok. destruct o as [buf|n|buf off|n off|off w|]; cbn [run op_ok] in *.
  - destruct (pwrite_sim s id f buf (pos_ s.1) Hb Hok) as (s' & E & Hb' & Hp & E').
    assert (Hsz : (size buf <? 0) = false) by (apply Z.ltb_ge; unfold size; lia).
    eexists _, _, _, f. unfold write. change (pos_ (flushed s).1) with (pos_ s.1).
    rewrite E, E'. cbn [mbind outcome_bind]. rewrite Hsz. cbn [no_data mbind outcome_bind].
    split; [done|]. split; [by apply with_pos_buffered|]. by rewrite with_pos_flushed.
  - destruct (pread_sim s id f n (pos_ s.1) Hb) as (r & d & s' & f' & E & Hb' & Hp & E').
    unfold read. change (pos_ (flushed s).1) with (pos_ s.1). rewrite E, E'. cbn [mbind outcome_bind].
    destruct (r <? 0).
    + by exists r, d, s', f'.
    + eexists r, d, _, f'. split; [done|]. split; [by apply with_pos_buffered|].
      by rewrite with_pos_flushed.
  - destruct (pwrite_sim s id f buf off Hb Hok) as (s' & E & Hb' & Hp & E').
    eexists _, _, s', f. unfold pwrite. rewrite E, E'. done.
  - destruct (pread_sim s id f n off Hb) as (r & d & s' & f' & E & Hb' & Hp & E').
    exists r, d, s', f'. unfold pread. by rewrite E, E'.
  - destruct w; try done; unfold lseek; cbn [no_data mbind outcome_bind];
      eexists _, _, _, f; (split; [done|]); (split; [try by apply with_pos_buffered|]); try done;
      by rewrite with_pos_flushed.
  - destruct (buffered_after_fsync s id f Hb) as [Hb' Hfl].
    eexists 0, [], _, _. unfold fsync. rewrite (fsync_buffered ms s id f Hb).
    split; [done|]. split; [exact Hb'|]. by rewrite Hfl.
Qed.

End Simulation.

(** * Properties *)

(** C15: the file array. A write below the size limits returns its length,
    puts exactly the given bytes at [pos], keeps every other old byte and
    fills a gap with zeros; reading the written range gives the bytes back. A
    position at or past the maximum is refused with -EINVAL and nothing
    changes; so is a read at or past the end of the file, where POSIX answers 0. *)
Theorem disk_write_read (ms pos : Z) (buf : list byte) (f : disk_file) (Hfit : fits ms pos buf) :
  (exists f', disk_write ms pos buf f = Ret (size buf, f')
     /\ size f' = Z.max (size f) (pos + size buf)
     /\ (forall i, f' !! i =
          if bool_decide (pos <= Z.of_nat i < pos + size buf) then buf !! (i - Z.to_nat pos)%nat
          else if bool_decide (Z.of_nat i < size f') then Some (default x00 (f !! i)) else None)
     /\ (buf <> [] -> disk_read pos (size buf) f' = (size buf, buf)))
  /\ (forall p, max_file_size <= p -> disk_write ms p buf f = Ret (- EINVAL, f))
  /\ (forall p n, size f <= p -> disk_read p n f = (- EINVAL, [])).
Proof.
  pose proof Hfit as (Hp & Hm1 & Hm2). split; [|split].
  - exists (written pos buf f). split; [by apply disk_write_ok|].
    split; [apply size_written; lia|]. split.
    { intros i. rewrite size_written by lia. apply written_lookup. lia. }
    intros Hne. apply disk_read_written; [lia|done].
  - intros p Hle. unfold disk_write.
    by rewrite (proj2 (Z.leb_le max_file_size p)), orb_true_r by lia.
  - intros p n Hle. unfold disk_read. by rewrite (proj2 (Z.leb_le (size f) p)), orb_true_r by lia.
Qed.

Example disk_write_read_witness :
  exists f', disk_write 4096 2 [x61; x62] [x78] = Ret (2, f')
    /\ size f' = Z.max (size [x78]) (2 + size [x61; x62])
    /\ (forall i, f' !! i =
          if bool_decide (2 <= Z.of_nat i < 2 + size [x61; x62]) then [x61; x62] !! (i - Z.to_nat 2)%nat
          else if bool_decide (Z.of_nat i < size f') then Some (default x00 ([x78] !! i)) else None)
    /\ ([x61; x62] <> [] -> disk_read 2 (size [x61; x62]) f' = (size [x61; x62], [x61; x62])).
Proof.
  refine (proj1 (disk_write_read 4096 2 [x61; x62] [x78] _)).
  unfold fits, max_file_size, size; cbn. lia.
Defined.

(** C14: refinement of the buffered mode. For any sequence of reads, writes,
    positioned reads and writes, seeks from the start or the current position
    and fsyncs, with writes inside the limits, a handle with a backlog returns
    the same results and data, call by call, as a write-through handle on the
    flushed file, and ends in a state that flushes to the write-through one. *)
Theorem buffered_refines_direct (ms : Z) (os : list op) (s : state) (id : file_id) (f : disk_file)
  (Hb : buffered ms s id f) (Hok : ops_ok ms os s) :
  exists rs s' f', run_all ms os s = Ret (rs, s') /\ buffered ms s' id f'
    /\ run_all ms os (flushed s) = Ret (rs, flushed s').
Proof.
  revert s f Hb Hok. induction os as [|o os IH]; intros s f Hb Hok.
  { by exists [], s, f. }
  destruct Hok as [Ho Hrest]. destruct (run_sim ms o s id f Hb Ho) as (r & d & s1 & f1 & E & Hb1 & E1).
  rewrite E in Hrest. destruct (IH s1 f1 Hb1 Hrest) as (rs & s2 & f2 & E2 & Hb2 & E3).
  exists ((r, d) :: rs), s2, f2. cbn [run_all]. rewrite E, E1. cbn [mbind outcome_bind].
  by rewrite E2, E3.
Qed.

Definition demo_state : state :=
  ({| write_backlog_ := []; disk_ := Some 1%positive; pos_ := 0; direct_ := false |}, {[1%positive := []]}).

Example buffered_refines_direct_witness :
  exists rs s' f',
    run_all 4096 [OWrite [x61; x62]; OPwrite [x63] 1; OSeek 0 SEEK_SET; ORead 8] demo_state = Ret (rs, s')
    /\ buffered 4096 s' 1%positive f'
    /\ run_all 4096 [OWrite [x61; x62]; OPwrite [x63] 1; OSeek 0 SEEK_SET; ORead 8] (flushed demo_state)
       = Ret (rs, flushed s').
Proof.
  apply (buffered_refines_direct 4096 _ demo_state 1%positive []).
  - split; try done. by apply Forall_nil.
  - vm_compute; intuition discriminate.
Defined.

(** What another handle sees. A buffered write leaves every file as it
    was, so a handle on the same file does not see it; after [fsync] the file
    holds the backlog applied in order and a second [fsync] changes nothing.
    SEEK_END looks at the unflushed file: it lands where the write-through
    handle would only if the backlog does not change the size. *)
Theorem backlog_visibility (ms : Z) (s : state) (id : file_id) (f : disk_file) (buf : list byte)
  (off : Z) (Hb : buffered ms s id f) :
  (forall r s', pwrite ms buf off s = Ret (r, s') -> s'.2 = s.2)
  /\ (exists s', fsync ms s = Ret (0, s')
        /\ s'.2 !! id = Some (apply_backlog (write_backlog_ s.1) f)
        /\ (forall id', id' <> id -> s'.2 !! id' = s.2 !! id')
        /\ fsync ms s' = Ret (0, s'))
  /\ lseek off SEEK_END s = Ret (i64 (size f + off), (with_pos s.1 (u64 (size f + off)), s.2))
  /\ lseek off SEEK_END (flushed s)
     = Ret (i64 (size (apply_backlog (write_backlog_ s.1) f) + off),
            (with_pos (flushed s).1 (u64 (size (apply_backlog (write_backlog_ s.1) f) + off)),
             (flushed s).2)).
Proof.
  pose proof Hb as [Hm Hd Hf Hok]. split; [|split; [|split]].
  - intros r s'. unfold pwrite, pwrite_unlocked. rewrite Hm. by intros [= <- <-].
  - destruct (buffered_after_fsync ms s id f Hb) as [Hb' _].
    unfold fsync. rewrite (fsync_buffered ms s id f Hb). eexists. split; [done|].
    cbn [fst snd]. split; [by rewrite lookup_insert_eq|].
    split; [intros id' Hne; by rewrite lookup_insert_ne|].
    rewrite (fsync_buffered ms _ id _ Hb'). cbn. by rewrite insert_insert_eq.
  - unfold lseek, deref. cbn [fst snd]. rewrite Hd, Hf. cbn [mbind outcome_bind].
    unfold get_size. cbn [with_pos pos_]. by rewrite i64_u64.
  - rewrite (flushed_eq ms s id f Hb). unfold lseek, deref. cbn [fst snd direct_of disk_].
    rewrite Hd, lookup_insert_eq. cbn [mbind outcome_bind].
    unfold get_size. cbn [with_pos pos_ fst snd]. by rewrite i64_u64.
Qed.

Example backlog_visibility_witness :
  lseek 0 SEEK_END demo_state
  = Ret (i64 (size [] + 0), (with_pos demo_state.1 (u64 (size [] + 0)), demo_state.2)).
Proof.
  refine (proj1 (proj2 (proj2 (backlog_visibility 4096 demo_state 1%positive [] [x61] 0 _)))).
  split; try done. by apply Forall_nil.
Defined.
