(* ===== verification/Runner.v ===== *)
(** * The runner interface: [runner_handle] of src/sim/runner.hpp

    The hooks see the traced process only through the virtual class
    [runner_handle]: here a typeclass over the type [M] of process memories.
    [RunnerHandleOk] is the contract the client theorems use; Tracee.v shows
    that the ptrace implementation fulfils it. *)

From Stdlib Require Import Strings.Byte.
From S2P Require Import Prelude Words.

Class RunnerHandle (M : Type) := {
  (** [read_memory(ptr, span)]: the code and the span's contents, [n] bytes. *)
  run_read : Z -> nat -> M -> Z * list byte;
  (** [write_memory(ptr, span)] *)
  run_write : Z -> list byte -> M -> Z * M;
}.

Class RunnerHandleOk (M : Type) `{RunnerHandle M} := {
  accessible : M -> Z -> nat -> Prop;
  run_read_length : forall ptr n m, length (run_read ptr n m).2 = n;
  run_read_ok : forall ptr n m, accessible m ptr n -> (run_read ptr n m).1 = 0;
  run_write_ok : forall ptr data m, accessible m ptr (length data) ->
    (run_write ptr data m).1 = 0
    /\ run_read ptr (length data) (run_write ptr data m).2 = (0, data);
}.

(** ** The callbacks of src/hook/impls.cpp

    Each call moves the fragment at [addr] and advances [addr] by the code the
    runner returned.  The state of a callback is that address (and, for the
    one that writes, the memory). *)

Section Callbacks.
Context {M : Type} `{RunnerHandle M}.

Definition advance (addr res : Z) : Z := if 0 <=? res then u64 (addr + res) else addr.

(** The span handed to [load] is overwritten with the process's bytes. *)
Definition store_fragment_callback (m : M) (fragment : list byte) (addr : Z) : Z * list byte * Z :=
  let '(res, data) := run_read addr (length fragment) m in
  (res, data, advance addr res).

Definition load_fragment_callback (fragment : list byte) (st : M * Z) : Z * (M * Z) :=
  let '(m, addr) := st in
  let '(res, m) := run_write addr fragment m in
  (res, (m, advance addr res)).

End Callbacks.
