(* ===== verification/Tracee.v ===== *)
(** * Tracee memory: [ptrace_runner_handle::read_memory] and [write_memory]
    (src/sim/runner/ptrace.cpp)

    The runner moves bytes in and out of the traced process one 8-byte word at
    a time.  PEEKDATA and POKEDATA are the kernel's: the class [Ptrace] gives
    the two requests, [PtraceOk] what ptrace(2) documents of them (a word that
    is entirely mapped is read and written exactly; a peek that touches an
    unmapped byte fails with -1).  The code ignores that failure. *)

From Stdlib Require Import Strings.Byte.
From S2P Require Import Prelude Words Runner.

Class Ptrace (M : Type) := {
  peekdata : M -> Z -> Z;           (* the returned long, as 64 bits *)
  pokedata : M -> Z -> Z -> M;
}.

Class PtraceOk (M : Type) `{Ptrace M} := {
  byte_at : M -> Z -> option byte;  (* None: not mapped *)
  peek_mapped : forall m a i, 0 <= a -> a + 8 <= 2 ^ 64 -> (forall x, a <= x < a + 8 -> is_Some (byte_at m x)) -> (i < 8)%nat ->
    le_bytes 8 (peekdata m a) !! i = byte_at m (a + Z.of_nat i);
  peek_unmapped : forall m a x, a <= x < a + 8 -> byte_at m x = None ->
    peekdata m a = 2 ^ 64 - 1;
  poke_mapped : forall m a w x, 0 <= a -> a + 8 <= 2 ^ 64 -> (forall x, a <= x < a + 8 -> is_Some (byte_at m x)) ->
    byte_at (pokedata m a w) x
      = if bool_decide (a <= x < a + 8) then le_bytes 8 w !! Z.to_nat (x - a) else byte_at m x;
}.

Section Memory.
Context {M : Type} `{Ptrace M}.

(** [data] shrinks by 8 per pass; the tail of fewer than 8 bytes is merged
    into the word that is there. *)
Fixpoint write_loop (fuel : nat) (ptr : Z) (data : list byte) (m : M) : M :=
  match fuel with
  | O => m
  | S fuel =>
      if (8 <=? length data)%nat then
        let word := le_value (take 8 data) in
        write_loop fuel (u64 (ptr + 8)) (drop 8 data) (pokedata m ptr word)
      else if (length data =? 0)%nat then m
      else
        let word := peekdata m ptr in
        let word := le_value (data ++ drop (length data) (le_bytes 8 word)) in
        pokedata m ptr word
  end.
Definition write_memory (ptr : Z) (data : list byte) (m : M) : Z * M :=
  (0, write_loop (S (length data)) ptr data m).

Fixpoint read_loop (fuel : nat) (ptr : Z) (n : nat) (m : M) : list byte :=
  match fuel with
  | O => []
  | S fuel =>
      if (8 <=? n)%nat then
        le_bytes 8 (peekdata m ptr) ++ read_loop fuel (u64 (ptr + 8)) (n - 8) m
      else if (n =? 0)%nat then []
      else take n (le_bytes 8 (peekdata m ptr))
  end.
(** The result code and the contents of the span of [n] bytes. *)
Definition read_memory (ptr : Z) (n : nat) (m : M) : Z * list byte :=
  (0, read_loop (S n) ptr n m).

End Memory.

(** ** Lemmas *)

Section MemoryFacts.
Context {M : Type} `{PtraceOk M}.

Definition mapped (m : M) (a n : Z) : Prop := forall x, a <= x < a + n -> is_Some (byte_at m x).

(** The words a transfer of [n] bytes touches, in bytes. *)
Definition up8 (n : nat) : Z := 8 * ((Z.of_nat n + 7) / 8).

Lemma up8_ge n : Z.of_nat n <= up8 n < Z.of_nat n + 8.
Proof. unfold up8. Z.to_euclidean_division_equations. lia. Qed.
Lemma up8_pos n : (0 < n)%nat -> 8 <= up8 n.
Proof. unfold up8. Z.to_euclidean_division_equations. lia. Qed.
Lemma up8_sub n : (8 <= n)%nat -> up8 (n - 8) = up8 n - 8.
Proof.
  intros Hn. unfold up8. replace (Z.of_nat n + 7) with (Z.of_nat (n - 8) + 7 + 1 * 8) by lia.
  rewrite Z_div_plus_full by lia. lia.
Qed.

Lemma le_bytes_value_len n bs : length bs = n -> le_bytes n (le_value bs) = bs.
Proof. intros <-. apply le_bytes_value. Qed.

Lemma mapped_sub m a n b k : mapped m a n -> a <= b -> b + k <= a + n -> mapped m b k.
Proof. intros Hm ? ? x Hx. apply Hm. lia. Qed.

Lemma poke_keeps_mapped m a w b k :
  0 <= a -> a + 8 <= 2 ^ 64 -> mapped m a 8 -> mapped m b k -> mapped (pokedata m a w) b k.
Proof.
  intros Ha Hl Hm Hb x Hx. rewrite poke_mapped by done. case_bool_decide; [|by apply Hb].
  apply lookup_lt_is_Some_2. rewrite length_le_bytes. lia.
Qed.

Lemma write_loop_spec fuel ptr data m x :
  (length data < fuel)%nat -> 0 <= ptr -> ptr + up8 (length data) < 2 ^ 64 ->
  mapped m ptr (up8 (length data)) ->
  byte_at (write_loop fuel ptr data m) x
    = if bool_decide (ptr <= x < ptr + Z.of_nat (length data))
      then data !! Z.to_nat (x - ptr) else byte_at m x.
Proof.
  revert ptr data m. induction fuel as [|fuel IH]; intros ptr data m Hf Hp Hl Hm; [lia|].
  cbn [write_loop]. pose proof (up8_ge (length data)) as Hu.
  destruct (8 <=? length data)%nat eqn:E8.
  - apply Nat.leb_le in E8. pose proof (up8_sub _ E8) as Hs.
    assert (Hm8 : mapped m ptr 8) by (eapply mapped_sub; [exact Hm|lia|lia]).
    assert (Hd : length (drop 8 data) = (length data - 8)%nat) by apply length_drop.
    rewrite u64_id by lia. rewrite IH; rewrite ?Hd; try lia.
    2: { rewrite Hs. apply poke_keeps_mapped; try done; [lia|]. eapply mapped_sub; [exact Hm|lia|lia]. }
    rewrite poke_mapped by (try done; lia).
    rewrite (le_bytes_value_len 8) by (rewrite length_take; lia).
    repeat case_bool_decide; try lia; try done.
    + rewrite lookup_drop. f_equal. lia.
    + by rewrite lookup_take_lt by lia.
  - apply Nat.leb_gt in E8. destruct (length data =? 0)%nat eqn:E0.
    { apply Nat.eqb_eq in E0. rewrite E0. case_bool_decide; [lia|done]. }
    apply Nat.eqb_neq in E0. pose proof (up8_pos (length data) ltac:(lia)).
    assert (Hm8 : mapped m ptr 8) by (eapply mapped_sub; [exact Hm|lia|lia]).
    rewrite poke_mapped by (try done; lia).
    set (bs := data ++ _).
    assert (Hbs : length bs = 8%nat)
      by (unfold bs; rewrite length_app, length_drop, length_le_bytes; lia).
    rewrite (le_bytes_value_len 8) by exact Hbs.
    repeat case_bool_decide; try lia; try done; unfold bs.
    + by rewrite lookup_app_l by lia.
    + rewrite lookup_app_r, lookup_drop by lia.
      replace (length data + (Z.to_nat (x - ptr) - length data))%nat with (Z.to_nat (x - ptr)) by lia.
      rewrite peek_mapped by (try done; lia). f_equal. lia.
Qed.

Lemma length_read_loop fuel ptr n m : (n < fuel)%nat -> length (read_loop fuel ptr n m) = n.
Proof.
  revert ptr n. induction fuel as [|fuel IH]; intros ptr n Hf; [lia|]. cbn [read_loop].
  destruct (8 <=? n)%nat eqn:E8.
  - apply Nat.leb_le in E8. rewrite length_app, length_le_bytes, IH by lia. lia.
  - apply Nat.leb_gt in E8. destruct (n =? 0)%nat eqn:E0; [by apply Nat.eqb_eq in E0|].
    rewrite length_take, length_le_bytes. lia.
Qed.

Lemma read_loop_spec fuel ptr n m i :
  (n < fuel)%nat -> 0 <= ptr -> ptr + up8 n < 2 ^ 64 -> mapped m ptr (up8 n) -> (i < n)%nat ->
  read_loop fuel ptr n m !! i = byte_at m (ptr + Z.of_nat i).
Proof.
  revert ptr n i. induction fuel as [|fuel IH]; intros ptr n i Hf Hp Hl Hm Hi; [lia|].
  cbn [read_loop]. pose proof (up8_ge n) as Hu. pose proof (up8_pos n ltac:(lia)).
  assert (Hm8 : mapped m ptr 8) by (eapply mapped_sub; [exact Hm|lia|lia]).
  destruct (8 <=? n)%nat eqn:E8.
  - apply Nat.leb_le in E8. pose proof (up8_sub _ E8) as Hs. rewrite u64_id by lia.
    destruct (decide (i < 8)%nat).
    + rewrite lookup_app_l by (rewrite length_le_bytes; lia). by apply peek_mapped; try done; lia.
    + rewrite lookup_app_r, length_le_bytes by (rewrite length_le_bytes; lia).
      rewrite IH; try lia; [f_equal; lia|]. rewrite Hs. eapply mapped_sub; [exact Hm|lia|lia].
  - apply Nat.leb_gt in E8. destruct (n =? 0)%nat eqn:E0; [apply Nat.eqb_eq in E0; lia|].
    rewrite lookup_take_lt by lia. apply peek_mapped; try done; lia.
Qed.

(** A word that touches an unmapped byte reads as 0xff bytes. *)
Lemma read_loop_unmapped fuel ptr n m a x i :
  (n < fuel)%nat -> 0 <= ptr -> ptr + up8 n < 2 ^ 64 ->
  a = ptr + 8 * (Z.of_nat i / 8) -> (i < n)%nat -> a <= x < a + 8 -> byte_at m x = None ->
  read_loop fuel ptr n m !! i = Some Byte.xff.
Proof.
  revert ptr n i. induction fuel as [|fuel IH]; intros ptr n i Hf Hp Hl Ha Hi Hx Hm; [lia|].
  cbn [read_loop]. pose proof (up8_ge n) as Hu. pose proof (up8_pos n ltac:(lia)).
  assert (Hff : forall j, (j < 8)%nat -> le_bytes 8 (2 ^ 64 - 1) !! j = Some Byte.xff)
    by (intros j Hj; do 8 (destruct j as [|j]; [reflexivity|]); lia).
  destruct (decide (i < 8)%nat) as [Hi8|Hi8].
  - rewrite Z.div_small in Ha by lia.
    assert (Hpk : peekdata m ptr = 2 ^ 64 - 1) by (apply (peek_unmapped _ _ x); [lia|done]).
    rewrite Hpk. destruct (8 <=? n)%nat eqn:E8.
    + rewrite lookup_app_l by (rewrite length_le_bytes; lia). by apply Hff.
    + apply Nat.leb_gt in E8. destruct (n =? 0)%nat eqn:E0; [apply Nat.eqb_eq in E0; lia|].
      rewrite lookup_take_lt by lia. by apply Hff.
  - rewrite (proj2 (Nat.leb_le 8 n)) by lia. pose proof (up8_sub n ltac:(lia)) as Hs.
    rewrite u64_id by lia. rewrite lookup_app_r, length_le_bytes by (rewrite length_le_bytes; lia).
    apply (IH (ptr + 8) (n - 8)%nat (i - 8)%nat); try lia; try done.
    rewrite Ha. replace (Z.of_nat i) with (Z.of_nat (i - 8) + 1 * 8) by lia.
    rewrite Z_div_plus_full by lia. lia.
Qed.

End MemoryFacts.

(** ** A concrete memory *)

Module FlatMemory.

Definition word_bytes (m : gmap Z byte) (a : Z) : option (list byte) :=
  mapM (fun i => m !! (a + i)) (seqZ 0 8).

#[export] Instance flat_ptrace : Ptrace (gmap Z byte) := {|
  peekdata m a := match word_bytes m a with Some bs => le_value bs | None => 2 ^ 64 - 1 end;
  pokedata m a w :=
    match word_bytes m a with
    | Some _ => list_to_map (zip ((fun i => a + i) <$> seqZ 0 8) (le_bytes 8 w)) ∪ m
    | None => m
    end;
|}.

Lemma word_bytes_Some m a :
  (forall x, a <= x < a + 8 -> is_Some (m !! x)) ->
  exists bs, word_bytes m a = Some bs /\ length bs = 8%nat
    /\ forall i, (i < 8)%nat -> bs !! i = m !! (a + Z.of_nat i).
Proof.
  intros Hm. assert (Hs : is_Some (word_bytes m a)).
  { apply mapM_is_Some. apply Forall_forall. intros i Hi. apply elem_of_seqZ in Hi. apply Hm. lia. }
  destruct Hs as [bs Hbs]. exists bs. split; [done|].
  apply mapM_Some in Hbs. split.
  - apply Forall2_length in Hbs. rewrite length_seqZ in Hbs. lia.
  - intros i Hi. destruct (lookup_lt_is_Some_2 (seqZ 0 8) i) as [z Hz]; [rewrite length_seqZ; lia|].
    destruct (Forall2_lookup_l _ _ _ _ _ Hbs Hz) as (b & Hb & Hmb).
    apply lookup_seqZ in Hz as [-> _]. by rewrite Hb, <- Hmb.
Qed.

Lemma word_bytes_None m a x : a <= x < a + 8 -> m !! x = None -> word_bytes m a = None.
Proof.
  intros Hx Hm. destruct (word_bytes m a) as [bs|] eqn:E; [|done]. exfalso.
  assert (Hs : is_Some (mapM (fun i => m !! (a + i)) (seqZ 0 8))) by (by eexists).
  apply mapM_is_Some in Hs. rewrite Forall_forall in Hs.
  destruct (Hs (x - a)) as [b Hb]; [apply elem_of_seqZ; lia|].
  replace (a + (x - a)) with x in Hb by lia. congruence.
Qed.

Lemma poke_lookup a w x :
  (list_to_map (zip ((fun i => a + i) <$> seqZ 0 8) (le_bytes 8 w)) : gmap Z byte) !! x
  = if bool_decide (a <= x < a + 8) then le_bytes 8 w !! Z.to_nat (x - a) else None.
Proof.
  set (ks := (fun i => a + i) <$> seqZ 0 8).
  assert (Hlen : length ks = length (le_bytes 8 w))
    by (unfold ks; by rewrite length_fmap, length_seqZ, length_le_bytes).
  assert (Hnd : NoDup ks) by (apply NoDup_fmap_2; [intros ? ?; lia|apply NoDup_seqZ]).
  assert (Hk : forall i, (i < 8)%nat -> ks !! i = Some (a + Z.of_nat i)).
  { intros i Hi. unfold ks. rewrite list_lookup_fmap, lookup_seqZ_lt by lia. done. }
  case_bool_decide as Hx.
  - destruct (lookup_lt_is_Some_2 (le_bytes 8 w) (Z.to_nat (x - a))) as [b Hb];
      [rewrite length_le_bytes; lia|]. rewrite Hb.
    apply elem_of_list_to_map; [by rewrite fst_zip by lia|].
    apply (list_elem_of_lookup_2 _ (Z.to_nat (x - a))).
    apply lookup_zip_Some. cbn. split; [|done]. rewrite Hk by lia. f_equal. lia.
  - apply not_elem_of_list_to_map. rewrite fst_zip by lia.
    unfold ks. rewrite list_elem_of_fmap. intros (i & -> & Hi). apply elem_of_seqZ in Hi. lia.
Qed.

#[export] Program Instance flat_ok : PtraceOk (gmap Z byte) :=
  {| byte_at := fun (m : gmap Z byte) (x : Z) => m !! x |}.
Next Obligation.
  intros m a i _ _ Hm Hi. cbn [peekdata flat_ptrace].
  destruct (word_bytes_Some m a Hm) as (bs & -> & Hl & Hb).
  rewrite <- Hb by done. by rewrite <- Hl, le_bytes_value.
Qed.
Next Obligation.
  intros m a x Hx Hn. cbn [peekdata flat_ptrace]. by rewrite (word_bytes_None m a x).
Qed.
Next Obligation.
  intros m a w x _ _ Hm. cbn [pokedata flat_ptrace].
  destruct (word_bytes_Some m a Hm) as (bs & -> & Hl & Hb).
  rewrite lookup_union, poke_lookup. case_bool_decide as Hx; [|by destruct (m !! x)].
  destruct (lookup_lt_is_Some_2 (le_bytes 8 w) (Z.to_nat (x - a))) as [b Hb'];
    [rewrite length_le_bytes; lia|]. rewrite Hb'. by destruct (m !! x).
Qed.

End FlatMemory.
Export FlatMemory.

(** ** The interface *)

#[export] Instance ptrace_runner {M} `{Ptrace M} : RunnerHandle M := {|
  run_read := read_memory;
  run_write := write_memory;
|}.

Lemma write_then_read {M} `{PtraceOk M} (ptr : Z) (data : list byte) (m : M) :
  0 <= ptr -> ptr + up8 (length data) < 2 ^ 64 -> mapped m ptr (up8 (length data)) ->
  (forall x, byte_at (write_memory ptr data m).2 x
     = if bool_decide (ptr <= x < ptr + Z.of_nat (length data))
       then data !! Z.to_nat (x - ptr) else byte_at m x)
  /\ (read_memory ptr (length data) (write_memory ptr data m).2).2 = data.
Proof.
  intros Hp Hl Hm. set (m' := (write_memory ptr data m).2).
  assert (Hw : forall x, byte_at m' x = if bool_decide (ptr <= x < ptr + Z.of_nat (length data))
                         then data !! Z.to_nat (x - ptr) else byte_at m x)
    by (intros x; apply write_loop_spec; try done; lia).
  split; [exact Hw|]. unfold read_memory. cbn [snd]. apply list_eq. intros i.
  destruct (decide (i < length data)%nat) as [Hi|Hi].
  - rewrite read_loop_spec; try lia.
    + rewrite Hw, bool_decide_eq_true_2 by lia. f_equal. lia.
    + intros x Hx. rewrite Hw. case_bool_decide; [|by apply Hm].
      apply lookup_lt_is_Some_2. lia.
  - rewrite !lookup_ge_None_2; [done|lia|]. rewrite length_read_loop; lia.
Qed.

#[export] Instance ptrace_runner_ok {M} `{PtraceOk M} : RunnerHandleOk M.
Proof.
  refine {| accessible m ptr n := 0 <= ptr /\ ptr + up8 n < 2 ^ 64 /\ mapped m ptr (up8 n) |}.
  - intros ptr n m. apply length_read_loop. lia.
  - done.
  - intros ptr data m (Hp & Hl & Hm). split; [done|]. cbn [run_read ptrace_runner].
    rewrite <- (proj2 (write_then_read ptr data m Hp Hl Hm)) at 3. done.
Defined.

(** ** Properties *)

(** C18: writes. When the 8-byte words a transfer touches are all mapped (and do
    not reach the end of the address space), [write_memory] makes exactly the
    [n] bytes of the span appear at [ptr] and leaves every other byte of the
    tracee alone, also in the last, partly overwritten word; a following
    [read_memory] of that range gives the span back. *)
Theorem memory_write_read {M} `{PtraceOk M} (ptr : Z) (data : list byte) (m : M) :
  0 <= ptr -> ptr + up8 (length data) < 2 ^ 64 -> mapped m ptr (up8 (length data)) ->
  (forall x, byte_at (write_memory ptr data m).2 x
     = if bool_decide (ptr <= x < ptr + Z.of_nat (length data))
       then data !! Z.to_nat (x - ptr) else byte_at m x)
  /\ (read_memory ptr (length data) (write_memory ptr data m).2).2 = data.
Proof.
  apply write_then_read.
Qed.

Definition zeros (a n : Z) : gmap Z byte := gset_to_gmap Byte.x00 (list_to_set (seqZ a n)).

Lemma zeros_lookup a n x : zeros a n !! x = if bool_decide (a <= x < a + n) then Some Byte.x00 else None.
Proof.
  unfold zeros. rewrite lookup_gset_to_gmap. case_bool_decide as Hx.
  - rewrite option_guard_True; [done|]. rewrite elem_of_list_to_set, elem_of_seqZ. lia.
  - rewrite option_guard_False; [done|]. rewrite elem_of_list_to_set, elem_of_seqZ. lia.
Qed.

Example memory_write_read_witness :
  (read_memory 4096 3 (write_memory 4096 [x61; x62; x63] (zeros 4096 8)).2).2 = [x61; x62; x63].
Proof.
  refine (proj2 (memory_write_read 4096 [x61; x62; x63] (zeros 4096 8) _ _ _)).
  - lia.
  - vm_compute. reflexivity.
  - intros x Hx. change (is_Some (zeros 4096 8 !! x)). rewrite zeros_lookup.
    change (up8 _) with 8 in Hx. rewrite bool_decide_eq_true_2 by exact Hx. by eexists.
Defined.

(** Failures are not reported. Both calls answer 0 whatever the tracee's
    memory is, so every [res < 0] test of a caller is dead. A word that touches
    an unmapped byte is read as 0xff bytes: in particular the mapped tail of a
    buffer that ends less than a word before the end of its mapping is lost
    although every byte that was asked for is mapped. *)
Theorem memory_errors_are_silent {M} `{PtraceOk M} (ptr : Z) (n : nat) (data : list byte) (m : M)
    (x : Z) (i : nat) :
  0 <= ptr -> ptr + up8 n < 2 ^ 64 -> (i < n)%nat ->
  ptr + 8 * (Z.of_nat i / 8) <= x < ptr + 8 * (Z.of_nat i / 8) + 8 -> byte_at m x = None ->
  (read_memory ptr n m).1 = 0
  /\ (write_memory ptr data m).1 = 0
  /\ length (read_memory ptr n m).2 = n
  /\ (read_memory ptr n m).2 !! i = Some Byte.xff.
Proof.
  intros Hp Hl Hi Hx Hm. split; [done|]. split; [done|].
  split; [apply length_read_loop; lia|].
  eapply (read_loop_unmapped _ _ _ _ _ x); try done; lia.
Qed.

(** Three bytes at the end of a page: all mapped, all read as 0xff. *)
Example memory_errors_are_silent_witness :
  (read_memory 8189 3 (zeros 4096 4096)).2 !! 0%nat = Some Byte.xff
  /\ is_Some (zeros 4096 4096 !! 8189).
Proof.
  split; [|rewrite zeros_lookup; by eexists].
  refine (proj2 (proj2 (proj2
    (memory_errors_are_silent 8189 3 [] (zeros 4096 4096) 8192 0%nat _ _ _ _ _)))).
  - lia.
  - vm_compute. reflexivity.
  - lia.
  - change (8189 <= 8192 < 8197). lia.
  - change (zeros 4096 4096 !! 8192 = None). by rewrite zeros_lookup.
Defined.
