(* ===== verification/Syscalls.v ===== *)
(** * System call names (src/hook/syscalls.cpp)

    [syscall_name] is one switch.  Its cases are kept as they are written, in
    five runs; the function takes the first row whose label is the number. *)

From S2P Require Import Prelude Words.

Module Syscalls.

Definition cases_0 : list (Z * string) := [
  (0, "read"); (1, "write"); (2, "open"); (3, "close"); (4, "stat"); (5, "fstat");
  (6, "lstat"); (7, "poll"); (8, "lseek"); (9, "mmap"); (10, "mprotect"); (11, "munmap");
  (12, "brk"); (13, "rt_sigaction"); (14, "rt_sigprocmask"); (15, "rt_sigreturn");
  (16, "ioctl"); (17, "pread64"); (18, "pwrite64"); (19, "readv"); (20, "writev");
  (21, "access"); (22, "pipe"); (23, "select"); (24, "sched_yield"); (25, "mremap");
  (26, "msync"); (27, "mincore"); (28, "madvise"); (29, "shmget"); (30, "shmat");
  (31, "shmctl"); (32, "dup"); (33, "dup2"); (34, "pause"); (35, "nanosleep");
  (36, "getitimer"); (37, "alarm"); (38, "setitimer"); (39, "getpid"); (40, "sendfile");
  (41, "socket"); (42, "connect"); (43, "accept"); (44, "sendto"); (45, "recvfrom");
  (46, "sendmsg"); (47, "recvmsg"); (48, "shutdown"); (49, "bind"); (50, "listen");
  (51, "getsockname"); (52, "getpeername"); (53, "socketpair"); (54, "setsockopt");
  (55, "getsockopt"); (56, "clone"); (57, "fork"); (58, "vfork"); (59, "execve");
  (60, "exit"); (61, "wait4"); (62, "kill"); (63, "uname"); (64, "semget"); (65, "semop");
  (66, "semctl"); (67, "shmdt"); (68, "msgget"); (69, "msgsnd"); (70, "msgrcv");
  (71, "msgctl"); (72, "fcntl"); (73, "flock"); (74, "fsync")].

Definition cases_1 : list (Z * string) := [
  (75, "fdatasync"); (76, "truncate"); (77, "ftruncate"); (78, "getdents"); (79, "getcwd");
  (80, "chdir"); (81, "fchdir"); (82, "rename"); (83, "mkdir"); (84, "rmdir");
  (85, "creat"); (86, "link"); (87, "unlink"); (88, "symlink"); (89, "readlink");
  (90, "chmod"); (91, "fchmod"); (92, "chown"); (93, "fchown"); (94, "lchown");
  (95, "umask"); (96, "gettimeofday"); (97, "getrlimit"); (98, "getrusage");
  (99, "sysinfo"); (100, "times"); (101, "ptrace"); (102, "getuid"); (103, "syslog");
  (104, "getgid"); (105, "setuid"); (106, "setgid"); (107, "geteuid"); (108, "getegid");
  (109, "setpgid"); (110, "getppid"); (111, "getpgrp"); (112, "setsid"); (113, "setreuid");
  (114, "setregid"); (115, "getgroups"); (116, "setgroups"); (117, "setresuid");
  (118, "getresuid"); (119, "setresgid"); (120, "getresgid"); (121, "getpgid");
  (122, "setfsuid"); (123, "setfsgid"); (124, "getsid"); (125, "capget"); (126, "capset");
  (127, "rt_sigpending"); (128, "rt_sigtimedwait"); (129, "rt_sigqueueinfo");
  (130, "rt_sigsuspend"); (131, "sigaltstack"); (132, "utime"); (133, "mknod");
  (134, "uselib"); (135, "personality"); (136, "ustat"); (137, "statfs"); (138, "fstatfs");
  (139, "sysfs"); (140, "getpriority"); (141, "setpriority"); (142, "sched_setparam");
  (143, "sched_getparam"); (144, "sched_setscheduler"); (145, "sched_getscheduler");
  (146, "sched_get_priority_max"); (147, "sched_get_priority_min");
  (148, "sched_rr_get_interval"); (149, "mlock")].

Definition cases_2 : list (Z * string) := [
  (150, "munlock"); (151, "mlockall"); (152, "munlockall"); (153, "vhangup");
  (154, "modify_ldt"); (155, "pivot_root"); (156, "_sysctl"); (157, "prctl");
  (158, "arch_prctl"); (159, "adjtimex"); (160, "setrlimit"); (161, "chroot");
  (162, "sync"); (163, "acct"); (164, "settimeofday"); (165, "mount"); (166, "umount2");
  (167, "swapon"); (168, "swapoff"); (169, "reboot"); (170, "sethostname");
  (171, "setdomainname"); (172, "iopl"); (173, "ioperm"); (174, "create_module");
  (175, "init_module"); (176, "delete_module"); (177, "get_kernel_syms");
  (178, "query_module"); (179, "quotactl"); (180, "nfsservctl"); (181, "getpmsg");
  (182, "putpmsg"); (183, "afs_syscall"); (184, "tuxcall"); (185, "security");
  (186, "gettid"); (187, "readahead"); (188, "setxattr"); (189, "lsetxattr");
  (190, "fsetxattr"); (191, "getxattr"); (192, "lgetxattr"); (193, "fgetxattr");
  (194, "listxattr"); (195, "llistxattr"); (196, "flistxattr"); (197, "removexattr");
  (198, "lremovexattr"); (199, "fremovexattr"); (200, "tkill"); (201, "time");
  (202, "futex"); (203, "sched_setaffinity"); (204, "sched_getaffinity");
  (205, "set_thread_area"); (206, "io_setup"); (207, "io_destroy"); (208, "io_getevents");
  (209, "io_submit"); (210, "io_cancel"); (211, "get_thread_area");
  (212, "lookup_dcookie"); (213, "epoll_create"); (214, "epoll_ctl_old");
  (215, "epoll_wait_old"); (216, "remap_file_pages"); (217, "getdents64");
  (218, "set_tid_address"); (219, "restart_syscall"); (220, "semtimedop");
  (221, "fadvise64"); (222, "timer_create"); (223, "timer_settime"); (224, "timer_gettime")].

Definition cases_3 : list (Z * string) := [
  (225, "timer_getoverrun"); (226, "timer_delete"); (227, "clock_settime");
  (228, "clock_gettime"); (229, "clock_getres"); (230, "clock_nanosleep");
  (231, "exit_group"); (232, "epoll_wait"); (233, "epoll_ctl"); (234, "tgkill");
  (235, "utimes"); (236, "vserver"); (237, "mbind"); (238, "set_mempolicy");
  (239, "get_mempolicy"); (240, "mq_open"); (241, "mq_unlink"); (242, "mq_timedsend");
  (243, "mq_timedreceive"); (244, "mq_notify"); (245, "mq_getsetattr");
  (246, "kexec_load"); (247, "waitid"); (248, "add_key"); (249, "request_key");
  (250, "keyctl"); (251, "ioprio_set"); (252, "ioprio_get"); (253, "inotify_init");
  (254, "inotify_add_watch"); (255, "inotify_rm_watch"); (256, "migrate_pages");
  (257, "openat"); (258, "mkdirat"); (259, "mknodat"); (260, "fchownat");
  (261, "futimesat"); (262, "newfstatat"); (263, "unlinkat"); (264, "renameat");
  (265, "linkat"); (266, "symlinkat"); (267, "readlinkat"); (268, "fchmodat");
  (269, "faccessat"); (270, "pselect6"); (271, "ppoll"); (272, "unshare");
  (273, "set_robust_list"); (274, "get_robust_list"); (275, "splice"); (276, "tee");
  (277, "sync_file_range"); (278, "vmsplice"); (279, "move_pages"); (280, "utimensat");
  (281, "epoll_pwait"); (282, "signalfd"); (283, "timerfd_create"); (284, "eventfd");
  (285, "fallocate"); (286, "timerfd_settime"); (287, "timerfd_gettime"); (288, "accept4");
  (289, "signalfd4"); (290, "eventfd2"); (291, "epoll_create1"); (292, "dup3");
  (293, "pipe2"); (294, "inotify_init1"); (295, "preadv"); (296, "pwritev");
  (297, "rt_tgsigqueueinfo"); (298, "perf_event_open"); (299, "recvmmsg")].

Definition cases_4 : list (Z * string) := [
  (300, "fanotify_init"); (301, "fanotify_mark"); (302, "prlimit64");
  (303, "name_to_handle_at"); (304, "open_by_handle_at"); (305, "clock_adjtime");
  (306, "syncfs"); (307, "sendmmsg"); (308, "setns"); (309, "getcpu");
  (310, "process_vm_readv"); (311, "process_vm_writev"); (312, "kcmp");
  (313, "finit_module"); (314, "sched_setattr"); (315, "sched_getattr");
  (316, "renameat2"); (317, "seccomp"); (318, "getrandom"); (319, "memfd_create");
  (320, "kexec_file_load"); (321, "bpf"); (322, "execveat"); (323, "userfaultfd");
  (324, "membarrier"); (325, "mlock2"); (326, "copy_file_range"); (327, "preadv2");
  (328, "pwritev2"); (329, "pkey_mprotect"); (330, "pkey_alloc"); (331, "pkey_free");
  (332, "statx"); (333, "io_pgetevents"); (334, "rseq"); (424, "pidfd_send_signal");
  (425, "io_uring_setup"); (426, "io_uring_enter"); (427, "io_uring_register");
  (428, "open_tree"); (429, "move_mount"); (430, "fsopen"); (431, "fsconfig");
  (432, "fsmount"); (433, "fspick"); (434, "pidfd_open"); (435, "clone3")].

Definition cases : list (Z * string) := cases_0 ++ cases_1 ++ cases_2 ++ cases_3 ++ cases_4.

Fixpoint switch (num : Z) (rows : list (Z * string)) : string :=
  match rows with
  | [] => ""
  | (n, s) :: rows => if num =? n then s else switch num rows
  end.

Definition syscall_name (num : Z) : string := switch num cases.

(** The caller [get_hook] holds a [uint64_t]; the call converts it to [int]. *)
Definition syscall_name_u64 (sys : Z) : string := syscall_name (i32 sys).

End Syscalls.

(** ** Lemmas *)

Module SyscallFacts.
Import Syscalls.

Lemma switch_case rows n s : NoDup rows.*1 -> (n, s) ∈ rows -> switch n rows = s.
Proof.
  induction rows as [|[k t] rows IH]; cbn; intros Hnd Hin; [by apply not_elem_of_nil in Hin|].
  apply NoDup_cons in Hnd as [Hk Hnd]. apply elem_of_cons in Hin as [[= -> ->]|Hin].
  - by rewrite Z.eqb_refl.
  - destruct (n =? k) eqn:E; [|by apply IH]. apply Z.eqb_eq in E as ->.
    destruct Hk. by apply (list_elem_of_fmap_2 fst) in Hin.
Qed.

Lemma switch_found rows n : switch n rows <> "" -> (n, switch n rows) ∈ rows.
Proof.
  induction rows as [|[k t] rows IH]; cbn; [done|]. destruct (n =? k) eqn:E.
  - apply Z.eqb_eq in E as ->. left.
  - intros ?. right. by apply IH.
Qed.

Lemma labels_NoDup : NoDup cases.*1.
Proof. refine (bool_decide_unpack _ _). vm_compute. exact I. Qed.
Lemma names_NoDup : NoDup cases.*2.
Proof. refine (bool_decide_unpack _ _). vm_compute. exact I. Qed.
Lemma labels_are : cases.*1 = seqZ 0 335 ++ seqZ 424 12.
Proof. refine (bool_decide_unpack _ _). vm_compute. exact I. Qed.
Lemma names_not_empty : "" ∉ cases.*2.
Proof. refine (bool_decide_unpack _ _). vm_compute. exact I. Qed.

Lemma NoDup_snd_inj {A B} (l : list (A * B)) a b c : NoDup l.*2 -> (a, c) ∈ l -> (b, c) ∈ l -> a = b.
Proof.
  induction l as [|[x y] l IH]; cbn; intros Hnd Ha Hb; [by apply not_elem_of_nil in Ha|].
  apply NoDup_cons in Hnd as [Hy Hnd].
  apply elem_of_cons in Ha as [[= -> ->]|Ha]; apply elem_of_cons in Hb as [[= ->]|Hb]; subst; try done.
  - destruct Hy. by apply (list_elem_of_fmap_2 snd) in Hb.
  - destruct Hy. by apply (list_elem_of_fmap_2 snd) in Ha.
  - by apply IH.
Qed.

Lemma syscall_name_inj n m : syscall_name n = syscall_name m -> syscall_name n <> "" -> n = m.
Proof.
  intros He Hs. pose proof Hs as Hs'. rewrite He in Hs'.
  pose proof (switch_found _ _ Hs) as Hn. pose proof (switch_found _ _ Hs') as Hm.
  fold (syscall_name n) in Hn. fold (syscall_name m) in Hm. rewrite <- He in Hm.
  eapply NoDup_snd_inj; [apply names_NoDup|exact Hn|exact Hm].
Qed.

End SyscallFacts.
Import SyscallFacts.

(** The table is a proper naming. The numbers with a name are exactly
    0-334 and 424-435, each case of the switch is the one that answers for its
    label (no label occurs twice), and two numbers share a name only if both
    have none. The statistics call it with a 64-bit number that is cut to
    [int], so numbers that differ by a multiple of 2^32 share a name. *)
Theorem syscall_name_unique (n m : Z) :
  (Syscalls.syscall_name n <> "" <-> 0 <= n <= 334 \/ 424 <= n <= 435)
  /\ (forall s, (n, s) ∈ Syscalls.cases -> Syscalls.syscall_name n = s)
  /\ (Syscalls.syscall_name n = Syscalls.syscall_name m -> Syscalls.syscall_name n <> "" -> n = m)
  /\ Syscalls.syscall_name_u64 (n + 2 ^ 32 * m) = Syscalls.syscall_name_u64 n.
Proof.
  assert (Hl : n ∈ Syscalls.cases.*1 <-> 0 <= n <= 334 \/ 424 <= n <= 435).
  { rewrite labels_are, elem_of_app, !elem_of_seqZ. lia. }
  assert (Hc : forall s, (n, s) ∈ Syscalls.cases -> Syscalls.syscall_name n = s)
    by (intros s; apply switch_case, labels_NoDup).
  split; [|split; [exact Hc|split]].
  - rewrite <- Hl. split.
    + intros Hs. apply switch_found in Hs. by apply (list_elem_of_fmap_2 fst) in Hs.
    + intros Hn. apply list_elem_of_fmap in Hn as ([k s] & -> & Hn). cbn in *.
      rewrite (Hc s Hn). intros ->. apply names_not_empty.
      by apply (list_elem_of_fmap_2 snd) in Hn.
  - apply syscall_name_inj.
  - unfold Syscalls.syscall_name_u64. f_equal. unfold i32.
    replace (n + 2 ^ 32 * m + 2 ^ 31) with (n + 2 ^ 31 + m * 2 ^ 32) by lia.
    by rewrite Z_mod_plus_full.
Qed.

Example syscall_name_unique_witness :
  Syscalls.syscall_name 1 = "write" /\ 424 = 424.
Proof.
  split.
  - apply (proj1 (proj2 (syscall_name_unique 1 1)) "write").
    refine (bool_decide_unpack _ _). vm_compute. exact I.
  - apply (proj1 (proj2 (proj2 (syscall_name_unique 424 424)))); [reflexivity|].
    vm_compute. discriminate.
Defined.
