(* ===== verification/HookTable.v ===== *)
(** * The hook table: src/hook/hook.hpp, src/hook/hook.cpp

    Results of a hook, the table from system call numbers to hooks with the
    way it is built, and the statistics [get_hook] keeps.  A function pointer
    is an enumeration constant here; the hooks themselves are in Hooks.v. *)

From stdpp Require Import sorting.
From S2P Require Import Prelude Words Syscalls.

(** ** Hook results *)

Inductive hook_result :=
| Passthrough
| Handled (v : Z).          (* the [uint64_t] for rax *)

#[export] Instance hook_result_eq_dec : EqDecision hook_result.
Proof. solve_decision. Defined.

Definition passthrough : hook_result := Passthrough.
(** [handled{int64_t}] *)
Definition handled (v : Z) : hook_result := Handled (u64 v).
(** The constructor from [error]. *)
Definition error `{Build} (cerrno : Z) : outcome hook_result :=
  _ ← assert_ (0 <=? cerrno); Ret (Handled (u64 (- cerrno))).

(** ** System call numbers of <sys/syscall.h>, x86-64 *)

Definition SYS_read := 0.
Definition SYS_write := 1.
Definition SYS_close := 3.
Definition SYS_mmap := 9.
Definition SYS_mprotect := 10.
Definition SYS_munmap := 11.
Definition SYS_brk := 12.
Definition SYS_rt_sigaction := 13.
Definition SYS_rt_sigprocmask := 14.
Definition SYS_socket := 41.
Definition SYS_connect := 42.
Definition SYS_sendto := 44.
Definition SYS_recvfrom := 45.
Definition SYS_bind := 49.
Definition SYS_exit := 60.
Definition SYS_arch_prctl := 158.
Definition SYS_gettid := 186.
Definition SYS_set_tid_address := 218.
Definition SYS_clock_gettime := 228.
Definition SYS_clock_nanosleep := 230.
Definition SYS_exit_group := 231.
Definition SYS_set_robust_list := 273.
Definition SYS_prlimit64 := 302.

(** ** The table *)

(** The functions a table entry can point to. *)
Inductive hook :=
| sys_write | sys_read | sys_close | sys_socket | sys_sendto | sys_recvfrom
| sys_connect | sys_bind | sys_clock_gettime | sys_clock_nanosleep
| explicit_passthrough.

#[export] Instance hook_eq_dec : EqDecision hook.
Proof. solve_decision. Defined.

Definition passthroughs : list Z :=
  [SYS_exit; SYS_exit_group; SYS_mmap; SYS_mprotect; SYS_munmap; SYS_rt_sigaction;
   SYS_set_tid_address; SYS_set_robust_list; SYS_rt_sigprocmask; SYS_prlimit64;
   SYS_brk; SYS_arch_prctl].

Section Build.
(** Whether the allocator can provide that many entries. *)
Variable alloc : Z -> bool.

(** [std::vector<hook>::resize(n, nullptr)]: [max_size] is 2^63-1 bytes. *)
Definition resize (n : Z) (t : list (option hook)) : outcome (list (option hook)) :=
  if n <=? Z.of_nat (length t) then Ret (take (Z.to_nat n) t)
  else if 2 ^ 60 - 1 <? n then Throw length_error
  else if alloc n then Ret (t ++ replicate (Z.to_nat n - length t) None)
  else Throw bad_alloc.

Definition hook_map : list (Z * hook) :=
  [(SYS_write, sys_write); (SYS_read, sys_read); (SYS_close, sys_close);
   (SYS_socket, sys_socket); (SYS_sendto, sys_sendto); (SYS_recvfrom, sys_recvfrom);
   (SYS_connect, sys_connect); (SYS_bind, sys_bind);
   (SYS_clock_gettime, sys_clock_gettime); (SYS_clock_nanosleep, sys_clock_nanosleep)]
  ++ ((fun p => (p, explicit_passthrough)) <$> passthroughs).

(** [std::max(map.begin(), map.end(), ...)] compares the two iterators: the
    first pair with what lies behind the last one, whose key is [garbage]. *)
Definition max_sysno (garbage : Z) : Z := if SYS_write <? garbage then garbage else SYS_write.

(** The [for] loop over [map]. *)
Fixpoint fill (map : list (Z * hook)) (table : list (option hook)) : outcome (list (option hook)) :=
  match map with
  | [] => Ret table
  | (sys, h) :: map =>
      table ← (if Z.of_nat (length table) <=? sys then resize (sys + 1) table else Ret table);
      if Z.of_nat (length table) <=? sys then Throw out_of_range
      else fill map (<[Z.to_nat sys := Some h]> table)
  end.

Definition build_hook_table (garbage : Z) : outcome (list (option hook)) :=
  table ← resize (u64 (max_sysno garbage + 1)) [];
  fill hook_map table.

End Build.

(** ** Looking up a hook *)

Record stats := {
  unimplemented : gset string;
  all : gset string;
  passthrough_set : gset string;
  implemented : gset string;
}.
Definition no_stats : stats :=
  {| unimplemented := ∅; all := ∅; passthrough_set := ∅; implemented := ∅ |}.

(** [table[sys]] behind the size test. *)
Definition table_get (table : list (option hook)) (sys : Z) : option hook :=
  if sys <? Z.of_nat (length table) then table !! Z.to_nat sys ≫= id else None.

Definition get_hook (table : list (option hook)) (sys : Z) (st : stats) : option hook * stats :=
  let name := Syscalls.syscall_name_u64 sys in
  let all := {[name]} ∪ all st in
  let h := table_get table sys in
  (h, match h with
      | Some explicit_passthrough =>
          {| unimplemented := unimplemented st; all := all;
             passthrough_set := {[name]} ∪ passthrough_set st; implemented := implemented st |}
      | None =>
          {| unimplemented := {[name]} ∪ unimplemented st; all := all;
             passthrough_set := passthrough_set st; implemented := implemented st |}
      | Some _ =>
          {| unimplemented := unimplemented st; all := all;
             passthrough_set := passthrough_set st; implemented := {[name]} ∪ implemented st |}
      end).

Fixpoint get_hooks (table : list (option hook)) (syss : list Z) (st : stats) : stats :=
  match syss with
  | [] => st
  | sys :: syss => get_hooks table syss (get_hook table sys st).2
  end.

(** A [std::set<std::string_view>] is walked in the order of [operator<], which
    compares unsigned bytes. *)
Definition in_order (names : gset string) : list string :=
  merge_sort String.le (elements names).

(** [fmt::println("\t{}", sys)] *)
Definition tabbed (name : string) : string := String (Ascii.ascii_of_nat 9) name.

(** The lines [print_stats] prints. *)
Definition print_stats (st : stats) : list string :=
  ["passthrough:"] ++ (tabbed <$> in_order (passthrough_set st))
  ++ ["implemented:"] ++ (tabbed <$> in_order (implemented st))
  ++ ["unimplemented:"] ++ (tabbed <$> in_order (unimplemented st)).

(** ** Specification: which call has which hook *)

Definition registered (sys : Z) : option hook :=
  snd <$> find (fun '(n, _) => n =? sys) hook_map.

(** The name a hook is written under, to compare with the call's name. *)
Definition hook_name (h : hook) : string :=
  match h with
  | sys_write => "write" | sys_read => "read" | sys_close => "close" | sys_socket => "socket"
  | sys_sendto => "sendto" | sys_recvfrom => "recvfrom" | sys_connect => "connect"
  | sys_bind => "bind" | sys_clock_gettime => "clock_gettime"
  | sys_clock_nanosleep => "clock_nanosleep" | explicit_passthrough => ""
  end.

(** ** Lemmas *)

Section TableFacts.
Variable alloc : Z -> bool.
Implicit Types (t : list (option hook)) (map : list (Z * hook)).

Definition assoc map (sys : Z) : option hook := snd <$> find (fun '(n, _) => n =? sys) map.

Lemma assoc_cons n h map sys : assoc ((n, h) :: map) sys = if n =? sys then Some h else assoc map sys.
Proof. unfold assoc. cbn. by destruct (n =? sys). Qed.

Lemma assoc_None map sys : sys ∉ map.*1 -> assoc map sys = None.
Proof.
  induction map as [|[n h] map IH]; intros Hs; [done|]. rewrite assoc_cons.
  apply not_elem_of_cons in Hs as [Hne Hs]. cbn in Hne.
  rewrite (proj2 (Z.eqb_neq _ _)) by congruence. by apply IH.
Qed.

Lemma table_get_lookup t sys : 0 <= sys -> table_get t sys = t !! Z.to_nat sys ≫= id.
Proof.
  intros Hs. unfold table_get. destruct (Z.ltb_spec sys (Z.of_nat (length t))); [done|].
  by rewrite lookup_ge_None_2 by lia.
Qed.

Lemma resize_spec n t t' sys :
  Z.of_nat (length t) <= n -> resize alloc n t = Ret t' -> 0 <= sys ->
  table_get t' sys = table_get t sys /\ Z.of_nat (length t') = n.
Proof.
  intros Hn Hr Hs. rewrite !table_get_lookup by done. unfold resize in Hr.
  destruct (Z.leb_spec n (Z.of_nat (length t))).
  { injection Hr as <-. rewrite take_ge by lia. split; [done|lia]. }
  destruct (2 ^ 60 - 1 <? n); [done|]. destruct (alloc n); [|done]. injection Hr as <-.
  split; [|rewrite length_app, length_replicate; lia].
  destruct (decide (Z.to_nat sys < length t)%nat).
  - by rewrite lookup_app_l by lia.
  - rewrite lookup_app_r, (lookup_ge_None_2 t) by lia.
    destruct (replicate _ _ !! _) eqn:E; [|done]. by apply lookup_replicate in E as [-> _].
Qed.

Lemma fill_spec map t t' sys :
  NoDup map.*1 -> Forall (fun '(n, _) => 0 <= n) map -> 0 <= sys -> fill alloc map t = Ret t' ->
  table_get t' sys = (match assoc map sys with Some h => Some h | None => table_get t sys end).
Proof.
  revert t. induction map as [|[n h] map IH]; intros t Hnd Hpos Hs Hf; cbn [fill] in Hf.
  { by injection Hf as <-. }
  apply NoDup_cons in Hnd as [Hn Hnd]. apply Forall_cons in Hpos as [Hn0 Hpos].
  apply bind_Ret_inv in Hf as (t1 & Ht1 & Hf).
  assert (Hg : table_get t1 sys = table_get t sys).
  { destruct (Z.leb_spec (Z.of_nat (length t)) n).
    - eapply resize_spec in Ht1 as [? _]; [eassumption| |]; lia.
    - by injection Ht1 as <-. }
  destruct (Z.leb_spec (Z.of_nat (length t1)) n); [done|].
  rewrite (IH _ Hnd Hpos Hs Hf), assoc_cons. destruct (Z.eqb_spec n sys) as [->|Hne].
  - rewrite (assoc_None map sys Hn), table_get_lookup by done.
    rewrite list_lookup_insert_eq by lia. done.
  - destruct (assoc map sys); [done|]. rewrite <- Hg, !table_get_lookup by done.
    rewrite list_lookup_insert_ne by lia. done.
Qed.

(** The construction succeeds when the first [resize] and later growth do. *)
Lemma fill_total map t :
  Forall (fun '(n, _) => 0 <= n < 2 ^ 60 - 1 /\ alloc (n + 1) = true) map ->
  exists t', fill alloc map t = Ret t'.
Proof.
  revert t. induction map as [|[n h] map IH]; intros t Hpos; [by eexists|].
  apply Forall_cons in Hpos as [[Hn Ha] Hpos]. cbn [fill].
  destruct (Z.leb_spec (Z.of_nat (length t)) n).
  - unfold resize. rewrite (proj2 (Z.leb_gt _ _)), (proj2 (Z.ltb_ge _ _)), Ha by lia.
    cbn [mbind outcome_bind]. rewrite (proj2 (Z.leb_gt _ _)); [by apply IH|].
    rewrite length_app, length_replicate. lia.
  - cbn [mbind outcome_bind]. rewrite (proj2 (Z.leb_gt _ _)) by lia. by apply IH.
Qed.

End TableFacts.

Lemma hook_map_keys : NoDup hook_map.*1.
Proof. refine (bool_decide_unpack _ _). vm_compute. exact I. Qed.
Lemma hook_map_small : Forall (fun '(n, _) => 0 <= n <= 302) hook_map.
Proof. repeat constructor; discriminate. Qed.

(** ** Lemmas on the statistics *)

Definition is_implemented (h : option hook) : bool :=
  match h with Some explicit_passthrough | None => false | Some _ => true end.

Definition is_passthrough (h : option hook) : bool :=
  match h with Some explicit_passthrough => true | _ => false end.
Definition is_null (h : option hook) : bool := match h with None => true | Some _ => false end.

(** The names of the numbers of a list whose hook satisfies [P]. *)
Definition names_of (table : list (option hook)) (P : option hook -> bool) (syss : list Z) : gset string :=
  list_to_set (Syscalls.syscall_name_u64 <$> filter (fun s => P (table_get table s) = true) syss).

Lemma names_of_cons table P s syss :
  names_of table P (s :: syss)
  = (if P (table_get table s) then {[Syscalls.syscall_name_u64 s]} else ∅) ∪ names_of table P syss.
Proof.
  unfold names_of. rewrite filter_cons. destruct (P (table_get table s)) eqn:E.
  - by rewrite decide_True by done.
  - rewrite decide_False by congruence. by rewrite (left_id_L ∅ _).
Qed.

Lemma union_swap (A B C : gset string) : A ∪ (B ∪ C) = (B ∪ A) ∪ C.
Proof. by rewrite (assoc_L (∪)), (comm_L (∪) A B). Qed.

Lemma get_hooks_spec table syss st :
  let st' := get_hooks table syss st in
  all st' = names_of table (fun _ => true) syss ∪ all st
  /\ passthrough_set st' = names_of table is_passthrough syss
       ∪ passthrough_set st
  /\ unimplemented st' = names_of table is_null syss ∪ unimplemented st
  /\ implemented st' = names_of table is_implemented syss ∪ implemented st.
Proof.
  revert st. induction syss as [|s syss IH]; intros st; cbn [get_hooks].
  { unfold names_of. cbn. by rewrite !(left_id_L ∅ _). }
  destruct (IH (get_hook table s st).2) as (-> & -> & -> & ->).
  rewrite !names_of_cons. unfold get_hook. cbn [fst snd].
  destruct (table_get table s) as [[]|]; cbn [is_implemented is_passthrough is_null all
    passthrough_set implemented unimplemented];
    rewrite ?(union_swap _ {[_]}), ?(left_id_L ∅ (∪)); done.
Qed.

Lemma in_order_spec X : StronglySorted String.le (in_order X) /\ NoDup (in_order X)
  /\ forall x, x ∈ in_order X <-> x ∈ X.
Proof.
  unfold in_order. pose proof (merge_sort_Permutation String.le (elements X)) as Hp.
  split; [apply StronglySorted_merge_sort; apply _|split; [by rewrite Hp; apply NoDup_elements|]].
  intros x. by rewrite Hp, elem_of_elements.
Qed.

(** A table that was built answers as registered. *)
Lemma table_registered alloc garbage table sys :
  is_u64 garbage -> build_hook_table alloc garbage = Ret table -> is_u64 sys ->
  table_get table sys = registered sys.
Proof.
  intros Hg Hb Hs. unfold build_hook_table in Hb.
  apply bind_Ret_inv in Hb as (t & Ht & Hf).
  assert (Hp : Forall (fun '(n, _) => 0 <= n) hook_map)
    by (eapply Forall_impl; [apply hook_map_small|intros []; cbn; lia]).
  rewrite (fill_spec _ _ _ _ _ hook_map_keys Hp (proj1 Hs) Hf).
  unfold registered. fold (assoc hook_map sys). destruct (assoc hook_map sys); [done|].
  eapply resize_spec in Ht as [-> _]; [by rewrite table_get_lookup by lia|cbn; apply u64_range|lia].
Qed.

(** * Properties *)

(** C20: the table. Whatever key lies behind the end of [map] (the code
    compares with it by mistake), a table that is built maps every number to
    the hook registered for it and to null otherwise: the garbage only decides
    the table's length, hence whether the construction throws. Every
    registered hook stands at the number whose name it has. *)
Theorem hook_table_content (alloc : Z -> bool) (garbage : Z) :
  is_u64 garbage ->
  (forall table, build_hook_table alloc garbage = Ret table ->
     forall sys, is_u64 sys -> table_get table sys = registered sys)
  /\ (forall sys h, registered sys = Some h -> h = explicit_passthrough
        \/ Syscalls.syscall_name sys = hook_name h)
  /\ ((forall n, 0 <= n <= 303 -> alloc n = true) ->
      returns (build_hook_table alloc garbage) = true
      <-> let n := u64 (max_sysno garbage + 1) in n < 2 ^ 60 /\ (n <> 0 -> alloc n = true)).
Proof.
  intros Hg. split; [|split].
  - intros table Hb sys Hs. eapply table_registered; [exact Hg|exact Hb|exact Hs].
  - intros sys h Hr. unfold registered in Hr. apply fmap_Some in Hr as ([n h'] & Hf & ->).
    apply List.find_some in Hf as [Hin Heq]. apply Z.eqb_eq in Heq as ->.
    apply list_elem_of_In in Hin. cbn [snd].
    repeat (apply elem_of_cons in Hin as [[= -> ->]|Hin]; [by (left + right)|]).
    by apply not_elem_of_nil in Hin.
  - intros Ha. cbn zeta. unfold build_hook_table.
    set (n := u64 (max_sysno garbage + 1)). pose proof (u64_range (max_sysno garbage + 1)) as Hn.
    fold n in Hn. unfold resize at 1. cbn [length].
    assert (Htot : forall t, exists t', fill alloc hook_map t = Ret t').
    { intros t. apply fill_total. eapply Forall_impl; [apply hook_map_small|].
      intros []; cbn. intros ?. split; [lia|]. apply Ha. lia. }
    destruct (Z.leb_spec n (Z.of_nat 0)).
    { assert (n = 0) as -> by lia. cbn [mbind outcome_bind].
      destruct (Htot (take (Z.to_nat 0) [])) as [t' ->]. split; [lia|done]. }
    destruct (Z.ltb_spec (2 ^ 60 - 1) n); [cbn; split; [done|lia]|].
    destruct (alloc n) eqn:E; cbn [mbind outcome_bind].
    + destruct (Htot ([] ++ replicate (Z.to_nat n - 0) None)) as [t' ->]. split; [lia|done].
    + cbn. split; [done|]. intros [_ Hc]. discriminate Hc. lia.
Qed.

Example hook_table_content_witness :
  returns (build_hook_table (fun _ => true) 0) = true.
Proof.
  refine (proj2 (proj2 (proj2 (hook_table_content (fun _ => true) 0 _)) _) _).
  - by split.
  - done.
  - by split.
Defined.

(** The statistics. After any sequence of calls of [get_hook] each of the
    three sets holds exactly the names of the calls seen with that outcome,
    and [all] is their union. As long as the numbers fit in an [int] and are
    named, a name is in one set only; the hook found never depends on the
    history. [print_stats] prints each name of the three sets on one line of
    its block, in ascending order. *)
Theorem get_hook_statistics (table : list (option hook)) (syss : list Z) (sys : Z) (st : stats) :
  Forall (fun s => 0 <= s < 2 ^ 31 /\ Syscalls.syscall_name s <> "") syss ->
  let st' := get_hooks table syss no_stats in
  all st' = passthrough_set st' ∪ implemented st' ∪ unimplemented st'
  /\ (forall x, x ∈ implemented st' <->
        exists s, s ∈ syss /\ Syscalls.syscall_name s = x /\ is_implemented (table_get table s) = true)
  /\ passthrough_set st' ## implemented st'
  /\ passthrough_set st' ## unimplemented st'
  /\ implemented st' ## unimplemented st'
  /\ (get_hook table sys st).1 = (get_hook table sys no_stats).1
  /\ exists P I U : list string,
       print_stats st' = "passthrough:" :: (tabbed <$> P) ++ "implemented:" :: (tabbed <$> I)
                           ++ "unimplemented:" :: (tabbed <$> U)
       /\ Forall (fun l => StronglySorted String.le l /\ NoDup l) [P; I; U]
       /\ forall x, (x ∈ P <-> x ∈ passthrough_set st') /\ (x ∈ I <-> x ∈ implemented st')
                    /\ (x ∈ U <-> x ∈ unimplemented st').
Proof.
  intros Hs. cbn zeta. destruct (get_hooks_spec table syss no_stats) as (Ha & Hp & Hu & Hi).
  rewrite Ha, Hp, Hu, Hi. cbn [all passthrough_set unimplemented implemented no_stats].
  rewrite !(right_id_L ∅ (∪)).
  assert (Hel : forall P x, x ∈ names_of table P syss <->
    exists s, s ∈ syss /\ Syscalls.syscall_name s = x /\ P (table_get table s) = true).
  { intros P x. unfold names_of. rewrite elem_of_list_to_set, list_elem_of_fmap.
    assert (Hnm : forall s, s ∈ syss -> Syscalls.syscall_name_u64 s = Syscalls.syscall_name s).
    { intros s Hin. eapply Forall_forall in Hs; [|exact Hin].
      unfold Syscalls.syscall_name_u64. by rewrite i32_id by lia. }
    split; [intros (s & -> & [? ?]%list_elem_of_filter)|intros (s & Hin & <- & HP)]; exists s.
    - by rewrite Hnm.
    - rewrite Hnm by done. split; [done|]. by apply list_elem_of_filter. }
  assert (Hdisj : forall P Q, (forall h, P h = true -> Q h = true -> False) ->
    names_of table P syss ## names_of table Q syss).
  { intros P Q Hpq x (s & Hin & Hx & HP)%Hel (s' & Hin' & Hx' & HQ)%Hel.
    assert (s = s') as <-; [|by eapply Hpq].
    eapply Forall_forall in Hs; [|exact Hin]. destruct Hs as [_ Hne].
    apply SyscallFacts.syscall_name_inj; [congruence|done]. }
  split; [|split; [apply Hel|split; [|split; [|split; [|split; [done|]]]]]].
  - apply set_eq. intros x. rewrite !elem_of_union, !Hel. split.
    + intros (s & Hin & Hx & _). destruct (table_get table s) as [[]|] eqn:E;
        (left; left; exists s; by rewrite E) || (left; right; exists s; by rewrite E)
        || (right; exists s; by rewrite E).
    + intros [[(s & ? & ? & _)|(s & ? & ? & _)]|(s & ? & ? & _)]; by exists s.
  - apply Hdisj. by intros [[]|].
  - apply Hdisj. by intros [[]|].
  - apply Hdisj. by intros [[]|].
  - unfold print_stats. rewrite Hp, Hu, Hi. cbn [passthrough_set unimplemented implemented no_stats].
    rewrite !(right_id_L ∅ (∪)).
    eexists _, _, _. split; [reflexivity|]. split.
    + repeat (apply Forall_cons; split); try (split; apply in_order_spec). by apply Forall_nil.
    + intros x. split; [|split]; apply in_order_spec.
Qed.

Example get_hook_statistics_witness :
  all (get_hooks [Some sys_read] [0; 1] no_stats)
  = passthrough_set (get_hooks [Some sys_read] [0; 1] no_stats)
      ∪ implemented (get_hooks [Some sys_read] [0; 1] no_stats)
      ∪ unimplemented (get_hooks [Some sys_read] [0; 1] no_stats).
Proof.
  refine (proj1 (get_hook_statistics [Some sys_read] [0; 1] 0 no_stats _)).
  repeat constructor; done.
Defined.
