(* ===== verification/Addr.v ===== *)
(** * Address decoding: [parse_addr] of src/hook/impls.cpp

    The address bytes are copied from the process over an uninitialised
    [sockaddr_storage]; [garbage] is what the stack held there. *)

From Stdlib Require Import Strings.Byte.
From S2P Require Import Prelude Words Socket Runner Tracee.

Definition AF_UNIX := 1.
Definition AF_INET := 2.

(** [sizeof(sockaddr_storage)], [offsetof(sockaddr_un, sun_path)] and the
    length of the [sun_path] array. *)
Definition storage_size := 128.
Definition sun_path_offset := 2.
Definition sun_path_size := 108.

Section Parse.
Context {M : Type} `{RunnerHandle M}.

(** [un_addr->sun_path[i]]; an index outside the array is undefined. *)
Definition sun_path (storage : list byte) (i : Z) : outcome byte :=
  if i <? sun_path_size then Ret (nth (Z.to_nat (sun_path_offset + i)) storage x00) else Undefined.

(** The [for] loop: [todo] passes remain before [i] reaches [dest_len]. The
    result is the error code and the path. *)
Fixpoint scan_path (todo : nat) (i : Z) (storage : list byte) (path : list byte)
  : outcome (Z * list byte) :=
  match todo with
  | O => Ret (0, path)
  | S todo =>
      c ← sun_path storage i;
      if bool_decide (c = x00) then Ret (0, path)
      else if (todo =? 0)%nat then Ret (EINVAL, path)
      else scan_path todo (i + 1) storage (path ++ [c])
  end.

(** The [switch] on [ss_family]. *)
Definition decode_addr (storage : list byte) (dest_len : Z) : outcome (Z * socket_addr) :=
  let family := le_value (take 2 storage) in
  let at_ k := nth k storage x00 in
  if family =? AF_INET then
    Ret (0, Ipv4 {| port := le_value (take 2 (drop 2 storage));
                    octet0 := at_ 4%nat; octet1 := at_ 5%nat; octet2 := at_ 6%nat; octet3 := at_ 7%nat |})
  else if family =? AF_UNIX then
    '(err, path) ← scan_path (Z.to_nat (dest_len - sun_path_offset)) sun_path_offset storage [];
    Ret (if err =? 0 then (0, Unix {| path := path |}) else (err, default_addr))
  else Ret (ENOTSUP, default_addr).

(** The error code and the address; code 0 is no error. *)
Definition parse_addr (garbage : list byte) (dest_addr dest_len : Z) (m : M)
  : outcome (Z * socket_addr) :=
  if (storage_size <? dest_len) || (dest_len <? 2) then Ret (EINVAL, default_addr)
  else
    let '(res, dest) := run_read dest_addr (Z.to_nat dest_len) m in
    if res <? 0 then Ret (EFAULT, default_addr)
    else decode_addr (dest ++ drop (length dest) garbage) dest_len.

End Parse.

(** ** Lemmas *)

Section Facts.
Context {M : Type} `{RunnerHandleOk M}.

Lemma scan_path_stops todo i storage p q :
  Forall (fun c => c <> x00) p -> 0 <= i -> i + Z.of_nat (length p) < sun_path_size ->
  (length p < todo)%nat ->
  take (S (length p)) (drop (Z.to_nat (sun_path_offset + i)) storage) = p ++ [x00] ->
  scan_path todo i storage q = Ret (0, q ++ p).
Proof.
  revert todo i q. induction p as [|c p IH]; intros todo i q Hp Hi Hn Hl Hs;
    (destruct todo as [|todo]; [cbn in Hl; lia|]); cbn [scan_path]; unfold sun_path;
    rewrite (proj2 (Z.ltb_lt _ _)) by (cbn [length] in Hn; lia); cbn [mbind outcome_bind].
  - assert (Hc : nth (Z.to_nat (sun_path_offset + i)) storage x00 = x00).
    { destruct (drop _ storage) as [|x l] eqn:E; [done|]. cbn in Hs. injection Hs as ->.
      rewrite <- (Nat.add_0_r (Z.to_nat _)), <- nth_skipn. change (skipn ?n ?l) with (drop n l).
      by rewrite E. }
    rewrite Hc, bool_decide_eq_true_2 by done. by rewrite app_nil_r.
  - apply Forall_cons in Hp as [Hc Hp].
    destruct (drop _ storage) as [|x l] eqn:E; [done|]. cbn [take app length] in Hs.
    injection Hs as -> Hs.
    assert (Hn0 : nth (Z.to_nat (sun_path_offset + i)) storage x00 = c).
    { rewrite <- (Nat.add_0_r (Z.to_nat _)), <- nth_skipn. change (skipn ?n ?l) with (drop n l).
      by rewrite E. }
    rewrite Hn0, bool_decide_eq_false_2 by done. cbn [length] in Hl, Hn.
    rewrite (proj2 (Nat.eqb_neq todo 0)) by lia.
    rewrite (IH todo (i + 1) (q ++ [c])); try done; try lia.
    + by rewrite <- app_assoc.
    + rewrite <- Hs. f_equal.
      replace (Z.to_nat (sun_path_offset + (i + 1))) with (Z.to_nat (sun_path_offset + i) + 1)%nat
        by (unfold sun_path_offset; lia).
      by rewrite <- drop_drop, E.
Qed.

Lemma parse_addr_reads garbage dest_addr dest m :
  2 <= Z.of_nat (length dest) <= storage_size ->
  run_read dest_addr (length dest) m = (0, dest) ->
  parse_addr garbage dest_addr (Z.of_nat (length dest)) m
  = decode_addr (dest ++ drop (length dest) garbage) (Z.of_nat (length dest)).
Proof.
  intros Hl Hr. unfold parse_addr.
  rewrite (proj2 (Z.ltb_ge _ _)), (proj2 (Z.ltb_ge _ _)), Nat2Z.id, Hr by lia. done.
Qed.

End Facts.

(** * Properties *)

(** Path addresses lose their first two characters. When the process
    passes a [sockaddr_un] with a NUL-terminated path of at least two
    characters, anything after the NUL, the result is the path from its third
    character on, whatever the stack held: [sun_path] is indexed with an
    offset from the start of the structure. So two sockets whose paths differ
    only there have the same address. *)
Theorem parse_addr_unix {M} `{RunnerHandleOk M} (garbage rest p : list byte) (a b : byte)
    (dest_addr : Z) (m : M) :
  let dest := [x01; x00] ++ (a :: b :: p) ++ [x00] ++ rest in
  Forall (fun c => c <> x00) p -> Z.of_nat (length p) + 2 < sun_path_size ->
  Z.of_nat (length dest) <= storage_size ->
  run_read dest_addr (length dest) m = (0, dest) ->
  parse_addr garbage dest_addr (Z.of_nat (length dest)) m = Ret (0, Unix {| path := p |}).
Proof.
  intros dest Hp Hn Hl Hr.
  assert (H2 : 2 <= Z.of_nat (length dest) <= storage_size)
    by (split; [unfold dest; cbn [app length]; lia|exact Hl]).
  rewrite parse_addr_reads by done.
  unfold decode_addr. set (storage := dest ++ drop (length dest) garbage).
  change (le_value (take 2 storage)) with 1.
  change (1 =? AF_INET) with false. change (1 =? AF_UNIX) with true. cbn iota.
  rewrite (scan_path_stops _ _ _ p []); try done.
  - unfold sun_path_offset in *. lia.
  - unfold dest, sun_path_offset. cbn [length app]. rewrite !length_app. cbn [length]. lia.
  - unfold storage, dest. change (Z.to_nat (sun_path_offset + sun_path_offset)) with 4%nat.
    cbn [app drop]. rewrite <- app_assoc. cbn [app]. rewrite (cons_middle x00 p), app_assoc.
    apply take_app_length'. rewrite length_app. cbn. lia.
Qed.

(** The demo's address, [sizeof(sockaddr_un)] bytes long. *)
Example parse_addr_unix_witness :
  parse_addr [] 4096 12 (write_memory 4096
    ([x01; x00] ++ (x65 :: x63 :: [x68; x6f]) ++ [x00] ++ replicate 5 x00) (zeros 4096 16)).2
  = Ret (0, Unix {| path := [x68; x6f] |}).
Proof.
  refine (parse_addr_unix [] (replicate 5 x00) [x68; x6f] x65 x63 4096 _ _ _ _ _).
  - repeat constructor; discriminate.
  - vm_compute. reflexivity.
  - vm_compute. discriminate.
  - vm_compute. reflexivity.
Defined.

(** The other cases. Lengths outside [2, 128] give EINVAL and unknown
    families ENOTSUP, both with the default address; an IPv4 address of at
    least 8 bytes yields exactly the port (as the two bytes stand in memory)
    and the four octets, whatever the stack held. *)
Theorem parse_addr_cases {M} `{RunnerHandleOk M} (garbage dest : list byte) (dest_addr len : Z) (m : M) :
  run_read dest_addr (length dest) m = (0, dest) ->
  2 <= Z.of_nat (length dest) <= storage_size ->
  (len < 2 \/ storage_size < len -> parse_addr garbage dest_addr len m = Ret (EINVAL, default_addr))
  /\ (le_value (take 2 dest) <> AF_INET -> le_value (take 2 dest) <> AF_UNIX ->
      parse_addr garbage dest_addr (Z.of_nat (length dest)) m = Ret (ENOTSUP, default_addr))
  /\ (forall p0 p1 o0 o1 o2 o3 rest, dest = [x02; x00; p0; p1; o0; o1; o2; o3] ++ rest ->
      parse_addr garbage dest_addr (Z.of_nat (length dest)) m
      = Ret (0, Ipv4 {| port := byte_val p0 + 256 * byte_val p1;
                        octet0 := o0; octet1 := o1; octet2 := o2; octet3 := o3 |})).
Proof.
  intros Hr Hl. split; [|split].
  - intros Hlen. unfold parse_addr.
    destruct (Z.ltb_spec storage_size len); [done|]. destruct (Z.ltb_spec len 2); [done|lia].
  - intros Hi Hu. rewrite parse_addr_reads by done. unfold decode_addr.
    rewrite take_app_le by lia. rewrite !(proj2 (Z.eqb_neq _ _)) by done. done.
  - intros * ->. rewrite parse_addr_reads by done. unfold decode_addr.
    cbn [app take drop nth le_value length]. change (_ =? AF_INET) with true. cbn iota.
    by rewrite Z.mul_0_r, Z.add_0_r.
Qed.

Example parse_addr_cases_witness :
  parse_addr [] 4096 8 (write_memory 4096 [x02; x00; x1f; x90; x7f; x00; x00; x01] (zeros 4096 8)).2
  = Ret (0, Ipv4 {| port := 36895; octet0 := x7f; octet1 := x00; octet2 := x00; octet3 := x01 |}).
Proof.
  refine (proj2 (proj2 (parse_addr_cases [] [x02; x00; x1f; x90; x7f; x00; x00; x01] 4096 8 _ _ _))
    x1f x90 x7f x00 x00 x01 [] _).
  - vm_compute. reflexivity.
  - split; vm_compute; discriminate.
  - reflexivity.
Defined.
