(* ===== verification/World.v ===== *)
(** * The simulated world: src/sim/simulator.hpp, replica.hpp/.cpp,
    src/net/datagram_socket.hpp/.cpp

    A [simulator] owns the generator, the address table and the options; each
    [replica] owns a descriptor table and the process behind its runner.
    Descriptor objects live in a store under object ids; a [shared_ptr] is an
    id, and an object counts as alive while some replica's table holds it. *)

From Stdlib Require Import Strings.Byte SpecFloat.
From S2P Require Import Prelude Words Float Random Faults Socket Network FdTable Pipe Stream.
From S2P Require Import Runner.

(** [sim::options] *)
Record options := { net_faults : net_fault_options; time_scale : double; seed_ : Z }.

Definition default_sim_options (seed : Z) : options :=
  {| net_faults := default_options; time_scale := d1; seed_ := seed |}.

Section World.
Context {Q M : Type} `{PriorityQueue Q}.

(** The inbound pipe's generator is the one it is declared with. *)
Abbreviation pipe := (datagram_pipe Q Xoshiro.xoshiro256_star_star).

Record datagram_socket := { d_base : socket; inbound_ : pipe }.

(** The classes derived from [file_descriptor]. *)
Inductive object :=
| StdoutObj
| StreamObj (s : stream_socket)
| DgramObj (d : datagram_socket).

(** The simulator with the store of descriptor objects. *)
Record simulator := {
  sim_rng : Xoshiro.xoshiro256_star_star;
  net_ : Network.network;
  options_ : options;
  objs : gmap obj_id object;
  next_id : obj_id;
  out : list FileDescriptor.output;      (* what went to the simulator's stdout *)
}.

Definition make_simulator (o : options) : simulator :=
  let '(r, _) := Xoshiro.seed_from (SplitMix.make (seed_ o) SplitMix.default_gamma) in
  {| sim_rng := r; net_ := Network.empty; options_ := o; objs := ∅; next_id := 1%positive; out := [] |}.

Record replica := { fd_table_ : FdTable.table obj_id; mem_ : M; epoch_ : Z }.

Definition make_replica (m : M) (now : Z) : replica :=
  {| fd_table_ := FdTable.empty; mem_ := m; epoch_ := now |}.

(** *** Record updates *)

Definition set_rng r (s : simulator) : simulator :=
  {| sim_rng := r; net_ := net_ s; options_ := options_ s; objs := objs s; next_id := next_id s; out := out s |}.
Definition set_net n (s : simulator) : simulator :=
  {| sim_rng := sim_rng s; net_ := n; options_ := options_ s; objs := objs s; next_id := next_id s; out := out s |}.
Definition set_obj id o (s : simulator) : simulator :=
  {| sim_rng := sim_rng s; net_ := net_ s; options_ := options_ s; objs := <[id := o]> (objs s);
     next_id := next_id s; out := out s |}.
Definition add_out l (s : simulator) : simulator :=
  {| sim_rng := sim_rng s; net_ := net_ s; options_ := options_ s; objs := objs s;
     next_id := next_id s; out := out s ++ l |}.
(** [std::make_shared] *)
Definition new_obj o (s : simulator) : obj_id * simulator :=
  (next_id s,
   {| sim_rng := sim_rng s; net_ := net_ s; options_ := options_ s;
      objs := <[next_id s := o]> (objs s); next_id := Pos.succ (next_id s); out := out s |}).
Definition set_table t (r : replica) : replica := {| fd_table_ := t; mem_ := mem_ r; epoch_ := epoch_ r |}.
Definition set_mem m (r : replica) : replica := {| fd_table_ := fd_table_ r; mem_ := m; epoch_ := epoch_ r |}.

(** *** Ownership *)

Definition owns (t : FdTable.table obj_id) (id : obj_id) : bool :=
  existsb (fun x => bool_decide (x.2 = Some id)) (map_to_list (FdTable.table_ t)).

(** *** Datagram sockets *)

Definition make_datagram (af : address_family) (s : simulator) : datagram_socket * simulator :=
  let p := Pipe.make (net_faults (options_ s)) Xoshiro.default in
  let '(p, r) := Pipe.seed (sim_rng s) p in
  ({| d_base := {| af_ := af; type_ := stream |}; inbound_ := p |}, set_rng r s).

Section Sockets.
Context `{Bernoulli Xoshiro.xoshiro256_star_star} `{Build}.
Variables (max_udp_packet_size : Z) (alloc : Z -> bool).

Definition deliver (fuel : nat) (now : Z) (dgram : list byte) (addr : socket_addr) (d : datagram_socket)
  : outcome datagram_socket :=
  p ← Pipe.send max_udp_packet_size fuel now dgram addr (inbound_ d);
  Ret {| d_base := d_base d; inbound_ := p |}.

(** [send_to]; [T] is the state of the callback. *)
Definition send_to {T} (alive : obj_id -> bool) (fuel : nat) (now : Z) (read_data : read_callback T)
    (bytes : Z) (dst : socket_addr) (s : simulator) (st : T) : outcome (Z * simulator * T) :=
  let '(sock, n) := Network.get alive dst (net_ s) in
  let s := set_net n s in
  match sock with
  | None => Ret (- EHOSTUNREACH, s, st)
  | Some id =>
      match objs s !! id with
      | None => Undefined              (* no object behind a live pointer *)
      | Some (DgramObj d) =>
          buf ← make_buffer alloc bytes;
          let '(res, buf, st) := read_data buf st in
          if res <? 0 then Ret (res, s, st)
          else
            d ← deliver fuel now buf default_addr d;
            Ret (i64 bytes, set_obj id (DgramObj d) s, st)
      | _ => Ret (- ECONNREFUSED, s, st)
      end
  end.

(** [recv_from] from the moment [inbound_.recv()] looks at the queue. *)
Definition recv_from {T} (now : Z) (write_data : write_callback T) (bytes : Z) (d : datagram_socket) (st : T)
  : recv_result (Z * socket_addr * datagram_socket * T) :=
  match recv_step now (inbound_ d) with
  | Wait => Wait
  | WaitUntil t => WaitUntil t
  | Got (data, addr, p) =>
      let data := if bytes <? Z.of_nat (length data) then take (Z.to_nat bytes) data else data in
      let '(_, st) := write_data data st in
      Got (Z.of_nat (length data), addr, {| d_base := d_base d; inbound_ := p |}, st)
  end.

End Sockets.
End World.

Arguments datagram_socket Q : clear implicits.
Arguments object Q : clear implicits.
Arguments simulator Q : clear implicits.
Arguments replica M : clear implicits.
