(* ===== verification/Hooks.v ===== *)
(** * The hooks: src/hook/impls.cpp

    One definition per [sys_*] function.  A hook works on the simulator, the
    calling replica and [held], which tells whether some other replica's table
    owns an object; it returns what the code returns, or blocks where
    [recv_from] waits.  Environment inputs are arguments: [now] (clock
    readings), [garbage] (uninitialised stack bytes), [fuel] (an upper bound on
    replays). *)

From Stdlib Require Import Strings.Byte SpecFloat.
From S2P Require Import Prelude Words Float Random Faults Socket Network FdTable Pipe Stream.
From S2P Require Import Syscalls HookTable Runner Tracee Addr World.

Definition SOCK_STREAM := 1.
Definition SOCK_DGRAM := 2.

Section Hooks.
Context {Q M : Type} `{PriorityQueue Q} `{RunnerHandle M} `{Bernoulli Xoshiro.xoshiro256_star_star} `{Build}.
Variables (max_udp_packet_size : Z) (alloc : Z -> bool).
Implicit Types (sim : simulator Q) (rep : replica M) (args : list Z).

(** [args[i]], a [uint64_t]; [int] variables take its low 32 bits. *)
Definition arg args (i : nat) : Z := nth i args 0.

(** A hook's effect: the result with the new states. *)
Definition hook_out : Type := hook_result * simulator Q * replica M.

Definition alive (held : obj_id -> bool) rep (id : obj_id) : bool := held id || owns (fd_table_ rep) id.

(** The object behind a non-null pointer; a dangling one is undefined. *)
Definition deref (id : obj_id) sim : outcome (object Q) :=
  match objs sim !! id with Some o => Ret o | None => Undefined end.

(** [fd_table.get(fd)], with the object the pointer leads to. *)
Definition get_fd (fd : Z) sim rep : outcome (option (obj_id * object Q) * replica M) :=
  let '(p, t) := FdTable.get fd (fd_table_ rep) in
  let rep := set_table t rep in
  match p with
  | None => Ret (None, rep)
  | Some id => o ← deref id sim; Ret (Some (id, o), rep)
  end.

Definition fail (cerrno : Z) sim rep : outcome hook_out :=
  r ← HookTable.error cerrno; Ret (r, sim, rep).

Definition sys_write (fuel : nat) args sim rep : outcome hook_out :=
  let fd := i32 (arg args 0) in
  let ptr := arg args 1 in
  let len := arg args 2 in
  if negb (FdTable.is_simulated fd) then Ret (passthrough, sim, rep)
  else
    '(fildes, rep) ← get_fd fd sim rep;
    match fildes with
    | None => fail EBADF sim rep
    | Some (_, StdoutObj) =>
        '(res, o, _) ← FileDescriptor.stdout_write (store_fragment_callback (mem_ rep)) fuel len ptr;
        Ret (handled res, add_out o sim, rep)
    | Some _ => Ret (handled FileDescriptor.write, sim, rep)
    end.

Definition sys_read args sim rep : outcome hook_out :=
  let fd := i32 (arg args 0) in
  if negb (FdTable.is_simulated fd) then Ret (passthrough, sim, rep)
  else
    '(fildes, rep) ← get_fd fd sim rep;
    match fildes with
    | None => fail EBADF sim rep
    | Some _ => Ret (handled FileDescriptor.read, sim, rep)
    end.

Definition sys_close args sim rep : outcome hook_out :=
  let fd := i32 (arg args 0) in
  if negb (FdTable.is_simulated fd) then Ret (passthrough, sim, rep)
  else
    '(res, t) ← FdTable.close fd (fd_table_ rep);
    Ret (handled res, sim, set_table t rep).

(** Declared and defined, but in no table. *)
Definition sys_open args sim rep : outcome hook_out := Ret (passthrough, sim, rep).

Definition sys_socket args sim rep : outcome hook_out :=
  let domain := i32 (arg args 0) in
  let type := i32 (arg args 1) in
  let insert (id : obj_id) sim :=
    '(fd, t) ← FdTable.insert id (fd_table_ rep);
    if fd <? 0 then fail EMFILE sim (set_table t rep)
    else Ret (handled fd, sim, set_table t rep) in
  let make af :=
    if type =? SOCK_STREAM then
      let '(id, sim) := new_obj (StreamObj (make_stream af)) sim in insert id sim
    else if type =? SOCK_DGRAM then
      let '(d, sim) := make_datagram af sim in
      let '(id, sim) := new_obj (DgramObj d) sim in insert id sim
    else fail EINVAL sim rep in
  if domain =? AF_INET then make ipv4
  else if domain =? AF_UNIX then make unix_
  else fail EINVAL sim rep.

Definition sys_sendto (held : obj_id -> bool) (fuel : nat) (now : Z) (garbage : list byte)
    args sim rep : outcome hook_out :=
  let socket_fd := i32 (arg args 0) in
  let buffer := arg args 1 in
  let length := arg args 2 in
  if negb (FdTable.is_simulated socket_fd) then Ret (passthrough, sim, rep)
  else
    '(err, dst_addr) ← parse_addr garbage (arg args 4) (arg args 5) (mem_ rep);
    if negb (err =? 0) then fail err sim rep
    else
      '(fd, rep) ← get_fd socket_fd sim rep;
      match fd with
      | None => fail EBADF sim rep
      | Some (_, DgramObj _) =>
          '(res, sim, _) ← send_to max_udp_packet_size alloc (alive held rep) fuel now
                            (store_fragment_callback (mem_ rep)) length dst_addr sim buffer;
          Ret (handled res, sim, rep)
      | Some _ => fail ENOTSOCK sim rep
      end.

(** [now] is the clock reading of the pass of [recv] that is modelled. *)
Definition sys_recvfrom (now : Z) args sim rep : outcome (recv_result hook_out) :=
  let socket_fd := i32 (arg args 0) in
  let buffer := arg args 1 in
  let length := arg args 2 in
  if negb (FdTable.is_simulated socket_fd) then Ret (Got (passthrough, sim, rep))
  else
    '(fd, rep) ← get_fd socket_fd sim rep;
    match fd with
    | None => Got <$> fail EBADF sim rep
    | Some (id, DgramObj d) =>
        match recv_from now load_fragment_callback length d (mem_ rep, buffer) with
        | Wait => Ret Wait
        | WaitUntil t => Ret (WaitUntil t)
        | Got (res, _, d, (m, _)) =>
            Ret (Got (handled res, set_obj id (DgramObj d) sim, set_mem m rep))
        end
    | Some _ => Got <$> fail ENOTSOCK sim rep
    end.

Definition sys_connect (held : obj_id -> bool) (garbage : list byte) args sim rep : outcome hook_out :=
  let sockfd := i32 (arg args 0) in
  if negb (FdTable.is_simulated sockfd) then Ret (passthrough, sim, rep)
  else
    '(err, sock_addr) ← parse_addr garbage (arg args 1) (arg args 2) (mem_ rep);
    if negb (err =? 0) then fail err sim rep
    else
      '(sock, rep) ← get_fd sockfd sim rep;
      match sock with
      | None => fail EBADF sim rep
      | Some (_, StdoutObj) => fail ENOTSOCK sim rep
      | Some (id, s) =>
          let '(peer, n) := Network.get (alive held rep) sock_addr (net_ sim) in
          let sim := set_net n sim in
          match peer, s with
          | None, _ => fail ECONNREFUSED sim rep
          | Some pid, StreamObj s2 =>
              peer ← deref pid sim;
              match peer with
              | StreamObj peer2 =>
                  if listening peer2 then fail ECONNREFUSED sim rep
                  else
                    let '(res, s2) := connect s2 pid peer2 in
                    Ret (handled res, set_obj id (StreamObj s2) sim, rep)
              | _ => fail ECONNREFUSED sim rep
              end
          | Some _, _ => fail EOPNOTSUPP sim rep
          end
      end.

Definition sys_bind (held : obj_id -> bool) (garbage : list byte) args sim rep : outcome hook_out :=
  let arg_socket_fd := i32 (arg args 0) in
  if negb (FdTable.is_simulated arg_socket_fd) then Ret (passthrough, sim, rep)
  else
    '(fd, rep) ← get_fd arg_socket_fd sim rep;
    match fd with
    | None => fail EBADF sim rep
    | Some (_, StdoutObj) => fail ENOTSOCK sim rep
    | Some (id, _) =>
        '(err, addr) ← parse_addr garbage (arg args 1) (arg args 2) (mem_ rep);
        if negb (err =? 0) then fail err sim rep
        else
          let '(err, n) := Network.bind (alive held rep) addr id (net_ sim) in
          let sim := set_net n sim in
          if negb (err =? 0) then fail err sim rep
          else Ret (handled 0, sim, rep)
    end.

(** [timespec] as 16 bytes. *)
Definition timespec_of (bs : list byte) : Z * Z :=
  (i64 (le_value (take 8 bs)), i64 (le_value (drop 8 bs))).
Definition timespec_bytes (tv_sec tv_nsec : Z) : list byte :=
  le_bytes 8 (u64 tv_sec) ++ le_bytes 8 (u64 tv_nsec).

(** Also returns the duration slept, in nanoseconds. *)
Definition sys_clock_nanosleep args sim rep : outcome (hook_out * option double) :=
  let '(res, tm) := run_read (arg args 2) 16 (mem_ rep) in
  if res <? 0 then r ← fail (- res) sim rep; Ret (r, None)
  else
    let '(tv_sec, tv_nsec) := timespec_of tm in
    s ← mul_i64 tv_sec 1000000000;
    duration ← add_i64 s tv_nsec;
    Ret ((handled 0, sim, rep), Some (dmul (of_int duration) (time_scale (options_ sim)))).

(** The scaled clock, [now] being the second reading. *)
Definition dsub : double -> double -> double := SFsub prec emax.
Definition scaled_time (epoch now : Z) (scale : double) : outcome (Z * Z) :=
  since_epoch ← add_i64 now (- epoch);
  let scaled_since_epoch := ddiv (of_int since_epoch) scale in
  let new_time := dadd (of_int epoch) scaled_since_epoch in
  let giga := of_int 1000000000 in
  tv_sec ← to_i64 (ddiv new_time giga);
  tv_nsec ← to_i64 (dsub new_time (dmul (of_int tv_sec) giga));
  Ret (tv_sec, tv_nsec).

Definition sys_clock_gettime (now : Z) args sim rep : outcome hook_out :=
  '(tv_sec, tv_nsec) ← scaled_time (epoch_ rep) now (time_scale (options_ sim));
  let '(res, m) := run_write (arg args 1) (timespec_bytes tv_sec tv_nsec) (mem_ rep) in
  if res <? 0 then fail (- res) sim (set_mem m rep)
  else Ret (handled 0, sim, set_mem m rep).

(** *** Calling a table entry *)

(** The inputs a call takes from its environment. *)
Record env := {
  held_ : obj_id -> bool; fuel_ : nat; now_ : Z; garbage_ : list byte;
}.

Definition call_hook (e : env) (h : hook) args sim rep : outcome (recv_result hook_out) :=
  match h with
  | HookTable.sys_write => Got <$> sys_write (fuel_ e) args sim rep
  | HookTable.sys_read => Got <$> sys_read args sim rep
  | HookTable.sys_close => Got <$> sys_close args sim rep
  | HookTable.sys_socket => Got <$> sys_socket args sim rep
  | HookTable.sys_sendto => Got <$> sys_sendto (held_ e) (fuel_ e) (now_ e) (garbage_ e) args sim rep
  | HookTable.sys_recvfrom => sys_recvfrom (now_ e) args sim rep
  | HookTable.sys_connect => Got <$> sys_connect (held_ e) (garbage_ e) args sim rep
  | HookTable.sys_bind => Got <$> sys_bind (held_ e) (garbage_ e) args sim rep
  | HookTable.sys_clock_gettime => Got <$> sys_clock_gettime (now_ e) args sim rep
  | HookTable.sys_clock_nanosleep => (fun x => Got x.1) <$> sys_clock_nanosleep args sim rep
  | explicit_passthrough => Ret (Got (passthrough, sim, rep))
  end.

(** ** The world: every replica's calls, interleaved call by call *)

Record world := { w_sim : simulator Q; w_reps : list (replica M) }.

(** Owned by a replica other than number [i]. *)
Definition others (reps : list (replica M)) (i : nat) (id : obj_id) : bool :=
  existsb (fun x => negb (x.1 =? i)%nat && owns (fd_table_ x.2) id) (imap pair reps).

Inductive world_step : world -> world -> Prop :=
| StepCall w i rep e h args r sim rep' :
    w_reps w !! i = Some rep -> held_ e = others (w_reps w) i ->
    call_hook e h args (w_sim w) rep = Ret (Got (r, sim, rep')) ->
    world_step w {| w_sim := sim; w_reps := <[i := rep']> (w_reps w) |}
| StepProcess w i rep m :                     (* the traced process runs *)
    w_reps w !! i = Some rep ->
    world_step w {| w_sim := w_sim w; w_reps := <[i := set_mem m rep]> (w_reps w) |}
| StepStart w m now :                         (* [machine::start] *)
    world_step w {| w_sim := w_sim w; w_reps := w_reps w ++ [make_replica m now] |}.

Inductive reachable (o : options) : world -> Prop :=
| ReachInit : reachable o {| w_sim := make_simulator o; w_reps := [] |}
| ReachStep w w' : reachable o w -> world_step w w' -> reachable o w'.

End Hooks.
Arguments world Q M : clear implicits.
Arguments hook_out Q M : clear implicits.
