(* ===== verification/HookSpec.v ===== *)
(** * The invariant of the simulated world

    The invariant of the simulated world: lemmas the properties of HookProps.v
    are proved with. *)

From Stdlib Require Import Strings.Byte SpecFloat.
From S2P Require Import Prelude Words Float Random Faults Socket Network FdTable Pipe Stream.
From S2P Require Import Syscalls HookTable Runner Tracee Addr World Hooks.

(** ** Tables *)

Section Tables.
Context `{Build}.
Implicit Types t : FdTable.table obj_id.

Lemma owns_spec t id : owns t id = true <-> exists fd, FdTable.live t fd = Some id.
Proof.
  unfold owns. rewrite existsb_exists. split.
  - intros ([fd v] & Hin & Hv). apply bool_decide_eq_true in Hv. cbn in Hv. subst v.
    apply list_elem_of_In, elem_of_map_to_list in Hin. exists fd. unfold FdTable.live. by rewrite Hin.
  - intros [fd Hl]. unfold FdTable.live in Hl. apply bind_Some in Hl as ([v|] & Hv & [= ->]).
    exists (fd, Some id). split; [|by apply bool_decide_eq_true].
    by apply list_elem_of_In, elem_of_map_to_list.
Qed.

Lemma close_live fd t z t' fd' id :
  FdTable.close fd t = Ret (z, t') -> FdTable.live t' fd' = Some id -> FdTable.live t fd' = Some id.
Proof.
  unfold FdTable.close. destruct (FdTable.table_ t !! fd) as [[v|]|]; intros Hc Hl.
  - inv_ret. rewrite FdFacts.live_delete in Hl. by case_bool_decide.
  - by injection Hc as _ <-.
  - by injection Hc as _ <-.
Qed.

Lemma store_live fd (f : obj_id) t z t' :
  FdTable.store fd f t = Ret (z, t') ->
  z = fd /\ forall fd', FdTable.live t' fd' = if bool_decide (fd = fd') then Some f else FdTable.live t fd'.
Proof.
  unfold FdTable.store. intros Hc. apply bind_Ret_inv in Hc as (? & _ & Hc).
  apply bind_Ret_inv in Hc as (? & _ & Hc). pose proof (fun fd' => FdFacts.live_get fd t fd') as Hg.
  destruct (FdTable.get fd t) as [slot t1]. cbn [snd] in Hg. apply bind_Ret_inv in Hc as (? & _ & Hc).
  injection Hc as <- <-. split; [done|]. intros fd'. rewrite FdFacts.live_insert.
  by rewrite (proj1 (Hg fd')).
Qed.

(** Whatever the table's state, a returning [insert] changes one number. *)
Lemma insert_live (f : obj_id) t z t' :
  FdTable.insert f t = Ret (z, t') ->
  t' = t \/ forall fd', FdTable.live t' fd' = if bool_decide (z = fd') then Some f else FdTable.live t fd'.
Proof.
  unfold FdTable.insert. intros Hc. destruct (FdTable.unused_ t) as [|fd rest] eqn:E.
  - destruct (_ <=? _); [injection Hc as _ <-; by left|].
    apply bind_Ret_inv in Hc as (? & _ & Hc). right. by apply store_live in Hc as [-> Hc].
  - right. by apply store_live in Hc as [-> Hc].
Qed.

End Tables.

(** ** The invariant *)

Section Invariant.
Context {Q M : Type} `{PriorityQueue Q} `{RunnerHandle M} `{Bernoulli Xoshiro.xoshiro256_star_star} `{Build}.
Variables (mx : Z) (alloc : Z -> bool).
Implicit Types (sim : simulator Q) (rep : replica M) (held : obj_id -> bool).

(** The store of objects: ids are below the counter, stdout is in no table,
    no stream socket ever listens. *)
Record wf_objs sim : Prop := {
  wf_below : forall id, is_Some (objs sim !! id) -> (id < next_id sim)%positive;
  wf_no_stdout : forall id, objs sim !! id <> Some StdoutObj;
  wf_no_listening : forall id s, objs sim !! id = Some (StreamObj s) -> listening_ s = false;
}.

(** No dangling pointers in a replica's table, or elsewhere. *)
Definition wf_rep sim rep : Prop :=
  forall fd id, FdTable.live (fd_table_ rep) fd = Some id -> is_Some (objs sim !! id).
Definition wf_held sim held : Prop := forall id, held id = true -> is_Some (objs sim !! id).

(** Objects are never removed. *)
Definition grows sim sim' : Prop :=
  forall id, is_Some (objs sim !! id) -> is_Some (objs sim' !! id).

Record wf held sim rep : Prop := {
  wf_sim : wf_objs sim;
  wf_table : wf_rep sim rep;
  wf_other : wf_held sim held;
}.

Lemma wf_objs_same sim sim' :
  objs sim' = objs sim -> next_id sim' = next_id sim -> wf_objs sim -> wf_objs sim'.
Proof. intros E1 E2 [Hb Hs Hl]. split; rewrite E1; [rewrite E2|..]; assumption. Qed.

Lemma wf_objs_set_obj sim id o :
  is_Some (objs sim !! id) -> o <> StdoutObj -> (forall s, o = StreamObj s -> listening_ s = false) ->
  wf_objs sim -> wf_objs (set_obj id o sim) /\ grows sim (set_obj id o sim).
Proof.
  intros Hid Ho Hlis [Hb Hs Hl]. split; [split; cbn [objs next_id set_obj]|].
  - intros id' Hi. destruct (decide (id = id')) as [<-|Hne]; [by apply Hb|].
    rewrite lookup_insert_ne in Hi by done. by apply Hb.
  - intros id'. destruct (decide (id = id')) as [<-|Hne].
    + rewrite lookup_insert_eq. congruence.
    + rewrite lookup_insert_ne by done. apply Hs.
  - intros id' s. destruct (decide (id = id')) as [<-|Hne].
    + rewrite lookup_insert_eq. intros [= ->]. by apply Hlis.
    + rewrite lookup_insert_ne by done. apply Hl.
  - unfold grows. cbn [objs set_obj]. intros id' Hi. destruct (decide (id = id')) as [<-|Hne].
    + eexists. apply lookup_insert_eq.
    + by rewrite lookup_insert_ne.
Qed.

Lemma wf_objs_new sim o :
  o <> StdoutObj -> (forall s, o = StreamObj s -> listening_ s = false) -> wf_objs sim ->
  let '(id, sim') := new_obj o sim in
  wf_objs sim' /\ grows sim sim' /\ objs sim !! id = None /\ objs sim' !! id = Some o.
Proof.
  intros Ho Hlis [Hb Hs Hl]. cbn [new_obj]. split; [split; cbn [objs next_id]|split; [|split]].
  - intros id' Hi. destruct (decide (next_id sim = id')) as [<-|Hne]; [lia|].
    rewrite lookup_insert_ne in Hi by done. specialize (Hb _ Hi). lia.
  - intros id'. destruct (decide (next_id sim = id')) as [<-|Hne].
    + rewrite lookup_insert_eq. congruence.
    + rewrite lookup_insert_ne by done. apply Hs.
  - intros id' s. destruct (decide (next_id sim = id')) as [<-|Hne].
    + rewrite lookup_insert_eq. intros [= ->]. by apply Hlis.
    + rewrite lookup_insert_ne by done. apply Hl.
  - unfold grows. cbn [objs]. intros id' Hi. destruct (decide (next_id sim = id')) as [<-|Hne].
    + eexists. apply lookup_insert_eq.
    + by rewrite lookup_insert_ne.
  - destruct (objs sim !! next_id sim) eqn:E; [|done].
    assert (next_id sim < next_id sim)%positive by (apply Hb; by eexists). lia.
  - apply lookup_insert_eq.
Qed.

(** The object a descriptor number leads to. *)
Definition fd_obj (fd : Z) sim rep : option (obj_id * object Q) :=
  FdTable.live (fd_table_ rep) fd ≫= fun id => (fun o => (id, o)) <$> objs sim !! id.

Definition touch (fd : Z) rep : replica M := set_table (FdTable.get fd (fd_table_ rep)).2 rep.

Lemma get_fd_ok fd sim rep :
  wf_rep sim rep -> get_fd fd sim rep = Ret (fd_obj fd sim rep, touch fd rep).
Proof.
  intros Hw. unfold get_fd, fd_obj, touch, deref.
  pose proof (proj2 (FdFacts.live_get fd (fd_table_ rep) fd)) as Hl.
  destruct (FdTable.get fd (fd_table_ rep)) as [p t]. cbn [fst snd] in *.
  rewrite <- Hl. destruct p as [id|]; [|done]. cbn.
  destruct (Hw fd id) as [o Ho]; [done|]. by rewrite Ho.
Qed.

Lemma touch_live fd rep fd' :
  FdTable.live (fd_table_ (touch fd rep)) fd' = FdTable.live (fd_table_ rep) fd'.
Proof. apply (FdFacts.live_get fd (fd_table_ rep)). Qed.

Lemma fd_obj_Some fd sim rep id o :
  fd_obj fd sim rep = Some (id, o) -> FdTable.live (fd_table_ rep) fd = Some id /\ objs sim !! id = Some o.
Proof.
  unfold fd_obj. intros (x & Hx & Ho)%bind_Some. apply fmap_Some in Ho as (y & Hy & [= -> ->]). done.
Qed.

Lemma alive_exists held sim rep id :
  wf held sim rep -> alive held rep id = true -> is_Some (objs sim !! id).
Proof.
  intros Hw [Hh|Ho]%orb_prop; [by apply (wf_other _ _ _ Hw)|].
  apply owns_spec in Ho as [fd Hfd]. by apply (wf_table _ _ _ Hw) in Hfd.
Qed.

Lemma alive_touch held rep fd id : alive held (touch fd rep) id = alive held rep id.
Proof.
  unfold alive. f_equal. apply eq_true_iff_eq. rewrite !owns_spec.
  split; intros [fd' Hl]; exists fd'; by rewrite touch_live in *.
Qed.

Lemma wf_touch held sim rep fd : wf held sim rep -> wf held sim (touch fd rep).
Proof. intros [Hs Ht Ho]. split; [done| |done]. intros fd' id. rewrite touch_live. apply Ht. Qed.

(** What a call may change: objects stay, new entries point to objects. *)
Record effect sim rep sim' rep' : Prop := {
  eff_wf : wf_objs sim';
  eff_grows : grows sim sim';
  eff_live : forall fd id, FdTable.live (fd_table_ rep') fd = Some id ->
    FdTable.live (fd_table_ rep) fd = Some id
    \/ objs sim !! id = None /\ is_Some (objs sim' !! id)
       /\ forall fd', FdTable.live (fd_table_ rep') fd' = Some id -> fd' = fd;
}.

Lemma effect_same sim rep sim' rep' :
  wf_objs sim -> objs sim' = objs sim -> next_id sim' = next_id sim ->
  (forall fd id, FdTable.live (fd_table_ rep') fd = Some id -> FdTable.live (fd_table_ rep) fd = Some id) ->
  effect sim rep sim' rep'.
Proof.
  intros Hw E1 E2 Hl. split; [by eapply wf_objs_same| |auto]. intros id. by rewrite E1.
Qed.

Lemma effect_obj sim rep sim' rep' id o :
  wf_objs sim -> is_Some (objs sim !! id) -> o <> StdoutObj ->
  (forall s, o = StreamObj s -> listening_ s = false) ->
  objs sim' = <[id := o]> (objs sim) -> next_id sim' = next_id sim ->
  (forall fd x, FdTable.live (fd_table_ rep') fd = Some x -> FdTable.live (fd_table_ rep) fd = Some x) ->
  effect sim rep sim' rep'.
Proof.
  intros Hw Hid Ho Hs E1 E2 Hl. destruct (wf_objs_set_obj sim id o Hid Ho Hs Hw) as [Hw' Hg].
  split; [| |auto].
  - by apply (wf_objs_same (set_obj id o sim)).
  - intros x Hx. rewrite E1. by apply Hg.
Qed.

Lemma fail_inv c sim rep x : fail c sim rep = Ret x -> x.1.2 = sim /\ x.2 = rep.
Proof. unfold fail. intros Hf. apply bind_Ret_inv in Hf as (r & _ & [= <-]). done. Qed.

Lemma live_refl (rep : replica M) fd id :
  FdTable.live (fd_table_ rep) fd = Some id -> FdTable.live (fd_table_ rep) fd = Some id.
Proof. done. Qed.
Lemma live_touch_inv (rep : replica M) fd0 fd id :
  FdTable.live (fd_table_ (touch fd0 rep)) fd = Some id -> FdTable.live (fd_table_ rep) fd = Some id.
Proof. by rewrite touch_live. Qed.
Lemma live_touch_mem_inv (rep : replica M) m fd0 fd id :
  FdTable.live (fd_table_ (set_mem m (touch fd0 rep))) fd = Some id ->
  FdTable.live (fd_table_ rep) fd = Some id.
Proof. apply live_touch_inv. Qed.

End Invariant.
Arguments fd_obj {Q M} fd sim rep.
Arguments touch {M} fd rep.

#[export] Hint Resolve effect_same live_refl live_touch_inv live_touch_mem_inv : redstone.

(** Undo the tests a returning hook went through. *)
Ltac hook_cases :=
  repeat match goal with
  | H : fail _ _ _ = Ret _ |- _ => apply fail_inv in H as [? ?]; cbn [fst snd] in *; subst
  | H : (if ?b then _ else _) = Ret _ |- _ => destruct b eqn:?
  | H : (let '(_, _) := ?x in _) = Ret _ |- _ => destruct x eqn:?
  | H : match ?x with _ => _ end = Ret _ |- _ => destruct x eqn:?
  | _ => progress inv_ret
  | H : Ret _ = Ret _ |- _ => injection H as ?; subst
  end.

Section Effects.
Context {Q M : Type} `{PriorityQueue Q} `{RunnerHandle M} `{Bernoulli Xoshiro.xoshiro256_star_star} `{Build}.
Variables (mx : Z) (alloc : Z -> bool).
Implicit Types (sim : simulator Q) (rep : replica M) (held : obj_id -> bool).

Lemma sys_write_effect held fuel args sim rep r sim' rep' :
  wf held sim rep -> sys_write fuel args sim rep = Ret (r, sim', rep') -> effect sim rep sim' rep'.
Proof.
  intros Hw. pose proof (wf_sim _ _ _ Hw) as Hs. unfold sys_write.
  rewrite (get_fd_ok _ _ _ (wf_table _ _ _ Hw)). intros Hc. cbn [mbind outcome_bind] in Hc.
  hook_cases; eauto with redstone.
Qed.

Lemma sys_read_effect held args sim rep r sim' rep' :
  wf held sim rep -> sys_read args sim rep = Ret (r, sim', rep') -> effect sim rep sim' rep'.
Proof.
  intros Hw. pose proof (wf_sim _ _ _ Hw) as Hs. unfold sys_read.
  rewrite (get_fd_ok _ _ _ (wf_table _ _ _ Hw)). intros Hc. cbn [mbind outcome_bind] in Hc.
  hook_cases; eauto with redstone.
Qed.

Lemma sys_close_effect held args sim rep r sim' rep' :
  wf held sim rep -> sys_close args sim rep = Ret (r, sim', rep') -> effect sim rep sim' rep'.
Proof.
  intros Hw. pose proof (wf_sim _ _ _ Hw) as Hs. unfold sys_close. intros Hc.
  destruct (negb _); [injection Hc as <- <- <-; eauto with redstone|].
  apply bind_Ret_inv in Hc as ([z t] & Ht & [= <- <- <-]).
  apply effect_same; try done. intros fd id. cbn [fd_table_ set_table]. by eapply close_live.
Qed.

(** A new object under a new number. *)
Lemma effect_new sim rep o sim1 id fd t :
  wf_objs sim -> wf_rep sim rep -> o <> StdoutObj -> (forall s, o = StreamObj s -> listening_ s = false) ->
  new_obj o sim = (id, sim1) -> FdTable.insert id (fd_table_ rep) = Ret (fd, t) ->
  effect sim rep sim1 (set_table t rep).
Proof.
  intros Hs Hrep Ho Hl Hn Hi. pose proof (wf_objs_new sim o Ho Hl Hs) as Hw. rewrite Hn in Hw.
  destruct Hw as (Hw & Hg & Hnone & Hid). split; [done|done|].
  intros fd' x Hx. cbn [fd_table_ set_table] in *.
  destruct (insert_live _ _ _ _ Hi) as [-> |Hlive]; [by left|]. rewrite Hlive in Hx.
  case_bool_decide as E; [|by left]. injection Hx as <-. subst fd'. right.
  split; [done|]. split; [by eexists|]. intros fd2. rewrite Hlive. case_bool_decide; [done|].
  intros Hx%Hrep. destruct Hx. congruence.
Qed.

Lemma wf_set_rng r sim : wf_objs sim -> wf_objs (set_rng r sim).
Proof. by apply wf_objs_same. Qed.

Lemma effect_set_rng r sim rep sim' rep' :
  effect (set_rng r sim) rep sim' rep' -> effect sim rep sim' rep'.
Proof. by intros [? ? ?]. Qed.

(** The insertion at the end of [sys_socket]. *)
Lemma insert_effect sim rep o sim1 id r sim' rep' :
  wf_objs sim -> wf_rep sim rep -> o <> StdoutObj -> (forall s, o = StreamObj s -> listening_ s = false) ->
  new_obj o sim = (id, sim1) ->
  ('(fd, t) ← FdTable.insert id (fd_table_ rep);
   if fd <? 0 then fail EMFILE sim1 (set_table t rep)
   else Ret (handled fd, sim1, set_table t rep)) = Ret (r, sim', rep') ->
  effect sim rep sim' rep'.
Proof.
  intros Hs Hrep Ho Hl Hn Hc. apply bind_Ret_inv in Hc as ([fd t] & Hi & Hc).
  destruct (fd <? 0).
  - apply fail_inv in Hc as [? ?]; cbn [fst snd] in *; subst. by eapply effect_new.
  - injection Hc as <- <- <-. by eapply effect_new.
Qed.

Lemma sys_socket_effect args sim rep r sim' rep' :
  wf_objs sim -> wf_rep sim rep -> sys_socket args sim rep = Ret (r, sim', rep') -> effect sim rep sim' rep'.
Proof.
  intros Hs Hrep. unfold sys_socket.
  assert (Hmk : forall af, (if i32 (arg args 1) =? SOCK_STREAM then
      let '(id, sim) := new_obj (StreamObj (make_stream af)) sim in
      '(fd, t) ← FdTable.insert id (fd_table_ rep);
      if fd <? 0 then fail EMFILE sim (set_table t rep) else Ret (handled fd, sim, set_table t rep)
    else if i32 (arg args 1) =? SOCK_DGRAM then
      let '(d, sim) := make_datagram af sim in
      let '(id, sim) := new_obj (DgramObj d) sim in
      '(fd, t) ← FdTable.insert id (fd_table_ rep);
      if fd <? 0 then fail EMFILE sim (set_table t rep) else Ret (handled fd, sim, set_table t rep)
    else fail EINVAL sim rep) = Ret (r, sim', rep') -> effect sim rep sim' rep').
  { intros af. destruct (_ =? SOCK_STREAM); [|destruct (_ =? SOCK_DGRAM)].
    - intros Hc'. refine (insert_effect _ _ _ _ _ _ _ _ Hs Hrep _ _ eq_refl Hc'); [done|].
      by intros s [= <-].
    - unfold make_datagram. destruct (Pipe.seed _ _) as [p rng].
      intros Hc'. apply (effect_set_rng rng).
      by refine (insert_effect _ _ _ _ _ _ _ _ (wf_set_rng rng sim Hs) Hrep _ _ eq_refl Hc').
    - intros Hf. hook_cases. eauto with redstone. }
  intros Hc. destruct (_ =? AF_INET); [by apply (Hmk ipv4)|]. destruct (_ =? AF_UNIX); [by apply (Hmk unix_)|].
  hook_cases. eauto with redstone.
Qed.

Lemma sys_bind_effect held garbage args sim rep r sim' rep' :
  wf held sim rep -> sys_bind held garbage args sim rep = Ret (r, sim', rep') -> effect sim rep sim' rep'.
Proof.
  intros Hw. pose proof (wf_sim _ _ _ Hw) as Hs. unfold sys_bind.
  rewrite (get_fd_ok _ _ _ (wf_table _ _ _ Hw)). intros Hc. cbn [mbind outcome_bind] in Hc.
  hook_cases; eauto with redstone.
Qed.

Lemma sys_connect_effect held garbage args sim rep r sim' rep' :
  wf held sim rep -> sys_connect held garbage args sim rep = Ret (r, sim', rep') -> effect sim rep sim' rep'.
Proof.
  intros Hw. pose proof (wf_sim _ _ _ Hw) as Hs. unfold sys_connect. intros Hc.
  destruct (negb (FdTable.is_simulated _)); [by hook_cases; eauto with redstone|].
  apply bind_Ret_inv in Hc as ([err addr] & _ & Hc).
  destruct (negb (err =? 0)); [by hook_cases; eauto with redstone|].
  rewrite (get_fd_ok _ _ _ (wf_table _ _ _ Hw)) in Hc. cbn [mbind outcome_bind] in Hc.
  hook_cases; eauto with redstone.
  all: try (match goal with E : fd_obj _ _ _ = Some _ |- _ => apply fd_obj_Some in E as [_ E] end).
  all: eapply effect_obj; [done|by eexists| | |reflexivity|done|eauto with redstone]; [done|].
  all: intros s' [= <-]; match goal with E : connect ?a _ _ = _ |- _ =>
    unfold connect in E; repeat case_match; injection E as _ <-; cbn [listening_ set_peer];
    by eapply (wf_no_listening _ Hs) end.
Qed.

Lemma sys_sendto_effect held fuel now garbage args sim rep r sim' rep' :
  wf held sim rep -> sys_sendto mx alloc held fuel now garbage args sim rep = Ret (r, sim', rep') ->
  effect sim rep sim' rep'.
Proof.
  intros Hw. pose proof (wf_sim _ _ _ Hw) as Hs. unfold sys_sendto. intros Hc.
  destruct (negb (FdTable.is_simulated _)); [by hook_cases; eauto with redstone|].
  apply bind_Ret_inv in Hc as ([err addr] & _ & Hc).
  destruct (negb (err =? 0)); [by hook_cases; eauto with redstone|].
  rewrite (get_fd_ok _ _ _ (wf_table _ _ _ Hw)) in Hc. cbn [mbind outcome_bind] in Hc.
  destruct (fd_obj _ sim rep) as [[id []]|]; [by hook_cases; eauto with redstone..| |by hook_cases; eauto with redstone].
  apply bind_Ret_inv in Hc as ([[res sim1] st] & Hsend & [= <- <- <-]).
  unfold send_to in Hsend. destruct (Network.get _ _ _) as [sock n].
  destruct sock as [tid|]; [|injection Hsend as <- <- <-; eauto with redstone].
  cbn [objs set_net] in Hsend.
  destruct (objs sim !! tid) as [[]|] eqn:Eo; try (injection Hsend as <- <- <-; eauto with redstone); [|done].
  apply bind_Ret_inv in Hsend as (buf & _ & Hsend). destruct (store_fragment_callback _ _ _) as [[res' b'] a'].
  destruct (res' <? 0); [injection Hsend as <- <- <-; eauto with redstone|].
  apply bind_Ret_inv in Hsend as (d' & _ & [= <- <- <-]).
  apply (effect_obj _ _ _ _ tid (DgramObj d')); try done; eauto with redstone.
Qed.

Lemma sys_recvfrom_effect held now args sim rep r sim' rep' :
  wf held sim rep -> sys_recvfrom now args sim rep = Ret (Got (r, sim', rep')) -> effect sim rep sim' rep'.
Proof.
  intros Hw. pose proof (wf_sim _ _ _ Hw) as Hs. unfold sys_recvfrom.
  rewrite (get_fd_ok _ _ _ (wf_table _ _ _ Hw)). intros Hc. cbn [mbind outcome_bind] in Hc.
  destruct (negb (FdTable.is_simulated _)); [injection Hc as <- <- <-; eauto with redstone|].
  destruct (fd_obj _ sim rep) as [[id []]|] eqn:Eo.
  1,2,4: apply fmap_Ret_inv in Hc as (x & Hf & [= ->]); apply fail_inv in Hf as [? ?];
    cbn [fst snd] in *; subst; eauto with redstone.
  apply fd_obj_Some in Eo as [_ Eo].
  destruct (recv_from _ _ _ _ _) as [| |[[[res a] d'] [m ad]]]; [done..|]. injection Hc as <- <- <-.
  apply (effect_obj _ _ _ _ id (DgramObj d')); try done; eauto with redstone.
Qed.

Lemma clock_effect h e args sim rep r sim' rep' :
  wf_objs sim -> h = HookTable.sys_clock_gettime \/ h = HookTable.sys_clock_nanosleep ->
  call_hook mx alloc e h args sim rep = Ret (Got (r, sim', rep')) -> effect sim rep sim' rep'.
Proof.
  intros Hs [-> | ->]; cbn [call_hook]; intros Hc; apply fmap_Ret_inv in Hc as (x & Hc & Hx).
  - injection Hx as ->. unfold sys_clock_gettime in Hc. apply bind_Ret_inv in Hc as ([s n] & _ & Hc).
    destruct (run_write _ _ _) as [res m]. hook_cases; by apply effect_same.
  - destruct x as [[[r0 s0] p0] sl]. injection Hx as -> -> ->.
    unfold sys_clock_nanosleep in Hc. destruct (run_read _ _ _) as [res tm].
    destruct (res <? 0).
    + apply bind_Ret_inv in Hc as (y & Hf & [= ->]). apply fail_inv in Hf as [? ?].
      cbn [fst snd] in *; subst. by apply effect_same.
    + destruct (timespec_of tm) as [s n]. apply bind_Ret_inv in Hc as (? & _ & Hc).
      apply bind_Ret_inv in Hc as (? & _ & [= <- <- <- <-]). by apply effect_same.
Qed.

Lemma call_hook_effect e h args sim rep r sim' rep' :
  wf (held_ e) sim rep -> call_hook mx alloc e h args sim rep = Ret (Got (r, sim', rep')) ->
  effect sim rep sim' rep'.
Proof.
  intros Hw Hc. pose proof (wf_sim _ _ _ Hw) as Hs.
  destruct h.
  9,10: eapply clock_effect; [done| |exact Hc]; auto.
  all: cbn [call_hook] in Hc.
  all: try match type of Hc with _ <$> _ = _ => apply fmap_Ret_inv in Hc as (x & Hc & [= ->]) end.
  - by eapply sys_write_effect.
  - by eapply sys_read_effect.
  - by eapply sys_close_effect.
  - eapply sys_socket_effect; [done|apply Hw|exact Hc].
  - by eapply sys_sendto_effect.
  - by eapply sys_recvfrom_effect.
  - by eapply sys_connect_effect.
  - by eapply sys_bind_effect.
  - injection Hc as <- <- <-. eauto with redstone.
Qed.

(** ** The world *)

Lemma others_spec (reps : list (replica M)) i id :
  others reps i id = true
  <-> exists j rep, j <> i /\ reps !! j = Some rep /\ exists fd, FdTable.live (fd_table_ rep) fd = Some id.
Proof.
  unfold others. rewrite existsb_exists. split.
  - intros ([j rep] & Hin & [Hj Ho]%andb_prop). apply list_elem_of_In, elem_of_lookup_imap in Hin
      as (k & rep' & [= -> ->] & Hk). exists k, rep'. cbn in *.
    apply negb_true_iff, Nat.eqb_neq in Hj. by rewrite <- owns_spec.
  - intros (j & rep & Hj & Hl & Ho). exists (j, rep). cbn. rewrite <- owns_spec in Ho. rewrite Ho.
    split; [|by rewrite (proj2 (Nat.eqb_neq _ _)) by done].
    apply list_elem_of_In, elem_of_lookup_imap. by exists j, rep.
Qed.

(** Pointers are never dangling, and an object is owned once. *)
Record world_ok (w : world Q M) : Prop := {
  ok_objs : wf_objs (w_sim w);
  ok_reps : forall i rep, w_reps w !! i = Some rep -> wf_rep (w_sim w) rep;
  ok_owner : forall i j ri rj fd fd' id, w_reps w !! i = Some ri -> w_reps w !! j = Some rj ->
    FdTable.live (fd_table_ ri) fd = Some id -> FdTable.live (fd_table_ rj) fd' = Some id ->
    i = j /\ fd = fd';
}.

Lemma world_ok_wf w i rep :
  world_ok w -> w_reps w !! i = Some rep -> wf (others (w_reps w) i) (w_sim w) rep.
Proof.
  intros Hw Hi. split; [apply Hw|by apply (ok_reps _ Hw i)|].
  intros id (j & r & _ & Hj & fd & Hl)%others_spec. by apply (ok_reps _ Hw j r Hj fd).
Qed.

Lemma world_ok_call w i rep sim rep' :
  world_ok w -> w_reps w !! i = Some rep -> effect (w_sim w) rep sim rep' ->
  world_ok {| w_sim := sim; w_reps := <[i := rep']> (w_reps w) |}.
Proof.
  intros Hw Hi [Hs Hg Hl]. assert (Hlen : (i < length (w_reps w))%nat) by (by eapply lookup_lt_Some).
  assert (Hr : forall j r, <[i := rep']> (w_reps w) !! j = Some r ->
    j = i /\ r = rep' \/ j <> i /\ w_reps w !! j = Some r).
  { intros j r Hj. destruct (decide (i = j)) as [<-|Hne].
    - rewrite list_lookup_insert_eq in Hj by done. left. split; congruence.
    - rewrite list_lookup_insert_ne in Hj by done. by right. }
  split; cbn [w_sim w_reps]; [done| |].
  - intros j r [[-> ->]|[_ Hj]]%Hr fd id Hfd.
    + destruct (Hl _ _ Hfd) as [Ho|(_ & Hn & _)]; [|done]. by apply Hg, (ok_reps _ Hw i rep Hi fd).
    + by apply Hg, (ok_reps _ Hw j r Hj fd).
  - assert (Hold : forall j r fd id, w_reps w !! j = Some r -> FdTable.live (fd_table_ r) fd = Some id ->
      is_Some (objs (w_sim w) !! id)) by (intros j r fd id Hj; by apply (ok_reps _ Hw j)).
    intros j k rj rk fd fd' id [[-> ->]|[Hj' Hj]]%Hr [[-> ->]|[Hk' Hk]]%Hr H1' H2'.
    + split; [done|]. destruct (Hl _ _ H1') as [Ho|(_ & _ & Hu)]; [|by rewrite (Hu fd')].
      destruct (Hl _ _ H2') as [Ho'|(Hn & _)]; [by apply (ok_owner _ Hw i i rep rep fd fd' id)|].
      apply (Hold i rep fd) in Ho as [? ?]; [congruence|done].
    + destruct (Hl _ _ H1') as [Ho|(Hn & _)].
      * by apply (ok_owner _ Hw i k rep rk fd fd' id).
      * apply (Hold k rk fd') in H2' as [? ?]; [congruence|done].
    + destruct (Hl _ _ H2') as [Ho|(Hn & _)].
      * by apply (ok_owner _ Hw j i rj rep fd fd' id).
      * apply (Hold j rj fd) in H1' as [? ?]; [congruence|done].
    + by apply (ok_owner _ Hw j k rj rk fd fd' id).
Qed.

Lemma world_ok_step w w' : world_ok w -> world_step mx alloc w w' -> world_ok w'.
Proof.
  intros Hw Hstep. destruct Hstep as [w i rep e h args r sim rep' Hi He Hc|w i rep m Hi|w m now].
  - eapply world_ok_call; [done..|]. eapply call_hook_effect; [|exact Hc].
    rewrite He. by apply world_ok_wf.
  - eapply world_ok_call; [done..|]. by apply effect_same; [apply Hw|..].
  - assert (Hr : forall j r, (w_reps w ++ [make_replica m now]) !! j = Some r ->
      w_reps w !! j = Some r \/ forall fd, FdTable.live (fd_table_ r) fd = None).
    { intros j r [Hj|[_ Hj]]%lookup_app_Some; [by left|right].
      apply list_lookup_singleton_Some in Hj as [_ <-]. intros fd.
      unfold FdTable.live. cbn. by rewrite lookup_empty. }
    split; cbn [w_sim w_reps]; [apply Hw| |].
    + intros j r [Hj|Hj]%Hr fd id Hfd; [by apply (ok_reps _ Hw j r Hj fd)|]. by rewrite Hj in Hfd.
    + intros j k rj rk fd fd' id [Hj|Hj]%Hr [Hk|Hk]%Hr Hfd Hfd';
        rewrite ?Hj in Hfd; rewrite ?Hk in Hfd'; try done. by apply (ok_owner _ Hw j k rj rk _ _ id).
Qed.

Lemma reachable_ok o w : reachable mx alloc o w -> world_ok w.
Proof.
  induction 1 as [|w w' _ IH Hs]; [|by eapply world_ok_step].
  unfold make_simulator. destruct (Xoshiro.seed_from _) as [r0 s0].
  split; cbn [w_sim w_reps]; [|intros i rep|intros i j ri rj fd fd' id]; [|by rewrite lookup_nil..].
  split; cbn [objs]; intros id; rewrite lookup_empty; [by intros []|done..].
Qed.

End Effects.
