(* ===== verification/HookProps.v ===== *)
(** * Properties of the hooks

    What the calls of a traced process see: the world's invariant, which calls
    stay in the simulator, descriptors, name binding, datagrams, time. *)

From Stdlib Require Import Strings.Byte SpecFloat.
From S2P Require Import Prelude Words Float Random Faults Socket Network FdTable Pipe Stream.
From S2P Require Import Syscalls HookTable Runner Tracee Addr World Hooks HookSpec.

Section Lemmas.
Context {Q M : Type} `{PriorityQueue Q} `{RunnerHandle M} `{Bernoulli Xoshiro.xoshiro256_star_star} `{Build}.
Variables (mx : Z) (alloc : Z -> bool).
Implicit Types (sim : simulator Q) (rep : replica M) (held : obj_id -> bool).

Lemma fail_ok c sim rep : 0 <= c -> fail c sim rep = Ret (Handled (u64 (- c)), sim, rep).
Proof. intros Hc. unfold fail, error. by rewrite assert_true by by apply Z.leb_le. Qed.

Lemma fail_handled c sim rep x : fail c sim rep = Ret x -> x.1.1 <> Passthrough.
Proof.
  unfold fail, error. intros Hf. apply bind_Ret_inv in Hf as (r & Hr & [= <-]).
  by apply bind_Ret_inv in Hr as (? & _ & [= <-]).
Qed.

(** The hooks whose first argument is a descriptor. *)
Definition takes_fd (h : hook) : bool :=
  match h with
  | HookTable.sys_write | HookTable.sys_read | HookTable.sys_close | HookTable.sys_sendto
  | HookTable.sys_recvfrom | HookTable.sys_connect | HookTable.sys_bind => true
  | _ => false
  end.

Lemma real_fd_passes e h args sim rep :
  takes_fd h = true -> FdTable.is_simulated (i32 (arg args 0)) = false ->
  call_hook mx alloc e h args sim rep = Ret (Got (passthrough, sim, rep)).
Proof.
  intros Hh Hf. destruct h; try done; cbn [call_hook];
    [unfold sys_write|unfold sys_read|unfold sys_close|unfold sys_sendto|unfold sys_recvfrom
    |unfold sys_connect|unfold sys_bind]; by rewrite Hf.
Qed.

Ltac handled_cases :=
  repeat match goal with
  | H : fail _ _ _ = Ret (Passthrough, _, _) |- _ => by apply fail_handled in H
  | H : fail _ _ _ = Ret ?x |- _ => is_var x; apply fail_handled in H
  | H : (if ?b then _ else _) = Ret _ |- _ => destruct b eqn:?
  | H : (let '(_, _) := ?x in _) = Ret _ |- _ => destruct x eqn:?
  | H : match ?x with _ => _ end = Ret _ |- _ => destruct x eqn:?
  | H : Ret _ = Ret _ |- _ => discriminate H
  | H : fmap _ _ = Ret _ |- _ =>
      let x := fresh in let Hx := fresh in apply fmap_Ret_inv in H as (x & H & Hx)
  | H : mbind _ _ = Ret _ |- _ =>
      let x := fresh in let Hx := fresh in apply bind_Ret_inv in H as (x & Hx & H)
  end.

Lemma simulated_fd_stays e h args sim rep sim' rep' :
  (takes_fd h = true -> FdTable.is_simulated (i32 (arg args 0)) = true) -> h <> explicit_passthrough ->
  call_hook mx alloc e h args sim rep <> Ret (Got (Passthrough, sim', rep')).
Proof.
  intros Hf Hh Hc. destruct h; try done; cbn [call_hook] in Hc.
  all: try match type of Hc with _ <$> _ = _ => apply fmap_Ret_inv in Hc as (x & Hc & [= ->]) end.
  all: unfold sys_write, sys_read, sys_close, sys_sendto, sys_recvfrom, sys_connect, sys_bind, sys_socket,
    sys_clock_gettime, sys_clock_nanosleep in Hc; try (rewrite Hf in Hc by done; cbn [negb] in Hc).
  all: handled_cases; simplify_eq; try done.
Qed.

End Lemmas.

(** ** A world for the witnesses: one process with a page of zeros *)

Definition no_udp_limit := 65536.
(** The address "..c" stands at 4096. *)
Definition some_memory : gmap Z byte :=
  (write_memory 4096 [x01; x00; x61; x62; x63; x00] (zeros 4096 128)).2.

Import PacketList.

Definition one_process : world queue (gmap Z byte) :=
  {| w_sim := make_simulator (default_sim_options 0); w_reps := [make_replica some_memory 0] |}.

Lemma one_process_reachable `{Build} :
  reachable no_udp_limit (fun _ => true) (default_sim_options 0) one_process.
Proof.
  eapply ReachStep; [apply ReachInit|].
  exact (StepStart no_udp_limit (fun _ => true)
    {| w_sim := make_simulator (default_sim_options 0); w_reps := [] |} some_memory 0).
Qed.

(** * Properties *)

(** C2: the world's invariant. However the calls of the processes interleave,
    in every reachable world looking up a descriptor never follows a dangling
    pointer, an address that resolves leads to an object that exists, a socket
    object is owned by one descriptor number of one process only, and the
    stdout descriptor is nobody's. *)
Theorem world_invariant {Q M} `{PriorityQueue Q} `{RunnerHandle M}
    `{Bernoulli Xoshiro.xoshiro256_star_star} `{Build} (mx : Z) (alloc : Z -> bool) (o : options)
    (w : world Q M) (i j : nat) (ri rj : replica M) (fd fd' : Z) (id : obj_id) (addr : socket_addr) :
  reachable mx alloc o w -> w_reps w !! i = Some ri -> w_reps w !! j = Some rj ->
  get_fd fd (w_sim w) ri = Ret (fd_obj fd (w_sim w) ri, touch fd ri)
  /\ (Network.resolve (alive (others (w_reps w) i) ri) (net_ (w_sim w)) addr = Some id ->
      is_Some (objs (w_sim w) !! id))
  /\ (FdTable.live (fd_table_ ri) fd = Some id -> FdTable.live (fd_table_ rj) fd' = Some id ->
      i = j /\ fd = fd')
  /\ objs (w_sim w) !! id <> Some StdoutObj.
Proof.
  intros Hr%reachable_ok Hi Hj. pose proof (world_ok_wf w i ri Hr Hi) as Hw.
  split; [apply get_fd_ok, Hw|]. split; [|split].
  - intros Ha%Network.resolve_Some. by eapply alive_exists.
  - by eapply (ok_owner _ Hr).
  - apply (wf_no_stdout _ (ok_objs _ Hr)).
Qed.

Example world_invariant_witness :
  get_fd 5 (w_sim one_process) (make_replica some_memory 0)
  = Ret (None, touch 5 (make_replica some_memory 0)).
Proof.
  exact (proj1 (world_invariant (H2 := debug_build) no_udp_limit (fun _ => true) (default_sim_options 0) one_process 0 0
    (make_replica some_memory 0) (make_replica some_memory 0) 5 5 1%positive default_addr
    (one_process_reachable (H := debug_build)) eq_refl eq_refl)).
Defined.

(** C3: which calls reach the kernel. A returning call of a table entry is
    passed through exactly when the entry is the explicit passthrough or its
    descriptor argument is not a simulated number, and then it changed
    nothing; such a call always returns. So a simulated descriptor is never
    handed to the kernel and a real one never reaches the simulation. *)
Theorem passthrough_exactly {Q M} `{PriorityQueue Q} `{RunnerHandle M}
    `{Bernoulli Xoshiro.xoshiro256_star_star} `{Build} (mx : Z) (alloc : Z -> bool) (e : env)
    (h : hook) (args : list Z) (sim sim' : simulator Q) (rep rep' : replica M) (r : hook_result) :
  let real := h = explicit_passthrough
              \/ takes_fd h = true /\ FdTable.is_simulated (i32 (arg args 0)) = false in
  (real -> call_hook mx alloc e h args sim rep = Ret (Got (passthrough, sim, rep)))
  /\ (call_hook mx alloc e h args sim rep = Ret (Got (r, sim', rep')) -> r = Passthrough <-> real).
Proof.
  intros real.
  assert (Hreal : real -> call_hook mx alloc e h args sim rep = Ret (Got (passthrough, sim, rep)))
    by (intros [-> |[Hh Hf]]; [done|by apply real_fd_passes]).
  split; [exact Hreal|]. intros Hc. split.
  - intros ->. unfold real. destruct (decide (h = explicit_passthrough)) as [->|Hne]; [by left|right].
    destruct (decide (takes_fd h = true /\ FdTable.is_simulated (i32 (arg args 0)) = false))
      as [?|Hn]; [done|]. apply simulated_fd_stays in Hc; [done| |done].
    intros Ht. destruct (FdTable.is_simulated _); [done|]. by destruct Hn.
  - intros Hr. rewrite (Hreal Hr) in Hc. by injection Hc as <- _ _.
Qed.

Example passthrough_exactly_witness :
  call_hook (H2 := debug_build) no_udp_limit (fun _ => true)
    {| held_ := fun _ => false; fuel_ := 0; now_ := 0; garbage_ := [] |}
    HookTable.sys_close [3] (w_sim one_process) (make_replica some_memory 0)
  = Ret (Got (passthrough, w_sim one_process, make_replica some_memory 0)).
Proof.
  refine (proj1 (passthrough_exactly (H2 := debug_build) no_udp_limit (fun _ => true) _
    HookTable.sys_close [3] (w_sim one_process) (w_sim one_process) (make_replica some_memory 0)
    (make_replica some_memory 0) passthrough) _).
  right. by split.
Defined.

(** [write] and [read] on simulated descriptors move no data. Socket
    classes do not override the base class's functions, so in every reachable
    world a call on an open simulated descriptor answers EINVAL, and EBADF
    otherwise, leaves the process's memory and the simulator as they are and
    at most adds a null entry to the descriptor table. *)
Theorem read_write_never_transfer {Q M} `{PriorityQueue Q} `{RunnerHandle M}
    `{Bernoulli Xoshiro.xoshiro256_star_star} `{Build} (mx : Z) (alloc : Z -> bool) (o : options)
    (w : world Q M) (i : nat) (rep : replica M) (fuel : nat) (args : list Z) :
  reachable mx alloc o w -> w_reps w !! i = Some rep ->
  FdTable.is_simulated (i32 (arg args 0)) = true ->
  let fd := i32 (arg args 0) in
  let code := match FdTable.live (fd_table_ rep) fd with Some _ => EINVAL | None => EBADF end in
  sys_write fuel args (w_sim w) rep = Ret (Handled (u64 (- code)), w_sim w, touch fd rep)
  /\ sys_read args (w_sim w) rep = Ret (Handled (u64 (- code)), w_sim w, touch fd rep)
  /\ mem_ (touch fd rep) = mem_ rep.
Proof.
  intros Hr%reachable_ok Hi Hf. cbn zeta.
  pose proof (world_ok_wf w i rep Hr Hi) as Hw. pose proof (wf_table _ _ _ Hw) as Ht.
  unfold sys_write, sys_read. rewrite Hf. cbn [negb]. rewrite !get_fd_ok by done.
  cbn [mbind outcome_bind]. unfold fd_obj.
  destruct (FdTable.live (fd_table_ rep) (i32 (arg args 0))) as [id|] eqn:El.
  - destruct (Ht _ _ El) as [ob Ho]. cbn. rewrite Ho. cbn.
    destruct ob; [|done|done]. by destruct (wf_no_stdout _ (wf_sim _ _ _ Hw) id).
  - cbn. by rewrite fail_ok.
Qed.

Example read_write_never_transfer_witness :
  sys_read (H2 := debug_build) [1073741824; 4096; 8] (w_sim one_process) (make_replica some_memory 0)
  = Ret (Handled (u64 (- EBADF)), w_sim one_process, touch 1073741824 (make_replica some_memory 0)).
Proof.
  exact (proj1 (proj2 (read_write_never_transfer (H2 := debug_build) no_udp_limit (fun _ => true)
    (default_sim_options 0) one_process 0 (make_replica some_memory 0) 0 [1073741824; 4096; 8]
    (one_process_reachable (H := debug_build)) eq_refl eq_refl))).
Defined.

(** The object a successful [socket] call leaves behind. *)
Definition new_socket {Q} `{PriorityQueue Q} (sim : simulator Q) (af : address_family) (type : Z)
    (ob : object Q) : Prop :=
  (type = SOCK_STREAM /\ ob = StreamObj (make_stream af))
  \/ (type = SOCK_DGRAM /\ exists d, ob = DgramObj d /\ get_af (d_base d) = af
       /\ packets_ (inbound_ d) = pq_empty /\ fault_options_ (inbound_ d) = net_faults (options_ sim)
       /\ rng_ (inbound_ d) = (Xoshiro.seed_from (sim_rng sim)).1).

Lemma sys_socket_make {Q M} `{PriorityQueue Q} `{Build} (sim : simulator Q) (rep : replica M) af args :
  af = ipv4 /\ i32 (arg args 0) = AF_INET \/ af = unix_ /\ i32 (arg args 0) = AF_UNIX ->
  i32 (arg args 1) = SOCK_STREAM \/ i32 (arg args 1) = SOCK_DGRAM ->
  exists sim1 id ob, new_socket sim af (i32 (arg args 1)) ob /\ objs sim1 = <[id := ob]> (objs sim)
    /\ id = next_id sim
    /\ sys_socket args sim rep
       = ('(fd, t) ← FdTable.insert id (fd_table_ rep);
          if fd <? 0 then fail EMFILE sim1 (set_table t rep)
          else Ret (handled fd, sim1, set_table t rep)).
Proof.
  intros Haf Hty. unfold sys_socket.
  assert (Hs : forall A (x y z : A), (if i32 (arg args 0) =? AF_INET then x
     else if i32 (arg args 0) =? AF_UNIX then y else z) = match af with ipv4 => x | unix_ => y end)
    by (intros; by destruct Haf as [[-> ->]|[-> ->]]).
  rewrite Hs. destruct Hty as [-> | ->].
  - eexists _, _, (StreamObj (make_stream af)).
    split; [by left|]. split; [|split; [|by destruct af]]; reflexivity.
  - unfold make_datagram. cbn [new_obj].
    destruct (Pipe.seed (sim_rng sim) (Pipe.make (net_faults (options_ sim)) Xoshiro.default)) as [p rng] eqn:Ep.
    eexists _, _, (DgramObj {| d_base := {| af_ := af; type_ := stream |}; inbound_ := p |}).
    split; [right; split; [done|]|split; [|split; [|by destruct af]]; reflexivity].
    eexists. split; [done|]. split; [done|]. unfold Pipe.seed in Ep. cbn [inbound_].
    destruct (Xoshiro.seed_from (sim_rng sim)) as [r s]. injection Ep as <- _. done.
Qed.

(** [socket]. An unsupported family or type (also a type with flag bits)
    gives EINVAL and changes nothing. Otherwise, with a table that never saw a
    stray number: a number that was not open becomes the only one that leads
    to a fresh object of the requested kind and family, a datagram socket with
    an empty queue, the configured faults and a generator seeded from the
    simulator's; every other number keeps its object. A full table gives
    EMFILE. *)
Theorem sys_socket_spec {Q M} `{PriorityQueue Q} `{Build} (args : list Z) (sim : simulator Q)
    (rep : replica M) (n : Z) :
  FdFacts.inv n (fd_table_ rep) ->
  let domain := i32 (arg args 0) in
  let type := i32 (arg args 1) in
  ((domain <> AF_INET /\ domain <> AF_UNIX) \/ (type <> SOCK_STREAM /\ type <> SOCK_DGRAM) ->
     sys_socket args sim rep = Ret (Handled (u64 (- EINVAL)), sim, rep))
  /\ (forall af, af = ipv4 /\ domain = AF_INET \/ af = unix_ /\ domain = AF_UNIX ->
      type = SOCK_STREAM \/ type = SOCK_DGRAM ->
      (FdTable.unused_ (fd_table_ rep) = [] -> n = FdTable.capacity ->
         exists sim', sys_socket args sim rep = Ret (Handled (u64 (- EMFILE)), sim', rep))
      /\ (FdTable.unused_ (fd_table_ rep) <> [] \/ n < FdTable.capacity ->
         exists fd ob sim' rep' n', sys_socket args sim rep = Ret (handled fd, sim', rep')
           /\ FdFacts.inv n' (fd_table_ rep') /\ FdFacts.allocated n' fd
           /\ FdTable.live (fd_table_ rep) fd = None
           /\ (forall fd', FdTable.live (fd_table_ rep') fd'
                 = if bool_decide (fd = fd') then Some (next_id sim) else FdTable.live (fd_table_ rep) fd')
           /\ new_socket sim af type ob /\ objs sim' = <[next_id sim := ob]> (objs sim))).
Proof.
  intros Hinv. cbn zeta. split; [|intros af Haf Hty].
  - intros Hbad. unfold sys_socket.
    destruct (Z.eqb_spec (i32 (arg args 0)) AF_INET), (Z.eqb_spec (i32 (arg args 0)) AF_UNIX),
      (Z.eqb_spec (i32 (arg args 1)) SOCK_STREAM), (Z.eqb_spec (i32 (arg args 1)) SOCK_DGRAM);
      try (by apply fail_ok); exfalso; intuition congruence.
  - destruct (sys_socket_make sim rep af args Haf Hty) as (sim1 & id & ob & Hob & Hobjs & -> & ->).
    destruct (FdFacts.insert_spec n (fd_table_ rep) (next_id sim) Hinv) as [Hfull Hfree]. split.
    + intros Hu Hn. rewrite (Hfull Hu Hn). cbn [mbind outcome_bind]. exists sim1.
      change (-1 <? 0) with true. cbn iota. rewrite fail_ok by done. by destruct rep.
    + intros Hu. destruct (Hfree Hu) as (fd & t' & n' & -> & Hi' & Hn' & Hnl & Ha & Hl).
      assert (Hfd : (fd <? 0) = false) by (apply Z.ltb_ge; unfold FdFacts.allocated, FdTable.simulated in Ha; lia).
      cbn [mbind outcome_bind]. rewrite Hfd. eexists fd, ob, sim1, _, n'. by split.
Qed.

Example sys_socket_spec_witness :
  sys_socket (H2 := debug_build) [10; 2; 0] (w_sim one_process) (make_replica some_memory 0)
  = Ret (Handled (u64 (- EINVAL)), w_sim one_process, make_replica some_memory 0).
Proof.
  refine (proj1 (sys_socket_spec (H0 := debug_build) [10; 2; 0] (w_sim one_process)
    (make_replica some_memory 0) 0 _) _).
  - apply FdFacts.inv_empty.
  - left. split; vm_compute; discriminate.
Defined.

(** ** Binding *)

Section Bind.
Context {Q M : Type} `{PriorityQueue Q} `{RunnerHandle M} `{Build}.
Implicit Types (sim : simulator Q) (rep : replica M) (held : obj_id -> bool).

Lemma sys_bind_eq held garbage args sim rep id o addr :
  wf_rep sim rep -> FdTable.is_simulated (i32 (arg args 0)) = true ->
  FdTable.live (fd_table_ rep) (i32 (arg args 0)) = Some id -> objs sim !! id = Some o -> o <> StdoutObj ->
  parse_addr garbage (arg args 1) (arg args 2) (mem_ rep) = Ret (0, addr) ->
  let rep' := touch (i32 (arg args 0)) rep in
  let b := Network.bind (alive held rep) addr id (net_ sim) in
  sys_bind held garbage args sim rep
  = Ret (Handled (u64 (- b.1)), set_net b.2 sim, rep').
Proof.
  intros Hw Hf Hl Ho Hno Hp rep' b. unfold sys_bind. rewrite Hf. cbn [negb].
  rewrite get_fd_ok by done. cbn [mbind outcome_bind]. unfold fd_obj. rewrite Hl. cbn. rewrite Ho. cbn.
  change (mem_ (touch _ rep)) with (mem_ rep). rewrite Hp. cbn.
  assert (Hb : Network.bind (alive held (touch (i32 (arg args 0)) rep)) addr id (net_ sim) = b).
  { unfold b, Network.bind. destruct (Network.slot _ _) as [[x|] n]; [|done]. cbn.
    by rewrite alive_touch. }
  rewrite Hb. assert (Hc : b.1 = EADDRNOTAVAIL \/ b.1 = EOK).
  { unfold b, Network.bind. destruct (Network.slot _ _) as [x n]. destruct (Network.lock _ x); auto. }
  destruct b as [c n]. cbn [fst snd] in *.
  destruct o; [done|..]; (destruct Hc as [-> | ->]; cbn; [by rewrite fail_ok|done]).
Qed.

Lemma owner_alive held rep fd id : FdTable.live (fd_table_ rep) fd = Some id -> alive held rep id = true.
Proof. intros Hl. apply orb_true_intro. right. apply owns_spec. by exists fd. Qed.

Lemma resolve_ext (al al' : obj_id -> bool) n addr :
  (forall id, al id = al' id) -> Network.resolve al n addr = Network.resolve al' n addr.
Proof.
  intros He. unfold Network.resolve. destruct (Network.map_ n !! addr) as [[s|]|]; cbn; [|done..].
  by rewrite He.
Qed.

(** After the owner's only descriptor is closed the address is free. *)
Lemma resolve_dead (al al' : obj_id -> bool) n addr id :
  Network.resolve al n addr = Some id -> al' id = false -> Network.resolve al' n addr = None.
Proof.
  unfold Network.resolve. intros (w & Hw & Hl)%bind_Some Hd. rewrite Hw. cbn.
  destruct w as [s|]; [|done]. cbn in *. destruct (al s); [|done]. injection Hl as ->. by rewrite Hd.
Qed.

Lemma live_simulated n rep fd id :
  FdFacts.inv n (fd_table_ rep) -> FdTable.live (fd_table_ rep) fd = Some id ->
  FdFacts.allocated n fd /\ FdTable.is_simulated fd = true.
Proof.
  intros Hi Hl. assert (Ha : FdFacts.allocated n fd)
    by (apply (FdFacts.inv_dom _ _ Hi), FdFacts.live_entry; by eexists).
  split; [done|]. pose proof (FdFacts.inv_bound _ _ Hi) as Hb. unfold FdFacts.allocated, FdTable.capacity in *.
  replace fd with (FdTable.simulated + (fd - FdTable.simulated)) by lia.
  apply FdFacts.is_simulated_add. lia.
Qed.

Lemma touch_inv n rep fd id :
  FdFacts.inv n (fd_table_ rep) -> FdTable.live (fd_table_ rep) fd = Some id ->
  FdFacts.inv n (fd_table_ (touch fd rep)).
Proof. intros Hi Hl. apply FdFacts.get_inv; [done|]. by eapply live_simulated. Qed.

(** [bind] on a free address, and on a taken one. *)
Lemma bind_free held rep addr id net :
  alive held rep id = true -> Network.resolve (alive held rep) net addr = None ->
  let b := Network.bind (alive held rep) addr id net in
  b.1 = EOK /\ Network.resolve (alive held rep) b.2 addr = Some id.
Proof.
  intros Ha Hr b. destruct (Network.bind_refines _ addr id net Ha) as [Hc Hn]. fold b in Hc, Hn.
  rewrite Hc, Hn. unfold Network.spec_bind. rewrite Hr. cbn. split; [done|].
  unfold Network.update. by rewrite bool_decide_eq_true_2.
Qed.
Lemma bind_taken held rep addr id id' net :
  alive held rep id = true -> Network.resolve (alive held rep) net addr = Some id' ->
  let b := Network.bind (alive held rep) addr id net in
  b.1 = EADDRNOTAVAIL /\ Network.resolve (alive held rep) b.2 addr = Some id'.
Proof.
  intros Ha Hr b. destruct (Network.bind_refines _ addr id net Ha) as [Hc Hn]. fold b in Hc, Hn.
  rewrite Hc, Hn. unfold Network.spec_bind. by rewrite Hr.
Qed.

(** Closing the one descriptor of an object ends its life. *)
Lemma close_owner `{Bernoulli Xoshiro.xoshiro256_star_star} (w : world Q M) i rep rep2 n fd1 id1 :
  world_ok w -> w_reps w !! i = Some rep -> FdFacts.inv n (fd_table_ rep2) ->
  (forall fd, FdTable.live (fd_table_ rep2) fd = FdTable.live (fd_table_ rep) fd) ->
  FdTable.live (fd_table_ rep) fd1 = Some id1 ->
  exists t', FdTable.close fd1 (fd_table_ rep2) = Ret (0, t')
    /\ (forall fd, FdTable.live t' fd = if bool_decide (fd1 = fd) then None else FdTable.live (fd_table_ rep) fd)
    /\ alive (others (w_reps w) i) (set_table t' rep2) id1 = false.
Proof.
  intros Hr Hi Hinv Hsame Hl1.
  destruct (proj2 (FdFacts.close_spec n _ fd1 Hinv) id1) as (t' & Hclose & _ & _ & Hlive);
    [by rewrite Hsame|].
  assert (Hlive' : forall fd, FdTable.live t' fd
    = if bool_decide (fd1 = fd) then None else FdTable.live (fd_table_ rep) fd)
    by (intros fd; by rewrite Hlive, Hsame).
  exists t'. split; [done|]. split; [done|]. apply orb_false_intro; apply not_true_is_false.
  - intros (j & rj & Hj & Hrj & fd & Hlj)%others_spec.
    by destruct (ok_owner _ Hr i j rep rj fd1 fd id1 Hi Hrj Hl1 Hlj).
  - intros [fd Hfd]%owns_spec. cbn [fd_table_ set_table] in Hfd. rewrite Hlive' in Hfd.
    case_bool_decide as E; [done|].
    by destruct (ok_owner _ Hr i i rep rep fd1 fd id1 Hi Hi Hl1 Hfd) as [_ ?].
Qed.

End Bind.

(** C7: names live as long as their socket. Two sockets of a process, the
    first on a free address: its [bind] answers 0; while it is open [bind] of
    the second to the same address fails with EADDRNOTAVAIL; once the first is
    closed the same call answers 0 and the address resolves to the second. *)
Theorem bind_until_close {Q M} `{PriorityQueue Q} `{RunnerHandle M}
    `{Bernoulli Xoshiro.xoshiro256_star_star} `{Build} (mx : Z) (alloc : Z -> bool) (o : options)
    (w : world Q M) (i : nat) (rep : replica M) (n : Z) (garbage : list byte) (args1 args2 : list Z)
    (id1 id2 : obj_id) (addr : socket_addr) :
  reachable mx alloc o w -> w_reps w !! i = Some rep -> FdFacts.inv n (fd_table_ rep) ->
  i32 (arg args1 0) <> i32 (arg args2 0) ->
  FdTable.live (fd_table_ rep) (i32 (arg args1 0)) = Some id1 ->
  FdTable.live (fd_table_ rep) (i32 (arg args2 0)) = Some id2 ->
  parse_addr garbage (arg args1 1) (arg args1 2) (mem_ rep) = Ret (0, addr) ->
  parse_addr garbage (arg args2 1) (arg args2 2) (mem_ rep) = Ret (0, addr) ->
  let held := others (w_reps w) i in
  Network.resolve (alive held rep) (net_ (w_sim w)) addr = None ->
  exists sim1 rep1 sim2 rep2 rep3 sim4 rep4,
    sys_bind held garbage args1 (w_sim w) rep = Ret (Handled 0, sim1, rep1)
    /\ sys_bind held garbage args2 sim1 rep1 = Ret (Handled (u64 (- EADDRNOTAVAIL)), sim2, rep2)
    /\ sys_close args1 sim2 rep2 = Ret (Handled 0, sim2, rep3)
    /\ sys_bind held garbage args2 sim2 rep3 = Ret (Handled 0, sim4, rep4)
    /\ Network.resolve (alive held rep4) (net_ sim4) addr = Some id2.
Proof.
  intros Hr%reachable_ok Hi Hinv Hne Hl1 Hl2 Hp1 Hp2 held Hres.
  pose proof (world_ok_wf w i rep Hr Hi) as Hw. pose proof (wf_table _ _ _ Hw) as Ht.
  destruct (Ht _ _ Hl1) as [o1 Ho1], (Ht _ _ Hl2) as [o2 Ho2].
  pose proof (wf_no_stdout _ (wf_sim _ _ _ Hw)) as Hno.
  assert (Hn1 : o1 <> StdoutObj) by (intros ->; by destruct (Hno id1)).
  assert (Hn2 : o2 <> StdoutObj) by (intros ->; by destruct (Hno id2)).
  destruct (live_simulated _ _ _ _ Hinv Hl1) as [Ha1 Hf1], (live_simulated _ _ _ _ Hinv Hl2) as [Ha2 Hf2].
  set (fd1 := i32 (arg args1 0)) in *. set (fd2 := i32 (arg args2 0)) in *.
  (* the first bind *)
  destruct (bind_free held rep addr id1 (net_ (w_sim w)) (owner_alive _ _ _ _ Hl1) Hres) as [Hc1 Hr1].
  set (b1 := Network.bind _ _ _ _) in *. set (sim1 := set_net b1.2 (w_sim w)). set (rep1 := touch fd1 rep).
  (* the refused one *)
  assert (Hal1 : forall id, alive held rep1 id = alive held rep id) by (intros; apply alive_touch).
  assert (Hl2' : FdTable.live (fd_table_ rep1) fd2 = Some id2) by (unfold rep1; by rewrite touch_live).
  rewrite <- (resolve_ext _ _ b1.2 addr Hal1) in Hr1.
  destruct (bind_taken held rep1 addr id2 id1 b1.2 (owner_alive _ _ _ _ Hl2') Hr1) as [Hc2 Hr2].
  set (b2 := Network.bind _ _ _ b1.2) in *. set (sim2 := set_net b2.2 sim1). set (rep2 := touch fd2 rep1).
  (* closing the owner *)
  assert (Hinv2 : FdFacts.inv n (fd_table_ rep2)) by (eapply touch_inv; [by eapply touch_inv|exact Hl2']).
  assert (Hlive2 : forall fd, FdTable.live (fd_table_ rep2) fd = FdTable.live (fd_table_ rep) fd)
    by (intros fd; unfold rep2, rep1; by rewrite !touch_live).
  destruct (close_owner w i rep rep2 n fd1 id1 Hr Hi Hinv2 Hlive2 Hl1) as (t' & Hclose & Hlive3 & Hdead).
  set (rep3 := set_table t' rep2) in *.
  assert (Hl3 : FdTable.live (fd_table_ rep3) fd2 = Some id2).
  { cbn [fd_table_ rep3 set_table]. by rewrite Hlive3, bool_decide_eq_false_2. }
  (* the second bind, accepted *)
  pose proof (resolve_dead _ _ _ _ _ Hr2 Hdead) as Hr3.
  destruct (bind_free held rep3 addr id2 b2.2 (owner_alive _ _ _ _ Hl3) Hr3) as [Hc4 Hr4].
  exists sim1, rep1, sim2, rep2, rep3. eexists _, _. split; [|split; [|split; [|split]]].
  - rewrite (sys_bind_eq held garbage args1 (w_sim w) rep id1 o1 addr); try done.
    cbn zeta. fold fd1. fold b1. by rewrite Hc1.
  - rewrite (sys_bind_eq held garbage args2 sim1 rep1 id2 o2 addr); try done;
      [|intros fd id; unfold rep1; rewrite touch_live; apply Ht].
    cbn zeta. fold fd2. change (net_ sim1) with b1.2. fold b2. by rewrite Hc2.
  - unfold sys_close. fold fd1. rewrite Hf1, Hclose. done.
  - rewrite (sys_bind_eq held garbage args2 sim2 rep3 id2 o2 addr); try done.
    + cbn zeta. change (net_ sim2) with b2.2. rewrite Hc4. reflexivity.
    + intros fd id Hfd. cbn [fd_table_ rep3 set_table] in Hfd. rewrite Hlive3 in Hfd.
      case_bool_decide; [done|]. by apply (Ht fd).
  - rewrite <- Hr4. apply resolve_ext. intros id. apply alive_touch.
Qed.

(** Two stream sockets of one process that holds the address "..c". *)
Definition run_call `{Build} (w : world queue (gmap Z byte)) (i : nat) (h : hook) (args : list Z)
  : world queue (gmap Z byte) :=
  match w_reps w !! i with
  | Some rep =>
      match call_hook no_udp_limit (fun _ => true)
              {| held_ := others (w_reps w) i; fuel_ := 8; now_ := 0; garbage_ := [] |} h args (w_sim w) rep with
      | Ret (Got (_, sim, rep')) => {| w_sim := sim; w_reps := <[i := rep']> (w_reps w) |}
      | _ => w
      end
  | None => w
  end.

Lemma run_call_reachable `{Build} o w i h args :
  reachable no_udp_limit (fun _ => true) o w -> reachable no_udp_limit (fun _ => true) o (run_call w i h args).
Proof.
  intros Hr. unfold run_call. destruct (w_reps w !! i) as [rep|] eqn:Ei; [|done].
  destruct (call_hook _ _ _ _ _ _ _) as [[| |[[r sim] rep']]| | | |] eqn:Ec; try done.
  eapply ReachStep; [exact Hr|]. eapply StepCall; [exact Ei| |exact Ec]. reflexivity.
Qed.

Definition two_sockets : world queue (gmap Z byte) :=
  let b := debug_build in
  run_call (run_call one_process 0 HookTable.sys_socket [1; 1; 0]) 0 HookTable.sys_socket [1; 1; 0].
Definition two_sockets_rep : replica (gmap Z byte) :=
  default (make_replica some_memory 0) (w_reps two_sockets !! 0%nat).

Lemma two_sockets_reachable :
  reachable (H2 := debug_build) no_udp_limit (fun _ => true) (default_sim_options 0) two_sockets.
Proof. apply run_call_reachable, run_call_reachable, one_process_reachable. Qed.

Lemma two_sockets_inv : exists n, FdFacts.inv n (fd_table_ two_sockets_rep).
Proof.
  pose (t1 := match FdTable.insert (H := debug_build) 1%positive FdTable.empty with
              | Ret (_, t) => t | _ => FdTable.empty end).
  destruct (FdHistory.reach_inv (H := debug_build) [1073741825; 1073741824] (fd_table_ two_sockets_rep))
    as (n & Hn & _); [|by exists n].
  apply (FdHistory.reach_insert (H := debug_build) [1073741824] t1 2%positive 1073741825).
  - apply (FdHistory.reach_insert (H := debug_build) [] FdTable.empty 1%positive 1073741824).
    + apply FdHistory.reach_empty.
    + vm_compute. reflexivity.
    + lia.
  - vm_compute. reflexivity.
  - lia.
Qed.

Example bind_until_close_witness :
  let b := debug_build in
  exists sim1 rep1, sys_bind (others (w_reps two_sockets) 0) [] [1073741824; 4096; 6]
    (w_sim two_sockets) two_sockets_rep = Ret (Handled 0, sim1, rep1).
Proof.
  intros b. destruct two_sockets_inv as [n Hn].
  destruct (bind_until_close (H2 := debug_build) no_udp_limit (fun _ => true) (default_sim_options 0)
    two_sockets 0 two_sockets_rep n [] [1073741824; 4096; 6] [1073741825; 4096; 6] 1%positive 2%positive
    (Unix {| path := [x63] |}) two_sockets_reachable)
    as (sim1 & rep1 & _ & _ & _ & _ & _ & Hb & _).
  - vm_compute. reflexivity.
  - exact Hn.
  - vm_compute. discriminate.
  - vm_compute. reflexivity.
  - vm_compute. reflexivity.
  - vm_compute. reflexivity.
  - vm_compute. reflexivity.
  - vm_compute. reflexivity.
  - by exists sim1, rep1.
Defined.

(** C19: [connect]. In every reachable world, for an open simulated socket and
    an address that parses: ECONNREFUSED when the address has no live owner or
    the owner is no stream socket, EOPNOTSUPP for a datagram socket,
    EAFNOSUPPORT across families, and otherwise 0, with only this socket's peer
    changed. Nothing ever listens, and the code refuses listeners: a stream
    connects to a socket that only bound its name. *)
Theorem connect_table {Q M} `{PriorityQueue Q} `{RunnerHandle M}
    `{Bernoulli Xoshiro.xoshiro256_star_star} `{Build} (mx : Z) (alloc : Z -> bool) (o : options)
    (w : world Q M) (i : nat) (rep : replica M) (garbage : list byte) (args : list Z)
    (id : obj_id) (s : object Q) (addr : socket_addr) :
  reachable mx alloc o w -> w_reps w !! i = Some rep ->
  FdTable.is_simulated (i32 (arg args 0)) = true ->
  fd_obj (i32 (arg args 0)) (w_sim w) rep = Some (id, s) ->
  parse_addr garbage (arg args 1) (arg args 2) (mem_ rep) = Ret (0, addr) ->
  let held := others (w_reps w) i in
  let peer := Network.resolve (alive held rep) (net_ (w_sim w)) addr ≫= fun pid => 
                (fun p => (pid, p)) <$> objs (w_sim w) !! pid in
  exists sim', 
    sys_connect held garbage args (w_sim w) rep
      = Ret (Handled (match peer, s with
                      | None, _ => u64 (- ECONNREFUSED)
                      | Some _, DgramObj _ => u64 (- EOPNOTSUPP)
                      | Some (_, StreamObj p), StreamObj q =>
                          if decide (af_ (s_base p) = af_ (s_base q)) then 0 else u64 (- EAFNOSUPPORT)
                      | Some _, _ => u64 (- ECONNREFUSED)
                      end), sim', touch (i32 (arg args 0)) rep)
    /\ (forall x, x <> id -> objs sim' !! x = objs (w_sim w) !! x)
    /\ (forall p pid q, peer = Some (pid, StreamObj p) -> s = StreamObj q ->
          af_ (s_base p) = af_ (s_base q) -> objs sim' !! id = Some (StreamObj (set_peer q (Some pid)))).
Proof.
  intros Hr%reachable_ok Hi Hf Hfd Hp held peer.
  pose proof (world_ok_wf w i rep Hr Hi) as Hw. pose proof (wf_table _ _ _ Hw) as Ht.
  pose proof (wf_no_listening _ (wf_sim _ _ _ Hw)) as Hlis.
  pose proof (fd_obj_Some _ _ _ _ _ Hfd) as [Hl Ho].
  assert (Hns : s <> StdoutObj) by (intros ->; by eapply (wf_no_stdout _ (wf_sim _ _ _ Hw))).
  unfold sys_connect. rewrite Hf, Hp. cbn [negb mbind outcome_bind Z.eqb]. rewrite get_fd_ok by done.
  cbn [mbind outcome_bind]. rewrite Hfd.
  pose proof (Network.get_refines (alive held (touch (i32 (arg args 0)) rep)) addr (net_ (w_sim w))) as [Hg _].
  rewrite (resolve_ext _ (alive held rep)) in Hg by apply alive_touch.
  destruct (Network.get _ addr (net_ (w_sim w))) as [pr n]. cbn [fst] in Hg. subst pr.
  assert (Hpeer : forall pid, Network.resolve (alive held rep) (net_ (w_sim w)) addr = Some pid ->
    exists p, objs (w_sim w) !! pid = Some p /\ peer = Some (pid, p) /\ p <> StdoutObj).
  { intros pid Hres. destruct (alive_exists _ _ _ pid Hw) as [p Hpo]; [by eapply Network.resolve_Some|].
    exists p. split; [done|]. unfold peer. rewrite Hres. cbn. rewrite Hpo. split; [done|].
    intros ->. by eapply (wf_no_stdout _ (wf_sim _ _ _ Hw)). }
  destruct (Network.resolve (alive held rep) (net_ (w_sim w)) addr) as [pid|] eqn:Eres.
  2:{ exists (set_net n (w_sim w)). unfold peer. cbn [mbind option_bind].
      destruct s; [done|..]; (split; [by rewrite fail_ok|split; [done|intros; congruence]]). }
  destruct (Hpeer pid eq_refl) as (p & Hpo & Hpe & Hps). rewrite Hpe.
  destruct s as [|q|d]; [done| |exists (set_net n (w_sim w)); split;
    [by destruct p; rewrite fail_ok|split; [done|intros; congruence]]].
  unfold deref. cbn [objs set_net]. rewrite Hpo. cbn [mbind outcome_bind].
  destruct p as [|p|d]; [done| |exists (set_net n (w_sim w)); split; [by rewrite fail_ok|split; [done|intros; congruence]]].
  unfold listening. rewrite (Hlis _ _ Hpo). unfold connect, get_af. rewrite (Hlis _ _ Ho).
  destruct (decide (af_ (s_base p) = af_ (s_base q))) as [He|Hne].
  - rewrite bool_decide_eq_false_2 by congruence. eexists. split; [reflexivity|]. cbn [objs set_obj set_net].
    split; [intros x Hx; by rewrite lookup_insert_ne|]. intros p' pid' q' [= <- <-] [= <-] _. apply lookup_insert_eq.
  - rewrite bool_decide_eq_true_2 by congruence. eexists. split; [reflexivity|]. cbn [objs set_obj set_net].
    split; [intros x Hx; by rewrite lookup_insert_ne|]. intros p' pid' q' [= <- <-] [= <-] He. congruence.
Qed.

Example connect_table_witness :
  let b := debug_build in
  exists sim', sys_connect (others (w_reps two_sockets) 0) [] [1073741824; 4096; 6]
    (w_sim two_sockets) two_sockets_rep
  = Ret (Handled (u64 (- ECONNREFUSED)), sim', touch 1073741824 two_sockets_rep).
Proof.
  intros b. destruct (connect_table (H2 := debug_build) no_udp_limit (fun _ => true) (default_sim_options 0)
    two_sockets 0 two_sockets_rep [] [1073741824; 4096; 6] 1%positive (StreamObj (make_stream unix_))
    (Unix {| path := [x63] |}) two_sockets_reachable) as (sim' & Hc & _).
  - vm_compute. reflexivity.
  - reflexivity.
  - vm_compute. reflexivity.
  - vm_compute. reflexivity.
  - exists sim'. exact Hc.
Defined.
