(* ===== verification/Delivery.v ===== *)
(** * Datagrams from process to process

    [sendto] of one replica composed with [recvfrom] of another: the runner,
    the descriptor tables, the address table, the fault options and the pipe
    together. *)

From Stdlib Require Import Strings.Byte SpecFloat.
From S2P Require Import Prelude Words Float Random Faults Socket Network FdTable Pipe Stream.
From S2P Require Import Syscalls HookTable Runner Tracee Addr World Hooks HookSpec HookProps.

Section Delivery.
Context {Q M : Type} `{PriorityQueueOk Q} `{RunnerHandleOk M}
  `{!Bernoulli Xoshiro.xoshiro256_star_star} `{!BernoulliOk Xoshiro.xoshiro256_star_star} `{Build}.
Variables (mx : Z) (alloc : Z -> bool).
Implicit Types (sim : simulator Q) (rep : replica M) (held : obj_id -> bool).

(** The packets [send] queues for one datagram: the packet itself, which
    arrives in the configured window, and its replays, which arrive in the
    doubled one. *)
Definition copies_of (o : net_fault_options) (now : Z) (data : list byte) (p : packet) (replays ps : list packet) : Prop :=
  ps ≡ₚ p :: replays /\ bytes p = data
  /\ now + min_latency o <= arrival p <= now + max_latency o /\ Forall (replay_of o now p) replays.

Lemma deliver_kept fuel now data addr (d : datagram_socket Q) r1 k r2 :
  let o := fault_options_ (inbound_ d) in
  sane o now -> rng_wf (rng_ (inbound_ d)) -> Z.of_nat (length data) < mx ->
  pending (inbound_ d) = [] ->
  should_drop o (rng_ (inbound_ d)) = (false, r1) -> replay_count fuel o (after r1 1) = Ret (k, r2) ->
  exists d' p replays, deliver mx fuel now data addr d = Ret d'
    /\ Z.of_nat (length replays) = k /\ copies_of o now data p replays (pending (inbound_ d')).
Proof.
  intros o Hs Hr Hl Hp Hd Hc.
  destruct (send_kept mx fuel now data addr (inbound_ d) r1 k r2 Hs Hr) as
    (p & ps & p' & E & Hperm & Hk & Hpk & Ha & Hrep & _); [by apply assert_true, Z.ltb_lt|done|done|].
  unfold deliver. rewrite E. eexists _, p, ps. split; [done|]. split; [done|]. cbn [inbound_].
  rewrite Hp, app_nil_r in Hperm. split; [done|]. split; [by rewrite Hpk|]. by split.
Qed.

(** Every copy carries the message, none arrives before the window opens. *)
Lemma copy_cases o now data p replays ps x :
  0 <= now + min_latency o -> 0 <= min_latency o ->
  copies_of o now data p replays ps -> x ∈ ps -> bytes x = data /\ now + min_latency o <= arrival x.
Proof.
  intros Hn Hm (Hperm & Hb & Ha & Hrep) Hx. rewrite Hperm in Hx. apply elem_of_cons in Hx as [->|Hx]; [split; [done|lia]|].
  eapply Forall_forall in Hrep; [|exact Hx]. destruct Hrep as (Hbx & _ & _ & Hax). split; [congruence|lia].
Qed.

(** The earliest copy: it arrives in the window of the original. *)
Lemma earliest_copy o now data p replays (pipe : datagram_pipe Q Xoshiro.xoshiro256_star_star) :
  0 <= now + min_latency o -> 0 <= min_latency o -> copies_of o now data p replays (pending pipe) ->
  exists t, now + min_latency o <= t <= now + max_latency o
    /\ forall now', match recv_step now' pipe with
       | Wait => False
       | WaitUntil t' => now' < t /\ t' = t
       | Got (data', _, _) => t <= now' /\ data' = data
       end.
Proof.
  intros Hn Hm Hc. pose proof (fun x => copy_cases o now data p replays (pending pipe) x Hn Hm Hc) as Hcp.
  pose proof Hc as (Hperm & _ & Ha & _).
  assert (Hp : p ∈ pending pipe) by (rewrite Hperm; apply list_elem_of_here).
  pose proof (recv_step_cases (now + min_latency o - 1) pipe) as Hz.
  destruct (recv_step (now + min_latency o - 1) pipe) as [|t|[[d' a'] p']].
  - rewrite Hz in Hp. by apply not_elem_of_nil in Hp.
  - destruct Hz as (Ht & (q & Hq & Hqt) & Hle). exists t. split; [pose proof (Hle p Hp); lia|].
    intros now'. pose proof (recv_step_cases now' pipe) as Hy.
    destruct (recv_step now' pipe) as [|t1|[[d1 a1] p1]].
    + rewrite Hy in Hp. by apply not_elem_of_nil in Hp.
    + destruct Hy as (Ht1 & (q1 & Hq1 & Hqt1) & Hle1). pose proof (Hle1 q Hq). pose proof (Hle q1 Hq1). lia.
    + destruct Hy as (q1 & Hperm1 & -> & _ & Hle1 & _).
      assert (Hq1 : q1 ∈ pending pipe) by (rewrite Hperm1; apply list_elem_of_here).
      pose proof (Hle q1 Hq1). split; [lia|]. by apply Hcp.
  - destruct Hz as (q & Hperm0 & _ & _ & Hq & _).
    destruct (Hcp q) as [_ Hge]; [rewrite Hperm0; apply list_elem_of_here|lia].
Qed.

(** [recv_from] when the pipe hands out the message. *)
Lemma recv_from_got now' data (d : datagram_socket Q) cap buf (m : M) data' addr p' :
  recv_step now' (inbound_ d) = Got (data', addr, p') -> data' = data -> 0 <= cap ->
  accessible m buf (length (take (Z.to_nat cap) data)) ->
  exists d' m' a', recv_from now' load_fragment_callback cap d (m, buf)
      = Got (Z.min cap (Z.of_nat (length data)), addr, d', (m', a'))
    /\ run_read buf (length (take (Z.to_nat cap) data)) m' = (0, take (Z.to_nat cap) data).
Proof.
  intros Hstep -> Hcap Hacc. unfold recv_from. rewrite Hstep.
  assert (Htake : (if cap <? Z.of_nat (length data) then take (Z.to_nat cap) data else data)
                  = take (Z.to_nat cap) data).
  { destruct (Z.ltb_spec cap (Z.of_nat (length data))); [done|]. by rewrite take_ge by lia. }
  rewrite Htake. unfold load_fragment_callback.
  destruct (run_write_ok buf (take (Z.to_nat cap) data) m Hacc) as [Hz Hrd].
  destruct (run_write buf (take (Z.to_nat cap) data) m) as [res m']. cbn [fst snd] in *.
  eexists _, m', _. split; [|exact Hrd]. do 4 f_equal. rewrite length_take. lia.
Qed.

(** The sending half: everything but the pipe. *)
Lemma sys_sendto_kept held fuel now garbage args sim rep ids ds idr dr addr data r1 k r2 :
  wf_rep sim rep -> FdTable.is_simulated (i32 (arg args 0)) = true ->
  fd_obj (i32 (arg args 0)) sim rep = Some (ids, DgramObj ds) ->
  parse_addr garbage (arg args 4) (arg args 5) (mem_ rep) = Ret (0, addr) ->
  Network.resolve (alive held rep) (net_ sim) addr = Some idr -> objs sim !! idr = Some (DgramObj dr) ->
  run_read (arg args 1) (Z.to_nat (arg args 2)) (mem_ rep) = (0, data) ->
  0 <= arg args 2 < 2 ^ 63 -> alloc (arg args 2) = true -> arg args 2 < mx ->
  let o := fault_options_ (inbound_ dr) in
  sane o now -> rng_wf (rng_ (inbound_ dr)) -> pending (inbound_ dr) = [] ->
  should_drop o (rng_ (inbound_ dr)) = (false, r1) -> replay_count fuel o (after r1 1) = Ret (k, r2) ->
  exists sim1 dr' p replays, sys_sendto mx alloc held fuel now garbage args sim rep
      = Ret (Handled (arg args 2), sim1, touch (i32 (arg args 0)) rep)
    /\ objs sim1 = <[idr := DgramObj dr']> (objs sim)
    /\ Z.of_nat (length replays) = k
    /\ copies_of o now data p replays (pending (inbound_ dr')).
Proof.
  intros Hw Hf Hfd Hp Hres Ho Hrd Hlen Hal Hmx o Hs Hr Hpend Hd Hc.
  assert (Hdl : length data = Z.to_nat (arg args 2))
    by (pose proof (run_read_length (arg args 1) (Z.to_nat (arg args 2)) (mem_ rep)) as E; by rewrite Hrd in E).
  destruct (deliver_kept fuel now data default_addr dr r1 k r2 Hs Hr) as (dr' & p & replays & E & Hk & Hcp);
    [lia|done..|].
  unfold sys_sendto. rewrite Hf, Hp. cbn [negb mbind outcome_bind Z.eqb].
  rewrite get_fd_ok by done. cbn [mbind outcome_bind]. rewrite Hfd.
  unfold send_to. pose proof (Network.get_refines (alive held (touch (i32 (arg args 0)) rep)) addr (net_ sim)) as [Hg _].
  rewrite (resolve_ext _ (alive held rep)), Hres in Hg by apply alive_touch.
  destruct (Network.get _ addr (net_ sim)) as [sock n]. cbn [fst] in Hg. subst sock.
  cbn [objs set_net]. rewrite Ho. unfold make_buffer.
  rewrite (proj2 (Z.ltb_ge _ _)), Hal by lia. cbn [mbind outcome_bind].
  unfold store_fragment_callback. change (mem_ (touch _ rep)) with (mem_ rep).
  rewrite length_replicate, Hrd. change (0 <? 0) with false. cbn iota. rewrite E. cbn [mbind outcome_bind].
  eexists _, dr', p, replays. split; [unfold handled; rewrite u64_i64, u64_id by lia; reflexivity|].
  split; [reflexivity|split; [exact Hk|exact Hcp]].
Qed.

End Delivery.

(** C1: datagrams arrive. A process sends [len] bytes from a readable buffer
    to the address of another process's idle datagram socket, and the drop
    decision is no: [sendto] answers [len] and queues one packet, which
    arrives between the minimal and the maximal latency from now, and [k]
    replays of it, which arrive within twice that window. There is a time [t]
    in the window of the packet itself before which a [recvfrom] waits until
    [t], and from which on it answers [min cap len] and leaves the first [cap]
    bytes of the message in the receiver's buffer. *)
Theorem datagram_delivery {Q M} `{PriorityQueueOk Q} `{RunnerHandleOk M}
    `{!Bernoulli Xoshiro.xoshiro256_star_star} `{!BernoulliOk Xoshiro.xoshiro256_star_star} `{Build}
    (mx : Z) (alloc : Z -> bool) (o : options) (w : world Q M) (i j : nat) (ri rj : replica M)
    (fuel : nat) (now : Z) (garbage : list byte) (sargs rargs : list Z) (ids idr : obj_id)
    (ds dr : datagram_socket Q) (addr : socket_addr) (data : list byte)
    (r1 r2 : Xoshiro.xoshiro256_star_star) (k : Z) :
  reachable mx alloc o w -> w_reps w !! i = Some ri -> w_reps w !! j = Some rj ->
  (* the sender's socket, address and buffer *)
  FdTable.is_simulated (i32 (arg sargs 0)) = true ->
  fd_obj (i32 (arg sargs 0)) (w_sim w) ri = Some (ids, DgramObj ds) ->
  parse_addr garbage (arg sargs 4) (arg sargs 5) (mem_ ri) = Ret (0, addr) ->
  Network.resolve (alive (others (w_reps w) i) ri) (net_ (w_sim w)) addr = Some idr ->
  run_read (arg sargs 1) (Z.to_nat (arg sargs 2)) (mem_ ri) = (0, data) ->
  0 <= arg sargs 2 < 2 ^ 63 -> alloc (arg sargs 2) = true -> arg sargs 2 < mx ->
  (* the receiver's socket, idle, and its buffer *)
  FdTable.is_simulated (i32 (arg rargs 0)) = true ->
  fd_obj (i32 (arg rargs 0)) (w_sim w) rj = Some (idr, DgramObj dr) -> pending (inbound_ dr) = [] ->
  0 <= arg rargs 2 -> accessible (mem_ rj) (arg rargs 1) (length (take (Z.to_nat (arg rargs 2)) data)) ->
  (* the faults drawn *)
  let f := fault_options_ (inbound_ dr) in
  sane f now -> rng_wf (rng_ (inbound_ dr)) ->
  should_drop f (rng_ (inbound_ dr)) = (false, r1) -> replay_count fuel f (after r1 1) = Ret (k, r2) ->
  exists sim1 ri' dr' p replays t, sys_sendto mx alloc (others (w_reps w) i) fuel now garbage sargs (w_sim w) ri
      = Ret (Handled (arg sargs 2), sim1, ri')
    /\ fd_obj (i32 (arg rargs 0)) sim1 rj = Some (idr, DgramObj dr')
    /\ pending (inbound_ dr') ≡ₚ p :: replays /\ Z.of_nat (length replays) = k
    /\ bytes p = data /\ now + min_latency f <= arrival p <= now + max_latency f
    /\ Forall (replay_of f now p) replays
    /\ now + min_latency f <= t <= now + max_latency f
    /\ (forall now', now' < t -> sys_recvfrom now' rargs sim1 rj = Ret (WaitUntil t))
    /\ (forall now', t <= now' -> exists sim2 rj',
          sys_recvfrom now' rargs sim1 rj
            = Ret (Got (Handled (Z.min (arg rargs 2) (arg sargs 2)), sim2, rj'))
          /\ run_read (arg rargs 1) (length (take (Z.to_nat (arg rargs 2)) data)) (mem_ rj')
            = (0, take (Z.to_nat (arg rargs 2)) data)).
Proof.
  intros Hr%reachable_ok Hi Hj Hfs Hos Hp Hres Hrd Hlen Hal Hmx Hfr Hor Hpend Hcap Hacc f Hs Hw Hd Hc.
  destruct (fd_obj_Some _ _ _ _ _ Hor) as [Hlr Hobr].
  destruct (sys_sendto_kept mx alloc (others (w_reps w) i) fuel now garbage sargs (w_sim w) ri ids ds idr dr
    addr data r1 k r2) as (sim1 & dr' & p & replays & E & Hobjs & Hk & Hcp); try done; [by apply (ok_reps _ Hr i)|].
  assert (Hfd1 : fd_obj (i32 (arg rargs 0)) sim1 rj = Some (idr, DgramObj dr')).
  { unfold fd_obj. rewrite Hlr. cbn. rewrite Hobjs, lookup_insert_eq. done. }
  assert (Hwj : wf_rep sim1 rj).
  { intros fd id Hl. rewrite Hobjs. apply lookup_insert_is_Some'. right. by apply (ok_reps _ Hr j rj Hj fd). }
  assert (Hdl : length data = Z.to_nat (arg sargs 2)).
  { pose proof (run_read_length (arg sargs 1) (Z.to_nat (arg sargs 2)) (mem_ ri)) as L. by rewrite Hrd in L. }
  pose proof Hs as (Hlat & Hnow & _). fold f in Hlat.
  destruct (earliest_copy f now data p replays (inbound_ dr')) as (t & Ht & Hstep); [lia|lia|done|].
  destruct Hcp as (Hperm & Hb & Ha & Hrep).
  exists sim1, (touch (i32 (arg sargs 0)) ri), dr', p, replays, t. do 8 (split; [done|]).
  unfold sys_recvfrom. rewrite Hfr. cbn [negb]. rewrite get_fd_ok by done.
  cbn [mbind outcome_bind]. rewrite Hfd1. change (mem_ (touch _ rj)) with (mem_ rj).
  split; intros now' Hnow'; specialize (Hstep now');
    destruct (recv_step now' (inbound_ dr')) as [|t'|[[data' a] p']] eqn:Er; try lia; try done.
  - destruct Hstep as [_ ->]. unfold recv_from. by rewrite Er.
  - destruct Hstep as [_ Hdt].
    destruct (recv_from_got now' data dr' (arg rargs 2) (arg rargs 1) (mem_ rj) data' a p' Er Hdt Hcap Hacc)
      as (d2 & m' & a' & -> & Hread).
    eexists _, _.
    split; [unfold handled; rewrite Hdl, Z2Nat.id, u64_id by lia; reflexivity|exact Hread].
Qed.

(** ** Two processes: the first sends "hi" to the second *)
Import PacketList.


Definition message_memory : gmap Z byte := (write_memory 4112 [x68; x69] some_memory).2.

(** Between 10 and 20 nanoseconds on the way, and a replay in three of ten cases. *)
Definition delayed : options :=
  {| net_faults := {| min_latency := 10; max_latency := 20; p_drop := d0; p_replay := p_replay replay_30_percent |};
     time_scale := d1; seed_ := 2 |}.

Definition two_processes : world PacketList.queue (gmap Z byte) :=
  let b := debug_build in
  let w := {| w_sim := make_simulator delayed;
              w_reps := [make_replica message_memory 0; make_replica message_memory 0] |} in
  let w := run_call w 0 HookTable.sys_socket [1; 2; 0] in
  let w := run_call w 1 HookTable.sys_socket [1; 2; 0] in
  run_call w 1 HookTable.sys_bind [1073741824; 4096; 6].

Definition process (i : nat) : replica (gmap Z byte) :=
  default (make_replica message_memory 0) (w_reps two_processes !! i).
Definition inbox : datagram_socket PacketList.queue :=
  match fd_obj 1073741824 (w_sim two_processes) (process 1) with
  | Some (_, DgramObj d) => d
  | _ => {| d_base := {| af_ := unix_; type_ := stream |}; inbound_ := Pipe.make default_options Xoshiro.default |}
  end.
Definition outbox : datagram_socket PacketList.queue :=
  match fd_obj 1073741824 (w_sim two_processes) (process 0) with Some (_, DgramObj d) => d | _ => inbox end.

Lemma two_processes_reachable :
  reachable (H2 := debug_build) no_udp_limit (fun _ => true) delayed two_processes.
Proof.
  do 3 apply run_call_reachable.
  eapply ReachStep; [eapply ReachStep; [apply ReachInit|]|].
  - exact (StepStart (H2 := debug_build) no_udp_limit (fun _ => true)
      {| w_sim := make_simulator delayed; w_reps := [] |} message_memory 0).
  - exact (StepStart (H2 := debug_build) no_udp_limit (fun _ => true)
      {| w_sim := make_simulator delayed; w_reps := [make_replica message_memory 0] |} message_memory 0).
Qed.

Lemma inbox_mapped :
  forallb (fun x => bool_decide (is_Some (mem_ (process 1) !! x))) (seqZ 4160 8) = true.
Proof. vm_compute. reflexivity. Qed.

Example datagram_delivery_witness :
  let b := debug_build in
  exists sim1 ri, sys_sendto no_udp_limit (fun _ => true) (others (w_reps two_processes) 0) 8 100 []
    [1073741824; 4112; 2; 0; 4096; 6] (w_sim two_processes) (process 0) = Ret (Handled 2, sim1, ri)
    /\ exists t, 110 <= t <= 120
    /\ sys_recvfrom 105 [1073741824; 4160; 8; 0; 0; 0] sim1 (process 1) = Ret (WaitUntil t)
    /\ exists sim2 rj, sys_recvfrom 120 [1073741824; 4160; 8; 0; 0; 0] sim1 (process 1)
         = Ret (Got (Handled 2, sim2, rj)) /\ (read_memory 4160 2 (mem_ rj)).2 = [x68; x69].
Proof.
  intros b.
  pose (d := should_drop (fault_options_ (inbound_ inbox)) (rng_ (inbound_ inbox))).
  pose (c := replay_count 8 (fault_options_ (inbound_ inbox)) (after d.2 1)).
  destruct (datagram_delivery (H3 := debug_build) no_udp_limit (fun _ => true) delayed two_processes 0 1
    (process 0) (process 1) 8 100 [] [1073741824; 4112; 2; 0; 4096; 6] [1073741824; 4160; 8; 0; 0; 0]
    1%positive 2%positive outbox inbox (Unix {| path := [x63] |}) [x68; x69] d.2
    (match c with Ret (_, r) => r | _ => d.2 end) 1)
    as (sim1 & ri & dr & p & replays & t & Hs & _ & _ & _ & _ & _ & _ & Ht & Hw & Hr).
  - exact two_processes_reachable.
  - vm_compute. reflexivity.
  - vm_compute. reflexivity.
  - reflexivity.
  - vm_compute. reflexivity.
  - vm_compute. reflexivity.
  - vm_compute. reflexivity.
  - vm_compute. reflexivity.
  - by split.
  - reflexivity.
  - reflexivity.
  - reflexivity.
  - vm_compute. reflexivity.
  - vm_compute. reflexivity.
  - discriminate.
  - split; [vm_compute; discriminate|]. split; [vm_compute; reflexivity|].
    intros x Hx. change (4160 <= x < 4168) in Hx.
    assert (Hc : In x (seqZ 4160 8)) by (apply list_elem_of_In, elem_of_seqZ; lia).
    exact (bool_decide_eq_true_1 _ (proj1 (forallb_forall _ _) inbox_mapped x Hc)).
  - vm_compute. repeat split; discriminate.
  - vm_compute. by repeat split.
  - vm_compute. reflexivity.
  - vm_compute. reflexivity.
  - change (110 <= t <= 120) in Ht. exists sim1, ri. split; [exact Hs|]. exists t. split; [exact Ht|].
    split; [apply Hw; lia|]. destruct (Hr 120) as (sim2 & rj & Hrv & Hd); [lia|].
    exists sim2, rj. split; [exact Hrv|]. exact (f_equal snd Hd).
Defined.
