(* ===== verification/Seeds.v ===== *)
(** * Where the randomness of a world comes from

    One seed drives a simulation: it seeds the generator of the simulator, from
    which each datagram socket draws the seed of its own generator when it is
    created (src/sim/simulator.hpp, [datagram_socket::datagram_socket]); the
    faults of a socket's datagrams come from that generator alone.  This file
    shows it of every interleaving of the processes' calls. *)

From Stdlib Require Import Strings.Byte SpecFloat.
From S2P Require Import Prelude Words Float Random Faults Socket Network FdTable Pipe Stream.
From S2P Require Import Syscalls HookTable Runner Tracee Addr World Hooks HookSpec HookProps Delivery.

(** ** The seeds of the sockets *)

(** The generator of the simulator after [k] datagram sockets, and the initial
    generator of socket number [k]. *)
Definition source (o : options) (k : nat) : Xoshiro.xoshiro256_star_star :=
  Nat.iter k (fun g => (Xoshiro.seed_from g).2)
    (Xoshiro.seed_from (SplitMix.make (seed_ o) SplitMix.default_gamma)).1.
Definition pipe_seed (o : options) (k : nat) : Xoshiro.xoshiro256_star_star :=
  (Xoshiro.seed_from (source o k)).1.

Section Calls.
Context {Q M : Type} `{PriorityQueue Q} `{RunnerHandle M} `{Bernoulli Xoshiro.xoshiro256_star_star} `{Build}.
Variables (mx : Z) (alloc : Z -> bool).
Implicit Types (sim : simulator Q) (rep : replica M) (held : obj_id -> bool).

(** All that happens to the pipe of a datagram socket. *)
Inductive pipe_step (p p' : datagram_pipe Q Xoshiro.xoshiro256_star_star) : Prop :=
| PipeSends fuel now data addr : send mx fuel now data addr p = Ret p' -> pipe_step p p'
| PipeReceives now data addr : recv_step now p = Got (data, addr, p') -> pipe_step p p'.

Lemma pipe_step_options p p' : pipe_step p p' -> fault_options_ p' = fault_options_ p.
Proof.
  intros [fuel now data addr E|now data addr E].
  - unfold send in E. apply bind_Ret_inv in E as (u & _ & E).
    destruct (should_drop _ _) as [[] r1]; [by injection E as <-|].
    apply bind_Ret_inv in E as ([l r2] & _ & E). apply bind_Ret_inv in E as (a & _ & E).
    apply bind_Ret_inv in E as ([k r3] & _ & E). apply bind_Ret_inv in E as ([ps r4] & _ & E). by injection E as <-.
  - unfold recv_step in E. destruct (pq_top _); [|done]. destruct (_ <? _); [done|]. by injection E as _ _ <-.
Qed.

Lemma pipe_run_options p p' : rtc pipe_step p p' -> fault_options_ p' = fault_options_ p.
Proof. induction 1 as [|p1 p2 p3 Hs _ IH]; [done|]. by rewrite IH, (pipe_step_options _ _ Hs). Qed.

(** The datagram sockets of a simulator.  Objects are numbered in the order in
    which they are created and are never taken out of [objs], so the sockets
    with a smaller number are those that were created before. *)
Definition dgram_at sim (id : obj_id) : option (datagram_socket Q) :=
  match objs sim !! id with Some (DgramObj d) => Some d | _ => None end.
Definition dgrams sim : gset obj_id := filter (fun id => is_Some (dgram_at sim id)) (dom (objs sim)).
Definition datagram_sockets sim : nat := size (dgrams sim).
Definition created_before sim (id : obj_id) : nat := size (filter (fun x => (x < id)%positive) (dgrams sim)).

Lemma dgram_at_Some sim id d : dgram_at sim id = Some d <-> objs sim !! id = Some (DgramObj d).
Proof using Type. clear mx alloc. unfold dgram_at. destruct (objs sim !! id) as [[]|]; naive_solver. Qed.

Lemma elem_of_dgrams sim id : id ∈ dgrams sim <-> is_Some (dgram_at sim id).
Proof using Type.
  clear mx alloc. unfold dgrams. rewrite elem_of_filter, elem_of_dom. split; [naive_solver|]. intros Hs. split; [done|].
  destruct Hs as [d Hd]. apply dgram_at_Some in Hd. by eexists.
Qed.

(** A call that creates no datagram socket. *)
Record keeps sim sim' : Prop := {
  keeps_rng : sim_rng sim' = sim_rng sim;
  keeps_options : options_ sim' = options_ sim;
  keeps_pipes : forall id,
    option_Forall2 (fun d d' => rtc pipe_step (inbound_ d) (inbound_ d')) (dgram_at sim id) (dgram_at sim' id);
}.

(** One that creates a datagram socket. *)
Record creates sim sim' : Prop := {
  creates_rng : sim_rng sim' = (Xoshiro.seed_from (sim_rng sim)).2;
  creates_options : options_ sim' = options_ sim;
  creates_pipe : exists d, objs sim' = <[next_id sim := DgramObj d]> (objs sim)
    /\ inbound_ d = Pipe.make (net_faults (options_ sim)) (Xoshiro.seed_from (sim_rng sim)).1;
}.

Lemma keeps_same sim sim' :
  sim_rng sim' = sim_rng sim -> options_ sim' = options_ sim -> objs sim' = objs sim -> keeps sim sim'.
Proof.
  intros E1 E2 E3. split; [done|done|]. intros id. unfold dgram_at. rewrite E3.
  destruct (objs sim !! id) as [[]|]; constructor; apply rtc_refl.
Qed.

Lemma keeps_refl sim : keeps sim sim.
Proof. by apply keeps_same. Qed.

(** One object changes: not a datagram socket, or one whose pipe takes steps. *)
Lemma keeps_object sim sim' id o :
  sim_rng sim' = sim_rng sim -> options_ sim' = options_ sim -> objs sim' = <[id := o]> (objs sim) ->
  option_Forall2 (fun d d' => rtc pipe_step (inbound_ d) (inbound_ d')) (dgram_at sim id)
    (match o with DgramObj d => Some d | _ => None end) ->
  keeps sim sim'.
Proof.
  intros E1 E2 E3 Ho. split; [done|done|]. intros x. unfold dgram_at. rewrite E3.
  destruct (decide (id = x)) as [<-|Hne]; [by rewrite lookup_insert_eq; destruct o|].
  rewrite lookup_insert_ne by done. destruct (objs sim !! x) as [[]|]; constructor; apply rtc_refl.
Qed.

Lemma keeps_stream sim sim' id s :
  dgram_at sim id = None -> sim_rng sim' = sim_rng sim -> options_ sim' = options_ sim ->
  objs sim' = <[id := StreamObj s]> (objs sim) -> keeps sim sim'.
Proof. intros Hn E1 E2 E3. eapply keeps_object; [done..|]. rewrite Hn. constructor. Qed.

Lemma keeps_pipe sim sim' id d d' :
  objs sim !! id = Some (DgramObj d) -> pipe_step (inbound_ d) (inbound_ d') ->
  sim_rng sim' = sim_rng sim -> options_ sim' = options_ sim ->
  objs sim' = <[id := DgramObj d']> (objs sim) -> keeps sim sim'.
Proof.
  intros Ho Hd E1 E2 E3. eapply keeps_object; [done..|]. rewrite (proj2 (dgram_at_Some _ _ _) Ho). constructor.
  by apply rtc_once.
Qed.

Lemma fd_obj_not_dgram fd sim rep id o : fd_obj fd sim rep = Some (id, o) ->
  (forall d, o <> DgramObj d) -> dgram_at sim id = None.
Proof.
  intros [_ Ho]%fd_obj_Some Hn. destruct (dgram_at sim id) as [d|] eqn:E; [|done].
  apply dgram_at_Some in E. rewrite Ho in E. injection E as ->. by destruct (Hn d).
Qed.

Lemma new_not_dgram sim : wf_objs sim -> dgram_at sim (next_id sim) = None.
Proof.
  intros Hw. destruct (dgram_at sim (next_id sim)) as [d|] eqn:E; [|done]. apply dgram_at_Some in E.
  pose proof (wf_below _ Hw (next_id sim) ltac:(by eexists)). lia.
Qed.

Hint Resolve keeps_same keeps_refl : redstone.

Lemma sys_socket_keeps args sim rep r sim' rep' :
  wf_objs sim -> sys_socket args sim rep = Ret (r, sim', rep') -> keeps sim sim' \/ creates sim sim'.
Proof.
  intros Hwf. unfold sys_socket.
  assert (Hmk : forall af, (if i32 (arg args 1) =? SOCK_STREAM then
      let '(id, sim) := new_obj (StreamObj (make_stream af)) sim in
      '(fd, t) ← FdTable.insert id (fd_table_ rep);
      if fd <? 0 then fail EMFILE sim (set_table t rep) else Ret (handled fd, sim, set_table t rep)
    else if i32 (arg args 1) =? SOCK_DGRAM then
      let '(d, sim) := make_datagram af sim in
      let '(id, sim) := new_obj (DgramObj d) sim in
      '(fd, t) ← FdTable.insert id (fd_table_ rep);
      if fd <? 0 then fail EMFILE sim (set_table t rep) else Ret (handled fd, sim, set_table t rep)
    else fail EINVAL sim rep) = Ret (r, sim', rep') -> keeps sim sim' \/ creates sim sim').
  { assert (Hins : forall id sim1, ('(fd, t) ← FdTable.insert id (fd_table_ rep);
      if fd <? 0 then fail EMFILE sim1 (set_table t rep) else Ret (handled fd, sim1, set_table t rep))
      = Ret (r, sim', rep') -> sim' = sim1).
    { intros id sim1 E. apply bind_Ret_inv in E as ([fd t] & _ & E). destruct (fd <? 0); [|by injection E].
      by apply fail_inv in E as [? _]. }
    intros af. destruct (_ =? SOCK_STREAM); [|destruct (_ =? SOCK_DGRAM)].
    - intros E. apply Hins in E as ->. left. by eapply keeps_stream; [by apply new_not_dgram|..].
    - unfold make_datagram, Pipe.seed. destruct (Xoshiro.seed_from (sim_rng sim)) as [r1 rng] eqn:Es.
      intros E. apply Hins in E as ->. right. split; cbn [sim_rng set_rng options_ objs]; rewrite ?Es; [done..|].
      by eexists.
    - intros E. apply fail_inv in E as [? _]. cbn [fst snd] in *. subst. left. apply keeps_refl. }
  intros E. destruct (_ =? AF_INET); [by apply (Hmk ipv4)|]. destruct (_ =? AF_UNIX); [by apply (Hmk unix_)|].
  apply fail_inv in E as [? _]. cbn [fst snd] in *. subst. left. apply keeps_refl.
Qed.

Lemma sys_sendto_keeps held fuel now garbage args sim rep r sim' rep' :
  wf_rep sim rep -> sys_sendto mx alloc held fuel now garbage args sim rep = Ret (r, sim', rep') -> keeps sim sim'.
Proof.
  intros Hw. unfold sys_sendto. intros Hc.
  destruct (negb (FdTable.is_simulated _)); [by hook_cases; eauto with redstone|].
  apply bind_Ret_inv in Hc as ([err addr] & _ & Hc).
  destruct (negb (err =? 0)); [by hook_cases; eauto with redstone|].
  rewrite (get_fd_ok _ _ _ Hw) in Hc. cbn [mbind outcome_bind] in Hc.
  destruct (fd_obj _ sim rep) as [[id []]|]; [by hook_cases; eauto with redstone..| |by hook_cases; eauto with redstone].
  apply bind_Ret_inv in Hc as ([[res sim1] st] & Hsend & [= <- <- <-]).
  unfold send_to in Hsend. destruct (Network.get _ _ _) as [sock n].
  destruct sock as [tid|]; [|injection Hsend as <- <- <-; eauto with redstone].
  cbn [objs set_net] in Hsend.
  destruct (objs sim !! tid) as [[| |d0]|] eqn:Eo; try (injection Hsend as <- <- <-; eauto with redstone); [|done].
  apply bind_Ret_inv in Hsend as (buf & _ & Hsend). destruct (store_fragment_callback _ _ _) as [[res' b'] a'].
  destruct (res' <? 0); [injection Hsend as <- <- <-; eauto with redstone|].
  apply bind_Ret_inv in Hsend as (d' & Hd & [= <- <- <-]).
  unfold deliver in Hd. apply bind_Ret_inv in Hd as (p & Hp & [= <-]).
  apply (keeps_pipe _ _ tid d0 {| d_base := d_base d0; inbound_ := p |}); [done| |done..]. by eapply PipeSends.
Qed.

Lemma sys_recvfrom_keeps now args sim rep r sim' rep' :
  wf_rep sim rep -> sys_recvfrom now args sim rep = Ret (Got (r, sim', rep')) -> keeps sim sim'.
Proof.
  intros Hw. unfold sys_recvfrom. rewrite (get_fd_ok _ _ _ Hw). intros Hc. cbn [mbind outcome_bind] in Hc.
  destruct (negb (FdTable.is_simulated _)); [injection Hc as <- <- <-; eauto with redstone|].
  destruct (fd_obj _ sim rep) as [[id []]|] eqn:Eo.
  1,2,4: apply fmap_Ret_inv in Hc as (x & Hf & [= ->]); apply fail_inv in Hf as [? ?];
    cbn [fst snd] in *; subst; eauto with redstone.
  apply fd_obj_Some in Eo as [_ Eo]. unfold recv_from in Hc.
  destruct (recv_step now (inbound_ d)) as [| |[[data a] p]] eqn:Er; [done..|].
  destruct (load_fragment_callback _ _) as [res [m ad]]. injection Hc as <- <- <-.
  apply (keeps_pipe _ _ id d {| d_base := d_base d; inbound_ := p |}); [done| |done..]. by eapply PipeReceives.
Qed.

Lemma sys_connect_keeps held garbage args sim rep r sim' rep' :
  wf_rep sim rep -> sys_connect held garbage args sim rep = Ret (r, sim', rep') -> keeps sim sim'.
Proof.
  intros Hw. unfold sys_connect. intros Hc.
  destruct (negb (FdTable.is_simulated _)); [by hook_cases; eauto with redstone|].
  apply bind_Ret_inv in Hc as ([err addr] & _ & Hc).
  destruct (negb (err =? 0)); [by hook_cases; eauto with redstone|].
  rewrite (get_fd_ok _ _ _ Hw) in Hc. cbn [mbind outcome_bind] in Hc.
  hook_cases; eauto with redstone. all: eapply keeps_stream; [by eapply fd_obj_not_dgram|done..].
Qed.

Lemma call_hook_keeps e h args sim rep r sim' rep' :
  wf_objs sim -> wf_rep sim rep -> call_hook mx alloc e h args sim rep = Ret (Got (r, sim', rep')) ->
  keeps sim sim' \/ creates sim sim'.
Proof.
  intros Hwf Hw Hc.
  destruct h; cbn [call_hook] in Hc;
    try match type of Hc with _ <$> _ = _ => apply fmap_Ret_inv in Hc as (x & Hc & Hx) end;
    try (injection Hx as ->).
  - left. unfold sys_write in Hc. rewrite (get_fd_ok _ _ _ Hw) in Hc. cbn [mbind outcome_bind] in Hc.
    hook_cases; eauto with redstone.
  - left. unfold sys_read in Hc. rewrite (get_fd_ok _ _ _ Hw) in Hc. cbn [mbind outcome_bind] in Hc.
    hook_cases; eauto with redstone.
  - left. unfold sys_close in Hc. hook_cases; eauto with redstone.
  - by eapply sys_socket_keeps.
  - left. by eapply sys_sendto_keeps.
  - left. by eapply sys_recvfrom_keeps.
  - left. by eapply sys_connect_keeps.
  - left. unfold sys_bind in Hc. rewrite (get_fd_ok _ _ _ Hw) in Hc. cbn [mbind outcome_bind] in Hc.
    hook_cases; eauto with redstone.
  - left. unfold sys_clock_gettime in Hc. hook_cases; eauto with redstone.
  - left. destruct x as [[[r0 s0] p0] sl]. injection Hx as -> -> ->.
    unfold sys_clock_nanosleep in Hc. hook_cases; eauto with redstone.
  - left. injection Hc as <- <- <-. eauto with redstone.
Qed.

(** The generator and the pipes are what the seed and the order of creation
    make of them. *)
Record seeded (o : options) sim : Prop := {
  sd_options : options_ sim = o;
  sd_source : sim_rng sim = source o (datagram_sockets sim);
  sd_pipes : forall id d, dgram_at sim id = Some d ->
    rtc pipe_step (Pipe.make (net_faults o) (pipe_seed o (created_before sim id))) (inbound_ d);
}.

Lemma keeps_dgrams sim sim' : keeps sim sim' -> dgrams sim' = dgrams sim.
Proof.
  intros [_ _ Hk]. apply set_eq. intros id. rewrite !elem_of_dgrams. destruct (Hk id); by rewrite ?is_Some_alt.
Qed.

Lemma seeded_keeps o sim sim' : seeded o sim -> keeps sim sim' -> seeded o sim'.
Proof.
  intros [Ho Hs Hp] Hk. pose proof (keeps_dgrams _ _ Hk) as Hd. destruct Hk as [Kr Ko Kp].
  assert (Hn : datagram_sockets sim' = datagram_sockets sim) by (unfold datagram_sockets; by rewrite Hd).
  split; [congruence|congruence|]. intros id d' Hd'. specialize (Kp id). rewrite Hd' in Kp.
  inversion Kp as [d d'' Hst Hsome|]; subst. unfold created_before. rewrite Hd. etrans; [|exact Hst]. by apply Hp.
Qed.

Lemma creates_dgrams sim sim' : creates sim sim' -> dgrams sim' = {[next_id sim]} ∪ dgrams sim.
Proof.
  intros [_ _ (d & Kd & _)]. apply set_eq. intros id.
  rewrite elem_of_union, elem_of_singleton, !elem_of_dgrams. unfold dgram_at. rewrite Kd.
  destruct (decide (next_id sim = id)) as [<-|Hne].
  - rewrite lookup_insert_eq. split; [by left|]. by eexists.
  - rewrite lookup_insert_ne by done. naive_solver.
Qed.

Lemma dgrams_below sim id : wf_objs sim -> id ∈ dgrams sim -> (id < next_id sim)%positive.
Proof. intros Hw [d Hd%dgram_at_Some]%elem_of_dgrams. apply (wf_below _ Hw). by eexists. Qed.

Lemma seeded_creates o sim sim' : wf_objs sim -> seeded o sim -> creates sim sim' -> seeded o sim'.
Proof.
  intros Hw [Ho Hs Hp] Hc. pose proof (creates_dgrams _ _ Hc) as Hd. pose proof Hc as [Kr Ko (d0 & Kd & Kp)].
  pose proof (fun id => dgrams_below sim id Hw) as Hlt.
  assert (Hfresh : next_id sim ∉ dgrams sim) by (intros Hin%Hlt; lia).
  assert (Hn : datagram_sockets sim' = S (datagram_sockets sim)).
  { unfold datagram_sockets. rewrite Hd, size_union, size_singleton by set_solver. done. }
  split; [congruence|by rewrite Kr, Hs, Hn|].
  intros id d Hat. unfold created_before. rewrite Hd.
  destruct (decide (id = next_id sim)) as [->|Hne].
  - assert (Hf : filter (fun x => (x < next_id sim)%positive) ({[next_id sim]} ∪ dgrams sim) = dgrams sim).
    { apply set_eq. intros x. rewrite elem_of_filter, elem_of_union, elem_of_singleton.
      split; [intros [? [->|?]]; [lia|done]|]. intros Hx. split; [by apply Hlt|by right]. }
    unfold dgram_at in Hat. rewrite Kd, lookup_insert_eq in Hat. injection Hat as <-.
    rewrite Hf, Kp, Ho, Hs. apply rtc_refl.
  - assert (Hold : dgram_at sim id = Some d).
    { unfold dgram_at in *. by rewrite Kd, lookup_insert_ne in Hat by done. }
    pose proof (Hlt id (proj2 (elem_of_dgrams sim id) (ex_intro _ d Hold))) as Hl.
    assert (Hf : filter (fun x => (x < id)%positive) ({[next_id sim]} ∪ dgrams sim)
      = filter (fun x => (x < id)%positive) (dgrams sim)).
    { apply set_eq. intros x. rewrite !elem_of_filter, elem_of_union, elem_of_singleton.
      split; [intros [? [->|?]]; [lia|done]|]. intros [? ?]. split; [done|by right]. }
    rewrite Hf. by apply Hp.
Qed.

Lemma reachable_seeded o w : reachable mx alloc o w -> seeded o (w_sim w).
Proof.
  induction 1 as [|w w' Hr IH Hstep].
  - unfold make_simulator.
    destruct (Xoshiro.seed_from (SplitMix.make (seed_ o) SplitMix.default_gamma)) as [r0 s0] eqn:E.
    split; cbn [w_sim options_ sim_rng objs]; [done| |intros id d; unfold dgram_at; cbn; by rewrite lookup_empty].
    unfold source, datagram_sockets, dgrams. cbn [objs]. rewrite dom_empty_L, filter_empty_L, size_empty, E by apply _. done.
  - pose proof (reachable_ok mx alloc o w Hr) as Hok.
    destruct Hstep as [w i rep e h args r sim rep' Hi He Hc|w i rep m Hi|w m now]; cbn [w_sim]; [|by eauto..].
    destruct (call_hook_keeps _ _ _ _ _ _ _ _ (ok_objs _ Hok) (ok_reps _ Hok i rep Hi) Hc) as [Hk|Hk].
    + by eapply seeded_keeps.
    + eapply seeded_creates; [apply Hok|done|done].
Qed.

(** The order of the ids counts the sockets. *)
Lemma created_before_lt sim id : id ∈ dgrams sim -> (created_before sim id < datagram_sockets sim)%nat.
Proof using Type. clear mx alloc.
  intros Hid. unfold created_before, datagram_sockets. apply subset_size. split.
  - intros x. rewrite elem_of_filter. by intros [_ ?].
  - intros Hsub. specialize (Hsub id Hid). rewrite elem_of_filter in Hsub. lia.
Qed.

Lemma created_before_mono sim id id' : id ∈ dgrams sim -> (id < id')%positive ->
  (created_before sim id < created_before sim id')%nat.
Proof using Type. clear mx alloc.
  intros Hid Hlt. unfold created_before. apply subset_size. split.
  - intros x. rewrite !elem_of_filter. intros [? ?]. split; [lia|done].
  - intros Hsub. assert (Hin : id ∈ filter (fun x => (x < id')%positive) (dgrams sim)) by (rewrite elem_of_filter; done).
    specialize (Hsub id Hin). rewrite elem_of_filter in Hsub. lia.
Qed.

End Calls.

(** * Properties *)

(** C6: faults are reproducible. In every reachable world, whatever the
    interleaving: with [n] datagram sockets created so far the generator of the
    simulator stands where [n] seedings from the configured seed have left it,
    so nothing else draws from it; and the pipe of a datagram socket that was
    created after [k] others is what sends and receives have made of a new pipe
    with the configured fault options and the seed number [k]. So the faults a
    socket can see depend on the seed of the configuration, on how many datagram
    sockets were created before it and on its own datagrams, on nothing else
    that happens in the world. *)
Theorem faults_are_reproducible {Q M} `{PriorityQueue Q} `{RunnerHandle M}
    `{Bernoulli Xoshiro.xoshiro256_star_star} `{Build} (mx : Z) (alloc : Z -> bool) (o : options) (w : world Q M) :
  reachable mx alloc o w ->
  sim_rng (w_sim w) = source o (datagram_sockets (w_sim w))
  /\ (forall id d, objs (w_sim w) !! id = Some (DgramObj d) ->
       (created_before (w_sim w) id < datagram_sockets (w_sim w))%nat
       /\ rtc (pipe_step mx) (Pipe.make (net_faults o) (pipe_seed o (created_before (w_sim w) id))) (inbound_ d)
       /\ fault_options_ (inbound_ d) = net_faults o)
  /\ (forall id id' d d', objs (w_sim w) !! id = Some (DgramObj d) -> objs (w_sim w) !! id' = Some (DgramObj d') ->
       (id < id')%positive -> (created_before (w_sim w) id < created_before (w_sim w) id')%nat).
Proof.
  intros [Ho Hs Hp]%reachable_seeded. split; [done|]. split.
  - intros id d Hd%dgram_at_Some. specialize (Hp id d Hd). split; [|split; [done|]].
    + apply created_before_lt, elem_of_dgrams. by eexists.
    + by rewrite (pipe_run_options _ _ _ Hp).
  - intros id id' d d' Hd%dgram_at_Some _ Hlt. apply created_before_mono; [|done]. apply elem_of_dgrams. by eexists.
Qed.

Import PacketList.

(** Two processes with a datagram socket each, a stream socket created after
    them, and a datagram sent from the first to the second. *)
Definition after_message : world PacketList.queue (gmap Z byte) :=
  let b := debug_build in
  run_call (run_call two_processes 0 HookTable.sys_socket [1; 1; 0])
    0 HookTable.sys_sendto [1073741824; 4112; 2; 0; 4096; 6].

Lemma after_message_reachable :
  reachable (H2 := debug_build) no_udp_limit (fun _ => true) delayed after_message.
Proof. do 2 apply run_call_reachable. exact two_processes_reachable. Qed.

Example faults_are_reproducible_witness :
  let b := debug_build in
  sim_rng (w_sim after_message) = source delayed 2
  /\ exists d, objs (w_sim after_message) !! 2%positive = Some (DgramObj d) /\ pending (inbound_ d) <> []
    /\ rtc (pipe_step no_udp_limit) (Pipe.make (net_faults delayed) (pipe_seed delayed 1)) (inbound_ d).
Proof.
  intros b.
  destruct (faults_are_reproducible (H2 := debug_build) no_udp_limit (fun _ => true) delayed after_message
    after_message_reachable) as (Hs & Hp & _).
  assert (Hn : datagram_sockets (w_sim after_message) = 2%nat) by (vm_compute; reflexivity).
  assert (Hk : created_before (w_sim after_message) 2%positive = 1%nat) by (vm_compute; reflexivity).
  split; [by rewrite Hn in Hs|].
  assert (Hd : exists d, objs (w_sim after_message) !! 2%positive = Some (DgramObj d) /\ pending (inbound_ d) <> [])
    by (vm_compute; eexists; split; [reflexivity|discriminate]).
  destruct Hd as (d & Hd & Hne). exists d. split; [exact Hd|]. split; [exact Hne|].
  destruct (Hp _ _ Hd) as (_ & Hr & _). by rewrite Hk in Hr.
Defined.
