(* ===== verification/Clock.v ===== *)
(** * The clock hooks

    [clock_nanosleep] and [clock_gettime] of Hooks.v over the ptrace runner. *)

From Stdlib Require Import Strings.Byte SpecFloat.
From S2P Require Import Prelude Words Float Random Faults Socket Network FdTable Pipe Stream.
From S2P Require Import HookTable Runner Tracee World Hooks.

Import PacketList.

Section Clock.
Context {Q M : Type} `{PriorityQueue Q} `{PtraceOk M} `{Build}.
Implicit Types (sim : simulator Q) (rep : replica M).

(** [timespec]: the bytes and the two fields. *)
Lemma timespec_round_trip s n : is_i64 s -> is_i64 n -> timespec_of (timespec_bytes s n) = (s, n).
Proof.
  intros Hs Hn. unfold timespec_of, timespec_bytes.
  rewrite take_app_length', drop_app_length' by (by rewrite length_le_bytes).
  rewrite !le_value_bytes. change (256 ^ Z.of_nat 8) with (2 ^ 64).
  change (u64 s mod 2 ^ 64) with (u64 (u64 s)). change (u64 n mod 2 ^ 64) with (u64 (u64 n)).
  by rewrite !i64_u64, !i64_id.
Qed.

Lemma length_timespec s n : length (timespec_bytes s n) = 16%nat.
Proof. unfold timespec_bytes. by rewrite length_app, !length_le_bytes. Qed.

Lemma read_unmapped (m : M) ptr x y :
  0 <= ptr -> ptr + 16 < 2 ^ 64 -> ptr <= x < ptr + 8 -> ptr + 8 <= y < ptr + 16 ->
  byte_at m x = None -> byte_at m y = None ->
  read_memory ptr 16 m = (0, replicate 16 xff).
Proof.
  intros Hp Hl Hx Hy Hmx Hmy. unfold read_memory. f_equal. apply list_eq_same_length with (n := 16%nat).
  - by rewrite length_replicate.
  - apply length_read_loop. lia.
  - intros i a b Hi Ha Hb. apply lookup_replicate in Hb as [-> _].
    assert (Hff : read_loop 17 ptr 16 m !! i = Some xff); [|congruence].
    destruct (decide (i < 8)%nat).
    + apply (read_loop_unmapped _ _ _ _ (ptr + 8 * (Z.of_nat i / 8)) x); try lia; try done.
      rewrite Z.div_small by lia. lia.
    + apply (read_loop_unmapped _ _ _ _ (ptr + 8 * (Z.of_nat i / 8)) y); try lia; try done.
      replace (Z.of_nat i / 8) with 1; [lia|]. apply (Z.div_unique _ _ _ (Z.of_nat i - 8)); lia.
Qed.

Lemma nanosleep_read args sim rep bs :
  run_read (arg args 2) 16 (mem_ rep) = (0, bs) ->
  sys_clock_nanosleep args sim rep
  = (s ← mul_i64 (timespec_of bs).1 1000000000;
     duration ← add_i64 s (timespec_of bs).2;
     Ret ((handled 0, sim, rep), Some (dmul (of_int duration) (time_scale (options_ sim))))).
Proof.
  intros Hr. unfold sys_clock_nanosleep. rewrite Hr. change (0 <? 0) with false. cbn iota.
  by destruct (timespec_of bs).
Qed.

End Clock.

(** [clock_nanosleep] cannot fail. A readable request of [s] seconds and
    [n] nanoseconds is slept for [(s * 10^9 + n) * time_scale], unless the
    total overflows 64 bits (undefined). A request that is not mapped is read
    as two fields of -1 because the runner hides the failed reads: the call
    answers 0 after "sleeping" a negative time where the kernel gives EFAULT.
    Every call that returns answers 0 and changes nothing. *)
Theorem nanosleep_never_fails {Q M} `{PriorityQueue Q} `{PtraceOk M} `{Build} (args : list Z)
    (sim : simulator Q) (rep : replica M) (s n x y : Z) :
  let request := arg args 2 in
  0 <= request -> request + 16 < 2 ^ 64 -> is_i64 s -> is_i64 n ->
  let slept total := dmul (of_int total) (time_scale (options_ sim)) in
  (read_memory request 16 (mem_ rep) = (0, timespec_bytes s n) ->
     sys_clock_nanosleep args sim rep
     = if bool_decide (is_i64 (s * 1000000000) /\ is_i64 (s * 1000000000 + n))
       then Ret ((Handled 0, sim, rep), Some (slept (s * 1000000000 + n))) else Undefined)
  /\ (request <= x < request + 8 -> request + 8 <= y < request + 16 ->
      byte_at (mem_ rep) x = None -> byte_at (mem_ rep) y = None ->
      sys_clock_nanosleep args sim rep = Ret ((Handled 0, sim, rep), Some (slept (-1000000001))))
  /\ (forall r, sys_clock_nanosleep args sim rep = Ret r -> r.1 = (Handled 0, sim, rep)).
Proof.
  intros request Hq Hl Hs Hn slept. split; [|split].
  - intros Hr. rewrite (nanosleep_read args sim rep _ Hr), timespec_round_trip by done. cbn [fst snd].
    unfold mul_i64, add_i64.
    destruct (Z.leb_spec (- 2 ^ 63) (s * 1000000000)), (Z.ltb_spec (s * 1000000000) (2 ^ 63));
      cbn [andb mbind outcome_bind]; try (rewrite bool_decide_eq_false_2; [done|lia]).
    destruct (Z.leb_spec (- 2 ^ 63) (s * 1000000000 + n)), (Z.ltb_spec (s * 1000000000 + n) (2 ^ 63));
      cbn [andb mbind outcome_bind]; try (rewrite bool_decide_eq_false_2; [done|lia]).
    by rewrite bool_decide_eq_true_2 by lia.
  - intros Hx Hy Hmx Hmy. rewrite (nanosleep_read args sim rep (replicate 16 xff)).
    + change (timespec_of (replicate 16 xff)) with (-1, -1). reflexivity.
    + by apply (read_unmapped _ _ x y).
  - intros r Hr. unfold sys_clock_nanosleep in Hr. cbn [run_read ptrace_runner read_memory] in Hr.
    change (0 <? 0) with false in Hr. cbn iota in Hr.
    destruct (timespec_of _) as [a b]. apply bind_Ret_inv in Hr as (? & _ & Hr).
    by apply bind_Ret_inv in Hr as (? & _ & [= <-]).
Qed.

(** [clock_gettime]. It always answers 0 and, where the result buffer is
    mapped, leaves there exactly the seconds and nanoseconds of the scaled
    clock at the second of the two readings, and touches no byte outside the
    sixteen of the [timespec]. *)
Theorem gettime_writes_scaled_time {Q M} `{PriorityQueue Q} `{PtraceOk M} `{Build} (now : Z)
    (args : list Z) (sim : simulator Q) (rep : replica M) (s n : Z) :
  let res := arg args 1 in
  0 <= res -> res + 16 < 2 ^ 64 -> mapped (mem_ rep) res 16 -> is_i64 s -> is_i64 n ->
  scaled_time (epoch_ rep) now (time_scale (options_ sim)) = Ret (s, n) ->
  exists m, sys_clock_gettime now args sim rep = Ret (Handled 0, sim, set_mem m rep)
    /\ timespec_of (read_memory res 16 m).2 = (s, n)
    /\ (forall x, ~ (res <= x < res + 16) -> byte_at m x = byte_at (mem_ rep) x).
Proof.
  intros res Hq Hl Hm Hs Hn Ht. unfold sys_clock_gettime. rewrite Ht. cbn [mbind outcome_bind].
  cbn [run_write ptrace_runner]. unfold write_memory at 1. change (0 <? 0) with false. cbn iota.
  pose proof (length_timespec s n) as Hlen.
  destruct (write_then_read res (timespec_bytes s n) (mem_ rep)) as [Hw Hr]; rewrite ?Hlen; try done.
  rewrite Hlen in Hw, Hr. eexists. split; [reflexivity|]. split.
  - transitivity (timespec_of (timespec_bytes s n)); [f_equal; exact Hr|by apply timespec_round_trip].
  - intros x Hx. etransitivity; [exact (Hw x)|].
    by rewrite bool_decide_eq_false_2 by (change (Z.of_nat 16) with 16; lia).
Qed.

(** A request at an address that is not mapped, and a reading one second after
    the epoch. *)
Definition unmapped_replica : replica (gmap Z byte) := make_replica ∅ 0.

Example nanosleep_never_fails_witness :
  sys_clock_nanosleep (H0 := ptrace_runner) (H2 := debug_build) [0; 0; 4096; 0]
    (make_simulator (Q := PacketList.queue) (default_sim_options 0)) unmapped_replica
  = Ret ((Handled 0, make_simulator (default_sim_options 0), unmapped_replica),
         Some (dmul (of_int (-1000000001)) d1)).
Proof.
  refine (proj1 (proj2 (nanosleep_never_fails (H2 := debug_build) [0; 0; 4096; 0] _ unmapped_replica 0 0 4096 4104
    _ _ _ _)) _ _ _ _).
  - discriminate.
  - reflexivity.
  - by split.
  - by split.
  - by split.
  - by split.
  - reflexivity.
  - reflexivity.
Defined.

Example gettime_writes_scaled_time_witness :
  exists m, sys_clock_gettime (H0 := ptrace_runner) (H2 := debug_build) 1500000000 [0; 4096]
      (make_simulator (Q := PacketList.queue) (default_sim_options 0)) (make_replica (zeros 4096 16) 500000000)
    = Ret (Handled 0, make_simulator (default_sim_options 0), set_mem m (make_replica (zeros 4096 16) 500000000)).
Proof.
  destruct (gettime_writes_scaled_time (H2 := debug_build) 1500000000 [0; 4096]
    (make_simulator (Q := PacketList.queue) (default_sim_options 0))
    (make_replica (zeros 4096 16) 500000000) 1 500000000) as (m & Hm & _).
  - discriminate.
  - reflexivity.
  - intros x Hx. change (is_Some (zeros 4096 16 !! x)). rewrite zeros_lookup.
    change (4096 <= x < 4096 + 16) in Hx. rewrite bool_decide_eq_true_2 by exact Hx. by eexists.
  - by split.
  - by split.
  - vm_compute. reflexivity.
  - exists m. exact Hm.
Defined.
