(* ===== verification/Child.v ===== *)
(** * The child process: src/sys/child.hpp, src/sys/child.cpp

    The state of a traced child and the decoding of waitpid statuses with the
    macros of <sys/wait.h>.  What waitpid and kill return is an argument. *)

From S2P Require Import Prelude Words.

Inductive run_state :=
| running
| stopped (signal : Z)
| terminated (signal : Z)
| exited (status : Z).

#[export] Instance run_state_eq_dec : EqDecision run_state.
Proof. solve_decision. Defined.

Record child := { pid_ : Z; state_ : option run_state }.

(** The default constructor. *)
Definition no_child : child := {| pid_ := -1; state_ := None |}.

(** [operator bool] *)
Definition valid (c : child) : bool := 0 <=? pid_ c.

(** ** <sys/wait.h>, glibc *)

Definition WEXITSTATUS (status : Z) : Z := Z.shiftr (Z.land status 0xff00) 8.
Definition WTERMSIG (status : Z) : Z := Z.land status 0x7f.
Definition WSTOPSIG (status : Z) : Z := WEXITSTATUS status.
Definition WIFEXITED (status : Z) : bool := WTERMSIG status =? 0.
(** [((signed char)((status & 0x7f) + 1) >> 1) > 0] *)
Definition WIFSIGNALED (status : Z) : bool :=
  let c := Z.land status 0x7f + 1 in
  let c := if 128 <=? c then c - 256 else c in
  0 <? Z.shiftr c 1.
Definition WIFSTOPPED (status : Z) : bool := Z.land status 0xff =? 0x7f.
Definition WIFCONTINUED (status : Z) : bool := status =? 0xffff.

(** [wait], waitpid having returned [rc] with [status], or failed with [errno]. *)
Definition wait (rc status errno : Z) (c : child) : outcome (Z * child) :=
  if rc <? 0 then Throw (system_error errno)
  else if WIFCONTINUED status then Ret (status, {| pid_ := pid_ c; state_ := Some running |})
  else if WIFSTOPPED status then Ret (status, {| pid_ := pid_ c; state_ := Some (stopped (WSTOPSIG status)) |})
  else if WIFEXITED status then Ret (status, {| pid_ := -1; state_ := Some (exited (WEXITSTATUS status)) |})
  else if WIFSIGNALED status then Ret (status, {| pid_ := -1; state_ := Some (terminated (WTERMSIG status)) |})
  else Throw runtime_error.

(** [terminate], kill having returned [rc] or failed with [errno]. *)
Definition terminate (rc errno : Z) (c : child) : outcome unit :=
  if negb (valid c) then Throw invalid_argument
  else if rc <? 0 then Throw (system_error errno)
  else Ret tt.

(** ** The kernel's encoding of wait statuses *)

Inductive wait_event :=
| Exited (code : Z)
| Signaled (sig : Z) (core : bool)
| Stopped (sig event : Z)             (* a ptrace event stop has [event] > 0 *)
| Continued.

Definition encode (e : wait_event) : Z :=
  match e with
  | Exited code => code * 2 ^ 8
  | Signaled sig core => sig + (if core : bool then 128 else 0)
  | Stopped sig event => event * 2 ^ 16 + sig * 2 ^ 8 + 0x7f
  | Continued => 0xffff
  end.

(** What the kernel can report. *)
Definition possible (e : wait_event) : Prop :=
  match e with
  | Exited code => 0 <= code < 256
  | Signaled sig _ => 0 < sig < 127
  | Stopped sig event => 0 <= sig < 256 /\ 0 <= event < 2 ^ 8
  | Continued => True
  end.

(** ** Lemmas *)

Lemma land_mask z k : 0 <= k -> Z.land z (2 ^ k - 1) = z mod 2 ^ k.
Proof. intros Hk. rewrite <- Z.land_ones by done. by rewrite Z.ones_equiv, Z.sub_1_r. Qed.

Lemma land_7f z : Z.land z 0x7f = z mod 128.
Proof. apply (land_mask z 7). lia. Qed.
Lemma land_ff z : Z.land z 0xff = z mod 256.
Proof. apply (land_mask z 8). lia. Qed.

Lemma exit_status_div z : WEXITSTATUS z = z / 256 mod 256.
Proof.
  unfold WEXITSTATUS. rewrite Z.shiftr_land. change (Z.shiftr 0xff00 8) with 0xff.
  by rewrite land_ff, Z.shiftr_div_pow2 by lia.
Qed.

Lemma signaled_iff z : WIFSIGNALED z = true <-> 0 < z mod 128 < 127.
Proof.
  unfold WIFSIGNALED. rewrite land_7f. pose proof (Z.mod_pos_bound z 128 ltac:(lia)) as Hm.
  set (m := z mod 128) in *. clearbody m. cbv zeta.
  rewrite Z.ltb_lt, Z.shiftr_div_pow2 by lia. change (2 ^ 1) with 2.
  destruct (Z.leb_spec 128 (m + 1)); Z.to_euclidean_division_equations; lia.
Qed.

(** The tests of [wait] by residues. *)
Lemma wait_classifies rc status errno c : 0 <= rc ->
  wait rc status errno c
  = if bool_decide (status = 0xffff) then Ret (status, {| pid_ := pid_ c; state_ := Some running |})
    else if bool_decide (status mod 256 = 0x7f) then
      Ret (status, {| pid_ := pid_ c; state_ := Some (stopped (status / 256 mod 256)) |})
    else if bool_decide (status mod 128 = 0) then
      Ret (status, {| pid_ := -1; state_ := Some (exited (status / 256 mod 256)) |})
    else if bool_decide (status mod 128 < 127) then
      Ret (status, {| pid_ := -1; state_ := Some (terminated (status mod 128)) |})
    else Throw runtime_error.
Proof.
  intros Hrc. unfold wait. rewrite (proj2 (Z.ltb_ge _ _)) by lia.
  assert (Hb : forall b (P : Prop) (D : Decision P), (b = true <-> P) -> b = @bool_decide P D)
    by (intros b P D HbP; apply eq_true_iff_eq; by rewrite bool_decide_eq_true).
  rewrite (Hb (WIFCONTINUED status) (status = 0xffff) _) by apply Z.eqb_eq.
  rewrite (Hb (WIFSTOPPED status) (status mod 256 = 0x7f) _)
    by (unfold WIFSTOPPED; rewrite land_ff; apply Z.eqb_eq).
  rewrite (Hb (WIFEXITED status) (status mod 128 = 0) _)
    by (unfold WIFEXITED, WTERMSIG; rewrite land_7f; apply Z.eqb_eq).
  unfold WSTOPSIG, WTERMSIG. rewrite !exit_status_div, land_7f.
  repeat case_bool_decide; try done;
    pose proof (signaled_iff status) as Hsig; pose proof (Z.mod_pos_bound status 128 ltac:(lia));
    destruct (WIFSIGNALED status); try done; exfalso;
    [destruct Hsig as [_ Hsig]; discriminate Hsig; lia|destruct Hsig as [Hsig _]; specialize (Hsig eq_refl); lia].
Qed.

Definition decoded (e : wait_event) : run_state :=
  match e with
  | Exited code => exited code
  | Signaled sig _ => terminated sig
  | Stopped sig _ => stopped sig
  | Continued => running
  end.

Lemma wait_encode e rc errno c : possible e -> 0 <= rc ->
  wait rc (encode e) errno c
  = Ret (encode e, {| pid_ := match e with Exited _ | Signaled _ _ => -1 | _ => pid_ c end;
                      state_ := Some (decoded e) |}).
Proof.
  intros He Hrc. rewrite wait_classifies by done.
  destruct e as [code|sig core|sig ev|]; cbn [encode possible decoded] in *.
  - change (2 ^ 8) with 256. assert (E1 : code * 256 / 256 mod 256 = code)
      by (rewrite Z.div_mul, Z.mod_small by lia; done).
    rewrite E1, bool_decide_eq_false_2, bool_decide_eq_false_2, bool_decide_eq_true_2; [done|..];
      Z.to_euclidean_division_equations; lia.
  - assert (E1 : (sig + (if core then 128 else 0)) mod 128 = sig)
      by (destruct core; Z.to_euclidean_division_equations; lia).
    rewrite E1, bool_decide_eq_false_2, bool_decide_eq_false_2, bool_decide_eq_false_2, bool_decide_eq_true_2;
      [done|lia..| |destruct core; lia]. destruct core; Z.to_euclidean_division_equations; lia.
  - change (2 ^ 8) with 256. change (2 ^ 16) with 65536.
    assert (E1 : (ev * 65536 + sig * 256 + 127) / 256 mod 256 = sig)
      by (Z.to_euclidean_division_equations; lia).
    rewrite E1, bool_decide_eq_false_2, bool_decide_eq_true_2; [done|..];
      Z.to_euclidean_division_equations; lia.
  - done.
Qed.

(** * Properties *)

(** [wait] decodes every status the kernel can report to the event it
    stands for, and forgets the pid exactly when the child is gone, after
    which [terminate] refuses; any other successful status (low byte 0xff,
    not the continued one) is the exception. A failed waitpid throws its
    errno. *)
Theorem wait_decodes (e : wait_event) (rc errno status : Z) (c : child) :
  possible e -> 0 <= rc ->
  wait rc (encode e) errno c
    = Ret (encode e, {| pid_ := match e with Exited _ | Signaled _ _ => -1 | _ => pid_ c end;
                        state_ := Some (decoded e) |})
  /\ (forall st c', wait rc status errno c = Ret (st, c') ->
        pid_ c' = pid_ c
        \/ pid_ c' = -1 /\ (exists x, state_ c' = Some (exited x) \/ state_ c' = Some (terminated x))
           /\ forall r k, terminate r k c' = Throw invalid_argument)
  /\ (wait rc status errno c = Throw runtime_error <-> status mod 256 = 255 /\ status <> 0xffff)
  /\ wait (-1) status errno c = Throw (system_error errno).
Proof.
  intros He Hrc. split; [by apply wait_encode|]. split; [|split; [|done]].
  - unfold wait. rewrite (proj2 (Z.ltb_ge _ _)) by lia. intros st c' Hw.
    repeat case_match; try done; injection Hw as <- <-; cbn [pid_ state_]; try (by left); right; eauto.
  - rewrite wait_classifies by done. split.
    + repeat case_bool_decide; done || (intros _; Z.to_euclidean_division_equations; lia).
    + intros [Hm Hne]. rewrite !bool_decide_eq_false_2; [done|..]; Z.to_euclidean_division_equations; lia.
Qed.

Example wait_decodes_witness :
  wait 77 (encode (Signaled 9 true)) 0 {| pid_ := 77; state_ := None |}
  = Ret (137, {| pid_ := -1; state_ := Some (terminated 9) |}).
Proof.
  refine (proj1 (wait_decodes (Signaled 9 true) 77 0 0 {| pid_ := 77; state_ := None |} _ _)).
  - by split.
  - done.
Defined.
