(* ===== verification/Barrier.v ===== *)
(** * The start barrier: [barrier] of src/sim/runner/ptrace.cpp

    The class as a transition system.  The mutex makes each stretch between
    two waits one step: entering [wait] up to the return or the condition
    wait, and re-testing [epoch == epoch_] once woken.  The condition variable
    is the set of the threads that sleep on it: waiting adds the thread,
    [notify_all] empties the set, and a thread in it takes no step.  Spurious
    wake-ups are a relation of their own, so that progress can be shown from
    the notification alone. *)

From S2P Require Import Prelude Words.

Record barrier := { count_ : Z; current_ : Z; epoch_ : Z; cond_ : gset nat }.

(** The constructor. *)
Definition make_barrier (count : Z) : barrier :=
  {| count_ := count; current_ := count; epoch_ := 0; cond_ := ∅ |}.

(** [std::condition_variable] on the sleeping threads: [cond_.wait(lock)] up
    to the release of the lock, [cond_.notify_all()], and a wake-up without a
    notification. *)
Definition set_cond (c : gset nat) (b : barrier) : barrier :=
  {| count_ := count_ b; current_ := current_ b; epoch_ := epoch_ b; cond_ := c |}.
Definition sleep (i : nat) (b : barrier) : barrier := set_cond ({[i]} ∪ cond_ b) b.
Definition notify_all (b : barrier) : barrier := set_cond ∅ b.
Definition wake_spuriously (i : nat) (b : barrier) : barrier := set_cond (cond_ b ∖ {[i]}) b.

(** [wait], called by thread [i], up to its first blocking point: [None]
    returns to the caller, [Some e] sleeps on the condition with the local
    [epoch]. *)
Definition enter `{Build} (i : nat) (b : barrier) : outcome (option Z * barrier) :=
  _ ← assert_ (negb (current_ b =? 0));
  let current := u64 (current_ b - 1) in
  if current =? 0 then
    Ret (None, notify_all {| count_ := count_ b; current_ := count_ b; epoch_ := u64 (epoch_ b + 1); cond_ := cond_ b |})
  else
    Ret (Some (epoch_ b), sleep i {| count_ := count_ b; current_ := current; epoch_ := epoch_ b; cond_ := cond_ b |}).

(** The loop test: still the same epoch means wait again. *)
Definition blocked (epoch : Z) (b : barrier) : bool := epoch =? epoch_ b.

(** The rest of [wait] once thread [i] is awake and has the lock again: does it
    return, or sleep again. *)
Definition retest (i : nat) (epoch : Z) (b : barrier) : bool * barrier :=
  if blocked epoch b then (false, sleep i b) else (true, b).

(** ** Threads *)

Inductive thread := Outside (passed : nat) | Waiting (epoch : Z) (passed : nat).

#[export] Instance thread_eq_dec : EqDecision thread.
Proof. solve_decision. Defined.

(** How often the thread has passed the barrier. *)
Definition passed (t : thread) : nat := match t with Outside n | Waiting _ n => n end.
(** How often it has arrived. *)
Definition arrived (t : thread) : nat := match t with Outside n => n | Waiting _ n => S n end.

Record system := { bar : barrier; threads : list thread }.

Section Steps.
Context `{Build}.

Inductive step : system -> system -> Prop :=
| StepReturn s i n b :                     (* the last one: notifies and returns *)
    threads s !! i = Some (Outside n) -> enter i (bar s) = Ret (None, b) ->
    step s {| bar := b; threads := <[i := Outside (S n)]> (threads s) |}
| StepBlock s i n e b :
    threads s !! i = Some (Outside n) -> enter i (bar s) = Ret (Some e, b) ->
    step s {| bar := b; threads := <[i := Waiting e n]> (threads s) |}
| StepLeave s i e n b :                    (* awake, and the epoch moved on *)
    threads s !! i = Some (Waiting e n) -> i ∉ cond_ (bar s) -> retest i e (bar s) = (true, b) ->
    step s {| bar := b; threads := <[i := Outside (S n)]> (threads s) |}
| StepAgain s i e n b :                    (* awake, sleeps again *)
    threads s !! i = Some (Waiting e n) -> i ∉ cond_ (bar s) -> retest i e (bar s) = (false, b) ->
    step s {| bar := b; threads := threads s |}.

(** A sleeping thread wakes without a notification. *)
Inductive spurious : system -> system -> Prop :=
| Spurious s i : i ∈ cond_ (bar s) ->
    spurious s {| bar := wake_spuriously i (bar s); threads := threads s |}.

Definition initial (count : nat) : system :=
  {| bar := make_barrier (Z.of_nat count); threads := replicate count (Outside 0) |}.

Inductive run (count : nat) : system -> Prop :=
| RunInit : run count (initial count)
| RunStep s s' : run count s -> step s s' -> run count s'
| RunSpurious s s' : run count s -> spurious s s' -> run count s'.

End Steps.

(** ** Lemmas *)

Lemma u64_succ_ne z : u64 z <> u64 (z + 1).
Proof.
  unfold u64. intros E. pose proof (Z.div_mod z (2 ^ 64)). pose proof (Z.div_mod (z + 1) (2 ^ 64)).
  assert (1 = 2 ^ 64 * ((z + 1) / 2 ^ 64 - z / 2 ^ 64)) by lia. lia.
Qed.

Section Count.
Context {A : Type} (P : A -> bool).

Fixpoint tally (l : list A) : Z :=
  match l with [] => 0 | x :: l => Z.b2z (P x) + tally l end.

Lemma tally_bounds l : 0 <= tally l <= Z.of_nat (length l).
Proof. induction l as [|x l IH]; cbn [tally length]; [lia|]. destruct (P x); cbn [Z.b2z]; lia. Qed.

Lemma tally_insert l i x y :
  l !! i = Some x -> tally (<[i := y]> l) = tally l - Z.b2z (P x) + Z.b2z (P y).
Proof.
  revert i. induction l as [|z l IH]; intros [|i] Hi; try done.
  - injection Hi as ->. cbn. lia.
  - change (<[S i := y]> (z :: l)) with (z :: <[i := y]> l). cbn [tally]. rewrite (IH i Hi). lia.
Qed.

Lemma tally_full l : tally l = Z.of_nat (length l) -> forall x, x ∈ l -> P x = true.
Proof.
  induction l as [|x l IH]; intros Hl y Hy; [by apply not_elem_of_nil in Hy|].
  cbn [tally length] in Hl. pose proof (tally_bounds l).
  destruct (P x) eqn:Ex; cbn [Z.b2z] in Hl; [|lia].
  apply elem_of_cons in Hy as [->|Hy]; [done|]. apply IH; [lia|done].
Qed.

Lemma tally_lt l : tally l < Z.of_nat (length l) -> exists i x, l !! i = Some x /\ P x = false.
Proof.
  induction l as [|x l IH]; cbn [tally length]; intros Hl; [lia|]. destruct (P x) eqn:Ex.
  - cbn [Z.b2z] in Hl. destruct IH as (i & y & Hi & Hy); [lia|]. by exists (S i), y.
  - by exists 0%nat, x.
Qed.

Lemma tally_none l : (forall x, x ∈ l -> P x = false) -> tally l = 0.
Proof.
  induction l as [|x l IH]; intros Hl; [done|]. cbn [tally].
  rewrite (Hl x) by apply list_elem_of_here. rewrite IH; [done|].
  intros y Hy. apply Hl. by right.
Qed.

Lemma tally_replicate n x : P x = false -> tally (replicate n x) = 0.
Proof. intros Hx. apply tally_none. intros y Hy. apply elem_of_replicate in Hy as [-> _]. done. Qed.

End Count.

(** A thread of round [E]: not yet arrived, arrived, or released from the
    round before and not yet gone. *)
Definition fits_round (E : nat) (t : thread) : Prop :=
  t = Outside E \/ t = Waiting (u64 (Z.of_nat E)) E
  \/ exists E', E = S E' /\ t = Waiting (u64 (Z.of_nat E')) E'.

(** Arrived in round [E]. *)
Definition here (E : nat) (t : thread) : bool := bool_decide (t = Waiting (u64 (Z.of_nat E)) E).

Record round_inv (count : nat) (s : system) (E : nat) : Prop := {
  ri_count : count_ (bar s) = Z.of_nat count;
  ri_length : length (threads s) = count;
  ri_epoch : epoch_ (bar s) = u64 (Z.of_nat E);
  ri_current : current_ (bar s) = Z.of_nat count - tally (here E) (threads s);
  ri_open : 0 < current_ (bar s);
  ri_fits : forall i t, threads s !! i = Some t -> fits_round E t;
  ri_asleep : forall i, i ∈ cond_ (bar s) -> threads s !! i = Some (Waiting (u64 (Z.of_nat E)) E);
}.

(** In a round, everyone has arrived [E] times at least. *)
Lemma fits_arrived E t : fits_round E t -> (E <= arrived t)%nat /\ (passed t <= E)%nat.
Proof. intros [-> |[-> |(E' & -> & ->)]]; cbn; lia. Qed.

Section Facts.
Context `{Build}.
Variable count : nat.
Hypothesis Hcount : (0 < count)%nat.
Hypothesis Hsmall : Z.of_nat count < 2 ^ 64.

Lemma fits_insert E s i t :
  fits_round E t -> (forall i t, threads s !! i = Some t -> fits_round E t) ->
  forall j t', <[i := t]> (threads s) !! j = Some t' -> fits_round E t'.
Proof.
  intros Ht Hs j t' Hj. apply list_lookup_insert_Some in Hj as [(-> & -> & _)|[_ Hj]]; [done|by eapply Hs].
Qed.

Lemma here_next E t : fits_round E t -> here (S E) t = false.
Proof.
  intros [-> |[-> |(E' & -> & ->)]]; apply bool_decide_eq_false_2; intros [=]; lia.
Qed.

Lemma enter_spec s E i : round_inv count s E ->
  enter i (bar s) = (if current_ (bar s) =? 1
    then Ret (None, {| count_ := Z.of_nat count; current_ := Z.of_nat count;
                       epoch_ := u64 (Z.of_nat (S E)); cond_ := ∅ |})
    else Ret (Some (u64 (Z.of_nat E)),
              {| count_ := Z.of_nat count; current_ := current_ (bar s) - 1;
                 epoch_ := u64 (Z.of_nat E); cond_ := {[i]} ∪ cond_ (bar s) |})).
Proof.
  intros [Hc Hl He Hcur Ho Hf _]. pose proof (tally_bounds (here E) (threads s)) as Hb.
  unfold enter. rewrite assert_true by (apply negb_true_iff, Z.eqb_neq; lia). cbn [mbind outcome_bind].
  rewrite u64_id by lia. destruct (Z.eqb_spec (current_ (bar s)) 1) as [E1|E1].
  - rewrite E1. unfold notify_all, set_cond. cbn [count_ current_ epoch_ cond_ Z.eqb Z.sub Z.add Z.opp Z.pos_sub].
    rewrite Hc, He, u64_add_l. do 3 f_equal. f_equal. lia.
  - rewrite (proj2 (Z.eqb_neq _ _)) by lia. by rewrite Hc, He.
Qed.

(** A thread outside is in the present round, one that waits in it or the one before. *)
Lemma outside_round E n : fits_round E (Outside n) -> n = E.
Proof. intros [[= ->]|[|(? & _ & ?)]]; done. Qed.

Lemma step_return s E i n b : round_inv count s E ->
  threads s !! i = Some (Outside n) -> enter i (bar s) = Ret (None, b) ->
  round_inv count {| bar := b; threads := <[i := Outside (S n)]> (threads s) |} (S E).
Proof.
  intros Hi Hn Hent. pose proof Hi as [Hc Hl He Hcur Ho Hf Hsl].
  rewrite (enter_spec _ _ _ Hi) in Hent. destruct (Z.eqb_spec (current_ (bar s)) 1) as [E1|]; [|done].
  injection Hent as <-. pose proof (outside_round _ _ (Hf _ _ Hn)) as ->.
  assert (Hall : forall x, x ∈ <[i := Waiting (u64 (Z.of_nat E)) E]> (threads s) -> here E x = true).
  { apply tally_full. rewrite (tally_insert _ _ _ _ _ Hn), length_insert, Hl. unfold here at 2 3.
    rewrite bool_decide_eq_false_2, bool_decide_eq_true_2 by done. cbn [Z.b2z]. lia. }
  assert (Hfit : forall j t, <[i := Outside (S E)]> (threads s) !! j = Some t -> fits_round (S E) t).
  { intros j t [(-> & <- & _)|[Hne Hj]]%list_lookup_insert_Some; [by left|]. right. right. exists E.
    split; [done|]. apply (bool_decide_eq_true_1 (t = _)), Hall, (list_elem_of_lookup_2 _ j).
    by rewrite list_lookup_insert_ne. }
  split; cbn [bar threads count_ current_ epoch_ cond_]; try done; [by rewrite length_insert| |lia].
  rewrite tally_none; [lia|]. intros x (j & Hj)%list_elem_of_lookup_1.
  apply list_lookup_insert_Some in Hj as [(-> & <- & _)|[Hne Hj]];
    [by apply bool_decide_eq_false_2|]. by eapply here_next, Hf.
Qed.

Lemma step_block s E i n e b : round_inv count s E ->
  threads s !! i = Some (Outside n) -> enter i (bar s) = Ret (Some e, b) ->
  round_inv count {| bar := b; threads := <[i := Waiting e n]> (threads s) |} E.
Proof.
  intros Hi Hn Hent. pose proof Hi as [Hc Hl He Hcur Ho Hf Hsl].
  rewrite (enter_spec _ _ _ Hi) in Hent. destruct (Z.eqb_spec (current_ (bar s)) 1) as [|E1]; [done|].
  injection Hent as <- <-. pose proof (outside_round _ _ (Hf _ _ Hn)) as ->.
  split; cbn [bar threads count_ current_ epoch_ cond_]; try done; [by rewrite length_insert| |lia| |].
  - rewrite (tally_insert _ _ _ _ _ Hn). unfold here at 2 3.
    rewrite bool_decide_eq_false_2, bool_decide_eq_true_2 by done. cbn [Z.b2z]. lia.
  - apply fits_insert; [by right; left|done].
  - intros j Hj. destruct (decide (i = j)) as [->|Hne].
    { by rewrite list_lookup_insert_eq by (by eapply lookup_lt_Some). }
    rewrite list_lookup_insert_ne by done. apply Hsl.
    by apply elem_of_union in Hj as [?%elem_of_singleton|].
Qed.

Lemma step_leave s E i e n : round_inv count s E ->
  threads s !! i = Some (Waiting e n) -> i ∉ cond_ (bar s) -> blocked e (bar s) = false ->
  round_inv count {| bar := bar s; threads := <[i := Outside (S n)]> (threads s) |} E.
Proof.
  intros Hi Hw Hni Hb. pose proof Hi as [Hc Hl He Hcur Ho Hf Hsl].
  unfold blocked in Hb. apply Z.eqb_neq in Hb. rewrite He in Hb.
  destruct (Hf _ _ Hw) as [|[[= -> ->]|(E' & -> & [= -> ->])]]; [done..|].
  split; cbn [bar threads]; try done; [by rewrite length_insert| | |].
  - rewrite (tally_insert _ _ _ _ _ Hw). unfold here at 2 3.
    rewrite !bool_decide_eq_false_2; [cbn [Z.b2z]; lia|done|intros [=]; lia].
  - apply fits_insert; [by left|done].
  - intros j Hj. rewrite list_lookup_insert_ne by (intros ->; done). by apply Hsl.
Qed.

(** Only the sleepers change: in the re-test of a thread that stays, and when
    one wakes spuriously. *)
Lemma resleep_inv s E c : round_inv count s E ->
  (forall i, i ∈ c -> threads s !! i = Some (Waiting (u64 (Z.of_nat E)) E)) ->
  round_inv count {| bar := set_cond c (bar s); threads := threads s |} E.
Proof. intros [] Hsl. by split. Qed.

Lemma waiting_blocked s E e n i : round_inv count s E -> threads s !! i = Some (Waiting e n) ->
  blocked e (bar s) = true -> e = u64 (Z.of_nat E) /\ n = E.
Proof.
  intros Hi Hw Hb. unfold blocked in Hb. rewrite (ri_epoch _ _ _ Hi) in Hb. apply Z.eqb_eq in Hb as ->.
  destruct (ri_fits _ _ _ Hi _ _ Hw) as [|[[= ->]|(E' & -> & [= Hu ->])]]; [done..|].
  rewrite Nat2Z.inj_succ, <- Z.add_1_r in Hu. by apply eq_sym, u64_succ_ne in Hu.
Qed.

Lemma round_step s s' E :
  round_inv count s E -> step s s' -> round_inv count s' E \/ round_inv count s' (S E).
Proof.
  intros Hi Hstep. destruct Hstep as [s i n b Hn Hent|s i n e b Hn Hent|s i e n b Hw Hni Hr|s i e n b Hw Hni Hr].
  - right. by apply step_return.
  - left. by apply step_block.
  - left. unfold retest in Hr. destruct (blocked e (bar s)) eqn:Hb; injection Hr as; [done|subst b].
    by eapply step_leave.
  - left. unfold retest in Hr. destruct (blocked e (bar s)) eqn:Hb; injection Hr as; [subst b|done].
    apply resleep_inv; [done|]. destruct (waiting_blocked _ _ _ _ _ Hi Hw Hb) as [-> ->].
    intros j [->%elem_of_singleton|Hj]%elem_of_union; [done|]. by eapply ri_asleep.
Qed.

Lemma round_spurious s s' E : round_inv count s E -> spurious s s' -> round_inv count s' E.
Proof.
  intros Hi Hsp. destruct Hsp as [s i Hs]. apply resleep_inv; [done|]. intros j [Hj _]%elem_of_difference.
  by eapply ri_asleep.
Qed.

Lemma run_inv s : run count s -> exists E, round_inv count s E.
Proof.
  induction 1 as [|s s' _ (E & IH) Hs|s s' _ (E & IH) Hs].
  - exists 0%nat. split; cbn; try done; [by rewrite length_replicate|rewrite tally_replicate; [lia|done]|lia|].
    intros i t [-> _]%lookup_replicate. by left.
  - destruct (round_step _ _ _ IH Hs); eauto.
  - exists E. by eapply round_spurious.
Qed.

(** Somebody is still missing. *)
Lemma missing_thread s E : round_inv count s E ->
  exists i t, threads s !! i = Some t /\ arrived t = E
    /\ (t = Outside E \/ exists E', E = S E' /\ t = Waiting (u64 (Z.of_nat E')) E').
Proof.
  intros Hi. pose proof (ri_open _ _ _ Hi) as Ho. rewrite (ri_current _ _ _ Hi) in Ho.
  destruct (tally_lt (here E) (threads s)) as (i & t & Ht & Hh).
  { rewrite (ri_length _ _ _ Hi). lia. }
  exists i, t. split; [done|]. unfold here in Hh. apply bool_decide_eq_false in Hh.
  destruct (ri_fits _ _ _ Hi _ _ Ht) as [-> |[?|(E' & -> & ->)]]; [by split; [|left]|done|].
  split; [done|]. right. by exists E'.
Qed.

Lemma waiting_released s E i e n : round_inv count s E -> threads s !! i = Some (Waiting e n) ->
  blocked e (bar s) = false <-> forall j t, threads s !! j = Some t -> (n < arrived t)%nat.
Proof.
  intros Hi Hw. unfold blocked. rewrite (ri_epoch _ _ _ Hi), Z.eqb_neq.
  destruct (ri_fits _ _ _ Hi _ _ Hw) as [|[[= -> ->]|(E' & -> & [= -> ->])]]; [done| |].
  - split; [done|]. intros Hall. destruct (missing_thread s E Hi) as (j & t & Ht & Ha & _).
    specialize (Hall j t Ht). lia.
  - split; intros _.
    + intros j t Ht. pose proof (fits_arrived _ _ (ri_fits _ _ _ Hi _ _ Ht)). lia.
    + rewrite Nat2Z.inj_succ, <- Z.add_1_r. apply u64_succ_ne.
Qed.

(** A thread of the round before is awake: the notification has reached it. *)
Lemma released_awake s E i e n : round_inv count s E -> threads s !! i = Some (Waiting e n) ->
  blocked e (bar s) = false -> i ∉ cond_ (bar s).
Proof.
  intros Hi Hw Hb Hs. apply (ri_asleep _ _ _ Hi) in Hs. rewrite Hw in Hs. injection Hs as -> ->.
  unfold blocked in Hb. rewrite (ri_epoch _ _ _ Hi) in Hb. by apply Z.eqb_neq in Hb.
Qed.

(** How far the threads have come, and a step that moves one of them. *)
Definition moves (t : thread) : nat := passed t + arrived t.
Definition distance (s : system) : nat := sum_list_with moves (threads s).

Lemma distance_insert (l : list thread) i t t' : l !! i = Some t ->
  (moves t < moves t')%nat ->
  (sum_list_with moves l
    < sum_list_with moves (<[i := t']> l))%nat.
Proof.
  revert i. induction l as [|x l IH]; intros [|i] Hi Hlt; try done.
  - injection Hi as ->. cbn. lia.
  - specialize (IH i Hi Hlt). change (<[S i := t']> (x :: l)) with (x :: <[i := t']> l). cbn [sum_list_with]. lia.
Qed.

Lemma round_progress s E : round_inv count s E -> exists s', step s s' /\ (distance s < distance s')%nat.
Proof.
  intros Hi. destruct (missing_thread s E Hi) as (i & t & Ht & _ & Hcase).
  destruct Hcase as [-> |(E' & -> & ->)].
  - pose proof (enter_spec s E i Hi) as He. destruct (_ =? 1).
    + eexists. split; [by eapply StepReturn|]. apply (distance_insert _ _ _ _ Ht). cbn. lia.
    + eexists. split; [by eapply StepBlock|]. apply (distance_insert _ _ _ _ Ht). cbn. lia.
  - assert (Hb : blocked (u64 (Z.of_nat E')) (bar s) = false).
    { apply (waiting_released s _ _ _ _ Hi Ht). intros j t Hj.
      pose proof (fits_arrived _ _ (ri_fits _ _ _ Hi _ _ Hj)). lia. }
    eexists. split; [eapply StepLeave; [exact Ht|by eapply released_awake|unfold retest; by rewrite Hb]|].
    apply (distance_insert _ _ _ _ Ht). cbn. lia.
Qed.

(** So the rounds go on for ever, by notifications alone. *)
Lemma rounds_go_on s E k : round_inv count s E ->
  exists s' E', rtc step s s' /\ round_inv count s' E' /\ (k <= distance s')%nat.
Proof.
  induction k as [|k IH]; intros Hi; [exists s, E; split; [apply rtc_refl|]; split; [done|lia]|].
  destruct (IH Hi) as (s1 & E1 & Hr & Hi1 & Hk). destruct (round_progress s1 E1 Hi1) as (s2 & Hs & Hlt).
  destruct (round_step s1 s2 E1 Hi1 Hs) as [Hi2|Hi2]; eexists s2, _;
    (split; [by eapply rtc_r|]; split; [exact Hi2|lia]).
Qed.

(** In round [E] the threads have come at most [2 E + 1] steps each. *)
Lemma distance_round s E : round_inv count s E -> (distance s <= count * (2 * E + 1))%nat.
Proof.
  intros Hi. rewrite <- (ri_length _ _ _ Hi). unfold distance.
  assert (Hf : Forall (fun t => moves t <= 2 * E + 1)%nat (threads s)).
  { apply Forall_lookup_2. intros i t Ht. destruct (ri_fits _ _ _ Hi _ _ Ht) as [-> |[-> |(E' & -> & ->)]]; cbn; lia. }
  clear Hi. induction Hf as [|t l Ht _ IH]; cbn [sum_list_with length]; lia.
Qed.

Lemma every_round_completes s E N : round_inv count s E ->
  exists s', rtc step s s' /\ forall i t, threads s' !! i = Some t -> (N <= passed t)%nat.
Proof.
  intros Hi. destruct (rounds_go_on s E (S (count * (2 * N + 1))) Hi) as (s' & E' & Hr & Hi' & Hk).
  exists s'. split; [done|]. intros i t Ht. pose proof (distance_round s' E' Hi') as Hd.
  assert (N < E')%nat by nia.
  destruct (ri_fits _ _ _ Hi' _ _ Ht) as [-> |[-> |(E2 & -> & ->)]]; cbn; lia.
Qed.

End Facts.

(** * Properties *)

(** C16: the barrier, for any number of threads, rounds and spurious wake-ups.
    No thread has passed more often than every other one has arrived; a waiting
    thread is released exactly when every thread has arrived at its round, also
    after the 64-bit epoch wraps, and a released thread is never asleep: the
    notification has reached it. The assertion never fails. And the barrier
    alone never deadlocks: without any spurious wake-up the threads can always
    go on until each has passed [N] times, for every [N]. *)
Theorem barrier_synchronises `{Build} (count : nat) (s : system) :
  (0 < count)%nat -> Z.of_nat count < 2 ^ 64 -> run count s ->
  (forall i j t t', threads s !! i = Some t -> threads s !! j = Some t' -> (passed t <= arrived t')%nat)
  /\ (forall i e n, threads s !! i = Some (Waiting e n) ->
       (blocked e (bar s) = false <-> forall j t, threads s !! j = Some t -> (n < arrived t)%nat)
       /\ (blocked e (bar s) = false -> i ∉ cond_ (bar s)))
  /\ (forall i, returns (enter i (bar s)) = true)
  /\ (exists s', step s s' /\ threads s' <> threads s)
  /\ forall N : nat, exists s', rtc step s s'
       /\ forall i t, threads s' !! i = Some t -> (N <= passed t)%nat.
Proof.
  intros Hc Hs Hr. destruct (run_inv count Hc Hs s Hr) as (E & Hi). split; [|split; [|split; [|split]]].
  - intros i j t t' Ht Ht'. pose proof (fits_arrived _ _ (ri_fits _ _ _ Hi _ _ Ht)).
    pose proof (fits_arrived _ _ (ri_fits _ _ _ Hi _ _ Ht')). lia.
  - intros i e n Hw. split; [by apply (waiting_released count Hc s E i)|by eapply released_awake].
  - intros i. rewrite (enter_spec count Hc Hs s E i Hi). by destruct (_ =? 1).
  - destruct (round_progress count Hc Hs s E Hi) as (s' & Hst & Hlt). exists s'. split; [done|].
    intros He. unfold distance in Hlt. rewrite He in Hlt. lia.
  - intros N. by apply (every_round_completes count Hc Hs s E).
Qed.

(** Two threads: thread 1 arrives and sleeps, wakes spuriously and sleeps
    again, thread 0 arrives as the last one and returns. *)
Definition one_asleep : system :=
  {| bar := {| count_ := 2; current_ := 1; epoch_ := 0; cond_ := {[1%nat]} |}; threads := [Outside 0; Waiting 0 0] |}.
Definition one_released : system :=
  {| bar := {| count_ := 2; current_ := 2; epoch_ := 1; cond_ := ∅ |}; threads := [Outside 1; Waiting 0 0] |}.

Lemma one_asleep_run `{Build} : run 2 one_asleep.
Proof.
  assert (Hb : run 2 one_asleep).
  { eapply RunStep; [apply RunInit|].
    apply (StepBlock (initial 2) 1 0 0); [done|]. unfold enter. by rewrite assert_true. }
  eapply RunStep; [eapply RunSpurious; [exact Hb|apply (Spurious one_asleep 1); cbn; set_solver]|].
  apply (StepAgain {| bar := wake_spuriously 1 (bar one_asleep); threads := threads one_asleep |} 1 0 0); [done| |done].
  cbn. set_solver.
Qed.

Lemma one_released_run `{Build} : run 2 one_released.
Proof.
  eapply RunStep; [apply one_asleep_run|]. apply (StepReturn one_asleep 0 0); [done|].
  unfold enter. by rewrite assert_true.
Qed.

Example barrier_synchronises_witness :
  run (H := debug_build) 2 one_released
  /\ 1%nat ∉ cond_ (bar one_released)
  /\ exists s', rtc (step (H := debug_build)) one_released s'
       /\ forall i t, threads s' !! i = Some t -> (3 <= passed t)%nat.
Proof.
  split; [apply one_released_run|].
  destruct (barrier_synchronises (H := debug_build) 2 one_released ltac:(lia) ltac:(reflexivity) one_released_run)
    as (_ & Hw & _ & _ & Hgo).
  split; [|exact (Hgo 3%nat)]. by apply (Hw 1%nat 0 0%nat).
Defined.

(** The start of a runner: thread 0 is [ptrace_run], thread 1 its worker,
    one round. As long as the worker has not arrived, for example because the
    child crashed and it returned early, [ptrace_run] does not get past the
    barrier. And [ptrace_run] can return, which destroys the barrier on its
    stack, while the worker is still inside [wait] and will touch it again. *)
Theorem ptrace_run_start `{Build} (s : system) :
  (run 2 s -> threads s !! 1%nat = Some (Outside 0) ->
     exists t, threads s !! 0%nat = Some t /\ passed t = 0%nat
       /\ forall e, t = Waiting e 0 -> blocked e (bar s) = true)
  /\ exists s' e, run 2 s' /\ threads s' = [Outside 1; Waiting e 0] /\ blocked e (bar s') = false.
Proof.
  assert (Hs : Z.of_nat 2 < 2 ^ 64) by done. split.
  - intros Hr H1. destruct (run_inv 2 ltac:(lia) Hs s Hr) as (E & Hi).
    pose proof (fits_arrived _ _ (ri_fits _ _ _ Hi _ _ H1)) as [HE _]. cbn in HE.
    destruct (lookup_lt_is_Some_2 (threads s) 0) as [t Ht]; [rewrite (ri_length _ _ _ Hi); lia|].
    pose proof (fits_arrived _ _ (ri_fits _ _ _ Hi _ _ Ht)) as [_ Hp].
    exists t. split; [done|]. split; [lia|]. intros e ->. apply not_false_is_true.
    intros Hb. apply (proj1 (waiting_released 2 ltac:(lia) s E 0 e 0 Hi Ht)) with (j := 1%nat) (t := Outside 0) in Hb;
      [cbn in Hb; lia|done].
  - exists one_released, 0. split; [apply one_released_run|done].
Qed.

Example ptrace_run_start_witness :
  exists t, threads (initial 2) !! 0%nat = Some t /\ passed t = 0%nat
    /\ forall e, t = Waiting e 0 -> blocked e (bar (initial 2)) = true.
Proof.
  refine (proj1 (ptrace_run_start (H := debug_build) (initial 2)) _ _).
  - apply RunInit.
  - reflexivity.
Defined.
