(* ===== verification/Worker.v ===== *)
(** * The worker loop: [handle_trapped], [replace_syscall_with_result] and
    [ptrace_worker] of src/sim/runner/ptrace.cpp

    The traced process and the kernel's side of ptrace(2) are a state machine:
    the process stops on entry to and on exit from every system call, on
    signals, and ends.  [W] is everything else: the process's memory, the
    kernel and the simulator.  What the process does between calls ([user])
    and what the kernel does in one ([exec]) are the class [Process]; the
    refinement theorem holds for every process and every kernel. *)

From S2P Require Import Prelude Words Child HookTable.

(** ** The traced side *)

(** [user_regs_struct]: the registers the runner looks at, and the rest. *)
Record user_regs := { rax : Z; orig_rax : Z; arg_regs : list Z; other_regs : list Z }.

(** How a process ends, and the state the runner sees then. *)
Inductive ending := ByExit (status : Z) | BySignal (sig : Z).
Definition end_state (e : ending) : run_state :=
  match e with ByExit status => exited status | BySignal sig => terminated sig end.

(** What the process does next when it runs. *)
Inductive user_event (W : Type) :=
| DoSyscall (nr : Z) (args rest : list Z) (w : W)
| GetSignal (sig : Z) (w : W)                     (* a signal is pending *)
| Die (st : ending) (w : W).                   (* killed *)
Arguments DoSyscall {W} nr args rest w.
Arguments GetSignal {W} sig w.
Arguments Die {W} st w.

Inductive kernel_event (W : Type) :=
| KReturn (v : Z) (w : W)
| KDie (st : ending) (w : W).                  (* exit, exit_group *)
Arguments KReturn {W} v w.
Arguments KDie {W} st w.

Class Process (W : Type) := {
  user : user_regs -> W -> user_event W;
  exec : Z -> list Z -> W -> kernel_event W;
  tid : Z;
  (** gettid returns and has no effect *)
  exec_gettid : forall args w, exec SYS_gettid args w = KReturn tid w;
}.

Inductive phase := Entry | Exit | InSignal (sig : Z) | Dead (st : ending).

Record tracee (W : Type) := { regs : user_regs; at_ : phase; world_ : W }.
Arguments regs {W} _.
Arguments at_ {W} _.
Arguments world_ {W} _.
Arguments Build_tracee {W} _ _ _.

Section Worker.
Context {W : Type} `{Process W}.
Implicit Types t : tracee W.

(** Run user code up to the next stop. *)
Definition run_user (r : user_regs) (w : W) : tracee W :=
  match user r w with
  | DoSyscall nr args rest w =>
      Build_tracee {| rax := - 38; orig_rax := nr; arg_regs := args; other_regs := rest |} Entry w
  | GetSignal sig w => Build_tracee r (InSignal sig) w
  | Die st w => Build_tracee r (Dead st) w
  end.

(** PTRACE_SYSCALL with signal 0 followed by waitpid: continue to the next
    stop. A signal the process stopped for is discarded. *)
Definition syscall_and_wait t : tracee W :=
  match at_ t with
  | Entry =>
      match exec (orig_rax (regs t)) (arg_regs (regs t)) (world_ t) with
      | KReturn v w =>
          Build_tracee {| rax := v; orig_rax := orig_rax (regs t); arg_regs := arg_regs (regs t);
                          other_regs := other_regs (regs t) |} Exit w
      | KDie st w => Build_tracee (regs t) (Dead st) w
      end
  | Exit | InSignal _ => run_user (regs t) (world_ t)
  | Dead _ => t
  end.

(** [child.state()] at a stop: with PTRACE_O_TRACESYSGOOD syscall stops have
    bit 7 of the signal set. *)
Definition SIGTRAP := 5.
Definition state_of t : run_state :=
  match at_ t with
  | Entry | Exit => stopped (Z.lor 0x80 SIGTRAP)
  | InSignal sig => stopped sig
  | Dead st => end_state st
  end.

Definition set_regs (r : user_regs) t : tracee W := Build_tracee r (at_ t) (world_ t).
Definition set_world (w : W) t : tracee W := Build_tracee (regs t) (at_ t) w.

(** ** The runner *)

(** [get_hook] and the call of what it finds; [None]: it found no hook. *)
Variable call : Z -> list Z -> W -> outcome (option hook_result * W).

Definition with_rax (v o : Z) (r : user_regs) : user_regs :=
  {| rax := v; orig_rax := o; arg_regs := arg_regs r; other_regs := other_regs r |}.

Definition replace_syscall_with_result (result : Z) t : tracee W :=
  let r := with_rax SYS_gettid SYS_gettid (regs t) in
  let t := set_regs r t in
  let t := syscall_and_wait t in
  set_regs (with_rax result result r) t.

(** [info.op] is ENTRY at an entry stop only. *)
Definition handle_trapped t : outcome (tracee W) :=
  match at_ t with
  | Entry =>
      '(result, w) ← call (orig_rax (regs t)) (arg_regs (regs t)) (world_ t);
      let t := set_world w t in
      match result with
      | None => Ret t
      | Some (Handled v) => Ret (replace_syscall_with_result v t)
      | Some Passthrough => Ret t
      end
  | _ => Ret t
  end.

(** The [for (;;)] of [ptrace_worker]: the final state of the child. *)
Fixpoint worker (fuel : nat) t : outcome (run_state * W) :=
  match fuel with
  | O => OutOfFuel
  | S fuel =>
      let t := syscall_and_wait t in
      match state_of t with
      | running => worker fuel t
      | stopped sig =>
          t ← (if sig =? Z.lor 0x80 SIGTRAP then handle_trapped t else Ret t);
          worker fuel t
      | terminated sig => Ret (terminated sig, world_ t)
      | exited st => Ret (exited st, world_ t)
      end
  end.

(** ** Specification: interposition

    The process runs; each of its calls is answered by the hook if the hook
    handles it, and by the kernel otherwise; signals have no effect. *)

Inductive answer := Answer (v o : Z) (w : W) | Ends (st : ending) (w : W).

Definition kernel_answer (nr : Z) (args : list Z) (w : W) : answer :=
  match exec nr args w with KReturn v w => Answer v nr w | KDie st w => Ends st w end.

Definition interpose_call (nr : Z) (args : list Z) (w : W) : outcome answer :=
  '(result, w) ← call nr args w;
  match result with
  | Some (Handled v) => Ret (Answer v v w)
  | Some Passthrough | None => Ret (kernel_answer nr args w)
  end.

Fixpoint interpose (fuel : nat) (r : user_regs) (w : W) : outcome (run_state * W) :=
  match fuel with
  | O => OutOfFuel
  | S fuel =>
      match user r w with
      | GetSignal _ w => interpose fuel r w
      | Die st w => Ret (end_state st, w)
      | DoSyscall nr args rest w =>
          a ← interpose_call nr args w;
          match a with
          | Answer v o w =>
              interpose fuel {| rax := v; orig_rax := o; arg_regs := args; other_regs := rest |} w
          | Ends st w => Ret (end_state st, w)
          end
      end
  end.

End Worker.

(** ** Lemmas *)

Section Facts.
Context {W : Type} `{Process W}.
Variable call : Z -> list Z -> W -> outcome (option hook_result * W).
Implicit Types (t : tracee W) (o : outcome (run_state * W)).

(** User code is what runs next. *)
Definition resumable (p : phase) : bool := match p with Exit | InSignal _ => true | _ => false end.

Lemma worker_resume fuel r p w : resumable p = true ->
  worker call fuel (Build_tracee r p w) = worker call fuel (Build_tracee r Exit w).
Proof. destruct fuel; [done|]. by destruct p. Qed.

Lemma bind_mono {A B} (o : outcome A) (f g : A -> outcome B) x :
  (forall a, f a = x -> x <> OutOfFuel -> g a = x) -> o ≫= f = x -> x <> OutOfFuel -> o ≫= g = x.
Proof. intros Hfg. destruct o; cbn; auto. Qed.

Lemma worker_mono n m t o : worker call n t = o -> o <> OutOfFuel -> (n <= m)%nat -> worker call m t = o.
Proof.
  revert m t. induction n as [|n IH]; intros m t Hw Ho Hm; [by cbn in Hw|].
  destruct m as [|m]; [lia|]. cbn [worker] in *. destruct (state_of _); try done.
  - apply IH; try done; lia.
  - eapply bind_mono; [|exact Hw|done]. intros a Ha _. apply IH; try done; lia.
Qed.

Lemma interpose_mono n m r w o :
  interpose call n r w = o -> o <> OutOfFuel -> (n <= m)%nat -> interpose call m r w = o.
Proof.
  revert m r w. induction n as [|n IH]; intros m r w Hw Ho Hm; [by cbn in Hw|].
  destruct m as [|m]; [lia|]. cbn [interpose] in *. destruct (user r w); try done.
  - eapply bind_mono; [|exact Hw|done]. intros [v o' w'|st w'] Ha _; [apply IH; try done; lia|done].
  - apply IH; try done; lia.
Qed.

(** One stop at a call that goes to the kernel. *)
Lemma worker_kernel fuel r w :
  worker call (S fuel) (Build_tracee r Entry w)
  = match kernel_answer (orig_rax r) (arg_regs r) w with
    | Answer v o w' => worker call fuel (Build_tracee (with_rax v o r) Exit w')
    | Ends st w' => Ret (end_state st, w')
    end.
Proof.
  cbn [worker]. unfold kernel_answer, syscall_and_wait. cbn [at_ regs world_].
  destruct (exec (orig_rax r) (arg_regs r) w) as [v w'|st w']; [done|]. by destruct st.
Qed.

Lemma replace_spec v r w :
  replace_syscall_with_result v (Build_tracee r Entry w) = Build_tracee (with_rax v v r) Exit w.
Proof.
  unfold replace_syscall_with_result, syscall_and_wait. cbn [at_ set_regs regs world_ with_rax orig_rax arg_regs].
  rewrite exec_gettid. done.
Qed.

(** A pass of the loop from a stop after which user code runs. *)
Lemma worker_step fuel r w :
  worker call (S fuel) (Build_tracee r Exit w)
  = match user r w with
    | GetSignal _ w => worker call fuel (Build_tracee r Exit w)
    | Die st w => Ret (end_state st, w)
    | DoSyscall nr args rest w =>
        let r := {| rax := - 38; orig_rax := nr; arg_regs := args; other_regs := rest |} in
        '(result, w) ← call nr args w;
        match result with
        | Some (Handled v) => worker call fuel (Build_tracee (with_rax v v r) Exit w)
        | Some Passthrough | None => worker call fuel (Build_tracee r Entry w)
        end
    end.
Proof.
  cbn [worker]. unfold syscall_and_wait. cbn [at_ regs world_]. unfold run_user.
  destruct (user r w) as [nr args rest w'|sig w'|st w']; cbn [state_of at_].
  - change (Z.lor 128 SIGTRAP =? Z.lor 128 SIGTRAP) with true. cbn iota.
    unfold handle_trapped. cbn [at_ regs world_ orig_rax arg_regs].
    destruct (call nr args w') as [[[[|v]|] w2]| | | |]; try done.
    cbn [mbind outcome_bind]. unfold set_world. cbn [regs at_]. by rewrite replace_spec.
  - assert (Hsig : forall b : bool, (if b then handle_trapped call (Build_tracee r (InSignal sig) w')
        else Ret (Build_tracee r (InSignal sig) w')) = Ret (Build_tracee r (InSignal sig) w'))
      by (by intros []).
    rewrite Hsig. cbn [mbind outcome_bind]. by apply worker_resume.
  - by destruct st.
Qed.

Lemma worker_of_interpose fuel r w o :
  interpose call fuel r w = o -> o <> OutOfFuel -> worker call (2 * fuel) (Build_tracee r Exit w) = o.
Proof.
  revert r w. induction fuel as [|fuel IH]; intros r w Hi Ho; [by cbn in Hi|].
  replace (2 * S fuel)%nat with (S (S (2 * fuel))) by lia. rewrite worker_step. cbn [interpose] in Hi.
  destruct (user r w) as [nr args rest w'|sig w'|st w']; [|by eapply worker_mono; [by apply IH| |lia]|done].
  unfold interpose_call in Hi. destruct (call nr args w') as [[[[|v]|] w2]| | | |]; try done;
    cbn [mbind outcome_bind] in *.
  2: eapply worker_mono; [apply IH; [exact Hi|done]|done|lia].
  all: rewrite worker_kernel; cbn [orig_rax arg_regs];
    destruct (kernel_answer nr args w2) as [v o' w3|st w3]; [by apply IH|done].
Qed.

Lemma interpose_of_worker n r w o :
  worker call n (Build_tracee r Exit w) = o -> o <> OutOfFuel -> interpose call n r w = o.
Proof.
  revert r w. induction n as [n IH] using lt_wf_ind. intros r w Hw Ho.
  destruct n as [|n]; [by cbn in Hw|]. rewrite worker_step in Hw. cbn [interpose].
  destruct (user r w) as [nr args rest w'|sig w'|st w']; [|by apply (IH n); [lia|..]|done].
  assert (Hk : forall w2, worker call n
      (Build_tracee {| rax := -38; orig_rax := nr; arg_regs := args; other_regs := rest |} Entry w2) = o ->
    match kernel_answer nr args w2 with
    | Answer v o' w3 => interpose call n {| rax := v; orig_rax := o'; arg_regs := args; other_regs := rest |} w3
    | Ends st w3 => Ret (end_state st, w3)
    end = o).
  { intros w2 Hw2. destruct n as [|n]; [by cbn in Hw2|]. rewrite worker_kernel in Hw2.
    cbn [orig_rax arg_regs] in Hw2. destruct (kernel_answer nr args w2) as [v o' w3|st w3]; [|done].
    eapply interpose_mono; [apply (IH n); [lia|exact Hw2|done]|done|lia]. }
  unfold interpose_call. destruct (call nr args w') as [[[[|v]|] w2]| | | |]; try done;
    cbn [mbind outcome_bind] in *.
  2: by apply (IH n); [lia|..].
  all: pose proof (Hk w2 Hw) as Hk2; by destruct (kernel_answer nr args w2).
Qed.

End Facts.

(** * Properties *)

(** C5: the worker loop implements interposition. From the stop after
    execve, whatever the process and the kernel do: a run of the loop ends
    with a result (or an abort or exception out of a hook) exactly when the
    interposed run of the process does, with the same child status, memory
    and simulator state; a run of [n] events needs at most [2 n] passes. In
    particular a handled call is executed once by its hook and never by the
    kernel, all registers but the result are the process's own, and signals
    sent to the process are discarded. *)
Theorem worker_refines_interposition {W} `{Process W}
    (call : Z -> list Z -> W -> outcome (option hook_result * W)) (n : nat) (r : user_regs) (w : W)
    (o : outcome (run_state * W)) :
  o <> OutOfFuel ->
  (interpose call n r w = o -> worker call (2 * n) (Build_tracee r Exit w) = o)
  /\ (worker call n (Build_tracee r Exit w) = o -> interpose call n r w = o).
Proof. intros Ho. split; intros Hr; [by apply worker_of_interpose|by apply interpose_of_worker]. Qed.

(** A process that calls number 0, then exits with the result; SIGTERM is
    pending in between. [W] counts the calls the kernel saw. *)
Definition demo_user (r : user_regs) (w : nat * nat) : user_event (nat * nat) :=
  match w with
  | (k, 0%nat) => DoSyscall 0 [] [] (k, 1%nat)
  | (k, 1%nat) => GetSignal 15 (k, 2%nat)
  | (k, S (S _)) => DoSyscall 60 [rax r] [] (k, 3%nat)
  end.
Definition demo_exec (nr : Z) (args : list Z) (w : nat * nat) : kernel_event (nat * nat) :=
  if nr =? SYS_gettid then KReturn 77 w
  else if nr =? 60 then KDie (ByExit (nth 0 args 0)) w
  else KReturn 0 (S w.1, w.2).
#[export] Program Instance demo_process : Process (nat * nat) := {|
  user := demo_user; exec := demo_exec; tid := 77;
|}.
Next Obligation. done. Qed.

Definition demo_call (nr : Z) (args : list Z) (w : nat * nat) : outcome (option hook_result * (nat * nat)) :=
  Ret (if nr =? 0 then Some (handled 42) else None, w).

Example worker_refines_interposition_witness :
  worker demo_call 8 (Build_tracee {| rax := 0; orig_rax := 59; arg_regs := []; other_regs := [] |} Exit (0, 0)%nat)
  = Ret (exited 42, (0, 3)%nat).
Proof.
  refine (proj1 (worker_refines_interposition demo_call 4 _ _ (Ret (exited 42, (0, 3)%nat)) _) _).
  - discriminate.
  - vm_compute. reflexivity.
Defined.
