(* ===== verification/Dispatch.v ===== *)
(** * The whole runner: the worker loop over the hook table and the hooks

    [get_hook] and the call of the hook it finds ([handle_trapped] of
    src/sim/runner/ptrace.cpp, lines 143-149) joined to the worker loop of
    Worker.v.  The traced program and the kernel are the class [Program]: they
    see each other and the program's memory, never the simulator.  What the
    other workers do to the shared simulator, and the inputs of a call, come
    from a list of passes. *)

From Stdlib Require Import Strings.Byte SpecFloat.
From S2P Require Import Prelude Words Float Random Faults Socket Network FdTable Pipe Stream.
From S2P Require Import Syscalls HookTable Runner Tracee Addr World Hooks HookSpec HookProps Child Worker.

(** [K] is the kernel's state as far as the program can tell. *)
Class Program (K M : Type) := {
  prog_user : user_regs -> K -> M -> user_event (K * M);
  prog_exec : Z -> list Z -> K -> M -> kernel_event (K * M);
  prog_tid : Z;
  prog_gettid : forall args k m, prog_exec SYS_gettid args k m = KReturn prog_tid (k, m);
  (** call numbers are 64-bit *)
  prog_nr : forall r k m nr args rest x, prog_user r k m = DoSyscall nr args rest x -> is_u64 nr;
}.

Section Dispatch.
Context {Q K M : Type} `{PriorityQueue Q} `{RunnerHandle M} `{Bernoulli Xoshiro.xoshiro256_star_star} `{Build}.
Context `{Program K M}.
Variables (mx : Z) (alloc : Z -> bool).

(** Before a pass other workers have changed the simulator; then the call
    looks at it with these inputs. *)
Record pass := { p_others : simulator Q -> simulator Q; p_env : env }.

Record session := {
  kernel_ : K; s_sim : simulator Q; s_rep : replica M; s_stats : stats; passes : list pass;
}.

Definition set_kernel (k : K) (m : M) (w : session) : session :=
  {| kernel_ := k; s_sim := s_sim w; s_rep := set_mem m (s_rep w); s_stats := s_stats w; passes := passes w |}.
Definition set_stats (st : stats) (w : session) : session :=
  {| kernel_ := kernel_ w; s_sim := s_sim w; s_rep := s_rep w; s_stats := st; passes := passes w |}.
Definition set_sides (s : simulator Q) (rep : replica M) (ps : list pass) (w : session) : session :=
  {| kernel_ := kernel_ w; s_sim := s; s_rep := rep; s_stats := s_stats w; passes := ps |}.

(** The program and the kernel, embedded. *)
Definition lift_user (e : user_event (K * M)) (w : session) : user_event session :=
  match e with
  | DoSyscall nr args rest (k, m) => DoSyscall nr args rest (set_kernel k m w)
  | GetSignal sig (k, m) => GetSignal sig (set_kernel k m w)
  | Die st (k, m) => Die st (set_kernel k m w)
  end.
Definition lift_kernel (e : kernel_event (K * M)) (w : session) : kernel_event session :=
  match e with
  | KReturn v (k, m) => KReturn v (set_kernel k m w)
  | KDie st (k, m) => KDie st (set_kernel k m w)
  end.

Lemma set_kernel_id w : set_kernel (kernel_ w) (mem_ (s_rep w)) w = w.
Proof. by destruct w as [k s [t m ep] st ps]. Qed.

#[export] Program Instance session_process : Process session := {|
  user r w := lift_user (prog_user r (kernel_ w) (mem_ (s_rep w))) w;
  exec nr args w := lift_kernel (prog_exec nr args (kernel_ w) (mem_ (s_rep w))) w;
  tid := prog_tid;
|}.
Next Obligation. intros args w. cbn. rewrite prog_gettid. cbn. by rewrite set_kernel_id. Qed.

(** The call of a hook: where [recvfrom] would block it looks again in the
    next pass.  (A blocking call has found an open socket, so looking the
    number up again changes nothing.) *)
Fixpoint run_hook (h : hook) (args : list Z) (ps : list pass) (w : session)
  : outcome (hook_result * session) :=
  match ps with
  | [] => OutOfFuel
  | p :: ps =>
      let sim := p_others p (s_sim w) in
      x ← call_hook mx alloc (p_env p) h args sim (s_rep w);
      match x with
      | Got (r, sim, rep) => Ret (r, set_sides sim rep ps w)
      | Wait | WaitUntil _ => run_hook h args ps (set_sides sim (s_rep w) ps w)
      end
  end.

Variable table : list (option hook).

Definition dispatch (nr : Z) (args : list Z) (w : session) : outcome (option hook_result * session) :=
  let '(h, st) := get_hook table nr (s_stats w) in
  let w := set_stats st w in
  match h with
  | None => Ret (None, w)
  | Some h => '(r, w) ← run_hook h args (passes w) w; Ret (Some r, w)
  end.

(** ** Routing *)

(** The calls that are to be answered by the simulator. *)
Definition simulated_call (nr : Z) (args : list Z) : bool :=
  match registered nr with
  | Some h => negb (bool_decide (h = explicit_passthrough))
              && (negb (takes_fd h) || FdTable.is_simulated (i32 (arg args 0)))
  | None => false
  end.

(** A property of kernel, simulator and replica that each kind of step keeps:
    the program running, the kernel executing a call that is not to be
    simulated, a hook handling one that is, and the other workers. *)
Record routed (ps : list pass) (I : K -> simulator Q -> replica M -> Prop) : Prop := {
  r_user : forall r k s rep, I k s rep ->
    match prog_user r k (mem_ rep) with
    | DoSyscall _ _ _ (k, m) | GetSignal _ (k, m) | Die _ (k, m) => I k s (set_mem m rep)
    end;
  r_kernel : forall nr args k s rep, simulated_call nr args = false -> I k s rep ->
    match prog_exec nr args k (mem_ rep) with
    | KReturn _ (k, m) | KDie _ (k, m) => I k s (set_mem m rep)
    end;
  r_hook : forall nr h args p k s rep v s' rep', p ∈ ps ->
    simulated_call nr args = true -> registered nr = Some h -> I k s rep ->
    call_hook mx alloc (p_env p) h args s rep = Ret (Got (Handled v, s', rep')) -> I k s' rep';
  r_others : forall p k s rep, p ∈ ps -> I k s rep -> I k (p_others p s) rep;
}.

End Dispatch.
Arguments session Q K M : clear implicits.
Arguments pass Q : clear implicits.

(** ** Lemmas *)

Section Facts.
Context {Q K M : Type} `{PriorityQueue Q} `{RunnerHandle M} `{Bernoulli Xoshiro.xoshiro256_star_star} `{Build}.
Context `{Program K M}.
Variables (mx : Z) (alloc : Z -> bool).
Implicit Types (w : session Q K M) (ps : list (pass Q)).

Lemma simulated_spec nr args h : registered nr = Some h ->
  simulated_call nr args = true <->
  (takes_fd h = true -> FdTable.is_simulated (i32 (arg args 0)) = true) /\ h <> explicit_passthrough.
Proof.
  intros Hr. unfold simulated_call. rewrite Hr, andb_true_iff, negb_true_iff, bool_decide_eq_false, orb_true_iff, negb_true_iff.
  destruct (takes_fd h), (FdTable.is_simulated _); cbn; intuition congruence.
Qed.

(** A real call leaves everything to the kernel. *)
Lemma run_hook_real nr args h p ps w : registered nr = Some h -> simulated_call nr args = false ->
  run_hook mx alloc h args (p :: ps) w
  = Ret (Passthrough, set_sides (p_others p (s_sim w)) (s_rep w) ps w).
Proof.
  intros Hr Hs. cbn [run_hook].
  assert (Hp : call_hook mx alloc (p_env p) h args (p_others p (s_sim w)) (s_rep w)
    = Ret (Got (passthrough, p_others p (s_sim w), s_rep w))).
  { destruct (decide (h = explicit_passthrough)) as [->|Hne]; [done|].
    apply real_fd_passes; unfold simulated_call in Hs; rewrite Hr, bool_decide_eq_false_2 in Hs by done;
      cbn in Hs; by destruct (takes_fd h), (FdTable.is_simulated _). }
  by rewrite Hp.
Qed.

(** A simulated one is handled, and the kernel has no part in it. *)
Lemma run_hook_simulated (I : K -> simulator Q -> replica M -> Prop) all nr args h ps w r w' :
  routed mx alloc all I -> (forall p, p ∈ ps -> p ∈ all) ->
  registered nr = Some h -> simulated_call nr args = true ->
  I (kernel_ w) (s_sim w) (s_rep w) -> run_hook mx alloc h args ps w = Ret (r, w') ->
  (exists v, r = Handled v) /\ kernel_ w' = kernel_ w /\ I (kernel_ w') (s_sim w') (s_rep w')
  /\ forall p, p ∈ passes w' -> p ∈ ps.
Proof.
  intros HI Hps Hr Hs. revert w Hps. induction ps as [|p ps IH]; intros w Hps Hi; cbn [run_hook]; [done|].
  intros Hrun. apply bind_Ret_inv in Hrun as (x & Hc & Hx).
  assert (Hi' : I (kernel_ w) (p_others p (s_sim w)) (s_rep w))
    by (apply (r_others _ _ _ _ HI); [apply Hps, list_elem_of_here|done]).
  assert (Hsub : forall q, q ∈ ps -> q ∈ all) by (intros q Hq; by apply Hps, list_elem_of_further).
  destruct x as [|t|[[y sim] rep]].
  1, 2: destruct (IH (set_sides (p_others p (s_sim w)) (s_rep w) ps w) Hsub Hi' Hx) as (? & ? & ? & Hp);
    split_and!; try done; intros q Hq; by apply list_elem_of_further, Hp.
  injection Hx as <- <-. pose proof (proj1 (simulated_spec nr args h Hr) Hs) as [Hf Hne].
  destruct y as [|v]; [by apply simulated_fd_stays in Hc|].
  split; [by exists v|]. split; [done|]. split; [|intros q Hq; by apply list_elem_of_further].
  by eapply (r_hook _ _ _ _ HI); [apply Hps, list_elem_of_here|..].
Qed.

Variables (table : list (option hook)).
Hypothesis Htable : forall sys, is_u64 sys -> table_get table sys = registered sys.

(** What one call of the program leads to. *)
Lemma interpose_call_routed (I : K -> simulator Q -> replica M -> Prop) all nr args w a :
  routed mx alloc all I -> (forall p, p ∈ passes w -> p ∈ all) -> is_u64 nr ->
  I (kernel_ w) (s_sim w) (s_rep w) -> interpose_call (dispatch mx alloc table) nr args w = Ret a ->
  match a with
  | Answer _ _ w' | Ends _ w' =>
      I (kernel_ w') (s_sim w') (s_rep w') /\ forall p, p ∈ passes w' -> p ∈ all
  end.
Proof.
  intros HI Hps Hnr Hi. unfold interpose_call, dispatch, get_hook. rewrite Htable by done.
  assert (Hk : simulated_call nr args = false -> forall w1, I (kernel_ w1) (s_sim w1) (s_rep w1) ->
    (forall p, p ∈ passes w1 -> p ∈ all) ->
    match kernel_answer nr args w1 with
    | Answer _ _ w' | Ends _ w' => I (kernel_ w') (s_sim w') (s_rep w') /\ forall p, p ∈ passes w' -> p ∈ all
    end).
  { intros Hs w1 Hi1 Hp1. pose proof (r_kernel _ _ _ _ HI nr args _ _ _ Hs Hi1) as Hkern.
    unfold kernel_answer. cbn [exec session_process].
    destruct (prog_exec nr args (kernel_ w1) (mem_ (s_rep w1))) as [v [k m]|st [k m]]; by split. }
  destruct (registered nr) as [h|] eqn:Hr; cbn [mbind outcome_bind].
  2: { intros [= <-]. apply Hk; [|done..]. unfold simulated_call. by rewrite Hr. }
  set (w1 := set_stats _ w). change (passes w1) with (passes w).
  intros Hc. apply bind_Ret_inv in Hc as ([res w2] & Hrun & Hres).
  apply bind_Ret_inv in Hrun as ([r w3] & Hrun & [= <- <-]).
  destruct (simulated_call nr args) eqn:Hs.
  - destruct (run_hook_simulated I all nr args h (passes w) w1 r w3 HI Hps Hr Hs Hi Hrun)
      as ((v & ->) & _ & Hi3 & Hp3). injection Hres as <-. split; [done|]. intros p Hp. by apply Hps, Hp3.
  - destruct (passes w) as [|p ps]; [done|]. rewrite (run_hook_real nr) in Hrun by done.
    injection Hrun as <- <-. injection Hres as <-. apply Hk; [done| |].
    + apply (r_others _ _ _ _ HI); [apply Hps, list_elem_of_here|done].
    + intros q Hq. by apply Hps, list_elem_of_further.
Qed.

Lemma interpose_routed (I : K -> simulator Q -> replica M -> Prop) all n r w st w' :
  routed mx alloc all I -> (forall p, p ∈ passes w -> p ∈ all) -> I (kernel_ w) (s_sim w) (s_rep w) ->
  interpose (dispatch mx alloc table) n r w = Ret (st, w') -> I (kernel_ w') (s_sim w') (s_rep w').
Proof.
  intros HI. revert r w. induction n as [|n IH]; intros r w Hps Hi Hrun; cbn [interpose] in Hrun; [done|].
  pose proof (r_user _ _ _ _ HI r _ _ _ Hi) as Hu. cbn [user session_process] in Hrun.
  destruct (prog_user r (kernel_ w) (mem_ (s_rep w))) as [nr args rest [k m]|sig [k m]|d [k m]] eqn:Ep;
    cbn [lift_user] in Hrun.
  - apply bind_Ret_inv in Hrun as (a & Hc & Ha).
    pose proof (interpose_call_routed I all nr args (set_kernel k m w) a HI Hps (prog_nr _ _ _ _ _ _ _ Ep) Hu Hc) as Hx.
    destruct a as [v o w1|d w1]; [by eapply IH; [apply Hx..|exact Ha]|]. injection Ha as <- <-. apply Hx.
  - by eapply (IH r (set_kernel k m w)).
  - by injection Hrun as <- <-.
Qed.

End Facts.

(** * Properties *)

(** C4: system calls are answered by the right side. Take any property of
    kernel, simulator and replica that is kept by the program's own steps, by
    the kernel executing calls that are not to be simulated, by the hooks
    handling calls that are, and by the other workers. However long the worker
    of a replica runs over the real table, and whatever program and kernel it
    serves, the property still holds when the program has ended: the run has
    no other steps. For instance the kernel never sees a call on a simulated
    descriptor, and no call that is passed through changes the simulator. *)
Theorem runner_routes_calls {Q K M} `{PriorityQueue Q} `{RunnerHandle M}
    `{Bernoulli Xoshiro.xoshiro256_star_star} `{Build} `{Program K M} (mx : Z) (alloc : Z -> bool)
    (allocate : Z -> bool) (garbage : Z) (table : list (option hook))
    (I : K -> simulator Q -> replica M -> Prop) (n : nat) (r : user_regs) (w w' : session Q K M) (st : run_state) :
  is_u64 garbage -> build_hook_table allocate garbage = Ret table -> routed mx alloc (passes w) I ->
  I (kernel_ w) (s_sim w) (s_rep w) ->
  worker (dispatch mx alloc table) n (Build_tracee r Exit w) = Ret (st, w') ->
  I (kernel_ w') (s_sim w') (s_rep w').
Proof.
  intros Hg Hb HI Hi Hw. apply interpose_of_worker in Hw; [|done].
  eapply interpose_routed; [|exact HI|done|done|exact Hw].
  intros sys Hs. by apply (table_registered allocate garbage).
Qed.

(** ** A program: it opens a socket, writes to it and to its own stdout, and
    exits. The kernel keeps a list of the calls it executes. *)

Import PacketList.

Definition log : Type := nat * list (Z * list Z).

Definition log_user (r : user_regs) (k : log) (m : gmap Z byte) : user_event (log * gmap Z byte) :=
  let k' := (S k.1, k.2) in
  match k.1 with
  | 0%nat => DoSyscall SYS_socket [1; 2; 0; 0; 0; 0] [] (k', m)
  | 1%nat => DoSyscall SYS_write [rax r; 4096; 3; 0; 0; 0] [] (k', m)
  | 2%nat => DoSyscall SYS_write [1; 4096; 3; 0; 0; 0] [] (k', m)
  | _ => DoSyscall SYS_exit_group [0; 0; 0; 0; 0; 0] [] (k', m)
  end.
Definition log_exec (nr : Z) (args : list Z) (k : log) (m : gmap Z byte) : kernel_event (log * gmap Z byte) :=
  if nr =? SYS_gettid then KReturn 77 (k, m)
  else if nr =? SYS_exit_group then KDie (ByExit 0) ((k.1, k.2 ++ [(nr, args)]), m)
  else KReturn (nth 2 args 0) ((k.1, k.2 ++ [(nr, args)]), m).
#[export] Program Instance log_program : Program log (gmap Z byte) := {|
  prog_user := log_user; prog_exec := log_exec; prog_tid := 77;
|}.
Next Obligation. done. Qed.
Next Obligation.
  intros r [[|[|[|n]]] l] m nr args rest x; cbn; intros [= <- <- <- <-]; split; (done || reflexivity).
Qed.

Definition plain_pass : pass queue :=
  {| p_others s := s; p_env := {| held_ _ := false; fuel_ := 0; now_ := 0; garbage_ := [] |} |}.
Definition log_session : session queue log (gmap Z byte) :=
  {| kernel_ := (0%nat, []); s_sim := make_simulator (default_sim_options 0);
     s_rep := make_replica some_memory 0; s_stats := no_stats; passes := replicate 8 plain_pass |}.
Definition log_table : list (option hook) :=
  match build_hook_table (fun _ => true) 0 with Ret t => t | _ => [] end.

(** Only calls that are not to be simulated are in the list. *)
Definition clean (k : log) (s : simulator queue) (rep : replica (gmap Z byte)) : Prop :=
  Forall (fun x => simulated_call x.1 x.2 = false) k.2.

Lemma clean_routed `{Build} ps : Forall (fun p => p = plain_pass) ps ->
  routed no_udp_limit (fun _ => true) ps clean.
Proof.
  intros Hps. split; unfold clean.
  - intros r [[|[|[|n]]] l] s rep Hk; exact Hk.
  - intros nr args [n l] s rep Hs Hk. cbn [prog_exec log_program]. unfold log_exec.
    assert (Hn : Forall (fun x => simulated_call x.1 x.2 = false) (l ++ [(nr, args)]))
      by (apply Forall_app_2; [exact Hk|by apply Forall_singleton]).
    destruct (nr =? SYS_gettid); [exact Hk|]. by destruct (nr =? SYS_exit_group).
  - done.
  - done.
Qed.

Definition log_start : tracee (session queue log (gmap Z byte)) :=
  let b := debug_build in
  Build_tracee {| rax := 0; orig_rax := 59; arg_regs := []; other_regs := [] |} Exit log_session.
Definition log_end : session queue log (gmap Z byte) :=
  let b := debug_build in
  match worker (dispatch no_udp_limit (fun _ => true) log_table) 16 log_start with
  | Ret (_, w) => w
  | _ => log_session
  end.

Example runner_routes_calls_witness :
  let b := debug_build in
  worker (dispatch no_udp_limit (fun _ => true) log_table) 16 log_start = Ret (exited 0, log_end)
  /\ (kernel_ log_end).2 = [(1, [1; 4096; 3; 0; 0; 0]); (231, [0; 0; 0; 0; 0; 0])]
  /\ clean (kernel_ log_end) (s_sim log_end) (s_rep log_end).
Proof.
  intros b.
  assert (Hw : worker (dispatch no_udp_limit (fun _ => true) log_table) 16 log_start = Ret (exited 0, log_end))
    by (vm_compute; reflexivity).
  split; [exact Hw|]. split; [vm_compute; reflexivity|].
  refine (runner_routes_calls no_udp_limit (fun _ => true) (fun _ => true) 0 log_table clean 16 _ log_session
    log_end (exited 0) _ _ _ _ Hw).
  - by split.
  - vm_compute. reflexivity.
  - apply clean_routed. by apply Forall_replicate.
  - by apply Forall_nil.
Defined.
