(* ===== verification/Startup.v ===== *)
(** * Starting a child: [spawn], [wait_until_execve] and [remove_vdso] of
    src/sim/runner/ptrace.cpp

    Both sides of the fork.  What fork, waitpid and execvp report is an
    argument; the child's memory is read with PEEKDATA (Tracee.v). *)

From Stdlib Require Import Strings.Byte.
From S2P Require Import Prelude Words Runner Tracee Child.

Section Startup.
Context `{Build}.

(** [spawn] in the parent: [fork_rc] is fork's result, the rest waitpid's. *)
Definition spawn (args : list string) (path : string) (fork_rc fork_errno rc status errno : Z)
  : outcome child :=
  match args with
  | [] => Throw out_of_range
  | arg0 :: _ =>
      if bool_decide (arg0 <> path) then Throw invalid_argument
      else if fork_rc <? 0 then Throw (system_error fork_errno)
      else '(_, c) ← wait rc status errno {| pid_ := fork_rc; state_ := Some running |}; Ret c
  end.

(** What the child asks of the kernel, in order. *)
Inductive child_call := Traceme (pid : Z) | Raise (signal : Z) | Execvp (file : string) (argv : list string).

Definition SIGSTOP := 19.

(** [spawn] in the child, behind the same check: fork has answered 0.
    [exec_errno] is [None] when execvp succeeds and the program takes over; what
    ptrace and raise answer is not looked at.  The array [env] that is built before the fork is
    not handed to anything, so execvp passes on the environment of the
    simulator. *)
Definition spawn_child (args : list string) (path : string) (env : list string) (exec_errno : option Z)
  : list child_call * outcome unit :=
  match args with
  | [] => ([], Throw out_of_range)
  | arg0 :: _ =>
      if bool_decide (arg0 <> path) then ([], Throw invalid_argument)
      else ([Traceme 0; Raise SIGSTOP; Execvp path args],
            match exec_errno with None => Ret tt | Some e => Throw (system_error e) end)
  end.

Definition SIGTRAP := 5.
Definition PTRACE_EVENT_EXEC := 4.

(** [sys::ptrace::syscall]: the assertion on the child, then ptrace, which
    fails on pid -1. *)
Definition ptrace_syscall (c : child) : outcome unit :=
  _ ← assert_ (valid c);
  if valid c then Ret tt else Throw (system_error ESRCH).

(** [statuses] are the successive results of waitpid. *)
Fixpoint wait_until_execve (statuses : list Z) (c : child) : outcome child :=
  match statuses with
  | [] => OutOfFuel
  | status :: statuses =>
      _ ← ptrace_syscall c;
      '(status, c) ← wait 0 status 0 c;
      if Z.shiftr status 8 =? Z.lor SIGTRAP (Z.shiftl PTRACE_EVENT_EXEC 8) then Ret c
      else wait_until_execve statuses c
  end.

Definition AT_NULL := 0.
Definition AT_IGNORE := 1.
Definition AT_SYSINFO_EHDR := 33.

Section Vdso.
Context {M : Type} `{Ptrace M}.
(** What errno holds after a PEEKDATA. *)
Variable errno : Z.

(** [child::ptrace(PTRACE_PEEKDATA, pos)]: a negative long is an error. *)
Definition peek (pos : Z) (m : M) : outcome Z :=
  let v := peekdata m pos in
  if i64 v <? 0 then Throw (system_error errno) else Ret v.

(** The [for (int i = 0; i < 2;)] loop: past the ends of argv and envp. *)
Fixpoint skip_vectors (fuel : nat) (i pos : Z) (m : M) : outcome Z :=
  match fuel with
  | O => OutOfFuel
  | S fuel =>
      if i <? 2 then
        let pos := u64 (pos + 8) in
        v ← peek pos m;
        skip_vectors fuel (if v =? AT_NULL then i + 1 else i) pos m
      else Ret pos
  end.

(** The [for (;;)] loop. *)
Fixpoint patch_auxv (fuel : nat) (pos : Z) (m : M) : outcome M :=
  match fuel with
  | O => OutOfFuel
  | S fuel =>
      let pos := u64 (pos + 8) in
      v ← peek pos m;
      if v =? AT_NULL then Ret m
      else if v =? AT_SYSINFO_EHDR then Ret (pokedata m pos AT_IGNORE)
      else patch_auxv fuel pos m
  end.

Definition remove_vdso (fuel : nat) (rsp : Z) (m : M) : outcome M :=
  pos ← skip_vectors fuel 0 rsp m;
  patch_auxv fuel pos m.

(** ** Lemmas *)

(** The 8-byte words of the stack from [pos] on. *)
Definition words_at (m : M) (pos : Z) (ws : list Z) : Prop :=
  forall i w, ws !! i = Some w -> peekdata m (pos + 8 * Z.of_nat i) = w.

Lemma words_cons m pos w ws : words_at m pos (w :: ws) -> peekdata m pos = w /\ words_at m (pos + 8) ws.
Proof.
  intros Hw. split.
  - specialize (Hw 0%nat w eq_refl). by rewrite Z.mul_0_r, Z.add_0_r in Hw.
  - intros i x Hi. rewrite <- (Hw (S i) x Hi). f_equal. lia.
Qed.

Lemma words_after m pos w ws rest : words_at m (pos + 8) (ws ++ w :: rest) ->
  words_at m (pos + 8 * (Z.of_nat (length ws) + 1) + 8) rest.
Proof.
  intros Hws j x Hj. rewrite <- (Hws (length ws + S j)%nat x); [f_equal; lia|].
  rewrite lookup_app_r by lia. by replace (length ws + S j - length ws)%nat with (S j) by lia.
Qed.

(** Words below 2^63 that are neither key. *)
Definition plain (w : Z) : Prop := 0 < w < 2 ^ 63 /\ w <> AT_SYSINFO_EHDR.

Lemma peek_ok pos m v : peekdata m pos = v -> 0 <= v < 2 ^ 63 -> peek pos m = Ret v.
Proof.
  intros Hv Hr. unfold peek. rewrite Hv. rewrite i64_id by lia.
  by rewrite (proj2 (Z.ltb_ge _ _)) by lia.
Qed.

(** The scan stops behind the first zero word. *)
Lemma skip_run fuel i pos m ws rest :
  words_at m (pos + 8) (ws ++ 0 :: rest) -> Forall (fun w => 0 < w < 2 ^ 63) ws -> 0 <= i < 2 ->
  0 <= pos -> pos + 8 * (Z.of_nat (length ws) + 2) < 2 ^ 64 ->
  skip_vectors (length ws + S fuel) i pos m
  = skip_vectors fuel (i + 1) (pos + 8 * (Z.of_nat (length ws) + 1)) m.
Proof.
  revert pos. induction ws as [|w ws IH]; intros pos Hw Hp Hi Hpos Hl; cbn [length Nat.add app skip_vectors];
    rewrite (proj2 (Z.ltb_lt i 2)), u64_id by (cbn [length] in Hl; lia);
    apply words_cons in Hw as [Hv Hw].
  - rewrite (peek_ok _ _ 0) by (done || lia). cbn [mbind outcome_bind].
    change (0 =? AT_NULL) with true. cbn iota. done.
  - apply Forall_cons in Hp as [Hw0 Hp]. rewrite (peek_ok _ _ w) by (done || lia). cbn [mbind outcome_bind].
    rewrite (proj2 (Z.eqb_neq w AT_NULL)) by (unfold AT_NULL; lia).
    cbn [length] in Hl. rewrite (IH (pos + 8)); try done; try lia. f_equal. lia.
Qed.

(** Up to the first word that is zero or the key. *)
Lemma patch_run fuel pos m ws w rest :
  words_at m (pos + 8) (ws ++ w :: rest) -> Forall plain ws -> w = AT_NULL \/ w = AT_SYSINFO_EHDR ->
  0 <= pos -> pos + 8 * (Z.of_nat (length ws) + 2) < 2 ^ 64 ->
  patch_auxv (length ws + S fuel) pos m
  = Ret (if bool_decide (w = AT_NULL) then m
         else pokedata m (pos + 8 * (Z.of_nat (length ws) + 1)) AT_IGNORE).
Proof.
  revert pos. induction ws as [|x ws IH]; intros pos Hw Hp Hc Hpos Hl; cbn [length Nat.add app patch_auxv];
    rewrite u64_id by (cbn [length] in Hl; lia); apply words_cons in Hw as [Hv Hw].
  - rewrite (peek_ok _ _ w) by (done || (unfold AT_NULL, AT_SYSINFO_EHDR in Hc; lia)).
    cbn [mbind outcome_bind]. destruct Hc as [-> | ->]; [done|].
    change (AT_SYSINFO_EHDR =? AT_NULL) with false. change (AT_SYSINFO_EHDR =? AT_SYSINFO_EHDR) with true.
    cbn iota. rewrite bool_decide_eq_false_2 by done. do 2 f_equal.
  - apply Forall_cons in Hp as [[Hx Hne] Hp]. rewrite (peek_ok _ _ x) by (done || lia).
    cbn [mbind outcome_bind]. rewrite (proj2 (Z.eqb_neq x AT_NULL)) by (unfold AT_NULL; lia).
    rewrite (proj2 (Z.eqb_neq x AT_SYSINFO_EHDR)) by done. cbn [length] in Hl.
    rewrite (IH (pos + 8)); try done; try lia.
    replace (pos + 8 + 8 * (Z.of_nat (length ws) + 1)) with (pos + 8 * (Z.of_nat (S (length ws)) + 1)) by lia.
    done.
Qed.

End Vdso.
End Startup.

(** The status test picks out the exec event. *)
Lemma not_exec e : possible e ->
  match e with Stopped sig event => ~ (sig = SIGTRAP /\ event = PTRACE_EVENT_EXEC) | _ => True end ->
  (Z.shiftr (encode e) 8 =? Z.lor SIGTRAP (Z.shiftl PTRACE_EVENT_EXEC 8)) = false.
Proof.
  intros He Hn. apply Z.eqb_neq. rewrite Z.shiftr_div_pow2 by lia.
  change (Z.lor SIGTRAP (Z.shiftl PTRACE_EVENT_EXEC 8)) with 1029. change (2 ^ 8) with 256.
  unfold SIGTRAP, PTRACE_EVENT_EXEC in Hn.
  destruct e as [code|sig core|sig ev|]; cbn [encode possible] in *.
  - change (2 ^ 8) with 256. rewrite Z.div_mul by lia. lia.
  - destruct core; Z.to_euclidean_division_equations; lia.
  - change (2 ^ 16) with 65536. change (2 ^ 8) with 256 in *. intros E. apply Hn.
    Z.to_euclidean_division_equations; lia.
  - done.
Qed.

(** One pass on a live child. *)
Lemma execve_step `{Build} e after c : valid c = true -> possible e ->
  wait_until_execve (encode e :: after) c
  = let c := {| pid_ := match e with Exited _ | Signaled _ _ => -1 | _ => pid_ c end;
                state_ := Some (decoded e) |} in
    if Z.shiftr (encode e) 8 =? Z.lor SIGTRAP (Z.shiftl PTRACE_EVENT_EXEC 8) then Ret c
    else wait_until_execve after c.
Proof.
  intros Hv He. cbn [wait_until_execve]. unfold ptrace_syscall. rewrite Hv, assert_true by done.
  cbn [mbind outcome_bind]. by rewrite wait_encode.
Qed.

(** * Properties *)

(** C21: [remove_vdso] on the initial stack of a program: argc, the argument
    and environment pointers (non-zero user addresses) each closed by a null
    word, then the auxiliary vector. With enough passes it returns. The first
    word of the vector that is zero or AT_SYSINFO_EHDR decides: if it is
    AT_SYSINFO_EHDR that word becomes AT_IGNORE and no other byte changes, if
    it is zero nothing changes. Values are tested like keys, so the entry is
    only found when no value before it is 0 or 33. *)
Theorem remove_vdso_patches {M} `{PtraceOk M} (errno argc rsp w : Z) (argv envp aux rest : list Z)
    (fuel : nat) (m : M) :
  let stack := argc :: argv ++ 0 :: envp ++ 0 :: aux ++ w :: rest in
  let key := rsp + 8 * (Z.of_nat (length argv) + Z.of_nat (length envp) + Z.of_nat (length aux) + 3) in
  words_at m rsp stack ->
  Forall (fun p => 0 < p < 2 ^ 63) (argv ++ envp) -> Forall plain aux -> w = AT_NULL \/ w = AT_SYSINFO_EHDR ->
  0 <= rsp -> key + 8 < 2 ^ 64 -> mapped m key 8 -> (length stack < fuel)%nat ->
  exists m', remove_vdso errno fuel rsp m = Ret m'
    /\ (w = AT_NULL -> m' = m)
    /\ (w = AT_SYSINFO_EHDR -> forall x,
          byte_at m' x = if bool_decide (key <= x < key + 8)
                         then le_bytes 8 AT_IGNORE !! Z.to_nat (x - key) else byte_at m x).
Proof.
  intros stack key Hw [Hargv Henv]%Forall_app Haux Hc Hp Hl Hm Hf.
  apply words_cons in Hw as [_ Hw]. unfold remove_vdso.
  unfold stack in Hf. cbn [length] in Hf. rewrite !length_app in Hf. cbn [length] in Hf.
  rewrite !length_app in Hf. cbn [length] in Hf. rewrite length_app in Hf. cbn [length] in Hf.
  set (p1 := rsp + 8 * (Z.of_nat (length argv) + 1)). set (p2 := p1 + 8 * (Z.of_nat (length envp) + 1)).
  assert (Hw1 : words_at m (p1 + 8) (envp ++ 0 :: aux ++ w :: rest)) by (by eapply words_after).
  assert (Hw2 : words_at m (p2 + 8) (aux ++ w :: rest)) by (by eapply words_after).
  assert (Hskip : skip_vectors errno fuel 0 rsp m = Ret p2).
  { set (f := (fuel - length argv - length envp - 3)%nat).
    replace fuel with (length argv + S (length envp + S (S f)))%nat by lia.
    rewrite (skip_run errno _ 0 rsp m argv _ Hw Hargv) by lia. fold p1.
    rewrite (skip_run errno _ (0 + 1) p1 m envp _ Hw1 Henv) by lia. done. }
  rewrite Hskip. cbn [mbind outcome_bind].
  replace fuel with (length aux + S (fuel - length aux - 1))%nat by lia.
  rewrite (patch_run errno _ p2 m aux w rest Hw2 Haux Hc) by lia.
  replace (p2 + 8 * (Z.of_nat (length aux) + 1)) with key by (unfold p2, p1, key; lia).
  eexists. split; [reflexivity|]. split.
  - intros ->. by rewrite bool_decide_eq_true_2.
  - intros -> x. rewrite bool_decide_eq_false_2 by done. apply poke_mapped; [unfold key; lia|lia|exact Hm].
Qed.

(** [argc = 1], one argument, no environment, the vdso entry and the end. *)
Definition demo_stack : gmap Z byte :=
  (write_memory 8192 (concat (le_bytes 8 <$> [1; 0x7000; 0; 0; 33; 0x9000; 0])) (zeros 8192 64)).2.

Lemma demo_stack_words : words_at demo_stack 8192 [1; 0x7000; 0; 0; 33; 0x9000; 0].
Proof.
  intros i w Hi. do 7 (destruct i as [|i]; [injection Hi as <-; vm_compute; reflexivity|]). done.
Qed.

Example remove_vdso_patches_witness :
  exists m', remove_vdso 5 10 8192 demo_stack = Ret m' /\ m' !! 8224 = Some Byte.x01.
Proof.
  destruct (remove_vdso_patches 5 1 8192 33 [0x7000] [] [] [0x9000; 0] 10 demo_stack) as (m' & Hm & _ & Hb).
  - exact demo_stack_words.
  - by repeat constructor.
  - constructor.
  - by right.
  - lia.
  - reflexivity.
  - intros x Hx. change (8224 <= x < 8232) in Hx.
    assert (Hd : forallb (fun x => bool_decide (is_Some (demo_stack !! x))) (seqZ 8224 8) = true)
      by (vm_compute; reflexivity).
    assert (Hin : In x (seqZ 8224 8)) by (apply list_elem_of_In, elem_of_seqZ; lia).
    exact (bool_decide_eq_true_1 _ (proj1 (forallb_forall _ _) Hd x Hin)).
  - cbn. lia.
  - exists m'. split; [exact Hm|]. exact (Hb eq_refl 8224).
Defined.

(** [wait_until_execve] goes on through every stop and returns at the
    first exec event, with the child stopped by SIGTRAP. A child that ends
    before it gets there does not make it return: the next
    pass fails the assertion on the child, or throws ESRCH when assertions are
    compiled out. *)
Theorem execve_detected `{Build} (before : list wait_event) (after : list Z) (c : child) (e : wait_event) :
  valid c = true ->
  Forall (fun e => possible e /\ match e with
                                | Stopped sig event => ~ (sig = SIGTRAP /\ event = PTRACE_EVENT_EXEC)
                                | Continued => True
                                | _ => False
                                end) before ->
  wait_until_execve ((encode <$> before) ++ encode (Stopped SIGTRAP PTRACE_EVENT_EXEC) :: after) c
    = Ret {| pid_ := pid_ c; state_ := Some (stopped SIGTRAP) |}
  /\ (possible e -> match e with Exited _ | Signaled _ _ => True | _ => False end -> after <> [] ->
      wait_until_execve ((encode <$> before) ++ encode e :: after) c
      = if NDEBUG then Throw (system_error ESRCH) else Abort_).
Proof.
  intros Hv Hb. revert c Hv. induction Hb as [|x before [Hx Hne] _ IH]; intros c Hv; cbn [fmap list_fmap app].
  - split; [by rewrite execve_step|].
    intros He Hend Ha. rewrite execve_step by done. cbn zeta.
    rewrite (not_exec e) by (done || by destruct e).
    destruct after as [|y after]; [done|]. cbn [wait_until_execve]. unfold ptrace_syscall, valid.
    destruct e; try done; cbn [pid_]; change (0 <=? -1) with false; unfold assert_; by destruct NDEBUG.
  - rewrite !execve_step by (done || by destruct x). cbn zeta.
    rewrite (not_exec x) by (done || by destruct x). destruct x; try done;
      exact (IH {| pid_ := pid_ c; state_ := _ |} Hv).
Qed.

Example execve_detected_witness :
  wait_until_execve (H := debug_build)
    (encode <$> [Stopped 5 0; Stopped 17 0] ++ [Stopped SIGTRAP PTRACE_EVENT_EXEC]) {| pid_ := 9; state_ := None |}
  = Ret {| pid_ := 9; state_ := Some (stopped SIGTRAP) |}.
Proof.
  refine (proj1 (execve_detected (H := debug_build) [Stopped 5 0; Stopped 17 0] [] {| pid_ := 9; state_ := None |}
    Continued _ _)).
  - reflexivity.
  - repeat constructor; cbn; try lia; intros [? ?]; discriminate.
Defined.
