(* ===== verification/Main.v ===== *)
(** * Configuration and the main program: src/main.cpp

    The TOML file is read by a library: the class [Toml] is the part of its
    interface the code uses.  [main] starts one machine per configured replica
    and then waits or kills; its effects are a list of actions. *)

From Stdlib Require Import SpecFloat.
From S2P Require Import Prelude Words Float Random Faults Pipe Runner World Hooks Child Startup.

(** ** The library *)

Class Toml (N : Type) := {
  parse_file : string -> outcome N;
  key : N -> string -> option N;          (* [node[k]]; None for a missing key *)
  as_table : N -> bool;
  as_array : N -> option (list N);
  as_string : N -> option string;
  value_int : N -> option Z;              (* [value<int>], None when it does not fit *)
  value_uint64 : N -> option Z;
  value_double : N -> option double;
  value_bool : N -> option bool;
}.

Class TomlOk (N : Type) `{Toml N} := {
  value_int_range : forall n v, value_int n = Some v -> - 2 ^ 31 <= v < 2 ^ 31;
  value_uint64_range : forall n v, value_uint64 n = Some v -> is_u64 v;
}.

(** [filled]: what getrandom has stored, [None] when it failed; its result is not
    looked at and [buf] is not initialised. *)
Definition random_seed (filled : option Z) (buf : Z) : Z := default buf filled.

(** ** The configuration *)

Record config_replica := {
  path : string; args : list string; env : gmap string string; prime : bool;
}.

Record parsed_config := { options_of : options; replicas : list config_replica }.

Section Config.
Context {N : Type} `{Toml N}.

(** [config[k1][k2].value_or(d)] *)
Definition view (n : option N) (k : string) : option N := n ≫= fun n => key n k.
Definition value_or {A} (value : N -> option A) (d : A) (n : option N) : A := default d (n ≫= value).

(** The [for] loop of [parse_replicas]. A missing path is reported and then
    dereferenced. *)
Fixpoint parse_elems (arr : list N) (result : list config_replica) : outcome (list config_replica) :=
  match arr with
  | [] => Ret result
  | elem :: arr =>
      if negb (as_table elem) then Ret []
      else
        match key elem "path" ≫= as_string with
        | None => Undefined
        | Some p =>
            let replica := {| path := p; args := [p]; env := ∅;
                              prime := value_or value_bool false (key elem "prime") |} in
            parse_elems arr (result ++ [replica])
        end
  end.

Definition parse_replicas (arr : option (list N)) : outcome (list config_replica) :=
  match arr with None => Ret [] | Some arr => parse_elems arr [] end.

(** [entropy] is what [random_seed] answers; it is asked even when the file has
    a seed. *)
Definition parse_config (entropy : Z) (path : string) : outcome parsed_config :=
  config ← parse_file path;
  let net k := view (view (Some config) "net") k in
  let min_latency_ns := value_or value_int 0 (net "min_latency_ns") in
  let max_latency_ns := value_or value_int 0 (net "max_latency_ns") in
  let replay_chance := value_or value_double d0 (net "replay_chance") in
  let drop_chance := value_or value_double d0 (net "drop_chance") in
  replicas ← parse_replicas (view (Some config) "replica" ≫= as_array);
  Ret {| options_of :=
           {| net_faults := {| min_latency := min_latency_ns; max_latency := max_latency_ns;
                               p_drop := drop_chance; p_replay := replay_chance |};
              time_scale := value_or value_double d1 (view (view (Some config) "time") "scale");
              seed_ := value_or value_uint64 entropy (view (Some config) "seed") |};
         replicas := replicas |}.

End Config.

(** ** The main program *)

Definition SIGTERM := 15.

Inductive action :=
| Start (m : nat)               (* [machine::start] *)
| SleepMs (n : Z)
| WaitFor (m : nat)             (* [runner().wait()] *)
| Kill (m : nat) (signal : Z).  (* [runner().kill()] *)

(** [prime] after the loop over the replicas: the machine of the last one that
    is flagged. *)
Fixpoint find_prime (i : nat) (rs : list config_replica) (p : option nat) : option nat :=
  match rs with
  | [] => p
  | r :: rs => find_prime (S i) rs (if prime r then Some i else p)
  end.

(** [kill] is what [child.terminate] does for each machine; the loop ends at
    the first exception. *)
Fixpoint kill_others (kill : nat -> outcome unit) (p : nat) (ms : list nat) : list action * outcome Z :=
  match ms with
  | [] => ([], Ret 0)
  | m :: ms =>
      if bool_decide (m = p) then kill_others kill p ms
      else
        match kill m with
        | Ret _ => let '(acts, res) := kill_others kill p ms in (Kill m SIGTERM :: acts, res)
        | o => ([], _ ← o; Ret 0)
        end
  end.

Definition main_loop (kill : nat -> outcome unit) (rs : list config_replica) : list action * outcome Z :=
  let ms := seq 0 (length rs) in
  let started := ms ≫= (fun m => [Start m; SleepMs 100]) in
  match find_prime 0 rs None with
  | None => (started ++ (WaitFor <$> ms), Ret 0)
  | Some p => let '(acts, res) := kill_others kill p ms in (started ++ WaitFor p :: acts, res)
  end.

(** [argv] without the program's name. *)
Definition main {N} `{Toml N} (filled : option Z) (buf : Z) (kill : nat -> outcome unit) (argv : list string)
  : list action * outcome Z :=
  match argv with
  | [] => ([], Ret 0)
  | file :: _ =>
      match parse_config (random_seed filled buf) file with
      | Ret config => main_loop kill (replicas config)
      | o => ([], _ ← o; Ret 0)
      end
  end.

(** ** Lemmas *)

Section ConfigFacts.
Context {N : Type} `{TomlOk N}.

(** An array element the loop can use, and what it makes of it. *)
Definition usable (e : N) : Prop := as_table e = true /\ is_Some (key e "path" ≫= as_string).
Definition replica_of (e : N) : config_replica :=
  let p := default "" (key e "path" ≫= as_string) in
  {| path := p; args := [p]; env := ∅; prime := value_or value_bool false (key e "prime") |}.

Lemma parse_elems_usable arr rest result : Forall usable arr ->
  parse_elems (arr ++ rest) result = parse_elems rest (result ++ (replica_of <$> arr)).
Proof.
  intros Ha. revert result. induction Ha as [|e arr [Ht [p Hp]] _ IH]; intros result.
  - by rewrite app_nil_r.
  - cbn [app parse_elems fmap list_fmap]. rewrite Ht, Hp. cbn [negb]. rewrite IH, <- app_assoc.
    unfold replica_of at 2. by rewrite Hp.
Qed.

Lemma parse_elems_args arr result rs :
  Forall (fun r => args r = [path r]) result -> parse_elems arr result = Ret rs ->
  Forall (fun r => args r = [path r]) rs.
Proof.
  revert result. induction arr as [|e arr IH]; intros result Hr; cbn [parse_elems]; [by intros [= <-]|].
  destruct (as_table e); cbn [negb]; [|intros [= <-]; by apply Forall_nil].
  destruct (key e "path" ≫= as_string); [|done]. apply IH. apply Forall_app_2; [done|by apply Forall_singleton].
Qed.

Lemma value_or_int_range n : - 2 ^ 31 <= value_or value_int 0 n < 2 ^ 31.
Proof.
  unfold value_or. destruct (n ≫= value_int) as [v|] eqn:E; cbn; [|lia].
  destruct n as [n|]; [|done]. by apply (value_int_range n).
Qed.

Lemma value_or_uint64_range d n : is_u64 d -> is_u64 (value_or value_uint64 d n).
Proof.
  intros Hd. unfold value_or. destruct (n ≫= value_uint64) as [v|] eqn:E; cbn; [|done].
  destruct n as [n|]; [|done]. by apply (value_uint64_range n).
Qed.

End ConfigFacts.

Lemma spawn_configured r rc errno wrc status werrno : args r = [path r] ->
  spawn (args r) (path r) rc errno wrc status werrno
  = if rc <? 0 then Throw (system_error errno)
    else '(_, c) ← wait wrc status werrno {| pid_ := rc; state_ := Some running |}; Ret c.
Proof. intros Ha. unfold spawn. rewrite Ha. by rewrite bool_decide_eq_false_2 by auto. Qed.

Lemma find_prime_spec i rs p :
  match find_prime i rs p with
  | None => p = None /\ Forall (fun r => prime r = false) rs
  | Some q => (p = Some q /\ Forall (fun r => prime r = false) rs)
      \/ exists k r, q = (i + k)%nat /\ rs !! k = Some r /\ prime r = true
         /\ forall j r', (k < j)%nat -> rs !! j = Some r' -> prime r' = false
  end.
Proof.
  revert i p. induction rs as [|r rs IH]; intros i p; cbn [find_prime].
  { destruct p as [q|]; [left|]; by split. }
  specialize (IH (S i) (if prime r then Some i else p)). destruct (find_prime _ rs _) as [q|].
  - destruct IH as [[Hp Hf]|(k & r' & -> & Hk & Hr & Hl)].
    + destruct (prime r) eqn:Er.
      * right. exists 0%nat, r. injection Hp as ->. split; [lia|]. split; [done|]. split; [done|].
        intros [|j] r' Hj Hr; [lia|]. by eapply Forall_lookup in Hf.
      * left. split; [done|by constructor].
    + right. exists (S k), r'. split; [lia|]. split; [done|]. split; [done|].
      intros [|j] r2 Hj; [lia|]. apply Hl. lia.
  - destruct IH as [Hp Hf]. destruct (prime r) eqn:Er; [done|]. split; [done|by constructor].
Qed.

Definition kills (p : nat) (ms : list nat) : list action :=
  (fun m => Kill m SIGTERM) <$> filter (fun m => m <> p) ms.

(** The kill loop up to the first failure. *)
Lemma kill_others_ok kill p ms : (forall m, m ∈ ms -> m <> p -> kill m = Ret tt) ->
  forall rest, kill_others kill p (ms ++ rest)
  = (kills p ms ++ (kill_others kill p rest).1, (kill_others kill p rest).2).
Proof.
  intros Hk rest. unfold kills. induction ms as [|m ms IH]; cbn [app kill_others].
  { by destruct (kill_others kill p rest). }
  rewrite filter_cons. rewrite IH by (intros x Hx; by apply Hk, list_elem_of_further).
  destruct (decide (m = p)) as [->|Hne].
  - rewrite bool_decide_eq_true_2, decide_False by auto. done.
  - rewrite bool_decide_eq_false_2, decide_True by done.
    by rewrite (Hk m) by (done || apply list_elem_of_here).
Qed.

(** * Properties *)

(** C23: what a configuration file can do to the simulation. The latencies that
    come out of the file are 32-bit numbers, so unless they are negative or
    inverted no draw and no arrival time overflows; a seed is 64 bits wide. An
    array of usable elements gives one replica each, in order; an element that
    is not a table discards the whole list, and a table without a path string
    is undefined. Every replica is started with its own path as the only
    argument, whatever the file says, so [spawn] never rejects it. *)
Theorem configuration_is_runnable {N} `{TomlOk N} (entropy : Z) (file : string) (cfg : parsed_config)
    (arr rest : list N) (e : N) (now : Z) :
  is_u64 entropy -> parse_config entropy file = Ret cfg -> Forall usable arr ->
  let f := net_faults (options_of cfg) in
  (0 <= min_latency f <= max_latency f -> 0 <= now < 2 ^ 62 -> sane f now)
  /\ is_u64 (seed_ (options_of cfg))
  /\ (forall r rc errno wrc status werrno, r ∈ replicas cfg ->
       spawn (args r) (path r) rc errno wrc status werrno
       = if rc <? 0 then Throw (system_error errno)
         else '(_, c) ← wait wrc status werrno {| pid_ := rc; state_ := Some running |}; Ret c)
  /\ parse_replicas (Some arr) = Ret (replica_of <$> arr)
  /\ (as_table e = false -> parse_replicas (Some (arr ++ e :: rest)) = Ret [])
  /\ (as_table e = true -> key e "path" ≫= as_string = None ->
      parse_replicas (Some (arr ++ e :: rest)) = Undefined).
Proof.
  intros He Hp Ha f. unfold parse_config in Hp. apply bind_Ret_inv in Hp as (c & _ & Hp).
  apply bind_Ret_inv in Hp as (rs & Hrs & [= <-]). cbn [net_faults options_of seed_ replicas] in *.
  split; [|split; [|split; [|split; [|split]]]].
  - intros Hl Hn. subst f. cbn [min_latency max_latency] in *.
    pose proof (value_or_int_range (view (key c "net") "max_latency_ns")).
    unfold sane. cbn [min_latency max_latency]. lia.
  - by apply value_or_uint64_range.
  - intros r rc errno wrc status werrno Hr. apply spawn_configured. unfold parse_replicas in Hrs.
    destruct (view (Some c) "replica" ≫= as_array) as [l|]; [|injection Hrs as <-; by apply not_elem_of_nil in Hr].
    assert (Hall : Forall (fun r => args r = [path r]) rs)
      by (eapply parse_elems_args; [by apply Forall_nil|exact Hrs]).
    by eapply Forall_forall in Hall.
  - unfold parse_replicas. rewrite <- (app_nil_r arr) at 1. by rewrite parse_elems_usable.
  - intros Ht. unfold parse_replicas. rewrite parse_elems_usable by done. cbn. by rewrite Ht.
  - intros Ht Hn. unfold parse_replicas. rewrite parse_elems_usable by done. cbn. by rewrite Ht, Hn.
Qed.

(** C22: the main program. All machines are started, in the order of the
    file, before anything is waited for. Without a prime replica every machine
    is waited for. Otherwise the prime one, the last that is flagged, is waited
    for, and then every other machine is sent SIGTERM; if one of them cannot be
    killed, in particular if its program has already ended, the exception
    leaves [main] and the machines behind it are not killed. *)
Theorem main_accounts_for_machines (rs : list config_replica) (child_of : nat -> child) (rc errno : nat -> Z) :
  let n := length rs in
  let kill m := terminate (rc m) (errno m) (child_of m) in
  let started := seq 0 n ≫= (fun m => [Start m; SleepMs 100]) in
  let killable m := valid (child_of m) = true /\ 0 <= rc m in
  match find_prime 0 rs None with
  | None => Forall (fun r => prime r = false) rs
      /\ main_loop kill rs = (started ++ (WaitFor <$> seq 0 n), Ret 0)
  | Some p =>
      (exists r, rs !! p = Some r /\ prime r = true
        /\ forall j r', (p < j)%nat -> rs !! j = Some r' -> prime r' = false)
      /\ ((forall m, (m < n)%nat -> m <> p -> killable m) ->
          main_loop kill rs = (started ++ WaitFor p :: kills p (seq 0 n), Ret 0))
      /\ (forall m, (m < n)%nat -> m <> p -> (forall j, (j < m)%nat -> j <> p -> killable j) ->
          valid (child_of m) = false ->
          main_loop kill rs = (started ++ WaitFor p :: kills p (seq 0 m), Throw invalid_argument))
  end.
Proof.
  intros n kill started killable. pose proof (find_prime_spec 0 rs None) as Hp. unfold main_loop.
  fold n started. destruct (find_prime 0 rs None) as [p|]; [|by split; [apply Hp|]].
  destruct Hp as [[[=] _]|(k & r & -> & Hr)]. cbn [Nat.add].
  assert (Hkill : forall m, killable m -> kill m = Ret tt).
  { intros m [Hv Hrc]. unfold kill, terminate. rewrite Hv. cbn [negb]. by rewrite (proj2 (Z.ltb_ge _ _)). }
  split; [by exists r|]. split.
  - intros Hall.
    assert (Hseq : kill_others kill k (seq 0 n) = kill_others kill k (seq 0 n ++ [])) by by rewrite app_nil_r.
    rewrite Hseq.
    rewrite kill_others_ok; [by cbn; rewrite app_nil_r|].
    intros m Hm Hne. apply Hkill, Hall; [apply elem_of_seq in Hm; lia|done].
  - intros m Hm Hne Hbefore Hv.
    assert (seq 0 n = seq 0 m ++ m :: seq (S m) (n - S m)) as ->.
    { replace n with (m + S (n - S m))%nat at 1 by lia. by rewrite seq_app. }
    rewrite kill_others_ok.
    + assert (Hm' : kill m = Throw invalid_argument) by (unfold kill, terminate; by rewrite Hv).
      cbn [kill_others]. rewrite bool_decide_eq_false_2, Hm' by done. cbn. by rewrite app_nil_r.
    + intros j Hj Hjp. apply Hkill, Hbefore; [apply elem_of_seq in Hj; lia|done].
Qed.

(** ** A small TOML *)

Inductive toml := TString (s : string) | TInt (z : Z) | TBool (b : bool)
| TTable (kvs : list (string * toml)) | TArray (ts : list toml).

Definition within (lo hi : Z) (n : toml) : option Z :=
  match n with TInt z => if (lo <=? z) && (z <? hi) then Some z else None | _ => None end.

#[export] Instance toml_nodes : Toml toml := {|
  parse_file _ := Ret (TTable
    [("net", TTable [("min_latency_ns", TInt 1000); ("max_latency_ns", TInt 3000000000)]);
     ("seed", TInt (-1));
     ("replica", TArray [TTable [("path", TString "./echo"); ("prime", TBool true)];
                         TTable [("path", TString "./squawk")]])]);
  key n k := match n with TTable kvs => snd <$> find (fun kv => bool_decide (kv.1 = k)) kvs | _ => None end;
  as_table n := match n with TTable _ => true | _ => false end;
  as_array n := match n with TArray ts => Some ts | _ => None end;
  as_string n := match n with TString s => Some s | _ => None end;
  value_int := within (- 2 ^ 31) (2 ^ 31);
  value_uint64 := within 0 (2 ^ 64);
  value_double n := None;
  value_bool n := match n with TBool b => Some b | _ => None end;
|}.

Lemma within_range lo hi n v : within lo hi n = Some v -> lo <= v < hi.
Proof. destruct n; cbn; try done. destruct (Z.leb_spec lo z), (Z.ltb_spec z hi); cbn; intros [=]; lia. Qed.

#[export] Instance toml_nodes_ok : TomlOk toml.
Proof. split; intros n v Hv; by apply within_range in Hv. Qed.

Definition demo_config : parsed_config :=
  match parse_config 42 "sim.toml" with Ret c => c | _ => {| options_of := default_sim_options 0; replicas := [] |} end.
Definition demo_elem : toml := TTable [("path", TString "./echo")].

(** The maximal latency of three seconds does not fit and is read as 0, the
    negative seed is replaced. *)
Example demo_config_values :
  max_latency (net_faults (options_of demo_config)) = 0 /\ seed_ (options_of demo_config) = 42
  /\ (fst (main (Some 42) 0 (fun _ => Ret tt) ["sim.toml"])) = [Start 0; SleepMs 100; Start 1; SleepMs 100; WaitFor 0; Kill 1 15].
Proof. vm_compute. by repeat split. Qed.

Example configuration_is_runnable_witness :
  parse_replicas (Some [demo_elem]) = Ret [replica_of demo_elem].
Proof.
  refine (proj1 (proj2 (proj2 (proj2 (configuration_is_runnable 42 "sim.toml" demo_config [demo_elem] [] demo_elem 0 _ _ _))))).
  - by split.
  - vm_compute. reflexivity.
  - apply Forall_singleton. split; [reflexivity|by exists "./echo"].
Defined.

(** Two replicas, the first one prime; the program of the second has ended. *)
Example main_accounts_for_machines_witness :
  let two := [replica_of (TTable [("path", TString "a"); ("prime", TBool true)]); replica_of (TTable [("path", TString "b")])] in
  main_loop (fun m => terminate 0 0 (if (m =? 0)%nat then {| pid_ := 7; state_ := None |} else no_child)) two
  = ([Start 0; SleepMs 100; Start 1; SleepMs 100; WaitFor 0], Throw invalid_argument).
Proof.
  refine (proj2 (proj2 (main_accounts_for_machines
    [replica_of (TTable [("path", TString "a"); ("prime", TBool true)]); replica_of (TTable [("path", TString "b")])]
    (fun m => if (m =? 0)%nat then {| pid_ := 7; state_ := None |} else no_child) (fun _ => 0) (fun _ => 0))) 1%nat _ _ _ _).
  - cbn. lia.
  - discriminate.
  - intros j Hj Hne. lia.
  - reflexivity.
Defined.
