(* ===== verification/SysFile.v ===== *)
(** * The file wrapper: src/sys/file.hpp, src/sys/file.cpp

    The kernel answers each read or write call from a script of responses:
    so many bytes moved, or an error.  The loops that repeat calls are run on
    such scripts.  A file's contents are a function from offsets to bytes. *)

From Stdlib Require Import Strings.Byte.
From S2P Require Import Prelude Words.

(** [sys::file]: a descriptor or -1. *)
Record file := { fd_ : Z }.

Definition no_file : file := {| fd_ := -1 |}.
Definition valid (f : file) : bool := 0 <=? fd_ f.
Definition get (f : file) : Z := fd_ f.
Definition release (f : file) : Z * file := (fd_ f, no_file).
(** The descriptors [reset] (and the destructor) closes. *)
Definition reset (f : file) : list Z * file :=
  if valid f then let '(fd, f) := release f in ([fd], f) else ([], f).
(** Move construction and move assignment (a swap). *)
Definition move (f : file) : file * file := let '(fd, f) := release f in ({| fd_ := fd |}, f).
Definition assign (dst src : file) : file * file := (src, dst).

Inductive response := Moved (k : nat) | Fails (errno : Z).

Section Ops.
Context `{Build}.

(** [lseek]: the kernel's position, or its error thrown. *)
Definition lseek (res errno : Z) : outcome Z :=
  if res <? 0 then Throw (system_error errno) else Ret (u64 res).

Definition contents := Z -> byte.
Definition bytes_at (c : contents) (off : Z) (k : nat) : list byte :=
  (fun i => c (off + i)) <$> seqZ 0 (Z.of_nat k).
Definition put_bytes (c : contents) (off : Z) (bs : list byte) : contents :=
  fun x => if bool_decide (off <= x < off + Z.of_nat (length bs))
           then nth (Z.to_nat (x - off)) bs x00 else c x.

(** [read_at]: the result and the bytes that were moved. *)
Definition read_at (r : response) (c : contents) (pos : Z) (n : nat) : outcome (Z * list byte) :=
  let off := i64 pos in
  if off <? 0 then Ret (- EINVAL, [])
  else
    match r with
    | Moved k => Ret (Z.of_nat (Nat.min k n), bytes_at c off (Nat.min k n))
    | Fails e => _ ← assert_ (0 <? e); Ret (- e, [])
    end.

Definition write_at (r : response) (c : contents) (pos : Z) (buf : list byte) : Z * contents :=
  let off := i64 pos in
  if off <? 0 then (- EINVAL, c)
  else
    match r with
    | Moved k => (Z.of_nat (Nat.min k (length buf)), put_bytes c off (take k buf))
    | Fails e => (- e, c)
    end.

Definition transient (res : Z) : bool := (- res =? EINTR) || (- res =? EAGAIN).

(** [read_exact_at]; what was read so far is [acc]. *)
Fixpoint read_exact_at (script : list response) (c : contents) (pos : Z) (n : nat) (acc : list byte)
  : outcome (Z * list byte) :=
  match script with
  | [] => if (n =? 0)%nat then Ret (0, acc) else OutOfFuel
  | r :: script =>
      if (n =? 0)%nat then Ret (0, acc)
      else
        '(res, bs) ← read_at r c pos n;
        if res <? 0 then
          if transient res then read_exact_at script c pos n acc else Ret (res, acc)
        else
          _ ← assert_ (negb (res =? 0));
          read_exact_at script c (u64 (pos + res)) (n - Z.to_nat res) (acc ++ bs)
  end.

(** [write_all_at]: a transfer of no bytes is simply repeated. *)
Fixpoint write_all_at (script : list response) (c : contents) (pos : Z) (buf : list byte)
  : outcome (Z * contents) :=
  match script with
  | [] => if (length buf =? 0)%nat then Ret (0, c) else OutOfFuel
  | r :: script =>
      if (length buf =? 0)%nat then Ret (0, c)
      else
        let '(res, c) := write_at r c pos buf in
        if res <? 0 then
          if transient res then write_all_at script c pos buf else Ret (res, c)
        else write_all_at script c (u64 (pos + res)) (drop (Z.to_nat res) buf)
  end.

(** [read] from a stream: the result, the bytes and what is left. *)
Definition read (r : response) (stream : list byte) (n : nat) : outcome (Z * list byte * list byte) :=
  match r with
  | Moved k =>
      let k := Nat.min k (Nat.min n (length stream)) in
      Ret (Z.of_nat k, take k stream, drop k stream)
  | Fails e => _ ← assert_ (0 <? e); Ret (- e, [], stream)
  end.

(** [read_exact]: unlike [read_exact_at] it takes a read of nothing for the end. *)
Fixpoint read_exact (script : list response) (stream : list byte) (n : nat) (acc : list byte)
  : outcome (Z * list byte) :=
  match script with
  | [] => if (n =? 0)%nat then Ret (0, acc) else OutOfFuel
  | r :: script =>
      if (n =? 0)%nat then Ret (0, acc)
      else
        '(res, bs, stream) ← read r stream n;
        if res <? 0 then
          if transient res then read_exact script stream n acc else Ret (res, acc)
        else if res =? 0 then Ret (- EINVAL, acc)
        else read_exact script stream (n - Z.to_nat res) (acc ++ bs)
  end.

End Ops.

(** ** Scripts *)

(** The responses move [n] bytes in all, some calls being interrupted. *)
Inductive completes : nat -> list response -> Prop :=
| CompletesDone script : completes 0 script
| CompletesRetry n e script : e = EINTR \/ e = EAGAIN -> completes n script -> completes n (Fails e :: script)
| CompletesMove n k script : (0 < k <= n)%nat -> completes (n - k) script -> completes n (Moved k :: script).

(** [m] bytes move, fewer than [n], and then a call fails for good. *)
Inductive breaks (e : Z) : nat -> nat -> list response -> Prop :=
| BreaksNow n script : (0 < n)%nat -> 0 < e -> e <> EINTR -> e <> EAGAIN -> breaks e n 0 (Fails e :: script)
| BreaksRetry n m e' script : e' = EINTR \/ e' = EAGAIN -> breaks e n m script ->
    breaks e n m (Fails e' :: script)
| BreaksMove n m k script : (0 < k < n)%nat -> breaks e (n - k) m script ->
    breaks e n (k + m) (Moved k :: script).

Section Facts.
Context `{Build}.
Implicit Types c : contents.

Lemma transient_spec e : transient (- e) = true <-> e = EINTR \/ e = EAGAIN.
Proof. unfold transient. rewrite Z.opp_involutive, orb_true_iff, !Z.eqb_eq. done. Qed.

Lemma breaks_bound e n m script : breaks e n m script -> (m < n)%nat /\ 0 < e.
Proof. induction 1; lia. Qed.

Lemma bytes_at_app c off a b : bytes_at c off (a + b) = bytes_at c off a ++ bytes_at c (off + Z.of_nat a) b.
Proof.
  unfold bytes_at. rewrite Nat2Z.inj_add, seqZ_app, fmap_app by lia. f_equal.
  rewrite Z.add_0_l, <- (Z.add_0_r (Z.of_nat a)), <- fmap_add_seqZ, <- list_fmap_compose.
  apply list_fmap_ext. intros i x _. cbn. f_equal. lia.
Qed.

Lemma length_bytes_at c off n : length (bytes_at c off n) = n.
Proof. unfold bytes_at. rewrite length_fmap, length_seqZ. lia. Qed.

Lemma put_take_drop c off bs k x : (k <= length bs)%nat ->
  put_bytes (put_bytes c off (take k bs)) (off + Z.of_nat k) (drop k bs) x = put_bytes c off bs x.
Proof.
  intros Hk. unfold put_bytes. rewrite length_drop, length_take.
  repeat case_bool_decide; try lia; try done.
  - rewrite <- (take_drop k bs) at 2. rewrite app_nth2, length_take by (rewrite length_take; lia).
    f_equal. lia.
  - rewrite <- (take_drop k bs) at 2. rewrite app_nth1 by (rewrite length_take; lia). done.
Qed.

Lemma read_at_moved k c pos n : (k <= n)%nat -> is_i64 pos -> 0 <= pos ->
  read_at (Moved k) c pos n = Ret (Z.of_nat k, bytes_at c pos k).
Proof.
  intros Hk Hr Hp. unfold read_at. rewrite i64_id, (proj2 (Z.ltb_ge _ _)) by done.
  by rewrite Nat.min_l.
Qed.

(** A call that is interrupted is repeated; one that moves bytes advances. *)
Lemma read_retry e script c pos n acc : e = EINTR \/ e = EAGAIN -> (0 < n)%nat -> is_i64 pos -> 0 <= pos ->
  read_exact_at (Fails e :: script) c pos n acc = read_exact_at script c pos n acc.
Proof.
  intros He Hn Hr Hp. cbn [read_exact_at]. rewrite (proj2 (Nat.eqb_neq n 0)) by lia.
  unfold read_at. rewrite i64_id, (proj2 (Z.ltb_ge pos 0)) by done.
  rewrite assert_true by (apply Z.ltb_lt; destruct He as [-> | ->]; done). cbn [mbind outcome_bind].
  rewrite (proj2 (transient_spec e) He). by destruct He as [-> | ->].
Qed.

Lemma read_advance k script c pos n acc : (0 < k <= n)%nat -> 0 <= pos -> pos + Z.of_nat n < 2 ^ 63 ->
  read_exact_at (Moved k :: script) c pos n acc
  = read_exact_at script c (pos + Z.of_nat k) (n - k) (acc ++ bytes_at c pos k).
Proof.
  intros Hk Hp Hl. cbn [read_exact_at]. rewrite (proj2 (Nat.eqb_neq n 0)) by lia.
  rewrite read_at_moved by lia. cbn [mbind outcome_bind]. rewrite (proj2 (Z.ltb_ge _ _)) by lia.
  rewrite assert_true by (apply negb_true_iff, Z.eqb_neq; lia). cbn [mbind outcome_bind].
  by rewrite u64_id, Nat2Z.id by lia.
Qed.

Lemma write_advance k script c pos buf : (0 < k <= length buf)%nat -> 0 <= pos ->
  pos + Z.of_nat (length buf) < 2 ^ 63 ->
  write_all_at (Moved k :: script) c pos buf
  = write_all_at script (put_bytes c pos (take k buf)) (pos + Z.of_nat k) (drop k buf).
Proof.
  intros Hk Hp Hl. cbn [write_all_at]. rewrite (proj2 (Nat.eqb_neq (length buf) 0)) by lia.
  unfold write_at. rewrite i64_id, (proj2 (Z.ltb_ge pos 0)) by lia. rewrite Nat.min_l by lia.
  rewrite (proj2 (Z.ltb_ge _ _)) by lia. by rewrite u64_id, Nat2Z.id by lia.
Qed.

Lemma write_retry e script c pos buf : e = EINTR \/ e = EAGAIN -> buf <> [] -> is_i64 pos -> 0 <= pos ->
  write_all_at (Fails e :: script) c pos buf = write_all_at script c pos buf.
Proof.
  intros He Hn Hr Hp. cbn [write_all_at]. destruct buf as [|b buf]; [done|]. cbn [length Nat.eqb].
  unfold write_at. rewrite i64_id, (proj2 (Z.ltb_ge pos 0)) by done.
  rewrite (proj2 (transient_spec e) He). by destruct He as [-> | ->].
Qed.

Lemma read_exact_at_breaks e n m script c pos acc :
  breaks e n m script -> 0 <= pos -> pos + Z.of_nat n < 2 ^ 63 ->
  read_exact_at script c pos n acc = Ret (- e, acc ++ bytes_at c pos m).
Proof.
  intros Hb. revert pos acc.
  induction Hb as [n script Hn He H1 H2|n m e' script He Hb IH|n m k script Hk Hb IH]; intros pos acc Hp Hl.
  - cbn [read_exact_at]. rewrite (proj2 (Nat.eqb_neq n 0)) by lia. unfold read_at.
    rewrite i64_id, (proj2 (Z.ltb_ge pos 0)), assert_true by (try apply Z.ltb_lt; lia).
    cbn [mbind outcome_bind]. rewrite (proj2 (Z.ltb_lt (- e) 0)) by lia.
    assert (Ht : transient (- e) = false)
      by (apply not_true_is_false; rewrite transient_spec; intros [|]; done).
    by rewrite Ht, app_nil_r.
  - pose proof (breaks_bound _ _ _ _ Hb). rewrite read_retry by (done || lia). by apply IH.
  - rewrite read_advance, IH by lia. by rewrite bytes_at_app, app_assoc.
Qed.

Lemma read_exact_at_completes n script c pos acc :
  completes n script -> 0 <= pos -> pos + Z.of_nat n < 2 ^ 63 ->
  read_exact_at script c pos n acc = Ret (0, acc ++ bytes_at c pos n).
Proof.
  intros Hb. revert pos acc.
  induction Hb as [script|n e script He Hb IH|n k script Hk Hb IH]; intros pos acc Hp Hl.
  - destruct script; cbn; by rewrite app_nil_r.
  - destruct n as [|n]; [cbn; by rewrite app_nil_r|]. rewrite read_retry by (done || lia). by apply IH.
  - rewrite read_advance, IH by lia. replace n with (k + (n - k))%nat at 2 by lia.
    by rewrite bytes_at_app, app_assoc.
Qed.

(** The stream of a script that completes is consumed from its front. *)
Lemma read_exact_completes n script stream acc :
  completes n script -> (n <= length stream)%nat ->
  read_exact script stream n acc = Ret (0, acc ++ take n stream).
Proof.
  intros Hb. revert stream acc.
  induction Hb as [script|n e script He Hb IH|n k script Hk Hb IH]; intros stream acc Hl.
  - destruct script; cbn; by rewrite app_nil_r.
  - destruct n as [|n]; [cbn; by rewrite app_nil_r|]. cbn [read_exact Nat.eqb read].
    rewrite assert_true by (apply Z.ltb_lt; destruct He as [-> | ->]; done). cbn [mbind outcome_bind].
    rewrite (proj2 (transient_spec e) He). by destruct He as [-> | ->]; apply IH.
  - cbn [read_exact read]. rewrite (proj2 (Nat.eqb_neq n 0)) by lia. cbn [mbind outcome_bind].
    rewrite Nat.min_l by lia. rewrite (proj2 (Z.ltb_ge _ _)), (proj2 (Z.eqb_neq _ _)), Nat2Z.id by lia.
    rewrite IH by (rewrite length_drop; lia). rewrite <- app_assoc. do 3 f_equal.
    rewrite take_drop_commute, <- (take_drop k (take n stream)) at 1.
    rewrite take_take, Nat.min_l by lia. do 2 f_equal. f_equal. lia.
Qed.

Lemma write_all_at_completes n script c pos buf :
  completes n script -> length buf = n -> 0 <= pos -> pos + Z.of_nat n < 2 ^ 63 ->
  exists c', write_all_at script c pos buf = Ret (0, c') /\ forall x, c' x = put_bytes c pos buf x.
Proof.
  intros Hb. revert c pos buf.
  induction Hb as [script|n e script He Hb IH|n k script Hk Hb IH]; intros c pos buf Hn Hp Hl.
  - destruct buf; [|done]. exists c. split; [by destruct script|]. intros x. unfold put_bytes.
    rewrite bool_decide_eq_false_2; [done|cbn; lia].
  - destruct buf as [|b buf].
    + exists c. split; [done|]. intros x. unfold put_bytes. rewrite bool_decide_eq_false_2; [done|cbn; lia].
    + rewrite write_retry by (done || lia). by apply IH.
  - rewrite write_advance by lia.
    destruct (IH (put_bytes c pos (take k buf)) (pos + Z.of_nat k) (drop k buf)) as (c' & Hw & Hc);
      [rewrite length_drop; lia|lia..|].
    exists c'. split; [done|]. intros x. rewrite Hc. apply put_take_drop. lia.
Qed.

End Facts.

(** * Properties *)

(** The retry loops. If the kernel's answers, interruptions aside, move
    [n] bytes in pieces of any size, [read_exact_at] answers 0 with exactly
    the [n] bytes at [pos], and [write_all_at] answers 0 with exactly those
    bytes of the file changed. A final error is returned after the bytes that
    came before it. [read_exact] takes the [n] bytes from the front of a stream
    and answers -EINVAL where the stream has ended. At the end of the file
    [read_exact_at] fails its assertion, and [write_all_at] repeats a write of
    nothing for ever. *)
Theorem retry_loops_transfer `{Build} (script : list response) (c : contents) (pos : Z) (n m : nat)
    (buf stream : list byte) (e : Z) :
  0 <= pos -> pos + Z.of_nat n < 2 ^ 63 ->
  (completes n script -> read_exact_at script c pos n [] = Ret (0, bytes_at c pos n))
  /\ (breaks e n m script -> read_exact_at script c pos n [] = Ret (- e, bytes_at c pos m))
  /\ (completes n script -> length buf = n ->
      exists c', write_all_at script c pos buf = Ret (0, c') /\ forall x, c' x = put_bytes c pos buf x)
  /\ (completes n script -> (n <= length stream)%nat ->
      read_exact script stream n [] = Ret (0, take n stream))
  /\ (forall k, (0 < n)%nat -> read_exact (Moved k :: script) [] n [] = Ret (- EINVAL, []))
  /\ (NDEBUG = false -> (0 < n)%nat -> read_exact_at (Moved 0 :: script) c pos n [] = Abort_)
  /\ (length buf = n -> (0 < n)%nat -> forall k, write_all_at (replicate k (Moved 0)) c pos buf = OutOfFuel).
Proof.
  intros Hp Hl. split_and!.
  - intros Hc. by rewrite read_exact_at_completes.
  - intros Hb. by rewrite (read_exact_at_breaks _ _ _ _ _ _ _ Hb).
  - intros Hc Hn. by eapply write_all_at_completes.
  - intros Hc Hn. by rewrite read_exact_completes.
  - intros k Hn. cbn [read_exact read length]. rewrite (proj2 (Nat.eqb_neq n 0)), Nat.min_0_r, Nat.min_0_r by lia.
    done.
  - intros Hd Hn. cbn [read_exact_at]. rewrite (proj2 (Nat.eqb_neq n 0)), read_at_moved by lia.
    cbn. unfold assert_. by rewrite Hd.
  - intros Hn Hpos k. revert c. induction k as [|k IH]; intros c; cbn [replicate write_all_at];
      rewrite (proj2 (Nat.eqb_neq (length buf) 0)) by lia; [done|].
    unfold write_at. rewrite i64_id, (proj2 (Z.ltb_ge pos 0)) by lia. cbn [Nat.min take].
    change (Z.of_nat 0 <? 0) with false. cbn iota. rewrite Z.add_0_r, u64_id by lia. apply IH.
Qed.

Example retry_loops_transfer_witness :
  read_exact_at (H := debug_build) [Moved 2; Fails EINTR; Moved 1] (fun x => byte_of x) 97 3 []
  = Ret (0, [x61; x62; x63]).
Proof.
  refine (proj1 (retry_loops_transfer (H := debug_build) [Moved 2; Fails EINTR; Moved 1] (fun x => byte_of x) 97 3 0
    [] [] 0 _ _) _).
  - done.
  - reflexivity.
  - apply CompletesMove; [lia|]. apply CompletesRetry; [by left|]. apply CompletesMove; [lia|]. apply CompletesDone.
Defined.
