(* ===== verification/Metrics.v ===== *)
(** * Metrics: src/metrics.hpp, metrics.cpp

    Two 64-bit counters per metric and a scope guard that adds a sample when
    it is destroyed.  The hooks of [socket] and [close] hold such guards; their
    value is read only by [dump]. *)

From S2P Require Import Prelude Words.

(** [metric]: atomic counters. *)
Record metric := { total_time : Z; count : Z }.

Definition no_samples : metric := {| total_time := 0; count := 0 |}.

(** [timed]: [m] is the metric it still has to report to, if any. *)
Record timed := { reports : bool; start : Z }.

Definition begin (now : Z) : timed := {| reports := true; start := now |}.

(** [add_sample]: the duration is added to an unsigned counter. *)
Definition add_sample (sample : Z) (m : metric) : metric :=
  {| total_time := u64 (total_time m + sample); count := u64 (count m + 1) |}.

(** [stop], also the destructor. *)
Definition stop (now : Z) (t : timed) (m : metric) : timed * metric :=
  let sample := i64 (start t - now) in
  ({| reports := false; start := start t |}, if reports t then add_sample sample m else m).

(** [average]: division by zero is undefined. *)
Definition average (m : metric) : outcome Z :=
  if count m =? 0 then Undefined else Ret (i64 (total_time m / count m)).

(** ** A metric after some scopes have ended *)

Definition scope (m : metric) (d : Z * Z) : metric := (stop d.2 (begin d.1) m).2.

Definition elapsed (ds : list (Z * Z)) : Z := foldr (fun d n => d.2 - d.1 + n) 0 ds.

Lemma scopes_from ds m : Forall (fun d => 0 <= d.1 <= d.2 /\ d.2 < 2 ^ 63) ds ->
  u64 (total_time m) = total_time m -> 0 <= count m -> count m + Z.of_nat (length ds) < 2 ^ 64 ->
  total_time (foldl scope m ds) = u64 (total_time m - elapsed ds)
  /\ count (foldl scope m ds) = count m + Z.of_nat (length ds).
Proof.
  intros Hd. revert m. induction Hd as [|[a b] ds [Ha Hb] _ IH]; intros m Ht Hc Hl.
  - cbn. rewrite Z.sub_0_r, Z.add_0_r. by split.
  - cbn [foldl elapsed foldr length fst snd] in *. fold (elapsed ds).
    assert (Hs : scope m (a, b) = {| total_time := u64 (total_time m - (b - a)); count := count m + 1 |}).
    { unfold scope, stop, begin, add_sample. cbn [snd fst reports start].
      rewrite i64_id, (u64_id (count m + 1)) by lia. do 2 f_equal. lia. }
    rewrite Hs. destruct (IH {| total_time := u64 (total_time m - (b - a)); count := count m + 1 |}) as [IH1 IH2];
      cbn [total_time count] in *; [apply u64_id, u64_range|lia|lia|].
    rewrite IH1, IH2. split; [|lia]. rewrite <- Z.add_opp_r, u64_add_l. f_equal. lia.
Qed.

(** * Properties *)

(** The averages are negated and wrap. After scopes that together took [d]
    nanoseconds, with [d > 0], the unsigned total is [2^64 - d]: one scope
    reports [-d], and two or more report a large positive number. Before the
    first sample the average divides by zero. *)
Theorem averages_are_negated (ds : list (Z * Z)) :
  Forall (fun d => 0 <= d.1 <= d.2 /\ d.2 < 2 ^ 63) ds -> 0 < elapsed ds < 2 ^ 63 ->
  Z.of_nat (length ds) < 2 ^ 64 ->
  average no_samples = Undefined
  /\ average (foldl scope no_samples ds) = Ret (i64 ((2 ^ 64 - elapsed ds) / Z.of_nat (length ds)))
  /\ (length ds = 1%nat -> average (foldl scope no_samples ds) = Ret (- elapsed ds)).
Proof.
  intros Hd He Hl. destruct (scopes_from ds no_samples Hd eq_refl) as [Ht Hc]; [cbn; lia..|].
  assert (Hn : length ds <> 0%nat) by (destruct ds; cbn in *; lia).
  assert (Ha : average (foldl scope no_samples ds) = Ret (i64 ((2 ^ 64 - elapsed ds) / Z.of_nat (length ds)))).
  { unfold average. rewrite Ht, Hc. cbn [count total_time no_samples]. rewrite (proj2 (Z.eqb_neq _ _)) by lia.
    do 3 f_equal. unfold u64. symmetry. apply (Z.mod_unique _ _ (-1)); lia. }
  split; [done|]. split; [exact Ha|]. intros H1. rewrite Ha, H1. change (Z.of_nat 1) with 1. rewrite Z.div_1_r.
  f_equal. rewrite <- (i64_id (- elapsed ds)) by lia. rewrite <- (i64_u64 (_ - _)), <- (i64_u64 (- _)). f_equal.
  unfold u64. symmetry. by rewrite <- (Z_mod_plus_full (- elapsed ds) 1), Z.mul_1_l, Z.add_comm.
Qed.

Example averages_are_negated_witness : average (foldl scope no_samples [(5, 12)]) = Ret (-7).
Proof.
  refine (proj2 (proj2 (averages_are_negated [(5, 12)] _ _ _)) eq_refl).
  - apply Forall_singleton. by repeat split.
  - by split.
  - reflexivity.
Defined.
