(* ===== verification/Launch.v ===== *)
(** * The life of a runner: [ptrace_run], [ptrace_worker] and
    [ptrace_runner_handle] of src/sim/runner/ptrace.cpp

    What the worker does before the barrier (spawn, /proc/pid/mem, ptrace
    options) and behind it (execve, vDSO, the replica, the loop), as functions
    of what the kernel answers; the exception handler around it; and the two
    threads that meet at the barrier, as a step relation over the steps of
    Barrier.v.  [proc_mem] is from src/sys/file.cpp, the wrappers from
    src/sys/ptrace.cpp. *)

From stdpp Require Import pretty.
From S2P Require Import Prelude Words Child Barrier SysFile Runner Tracee Startup.

(** ** Wrappers over ptrace(2)

    A request of the kernel: its result and errno. *)
Record kernel_result := { rc_ : Z; errno_ : Z }.

Section Start.
Context `{Build}.

Definition ptrace_child (c : child) (r : kernel_result) : outcome unit :=
  _ ← assert_ (Child.valid c);
  if rc_ r <? 0 then Throw (system_error (errno_ r)) else Ret tt.

Definition set_options (c : child) (r : kernel_result) : outcome unit := ptrace_child c r.

(** [get_regs] and [get_syscall_info] hand out what the kernel has written. *)
Definition get_regs {R} (c : child) (r : kernel_result) (regs : R) : outcome R :=
  _ ← ptrace_child c r; Ret regs.
Definition get_syscall_info {I} (c : child) (r : kernel_result) (info : I) : outcome I :=
  _ ← ptrace_child c r; Ret info.

(** ** [proc_mem] *)

Definition proc_mem_path (c : child) : string := "/proc/" +:+ pretty (pid_ c) +:+ "/mem".

Definition proc_mem (open : string -> kernel_result) (c : child) : outcome file :=
  let r := open (proc_mem_path c) in
  if rc_ r <? 0 then Throw (system_error (errno_ r))
  else let f := {| fd_ := rc_ r |} in _ ← assert_ (SysFile.valid f); Ret f.

(** ** The worker up to the barrier *)

Record runner_options := { path_ : string; args_ : list string; has_machine : bool }.

(** What fork, the first waitpid, open and PTRACE_SETOPTIONS answer. *)
Record answers := {
  a_fork : kernel_result; a_wait : kernel_result; a_status : Z;
  a_open : string -> kernel_result; a_setoptions : kernel_result;
}.

Definition worker_start (o : runner_options) (a : answers) : outcome (child * file) :=
  c ← spawn (args_ o) (path_ o) (rc_ (a_fork a)) (errno_ (a_fork a)) (rc_ (a_wait a)) (a_status a)
        (errno_ (a_wait a));
  memfd ← proc_mem (a_open a) c;
  _ ← assert_ (SysFile.valid memfd);
  _ ← assert_ (has_machine o);
  _ ← set_options c (a_setoptions a);
  Ret (c, memfd).

(** ** The worker behind the barrier *)

(** [while (!replica)]: the machine is asked until it has a replica. *)
Fixpoint current_replica {R} (polls : list (option R)) : outcome R :=
  match polls with
  | [] => OutOfFuel
  | Some r :: _ => Ret r
  | None :: polls => current_replica polls
  end.

Definition worker_rest {M R S} `{Ptrace M} (statuses : list Z) (errno : Z) (fuel : nat) (rsp : Z) (m : M)
  (polls : list (option R)) (loop : child -> M -> R -> outcome S) (c : child) : outcome S :=
  c ← wait_until_execve statuses c;
  m ← remove_vdso errno fuel rsp m;
  replica ← current_replica polls;
  loop c m replica.

(** The [try]/[catch] of the thread: ESRCH means the child crashed. What is
    not caught ends the process ([std::terminate]). *)
Definition thread_body {A} (o : outcome A) : outcome unit :=
  match o with
  | Throw (system_error e) => if e =? ESRCH then Ret tt else Throw (system_error e)
  | o => _ ← o; Ret tt
  end.

(** ** The handle *)

Record ptrace_runner_handle := {
  joinable : bool;               (* [worker] *)
  saved_state : option run_state;
  handle_child : child;
  handle_memfd : file;
}.

Definition kill (r : kernel_result) (h : ptrace_runner_handle) : outcome unit :=
  terminate (rc_ r) (errno_ r) (handle_child h).

(** [worker.join()]: a thread can be joined once. *)
Definition wait (h : ptrace_runner_handle) : outcome ptrace_runner_handle :=
  if joinable h then
    Ret {| joinable := false; saved_state := saved_state h; handle_child := handle_child h;
           handle_memfd := handle_memfd h |}
  else Throw (system_error EINVAL).

Definition state (h : ptrace_runner_handle) : option run_state := saved_state h.

(** One round of the loop in the worker stores what [child.wait()] reported. *)
Definition save (h : ptrace_runner_handle) (c : child) : outcome ptrace_runner_handle :=
  match state_ c with
  | Some s => Ret {| joinable := joinable h; saved_state := Some s; handle_child := c;
                     handle_memfd := handle_memfd h |}
  | None => Throw bad_optional_access
  end.

End Start.

(** ** The two threads *)

(** A thread and its one call of [barrier::wait]. *)
Inductive place := Ahead | Inside (epoch : Z) | Behind.

#[export] Instance place_eq_dec : EqDecision place.
Proof. solve_decision. Defined.

Section Launch.
Context `{Build}.

(** The condition variable knows the caller as thread 0, the worker as thread 1. *)
Definition cross (i : nat) (p : place) (b : barrier) : outcome (place * barrier) :=
  match p with
  | Ahead => '(e, b) ← enter i b; Ret (match e with None => Behind | Some e => Inside e end, b)
  | Inside e => let '(leaves, b) := retest i e b in Ret (if leaves then Behind else Inside e, b)
  | Behind => Ret (Behind, b)
  end.

(** [ended]: how the thread's function came back. *)
Record launch := { b_ : barrier; caller : place; worker : place; ended : option (outcome unit) }.

Definition launched : launch := {| b_ := make_barrier 2; caller := Ahead; worker := Ahead; ended := None |}.

(** The process is gone: an exception left the thread, or an assertion failed. *)
Definition terminated_process (l : launch) : bool :=
  match ended l with Some o => negb (returns o) | None => false end.

(** [start] is what [worker_start] came to, [rest] what follows the barrier. *)
Context {A : Type} (start : outcome A) (rest : A -> outcome unit).

Inductive launch_step : launch -> launch -> Prop :=
| CallerWaits l p b :
    terminated_process l = false -> caller l <> Behind -> 0%nat ∉ cond_ (b_ l) ->
    cross 0 (caller l) (b_ l) = Ret (p, b) ->
    launch_step l {| b_ := b; caller := p; worker := worker l; ended := ended l |}
| StartFails l :
    terminated_process l = false -> worker l = Ahead -> ended l = None -> returns start = false ->
    launch_step l {| b_ := b_ l; caller := caller l; worker := Ahead;
                     ended := Some (thread_body start) |}
| WorkerWaits l p b :
    terminated_process l = false -> worker l <> Behind -> ended l = None -> returns start = true ->
    1%nat ∉ cond_ (b_ l) -> cross 1 (worker l) (b_ l) = Ret (p, b) ->
    launch_step l {| b_ := b; caller := caller l; worker := p; ended := ended l |}
| WorkerEnds l a :
    terminated_process l = false -> worker l = Behind -> ended l = None -> start = Ret a ->
    launch_step l {| b_ := b_ l; caller := caller l; worker := Behind;
                     ended := Some (thread_body (rest a)) |}.

(** A thread that sleeps at the barrier wakes without a notification. *)
Inductive launch_spurious : launch -> launch -> Prop :=
| WakesSpuriously l i : i ∈ cond_ (b_ l) ->
    launch_spurious l {| b_ := wake_spuriously i (b_ l); caller := caller l; worker := worker l; ended := ended l |}.

Inductive launch_run : launch -> launch -> Prop :=
| LaunchRefl l : launch_run l l
| LaunchStep l l' l'' : launch_run l l' -> launch_step l' l'' -> launch_run l l''
| LaunchSpurious l l' l'' : launch_run l l' -> launch_spurious l' l'' -> launch_run l l''.

End Launch.

(** ** Lemmas *)

Section Facts.
Context `{Build} {A : Type} (start : outcome A) (rest : A -> outcome unit).
Implicit Types l : launch.

(** The barrier before the two have met, with one of them in it, and after. *)
Definition one_inside (i : nat) (b : barrier) : Prop :=
  exists c, c ⊆ {[i]} /\ b = {| count_ := 2; current_ := 1; epoch_ := 0; cond_ := c |}.
Definition both_met : barrier := {| count_ := 2; current_ := 2; epoch_ := 1; cond_ := ∅ |}.

(** The states of the launch: who has arrived, and how far the thread is. *)
Definition met l : Prop :=
  (b_ l = make_barrier 2 /\ caller l = Ahead /\ worker l = Ahead)
  \/ ((one_inside 0 (b_ l) /\ caller l = Inside 0 /\ worker l = Ahead)
      \/ (one_inside 1 (b_ l) /\ caller l = Ahead /\ worker l = Inside 0))
  \/ (b_ l = both_met
      /\ (caller l = Inside 0 \/ caller l = Behind) /\ (worker l = Inside 0 \/ worker l = Behind)).

Definition progress l : Prop :=
  match worker l with
  | Ahead => ended l = None \/ (ended l = Some (thread_body start) /\ returns start = false)
  | Inside _ => returns start = true /\ ended l = None
  | Behind => exists a, start = Ret a /\ (ended l = None \/ ended l = Some (thread_body (rest a)))
  end.

Lemma cross_first i : exists b, cross i Ahead (make_barrier 2) = Ret (Inside 0, b) /\ one_inside i b.
Proof.
  unfold cross, enter. rewrite assert_true by done. eexists. split; [reflexivity|].
  eexists. split; [|reflexivity]. cbn. set_solver.
Qed.
Lemma cross_second i j b : one_inside j b -> cross i Ahead b = Ret (Behind, both_met).
Proof. intros (c & _ & ->). unfold cross, enter. by rewrite assert_true. Qed.
Lemma cross_again i b : one_inside i b -> exists b', cross i (Inside 0) b = Ret (Inside 0, b') /\ one_inside i b'.
Proof. intros (c & Hc & ->). eexists. split; [reflexivity|]. eexists. split; [|reflexivity]. cbn. set_solver. Qed.
Lemma cross_released i : cross i (Inside 0) both_met = Ret (Behind, both_met).
Proof. done. Qed.
Lemma one_inside_awake i j b : one_inside j b -> i <> j -> i ∉ cond_ b.
Proof. intros (c & Hc & ->). cbn. set_solver. Qed.
Lemma one_inside_blocked i b : one_inside i b -> blocked 0 b = true.
Proof. by intros (c & _ & ->). Qed.
Lemma both_awake i : i ∉ cond_ both_met.
Proof. apply not_elem_of_empty. Qed.

(** The caller crosses; the worker's case is the same with the two exchanged. *)
Definition waits (other p' : place) (b : barrier) (i : nat) : Prop :=
  (p' = Inside 0 /\ other = Ahead /\ one_inside i b)
  \/ (b = both_met /\ p' = Behind /\ (other = Inside 0 \/ other = Behind)).

Lemma caller_crosses l p b : met l -> caller l <> Behind -> cross 0 (caller l) (b_ l) = Ret (p, b) ->
  waits (worker l) p b 0.
Proof.
  intros [(Hb & Hc & Hw)|[[(Hb & Hc & Hw)|(Hb & Hc & Hw)]|(Hb & [Hc|Hc] & Hw)]] Hne Hx; rewrite Hc in Hx; try done.
  - destruct (cross_first 0) as (b' & Hx' & Hb'). rewrite Hb, Hx' in Hx. injection Hx as <- <-. by left.
  - destruct (cross_again 0 _ Hb) as (b' & Hx' & Hb'). rewrite Hx' in Hx. injection Hx as <- <-. by left.
  - rewrite (cross_second 0 1 _ Hb) in Hx. injection Hx as <- <-. right. auto.
  - rewrite Hb, cross_released in Hx. injection Hx as <- <-. by right.
Qed.

Lemma worker_crosses l p b : met l -> worker l <> Behind -> cross 1 (worker l) (b_ l) = Ret (p, b) ->
  waits (caller l) p b 1.
Proof.
  intros [(Hb & Hc & Hw)|[[(Hb & Hc & Hw)|(Hb & Hc & Hw)]|(Hb & Hc & [Hw|Hw])]] Hne Hx; rewrite Hw in Hx; try done.
  - destruct (cross_first 1) as (b' & Hx' & Hb'). rewrite Hb, Hx' in Hx. injection Hx as <- <-. by left.
  - rewrite (cross_second 1 0 _ Hb) in Hx. injection Hx as <- <-. right. auto.
  - destruct (cross_again 1 _ Hb) as (b' & Hx' & Hb'). rewrite Hx' in Hx. injection Hx as <- <-. by left.
  - rewrite Hb, cross_released in Hx. injection Hx as <- <-. by right.
Qed.

Lemma spurious_met l l' : met l -> launch_spurious l l' -> met l'.
Proof.
  intros Hm Hs. destruct Hs as [l i Hi]. unfold met in *. cbn [b_ caller worker].
  assert (Hin : forall j, one_inside j (b_ l) -> one_inside j (wake_spuriously i (b_ l))).
  { intros j (c & Hc & Hb). rewrite Hb. eexists. split; [|reflexivity]. cbn. set_solver. }
  destruct Hm as [(Hb & _)|[[(Hb & Hx)|(Hb & Hx)]|(Hb & _)]].
  - rewrite Hb in Hi. by apply not_elem_of_empty in Hi.
  - right. left. left. auto.
  - right. left. right. auto.
  - rewrite Hb in Hi. by apply not_elem_of_empty in Hi.
Qed.

Lemma launch_inv l : launch_run start rest launched l -> met l /\ progress l.
Proof.
  intros Hr. remember launched as l0 eqn:E. induction Hr as [l|l l' l'' Hr IH Hs|l l' l'' Hr IH Hs].
  { subst. split; [by left|by left]. }
  2:{ destruct (IH E) as [Hm Hp]. split; [by eapply spurious_met|]. by destruct Hs. }
  specialize (IH E). destruct IH as [Hm Hp]. clear E Hr.
  destruct Hs as [k p b Ht Hne _ Hx|k Ht Hw He Hf|k p b Ht Hne He Hs _ Hx|k a Ht Hw He Hs].
  - split; [|done]. apply caller_crosses in Hx; [|done..]. unfold met. cbn [b_ caller worker].
    destruct Hx as [(-> & Hw & Hb)|(-> & -> & Hw)]; auto 10.
  - unfold met, progress in *. cbn [b_ caller worker ended]. rewrite Hw in Hm. split; [auto|]. by right.
  - apply worker_crosses in Hx; [|done..]. unfold met, progress. cbn [b_ caller worker ended].
    destruct Hx as [(-> & Hc & Hb)|(-> & -> & Hc)]; [auto 10|]. split; [auto 10|].
    destruct start as [a| | | |]; try done. exists a. auto.
  - unfold met, progress in *. cbn [b_ caller worker ended]. rewrite Hw in Hm. split; [auto|]. exists a. auto.
Qed.

Definition rank (p : place) : nat := match p with Ahead => 2 | Inside _ => 1 | Behind => 0 end.
Definition remaining l : nat :=
  rank (caller l) + rank (worker l) + (match ended l with Some _ => 0 | None => 1 end).

(** Nothing is left to do, or the caller waits for a worker that has given up. *)
Definition settled l : Prop :=
  (caller l = Behind /\ exists a, start = Ret a /\ ended l = Some (thread_body (rest a)))
  \/ (caller l = Inside 0 /\ returns start = false /\ ended l = Some (thread_body start)).

Definition advance l l' : Prop :=
  launch_step start rest l l' /\ (remaining l' < remaining l)%nat
  /\ (terminated_process l' = true -> settled l').

Lemma caller_advances l p b : terminated_process l = false -> caller l <> Behind -> 0%nat ∉ cond_ (b_ l) ->
  cross 0 (caller l) (b_ l) = Ret (p, b) -> (rank p < rank (caller l))%nat -> exists l', advance l l'.
Proof.
  intros Ht Hne Ha Hx Hlt. eexists. split; [by eapply CallerWaits|]. unfold remaining, terminated_process in *.
  cbn. rewrite Ht. split; [lia|done].
Qed.

Lemma worker_advances l p b : terminated_process l = false -> worker l <> Behind -> ended l = None ->
  returns start = true -> 1%nat ∉ cond_ (b_ l) ->
  cross 1 (worker l) (b_ l) = Ret (p, b) -> (rank p < rank (worker l))%nat ->
  exists l', advance l l'.
Proof.
  intros Ht Hne He Hs Ha Hx Hlt. eexists. split; [by eapply WorkerWaits|]. unfold remaining, terminated_process in *.
  cbn. rewrite Ht. split; [lia|done].
Qed.

(** The caller moves if it can, else the worker. *)
Lemma launch_moves l : met l -> progress l -> terminated_process l = false ->
  settled l \/ exists l', advance l l'.
Proof.
  intros Hm Hp Ht. unfold settled.
  destruct Hm as [(Hb & Hc & Hw)|[[(Hb & Hc & Hw)|(Hb & Hc & Hw)]|(Hb & [Hc|Hc] & Hw)]].
  - right. destruct (cross_first 0) as (b & Hx & _).
    eapply caller_advances; rewrite ?Hc, ?Hb; [done|done|apply not_elem_of_empty|exact Hx|cbn; lia].
  - unfold progress in Hp. rewrite Hw in Hp. destruct Hp as [He|[He Hs]]; [|by left; right].
    right. destruct (returns start) eqn:Hs.
    + eapply worker_advances; rewrite ?Hw;
        [done|done|done|done|by eapply one_inside_awake|by eapply cross_second|cbn; lia].
    + eexists. split; [by eapply StartFails|]. unfold remaining, settled. rewrite Hw, He. cbn. split; [lia|by right].
  - right. eapply caller_advances; rewrite ?Hc;
      [done|done|by eapply one_inside_awake|by eapply cross_second|cbn; lia].
  - right. eapply caller_advances; rewrite ?Hc, ?Hb; [done|done|apply both_awake|apply cross_released|cbn; lia].
  - unfold progress in Hp. destruct Hw as [Hw|Hw]; rewrite Hw in Hp.
    + right. destruct Hp as [Hs He].
      eapply worker_advances; rewrite ?Hw, ?Hb; [done|done|done|done|apply both_awake|apply cross_released|cbn; lia].
    + destruct Hp as (a & Hs & [He|He]); [|by left; left; eauto].
      right. eexists. split; [by eapply WorkerEnds|]. unfold remaining, settled. rewrite Hw, He, Hc. cbn.
      split; [lia|]. left. eauto.
Qed.

Lemma launch_run_trans l1 l2 l3 :
  launch_run start rest l1 l2 -> rtc (launch_step start rest) l2 l3 -> launch_run start rest l1 l3.
Proof. intros H12 H23. revert H12. induction H23; [done|]. intros H12. apply IHrtc. by eapply LaunchStep. Qed.

(** A launch whose process lives can go on until it is settled, without a
    spurious wake-up. *)
Lemma launch_settles l : launch_run start rest launched l -> terminated_process l = false ->
  exists l', rtc (launch_step start rest) l l' /\ settled l'.
Proof.
  remember (remaining l) as n eqn:E. revert l E. induction (lt_wf n) as [n _ IH]. intros l -> Hr Ht.
  destruct (launch_inv l Hr) as [Hm Hp].
  destruct (launch_moves l Hm Hp Ht) as [Hs|(l' & Hs & Hlt & Hend)].
  { exists l. split; [apply rtc_refl|done]. }
  destruct (terminated_process l') eqn:Ht'; [exists l'; split; [by apply rtc_once|auto]|].
  destruct (IH _ Hlt l' eq_refl) as (l'' & Hr' & Hset); [by eapply LaunchStep|done|].
  exists l''. split; [by eapply rtc_l|done].
Qed.

End Facts.

(** ** The start-up of the worker *)

(** A start in which fork and the first waitpid went well. *)
Definition forked (o : runner_options) (a : answers) (signal : Z) : Prop :=
  (exists rest, args_ o = path_ o :: rest) /\ has_machine o = true /\ 0 < rc_ (a_fork a)
  /\ 0 <= rc_ (a_wait a) /\ 0 <= signal < 256 /\ a_status a = encode (Stopped signal 0).

Definition stopped_child (a : answers) (signal : Z) : child :=
  {| pid_ := rc_ (a_fork a); state_ := Some (stopped signal) |}.
Definition opened (a : answers) (signal : Z) : kernel_result := a_open a (proc_mem_path (stopped_child a signal)).

Lemma worker_start_spec `{Build} o a signal : forked o a signal ->
  worker_start o a
  = if rc_ (opened a signal) <? 0 then Throw (system_error (errno_ (opened a signal)))
    else if rc_ (a_setoptions a) <? 0 then Throw (system_error (errno_ (a_setoptions a)))
    else Ret (stopped_child a signal, {| fd_ := rc_ (opened a signal) |}).
Proof.
  intros ([rest Ha] & Hm & Hf & Hw & Hs & Hst). unfold worker_start, spawn.
  rewrite Ha, bool_decide_eq_false_2 by naive_solver.
  rewrite (proj2 (Z.ltb_ge (rc_ (a_fork a)) 0)), Hst, wait_encode by (lia || (split; lia)).
  cbn [mbind outcome_bind pid_ decoded]. fold (stopped_child a signal). unfold proc_mem. fold (opened a signal).
  destruct (Z.ltb_spec (rc_ (opened a signal)) 0); [done|].
  assert (Hv : SysFile.valid {| fd_ := rc_ (opened a signal) |} = true) by by apply Z.leb_le.
  rewrite !(assert_true (SysFile.valid _)) by done. cbn [mbind outcome_bind].
  rewrite !(assert_true (SysFile.valid _)), assert_true by done. cbn [mbind outcome_bind].
  unfold set_options, ptrace_child. rewrite assert_true by (apply Z.leb_le; cbn; lia). cbn [mbind outcome_bind].
  by destruct (rc_ (a_setoptions a) <? 0).
Qed.

(** * Properties *)

(** C17: how [ptrace_run] can end. In every interleaving of the two threads
    the handle is only returned once the process has been forked, its memory
    file opened and its options set, and the worker only gets past the
    barrier when the caller has arrived. If all that succeeds the launch
    always comes to the end of the worker's loop, with the caller long gone.
    If it fails with an error other than ESRCH the exception leaves the
    thread and takes the whole process down. If it fails with ESRCH (the
    child was killed in between) the worker reports a crashed child and
    returns, nobody else arrives at the barrier, and [ptrace_run] never comes
    back: it ends up in a state that no step and no spurious wake-up leaves.
    The continuations that are claimed need no spurious wake-up: the last one
    to arrive notifies the other. *)
Theorem ptrace_run_outcomes `{Build} (o : runner_options) (a : answers) (signal : Z)
    (rest : child * file -> outcome unit) (l : launch) :
  forked o a signal -> launch_run (worker_start o a) rest launched l ->
  let result c := rtc (launch_step (worker_start o a) rest) l c in
  let fails e := (rc_ (opened a signal) < 0 /\ errno_ (opened a signal) = e)
    \/ (0 <= rc_ (opened a signal) /\ rc_ (a_setoptions a) < 0 /\ errno_ (a_setoptions a) = e) in
  (caller l = Behind -> 0 <= rc_ (opened a signal) /\ 0 <= rc_ (a_setoptions a))
  /\ (worker l = Behind -> caller l <> Ahead)
  /\ (0 <= rc_ (opened a signal) -> 0 <= rc_ (a_setoptions a) -> terminated_process l = false ->
      exists l', result l' /\ caller l' = Behind
        /\ ended l' = Some (thread_body (rest (stopped_child a signal, {| fd_ := rc_ (opened a signal) |}))))
  /\ (forall e, fails e -> e <> ESRCH -> terminated_process l = false ->
      exists l', result l' /\ caller l' = Inside 0 /\ terminated_process l' = true)
  /\ (fails ESRCH -> caller l <> Behind
      /\ exists l', result l' /\ caller l' = Inside 0 /\ ended l' = Some (Ret tt)
           /\ forall l'', launch_step (worker_start o a) rest l' l'' \/ launch_spurious l' l'' ->
                caller l'' = Inside 0 /\ ended l'' = Some (Ret tt)).
Proof.
  intros Hf Hr result fails. pose proof (worker_start_spec o a signal Hf) as Hs.
  destruct (launch_inv _ _ l Hr) as [Hm Hp].
  assert (Hfail : forall e, fails e -> worker_start o a = Throw (system_error e)).
  { intros e [[Hlt <-]|(Hge & Hlt & <-)]; rewrite Hs.
    - by rewrite (proj2 (Z.ltb_lt _ _) Hlt).
    - by rewrite (proj2 (Z.ltb_ge _ _) Hge), (proj2 (Z.ltb_lt _ _) Hlt). }
  assert (Hbehind : caller l = Behind -> returns (worker_start o a) = true).
  { intros Hc. destruct Hm as [(_ & Hc' & _)|[[(_ & Hc' & _)|(_ & Hc' & _)]|(_ & _ & [Hw|Hw])]]; try congruence;
      unfold progress in Hp; rewrite Hw in Hp; [apply Hp|]. by destruct Hp as (x & -> & _). }
  split; [|split; [|split; [|split]]].
  - intros Hc%Hbehind. rewrite Hs in Hc. repeat case_match; try done. split; by apply Z.ltb_ge.
  - intros Hw. destruct Hm as [(_ & _ & ?)|[[(_ & _ & ?)|(_ & _ & ?)]|(_ & [-> | ->] & _)]]; congruence.
  - intros Ho Hse Ht. rewrite (proj2 (Z.ltb_ge _ _) Ho), (proj2 (Z.ltb_ge _ _) Hse) in Hs.
    destruct (launch_settles _ _ l Hr Ht) as (l' & Hr' & [(Hc & x & Hx & He)|(_ & Hx & _)]).
    + exists l'. split; [done|]. split; [done|]. rewrite Hs in Hx. by injection Hx as <-.
    + by rewrite Hs in Hx.
  - intros e Hfe Hne Ht. specialize (Hfail e Hfe).
    destruct (launch_settles _ _ l Hr Ht) as (l' & Hr' & [(_ & x & Hx & _)|(Hc & _ & He)]); [congruence|].
    exists l'. split; [done|]. split; [done|]. unfold terminated_process. rewrite He, Hfail. cbn.
    by rewrite (proj2 (Z.eqb_neq _ _) Hne).
  - intros Hfe. specialize (Hfail _ Hfe). split.
    { intros Hc%Hbehind. by rewrite Hfail in Hc. }
    assert (Ht : terminated_process l = false).
    { unfold terminated_process. unfold progress in Hp. rewrite Hfail in Hp.
      destruct (worker l); [|by destruct Hp as [_ ->]|by destruct Hp as (x & ? & _)].
      by destruct Hp as [-> |[-> _]]. }
    destruct (launch_settles _ _ l Hr Ht) as (l' & Hr' & [(_ & x & Hx & _)|(Hc & _ & He)]); [congruence|].
    rewrite Hfail in He. exists l'. split; [done|]. split; [done|]. split; [done|].
    intros l'' [Hst|Hsp]; [|by destruct Hsp].
    destruct (launch_inv _ _ l' ltac:(by eapply launch_run_trans)) as [Hm' Hp'].
    assert (Hb : blocked 0 (b_ l') = true).
    { destruct Hm' as [(_ & Hc' & _)|[[(Hb & _)|(Hb & _)]|(_ & _ & [Hw|Hw])]]; [congruence|by eapply one_inside_blocked..| |];
        unfold progress in Hp'; rewrite Hw in Hp'; [by destruct Hp' as [Hx _]; rewrite Hfail in Hx|].
      destruct Hp' as (x & ? & _). congruence. }
    inversion Hst as [k p b _ _ _ Hx|k _ _ He' _|k p b _ _ He' _ _ _|k x _ _ He' _]; subst; try congruence.
    rewrite Hc in Hx. cbn [cross] in Hx. unfold retest in Hx. rewrite Hb in Hx. by injection Hx as <- <-.
Qed.

Definition demo_answers (setoptions : kernel_result) : answers :=
  {| a_fork := {| rc_ := 321; errno_ := 0 |}; a_wait := {| rc_ := 321; errno_ := 0 |};
     a_status := encode (Stopped 19 0);
     a_open := fun path => if bool_decide (path = "/proc/321/mem") then {| rc_ := 5; errno_ := 0 |}
                           else {| rc_ := -1; errno_ := 2 |};
     a_setoptions := setoptions |}.

Example ptrace_run_outcomes_witness :
  exists l', rtc (launch_step (H := debug_build) (worker_start (H := debug_build)
      {| path_ := "./echo"; args_ := ["./echo"]; has_machine := true |}
      (demo_answers {| rc_ := -1; errno_ := ESRCH |})) (fun _ => Ret tt)) launched l'
    /\ caller l' = Inside 0 /\ ended l' = Some (Ret tt).
Proof.
  assert (Hf : forked {| path_ := "./echo"; args_ := ["./echo"]; has_machine := true |}
                 (demo_answers {| rc_ := -1; errno_ := ESRCH |}) 19).
  { split; [by eexists|]. repeat split; cbn; lia. }
  destruct (proj2 (proj2 (proj2 (proj2 (ptrace_run_outcomes (H := debug_build) _ _ _ (fun _ => Ret tt) launched Hf
    (LaunchRefl _ _ _))))) ) as (_ & l' & Hr & Hc & He & _).
  - right. vm_compute. repeat split; discriminate.
  - by exists l'.
Defined.

(** The handle: [wait] works once, the second time it throws EINVAL; [state]
    is what the worker has stored last; a child that is gone cannot be
    killed. *)
Theorem handle_life (h : ptrace_runner_handle) (rc errno status e : Z) (r : kernel_result) :
  joinable h = true -> 0 <= rc ->
  (exists h', wait h = Ret h' /\ wait h' = Throw (system_error EINVAL) /\ state h' = state h)
  /\ (forall c, Child.wait rc status e (handle_child h) = Ret (status, c) ->
      exists h', save h c = Ret h' /\ state h' = state_ c
        /\ (pid_ c = -1 -> kill r h' = Throw invalid_argument)).
Proof.
  intros Hj Hrc. split.
  - unfold wait. rewrite Hj. eexists. split; [done|]. by split.
  - intros c Hw. unfold Child.wait in Hw. rewrite (proj2 (Z.ltb_ge _ _)) in Hw by done.
    assert (exists x, state_ c = Some x) as [x Hx] by (repeat case_match; try done; injection Hw as <-; by eexists).
    unfold save. rewrite Hx. eexists. split; [done|]. split; [done|]. intros Hp.
    unfold kill, terminate, Child.valid. cbn [handle_child]. by rewrite Hp.
Qed.

(** The child's side of the fork. With arguments the parent also accepts the
    child makes itself traceable, stops for the first waitpid of the parent and
    then asks for the program with the configured arguments; the configured
    environment has no influence. When execvp fails the exception does not make
    the child a second worker: it passes the handler of the thread and ends the
    process, except that ESRCH, which execvp does not answer, would end the
    thread as if a child had crashed. *)
Theorem child_side (args : list string) (path : string) (env : list string) (exec_errno : option Z) :
  (exists rest, args = path :: rest) ->
  let '(calls, res) := spawn_child args path env exec_errno in
  calls = [Traceme 0; Raise SIGSTOP; Execvp path args]
  /\ (forall env', spawn_child args path env' exec_errno = (calls, res))
  /\ (exec_errno = None -> res = Ret tt)
  /\ (forall e, exec_errno = Some e ->
      thread_body res = if e =? ESRCH then Ret tt else Throw (system_error e)).
Proof.
  intros [rest ->]. unfold spawn_child. rewrite bool_decide_eq_false_2 by auto.
  split; [done|]. split; [done|]. split; [by intros ->|]. by intros e ->.
Qed.
