(* ===== verification/Programs.v ===== *)
(** * The programs of the repository: demo/, benches/, src/simple.cpp

    The demo pair echo and squawk, the system call and Fibonacci benchmarks and
    the smoke test, as functions of what their calls answer.  The calls of
    benches/socket.cpp are answered by the hooks of Hooks.v; the address both
    demos use is decoded by [parse_addr] of Addr.v. *)

From Stdlib Require Import Strings.Byte.
From stdpp Require Import pretty.
From S2P Require Import Prelude Words Random Faults Socket Network FdTable Pipe Stream HookTable Runner Tracee Addr World Hooks.

(** The bytes of a string literal. *)
Definition bytes_of (s : string) : list byte := Stdlib.Strings.String.list_byte_of_string s.

Module Demo.

(** ** demo/demo.h *)

Definition path : string := "echo-file".
Definition iters : Z := 512.

(** [strncpy]: the string, filled up with zeros or cut. *)
Definition strncpy (s : list byte) (n : nat) : list byte := take n (s ++ replicate n x00).

(** The bytes of the [sockaddr_un]. *)
Definition get_addr : list byte := le_bytes 2 AF_UNIX ++ strncpy (bytes_of path) 108.

(** [check_return_value], [errno] being what the failed call has set. *)
Definition check_return_value (v errno : Z) : outcome unit :=
  if v <? 0 then Throw (system_error errno) else Ret tt.

(** ** demo/squawk.cpp *)

Definition message (i : Z) : list byte :=
  bytes_of ("hello from message " +:+ pretty i +:+ "!").

(** The [for (;;)] loop: [sends] are the results of [sendto], the result what
    was handed to it. A list that ends leaves the program in its loop. *)
Fixpoint squawk_loop (sends : list Z) (i : Z) : list (list byte) :=
  match sends with
  | [] => []
  | ret :: sends =>
      let rc := i32 ret in
      message i :: (if rc <? 0 then [] else if rc =? 0 then [] else squawk_loop sends (i + 1))
  end.

Definition squawk_main (s errno : Z) (sends : list Z) : outcome (list (list byte)) :=
  _ ← check_return_value s errno; Ret (squawk_loop sends 0).

(** ** demo/echo.cpp *)

(** What [recvfrom] answers. *)
Inductive received := Datagram (data : list byte) | RecvError (errno : Z).

(** ["%s"]: up to the first zero byte. *)
Fixpoint c_str (s : list byte) : list byte :=
  match s with [] => [] | c :: s => if bool_decide (c = x00) then [] else c :: c_str s end.

Definition echo_line (buf : list byte) : list byte :=
  bytes_of "received datagram: '" ++ c_str buf ++ bytes_of "'".

(** The loop with [todo] passes left: the lines printed, and how it ended. A
    datagram fills [buf], resized to 8192 bytes, from the front. *)
Fixpoint echo_loop (todo : nat) (recvs : list received) : list (list byte) * outcome unit :=
  match todo, recvs with
  | O, _ => ([], Ret tt)
  | S _, [] => ([], OutOfFuel)
  | S todo, RecvError errno :: _ => ([], check_return_value (-1) errno)
  | S todo, Datagram data :: recvs =>
      let buf := take (Z.to_nat 8192) data in
      if bool_decide (buf = bytes_of "done") then ([echo_line buf], Ret tt)
      else let '(lines, o) := echo_loop todo recvs in (echo_line buf :: lines, o)
  end.

Definition echo_main (s rc errno : Z) (recvs : list received) : list (list byte) * outcome unit :=
  match (_ ← check_return_value s errno; check_return_value rc errno) with
  | Ret _ => echo_loop (Z.to_nat iters) recvs
  | o => ([], o)
  end.

End Demo.

(** ** benches/fib.cpp *)

(** The loop: [a], [b] after [n] passes. *)
Definition fib_pass (ab : Z * Z) : Z * Z := let c := u64 (ab.1 + ab.2) in (ab.2, c).
Definition fib_loop (n : N) (a b : Z) : Z * Z := N.iter n fib_pass (a, b).

Definition fib_iters : N := 5000000000.

(** The number [main] prints. *)
Definition fib_main : Z := (fib_loop fib_iters 1 1).2.

(** ** benches/socket.cpp and src/simple.cpp, under the simulator *)

Section Sockets.
Context {Q M : Type} `{PriorityQueue Q} `{RunnerHandle M} `{Build}.

(** The wrapper of libc around a handled call: errors become -1. A call that is
    passed through gets [kernel] as its result. *)
Definition libc (kernel : Z) (r : hook_result) : Z :=
  let v := match r with Handled v => i64 v | Passthrough => kernel end in
  if (-4096 <? v) && (v <? 0) then -1 else v.

Definition socket_close (kernel : Z) (sim : simulator Q) (rep : replica M)
  : outcome (Z * simulator Q * replica M) :=
  '(r, sim, rep) ← sys_socket [AF_INET; SOCK_DGRAM; 0] sim rep;
  let s := i32 (libc kernel r) in
  '(_, sim, rep) ← sys_close [u64 s] sim rep;
  Ret (s, sim, rep).

(** [n] passes of the benchmark: the numbers it got. *)
Fixpoint bench_socket (kernel : Z) (n : nat) (sim : simulator Q) (rep : replica M)
  : outcome (list Z * simulator Q * replica M) :=
  match n with
  | O => Ret ([], sim, rep)
  | S n =>
      '(s, sim, rep) ← socket_close kernel sim rep;
      '(l, sim, rep) ← bench_socket kernel n sim rep;
      Ret (s :: l, sim, rep)
  end.

(** [main] of src/simple.cpp up to its [return 0]; what follows is dead code. *)
Definition simple_main (kernel : Z) (sim : simulator Q) (rep : replica M) : outcome (Z * simulator Q * replica M) :=
  '(r, sim, rep) ← sys_socket [AF_INET; SOCK_DGRAM; 0] sim rep;
  let s := i32 (libc kernel r) in
  _ ← assert_ (0 <? s);
  '(_, sim, rep) ← sys_close [u64 s] sim rep;
  Ret (0, sim, rep).

End Sockets.

(** ** Lemmas: Fibonacci *)

Fixpoint fib (n : nat) : Z :=
  match n with
  | O => 0
  | S n' => match n' with O => 1 | S n'' => fib n' + fib n'' end
  end.

Lemma fib_SS n : fib (S (S n)) = fib (S n) + fib n.
Proof. reflexivity. Qed.

Lemma fib_add m n : fib (m + S n) = fib (S m) * fib (S n) + fib m * fib n.
Proof.
  revert n. induction m as [|m IH]; intros n; [cbn [Nat.add]; change (fib 1) with 1; change (fib 0) with 0; lia|].
  replace (S m + S n)%nat with (m + S (S n))%nat by lia. rewrite IH, !fib_SS. ring.
Qed.

(** One pass moves one place along the sequence, modulo 2^64. *)
Lemma fib_loop_spec n k :
  fib_loop n (u64 (fib k)) (u64 (fib (S k)))
  = (u64 (fib (k + N.to_nat n)), u64 (fib (S (k + N.to_nat n)))).
Proof.
  unfold fib_loop. induction n as [|n IH] using N.peano_ind; [by rewrite Nat.add_0_r|].
  rewrite N.iter_succ, IH, N2Nat.inj_succ, Nat.add_succ_r. unfold fib_pass. cbn [fst snd].
  by rewrite u64_add_l, u64_add_r, fib_SS, Z.add_comm.
Qed.

(** Doubling, modulo 2^64: [F p] and [F (p+1)]. *)
Definition fib_double (x : Z * Z) : Z * Z :=
  let '(a, b) := x in (u64 (a * (2 * b - a)), u64 (a * a + b * b)).
Fixpoint fast_fib (p : positive) : Z * Z :=
  match p with
  | xH => (1, 1)
  | xO p => fib_double (fast_fib p)
  | xI p => let '(a, b) := fib_double (fast_fib p) in (b, u64 (a + b))
  end.

Lemma u64_shift a q : u64 (a + 2 ^ 64 * q) = u64 a.
Proof. unfold u64. by rewrite Z.mul_comm, Z_mod_plus_full. Qed.
Lemma u64_div a : a = u64 a + 2 ^ 64 * (a / 2 ^ 64).
Proof. unfold u64. pose proof (Z.div_mod a (2 ^ 64)). lia. Qed.

Lemma fib_double_u64 a b : fib_double (u64 a, u64 b) = fib_double (a, b).
Proof.
  unfold fib_double. pose proof (u64_div a) as Ha. pose proof (u64_div b) as Hb.
  set (p := a / 2 ^ 64) in *. set (q := b / 2 ^ 64) in *. set (x := u64 a) in *. set (y := u64 b) in *.
  clearbody p q x y. subst a b. f_equal.
  - rewrite <- (u64_shift (x * (2 * y - x)) (x * (2 * q - p) + p * (2 * y - x) + 2 ^ 64 * p * (2 * q - p))).
    f_equal. ring.
  - rewrite <- (u64_shift (x * x + y * y) (2 * x * p + 2 ^ 64 * p * p + 2 * y * q + 2 ^ 64 * q * q)).
    f_equal. ring.
Qed.

Lemma fib_double_spec p : (0 < p)%nat ->
  fib_double (u64 (fib p), u64 (fib (S p))) = (u64 (fib (2 * p)), u64 (fib (S (2 * p)))).
Proof.
  intros Hp. rewrite fib_double_u64. unfold fib_double. destruct p as [|p]; [lia|].
  replace (S (2 * S p)) with (S p + S (S p))%nat by lia. replace (2 * S p)%nat with (S p + S p)%nat by lia.
  rewrite !fib_add, !fib_SS. f_equal; f_equal; ring.
Qed.

Lemma fast_fib_spec p : fast_fib p = (u64 (fib (Pos.to_nat p)), u64 (fib (S (Pos.to_nat p)))).
Proof.
  induction p as [p IH|p IH|]; cbn [fast_fib]; [| |done].
  - rewrite IH, fib_double_spec, Pos2Nat.inj_xI by lia.
    by rewrite u64_add_l, u64_add_r, (fib_SS (2 * _)), (Z.add_comm (fib (2 * _))).
  - by rewrite IH, fib_double_spec, Pos2Nat.inj_xO by lia.
Qed.

Lemma succ_pos_nat n : Pos.to_nat (N.succ_pos n) = S (N.to_nat n).
Proof. destruct n as [|p]; [done|]. apply Pos2Nat.inj_succ. Qed.

(** ** Lemmas: the demos *)

Section DemoFacts.
Import Demo.

(** The sends that keep squawk in its loop. *)
Definition accepted (ret : Z) : Prop := 0 < i32 ret.

Lemma squawk_accepted sends rest i :
  Forall accepted sends ->
  squawk_loop (sends ++ rest) i
  = ((fun k => message (i + Z.of_nat k)) <$> seq 0 (length sends))
    ++ squawk_loop rest (i + Z.of_nat (length sends)).
Proof.
  intros Hs. revert i. induction Hs as [|ret sends Hr _ IH]; intros i; cbn [app squawk_loop length].
  { by rewrite Z.add_0_r. }
  unfold accepted in Hr. rewrite (proj2 (Z.ltb_ge _ _)), (proj2 (Z.eqb_neq _ _)) by lia.
  rewrite IH. cbn [seq fmap list_fmap app]. rewrite Z.add_0_r. f_equal.
  rewrite <- fmap_S_seq, <- list_fmap_compose. f_equal; [|f_equal; lia].
  apply list_fmap_ext. intros k x _. unfold compose. f_equal. lia.
Qed.

Lemma echo_prefix msgs rest todo : (length msgs <= todo)%nat ->
  Forall (fun m => take (Z.to_nat 8192) m <> bytes_of "done") msgs ->
  echo_loop todo ((Datagram <$> msgs) ++ rest)
  = let '(lines, o) := echo_loop (todo - length msgs) rest in
    (((fun m => echo_line (take (Z.to_nat 8192) m)) <$> msgs) ++ lines, o).
Proof.
  intros Hl Hm. revert todo Hl. induction Hm as [|m msgs Hne _ IH]; intros todo Hl.
  { cbn. rewrite Nat.sub_0_r. by destruct (echo_loop todo rest). }
  destruct todo as [|todo]; [cbn in Hl; lia|]. cbn [fmap list_fmap app echo_loop length Nat.sub].
  rewrite bool_decide_eq_false_2 by done. cbn [length] in Hl. rewrite (IH todo) by lia.
  by destruct (echo_loop (todo - length msgs) rest).
Qed.

(** The line echo prints for squawk's message number [k]. *)
Definition dialogue_line (k : nat) : list byte :=
  bytes_of ("received datagram: 'hello from message " +:+ pretty (Z.of_nat k) +:+ "!'").

Lemma messages_echo k : (k < 512)%nat ->
  take (Z.to_nat 8192) (message (0 + Z.of_nat k)) <> bytes_of "done"
  /\ echo_line (take (Z.to_nat 8192) (message (0 + Z.of_nat k))) = dialogue_line k.
Proof.
  assert (Hall : forallb (fun k =>
    negb (bool_decide (take (Z.to_nat 8192) (message (0 + Z.of_nat k)) = bytes_of "done"))
    && bool_decide (echo_line (take (Z.to_nat 8192) (message (0 + Z.of_nat k))) = dialogue_line k)) (seq 0 512) = true)
    by (vm_compute; reflexivity).
  intros Hk. rewrite forallb_forall in Hall. specialize (Hall k (proj2 (in_seq 512 0 k) ltac:(lia))).
  apply andb_true_iff in Hall as [H1 H2]. split; [|by apply bool_decide_eq_true in H2].
  by apply negb_true_iff, bool_decide_eq_false in H1.
Qed.

End DemoFacts.

(** ** Lemmas: the socket benchmark *)

Section BenchFacts.
Context {Q M : Type} `{PriorityQueue Q} `{RunnerHandle M} `{Build}.

(** A table without entries, and what is on its free stack. *)
Definition fresh_table (t : FdTable.table obj_id) : Prop :=
  FdTable.table_ t = ∅ /\ (FdTable.unused_ t = [] \/ FdTable.unused_ t = [FdTable.simulated]).

Definition one_free : FdTable.table obj_id := {| FdTable.table_ := ∅; FdTable.unused_ := [FdTable.simulated] |}.

(** The only number such a table hands out. *)
Lemma fresh_insert t (id : obj_id) : fresh_table t ->
  FdTable.insert id t
  = Ret (FdTable.simulated, {| FdTable.table_ := {[FdTable.simulated := Some id]}; FdTable.unused_ := [] |}).
Proof.
  intros [He Hu]. destruct t as [t u]. cbn in *. subst t. unfold FdTable.insert. cbn [FdTable.unused_ FdTable.table_].
  assert (Hst : FdTable.store FdTable.simulated id {| FdTable.table_ := ∅; FdTable.unused_ := [] |}
    = Ret (FdTable.simulated, {| FdTable.table_ := {[FdTable.simulated := Some id]}; FdTable.unused_ := [] |})).
  { unfold FdTable.store. rewrite !assert_true by done. cbn [mbind outcome_bind]. unfold FdTable.get.
    cbn [FdTable.table_]. rewrite lookup_empty. cbn [FdTable.table_ FdTable.unused_ mbind outcome_bind].
    rewrite assert_true by done. cbn [mbind outcome_bind]. by rewrite insert_insert_eq. }
  destruct Hu as [-> | ->]; [|exact Hst].
  rewrite map_size_empty. change (_ <=? _) with false. cbn iota.
  rewrite assert_true by done. cbn [mbind outcome_bind]. exact Hst.
Qed.

Lemma fresh_close (id : obj_id) :
  FdTable.close FdTable.simulated {| FdTable.table_ := {[FdTable.simulated := Some id]}; FdTable.unused_ := [] |}
  = Ret (0, one_free).
Proof.
  unfold FdTable.close. cbn [FdTable.table_]. rewrite lookup_singleton_eq.
  rewrite !assert_true by done. cbn [mbind outcome_bind FdTable.table_ FdTable.unused_].
  by rewrite delete_singleton_eq.
Qed.

Lemma socket_close_spec kernel (sim : simulator Q) (rep : replica M) : fresh_table (fd_table_ rep) ->
  exists sim', socket_close kernel sim rep = Ret (FdTable.simulated, sim', set_table one_free rep)
    /\ next_id sim' = Pos.succ (next_id sim).
Proof.
  intros Hf. unfold socket_close, sys_socket. change (i32 (arg [AF_INET; SOCK_DGRAM; 0] 0)) with AF_INET.
  change (i32 (arg [AF_INET; SOCK_DGRAM; 0] 1)) with SOCK_DGRAM.
  change (AF_INET =? AF_INET) with true. change (SOCK_DGRAM =? SOCK_STREAM) with false.
  change (SOCK_DGRAM =? SOCK_DGRAM) with true. cbn iota.
  destruct (make_datagram ipv4 sim) as [d sim1] eqn:E.
  assert (Hid : next_id sim1 = next_id sim).
  { unfold make_datagram in E. destruct (Pipe.seed _ _). by injection E as _ <-. }
  unfold new_obj. rewrite (fresh_insert _ _ Hf). cbn [mbind outcome_bind].
  change (FdTable.simulated <? 0) with false. cbn [mbind outcome_bind].
  unfold sys_close. change (i32 (arg _ 0)) with FdTable.simulated.
  change (negb (FdTable.is_simulated FdTable.simulated)) with false. cbn iota.
  cbn [set_table fd_table_]. rewrite fresh_close. cbn [mbind outcome_bind].
  eexists. split; [reflexivity|]. cbn. by rewrite Hid.
Qed.

End BenchFacts.

(** * Properties *)

(** The Fibonacci benchmark. After any number of passes [b] is a
    Fibonacci number modulo 2^64, the same one that repeated doubling computes
    in logarithmically many steps; with the benchmark's five thousand million
    passes it prints this number. *)
Theorem fib_bench_prints (n : N) :
  let '(a, b) := fib_loop n 1 1 in
  (a, b) = fast_fib (N.succ_pos n)
  /\ b = u64 (fib (N.to_nat n + 2)) /\ fib_main = 13567239988552824999.
Proof.
  assert (Hl : forall n, fib_loop n 1 1 = fast_fib (N.succ_pos n)).
  { intros k. pose proof (fib_loop_spec k 1) as Hk. change (u64 (fib 1)) with 1 in Hk.
    change (u64 (fib 2)) with 1 in Hk. rewrite Hk, fast_fib_spec.
    by rewrite succ_pos_nat. }
  destruct (fib_loop n 1 1) as [a b] eqn:E. rewrite Hl in E. split; [done|]. split.
  - rewrite fast_fib_spec in E. injection E as _ <-. by rewrite succ_pos_nat, (Nat.add_comm _ 2).
  - unfold fib_main. rewrite Hl. vm_compute. reflexivity.
Qed.

(** The demo pair. Whatever the runner's stack holds, the address both
    programs use is decoded to the same name (two letters short of the file
    name). Squawk sends its numbered messages as long as [sendto] accepts
    them, and echo, handed the messages of a squawk that got at least 512 of
    them through, prints exactly the first 512 lines and ends normally. Fed with
    anything else it prints what it gets up to "done", and an error of
    [recvfrom] ends it with that errno. *)
Theorem demo_dialogue {M} `{RunnerHandleOk M} (s1 s2 rc errno e : Z) (sends : list Z) (rest : list Demo.received)
    (msgs : list (list byte)) (garbage : list byte) (ptr : Z) (m : M) :
  0 <= s1 -> 0 <= s2 -> 0 <= rc -> Forall accepted sends -> (512 <= length sends)%nat ->
  (length msgs < 512)%nat -> Forall (fun m => take (Z.to_nat 8192) m <> bytes_of "done") msgs ->
  run_read ptr 110 m = (0, Demo.get_addr) ->
  let lines := (fun m => Demo.echo_line (take (Z.to_nat 8192) m)) <$> msgs in
  parse_addr garbage ptr 110 m = Ret (0, Unix {| path := bytes_of "ho-file" |})
  /\ (exists said, Demo.squawk_main s1 errno sends = Ret said /\ length said = length sends
       /\ Demo.echo_main s2 rc errno (Demo.Datagram <$> said) = (dialogue_line <$> seq 0 512, Ret tt))
  /\ Demo.echo_main s2 rc errno ((Demo.Datagram <$> msgs) ++ Demo.Datagram (bytes_of "done") :: rest)
     = (lines ++ [Demo.echo_line (bytes_of "done")], Ret tt)
  /\ Demo.echo_main s2 rc errno ((Demo.Datagram <$> msgs) ++ Demo.RecvError e :: rest)
     = (lines, Throw (system_error e)).
Proof.
  intros H1 H2 H3 Hs Hn Hl Hm Hr lines.
  assert (Hecho : forall recvs, Demo.echo_main s2 rc errno recvs = Demo.echo_loop 512 recvs).
  { intros recvs. unfold Demo.echo_main, Demo.check_return_value.
    rewrite (proj2 (Z.ltb_ge s2 0)), (proj2 (Z.ltb_ge rc 0)) by done. done. }
  split; [|split; [|split]].
  - change 110%nat with (length Demo.get_addr) in Hr.
    pose proof (parse_addr_reads garbage ptr Demo.get_addr m ltac:(vm_compute; split; discriminate) Hr) as Hp.
    change (Z.of_nat (length Demo.get_addr)) with 110 in Hp. rewrite Hp. reflexivity.
  - pose proof (squawk_accepted sends [] 0 Hs) as Hsq. rewrite app_nil_r in Hsq. cbn [Demo.squawk_loop] in Hsq.
    rewrite app_nil_r in Hsq. unfold Demo.squawk_main, Demo.check_return_value.
    rewrite (proj2 (Z.ltb_ge s1 0)) by done. cbn [mbind outcome_bind]. rewrite Hsq. eexists. split; [done|].
    split; [by rewrite length_fmap, length_seq|]. rewrite Hecho.
    replace (length sends) with (512 + (length sends - 512))%nat by lia. rewrite seq_app, !fmap_app.
    rewrite echo_prefix; [|by rewrite length_fmap, length_seq|].
    + rewrite length_fmap, length_seq, Nat.sub_diag. cbn [Demo.echo_loop].
      rewrite app_nil_r, <- list_fmap_compose.
      apply (f_equal (fun l => (l, Ret tt))), list_fmap_ext. intros i k [-> Hk]%lookup_seq.
      by apply messages_echo.
    + apply Forall_fmap, Forall_seq. intros k Hk. exact (proj1 (messages_echo k ltac:(lia))).
  - rewrite Hecho, echo_prefix by (done || lia). destruct (512 - length msgs)%nat as [|k] eqn:Ek; [lia|]. done.
  - rewrite Hecho, echo_prefix by (done || lia). destruct (512 - length msgs)%nat as [|k] eqn:Ek; [lia|].
    cbn. by rewrite app_nil_r.
Qed.

(** The socket benchmark under the simulator. From a fresh process any
    number of rounds of socket and close gets the same simulated number every
    time and leaves a table with that one number free; only the simulator's
    count of objects moves. The smoke test's assertion on the number holds. *)
Theorem bench_socket_reuses {Q M} `{PriorityQueue Q} `{RunnerHandle M} `{Build} (kernel : Z) (n : nat)
    (sim : simulator Q) (rep : replica M) :
  fresh_table (fd_table_ rep) ->
  (exists sim' rep', bench_socket kernel n sim rep = Ret (replicate n FdTable.simulated, sim', rep')
    /\ fresh_table (fd_table_ rep') /\ mem_ rep' = mem_ rep
    /\ Zpos (next_id sim') = Zpos (next_id sim) + Z.of_nat n)
  /\ exists sim' rep', simple_main kernel sim rep = Ret (0, sim', rep').
Proof.
  intros Hf. split.
  - revert sim rep Hf. induction n as [|n IH]; intros sim rep Hf; cbn [bench_socket replicate].
    { exists sim, rep. repeat split; try apply Hf; lia. }
    destruct (socket_close_spec kernel sim rep Hf) as (sim1 & -> & Hid). cbn [mbind outcome_bind].
    destruct (IH sim1 (set_table one_free rep)) as (sim2 & rep2 & -> & Hf2 & Hm & Hn); [by split; [|right]|].
    cbn [mbind outcome_bind]. exists sim2, rep2. split; [done|]. split; [done|]. split; [done|]. lia.
  - destruct (socket_close_spec kernel sim rep Hf) as (sim1 & Hsc & _). revert Hsc.
    unfold socket_close, simple_main. destruct (sys_socket _ sim rep) as [[[r s1] r1]| | | |]; try done.
    cbn [mbind outcome_bind]. destruct (sys_close _ s1 r1) as [[[r2 s2] r3]| | | |]; try done.
    cbn [mbind outcome_bind]. intros Hfd. rewrite assert_true by (injection Hfd as -> _ _; done).
    cbn. eauto.
Qed.

Example demo_dialogue_witness :
  Demo.echo_main 3 0 0 ([] ++ Demo.RecvError EINTR :: []) = ([], Throw (system_error EINTR)).
Proof.
  refine (proj2 (proj2 (proj2 (demo_dialogue 4 3 0 0 EINTR (replicate 512 21) [] [] [] 4096
    (write_memory 4096 Demo.get_addr (zeros 4096 112)).2 _ _ _ _ _ _ _ _)))); [lia..| | | | |].
  - by apply Forall_replicate.
  - rewrite length_replicate. lia.
  - cbn. lia.
  - by apply Forall_nil.
  - vm_compute. reflexivity.
Defined.

Import PacketList.

Example bench_socket_reuses_witness :
  exists sim' rep', bench_socket (H1 := debug_build) 0 3
      (make_simulator (Q := PacketList.queue) (default_sim_options 7)) (make_replica (zeros 0 0) 0)
    = Ret (replicate 3 FdTable.simulated, sim', rep')
    /\ fresh_table (fd_table_ rep') /\ mem_ rep' = mem_ (make_replica (zeros 0 0) 0)
    /\ Zpos (next_id sim') = Zpos (next_id (make_simulator (Q := PacketList.queue) (default_sim_options 7))) + Z.of_nat 3.
Proof.
  refine (proj1 (bench_socket_reuses (H1 := debug_build) 0 3
    (make_simulator (Q := PacketList.queue) (default_sim_options 7)) (make_replica (zeros 0 0) 0) _)).
  by split; [|left].
Defined.
