(* ===== verification/Varint.v ===== *)
(** * Variable-length integers: deps/sqlite3/sqlite3.c, util.c

    The 64-bit integers of SQLite's file format: the encoder, the unrolled
    decoder that works on two 32-bit accumulators, its 32-bit variant and the
    length function.  A byte is a [Z] in [0, 256); a buffer is the list of its
    bytes, and reading past its end is undefined. *)

From S2P Require Import Prelude Words.

(** ** Encoding *)

(** The [for(i=7; i>=0; i--)] loop: [n] bytes from the back. *)
Fixpoint put_nine (n : nat) (v : Z) (p : list Z) : list Z :=
  match n with
  | O => p
  | S n => put_nine n (Z.shiftr v 7) (Z.lor (Z.land v 0x7f) 0x80 :: p)
  end.

(** The [do ... while( v!=0 )] loop into [buf], which has [room] places left:
    what it appends. *)
Fixpoint put_groups (room : nat) (v : Z) : outcome (list Z) :=
  match room with
  | O => Undefined
  | S room =>
      let c := Z.lor (Z.land v 0x7f) 0x80 in
      let v := Z.shiftr v 7 in
      if v =? 0 then Ret [c] else rest ← put_groups room v; Ret (c :: rest)
  end.

(** The bytes written; their number is what the function returns. *)
Definition putVarint64 `{Build} (v : Z) : outcome (list Z) :=
  if negb (Z.land v (Z.shiftl 0xff000000 32) =? 0) then
    Ret (put_nine 8 (Z.shiftr v 8) [Z.land v 0xff])
  else
    buf ← put_groups 10 v;
    match buf with
    | [] => Undefined
    | c :: buf =>
        let buf := Z.land c 0x7f :: buf in
        _ ← assert_ (Z.of_nat (length buf) <=? 9);
        Ret (rev buf)
    end.

Definition sqlite3PutVarint `{Build} (v : Z) : outcome (list Z) :=
  if v <=? 0x7f then Ret [Z.land v 0x7f]
  else if v <=? 0x3fff then
    Ret [Z.lor (Z.land (Z.shiftr v 7) 0x7f) 0x80; Z.land v 0x7f]
  else putVarint64 v.

(** ** Decoding *)

Definition SLOT_2_0 : Z := 0x001fc07f.
Definition SLOT_4_2_0 : Z := 0xf01fc07f.

Definition rd (p : list Z) (i : nat) : outcome Z :=
  match p !! i with Some b => Ret b | None => Undefined end.

Definition signed_char (b : Z) : Z := if b <? 128 then b else b - 256.
Definition shl32 (a k : Z) : Z := u32 (Z.shiftl a k).
(** [((u64)s)<<32 | a] *)
Definition join64 (s a : Z) : Z := Z.lor (u64 (Z.shiftl s 32)) a.

(** The number of bytes read and the value. The names [a], [b], [s] are
    assigned again and again, as in the source. *)
Definition sqlite3GetVarint (p : list Z) : outcome (Z * Z) :=
  p0 ← rd p 0;
  if 0 <=? signed_char p0 then Ret (1, p0) else
  p1 ← rd p 1;
  if 0 <=? signed_char p1 then Ret (2, Z.lor (shl32 (Z.land p0 0x7f) 7) p1) else
  let a := shl32 p0 14 in
  let b := p1 in
  p2 ← rd p 2;
  let a := Z.lor a p2 in
  if Z.land a 0x80 =? 0 then
    let a := Z.land a SLOT_2_0 in
    let b := Z.land b 0x7f in
    let b := shl32 b 7 in
    let a := Z.lor a b in
    Ret (3, a)
  else
  let a := Z.land a SLOT_2_0 in
  p3 ← rd p 3;
  let b := shl32 b 14 in
  let b := Z.lor b p3 in
  if Z.land b 0x80 =? 0 then
    let b := Z.land b SLOT_2_0 in
    let a := shl32 a 7 in
    let a := Z.lor a b in
    Ret (4, a)
  else
  let b := Z.land b SLOT_2_0 in
  let s := a in
  p4 ← rd p 4;
  let a := shl32 a 14 in
  let a := Z.lor a p4 in
  if Z.land a 0x80 =? 0 then
    let b := shl32 b 7 in
    let a := Z.lor a b in
    let s := Z.shiftr s 18 in
    Ret (5, join64 s a)
  else
  let s := shl32 s 7 in
  let s := Z.lor s b in
  p5 ← rd p 5;
  let b := shl32 b 14 in
  let b := Z.lor b p5 in
  if Z.land b 0x80 =? 0 then
    let a := Z.land a SLOT_2_0 in
    let a := shl32 a 7 in
    let a := Z.lor a b in
    let s := Z.shiftr s 18 in
    Ret (6, join64 s a)
  else
  p6 ← rd p 6;
  let a := shl32 a 14 in
  let a := Z.lor a p6 in
  if Z.land a 0x80 =? 0 then
    let a := Z.land a SLOT_4_2_0 in
    let b := Z.land b SLOT_2_0 in
    let b := shl32 b 7 in
    let a := Z.lor a b in
    let s := Z.shiftr s 11 in
    Ret (7, join64 s a)
  else
  let a := Z.land a SLOT_2_0 in
  p7 ← rd p 7;
  let b := shl32 b 14 in
  let b := Z.lor b p7 in
  if Z.land b 0x80 =? 0 then
    let b := Z.land b SLOT_4_2_0 in
    let a := shl32 a 7 in
    let a := Z.lor a b in
    let s := Z.shiftr s 4 in
    Ret (8, join64 s a)
  else
  p8 ← rd p 8;
  let a := shl32 a 15 in
  let a := Z.lor a p8 in
  let b := Z.land b SLOT_2_0 in
  let b := shl32 b 8 in
  let a := Z.lor a b in
  let s := shl32 s 4 in
  b ← rd p 4;                       (* p[-4] *)
  let b := Z.land b 0x7f in
  let b := Z.shiftr b 3 in
  let s := Z.lor s b in
  Ret (9, join64 s a).

(** For buffers whose first byte has its high bit set (an assertion). *)
Definition sqlite3GetVarint32 `{Build} (p : list Z) : outcome (Z * Z) :=
  p0 ← rd p 0;
  _ ← assert_ (negb (Z.land p0 0x80 =? 0));
  p1 ← rd p 1;
  if Z.land p1 0x80 =? 0 then Ret (2, Z.lor (Z.shiftl (Z.land p0 0x7f) 7) p1) else
  p2 ← rd p 2;
  if Z.land p2 0x80 =? 0 then
    Ret (3, Z.lor (Z.lor (Z.shiftl (Z.land p0 0x7f) 14) (Z.shiftl (Z.land p1 0x7f) 7)) p2)
  else
  '(n, v64) ← sqlite3GetVarint p;
  _ ← assert_ ((3 <? n) && (n <=? 9));
  if negb (Z.land v64 0xffffffff =? v64) then Ret (n, 0xffffffff) else Ret (n, u32 v64).

(** The [for] loop, [fuel] bounding its passes. *)
Fixpoint varint_len_loop `{Build} (fuel : nat) (v i : Z) : outcome Z :=
  match fuel with
  | O => OutOfFuel
  | S fuel =>
      let v := Z.shiftr v 7 in
      if v =? 0 then Ret i
      else _ ← assert_ (i <? 10); varint_len_loop fuel v (i + 1)
  end.

Definition sqlite3VarintLen `{Build} (v : Z) : outcome Z := varint_len_loop 10 v 1.

(** ** Specification: seven bits at a time, and eight from the ninth byte *)

Fixpoint decode_from (groups : nat) (acc : Z) (p : list Z) : outcome (Z * Z) :=
  match groups, p with
  | _, [] => Undefined
  | O, b :: _ => Ret (1, acc * 256 + b)
  | S groups, b :: p =>
      if b <? 128 then Ret (1, acc * 128 + b)
      else '(n, v) ← decode_from groups (acc * 128 + (b - 128)) p; Ret (n + 1, v)
  end.

Definition decode (p : list Z) : outcome (Z * Z) := decode_from 8 0 p.

(** ** Lemmas: words as digits of seven bits *)

Fixpoint val (ds : list Z) : Z := match ds with [] => 0 | d :: ds => d + 128 * val ds end.

Definition digit (d : Z) : Prop := 0 <= d < 128.

Section Slots.

(** Bitwise operations work on the low [k] bits and the rest separately. *)
Lemma testbit_slots x y k i : 0 <= k -> 0 <= y < 2 ^ k ->
  Z.testbit (y + 2 ^ k * x) i = if i <? k then Z.testbit y i else Z.testbit x (i - k).
Proof.
  intros Hk Hy. destruct (Z.lt_ge_cases i 0) as [Hi|Hi].
  { rewrite !Z.testbit_neg_r by lia. by destruct (i <? k). }
  destruct (Z.ltb_spec i k).
  - rewrite <- (Z.mod_pow2_bits_low (y + 2 ^ k * x) k i) by lia. f_equal.
    rewrite (Z.mul_comm (2 ^ k)), Z_mod_plus_full. by apply Z.mod_small.
  - replace i with ((i - k) + k) at 1 by lia. rewrite <- Z.div_pow2_bits by lia. f_equal.
    rewrite (Z.mul_comm (2 ^ k)), Z_div_plus_full, Z.div_small by lia. lia.
Qed.

Lemma land_small y n k : 0 <= k -> 0 <= y < 2 ^ k -> 0 <= n < 2 ^ k -> 0 <= Z.land y n < 2 ^ k.
Proof.
  intros Hk Hy Hn. apply range_of_bits; [lia|apply Z.land_nonneg; lia|]. intros j Hj.
  by rewrite Z.land_spec, (testbit_high y k) by lia.
Qed.
Lemma lor_small y n k : 0 <= k -> 0 <= y < 2 ^ k -> 0 <= n < 2 ^ k -> 0 <= Z.lor y n < 2 ^ k.
Proof.
  intros Hk Hy Hn. apply range_of_bits; [lia|apply Z.lor_nonneg; lia|]. intros j Hj.
  by rewrite Z.lor_spec, (testbit_high y k), (testbit_high n k) by lia.
Qed.

Lemma land_slots x y m n k : 0 <= k -> 0 <= y < 2 ^ k -> 0 <= n < 2 ^ k ->
  Z.land (y + 2 ^ k * x) (n + 2 ^ k * m) = Z.land y n + 2 ^ k * Z.land x m.
Proof.
  intros Hk Hy Hn. pose proof (land_small y n k Hk Hy Hn). apply Z.bits_inj'. intros i Hi.
  rewrite Z.land_spec, !testbit_slots by done. destruct (i <? k); by rewrite Z.land_spec.
Qed.

Lemma lor_slots x y m n k : 0 <= k -> 0 <= y < 2 ^ k -> 0 <= n < 2 ^ k ->
  Z.lor (y + 2 ^ k * x) (n + 2 ^ k * m) = Z.lor y n + 2 ^ k * Z.lor x m.
Proof.
  intros Hk Hy Hn. pose proof (lor_small y n k Hk Hy Hn). apply Z.bits_inj'. intros i Hi.
  rewrite Z.lor_spec, !testbit_slots by done. destruct (i <? k); by rewrite Z.lor_spec.
Qed.

Lemma val_cons d ds : val (d :: ds) = d + 2 ^ 7 * val ds.
Proof. reflexivity. Qed.

(** Digit by digit, the shorter word filled up with zeros. *)
Fixpoint map2 (f : Z -> Z -> Z) (ds es : list Z) : list Z :=
  match ds, es with
  | [], _ => f 0 <$> es
  | _, [] => (fun d => f d 0) <$> ds
  | d :: ds, e :: es => f d e :: map2 f ds es
  end.

Lemma val_map_id ds : val (Z.lor 0 <$> ds) = val ds.
Proof. induction ds as [|d ds IH]; cbn [fmap list_fmap val]; [done|]. by rewrite Z.lor_0_l, IH. Qed.
Lemma val_map_id_r ds : val ((fun d => Z.lor d 0) <$> ds) = val ds.
Proof. induction ds as [|d ds IH]; cbn [fmap list_fmap val]; [done|]. by rewrite Z.lor_0_r, IH. Qed.
Lemma val_map_zero ds : val (Z.land 0 <$> ds) = 0.
Proof. induction ds as [|d ds IH]; cbn [fmap list_fmap val]; [done|]. by rewrite Z.land_0_l, IH. Qed.
Lemma val_map_zero_r ds : val ((fun d => Z.land d 0) <$> ds) = 0.
Proof. induction ds as [|d ds IH]; cbn [fmap list_fmap val]; [done|]. by rewrite Z.land_0_r, IH. Qed.

Lemma lor_val ds es : Forall digit ds -> Forall digit es ->
  Z.lor (val ds) (val es) = val (map2 Z.lor ds es).
Proof.
  intros Hd. revert es. induction Hd as [|d ds Hd _ IH]; intros es He; cbn [map2].
  { change (val []) with 0. by rewrite Z.lor_0_l, val_map_id. }
  destruct He as [|e es He Hes].
  { change (val []) with 0. by rewrite Z.lor_0_r, val_map_id_r. }
  unfold digit in *. rewrite !val_cons, lor_slots, IH by (done || lia). done.
Qed.

Lemma land_val ds es : Forall digit ds -> Forall digit es ->
  Z.land (val ds) (val es) = val (map2 Z.land ds es).
Proof.
  intros Hd. revert es. induction Hd as [|d ds Hd _ IH]; intros es He; cbn [map2].
  { change (val []) with 0. by rewrite Z.land_0_l, val_map_zero. }
  destruct He as [|e es He Hes].
  { change (val []) with 0. by rewrite Z.land_0_r, val_map_zero_r. }
  unfold digit in *. rewrite !val_cons, land_slots, IH by (done || lia). done.
Qed.

Lemma land_digit d : digit d -> Z.land d 127 = d.
Proof. intros Hd. change 127 with (Z.ones 7). rewrite Z.land_ones by lia. by apply Z.mod_small. Qed.
Lemma land_15 d : Z.land d 15 = d mod 16.
Proof. change 15 with (Z.ones 4). by rewrite Z.land_ones by lia. Qed.

End Slots.

(** Shifts and the cut to 32 bits: the fifth digit keeps four bits. *)
Lemma shl32_7 ds : shl32 (val ds) 7 = u32 (val (0 :: ds)).
Proof. unfold shl32. rewrite Z.shiftl_mul_pow2 by lia. cbn [val]. f_equal. lia. Qed.
Lemma shl32_14 ds : shl32 (val ds) 14 = u32 (val (0 :: 0 :: ds)).
Proof. unfold shl32. rewrite Z.shiftl_mul_pow2 by lia. cbn [val]. f_equal. lia. Qed.

Lemma val_bound ds : Forall digit ds -> 0 <= val ds < 2 ^ (7 * Z.of_nat (length ds)).
Proof.
  intros Hd. induction Hd as [|d ds Hd _ IH]; [done|]. cbn [length]. unfold digit in Hd. rewrite val_cons.
  replace (7 * Z.of_nat (S (length ds))) with (7 + 7 * Z.of_nat (length ds)) by lia.
  rewrite Z.pow_add_r by lia. nia.
Qed.
Lemma u32_short ds : Forall digit ds -> (length ds <= 4)%nat -> u32 (val ds) = val ds.
Proof.
  intros Hd Hl. apply u32_id. pose proof (val_bound ds Hd) as Hb. split; [lia|].
  assert (2 ^ (7 * Z.of_nat (length ds)) <= 2 ^ 28) by (apply Z.pow_le_mono_r; lia). lia.
Qed.
Lemma u32_long d0 d1 d2 d3 d4 ds : Forall digit [d0; d1; d2; d3] -> Forall digit (d4 :: ds) ->
  u32 (val (d0 :: d1 :: d2 :: d3 :: d4 :: ds)) = val [d0; d1; d2; d3; d4 mod 16].
Proof.
  intros Hd Hds. repeat apply Forall_cons in Hd as [? Hd]. unfold digit in *. unfold u32. cbn [val].
  set (r := val ds). clearbody r. Z.to_euclidean_division_equations. lia.
Qed.

Lemma digit_mod d : digit (d mod 16).
Proof. unfold digit. pose proof (Z.mod_pos_bound d 16). lia. Qed.
Lemma digit_0 : digit 0. Proof. unfold digit. lia. Qed.
Lemma digit_1 : digit 1. Proof. unfold digit. lia. Qed.
Lemma digit_127 : digit 127. Proof. unfold digit. lia. Qed.
Lemma digit_15 : digit 15. Proof. unfold digit. lia. Qed.

Create HintDb varint.
#[export] Hint Resolve digit_mod digit_0 digit_1 digit_127 digit_15 : varint.
Ltac digits := solve [repeat first [apply Forall_nil | apply Forall_cons; split | done | auto with varint]].

(** Bring every word of the goal to digits. *)
Ltac word_step :=
  match goal with
  | |- context [shl32 (val _) 14] => rewrite shl32_14
  | |- context [shl32 (val _) 7] => rewrite shl32_7
  | |- context [u32 (val (_ :: _ :: _ :: _ :: _ :: _))] => rewrite u32_long by digits
  | |- context [u32 (val ?ds)] => rewrite (u32_short ds) by (digits || (cbn; lia))
  | |- context [Z.lor (val _) (val _)] => rewrite lor_val by digits; cbn [map2 fmap list_fmap]
  | |- context [Z.land (val _) (val _)] => rewrite land_val by digits; cbn [map2 fmap list_fmap]
  | |- context [Z.land 1 1] => change (Z.land 1 1) with 1
  | |- context [0 mod 16] => change (0 mod 16) with 0
  | |- context [1 mod 16] => change (1 mod 16) with 1
  | |- context [Z.land 1 127] => change (Z.land 1 127) with 1
  | |- context [Z.land ?d 127] => rewrite (land_digit d) by digits
  | |- context [Z.land ?d 15] => rewrite (land_15 d)
  | |- context [Z.lor ?d 0] => rewrite (Z.lor_0_r d)
  | |- context [Z.lor 0 ?d] => rewrite (Z.lor_0_l d)
  | |- context [Z.land ?d 0] => rewrite (Z.land_0_r d)
  | |- context [Z.land 0 ?d] => rewrite (Z.land_0_l d)
  end.

Lemma slot_2_0 : SLOT_2_0 = val [127; 0; 127]. Proof. reflexivity. Qed.
Lemma slot_4_2_0 : SLOT_4_2_0 = val [127; 0; 127; 0; 15]. Proof. reflexivity. Qed.

(** A byte is a digit, possibly with the continuation bit. *)
Definition more (l : Z) : Z := val [l; 1].
Definition last (l : Z) : Z := val [l].

Definition byte (b : Z) : Prop := 0 <= b < 256.

Lemma byte_cases b : byte b -> (digit b /\ b = last b) \/ exists l, digit l /\ b = more l.
Proof.
  unfold byte, digit, last, more. intros Hb. destruct (Z.lt_ge_cases b 128); [left|right].
  - split; [lia|]. cbn [val]. lia.
  - exists (b - 128). split; [lia|]. cbn [val]. lia.
Qed.

Lemma signed_last l : digit l -> (0 <=? signed_char (last l)) = true.
Proof.
  unfold digit, last, signed_char. cbn [val]. intros. rewrite (proj2 (Z.ltb_lt _ _)) by lia. apply Z.leb_le. lia.
Qed.
Lemma signed_more l : digit l -> (0 <=? signed_char (more l)) = false.
Proof.
  unfold digit, more, signed_char. cbn [val]. intros. rewrite (proj2 (Z.ltb_ge _ _)) by lia. apply Z.leb_gt. lia.
Qed.

Lemma decode_last g acc l p : digit l -> decode_from (S g) acc (last l :: p) = Ret (1, acc * 128 + l).
Proof.
  intros Hl. cbn [decode_from]. unfold digit, last in *. cbn [val]. rewrite (proj2 (Z.ltb_lt _ _)) by lia.
  do 2 f_equal. lia.
Qed.
Lemma decode_more g acc l p : digit l ->
  decode_from (S g) acc (more l :: p) = ('(n, v) ← decode_from g (acc * 128 + l) p; Ret (n + 1, v)).
Proof.
  intros Hl. cbn [decode_from]. unfold digit, more in *. rewrite (proj2 (Z.ltb_ge _ _)) by (cbn [val]; lia).
  replace (val [l; 1] - 128) with l by (cbn [val]; lia). done.
Qed.

Lemma join64_add s a : 0 <= s < 2 ^ 32 -> 0 <= a < 2 ^ 32 -> join64 s a = a + 2 ^ 32 * s.
Proof.
  intros Hs Ha. unfold join64. rewrite Z.shiftl_mul_pow2, u64_id by lia.
  replace (s * 2 ^ 32) with (0 + 2 ^ 32 * s) by lia. replace a with (a + 2 ^ 32 * 0) at 1 by lia.
  rewrite lor_slots by lia. by rewrite Z.lor_0_l, Z.lor_0_r.
Qed.

(** One assignment, read or test of the decoder at a time. *)
Lemma let_norm {A B} (e e' : A) (f : A -> B) r : e = e' -> f e' = r -> f e = r.
Proof. by intros ->. Qed.
Lemma read_norm {A} b (o : outcome Z) (f : Z -> outcome A) r : o = Ret b -> f b = r -> (o ≫= f) = r.
Proof. by intros ->. Qed.
Lemma test_norm {A} (x y : Z) (b : bool) (u v r : A) :
  x = y -> (y =? 0) = b -> (if b then u else v) = r -> (if x =? 0 then u else v) = r.
Proof. by intros -> ->. Qed.

Ltac word_norm :=
  change 0x80 with (val [0; 1]); change 0x7f with (val [127]); rewrite ?slot_2_0, ?slot_4_2_0;
  unfold more, last; repeat word_step; reflexivity.

Ltac decoder_step :=
  lazymatch goal with
  | |- (let x := ?e in @?f x) = ?r => refine (let_norm e _ f r _ _); [word_norm|cbv beta]
  | |- (rd _ _ ≫= _) = _ => eapply read_norm; [reflexivity|cbv beta]
  | |- (if 0 <=? _ then _ else _) = _ => rewrite ?signed_more, ?signed_last by done; cbv iota
  | |- (if _ =? 0 then _ else _) = _ => eapply test_norm; [word_norm|vm_compute; reflexivity|cbv iota]
  end.

Ltac decoder := cbv delta [sqlite3GetVarint] beta; repeat decoder_step.

(** The two halves of the value put together. *)
Ltac finish_word :=
  unfold digit in *; rewrite join64_add; rewrite ?Z.shiftr_div_pow2 by lia; cbn [val];
  Z.to_euclidean_division_equations; lia.

(** The ninth byte counts fully. *)
Lemma nine_low l4 l5 l6 l7 b : Forall digit [l4; l5; l6; l7] -> byte b ->
  Z.lor (Z.lor (shl32 (val [l6; 0; l4; 0; 0]) 15) b) (shl32 (val [l7; 0; l5; 0; 0]) 8)
  = b + 256 * val [l7; l6; l5; l4 mod 8].
Proof.
  intros Hd Hb. repeat apply Forall_cons in Hd as [? Hd]. unfold byte in Hb.
  assert (E1 : shl32 (val [l6; 0; l4; 0; 0]) 15 = 0 + 2 ^ 8 * val [0; l6; 0; l4 mod 8]).
  { unfold shl32, u32, digit in *. rewrite Z.shiftl_mul_pow2 by lia. cbn [val].
    Z.to_euclidean_division_equations. lia. }
  assert (E2 : shl32 (val [l7; 0; l5; 0; 0]) 8 = 0 + 2 ^ 8 * val [l7; 0; l5; 0]).
  { unfold shl32, u32, digit in *. rewrite Z.shiftl_mul_pow2 by lia. cbn [val].
    Z.to_euclidean_division_equations. lia. }
  assert (Hm : digit (l4 mod 8)) by (unfold digit; pose proof (Z.mod_pos_bound l4 8); lia).
  rewrite E1, E2. replace b with (b + 2 ^ 8 * 0) at 1 by lia.
  rewrite lor_slots, Z.lor_0_l, Z.lor_0_r by lia.
  rewrite lor_slots, Z.lor_0_r, lor_val by (lia || digits). cbn [map2 fmap list_fmap].
  by rewrite !Z.lor_0_l, !Z.lor_0_r.
Qed.

Lemma nine_high l0 l1 l2 l3 l4 : Forall digit [l0; l1; l2; l3; l4] ->
  Z.lor (shl32 (val [l3; l2; l1; l0; 0]) 4) (Z.shiftr (val [l4; 0]) 3) = l4 / 8 + 16 * val [l3; l2; l1; l0].
Proof.
  intros Hd. repeat apply Forall_cons in Hd as [? Hd].
  assert (E1 : shl32 (val [l3; l2; l1; l0; 0]) 4 = 0 + 2 ^ 4 * val [l3; l2; l1; l0]).
  { unfold shl32, digit in *. rewrite Z.shiftl_mul_pow2, u32_id by (cbn [val]; lia). cbn [val]. lia. }
  assert (E2 : Z.shiftr (val [l4; 0]) 3 = l4 / 8 + 2 ^ 4 * 0).
  { rewrite Z.shiftr_div_pow2 by lia. cbn [val]. change (2 ^ 3) with 8. rewrite Z.mul_0_r, !Z.add_0_r. done. }
  unfold digit in *. assert (0 <= l4 / 8 < 2 ^ 4) by (Z.to_euclidean_division_equations; lia).
  rewrite E1, E2, lor_slots, Z.lor_0_l, Z.lor_0_r by lia. done.
Qed.

Ltac leaf_digits Hd := repeat apply Forall_cons in Hd as [? Hd].

Lemma leaf_5678 l0 l1 l2 l3 l4 l5 l6 l7 p : Forall digit [l0; l1; l2; l3; l4; l5; l6; l7] ->
  sqlite3GetVarint (more l0 :: more l1 :: more l2 :: more l3 :: last l4 :: p)
    = Ret (5, val [l4; l3; l2; l1; l0])
  /\ sqlite3GetVarint (more l0 :: more l1 :: more l2 :: more l3 :: more l4 :: last l5 :: p)
    = Ret (6, val [l5; l4; l3; l2; l1; l0])
  /\ sqlite3GetVarint (more l0 :: more l1 :: more l2 :: more l3 :: more l4 :: more l5 :: last l6 :: p)
    = Ret (7, val [l6; l5; l4; l3; l2; l1; l0])
  /\ sqlite3GetVarint (more l0 :: more l1 :: more l2 :: more l3 :: more l4 :: more l5 :: more l6 :: last l7 :: p)
    = Ret (8, val [l7; l6; l5; l4; l3; l2; l1; l0]).
Proof.
  intros Hd. leaf_digits Hd. split; [|split; [|split]]; decoder; do 2 f_equal; finish_word.
Qed.

Lemma leaf_9 l0 l1 l2 l3 l4 l5 l6 l7 b p : Forall digit [l0; l1; l2; l3; l4; l5; l6; l7] -> byte b ->
  sqlite3GetVarint (more l0 :: more l1 :: more l2 :: more l3 :: more l4 :: more l5 :: more l6 :: more l7 :: b :: p)
    = Ret (9, b + 256 * val [l7; l6; l5; l4; l3; l2; l1; l0]).
Proof.
  intros Hd Hb. pose proof Hd as Hd'. leaf_digits Hd. decoder.
  rewrite nine_low, nine_high by (done || digits). unfold byte in Hb. do 2 f_equal.
  assert (0 <= l4 mod 8 < 8) by (apply Z.mod_pos_bound; lia). finish_word.
Qed.

(** Where the encoding ends: both sides are numbers in the digits. *)
Ltac agree_last :=
  rewrite decode_last by done; cbn [mbind outcome_bind];
  decoder; unfold more, last; change 0x7f with (val [127]); repeat word_step; cbn [val]; do 2 f_equal; lia.

Ltac long_last H :=
  rewrite decode_last by done; destruct H as (? & ? & ? & ?);
  match goal with E : ?l = Ret _ |- ?l = _ => rewrite E end;
  cbn [val mbind outcome_bind]; do 2 f_equal; lia.

(** The decoder agrees with the specification on every buffer. *)
Lemma decoder_agrees p : Forall byte p -> sqlite3GetVarint p = decode p.
Proof.
  intros Hp. unfold decode.
  assert (Hz : digit 0) by auto with varint.
  destruct Hp as [|p0 p H0 Hp]; [done|].
  destruct (byte_cases p0 H0) as [[D0 ->]|(l0 & D0 & ->)]; [agree_last|]. rewrite decode_more by done.
  destruct Hp as [|p1 p H1 Hp]; [decoder; done|].
  destruct (byte_cases p1 H1) as [[D1 ->]|(l1 & D1 & ->)]; [agree_last|]. rewrite decode_more by done.
  destruct Hp as [|p2 p H2 Hp]; [decoder; done|].
  destruct (byte_cases p2 H2) as [[D2 ->]|(l2 & D2 & ->)]; [agree_last|]. rewrite decode_more by done.
  destruct Hp as [|p3 p H3 Hp]; [decoder; done|].
  destruct (byte_cases p3 H3) as [[D3 ->]|(l3 & D3 & ->)]; [agree_last|]. rewrite decode_more by done.
  destruct Hp as [|p4 p H4 Hp]; [decoder; done|].
  destruct (byte_cases p4 H4) as [[D4 ->]|(l4 & D4 & ->)]; [long_last (leaf_5678 l0 l1 l2 l3 p4 0 0 0 p ltac:(digits))|].
  rewrite decode_more by done.
  destruct Hp as [|p5 p H5 Hp]; [decoder; done|].
  destruct (byte_cases p5 H5) as [[D5 ->]|(l5 & D5 & ->)]; [long_last (leaf_5678 l0 l1 l2 l3 l4 p5 0 0 p ltac:(digits))|].
  rewrite decode_more by done.
  destruct Hp as [|p6 p H6 Hp]; [decoder; done|].
  destruct (byte_cases p6 H6) as [[D6 ->]|(l6 & D6 & ->)]; [long_last (leaf_5678 l0 l1 l2 l3 l4 l5 p6 0 p ltac:(digits))|].
  rewrite decode_more by done.
  destruct Hp as [|p7 p H7 Hp]; [decoder; done|].
  destruct (byte_cases p7 H7) as [[D7 ->]|(l7 & D7 & ->)]; [long_last (leaf_5678 l0 l1 l2 l3 l4 l5 l6 p7 p ltac:(digits))|].
  rewrite decode_more by done.
  destruct Hp as [|p8 p H8 Hp]; [decoder; done|].
  rewrite leaf_9 by (done || digits). cbn [decode_from val mbind outcome_bind]. do 2 f_equal; lia.
Qed.

(** ** Lemmas: the encoder *)

Lemma group_byte v : 0 <= v -> Z.lor (Z.land v 0x7f) 0x80 = more (v mod 128).
Proof.
  intros Hv. assert (Hd : digit (v mod 128)) by (unfold digit; apply Z.mod_pos_bound; lia).
  change 0x7f with (Z.ones 7). rewrite Z.land_ones by lia. change (2 ^ 7) with 128.
  replace (v mod 128) with (val [v mod 128]) at 1 by (cbn [val]; lia). change 0x80 with (val [0; 1]).
  rewrite lor_val by digits. cbn [map2 fmap list_fmap]. by rewrite Z.lor_0_r.
Qed.

Lemma last_byte l : digit l -> Z.land (more l) 0x7f = last l.
Proof.
  intros Hl. unfold more, last. change 0x7f with (val [127]). repeat word_step. cbn [val]. lia.
Qed.

(** The digits of a number, least significant first. *)
Fixpoint digs (n : nat) (v : Z) : list Z :=
  match n with O => [] | S n => v mod 128 :: digs n (v / 128) end.

Lemma digs_digit n v : Forall digit (digs n v).
Proof. revert v. induction n; intros v; constructor; [unfold digit; apply Z.mod_pos_bound; lia|done]. Qed.
Lemma digs_length n v : length (digs n v) = n.
Proof. revert v. induction n; intros v; cbn; auto. Qed.
Lemma digs_val n v : 0 <= v < 128 ^ Z.of_nat n -> val (digs n v) = v.
Proof.
  revert v. induction n as [|n IH]; intros v Hv; cbn [digs val].
  { change (128 ^ Z.of_nat 0) with 1 in Hv. lia. }
  rewrite Nat2Z.inj_succ, Z.pow_succ_r in Hv by lia. rewrite IH.
  - pose proof (Z.div_mod v 128). lia.
  - split; [apply Z.div_pos; lia|]. apply Z.div_lt_upper_bound; lia.
Qed.

(** A number of at most [n] digits whose last one is needed. *)
Definition needs (n : nat) (v : Z) : Prop :=
  (0 < n)%nat /\ 0 <= v < 128 ^ Z.of_nat n /\ (n = 1%nat \/ 128 ^ (Z.of_nat n - 1) <= v).

Lemma needs_step n v : needs n (v / 128) -> 128 <= v -> needs (S n) v.
Proof.
  intros (Hn & Hv & Hm) Hg. split; [lia|]. rewrite Nat2Z.inj_succ, Z.pow_succ_r by lia.
  pose proof (Z.div_mod v 128). pose proof (Z.mod_pos_bound v 128). split; [lia|]. right.
  replace (Z.succ (Z.of_nat n) - 1) with (Z.of_nat n) by lia.
  destruct Hm as [-> |Hm]; [done|]. replace (Z.of_nat n) with (Z.succ (Z.of_nat n - 1)) by lia.
  rewrite Z.pow_succ_r by lia. lia.
Qed.

Lemma exists_needs v : 0 <= v < 2 ^ 64 -> exists n, needs n v /\ (n <= 10)%nat.
Proof.
  intros Hv. assert (Hall : forall k v, (0 < k)%nat -> 0 <= v < 128 ^ Z.of_nat k -> exists n, needs n v /\ (n <= k)%nat).
  { clear v Hv. intros k. induction k as [|k IH]; intros v Hk Hv; [lia|].
    destruct (Z.lt_ge_cases v 128) as [Hs|Hs].
    { exists 1%nat. split; [split; [lia|split; [change (128 ^ Z.of_nat 1) with 128; lia|by left]]|lia]. }
    rewrite Nat2Z.inj_succ, Z.pow_succ_r in Hv by lia.
    assert (0 < k)%nat by (destruct k; [change (128 ^ Z.of_nat 0) with 1 in Hv; lia|lia]).
    destruct (IH (v / 128)) as (n & Hn & Hl); [done| |].
    - split; [apply Z.div_pos; lia|]. apply Z.div_lt_upper_bound; lia.
    - exists (S n). split; [by apply needs_step|lia]. }
  apply (Hall 10%nat); [lia|]. change (128 ^ Z.of_nat 10) with (2 ^ 70). lia.
Qed.

Lemma shiftr_7 v : Z.shiftr v 7 = v / 128.
Proof. by rewrite Z.shiftr_div_pow2 by lia. Qed.

Lemma needs_pred n v : needs (S n) v -> (n = 0%nat /\ v / 128 = 0) \/ ((0 < n)%nat /\ v / 128 <> 0 /\ needs n (v / 128)).
Proof.
  intros (_ & Hv & Hm). rewrite Nat2Z.inj_succ, Z.pow_succ_r in Hv by lia.
  destruct n as [|n]; [left; split; [done|]; apply Z.div_small; change (128 ^ Z.of_nat 0) with 1 in Hv; lia|right].
  destruct Hm as [[=]|Hm]. replace (Z.of_nat (S (S n)) - 1) with (Z.succ (Z.of_nat n)) in Hm by lia.
  rewrite Z.pow_succ_r in Hm by lia. assert (128 ^ Z.of_nat n <= v / 128) by (apply Z.div_le_lower_bound; lia).
  assert (0 < 128 ^ Z.of_nat n) by (apply Z.pow_pos_nonneg; lia).
  split; [lia|]. split; [lia|]. split; [lia|]. split.
  - split; [lia|]. apply Z.div_lt_upper_bound; lia.
  - right. by replace (Z.of_nat (S n) - 1) with (Z.of_nat n) by lia.
Qed.

Lemma put_groups_spec n room v : needs n v -> (n <= room)%nat -> put_groups room v = Ret (more <$> digs n v).
Proof.
  revert room v. induction n as [|n IH]; intros room v Hn Hr; [destruct Hn; lia|].
  destruct room as [|room]; [lia|]. cbn [put_groups digs fmap list_fmap].
  rewrite group_byte, shiftr_7 by apply Hn.
  destruct (needs_pred n v Hn) as [[-> Hz]|(Hp & Hz & Hn')].
  - by rewrite (proj2 (Z.eqb_eq _ _) Hz).
  - rewrite (proj2 (Z.eqb_neq _ _) Hz), (IH room) by (done || lia). done.
Qed.

Lemma put_nine_spec n v p : 0 <= v -> put_nine n v p = (more <$> rev (digs n v)) ++ p.
Proof.
  revert v p. induction n as [|n IH]; intros v p Hv; [done|]. cbn [put_nine digs rev].
  rewrite group_byte, shiftr_7, IH by (done || (apply Z.div_pos; lia)).
  rewrite fmap_app, <- app_assoc. done.
Qed.

(** Decoding continuation bytes. *)
Lemma decode_run ls g acc q : Forall digit ls -> (length ls <= g)%nat ->
  decode_from g acc ((more <$> ls) ++ q)
  = ('(n, v) ← decode_from (g - length ls) (fold_left (fun a l => a * 128 + l) ls acc) q;
     Ret (n + Z.of_nat (length ls), v)).
Proof.
  intros Hd. revert g acc. induction Hd as [|l ls Hl _ IH]; intros g acc Hg; cbn [fmap list_fmap app fold_left length].
  { rewrite Nat.sub_0_r. destruct (decode_from g acc q) as [[n v]| | | |]; try done. cbn. do 2 f_equal. lia. }
  destruct g as [|g]; [cbn in Hg; lia|]. cbn [length] in Hg. rewrite decode_more, IH by (done || lia). cbn [Nat.sub].
  destruct (decode_from _ _ q) as [[n v]| | | |]; try done. cbn. do 2 f_equal. lia.
Qed.

Lemma fold_val ls acc :
  fold_left (fun a l => a * 128 + l) (rev ls) acc = acc * 128 ^ Z.of_nat (length ls) + val ls.
Proof.
  revert acc. induction ls as [|l ls IH]; intros acc; [cbn; lia|].
  cbn [rev length val]. rewrite fold_left_app, IH. cbn [fold_left].
  rewrite Nat2Z.inj_succ, Z.pow_succ_r by lia. ring.
Qed.

Lemma wide_test v : 0 <= v < 2 ^ 64 ->
  (Z.land v (Z.shiftl 0xff000000 32) =? 0) = (v <? 2 ^ 56).
Proof.
  intros Hv. rewrite Z.shiftl_mul_pow2 by lia. replace (0xff000000 * 2 ^ 32) with (0 + 2 ^ 56 * 0xff) by lia.
  set (x := v / 2 ^ 56). assert (Hx : 0 <= x < 2 ^ 8) by (unfold x; Z.to_euclidean_division_equations; lia).
  assert (Hm : 0 <= v mod 2 ^ 56 < 2 ^ 56) by (apply Z.mod_pos_bound; lia).
  pose proof (Z.div_mod v (2 ^ 56) ltac:(lia)) as E. rewrite (Z.add_comm (2 ^ 56 * _)) in E.
  rewrite E at 1. rewrite land_slots, Z.land_0_r by lia. change 0xff with (Z.ones 8).
  rewrite Z.land_ones, Z.mod_small by lia. fold x in E |- *.
  destruct (Z.eqb_spec (0 + 2 ^ 56 * x) 0), (Z.ltb_spec v (2 ^ 56)); lia.
Qed.

Section Encode.
Context `{Build}.

Lemma putVarint64_short n v : needs n v -> v < 2 ^ 56 ->
  putVarint64 v = Ret (rev (match digs n v with l :: ls => last l :: (more <$> ls) | [] => [] end)).
Proof.
  intros Hn Hv. assert (Hn' : (n <= 8)%nat).
  { destruct Hn as (_ & Hb & Hm). destruct (decide (n <= 8)%nat) as [|Hgt]; [done|].
    destruct Hm as [-> |Hm]; [lia|].
    assert (128 ^ 8 <= 128 ^ (Z.of_nat n - 1)) by (apply Z.pow_le_mono_r; lia).
    change (128 ^ 8) with (2 ^ 56) in *. lia. }
  pose proof Hn as (Hpos & Hb & _). unfold putVarint64. rewrite wide_test, (proj2 (Z.ltb_lt _ _)) by lia. cbn [negb].
  rewrite (put_groups_spec n) by (done || lia). cbn [mbind outcome_bind].
  destruct n as [|n]; [lia|]. cbn [digs fmap list_fmap].
  rewrite last_byte by (unfold digit; apply Z.mod_pos_bound; lia).
  rewrite assert_true; [done|]. apply Z.leb_le. cbn [length]. rewrite length_fmap, digs_length. lia.
Qed.

(** All the encodings: digits with the continuation bit, then the last byte. *)
Lemma put_short n v : needs n v -> v < 2 ^ 56 ->
  sqlite3PutVarint v = Ret (rev (match digs n v with l :: ls => last l :: (more <$> ls) | [] => [] end)).
Proof.
  intros Hn Hv. pose proof Hn as (Hpos & Hb & Hm). unfold sqlite3PutVarint.
  destruct (Z.leb_spec v 0x7f) as [H1|H1]; [|destruct (Z.leb_spec v 0x3fff) as [H2|H2]].
  - assert (n = 1%nat) as ->.
    { destruct Hm as [|Hm]; [done|]. destruct (decide (n <= 1)%nat); [lia|].
      assert (128 ^ 1 <= 128 ^ (Z.of_nat n - 1)) by (apply Z.pow_le_mono_r; lia). lia. }
    cbn [digs rev app]. unfold last. cbn [val fmap list_fmap rev app]. change 0x7f with (Z.ones 7). rewrite Z.land_ones by lia.
    change (2 ^ 7) with 128. do 2 f_equal. lia.
  - assert (n = 2%nat) as ->.
    { destruct Hm as [-> |Hm]; [change (128 ^ Z.of_nat 1) with 128 in Hb; lia|].
      destruct (decide (n <= 2)%nat).
      - destruct (decide (n = 2)%nat); [done|]. assert (n = 1%nat) as -> by lia.
        change (128 ^ Z.of_nat 1) with 128 in Hb. lia.
      - assert (128 ^ 2 <= 128 ^ (Z.of_nat n - 1)) by (apply Z.pow_le_mono_r; lia). lia. }
    cbn [digs fmap list_fmap rev app]. rewrite shiftr_7, group_byte by (apply Z.div_pos; lia).
    unfold last. cbn [val]. change 0x7f with (Z.ones 7). rewrite Z.land_ones by lia.
    change (2 ^ 7) with 128. do 3 f_equal. lia.
  - by apply putVarint64_short.
Qed.

Lemma put_long v : 2 ^ 56 <= v < 2 ^ 64 ->
  sqlite3PutVarint v = Ret ((more <$> rev (digs 8 (v / 256))) ++ [v mod 256]).
Proof.
  intros Hv. unfold sqlite3PutVarint. rewrite (proj2 (Z.leb_gt _ _)), (proj2 (Z.leb_gt _ _)) by lia.
  unfold putVarint64. rewrite wide_test, (proj2 (Z.ltb_ge _ _)) by lia. cbn [negb].
  rewrite Z.shiftr_div_pow2, put_nine_spec by (lia || (apply Z.div_pos; lia)).
  change 0xff with (Z.ones 8). by rewrite Z.land_ones by lia.
Qed.

End Encode.

(** ** Lemmas: the 32-bit decoder and the length *)

Lemma decode_bounds g acc p n v : Forall byte p -> 0 <= acc -> decode_from g acc p = Ret (n, v) ->
  1 <= n <= Z.of_nat g + 1 /\ 0 <= v.
Proof.
  intros Hp. revert g acc n v. induction Hp as [|b p Hb _ IH]; intros g acc n v Ha Hd; [by destruct g|].
  unfold byte in Hb. destruct g as [|g]; cbn [decode_from] in Hd; [injection Hd as <- <-; lia|].
  destruct (Z.ltb_spec b 128); [injection Hd as <- <-; lia|].
  apply bind_Ret_inv in Hd as ([n' v'] & Hd & [= <- <-]). apply IH in Hd; lia.
Qed.

Lemma clamp32 v : 0 <= v ->
  (Z.land v 0xffffffff =? v) = (v <=? 0xffffffff).
Proof.
  intros Hv. change 0xffffffff with (Z.ones 32) at 1. rewrite Z.land_ones by lia.
  pose proof (Z.mod_pos_bound v (2 ^ 32)). destruct (Z.leb_spec v 0xffffffff).
  - rewrite Z.mod_small by lia. apply Z.eqb_refl.
  - apply Z.eqb_neq. lia.
Qed.

(** What a value that does not fit becomes. *)
Definition clamped (o : outcome (Z * Z)) : outcome (Z * Z) :=
  '(n, v) ← o; Ret (n, if v <=? 0xffffffff then v else 0xffffffff).

Lemma more_bit l : digit l -> (Z.land (more l) 0x80 =? 0) = false.
Proof. intros Hl. unfold more. change 0x80 with (val [0; 1]). repeat word_step. done. Qed.
Lemma last_bit l : digit l -> (Z.land (last l) 0x80 =? 0) = true.
Proof. intros Hl. unfold last. change 0x80 with (val [0; 1]). repeat word_step. done. Qed.

Lemma clamp_small n v : 0 <= v < 2 ^ 32 -> clamped (Ret (n, v)) = Ret (n, v).
Proof. intros Hv. cbn. by rewrite (proj2 (Z.leb_le _ _)) by lia. Qed.

Lemma get32_agrees `{Build} p0 p : Forall byte (p0 :: p) -> 128 <= p0 ->
  sqlite3GetVarint32 (p0 :: p) = clamped (decode (p0 :: p)).
Proof.
  intros Hp Hc. pose proof (decoder_agrees _ Hp) as Hd. apply Forall_cons in Hp as [H0 Hp].
  destruct (byte_cases p0 H0) as [[D0 E]|(l0 & D0 & ->)].
  { unfold byte, digit, last in *. cbn [val] in E. lia. }
  unfold sqlite3GetVarint32, decode in *. cbn [rd lookup list_lookup mbind outcome_bind].
  rewrite more_bit, assert_true by done. cbn [mbind outcome_bind].
  rewrite decode_more in * by done. destruct Hp as [|p1 p H1 Hp]; [done|]. cbn [rd lookup list_lookup mbind outcome_bind].
  destruct (byte_cases p1 H1) as [[D1 ->]|(l1 & D1 & ->)].
  { rewrite last_bit, decode_last by done. cbn [mbind outcome_bind]. rewrite clamp_small by (unfold digit in *; lia).
    do 2 f_equal. rewrite last_byte by done. unfold last. cbn [val]. rewrite Z.shiftl_mul_pow2 by lia. unfold digit in *.
    replace ((l0 + 128 * 0) * 2 ^ 7) with (0 + 2 ^ 7 * l0) by lia.
    replace (p1 + 128 * 0) with (p1 + 2 ^ 7 * 0) by lia. rewrite lor_slots, Z.lor_0_l, Z.lor_0_r by lia. lia. }
  rewrite more_bit by done. rewrite decode_more in * by done.
  destruct Hp as [|p2 p H2 Hp]; [done|]. cbn [rd lookup list_lookup mbind outcome_bind].
  destruct (byte_cases p2 H2) as [[D2 ->]|(l2 & D2 & ->)].
  { rewrite last_bit, decode_last by done. cbn [mbind outcome_bind]. rewrite clamp_small by (unfold digit in *; lia).
    do 2 f_equal. rewrite !last_byte by done. unfold last.
    replace (Z.shiftl (val [l0]) 14) with (val [0; 0; l0]) by (cbn [val]; rewrite Z.shiftl_mul_pow2; lia).
    replace (Z.shiftl (val [l1]) 7) with (val [0; l1]) by (cbn [val]; rewrite Z.shiftl_mul_pow2; lia).
    repeat word_step. cbn [val]. lia. }
  rewrite more_bit by done. rewrite decode_more in * by done. rewrite Hd.
  destruct (decode_from _ _ p) as [[n v]| | | |] eqn:E; try done.
  apply decode_bounds in E as [Hn Hv]; [|done|unfold digit in *; lia]. cbn [mbind outcome_bind].
  rewrite assert_true by (apply andb_true_iff; split; [apply Z.ltb_lt|apply Z.leb_le]; lia). cbn [mbind outcome_bind clamped].
  rewrite clamp32 by done. destruct (Z.leb_spec v 0xffffffff); cbn [negb]; [|done].
  by rewrite u32_id by lia.
Qed.

Lemma len_loop `{Build} n fuel v i : needs n v -> (n <= fuel)%nat -> i + Z.of_nat n <= 11 ->
  varint_len_loop fuel v i = Ret (i + Z.of_nat n - 1).
Proof.
  revert fuel v i. induction n as [|n IH]; intros fuel v i Hn Hf Hi; [destruct Hn; lia|].
  destruct fuel as [|fuel]; [lia|]. cbn [varint_len_loop]. rewrite shiftr_7.
  destruct (needs_pred n v Hn) as [[-> Hz]|(Hp & Hz & Hn')].
  - rewrite (proj2 (Z.eqb_eq _ _) Hz). f_equal. lia.
  - rewrite (proj2 (Z.eqb_neq _ _) Hz), assert_true by (apply Z.ltb_lt; lia). cbn [mbind outcome_bind].
    rewrite (IH fuel) by (done || lia). f_equal. lia.
Qed.

(** ** Lemmas: encoding and decoding *)

Lemma more_byte l : digit l -> byte (more l).
Proof. unfold digit, byte, more. cbn [val]. lia. Qed.

Lemma mores_bytes ls : Forall digit ls -> Forall byte (more <$> ls).
Proof. intros Hd. apply Forall_fmap. eapply Forall_impl; [exact Hd|]. intros. by apply more_byte. Qed.

Lemma mores_first ls b : ls <> [] -> Forall digit ls ->
  exists p0 bs', (more <$> ls) ++ [b] = p0 :: bs' /\ 128 <= p0.
Proof.
  intros Hne Hd. destruct Hd as [|l ls Hl _]; [done|]. cbn. eexists _, _. split; [done|].
  unfold digit, more in *. cbn [val]. lia.
Qed.

Lemma put_decode_short `{Build} n v rest : needs n v -> v < 2 ^ 56 ->
  exists bs, sqlite3PutVarint v = Ret bs /\ Z.of_nat (length bs) = Z.min (Z.of_nat n) 9
    /\ Forall byte bs /\ decode (bs ++ rest) = Ret (Z.of_nat (length bs), v)
    /\ (128 <= v -> exists p0 bs', bs = p0 :: bs' /\ 128 <= p0).
Proof.
  intros Hn Hv. assert (Hn8 : (n <= 8)%nat).
  { destruct Hn as (_ & Hb & Hm). destruct (decide (n <= 8)%nat) as [|Hgt]; [done|].
    destruct Hm as [-> |Hm]; [lia|].
    assert (128 ^ 8 <= 128 ^ (Z.of_nat n - 1)) by (apply Z.pow_le_mono_r; lia).
    change (128 ^ 8) with (2 ^ 56) in *. lia. }
  rewrite (put_short n) by done. pose proof Hn as (Hpos & Hb & _).
  pose proof (digs_val n v Hb) as Hval. pose proof (digs_digit n v) as Hdig. pose proof (digs_length n v) as Hlen.
  destruct (digs n v) as [|l ls]; [cbn in Hlen; lia|]. apply Forall_cons in Hdig as [Hl Hls]. cbn [length] in Hlen.
  cbn [rev]. assert (Hrev : rev (more <$> ls) = more <$> rev ls) by (symmetry; apply map_rev). rewrite Hrev.
  assert (Hrd : Forall digit (rev ls)) by (by apply Forall_rev).
  eexists. split; [done|]. rewrite length_app, length_fmap, length_rev. cbn [length]. split; [lia|]. split; [|split].
  - apply Forall_app. split; [by apply mores_bytes|]. apply Forall_singleton. unfold byte, digit, last in *. cbn [val]. lia.
  - unfold decode. rewrite <- app_assoc, decode_run by (done || (rewrite length_rev; lia)).
    rewrite length_rev, fold_val, Z.mul_0_l, Z.add_0_l. cbn [app].
    replace (8 - length ls)%nat with (S (7 - length ls)) by lia. rewrite decode_last by done. cbn.
    do 2 f_equal; [lia|]. cbn [val] in Hval. lia.
  - intros Hc. apply mores_first; [|done]. intros Hr. apply (f_equal (@length Z)) in Hr. rewrite length_rev in Hr.
    destruct ls; [|done]. cbn [val] in Hval. unfold digit in Hl. lia.
Qed.

Lemma needs_nine n v : needs n v -> v < 2 ^ 64 -> (n <= 10)%nat ->
  Z.of_nat n = if v <? 2 ^ 63 then Z.min (Z.of_nat n) 9 else 10.
Proof.
  intros (Hp & Hb & Hm) Hv Hn. destruct (Z.ltb_spec v (2 ^ 63)) as [Hs|Hs].
  - destruct (decide (n = 10)%nat) as [-> |]; [|lia]. destruct Hm as [|Hm]; [done|].
    change (128 ^ (Z.of_nat 10 - 1)) with (2 ^ 63) in Hm. lia.
  - destruct (decide (n = 10)%nat) as [-> |]; [done|]. exfalso.
    assert (128 ^ Z.of_nat n <= 128 ^ 9) by (apply Z.pow_le_mono_r; lia). change (128 ^ 9) with (2 ^ 63) in *. lia.
Qed.

Lemma put_decode_long `{Build} n v rest : needs n v -> (n <= 10)%nat -> 2 ^ 56 <= v < 2 ^ 64 ->
  exists bs, sqlite3PutVarint v = Ret bs /\ Z.of_nat (length bs) = Z.min (Z.of_nat n) 9
    /\ Forall byte bs /\ decode (bs ++ rest) = Ret (Z.of_nat (length bs), v)
    /\ (128 <= v -> exists p0 bs', bs = p0 :: bs' /\ 128 <= p0).
Proof.
  intros (_ & Hbn & _) Hn10 Hv. assert (Hn9 : (9 <= n)%nat).
  { destruct (decide (9 <= n)%nat); [done|]. assert (128 ^ Z.of_nat n <= 128 ^ 8) by (apply Z.pow_le_mono_r; lia).
    change (128 ^ 8) with (2 ^ 56) in *. lia. }
  rewrite put_long by done. assert (Hq : 0 <= v / 256 < 128 ^ Z.of_nat 8).
  { change (128 ^ Z.of_nat 8) with (2 ^ 56). Z.to_euclidean_division_equations. lia. }
  pose proof (digs_val 8 (v / 256) Hq) as Hval. pose proof (digs_digit 8 (v / 256)) as Hdig.
  pose proof (digs_length 8 (v / 256)) as Hlen. set (ls := digs 8 (v / 256)) in *. clearbody ls.
  assert (Hrd : Forall digit (rev ls)) by (by apply Forall_rev). pose proof (Z.mod_pos_bound v 256) as Hm.
  eexists. split; [done|]. rewrite length_app, length_fmap, length_rev, Hlen. split; [cbn [length]; lia|]. split; [|split].
  - apply Forall_app. split; [by apply mores_bytes|]. apply Forall_singleton. unfold byte. lia.
  - unfold decode. rewrite <- app_assoc, decode_run by (done || (rewrite length_rev; lia)).
    rewrite length_rev, Hlen, fold_val, Z.mul_0_l, Z.add_0_l, Hval. cbn [app Nat.sub decode_from mbind outcome_bind].
    do 2 f_equal. pose proof (Z.div_mod v 256). lia.
  - intros _. apply mores_first; [|done]. intros Hr. apply (f_equal (@length Z)) in Hr. rewrite length_rev, Hlen in Hr. done.
Qed.

(** * Properties *)

(** The unrolled decoder, which collects the groups in two interleaved
    32-bit accumulators, computes on every buffer exactly what the format
    says: seven bits per byte, most significant first, up to the first byte
    below 128, and eight bits from a ninth byte; it reads no byte behind that
    one. The 32-bit decoder is the same function with larger values replaced by
    2^32-1, on buffers that its macro leaves to it. *)
Theorem varint_decoder_equivalence `{Build} (p : list Z) :
  Forall byte p ->
  sqlite3GetVarint p = decode p
  /\ (forall p0, p !! 0%nat = Some p0 -> 128 <= p0 -> sqlite3GetVarint32 p = clamped (decode p)).
Proof.
  intros Hp. split; [by apply decoder_agrees|]. intros p0 Hl Hc.
  destruct p as [|b p]; [done|]. injection Hl as ->. by apply get32_agrees.
Qed.

Example varint_decoder_equivalence_witness :
  sqlite3GetVarint [0x81; 0x80; 0x80; 0x80; 0x80; 0x80; 0x80; 0x80; 0xff; 7] = Ret (9, 2 ^ 57 + 255).
Proof.
  refine (proj1 (varint_decoder_equivalence (H := debug_build) _ _)).
  repeat constructor; discriminate.
Defined.

(** C39: Round trip. Every 64-bit value is written in one to nine bytes,
    and whatever follows them both decoders read the same number of bytes and
    the value back (the 32-bit one cut off at 2^32-1). The length function
    agrees with the encoder below 2^63; from there on it answers 10, where
    nine bytes are written. *)
Theorem varint_roundtrip `{Build} (v : Z) (rest : list Z) :
  is_u64 v -> Forall byte rest ->
  exists bs, sqlite3PutVarint v = Ret bs
    /\ 1 <= Z.of_nat (length bs) <= 9 /\ Forall byte bs
    /\ sqlite3GetVarint (bs ++ rest) = Ret (Z.of_nat (length bs), v)
    /\ (128 <= v -> sqlite3GetVarint32 (bs ++ rest) = Ret (Z.of_nat (length bs), Z.min v 0xffffffff))
    /\ sqlite3VarintLen v = Ret (if v <? 2 ^ 63 then Z.of_nat (length bs) else 10).
Proof.
  intros Hv Hr. destruct (exists_needs v Hv) as (n & Hn & Hn10).
  assert (Hlen : sqlite3VarintLen v = Ret (Z.of_nat n)).
  { unfold sqlite3VarintLen. rewrite (len_loop n) by (done || lia). f_equal. lia. }
  assert (Hput : exists bs, sqlite3PutVarint v = Ret bs /\ Z.of_nat (length bs) = Z.min (Z.of_nat n) 9
    /\ Forall byte bs /\ decode (bs ++ rest) = Ret (Z.of_nat (length bs), v)
    /\ (128 <= v -> exists p0 bs', bs = p0 :: bs' /\ 128 <= p0)).
  { destruct (Z.lt_ge_cases v (2 ^ 56)) as [Hs|Hs].
    - by apply (put_decode_short n).
    - apply (put_decode_long n); [done|done|lia]. }
  destruct Hput as (bs & Hput & Hl & Hb & Hd & Hf). exists bs. split; [done|].
  pose proof Hn as (Hpos & _). split; [lia|]. split; [done|].
  rewrite decoder_agrees by (by apply Forall_app). split; [done|]. split.
  - intros Hc. destruct (Hf Hc) as (p0 & bs' & -> & Hp0). cbn [app] in *.
    rewrite get32_agrees by (done || exact (Forall_app_2 byte (p0 :: bs') rest Hb Hr)). rewrite Hd. cbn.
    destruct (Z.leb_spec v 0xffffffff); do 2 f_equal; lia.
  - rewrite Hlen, Hl. f_equal. apply needs_nine; [done|lia|done].
Qed.

Example varint_roundtrip_witness :
  exists bs, sqlite3PutVarint (H := debug_build) (2 ^ 63) = Ret bs /\ length bs = 9%nat
    /\ sqlite3VarintLen (H := debug_build) (2 ^ 63) = Ret 10.
Proof.
  destruct (varint_roundtrip (H := debug_build) (2 ^ 63) []) as (bs & Hp & Hl & _ & _ & _ & Hv);
    [lia|by apply Forall_nil|].
  exists bs. split; [exact Hp|]. split; [|exact Hv].
  vm_compute in Hp. by injection Hp as <-.
Defined.
