(* ===== verification/RowSet.v ===== *)
(** * Sets of row numbers: deps/sqlite3/sqlite3.c, rowset.c

    The RowSet object: rows are inserted in any order; then either membership
    is tested, batch by batch, in a forest of search trees, or the elements are
    extracted in ascending order.  Entries are linked through one pointer each
    and never shared, so a chain of entries is a list of numbers and a tree of
    entries an inductive tree.  Memory comes from malloc: whether an allocation
    succeeds is an argument. *)

From stdpp Require Import sorting.
From S2P Require Import Prelude Words.

(** ** Data *)

Inductive tree := Leaf | Node (l : tree) (v : Z) (r : tree).   (* [Leaf] is the null pointer *)

#[export] Instance tree_eq_dec : EqDecision tree.
Proof. solve_decision. Defined.

(** [(ROWSET_ALLOCATION_SIZE-8)/sizeof(struct RowSetEntry)] *)
Definition ROWSET_ENTRY_PER_CHUNK : Z := (1024 - 8) / 24.

Definition ROWSET_SORTED : Z := 1.
Definition ROWSET_NEXT : Z := 2.

Record RowSet := {
  pChunk : nat;                (* chunks allocated *)
  pEntry : list Z;             (* linked by pRight *)
  pLast : option Z;            (* the value of the entry it points to *)
  pForest : list tree;         (* the pLeft of each list node *)
  nFresh : Z;
  rsFlags : Z;
  iBatch : Z;
}.

Definition flag (f : Z) (p : RowSet) : bool := negb (Z.land (rsFlags p) f =? 0).

(** [N] is what sqlite3DbMallocSize reports for the object of 56 bytes. *)
Definition sqlite3RowSetInit (N : Z) : RowSet :=
  {| pChunk := 0; pEntry := []; pLast := None; pForest := []; nFresh := u16 ((N - 56) / 24);
     rsFlags := ROWSET_SORTED; iBatch := 0 |}.

Definition sqlite3RowSetClear (p : RowSet) : RowSet :=
  {| pChunk := 0; pEntry := []; pLast := None; pForest := []; nFresh := 0;
     rsFlags := ROWSET_SORTED; iBatch := iBatch p |}.

(** Field updates. *)
Definition set_fresh (chunks : nat) (n : Z) (p : RowSet) : RowSet :=
  {| pChunk := chunks; pEntry := pEntry p; pLast := pLast p; pForest := pForest p; nFresh := n;
     rsFlags := rsFlags p; iBatch := iBatch p |}.
Definition set_entries (l : list Z) (last : option Z) (flags : Z) (p : RowSet) : RowSet :=
  {| pChunk := pChunk p; pEntry := l; pLast := last; pForest := pForest p; nFresh := nFresh p;
     rsFlags := flags; iBatch := iBatch p |}.
Definition set_forest (fs : list tree) (p : RowSet) : RowSet :=
  {| pChunk := pChunk p; pEntry := pEntry p; pLast := pLast p; pForest := fs; nFresh := nFresh p;
     rsFlags := rsFlags p; iBatch := iBatch p |}.
Definition set_batch (b : Z) (p : RowSet) : RowSet :=
  {| pChunk := pChunk p; pEntry := pEntry p; pLast := pLast p; pForest := pForest p; nFresh := nFresh p;
     rsFlags := rsFlags p; iBatch := b |}.

(** Whether there is an entry, and the object with one entry less in stock;
    [malloc] tells whether a new chunk can be had. *)
Definition rowSetEntryAlloc (malloc : bool) (p : RowSet) : bool * RowSet :=
  if nFresh p =? 0 then
    if malloc then (true, set_fresh (S (pChunk p)) (ROWSET_ENTRY_PER_CHUNK - 1) p) else (false, p)
  else (true, set_fresh (pChunk p) (nFresh p - 1) p).

Section Ops.
Context `{Build}.

Definition sqlite3RowSetInsert (malloc : bool) (rowid : Z) (p : RowSet) : outcome RowSet :=
  _ ← assert_ (negb (flag ROWSET_NEXT p));
  let '(ok, p) := rowSetEntryAlloc malloc p in
  if negb ok then Ret p
  else
    let flags := match pLast p with
                 | Some v => if rowid <=? v then Z.land (rsFlags p) (Z.lnot ROWSET_SORTED) else rsFlags p
                 | None => rsFlags p
                 end in
    let entries := match pLast p with Some _ => pEntry p ++ [rowid] | None => [rowid] end in
    Ret (set_entries entries (Some rowid) flags p).

(** [assert( pA->pRight==0 || pA->v<=pA->pRight->v )] *)
Definition head_sorted (l : list Z) : bool := match l with x :: y :: _ => x <=? y | _ => true end.

(** One turn of the [for(;;)] loop per call. *)
Fixpoint rowSetEntryMerge (pA : list Z) : list Z -> outcome (list Z) :=
  fix go (pB : list Z) : outcome (list Z) :=
    match pA, pB with
    | a :: pA', b :: pB' =>
        _ ← assert_ (head_sorted pA);
        _ ← assert_ (head_sorted pB);
        if a <=? b then
          rest ← match pA' with [] => Ret pB | _ => rowSetEntryMerge pA' pB end;
          Ret (if a <? b then a :: rest else rest)
        else
          rest ← match pB' with [] => Ret pA | _ => go pB' end;
          Ret (b :: rest)
    | _, _ => if NDEBUG then Undefined else Abort_       (* assert( pA!=0 && pB!=0 ) *)
    end.

(** The [for(i=0; aBucket[i]; i++)] loop: the list moves up to the first free
    bucket. *)
Fixpoint carry (aBucket : list (list Z)) (pIn : list Z) : outcome (list (list Z)) :=
  match aBucket with
  | [] => Undefined
  | [] :: bs => Ret (pIn :: bs)
  | b :: bs => pIn ← rowSetEntryMerge b pIn; bs ← carry bs pIn; Ret ([] :: bs)
  end.

(** The [while( pIn )] loop. *)
Fixpoint distribute (pIn : list Z) (aBucket : list (list Z)) : outcome (list (list Z)) :=
  match pIn with
  | [] => Ret aBucket
  | v :: pIn => aBucket ← carry aBucket [v]; distribute pIn aBucket
  end.

(** The last loop. *)
Fixpoint collect (pIn : list Z) (aBucket : list (list Z)) : outcome (list Z) :=
  match aBucket with
  | [] => Ret pIn
  | [] :: bs => collect pIn bs
  | b :: bs =>
      pIn ← match pIn with [] => Ret b | _ => rowSetEntryMerge pIn b end;
      collect pIn bs
  end.

Definition rowSetEntrySort (pIn : list Z) : outcome (list Z) :=
  aBucket ← distribute pIn (replicate 40 []);
  match aBucket with
  | [] => Undefined
  | b :: bs => collect b bs
  end.

Fixpoint rowSetTreeToList (pIn : tree) : list Z :=
  match pIn with
  | Leaf => []
  | Node l v r => rowSetTreeToList l ++ v :: rowSetTreeToList r
  end.

(** The tree and the list that is left. *)
Fixpoint rowSetNDeepTree (iDepth : nat) (ppList : list Z) : tree * list Z :=
  match ppList with
  | [] => (Leaf, [])
  | v :: rest =>
      match iDepth with
      | S (S _ as d) =>
          let '(pLeft, ppList) := rowSetNDeepTree d ppList in
          match ppList with
          | [] => (pLeft, [])
          | p :: ppList =>
              let '(pRight, ppList) := rowSetNDeepTree d ppList in
              (Node pLeft p pRight, ppList)
          end
      | _ => (Node Leaf v Leaf, rest)
      end
  end.

(** The [for(iDepth=1; pList; iDepth++)] loop; each pass takes an entry off
    [pList]. *)
Fixpoint grow (fuel : nat) (iDepth : nat) (p : tree) (pList : list Z) : outcome tree :=
  match fuel with
  | O => OutOfFuel
  | S fuel =>
      match pList with
      | [] => Ret p
      | v :: pList =>
          let '(pRight, pList) := rowSetNDeepTree iDepth pList in
          grow fuel (S iDepth) (Node p v pRight) pList
      end
  end.

Definition rowSetListToTree (pList : list Z) : outcome tree :=
  match pList with
  | [] => if NDEBUG then Undefined else Abort_          (* assert( pList!=0 ) *)
  | v :: pList => grow (S (length pList)) 1 (Node Leaf v Leaf) pList
  end.

(** The loop over the forest in [sqlite3RowSetTest]: [None] when it came to the
    end without a free place, with the merged list. *)
Fixpoint place (p : list Z) (pForest : list tree) : outcome (list tree * option (list Z)) :=
  match pForest with
  | [] => Ret ([], Some p)
  | Leaf :: fs => t ← rowSetListToTree p; Ret (t :: fs, None)
  | pTree :: fs =>
      p ← rowSetEntryMerge (rowSetTreeToList pTree) p;
      '(fs, p) ← place p fs;
      Ret (Leaf :: fs, p)
  end.

(** The [while( p )] loop. *)
Fixpoint tree_find (iRowid : Z) (p : tree) : bool :=
  match p with
  | Leaf => false
  | Node l v r => if v <? iRowid then tree_find iRowid r
                  else if iRowid <? v then tree_find iRowid l else true
  end.

Definition sqlite3RowSetTest (malloc : bool) (batch iRowid : Z) (p : RowSet) : outcome (bool * RowSet) :=
  _ ← assert_ (negb (flag ROWSET_NEXT p));
  p ← (if batch =? iBatch p then Ret p
       else
         p ← (match pEntry p with
              | [] => Ret p
              | _ =>
                  l ← (if flag ROWSET_SORTED p then Ret (pEntry p) else rowSetEntrySort (pEntry p));
                  '(fs, left_) ← place l (pForest p);
                  p ← (match left_ with
                       | None => Ret (set_forest fs p)
                       | Some l =>
                           let '(ok, p) := rowSetEntryAlloc malloc p in
                           if ok then t ← rowSetListToTree l; Ret (set_forest (fs ++ [t]) p)
                           else Ret (set_forest fs p)
                       end);
                  Ret (set_entries [] None (Z.lor (rsFlags p) ROWSET_SORTED) p)
              end);
         Ret (set_batch batch p));
  Ret (existsb (tree_find iRowid) (pForest p), p).

(** The value extracted, if there is one. *)
Definition sqlite3RowSetNext (p : RowSet) : outcome (option Z * RowSet) :=
  _ ← assert_ (bool_decide (pForest p = []));
  p ← (if negb (flag ROWSET_NEXT p) then
         l ← (if negb (flag ROWSET_SORTED p) then rowSetEntrySort (pEntry p) else Ret (pEntry p));
         Ret (set_entries l (pLast p) (Z.lor (rsFlags p) (Z.lor ROWSET_SORTED ROWSET_NEXT)) p)
       else Ret p);
  match pEntry p with
  | [] => Ret (None, p)
  | v :: rest =>
      let p := set_entries rest (pLast p) (rsFlags p) p in
      Ret (Some v, match rest with [] => sqlite3RowSetClear p | _ => p end)
  end.

End Ops.

(** ** Specification

    A set of visible rows, a set of rows inserted since the last change of the
    batch number, and that number. *)

Record row_spec := { visible : gset Z; pending : gset Z; batch_ : Z }.

Inductive op := Insert (x : Z) | Test (b x : Z).

Definition spec_step (o : op) (s : row_spec) : option bool * row_spec :=
  match o with
  | Insert x => (None, {| visible := visible s; pending := {[x]} ∪ pending s; batch_ := batch_ s |})
  | Test b x =>
      let s := if b =? batch_ s then s
               else {| visible := pending s ∪ visible s; pending := ∅; batch_ := b |} in
      (Some (bool_decide (x ∈ visible s)), s)
  end.

Definition impl_step `{Build} (o : op) (p : RowSet) : outcome (option bool * RowSet) :=
  match o with
  | Insert x => p ← sqlite3RowSetInsert true x p; Ret (None, p)
  | Test b x => '(r, p) ← sqlite3RowSetTest true b x p; Ret (Some r, p)
  end.

Fixpoint spec_run (os : list op) (s : row_spec) : list (option bool) :=
  match os with [] => [] | o :: os => let '(r, s) := spec_step o s in r :: spec_run os s end.
Fixpoint impl_run `{Build} (os : list op) (p : RowSet) : outcome (list (option bool)) :=
  match os with
  | [] => Ret []
  | o :: os => '(r, p) ← impl_step o p; rs ← impl_run os p; Ret (r :: rs)
  end.

(** Inserting a list, and extracting until nothing is left. *)
Fixpoint insert_all `{Build} (l : list Z) (p : RowSet) : outcome RowSet :=
  match l with [] => Ret p | x :: l => p ← sqlite3RowSetInsert true x p; insert_all l p end.
Fixpoint extract `{Build} (n : nat) (p : RowSet) : outcome (list Z * RowSet) :=
  match n with
  | O => Ret ([], p)
  | S n =>
      '(o, p) ← sqlite3RowSetNext p;
      match o with
      | None => Ret ([], p)
      | Some v => '(l, p) ← extract n p; Ret (v :: l, p)
      end
  end.

(** ** Lemmas: merging *)

Abbreviation asc := (StronglySorted Z.lt).

Lemma asc_cons x l : asc (x :: l) <-> (forall y, y ∈ l -> x < y) /\ asc l.
Proof.
  split.
  - intros Ha. apply StronglySorted_inv in Ha as [Ha Hf]. split; [|done].
    intros y Hy. by eapply Forall_forall in Hf.
  - intros [Hf Ha]. constructor; [done|]. by apply Forall_forall.
Qed.

Lemma asc_app l1 l2 : asc (l1 ++ l2) <-> asc l1 /\ asc l2 /\ forall x y, x ∈ l1 -> y ∈ l2 -> x < y.
Proof.
  induction l1 as [|x l1 IH]; cbn [app].
  - split; [intros; split; [constructor|split; [done|]]|by intros (_ & ? & _)]. by intros x y ?%not_elem_of_nil.
  - rewrite !asc_cons, IH. split.
    + intros (Hx & H1 & H2 & H12). split; [split; [|done]|split; [done|]].
      * intros y Hy. apply Hx, elem_of_app. by left.
      * intros a b [-> |Ha]%elem_of_cons Hb; [|by apply H12]. apply Hx, elem_of_app. by right.
    + intros ([Hx H1] & H2 & H12). split; [|split; [done|split; [done|]]].
      * intros y [Hy|Hy]%elem_of_app; [by apply Hx|]. apply H12; [apply list_elem_of_here|done].
      * intros a b Ha Hb. apply H12; [by apply list_elem_of_further|done].
Qed.

Lemma asc_head l : asc l -> head_sorted l = true.
Proof.
  intros Ha. destruct l as [|x [|y l]]; try done. cbn. apply asc_cons in Ha as [Hx _].
  apply Z.leb_le. assert (x < y) by (apply Hx, list_elem_of_here). lia.
Qed.

Section Facts.
Context `{Build}.
Implicit Types (l pA pB : list Z).

Lemma merge_cons a pA b pB :
  rowSetEntryMerge (a :: pA) (b :: pB)
  = (_ ← assert_ (head_sorted (a :: pA));
     _ ← assert_ (head_sorted (b :: pB));
     if a <=? b then
       rest ← match pA with [] => Ret (b :: pB) | _ => rowSetEntryMerge pA (b :: pB) end;
       Ret (if a <? b then a :: rest else rest)
     else
       rest ← match pB with [] => Ret (a :: pA) | _ => rowSetEntryMerge (a :: pA) pB end;
       Ret (b :: rest)).
Proof. reflexivity. Qed.

(** The result of a merge: ascending, with exactly the elements of both. *)
Definition merged pA pB l : Prop := asc l /\ l <> [] /\ forall x, x ∈ l <-> x ∈ pA \/ x ∈ pB.

Lemma merge_step a pA b pB l :
  asc (a :: pA) -> asc (b :: pB) -> a <= b -> merged pA (b :: pB) l ->
  merged (a :: pA) (b :: pB) (if a <? b then a :: l else l).
Proof.
  intros Ha Hb Hab (Hl & Hne & Hin). apply asc_cons in Ha as [Ha _]. pose proof Hb as [Hb' _]%asc_cons.
  destruct (Z.ltb_spec a b) as [Hlt|Hge].
  - split; [|split; [done|]].
    + apply asc_cons. split; [|done]. intros y [Hy|[-> |Hy]%elem_of_cons]%Hin; [by apply Ha|done|].
      specialize (Hb' y Hy). lia.
    + intros x. rewrite !elem_of_cons, Hin, elem_of_cons. tauto.
  - assert (a = b) as -> by lia. split; [done|split; [done|]]. intros x. rewrite Hin, !elem_of_cons. tauto.
Qed.

Lemma merge_sorted pA pB : asc pA -> asc pB -> pA <> [] -> pB <> [] ->
  exists l, rowSetEntryMerge pA pB = Ret l /\ merged pA pB l.
Proof.
  remember (length pA + length pB)%nat as n eqn:E. revert pA pB E.
  induction (lt_wf n) as [n _ IH]. intros [|a pA] [|b pB] -> Ha Hb Hna Hnb; try done.
  rewrite merge_cons, !assert_true by (by apply asc_head). cbn [mbind outcome_bind].
  pose proof Ha as [_ Ha']%asc_cons. pose proof Hb as [_ Hb']%asc_cons.
  destruct (Z.leb_spec a b) as [Hab|Hab].
  - assert (Hrest : exists l, (match pA with [] => Ret (b :: pB) | _ => rowSetEntryMerge pA (b :: pB) end) = Ret l
      /\ merged pA (b :: pB) l).
    { destruct pA as [|a' pA].
      - eexists. split; [done|]. split; [done|split; [done|]]. intros x. rewrite elem_of_nil. tauto.
      - apply (IH (length (a' :: pA) + length (b :: pB))%nat); try done. cbn. lia. }
    destruct Hrest as (l & -> & Hl). eexists. split; [done|]. by apply merge_step.
  - assert (Hrest : exists l, (match pB with [] => Ret (a :: pA) | _ => rowSetEntryMerge (a :: pA) pB end) = Ret l
      /\ merged (a :: pA) pB l).
    { destruct pB as [|b' pB].
      - eexists. split; [done|]. split; [done|split; [done|]]. intros x. rewrite elem_of_nil. tauto.
      - apply (IH (length (a :: pA) + length (b' :: pB))%nat); try done. cbn. lia. }
    destruct Hrest as (l & -> & Hl & Hne & Hin). eexists. split; [done|].
    destruct (merge_step b pB a pA l Hb Ha ltac:(lia)) as (H1 & H2 & H3).
    + split; [done|split; [done|]]. intros x. rewrite Hin. tauto.
    + rewrite (proj2 (Z.ltb_lt _ _)) in * by lia. split; [done|split; [done|]]. intros x. rewrite H3. tauto.
Qed.

(** ** Lemmas: sorting

    The occupied buckets are the binary digits of the number of entries taken
    so far, so forty buckets are enough for less than 2^40 entries. *)

Fixpoint count (aBucket : list (list Z)) : Z :=
  match aBucket with [] => 0 | [] :: bs => 2 * count bs | _ :: bs => 1 + 2 * count bs end.

Definition held (x : Z) (aBucket : list (list Z)) : Prop := exists b, b ∈ aBucket /\ x ∈ b.

Lemma held_cons x b bs : held x (b :: bs) <-> x ∈ b \/ held x bs.
Proof.
  unfold held. split.
  - intros (c & [-> |Hc]%elem_of_cons & Hx); [by left|]. right. eauto.
  - intros [Hx|(c & Hc & Hx)]; eexists; (split; [|exact Hx]); [apply list_elem_of_here|by apply list_elem_of_further].
Qed.

Lemma carry_spec bs l : Forall asc bs -> asc l -> l <> [] -> count bs + 1 < 2 ^ Z.of_nat (length bs) ->
  exists bs', carry bs l = Ret bs' /\ Forall asc bs' /\ length bs' = length bs /\ count bs' = count bs + 1
    /\ forall x, held x bs' <-> x ∈ l \/ held x bs.
Proof.
  intros Hbs. revert l. induction Hbs as [|b bs Hb Hbs IH]; intros l Hl Hne Hc.
  { cbn in Hc. lia. }
  cbn [length] in Hc. rewrite Nat2Z.inj_succ, Z.pow_succ_r in Hc by lia. cbn [carry].
  destruct b as [|y b].
  - eexists. split; [done|]. split; [by constructor|]. split; [done|]. split; [destruct l; [done|]; cbn [count]; lia|].
    intros x. rewrite !held_cons, elem_of_nil. tauto.
  - cbn [count] in Hc. destruct (merge_sorted (y :: b) l) as (m & -> & Hm & Hmne & Hin); try done.
    cbn [mbind outcome_bind]. destruct (IH m Hm Hmne) as (bs' & -> & Hs & Hlen & Hcnt & Hheld); [lia|].
    cbn [mbind outcome_bind]. eexists. split; [done|]. split; [constructor; [constructor|done]|].
    split; [cbn; lia|]. split; [cbn [count]; lia|].
    intros x. rewrite !held_cons, elem_of_nil, Hheld, Hin. tauto.
Qed.

Lemma distribute_spec l bs : Forall asc bs -> count bs + Z.of_nat (length l) < 2 ^ Z.of_nat (length bs) ->
  exists bs', distribute l bs = Ret bs' /\ Forall asc bs' /\ length bs' = length bs
    /\ forall x, held x bs' <-> x ∈ l \/ held x bs.
Proof.
  revert bs. induction l as [|v l IH]; intros bs Hbs Hc; cbn [distribute].
  { exists bs. split; [done|]. split; [done|]. split; [done|]. intros x. rewrite elem_of_nil. tauto. }
  cbn [length] in Hc. destruct (carry_spec bs [v]) as (bs1 & -> & H1 & Hl1 & Hc1 & Hh1); try done; try lia.
  { by repeat constructor. }
  cbn [mbind outcome_bind]. destruct (IH bs1) as (bs2 & -> & H2 & Hl2 & Hh2); [done|rewrite Hl1; lia|].
  exists bs2. split; [done|]. split; [done|]. split; [congruence|].
  intros x. rewrite Hh2, Hh1, !elem_of_cons, elem_of_nil. tauto.
Qed.

Lemma collect_spec l bs : Forall asc bs -> asc l ->
  exists m, collect l bs = Ret m /\ asc m /\ forall x, x ∈ m <-> x ∈ l \/ held x bs.
Proof.
  intros Hbs. revert l. induction Hbs as [|b bs Hb _ IH]; intros l Hl; cbn [collect].
  { exists l. split; [done|]. split; [done|]. intros x. split; [by left|]. intros [?|(b & ?%not_elem_of_nil & _)]; done. }
  destruct b as [|y b].
  - destruct (IH l Hl) as (m & -> & Hm & Hin). exists m. split; [done|]. split; [done|].
    intros x. rewrite Hin, held_cons, elem_of_nil. tauto.
  - assert (Hmerge : exists l', (match l with [] => Ret (y :: b) | _ => rowSetEntryMerge l (y :: b) end) = Ret l'
      /\ asc l' /\ forall x, x ∈ l' <-> x ∈ l \/ x ∈ y :: b).
    { destruct l as [|z l].
      - eexists. split; [done|]. split; [done|]. intros x. rewrite elem_of_nil. tauto.
      - destruct (merge_sorted (z :: l) (y :: b)) as (m & -> & Hm & _ & Hin); try done. by exists m. }
    destruct Hmerge as (l' & -> & Hl' & Hin'). cbn [mbind outcome_bind].
    destruct (IH l' Hl') as (m & -> & Hm & Hin). exists m. split; [done|]. split; [done|].
    intros x. rewrite Hin, Hin', held_cons. tauto.
Qed.

Lemma sort_spec l : Z.of_nat (length l) < 2 ^ 40 ->
  exists m, rowSetEntrySort l = Ret m /\ asc m /\ forall x, x ∈ m <-> x ∈ l.
Proof.
  intros Hl. unfold rowSetEntrySort.
  assert (Hc : forall n, count (replicate n []) = 0) by (intros n; induction n; cbn; lia).
  destruct (distribute_spec l (replicate 40 [])) as (bs & -> & Hbs & Hlen & Hh).
  { apply Forall_replicate. constructor. }
  { rewrite Hc, length_replicate. exact Hl. }
  cbn [mbind outcome_bind]. rewrite length_replicate in Hlen. destruct bs as [|b bs]; [done|].
  apply Forall_cons in Hbs as [Hb Hbs]. destruct (collect_spec b bs Hbs Hb) as (m & -> & Hm & Hin).
  exists m. split; [done|]. split; [done|]. intros x. rewrite Hin, <- held_cons, Hh.
  split; [|by left]. intros [?|(c & Hc' & Hx)]; [done|].
  apply elem_of_replicate in Hc' as [-> _]. by apply not_elem_of_nil in Hx.
Qed.

End Facts.

(** ** Lemmas: trees *)

(** A search tree: its entries in order. *)
Definition bst (t : tree) : Prop := asc (rowSetTreeToList t).

Fixpoint height (t : tree) : nat :=
  match t with Leaf => 0 | Node l _ r => S (Nat.max (height l) (height r)) end.

Lemma tree_find_spec x t : bst t -> tree_find x t = true <-> x ∈ rowSetTreeToList t.
Proof.
  unfold bst. induction t as [|l IHl v r IHr]; cbn [rowSetTreeToList tree_find]; intros Ht.
  { rewrite elem_of_nil. done. }
  apply asc_app in Ht as (Hl & [Hv Hr]%asc_cons & Hlr). rewrite elem_of_app, elem_of_cons.
  specialize (IHl Hl). specialize (IHr Hr).
  assert (Hlv : forall y, y ∈ rowSetTreeToList l -> y < v) by (intros y Hy; apply Hlr; [done|apply list_elem_of_here]).
  destruct (Z.ltb_spec v x) as [Hx|Hx]; [|destruct (Z.ltb_spec x v) as [Hx'|Hx']].
  - rewrite IHr. split; [tauto|]. intros [Hin|[->|Hin]]; [|lia|done]. specialize (Hlv x Hin). lia.
  - rewrite IHl. split; [tauto|]. intros [Hin|[->|Hin]]; [done|lia|]. specialize (Hv x Hin). lia.
  - split; [|done]. intros _. right. left. lia.
Qed.

(** A tree taken off the front of a list: complete unless the list ran out. *)
Lemma n_deep_spec d l :
  let '(t, rest) := rowSetNDeepTree d l in
  rowSetTreeToList t ++ rest = l
  /\ (height t <= Nat.max 1 d)%nat
  /\ (rest <> [] -> Z.of_nat (length (rowSetTreeToList t)) = 2 ^ Z.of_nat (Nat.max 1 d) - 1).
Proof.
  revert l. induction d as [|d IH]; intros l.
  { destruct l as [|v l]; (split; [done|split; [cbn; lia|done]]). }
  destruct l as [|v l]; [cbn; split; [done|split; [lia|done]]|].
  destruct d as [|d]; [split; [done|split; [cbn; lia|done]]|].
  change (rowSetNDeepTree (S (S d)) (v :: l)) with
    (let '(pLeft, ppList) := rowSetNDeepTree (S d) (v :: l) in
     match ppList with
     | [] => (pLeft, [])
     | p :: ppList => let '(pRight, ppList) := rowSetNDeepTree (S d) ppList in (Node pLeft p pRight, ppList)
     end).
  pose proof (IH (v :: l)) as H1. destruct (rowSetNDeepTree (S d) (v :: l)) as [t1 [|p rest]].
  - destruct H1 as (H1 & Hh & _). split; [done|]. split; [lia|done].
  - pose proof (IH rest) as H2. destruct (rowSetNDeepTree (S d) rest) as [t2 rest2].
    destruct H1 as (H1 & Hh1 & Hc1). destruct H2 as (H2 & Hh2 & Hc2). cbn [rowSetTreeToList height].
    split; [by rewrite <- app_assoc; cbn; rewrite H2|]. split; [lia|]. intros Hne.
    rewrite length_app. cbn [length]. specialize (Hc1 ltac:(done)). specialize (Hc2 Hne).
    replace (Nat.max 1 (S (S d))) with (S (Nat.max 1 (S d))) by lia.
    rewrite Nat2Z.inj_succ, Z.pow_succ_r by lia. lia.
Qed.

(** Height and size of a tree that holds a whole list. *)
Definition balanced (t : tree) (n : nat) : Prop := 2 ^ (Z.of_nat (height t) - 1) <= Z.of_nat n.

Lemma grow_spec `{Build} fuel k p l : (length l < fuel)%nat -> (0 < k)%nat ->
  (height p <= k)%nat -> Z.of_nat (length (rowSetTreeToList p)) = 2 ^ Z.of_nat k - 1 ->
  exists t, grow fuel k p l = Ret t /\ rowSetTreeToList t = rowSetTreeToList p ++ l /\ t <> Leaf
    /\ balanced t (length (rowSetTreeToList t)).
Proof.
  revert k p l. induction fuel as [|fuel IH]; intros k p l Hf Hk Hh Hs; [lia|]. cbn [grow].
  assert (Hp : p <> Leaf).
  { intros ->. cbn in Hs. assert (2 ^ 1 <= 2 ^ Z.of_nat k) by (apply Z.pow_le_mono_r; lia). lia. }
  assert (Hpow : 2 ^ (Z.of_nat k - 1) <= 2 ^ Z.of_nat k - 1).
  { replace (Z.of_nat k) with (Z.succ (Z.of_nat k - 1)) at 2 by lia. rewrite Z.pow_succ_r by lia.
    assert (0 < 2 ^ (Z.of_nat k - 1)) by (apply Z.pow_pos_nonneg; lia). lia. }
  destruct l as [|v l].
  { exists p. rewrite app_nil_r. split; [done|]. split; [done|]. split; [done|]. unfold balanced.
    assert (2 ^ (Z.of_nat (height p) - 1) <= 2 ^ (Z.of_nat k - 1)) by (apply Z.pow_le_mono_r; lia). lia. }
  pose proof (n_deep_spec k l) as Hd. destruct (rowSetNDeepTree k l) as [r rest].
  destruct Hd as (Hl & Hhr & Hc). replace (Nat.max 1 k) with k in * by lia. cbn [length] in Hf.
  destruct rest as [|w rest].
  - destruct fuel as [|fuel]; [lia|]. cbn [grow]. eexists. split; [done|]. cbn [rowSetTreeToList height].
    rewrite app_nil_r in Hl. rewrite Hl. split; [done|]. split; [done|]. unfold balanced. cbn [height].
    rewrite length_app. cbn [length].
    assert (2 ^ (Z.of_nat (S (Nat.max (height p) (height r))) - 1) <= 2 ^ Z.of_nat k) by (apply Z.pow_le_mono_r; lia). lia.
  - destruct (IH (S k) (Node p v r) (w :: rest)) as (t & Ht & Hi & Hn & Hb).
    + rewrite <- Hl, length_app in Hf. lia.
    + lia.
    + cbn [height]. lia.
    + cbn [rowSetTreeToList]. rewrite length_app. cbn [length]. specialize (Hc ltac:(done)).
      rewrite (Nat2Z.inj_succ k), Z.pow_succ_r by lia. lia.
    + exists t. split; [done|]. split; [|done]. rewrite Hi. cbn [rowSetTreeToList].
      rewrite <- app_assoc. cbn [app]. by rewrite Hl.
Qed.

Lemma list_to_tree_spec `{Build} l : l <> [] ->
  exists t, rowSetListToTree l = Ret t /\ rowSetTreeToList t = l /\ t <> Leaf /\ balanced t (length l).
Proof.
  intros Hne. destruct l as [|v l]; [done|]. unfold rowSetListToTree.
  destruct (grow_spec (S (length l)) 1 (Node Leaf v Leaf) l) as (t & -> & Hi & Hn & Hb); try done; try lia.
  cbn in Hi. exists t. split; [done|]. split; [done|]. split; [done|]. by rewrite Hi in Hb.
Qed.

(** ** Lemmas: the forest *)

Definition planted (x : Z) (fs : list tree) : Prop := exists t, t ∈ fs /\ x ∈ rowSetTreeToList t.

Lemma planted_cons x t fs : planted x (t :: fs) <-> x ∈ rowSetTreeToList t \/ planted x fs.
Proof.
  unfold planted. split.
  - intros (c & [-> |Hc]%elem_of_cons & Hx); [by left|]. right. eauto.
  - intros [Hx|(c & Hc & Hx)]; eexists; (split; [|exact Hx]); [apply list_elem_of_here|by apply list_elem_of_further].
Qed.
Lemma planted_nil x : planted x [] <-> False.
Proof. split; [|done]. by intros (t & ?%not_elem_of_nil & _). Qed.
Lemma planted_app x fs gs : planted x (fs ++ gs) <-> planted x fs \/ planted x gs.
Proof.
  induction fs as [|t fs IH]; cbn [app]; [rewrite planted_nil; tauto|]. rewrite !planted_cons, IH. tauto.
Qed.

Lemma forest_find x fs : Forall bst fs -> existsb (tree_find x) fs = true <-> planted x fs.
Proof.
  intros Hfs. induction Hfs as [|t fs Ht _ IH]; cbn [existsb]; [by rewrite planted_nil|].
  by rewrite orb_true_iff, IH, planted_cons, tree_find_spec.
Qed.

Lemma place_spec `{Build} l fs : Forall bst fs -> asc l -> l <> [] ->
  exists fs' o, place l fs = Ret (fs', o) /\ Forall bst fs'
    /\ match o with
       | None => forall x, planted x fs' <-> x ∈ l \/ planted x fs
       | Some m => asc m /\ m <> [] /\ (forall x, ~ planted x fs') /\ forall x, x ∈ m <-> x ∈ l \/ planted x fs
       end.
Proof.
  intros Hfs. revert l. induction Hfs as [|t fs Ht Hfs IH]; intros l Hl Hne; cbn [place].
  { eexists _, _. split; [done|]. split; [by apply Forall_nil|]. split; [done|]. split; [done|].
    split; [intros x; rewrite planted_nil; tauto|]. intros x. rewrite planted_nil. tauto. }
  destruct t as [|tl v tr].
  - destruct (list_to_tree_spec l Hne) as (t & -> & Hi & _ & _). cbn [mbind outcome_bind].
    eexists _, _. split; [done|]. split; [constructor; [unfold bst; by rewrite Hi|done]|].
    intros x. rewrite !planted_cons, Hi. cbn [rowSetTreeToList]. rewrite elem_of_nil. tauto.
  - assert (Htn : rowSetTreeToList (Node tl v tr) <> []) by (cbn; by destruct (rowSetTreeToList tl)).
    destruct (merge_sorted (rowSetTreeToList (Node tl v tr)) l) as (m & -> & Hm & Hmne & Hin); try done.
    cbn [mbind outcome_bind]. destruct (IH m Hm Hmne) as (fs' & o & -> & Hfs' & Ho). cbn [mbind outcome_bind].
    eexists _, _. split; [done|]. split; [constructor; [apply SSorted_nil|done]|]. destruct o as [q|].
    + destruct Ho as (Hq & Hqne & Hno & Hqin). split; [done|]. split; [done|]. split.
      * intros x. rewrite planted_cons. cbn [rowSetTreeToList]. rewrite elem_of_nil. specialize (Hno x). tauto.
      * intros x. rewrite Hqin, Hin, planted_cons. tauto.
    + intros x. rewrite !planted_cons, Ho, Hin. change (rowSetTreeToList Leaf) with (@nil Z). rewrite elem_of_nil. tauto.
Qed.

(** ** Lemmas: the object against its specification *)

Record tracks (p : RowSet) (s : row_spec) (n : Z) : Prop := {
  tr_flags : rsFlags p = 0 \/ rsFlags p = ROWSET_SORTED;
  tr_sorted : rsFlags p = ROWSET_SORTED -> asc (pEntry p);
  tr_last : pLast p = last (pEntry p);
  tr_trees : Forall bst (pForest p);
  tr_visible : forall x, planted x (pForest p) <-> x ∈ visible s;
  tr_pending : forall x, x ∈ pEntry p <-> x ∈ pending s;
  tr_batch : iBatch p = batch_ s;
  tr_count : Z.of_nat (length (pEntry p)) <= n;
}.

Definition empty_spec : row_spec := {| visible := ∅; pending := ∅; batch_ := 0 |}.

Lemma tracks_init N : tracks (sqlite3RowSetInit N) empty_spec 0.
Proof.
  split; cbn; try done.
  - by right.
  - intros _. apply SSorted_nil.
  - intros x. rewrite planted_nil. set_solver.
  - intros x. set_solver.
Qed.

Lemma alloc_ok p : exists c k, rowSetEntryAlloc true p = (true, set_fresh c k p).
Proof. unfold rowSetEntryAlloc. destruct (nFresh p =? 0); by eexists _, _. Qed.

Lemma next_clear p s n : tracks p s n -> flag ROWSET_NEXT p = false.
Proof. intros Ht. unfold flag. by destruct (tr_flags _ _ _ Ht) as [-> | ->]. Qed.

Lemma asc_snoc l v x : asc l -> last l = Some v -> v < x -> asc (l ++ [x]).
Proof.
  intros Hl (l' & ->)%last_Some Hx. apply asc_app. split; [done|]. split; [repeat constructor|].
  intros y z Hy [-> |?%not_elem_of_nil]%elem_of_cons; [|done].
  apply asc_app in Hl as (_ & _ & Hlt). apply elem_of_app in Hy as [Hy|[-> |?%not_elem_of_nil]%elem_of_cons]; [|done|done].
  specialize (Hlt y v Hy (list_elem_of_here _ _)). lia.
Qed.

Lemma insert_tracks `{Build} p s n x : tracks p s n ->
  exists p', sqlite3RowSetInsert true x p = Ret p' /\ tracks p' (spec_step (Insert x) s).2 (n + 1)
    /\ pForest p' = pForest p /\ pEntry p' = pEntry p ++ [x].
Proof.
  intros Ht. unfold sqlite3RowSetInsert. rewrite (next_clear _ _ _ Ht), assert_true by done. cbn [mbind outcome_bind].
  destruct (alloc_ok p) as (c & k & ->). cbn [negb]. cbn [set_fresh pLast rsFlags pEntry].
  assert (He : (match pLast p with Some _ => pEntry p ++ [x] | None => [x] end) = pEntry p ++ [x]).
  { rewrite (tr_last _ _ _ Ht). destruct (last (pEntry p)) eqn:E; [done|]. by apply last_None in E as ->. }
  rewrite He. eexists. split; [reflexivity|]. split; [|done].
  split; cbn [rsFlags pEntry pLast pForest iBatch set_entries set_fresh spec_step snd visible pending batch_].
  - destruct (pLast p); [destruct (x <=? _)|]; [|apply (tr_flags _ _ _ Ht)..].
    left. by destruct (tr_flags _ _ _ Ht) as [-> | ->].
  - rewrite (tr_last _ _ _ Ht). destruct (last (pEntry p)) as [v|] eqn:E.
    + destruct (Z.leb_spec x v) as [Hle|Hlt].
      * destruct (tr_flags _ _ _ Ht) as [-> | ->]; discriminate.
      * intros Hf. eapply asc_snoc; [by apply (tr_sorted _ _ _ Ht)|done|done].
    + intros _. apply last_None in E as ->. repeat constructor.
  - by rewrite last_snoc.
  - apply (tr_trees _ _ _ Ht).
  - apply (tr_visible _ _ _ Ht).
  - intros y. rewrite elem_of_app, list_elem_of_singleton, (tr_pending _ _ _ Ht), elem_of_union, elem_of_singleton. tauto.
  - apply (tr_batch _ _ _ Ht).
  - rewrite length_app. pose proof (tr_count _ _ _ Ht). cbn. lia.
Qed.

(** The list that goes into the forest. *)
Lemma sorted_entries `{Build} p s n : tracks p s n -> n < 2 ^ 40 ->
  exists l, (if flag ROWSET_SORTED p then Ret (pEntry p) else rowSetEntrySort (pEntry p)) = Ret l
    /\ asc l /\ forall x, x ∈ l <-> x ∈ pEntry p.
Proof.
  intros Ht Hn. unfold flag. destruct (tr_flags _ _ _ Ht) as [Hf|Hf]; rewrite Hf; cbn [negb Z.land Z.eqb].
  - apply sort_spec. pose proof (tr_count _ _ _ Ht). lia.
  - exists (pEntry p). split; [done|]. split; [by apply (tr_sorted _ _ _ Ht)|done].
Qed.

(** The forest after a change of batch, once it holds the pending rows. *)
Lemma tracks_settled p s n fs b c k : tracks p s n -> Forall bst fs ->
  (forall x, planted x fs <-> x ∈ pEntry p \/ planted x (pForest p)) ->
  tracks (set_batch b (set_entries [] None (Z.lor (rsFlags p) ROWSET_SORTED) (set_forest fs (set_fresh c k p))))
    {| visible := pending s ∪ visible s; pending := ∅; batch_ := b |} n.
Proof.
  intros Ht Hfs Hin. split; cbn [rsFlags pEntry pLast pForest iBatch set_entries set_forest set_fresh set_batch visible pending batch_]; try done.
  - right. by destruct (tr_flags _ _ _ Ht) as [-> | ->].
  - constructor.
  - intros x. by rewrite Hin, (tr_pending _ _ _ Ht), (tr_visible _ _ _ Ht), elem_of_union.
  - intros x. set_solver.
  - pose proof (tr_count _ _ _ Ht). cbn. lia.
Qed.

Lemma test_tracks `{Build} p s n b x : tracks p s n -> n < 2 ^ 40 ->
  exists p', sqlite3RowSetTest true b x p = Ret (bool_decide (x ∈ visible (spec_step (Test b x) s).2), p')
    /\ tracks p' (spec_step (Test b x) s).2 n.
Proof.
  intros Ht Hn. unfold sqlite3RowSetTest. rewrite (next_clear _ _ _ Ht), assert_true by done. cbn [mbind outcome_bind].
  assert (Hbatch : exists p', (if b =? iBatch p then Ret p
     else p ← (match pEntry p with
              | [] => Ret p
              | _ =>
                  l ← (if flag ROWSET_SORTED p then Ret (pEntry p) else rowSetEntrySort (pEntry p));
                  '(fs, left_) ← place l (pForest p);
                  p ← (match left_ with
                       | None => Ret (set_forest fs p)
                       | Some l =>
                           let '(ok, p) := rowSetEntryAlloc true p in
                           if ok then t ← rowSetListToTree l; Ret (set_forest (fs ++ [t]) p)
                           else Ret (set_forest fs p)
                       end);
                  Ret (set_entries [] None (Z.lor (rsFlags p) ROWSET_SORTED) p)
              end); Ret (set_batch b p)) = Ret p' /\ tracks p' (spec_step (Test b x) s).2 n).
  { cbn [spec_step snd]. rewrite (tr_batch _ _ _ Ht). destruct (b =? batch_ s); [by exists p|].
    destruct (pEntry p) as [|e es] eqn:Ee.
    - eexists. split; [reflexivity|]. pose proof (tr_pending _ _ _ Ht) as Hp. rewrite Ee in Hp.
      assert (pending s = ∅) as -> by (apply set_eq; intros y; rewrite <- Hp; set_solver).
      destruct Ht as [Hf Hs Hl Htr Hv _ _ Hc].
      split; cbn [rsFlags pEntry pLast pForest iBatch set_batch visible pending batch_]; try done.
      + intros y. by rewrite Hv, (left_id_L ∅ (∪)).
      + intros y. rewrite Ee. set_solver.
    - rewrite <- Ee. destruct (sorted_entries p s n Ht Hn) as (l & -> & Hl & Hin). cbn [mbind outcome_bind].
      assert (Hlne : l <> []) by (intros ->; specialize (Hin e); rewrite Ee in Hin; set_solver).
      destruct (place_spec l (pForest p) (tr_trees _ _ _ Ht) Hl Hlne) as (fs & o & -> & Hfs & Ho). cbn [mbind outcome_bind].
      destruct o as [m|].
      + destruct (alloc_ok p) as (c & k & ->). destruct Ho as (Hm & Hmne & Hno & Hmin).
        destruct (list_to_tree_spec m Hmne) as (t & -> & Hi & _). cbn [mbind outcome_bind].
        eexists. split; [reflexivity|]. apply (tracks_settled p s n (fs ++ [t]) b c k Ht).
        * apply Forall_app. split; [done|]. apply Forall_singleton. unfold bst. by rewrite Hi.
        * intros y. rewrite planted_app, planted_cons, planted_nil, Hi, Hmin, Hin. specialize (Hno y). tauto.
      + cbn [mbind outcome_bind]. eexists. split; [reflexivity|].
        refine (tracks_settled p s n fs b (pChunk p) (nFresh p) Ht Hfs _).
        intros y. by rewrite Ho, Hin. }
  destruct Hbatch as (p' & -> & Ht'). cbn [mbind outcome_bind]. exists p'. split; [|done]. do 2 f_equal.
  apply eq_true_iff_eq. rewrite bool_decide_eq_true, <- (tr_visible _ _ _ Ht').
  apply forest_find, (tr_trees _ _ _ Ht').
Qed.

Fixpoint inserts (os : list op) : Z :=
  match os with [] => 0 | Insert _ :: os => 1 + inserts os | Test _ _ :: os => inserts os end.

Lemma inserts_pos os : 0 <= inserts os.
Proof. induction os as [|[]]; cbn; lia. Qed.

Lemma run_refines `{Build} os p s n : tracks p s n -> n + inserts os < 2 ^ 40 ->
  impl_run os p = Ret (spec_run os s).
Proof.
  revert p s n. induction os as [|o os IH]; intros p s n Ht Hn; [done|]. cbn [impl_run spec_run inserts] in *.
  pose proof (inserts_pos os). destruct o as [x|b x]; cbn [impl_step].
  - destruct (insert_tracks p s n x Ht) as (p' & -> & Ht' & _). cbn [mbind outcome_bind].
    rewrite (IH _ _ _ Ht') by lia. done.
  - destruct (test_tracks p s n b x Ht ltac:(lia)) as (p' & -> & Ht'). cbn [mbind outcome_bind].
    by rewrite (IH _ _ _ Ht') by lia.
Qed.

(** ** Lemmas: extraction *)

Lemma insert_all_tracks `{Build} l p s n : tracks p s n -> pForest p = [] ->
  exists p' s', insert_all l p = Ret p' /\ tracks p' s' (n + Z.of_nat (length l))
    /\ pForest p' = [] /\ pEntry p' = pEntry p ++ l.
Proof.
  revert p s n. induction l as [|x l IH]; intros p s n Ht Hf; cbn [insert_all length].
  { exists p, s. rewrite Z.add_0_r, app_nil_r. done. }
  destruct (insert_tracks p s n x Ht) as (p1 & -> & Ht1 & Hf1 & He1). cbn [mbind outcome_bind].
  destruct (IH p1 _ _ Ht1) as (p2 & s2 & -> & Ht2 & Hf2 & He2); [congruence|].
  exists p2, s2. split; [done|]. split; [|split; [done|]].
  - by replace (n + Z.of_nat (S (length l))) with (n + 1 + Z.of_nat (length l)) by lia.
  - by rewrite He2, He1, <- app_assoc.
Qed.

(** An object that has started to hand out its entries, or is used up. *)
Definition extracting (p : RowSet) : Prop :=
  pForest p = [] /\ (flag ROWSET_NEXT p = true \/ (pEntry p = [] /\ flag ROWSET_SORTED p = true)).

Lemma extract_spec `{Build} n p : extracting p -> (length (pEntry p) < n)%nat ->
  exists q, extract n p = Ret (pEntry p, q) /\ exists q', sqlite3RowSetNext q = Ret (None, q').
Proof.
  revert p. induction n as [|n IH]; intros p [Hf He] Hl; [lia|]. cbn [extract].
  unfold sqlite3RowSetNext at 1. rewrite assert_true by (by apply bool_decide_eq_true). cbn [mbind outcome_bind].
  destruct He as [Hx|[Hnil Hs]].
  - rewrite Hx. cbn [negb mbind outcome_bind]. destruct (pEntry p) as [|v [|w rest]] eqn:Ee.
    + cbn [mbind outcome_bind]. exists p. split; [done|]. unfold sqlite3RowSetNext.
      rewrite assert_true by (by apply bool_decide_eq_true). cbn [mbind outcome_bind]. rewrite Hx. cbn [negb mbind outcome_bind].
      rewrite Ee. by eexists.
    + cbn [mbind outcome_bind]. set (p' := sqlite3RowSetClear _).
      destruct (IH p') as (q & Hq & Hn); [split; [done|]; right; done|cbn in *; lia|].
      exists q. rewrite Hq. done.
    + cbn [mbind outcome_bind]. set (p' := set_entries _ _ _ _).
      destruct (IH p') as (q & Hq & Hn); [split; [done|]; left; exact Hx|cbn in *; lia|].
      exists q. rewrite Hq. done.
  - assert (Hkey : forall p : RowSet, pForest p = [] -> pEntry p = [] -> flag ROWSET_NEXT p = true ->
      exists q', sqlite3RowSetNext p = Ret (None, q')).
    { clear. intros p Hf He Hx. unfold sqlite3RowSetNext. rewrite assert_true by (by apply bool_decide_eq_true).
      cbn [mbind outcome_bind]. rewrite Hx. cbn [negb mbind outcome_bind]. rewrite He. by eexists. }
    destruct (flag ROWSET_NEXT p) eqn:Hx; cbn [negb].
    + cbn [mbind outcome_bind]. rewrite Hnil. cbn [mbind outcome_bind]. exists p. split; [by rewrite ?Hnil|]. by apply Hkey.
    + rewrite Hs. cbn [negb mbind outcome_bind set_entries pEntry]. rewrite Hnil. cbn [mbind outcome_bind].
      eexists. split; [by rewrite ?Hnil|]. apply Hkey; [done|done|].
      unfold flag. cbn [set_entries rsFlags]. rewrite Z.land_lor_distr_l. apply negb_true_iff, Z.eqb_neq.
      intros [_ Hc]%Z.lor_eq_0_iff. discriminate Hc.
Qed.

Lemma asc_NoDup l : asc l -> NoDup l.
Proof.
  induction l as [|x l IH]; [constructor|]. intros [Hx Hl]%asc_cons. constructor; [|by apply IH].
  intros Hin. specialize (Hx x Hin). lia.
Qed.

(** * Properties *)

(** C40: membership. For any sequence of fewer than 2^40 insertions and any
    number of tests, with any batch numbers, every test answers as the
    specification does: whether the row was inserted before the batch number
    last changed. No assertion fails, neither those on the order of the merged
    lists nor those on empty ones. *)
Theorem rowset_refines_sets `{Build} (N : Z) (os : list op) :
  inserts os < 2 ^ 40 ->
  impl_run os (sqlite3RowSetInit N) = Ret (spec_run os empty_spec).
Proof. intros Hn. eapply run_refines; [apply tracks_init|]. lia. Qed.

Example rowset_refines_sets_witness :
  impl_run (H := debug_build) [Insert 5; Insert 3; Test 1 3; Insert 9; Test 1 9; Test 2 9; Insert 4; Test 3 5; Test 3 7]
    (sqlite3RowSetInit 104)
  = Ret [None; None; Some true; None; Some false; Some true; None; Some true; Some false].
Proof. refine (rowset_refines_sets (H := debug_build) 104 _ _). reflexivity. Defined.

(** Extraction. After fewer than 2^40 insertions the repeated calls of
    the extraction function hand out exactly the distinct rows inserted, in
    ascending order, and then answer that the set is empty, whether or not the
    rows came in order. *)
Theorem rowset_extracts_sorted `{Build} (N : Z) (l : list Z) :
  Z.of_nat (length l) < 2 ^ 40 ->
  exists p m q q', insert_all l (sqlite3RowSetInit N) = Ret p
    /\ asc m /\ (forall x, x ∈ m <-> x ∈ l)
    /\ extract (S (length l)) p = Ret (m, q)
    /\ sqlite3RowSetNext q = Ret (None, q').
Proof.
  intros Hl. destruct (insert_all_tracks l _ _ _ (tracks_init N) eq_refl) as (p & s & Hp & Ht & Hf & He).
  change (pEntry (sqlite3RowSetInit N) ++ l) with l in He. rewrite Z.add_0_l in Ht.
  destruct (sorted_entries p s _ Ht Hl) as (m & Hs & Hm & Hin). rewrite He in Hin.
  set (p1 := set_entries m (pLast p) (Z.lor (rsFlags p) (Z.lor ROWSET_SORTED ROWSET_NEXT)) p).
  assert (Hx : flag ROWSET_NEXT p1 = true).
  { unfold flag, p1. cbn [set_entries rsFlags]. by destruct (tr_flags _ _ _ Ht) as [-> | ->]. }
  assert (Hnext : sqlite3RowSetNext p = sqlite3RowSetNext p1).
  { unfold sqlite3RowSetNext. change (pForest p1) with (pForest p). rewrite Hx.
    destruct (assert_ (bool_decide (pForest p = []))); try done. cbn [mbind outcome_bind negb].
    rewrite (next_clear _ _ _ Ht). cbn [negb].
    assert (Hsw : (if negb (flag ROWSET_SORTED p) then rowSetEntrySort (pEntry p) else Ret (pEntry p)) = Ret m)
      by (rewrite <- Hs; by destruct (flag ROWSET_SORTED p)).
    rewrite Hsw. done. }
  destruct (extract_spec (S (length l)) p1) as (q & Hq & q' & Hq').
  - split; [exact Hf|by left].
  - change (pEntry p1) with m. assert (length m <= length l)%nat; [|lia].
    apply submseteq_length, NoDup_submseteq; [by apply asc_NoDup|]. intros x. apply Hin.
  - exists p, m, q, q'. split; [done|]. split; [done|]. split; [done|]. split; [|done].
    change (pEntry p1) with m in Hq. rewrite <- Hq. cbn [extract]. by rewrite Hnext.
Qed.

Example rowset_extracts_sorted_witness :
  exists p q, insert_all (H := debug_build) [7; 2; 7; 5] (sqlite3RowSetInit 104) = Ret p
    /\ extract (H := debug_build) 5 p = Ret ([2; 5; 7], q).
Proof.
  destruct (rowset_extracts_sorted (H := debug_build) 104 [7; 2; 7; 5]) as (p & m & q & q' & Hp & _ & _ & He & _);
    [reflexivity|].
  exists p, q. split; [exact Hp|]. revert He. vm_compute in Hp. injection Hp as <-. intros He.
  pose proof He as Hm. vm_compute in Hm. injection Hm as <- _. exact He.
Defined.

(** The trees. A list becomes a search tree with exactly its entries in
    order, whose height is at most one more than the logarithm of its length,
    so a test takes logarithmically many steps; reading the tree back gives
    the list. *)
Theorem rowset_tree_balanced `{Build} (l : list Z) :
  l <> [] ->
  exists t, rowSetListToTree l = Ret t /\ rowSetTreeToList t = l
    /\ Z.of_nat (height t) <= Z.log2 (Z.of_nat (length l)) + 1
    /\ (asc l -> forall x, tree_find x t = true <-> x ∈ l).
Proof.
  intros Hne. destruct (list_to_tree_spec l Hne) as (t & Ht & Hi & _ & Hb). exists t. split; [done|].
  split; [done|]. split.
  - unfold balanced in Hb. assert (Hn : 0 < Z.of_nat (length l)) by (destruct l; [done|cbn; lia]).
    destruct (Z.lt_ge_cases (Z.of_nat (height t)) 1); [pose proof (Z.log2_nonneg (Z.of_nat (length l))); lia|].
    assert (Z.of_nat (height t) - 1 <= Z.log2 (Z.of_nat (length l))) by (apply Z.log2_le_pow2; lia). lia.
  - intros Ha x. rewrite tree_find_spec by (unfold bst; by rewrite Hi). by rewrite Hi.
Qed.

Example rowset_tree_balanced_witness :
  exists t, rowSetListToTree (H := debug_build) [1; 2; 3; 4; 5; 6; 7] = Ret t /\ Z.of_nat (height t) <= 3.
Proof.
  destruct (rowset_tree_balanced (H := debug_build) [1; 2; 3; 4; 5; 6; 7]) as (t & Ht & _ & Hh & _); [done|].
  by exists t.
Defined.
