(* ===== verification/Ints.v ===== *)
(** * Checked arithmetic and logarithmic estimates: deps/sqlite3/sqlite3.c, util.c

    64-bit addition, subtraction and multiplication that report overflow, in the
    two versions the preprocessor chooses from (GCC builtins, portable C), and
    the 16-bit logarithms of the query planner.  Signed operations that leave
    their type are undefined, so "returns" includes that the portable tests
    never overflow themselves. *)

From S2P Require Import Prelude Words Float.

(** [GCC_VERSION>=5004000 && !defined(__INTEL_COMPILER)] *)
Class Compiler := { gcc : bool }.
Definition gcc_build : Compiler := {| gcc := true |}.
Definition portable_build : Compiler := {| gcc := false |}.

Definition fits64 (z : Z) : bool := (- 2 ^ 63 <=? z) && (z <? 2 ^ 63).
(** The value of an operation on [i64]. *)
Definition ck64 (z : Z) : outcome Z := if fits64 z then Ret z else Undefined.
(** C division; the operands of the program exclude [SMALLEST_INT64 / -1]. *)
Definition div64 (a b : Z) : outcome Z := if b =? 0 then Undefined else ck64 (Z.quot a b).
Definition i16 (z : Z) : Z := (z + 2 ^ 15) mod 2 ^ 16 - 2 ^ 15.
Abbreviation is_i16 z := (- 2 ^ 15 <= z < 2 ^ 15).

Definition LARGEST_INT64 : Z := Z.lor 0xffffffff (Z.shiftl 0x7fffffff 32).
Definition SMALLEST_INT64 : Z := -1 - LARGEST_INT64.

(** [__builtin_add_overflow] and its kin: the wrapped result is stored in every
    case; the answer says whether it differs from the exact one. *)
Definition builtin_overflow (z : Z) : Z * Z := (i64 z, if fits64 z then 0 else 1).

Section Arith.
Context `{Compiler}.

(** The new [*pA] and the code returned. *)
Definition sqlite3AddInt64 (pA iB : Z) : outcome (Z * Z) :=
  if gcc then Ret (builtin_overflow (pA + iB))
  else
    let iA := pA in
    over ←
      (if 0 <=? iB then
         if 0 <? iA then d ← ck64 (LARGEST_INT64 - iA); Ret (d <? iB) else Ret false
       else
         if iA <? 0 then
           s ← ck64 (iA + LARGEST_INT64); s ← ck64 (- s); t ← ck64 (iB + 1); Ret (t <? s)
         else Ret false);
    if over : bool then Ret (pA, 1) else v ← ck64 (pA + iB); Ret (v, 0).

Definition sqlite3SubInt64 (pA iB : Z) : outcome (Z * Z) :=
  if gcc then Ret (builtin_overflow (pA - iB))
  else if iB =? SMALLEST_INT64 then
    if 0 <=? pA then Ret (pA, 1) else v ← ck64 (pA - iB); Ret (v, 0)
  else nB ← ck64 (- iB); sqlite3AddInt64 pA nB.

Definition sqlite3MulInt64 (pA iB : Z) : outcome (Z * Z) :=
  if gcc then Ret (builtin_overflow (pA * iB))
  else
    let iA := pA in
    over ←
      (if 0 <? iB then
         q ← div64 LARGEST_INT64 iB;
         if q <? iA then Ret true else q ← div64 SMALLEST_INT64 iB; Ret (iA <? q)
       else if iB <? 0 then
         if 0 <? iA then q ← div64 SMALLEST_INT64 iA; Ret (iB <? q)
         else if iA <? 0 then
           if iB =? SMALLEST_INT64 then Ret true
           else if iA =? SMALLEST_INT64 then Ret true
           else nA ← ck64 (- iA); nB ← ck64 (- iB); q ← div64 LARGEST_INT64 nB; Ret (q <? nA)
         else Ret false
       else Ret false);
    if over : bool then Ret (pA, 1) else v ← ck64 (iA * iB); Ret (v, 0).

End Arith.

Definition sqlite3AbsInt32 (x : Z) : outcome Z :=
  if 0 <=? x then Ret x
  else if x =? i32 0x80000000 then Ret 0x7fffffff
  else Ret (- x).

(** ** Logarithmic estimates *)

(** A [static const] array indexed by an [int]. *)
Definition at_ (t : list Z) (i : Z) : outcome Z :=
  if i <? 0 then Undefined else match t !! Z.to_nat i with Some v => Ret v | None => Undefined end.

Definition add_table : list Z :=
  replicate 2 10 ++ replicate 2 9 ++ replicate 2 8 ++ replicate 3 7 ++ replicate 3 6 ++ replicate 3 5 ++
  replicate 4 4 ++ replicate 6 3 ++ replicate 7 2.

Definition sqlite3LogEstAdd (a b : Z) : outcome Z :=
  if b <=? a then
    if b + 49 <? a then Ret a
    else if b + 31 <? a then Ret (i16 (a + 1))
    else x ← at_ add_table (a - b); Ret (i16 (a + x))
  else
    if a + 49 <? b then Ret b
    else if a + 31 <? b then Ret (i16 (b + 1))
    else x ← at_ add_table (b - a); Ret (i16 (b + x)).

Definition log_table : list Z := [0; 2; 3; 5; 6; 7; 8; 9].

(** [while( cond(x) ){ y += dy; x = step(x); }] *)
Fixpoint log_loop (fuel : nat) (cond : Z -> bool) (dy : Z) (step : Z -> Z) (x y : Z) : outcome (Z * Z) :=
  match fuel with
  | O => OutOfFuel
  | S fuel => if cond x then log_loop fuel cond dy step (step x) (i16 (y + dy)) else Ret (x, y)
  end.

Definition sqlite3LogEst `{Compiler} (x : Z) : outcome Z :=
  let y := 40 in
  if (x <? 8) && (x <? 2) then Ret 0
  else
    '(x, y) ←
      (if x <? 8 then log_loop 3 (fun x => x <? 8) (-10) (fun x => u64 (Z.shiftl x 1)) x y
       else if gcc then
         let i := 60 - (63 - Z.log2 x) in              (* __builtin_clzll(x) *)
         Ret (Z.shiftr x i, i16 (y + i * 10))
       else
         '(x, y) ← log_loop 16 (fun x => 255 <? x) 40 (fun x => Z.shiftr x 4) x y;
         log_loop 5 (fun x => 15 <? x) 10 (fun x => Z.shiftr x 1) x y);
    v ← at_ log_table (Z.land x 7);
    Ret (i16 (v + y - 10)).

(** The 12 bits above the mantissa of a double; those of a NaN carry the sign
    the hardware gave it. *)
Definition top_bits (nan_sign : bool) (x : double) : Z :=
  let sgn (s : bool) := if s then 2048 else 0 in
  match x with
  | SpecFloat.S754_zero s => sgn s
  | SpecFloat.S754_infinity s => sgn s + 2047
  | SpecFloat.S754_nan => sgn nan_sign + 2047
  | SpecFloat.S754_finite s m e => sgn s + (if Zpos m <? 2 ^ 52 then 0 else e + 52 + 1023)
  end.

Definition sqlite3LogEstFromDouble `{Compiler} (nan_sign : bool) (x : double) : outcome Z :=
  if dle x d1 then Ret 0
  else if dle x (of_int 2000000000) then n ← to_u64 x; sqlite3LogEst n
  else let e := i16 (top_bits nan_sign x - 1022) in Ret (i16 (e * 10)).

Definition sqlite3LogEstToInt (x : Z) : outcome Z :=
  let n := u64 (Z.rem x 10) in
  let x := Z.quot x 10 in
  let n := if 5 <=? n then u64 (n - 2) else if 1 <=? n then u64 (n - 1) else n in
  if 60 <? x then Ret LARGEST_INT64
  else if 3 <=? x then Ret (u64 (Z.shiftl (u64 (n + 8)) (x - 3)))
  else if 64 <=? 3 - x then Undefined                    (* shift count *)
  else Ret (Z.shiftr (u64 (n + 8)) (3 - x)).

(** ** Specification *)

(** The exact result when it fits; otherwise code 1, and in [*pA] what was there
    before or, from the builtin, the wrapped result. *)
Definition checked `{Compiler} (pA z : Z) : outcome (Z * Z) :=
  if fits64 z then Ret (z, 0) else Ret (if gcc then i64 z else pA, 1).

(** The four leading bits of a number, the others cleared. *)
Definition leading_four (v : Z) : Z := let k := Z.max 0 (Z.log2 v - 3) in Z.shiftl (Z.shiftr v k) k.

(** ** Lemmas *)

Lemma LARGEST_eq : LARGEST_INT64 = 2 ^ 63 - 1.
Proof. reflexivity. Qed.
Lemma SMALLEST_eq : SMALLEST_INT64 = - 2 ^ 63.
Proof. reflexivity. Qed.

Lemma fits64_spec z : reflect (is_i64 z) (fits64 z).
Proof. apply iff_reflect. unfold fits64. rewrite andb_true_iff, Z.leb_le, Z.ltb_lt. lia. Qed.

Lemma ck64_id z : is_i64 z -> ck64 z = Ret z.
Proof. intros. unfold ck64. by destruct (fits64_spec z). Qed.

Lemma div64_id a b : is_i64 a -> b <> 0 -> (b = -1 -> a <> - 2 ^ 63) -> div64 a b = Ret (Z.quot a b).
Proof.
  intros Ha Hb Hm. unfold div64. destruct (Z.eqb_spec b 0); [done|]. apply ck64_id.
  pose proof (Z.quot_rem a b Hb). pose proof (Z.rem_bound_abs a b Hb).
  pose proof (Z.rem_sign_mul a b Hb). nia.
Qed.

Lemma builtin_checked `{Compiler} pA z : gcc = true -> Ret (builtin_overflow z) = checked pA z.
Proof.
  intros E. unfold builtin_overflow, checked. rewrite E. destruct (fits64_spec z); [|done].
  by rewrite i64_id.
Qed.

(** A portable routine whose test finds out whether the exact result fits. *)
Lemma portable_checked `{Compiler} pA z (o : outcome bool) :
  gcc = false -> o = Ret (negb (fits64 z)) ->
  (over ← o; if over : bool then Ret (pA, 1) else v ← ck64 z; Ret (v, 0)) = checked pA z.
Proof.
  intros E ->. unfold checked, ck64. rewrite E. cbn. by destruct (fits64 z).
Qed.

Lemma over_intro z (b : bool) :
  (b = true -> ~ is_i64 z) -> (b = false -> is_i64 z) -> Ret b = Ret (negb (fits64 z)).
Proof. intros Ht Hf. f_equal. revert Ht Hf. intros Ht Hf. destruct (fits64_spec z), b; try done; [by destruct Ht|by destruct n; apply Hf]. Qed.

(** Evaluate the steps of a test, and say what its answer means. *)
Ltac test_steps :=
  cbn [mbind outcome_bind];
  repeat (match goal with
          | |- ck64 ?z ≫= _ = _ => rewrite (ck64_id z) by lia
          | |- div64 ?a ?b ≫= _ = _ => rewrite (div64_id a b) by lia
          end; cbn [mbind outcome_bind]).
Ltac test_done := apply over_intro; intros; zify_bool; try discriminate; try lia; try nia.

Lemma add_checked `{Compiler} a b : is_i64 a -> is_i64 b -> sqlite3AddInt64 a b = checked a (a + b).
Proof.
  intros Ha Hb. unfold sqlite3AddInt64. destruct gcc eqn:E; [by apply builtin_checked|].
  apply portable_checked; [done|]. rewrite LARGEST_eq.
  destruct (Z.leb_spec 0 b), (Z.ltb_spec 0 a), (Z.ltb_spec a 0); try lia; test_steps; test_done.
Qed.

Lemma sub_checked `{Compiler} a b : is_i64 a -> is_i64 b -> sqlite3SubInt64 a b = checked a (a - b).
Proof.
  intros Ha Hb. unfold sqlite3SubInt64. destruct gcc eqn:E; [by apply builtin_checked|].
  rewrite SMALLEST_eq. destruct (Z.eqb_spec b (- 2 ^ 63)).
  - apply (portable_checked a (a - b) (Ret (0 <=? a))); [done|test_done].
  - rewrite ck64_id by lia. cbn [mbind outcome_bind].
    replace (a - b) with (a + - b) by lia. apply add_checked; lia.
Qed.

(** Comparisons with a truncated quotient, by a positive divisor. *)
Lemma quot_lt_pos m a b : 0 <= m -> 0 < b -> (Z.quot m b < a <-> m < a * b).
Proof.
  intros Hm Hb. rewrite Z.quot_div_nonneg by lia. pose proof (Z.div_mod m b).
  pose proof (Z.mod_pos_bound m b). nia.
Qed.
Lemma lt_quot_neg m a b : m <= 0 -> 0 < b -> (a < Z.quot m b <-> a * b < m).
Proof.
  intros Hm Hb. replace m with (- - m) by lia. rewrite Z.quot_opp_l by lia.
  pose proof (quot_lt_pos (- m) (- a) b). nia.
Qed.

Lemma mul_checked `{Compiler} a b : is_i64 a -> is_i64 b -> sqlite3MulInt64 a b = checked a (a * b).
Proof.
  intros Ha Hb. unfold sqlite3MulInt64. destruct gcc eqn:E; [by apply builtin_checked|].
  apply portable_checked; [done|]. rewrite LARGEST_eq, SMALLEST_eq.
  pose proof (lt_quot_neg (- 2 ^ 63)) as Hneg. pose proof (quot_lt_pos (2 ^ 63 - 1)) as Hpos.
  destruct (Z.ltb_spec 0 b);
    [|destruct (Z.ltb_spec b 0); [destruct (Z.ltb_spec 0 a); [|destruct (Z.ltb_spec a 0)]|]].
  - specialize (Hneg a b). specialize (Hpos a b). test_steps.
    destruct (Z.ltb_spec (Z.quot (2 ^ 63 - 1) b) a); test_steps; test_done.
  - specialize (Hneg b a). rewrite (Z.mul_comm a b). assert (b * a <= 0) by nia.
    test_steps. test_done.
  - destruct (Z.eqb_spec b (- 2 ^ 63)); [test_done|].
    destruct (Z.eqb_spec a (- 2 ^ 63)); [test_done|].
    specialize (Hpos (- a) (- b)). replace (a * b) with (- a * - b) by lia.
    assert (0 <= - a * - b) by nia. test_steps. test_done.
  - test_done.
  - test_done.
Qed.

(** Addition, subtraction and multiplication of 64-bit integers store the
    exact result and return 0 when it fits, and return 1 otherwise, in both
    builds and without undefined behaviour in their own tests.  On overflow the
    builds differ: the portable code leaves [*pA] alone, as the comment says,
    the GCC build stores the wrapped result. *)
Theorem int64_arith_checked `{Compiler} a b :
  is_i64 a -> is_i64 b ->
  sqlite3AddInt64 a b = checked a (a + b) /\
  sqlite3SubInt64 a b = checked a (a - b) /\
  sqlite3MulInt64 a b = checked a (a * b).
Proof. auto using add_checked, sub_checked, mul_checked. Qed.

Lemma int64_arith_checked_witness :
  @sqlite3MulInt64 portable_build 3037000500 3037000500 = Ret (3037000500, 1) /\
  @sqlite3AddInt64 gcc_build (2 ^ 63 - 1) 1 = Ret (- 2 ^ 63, 1).
Proof.
  split.
  - refine (eq_trans (proj2 (proj2 (@int64_arith_checked portable_build 3037000500 3037000500 _ _))) _);
      [lia|lia|reflexivity].
  - refine (eq_trans (proj1 (@int64_arith_checked gcc_build (2 ^ 63 - 1) 1 _ _)) _);
      [lia|lia|reflexivity].
Defined.

(** ** Logarithmic estimates: the leading four bits decide *)

Lemma i16_id z : is_i16 z -> i16 z = z.
Proof. intros. unfold i16. rewrite Z.mod_small; lia. Qed.

(** The shift that leaves four bits. *)
Definition lead (x : Z) : Z := Z.log2 x - 3.

Lemma lead_bounds x : 8 <= x -> 8 <= Z.shiftr x (lead x) < 16.
Proof.
  intros Hx. unfold lead. assert (3 <= Z.log2 x) by (change 3 with (Z.log2 8); by apply Z.log2_le_mono).
  rewrite Z.shiftr_div_pow2 by lia. destruct (Z.log2_spec x) as [Hl Hu]; [lia|].
  assert (2 ^ Z.log2 x = 8 * 2 ^ (Z.log2 x - 3)).
  { change 8 with (2 ^ 3). rewrite <- Z.pow_add_r by lia. f_equal; lia. }
  assert (2 ^ Z.succ (Z.log2 x) = 16 * 2 ^ (Z.log2 x - 3)).
  { change 16 with (2 ^ 4). rewrite <- Z.pow_add_r by lia. f_equal; lia. }
  assert (0 < 2 ^ (Z.log2 x - 3)) by (apply Z.pow_pos_nonneg; lia).
  split; [apply Z.div_le_lower_bound; lia|apply Z.div_lt_upper_bound; lia].
Qed.

Lemma lead_unique x j : 0 <= j -> 0 < x -> 8 <= Z.shiftr x j < 16 -> j = lead x.
Proof.
  intros Hj Hx Hs. unfold lead. pose proof (Z.log2_shiftr x j Hx) as E.
  assert (Z.log2 (Z.shiftr x j) = 3) as E3 by (apply Z.log2_unique; lia).
  lia.
Qed.

Lemma log2_u64 x : 8 <= x -> is_u64 x -> 3 <= Z.log2 x < 64.
Proof.
  intros. split; [change 3 with (Z.log2 8); by apply Z.log2_le_mono|apply Z.log2_lt_pow2; lia].
Qed.

(** A loop that shifts by [k] while the number exceeds [top]. *)
Lemma log_loop_shift fuel top k x y :
  0 < k -> 8 * 2 ^ k <= top + 1 -> 8 <= x < (top + 1) * 2 ^ (k * Z.of_nat fuel) ->
  0 <= y -> y + 10 * k * Z.of_nat fuel < 2 ^ 15 ->
  exists j,
    0 <= j <= k * Z.of_nat fuel /\
    log_loop (S fuel) (fun x => top <? x) (10 * k) (fun x => Z.shiftr x k) x y
    = Ret (Z.shiftr x j, y + 10 * j) /\
    8 <= Z.shiftr x j <= top.
Proof.
  intros Hk Ht. revert x y. induction fuel as [|fuel IH]; intros x y Hx Hy Hb.
  - change (Z.of_nat 0) with 0 in Hx. rewrite Z.mul_0_r in Hx. exists 0. cbn [log_loop].
    destruct (Z.ltb_spec top x); [lia|]. rewrite Z.shiftr_0_r, Z.add_0_r. repeat split; lia.
  - remember (S fuel) as n. cbn [log_loop]. destruct (Z.ltb_spec top x) as [Hc|Hc].
    + subst n. rewrite i16_id by nia. assert (0 < 2 ^ k) by (apply Z.pow_pos_nonneg; lia).
      destruct (IH (Z.shiftr x k) (y + 10 * k)) as (j & Hj & E & Hr); [|lia|lia|].
      * rewrite Z.shiftr_div_pow2 by lia. split; [apply Z.div_le_lower_bound; lia|].
        apply Z.div_lt_upper_bound; [lia|].
        replace (k * Z.of_nat (S fuel)) with (k + k * Z.of_nat fuel) in Hx by lia.
        rewrite Z.pow_add_r in Hx by lia. lia.
      * exists (k + j). rewrite E. rewrite Z.shiftr_shiftr in * by lia.
        split; [lia|]. split; [do 2 f_equal; lia|done].
    + exists 0. rewrite Z.shiftr_0_r, Z.add_0_r. repeat split; lia.
Qed.

(** The two loops of the portable version. *)
Lemma log_loops x :
  8 <= x -> is_u64 x ->
  ('(x, y) ← log_loop 16 (fun x => 255 <? x) 40 (fun x => Z.shiftr x 4) x 40;
   log_loop 5 (fun x => 15 <? x) 10 (fun x => Z.shiftr x 1) x y)
  = Ret (Z.shiftr x (lead x), 40 + 10 * lead x).
Proof.
  intros Hx Hu.
  destruct (log_loop_shift 15 255 4 x 40) as (j & Hj & E0 & Hr); [cbn; lia..|].
  change (10 * 4) with 40 in E0. rewrite E0.
  cbn [mbind outcome_bind].
  destruct (log_loop_shift 4 15 1 (Z.shiftr x j) (40 + 10 * j)) as (i & Hi & E & Hr'); [cbn; lia..|].
  change (10 * 1) with 10 in E. rewrite E. rewrite Z.shiftr_shiftr in * by lia.
  rewrite <- (lead_unique x (j + i)) by lia. do 2 f_equal; lia.
Qed.

(** Both builds, in closed form. *)
Lemma log_est_closed `{Compiler} x :
  8 <= x -> is_u64 x ->
  sqlite3LogEst x =
    (v ← at_ log_table (Z.shiftr x (lead x) - 8); Ret (v + 30 + 10 * lead x)).
Proof.
  intros Hx Hu. pose proof (lead_bounds x Hx) as Hm. pose proof (log2_u64 x Hx Hu) as Hl.
  assert (El : lead x = 60 - (63 - Z.log2 x)) by (unfold lead; lia).
  unfold sqlite3LogEst. destruct (Z.ltb_spec x 8); [lia|]. cbn [andb].
  etrans.
  { apply (f_equal (fun o : outcome (Z * Z) => '(x, y) ← o; v ← at_ log_table (Z.land x 7); Ret (i16 (v + y - 10)))).
    transitivity (Ret (Z.shiftr x (lead x), 40 + 10 * lead x)); [|reflexivity].
    destruct gcc; [|by apply log_loops]. rewrite <- El, i16_id by lia. by rewrite (Z.mul_comm (lead x)). }
  cbn [mbind outcome_bind]. change 7 with (Z.ones 3). rewrite Z.land_ones by lia.
  assert (E : Z.shiftr x (lead x) mod 2 ^ 3 = Z.shiftr x (lead x) - 8)
    by (change (2 ^ 3) with 8; symmetry; apply (Z.mod_unique _ _ 1); lia).
  rewrite E. assert (Hin : 0 <= Z.shiftr x (lead x) - 8 < 8) by lia.
  destruct (at_ log_table _) as [v| | | |] eqn:Ea; try done. cbn [mbind outcome_bind]. f_equal.
  assert (0 <= v < 10).
  { revert Ea Hin. generalize (Z.shiftr x (lead x) - 8). intros i Ea Hin.
    assert (i = 0 \/ i = 1 \/ i = 2 \/ i = 3 \/ i = 4 \/ i = 5 \/ i = 6 \/ i = 7) by lia.
    intuition subst; vm_compute in Ea; injection Ea; lia. }
  rewrite i16_id; lia.
Qed.

Lemma at_log_table i : 0 <= i < 8 ->
  exists v, at_ log_table i = Ret v /\ 0 <= v < 10 /\
    2 ^ (2 * v + 60) <= 2 * (i + 8) ^ 20 /\ 2 * (i + 9) ^ 20 <= 2 ^ (2 * v + 65) /\
    (v <> 1 /\ v <> 4).
Proof.
  intros Hi.
  assert (i = 0 \/ i = 1 \/ i = 2 \/ i = 3 \/ i = 4 \/ i = 5 \/ i = 6 \/ i = 7) as Hc by lia.
  destruct Hc as [->|[->|[->|[->|[->|[->|[->| ->]]]]]]]; eexists; (split; [reflexivity|]);
    vm_compute; repeat split; intro; discriminate.
Qed.

Lemma small_cases x : 1 <= x < 8 -> x = 1 \/ x = 2 \/ x = 3 \/ x = 4 \/ x = 5 \/ x = 6 \/ x = 7.
Proof. lia. Qed.

Lemma shiftr_interval x k : 0 <= k -> Z.shiftr x k * 2 ^ k <= x < (Z.shiftr x k + 1) * 2 ^ k.
Proof.
  intros Hk. rewrite Z.shiftr_div_pow2 by lia. assert (0 < 2 ^ k) by (apply Z.pow_pos_nonneg; lia).
  pose proof (Z.div_mod x (2 ^ k)). pose proof (Z.mod_pos_bound x (2 ^ k)). lia.
Qed.

(** In both builds the logarithm of a number lies between 10 log2 x - 2 and
    10 log2 x + 1/2 (stated without logarithms: 2^(2L-1) <= x^20 < 2^(2L+4)). *)
Theorem log_est_accurate `{Compiler} x :
  1 <= x < 2 ^ 64 ->
  exists L, sqlite3LogEst x = Ret L /\ 0 <= L < 650 /\
    2 ^ (2 * L) <= 2 * x ^ 20 < 2 ^ (2 * L + 5).
Proof.
  intros Hx. destruct (Z.lt_ge_cases x 8) as [Hs|Hb].
  - destruct (small_cases x) as [->|[->|[->|[->|[->|[->| ->]]]]]]; [lia|..];
      (eexists; split; [reflexivity|]); vm_compute; repeat split; intro; discriminate.
  - rewrite log_est_closed by lia. pose proof (lead_bounds x Hb) as Hm.
    pose proof (log2_u64 x Hb ltac:(lia)) as Hl.
    destruct (at_log_table (Z.shiftr x (lead x) - 8)) as (v & -> & Hv & Hlo & Hhi & _); [lia|].
    cbn [mbind outcome_bind]. eexists. split; [done|]. unfold lead in *.
    set (k := Z.log2 x - 3) in *. assert (0 <= k <= 60) by lia. split; [lia|].
    destruct (shiftr_interval x k) as [Hxl Hxh]; [lia|]. set (m := Z.shiftr x k) in *.
    replace (m - 8 + 8) with m in Hlo by lia. replace (m - 8 + 9) with (m + 1) in Hhi by lia.
    assert (Ek : forall a, (a * 2 ^ k) ^ 20 = a ^ 20 * 2 ^ (20 * k)).
    { intros a. rewrite Z.pow_mul_l, <- Z.pow_mul_r by lia. do 2 f_equal; lia. }
    replace (2 * (v + 30 + 10 * k)) with (2 * v + 60 + 20 * k) by lia.
    replace (2 * v + 60 + 20 * k + 5) with (2 * v + 65 + 20 * k) by lia.
    rewrite (Z.pow_add_r 2 (2 * v + 60)), (Z.pow_add_r 2 (2 * v + 65)) by lia.
    assert (0 < 2 ^ (20 * k)) by (apply Z.pow_pos_nonneg; lia).
    split.
    + transitivity (2 * (m * 2 ^ k) ^ 20).
      { rewrite Ek, Z.mul_assoc. by apply Z.mul_le_mono_nonneg_r; [apply Z.lt_le_incl|]. }
      clear Hlo Hhi. apply Z.mul_le_mono_nonneg_l; [done|]. apply Z.pow_le_mono_l. nia.
    + apply Z.lt_le_trans with (2 * ((m + 1) * 2 ^ k) ^ 20);
        [|rewrite Ek, Z.mul_assoc; by apply Z.mul_le_mono_nonneg_r; [apply Z.lt_le_incl|]].
      clear Hlo Hhi. apply Z.mul_lt_mono_pos_l; [done|]. apply Z.pow_lt_mono_l; lia.
Qed.

Lemma log_est_accurate_witness :
  exists L, @sqlite3LogEst portable_build 1000000 = Ret L /\ 0 <= L < 650 /\
    2 ^ (2 * L) <= 2 * 1000000 ^ 20 < 2 ^ (2 * L + 5).
Proof. apply (@log_est_accurate portable_build 1000000). lia. Defined.

(** Back from a logarithm of at least 30: [v] is its last digit. *)
Lemma log_to_int v k :
  0 <= v < 10 -> 0 <= k <= 57 ->
  sqlite3LogEstToInt (v + 30 + 10 * k) =
    Ret (Z.shiftl ((if 5 <=? v then v - 2 else if 1 <=? v then v - 1 else v) + 8) k).
Proof.
  intros Hv Hk. unfold sqlite3LogEstToInt.
  rewrite Z.quot_div_nonneg, Z.rem_mod_nonneg by lia.
  replace ((v + 30 + 10 * k) / 10) with (k + 3) by (apply (Z.div_unique _ _ _ v); lia).
  replace ((v + 30 + 10 * k) mod 10) with v by (apply (Z.mod_unique _ _ (k + 3)); lia).
  rewrite (u64_id v) by lia.
  set (n := if 5 <=? v then u64 (v - 2) else if 1 <=? v then u64 (v - 1) else v).
  assert (En : n = if 5 <=? v then v - 2 else if 1 <=? v then v - 1 else v).
  { unfold n. destruct (Z.leb_spec 5 v), (Z.leb_spec 1 v); try done; rewrite u64_id; lia. }
  rewrite <- En. assert (0 <= n < 8).
  { rewrite En. destruct (Z.leb_spec 5 v), (Z.leb_spec 1 v); lia. }
  clearbody n. destruct (Z.ltb_spec 60 (k + 3)); [lia|]. destruct (Z.leb_spec 3 (k + 3)); [|lia].
  rewrite (u64_id (n + 8)) by lia. replace (k + 3 - 3) with k by lia.
  f_equal. apply u64_id. rewrite Z.shiftl_mul_pow2 by lia.
  assert (0 < 2 ^ k <= 2 ^ 57) by (split; [apply Z.pow_pos_nonneg; lia|apply Z.pow_le_mono_r; lia]).
  nia.
Qed.

(** From an integer to its logarithm and back the four leading bits stay
    and the others are cleared. *)
Theorem log_est_roundtrip `{Compiler} x :
  1 <= x < 2 ^ 61 ->
  (sqlite3LogEst x ≫= sqlite3LogEstToInt) = Ret (leading_four x).
Proof.
  intros Hx. destruct (Z.lt_ge_cases x 8) as [Hs|Hb].
  - destruct (small_cases x) as [->|[->|[->|[->|[->|[->| ->]]]]]]; [lia|..]; reflexivity.
  - rewrite log_est_closed by lia. pose proof (lead_bounds x Hb) as Hm.
    assert (3 <= Z.log2 x < 61) by (split; [apply log2_u64; lia|apply Z.log2_lt_pow2; lia]).
    unfold leading_four, lead in *. rewrite Z.max_r by lia.
    remember (Z.log2 x - 3) as k. remember (Z.shiftr x k) as m eqn:Em. clear Em.
    assert (m = 8 \/ m = 9 \/ m = 10 \/ m = 11 \/ m = 12 \/ m = 13 \/ m = 14 \/ m = 15) as Hc by lia.
    destruct Hc as [->|[->|[->|[->|[->|[->|[->| ->]]]]]]];
      (etrans; [apply log_to_int; lia|reflexivity]).
Qed.

Lemma log_est_roundtrip_witness :
  (@sqlite3LogEst gcc_build 1000 ≫= sqlite3LogEstToInt) = Ret 960.
Proof. etrans; [apply (@log_est_roundtrip gcc_build 1000); lia|reflexivity]. Defined.

Lemma at_add_table d : 0 <= d <= 31 -> exists x, at_ add_table d = Ret x /\ 2 <= x <= 10 /\ (d = 0 -> x = 10).
Proof.
  intros Hd.
  assert (Hall : forallb (fun n => match at_ add_table (Z.of_nat n) with
                                   | Ret x => (2 <=? x) && (x <=? 10) && ((0 <? Z.of_nat n) || (x =? 10))
                                   | _ => false end) (seq 0 32) = true) by reflexivity.
  rewrite forallb_forall in Hall. specialize (Hall (Z.to_nat d) ltac:(apply in_seq; lia)).
  rewrite Z2Nat.id in Hall by lia. destruct (at_ add_table d) as [x| | | |]; try discriminate.
  exists x. split; [done|]. rewrite !andb_true_iff, orb_true_iff in Hall. lia.
Qed.

Lemma log_add_max a b :
  - 32000 <= b <= a -> a <= 32000 ->
  exists r, sqlite3LogEstAdd a b = Ret r /\ a <= r <= a + 10 /\
    (a = b -> r = a + 10) /\ (a - b < 50 -> a < r) /\ (50 <= a - b -> r = a).
Proof.
  intros Hb Ha. unfold sqlite3LogEstAdd. destruct (Z.leb_spec b a); [|lia].
  destruct (Z.ltb_spec (b + 49) a); [exists a; repeat split; intros; lia|].
  destruct (Z.ltb_spec (b + 31) a); [rewrite i16_id by lia; exists (a + 1); repeat split; intros; lia|].
  destruct (at_add_table (a - b)) as (x & -> & Hx & Hx0); [lia|]. cbn.
  rewrite i16_id by lia. exists (a + x). repeat split; intros; lia.
Qed.

Lemma log_add_sym a b : a < b -> sqlite3LogEstAdd a b = sqlite3LogEstAdd b a.
Proof.
  intros. unfold sqlite3LogEstAdd. destruct (Z.leb_spec b a), (Z.leb_spec a b); try lia. done.
Qed.

(** The logarithm of a sum: symmetric, never below the larger operand, and by
    at most 10, the logarithm of two, above it; it is exactly that for equal operands
    and nothing from a distance of 50 on. *)
Theorem log_est_add_laws a b :
  - 32000 <= a <= 32000 -> - 32000 <= b <= 32000 ->
  sqlite3LogEstAdd a b = sqlite3LogEstAdd b a /\
  exists r, sqlite3LogEstAdd a b = Ret r /\ Z.max a b <= r <= Z.max a b + 10 /\
    (a = b -> r = a + 10) /\ (Z.abs (a - b) < 50 -> Z.max a b < r) /\
    (50 <= Z.abs (a - b) -> r = Z.max a b).
Proof.
  intros Ha Hb.
  destruct (Z.le_ge_cases a b) as [Hab|Hab].
  - rewrite (Z.max_r a b) by lia. assert (sqlite3LogEstAdd a b = sqlite3LogEstAdd b a) as ->.
    { destruct (Z.eq_dec a b) as [->|]; [done|apply log_add_sym; lia]. }
    split; [done|].
    destruct (log_add_max b a) as (r & E & Hr); [lia..|]. exists r. rewrite E.
    repeat split; intros; lia.
  - rewrite (Z.max_l a b) by lia.
    split; [destruct (Z.eq_dec a b) as [->|]; [done|symmetry; apply log_add_sym; lia]|].
    destruct (log_add_max a b) as (r & E & Hr); [lia..|]. exists r. rewrite E.
    repeat split; intros; lia.
Qed.

Lemma log_est_add_laws_witness : sqlite3LogEstAdd 30 33 = Ret 42 /\ sqlite3LogEstAdd 30 33 = sqlite3LogEstAdd 33 30.
Proof. split; [reflexivity|apply (log_est_add_laws 30 33); lia]. Defined.

(** Negative logarithms stand for fractions; the conversion back turns the last
    digits -7, -8 and -9 of them into 2^61 - 1. *)
Example log_est_to_int_fractions :
  sqlite3LogEstToInt (-10) = Ret 0 /\ sqlite3LogEstToInt (-9) = Ret (2 ^ 61 - 1) /\
  sqlite3LogEstToInt (-610) = Undefined.
Proof. repeat split; reflexivity. Qed.

(** The absolute value, saturated. *)
Theorem abs_int32_spec x : is_i32 x -> sqlite3AbsInt32 x = Ret (Z.min (Z.abs x) (2 ^ 31 - 1)).
Proof.
  intros Hx. unfold sqlite3AbsInt32. change (i32 2147483648) with (- 2 ^ 31).
  destruct (Z.leb_spec 0 x), (Z.eqb_spec x (- 2 ^ 31)); f_equal; lia.
Qed.

(** The logarithm of a double above 2e9, which is m * 2^e with a full mantissa,
    is the power of two above it. *)
Theorem log_est_from_double_large `{Compiler} sgn m e :
  2 ^ 52 <= Zpos m < 2 ^ 53 -> - 1074 <= e <= 971 ->
  dle (SpecFloat.S754_finite false m e) (of_int 2000000000) = false ->
  dle (SpecFloat.S754_finite false m e) d1 = false ->
  sqlite3LogEstFromDouble sgn (SpecFloat.S754_finite false m e) = Ret (10 * (e + 53)).
Proof.
  intros Hm He Hbig Hone. unfold sqlite3LogEstFromDouble. rewrite Hone, Hbig. unfold top_bits.
  destruct (Z.ltb_spec (Zpos m) (2 ^ 52)); [lia|]. cbn [negb]. rewrite (i16_id (_ - 1022)) by lia.
  rewrite i16_id by lia. f_equal. lia.
Qed.

Lemma log_est_from_double_large_witness :
  @sqlite3LogEstFromDouble gcc_build false (SpecFloat.S754_finite false 4503599627370496 (-20)) = Ret 330.
Proof.
  etrans; [apply (@log_est_from_double_large gcc_build false 4503599627370496 (-20));
           [lia|lia|reflexivity|reflexivity]|reflexivity].
Defined.
