(* ===== verification/Chars.v ===== *)
(** * Characters: deps/sqlite3/sqlite3.c, global.c and util.c

    The character tables of the library, the tests defined from them, and the
    comparisons and the hash that ignore the case of ASCII letters.  A string is
    the list of its [char]s, values in [-128, 128), up to and including the
    terminating zero; reading past the end of the list is undefined. *)

From S2P Require Import Prelude Words.

(** The conversion to [unsigned char]. *)
Definition uchar (c : Z) : Z := c mod 256.
Abbreviation is_char c := (- 128 <= c < 128).

(** The [char]s of a string literal in ASCII, without the terminator. *)
Definition chars (s : string) : list Z := map (fun a => Z.of_N (Ascii.N_of_ascii a)) (String.list_ascii_of_string s).

(** The results of the comparison operators (NE EQ GT LE LT GE) for less, equal
    and greater. *)
Definition comparison_rows : list Z :=
  [1; 0; 0; 1; 1; 0;
   0; 1; 0; 1; 0; 1;
   1; 0; 1; 0; 0; 1].

(** [n] equal entries of a table, and [n] consecutive ones. *)
Definition rep (n : nat) (v : Z) : list Z := replicate n v.
Definition from (n : nat) (v : Z) : list Z := seqZ v (Z.of_nat n).

(** The 256 lower-case forms: the table counts up from 0, has 97 to 122 in the
    places of 65 to 90, and counts on; behind it are the three rows. *)
Definition sqlite3UpperToLower : list Z :=
  from 65 0 ++ from 26 97 ++ from 165 91 ++ comparison_rows.

(** The table by runs of equal entries; the comments give their positions. *)
Definition sqlite3CtypeMap : list Z :=
  rep 9 0x00 ++         (* 00..08 *)
  rep 5 0x01 ++         (* 09..0d *)
  rep 18 0x00 ++        (* 0e..1f *)
  rep 1 0x01 ++         (* 20..20 *)
  rep 1 0x00 ++         (* 21..21 *)
  rep 1 0x80 ++         (* 22..22 *)
  rep 1 0x00 ++         (* 23..23 *)
  rep 1 0x40 ++         (* 24..24 *)
  rep 2 0x00 ++         (* 25..26 *)
  rep 1 0x80 ++         (* 27..27 *)
  rep 8 0x00 ++         (* 28..2f *)
  rep 10 0x0c ++        (* 30..39 *)
  rep 7 0x00 ++         (* 3a..40 *)
  rep 6 0x0a ++         (* 41..46 *)
  rep 20 0x02 ++        (* 47..5a *)
  rep 1 0x80 ++         (* 5b..5b *)
  rep 3 0x00 ++         (* 5c..5e *)
  rep 1 0x40 ++         (* 5f..5f *)
  rep 1 0x80 ++         (* 60..60 *)
  rep 6 0x2a ++         (* 61..66 *)
  rep 20 0x22 ++        (* 67..7a *)
  rep 5 0x00 ++         (* 7b..7f *)
  rep 128 0x40.         (* 80..ff *)

(** A table at an [unsigned char]. *)
Definition look (t : list Z) (c : Z) : Z := nth (Z.to_nat (uchar c)) t 0.

Definition sqlite3Toupper (x : Z) : Z := Z.land x (Z.lnot (Z.land (look sqlite3CtypeMap x) 0x20)).
Definition sqlite3Isspace (x : Z) : bool := negb (Z.land (look sqlite3CtypeMap x) 0x01 =? 0).
Definition sqlite3Isalnum (x : Z) : bool := negb (Z.land (look sqlite3CtypeMap x) 0x06 =? 0).
Definition sqlite3Isalpha (x : Z) : bool := negb (Z.land (look sqlite3CtypeMap x) 0x02 =? 0).
Definition sqlite3Isdigit (x : Z) : bool := negb (Z.land (look sqlite3CtypeMap x) 0x04 =? 0).
Definition sqlite3Isxdigit (x : Z) : bool := negb (Z.land (look sqlite3CtypeMap x) 0x08 =? 0).
Definition sqlite3Tolower (x : Z) : Z := look sqlite3UpperToLower x.
Definition sqlite3Isquote (x : Z) : bool := negb (Z.land (look sqlite3CtypeMap x) 0x80 =? 0).

(** One turn of the [for(;;)] loop per call. *)
Fixpoint sqlite3StrICmp (zLeft zRight : list Z) : outcome Z :=
  match zLeft, zRight with
  | c :: a, x :: b =>
      if uchar c =? uchar x then if uchar c =? 0 then Ret 0 else sqlite3StrICmp a b
      else
        let c := sqlite3Tolower c - sqlite3Tolower x in
        if c =? 0 then sqlite3StrICmp a b else Ret c
  | _, _ => Undefined
  end.

(** [None] is the null pointer. *)
Definition sqlite3_stricmp (zLeft zRight : option (list Z)) : outcome Z :=
  match zLeft, zRight with
  | None, None => Ret 0
  | None, Some _ => Ret (-1)
  | Some _, None => Ret 1
  | Some l, Some r => sqlite3StrICmp l r
  end.

(** The loop and the [return]; [N] has been decremented when the characters are
    compared, and the decrement of the least [int] overflows. *)
Fixpoint strnicmp_loop (a b : list Z) (N : Z) : outcome Z :=
  if 0 <? N then
    match a, b with
    | c :: a', x :: b' =>
        if negb (uchar c =? 0) && (sqlite3Tolower c =? sqlite3Tolower x)
        then strnicmp_loop a' b' (N - 1)
        else Ret (if N - 1 <? 0 then 0 else sqlite3Tolower c - sqlite3Tolower x)
    | _, _ => Undefined
    end
  else if N =? - 2 ^ 31 then Undefined else Ret 0.

Definition sqlite3_strnicmp (zLeft zRight : option (list Z)) (N : Z) : outcome Z :=
  match zLeft, zRight with
  | None, None => Ret 0
  | None, Some _ => Ret (-1)
  | Some _, None => Ret 1
  | Some l, Some r => strnicmp_loop l r N
  end.

(** The [while( z[0] )] loop; [h] is a [u8]. *)
Fixpoint ihash_loop (z : list Z) (h : Z) : outcome Z :=
  match z with
  | [] => Undefined
  | c :: z => if c =? 0 then Ret h else ihash_loop z ((h + sqlite3Tolower c) mod 256)
  end.

Definition sqlite3StrIHash (z : option (list Z)) : outcome Z :=
  match z with None => Ret 0 | Some z => ihash_loop z 0 end.

(** ** Lemmas: what the tables say *)

(** A fact about every [char], decided on the 256 of them. *)
Lemma all_chars (P : Z -> bool) c :
  forallb P (map (fun n => Z.of_nat n - 128) (seq 0 256)) = true -> is_char c -> P c = true.
Proof.
  intros H Hc. rewrite forallb_forall in H. apply H. apply in_map_iff.
  exists (Z.to_nat (c + 128)). split; [lia|apply in_seq; lia].
Qed.

Definition in_range (a b c : Z) : bool := (a <=? c) && (c <=? b).

Lemma isspace_spec c : is_char c -> sqlite3Isspace c = (in_range 9 13 c || (c =? 32)).
Proof.
  intros Hc. apply eqb_prop.
  by apply (all_chars (fun c => Bool.eqb (sqlite3Isspace c) (in_range 9 13 c || (c =? 32)))).
Qed.
Lemma isdigit_spec c : is_char c -> sqlite3Isdigit c = in_range 48 57 c.
Proof.
  intros Hc. apply eqb_prop. by apply (all_chars (fun c => Bool.eqb (sqlite3Isdigit c) (in_range 48 57 c))).
Qed.
Lemma isxdigit_spec c : is_char c ->
  sqlite3Isxdigit c = (in_range 48 57 c || in_range 65 70 c || in_range 97 102 c).
Proof.
  intros Hc. apply eqb_prop.
  by apply (all_chars (fun c => Bool.eqb (sqlite3Isxdigit c)
                                  (in_range 48 57 c || in_range 65 70 c || in_range 97 102 c))).
Qed.
Lemma tolower_spec c : is_char c ->
  sqlite3Tolower c = if in_range 65 90 c then c + 32 else uchar c.
Proof.
  intros Hc. apply Z.eqb_eq.
  by apply (all_chars (fun c => sqlite3Tolower c =? (if in_range 65 90 c then c + 32 else uchar c))).
Qed.
Lemma toupper_spec c : is_char c ->
  sqlite3Toupper c = if in_range 97 122 c then c - 32 else c.
Proof.
  intros Hc. apply Z.eqb_eq.
  by apply (all_chars (fun c => sqlite3Toupper c =? (if in_range 97 122 c then c - 32 else c))).
Qed.

(** ** Specification: the order of the lower-case forms *)

(** The difference at the first place where two strings differ, the end counting
    as zero. *)
Fixpoint compare (a b : list Z) : Z :=
  match a, b with
  | [], [] => 0
  | [], y :: _ => - y
  | x :: _, [] => x
  | x :: a, y :: b => if x =? y then compare a b else x - y
  end.

Definition lower (s : list Z) : list Z := map sqlite3Tolower s.

(** A string without its terminator. *)
Definition text (s : list Z) : Prop := Forall (fun c => is_char c /\ c <> 0) s.

Lemma text_check s :
  forallb (fun c => (- 128 <=? c) && (c <? 128) && negb (c =? 0)) s = true -> text s.
Proof.
  intros Hs. rewrite forallb_forall in Hs. apply Forall_forall. intros c Hc.
  apply list_elem_of_In, Hs in Hc. rewrite !andb_true_iff in Hc. destruct Hc as [[? ?] ?]. zify_bool. lia.
Qed.

Lemma uchar_eq a b : is_char a -> is_char b -> (uchar a =? uchar b) = (a =? b).
Proof.
  intros Ha Hb. unfold uchar. apply eq_iff_eq_true. rewrite !Z.eqb_eq. split; [|by intros ->].
  intros E. pose proof (Z.div_mod a 256). pose proof (Z.div_mod b 256).
  pose proof (Z.mod_pos_bound a 256). lia.
Qed.

Lemma tolower_range c : 0 <= sqlite3Tolower c < 256.
Proof.
  unfold sqlite3Tolower, look, uchar. pose proof (Z.mod_pos_bound c 256 ltac:(lia)).
  assert (H0 : forallb (fun n => in_range 0 255 (nth n sqlite3UpperToLower 0)) (seq 0 256) = true) by reflexivity.
  rewrite forallb_forall in H0. specialize (H0 (Z.to_nat (c mod 256)) ltac:(apply in_seq; lia)).
  unfold in_range in H0. zify_bool. lia.
Qed.

Lemma tolower_zero c : is_char c -> (sqlite3Tolower c =? 0) = (c =? 0).
Proof.
  intros Hc. rewrite tolower_spec by done. unfold in_range, uchar.
  pose proof (Z.div_mod c 256). pose proof (Z.mod_pos_bound c 256).
  destruct (Z.leb_spec 65 c), (Z.leb_spec c 90); cbn [andb]; apply eq_iff_eq_true; rewrite !Z.eqb_eq; lia.
Qed.

Lemma tolower_text c : is_char c /\ c <> 0 -> (sqlite3Tolower c =? 0) = false.
Proof. intros [Hc H0]. rewrite tolower_zero by done. by apply Z.eqb_neq. Qed.

Lemma compare_eq a b : Forall (fun c => c <> 0) a -> Forall (fun c => c <> 0) b ->
  compare a b = 0 <-> a = b.
Proof.
  intros Ha Hb. revert b Hb. induction Ha as [|x a Hx Ha IH]; intros [|y b] Hb; cbn.
  - done.
  - inversion Hb; subst. split; [lia|done].
  - split; [lia|done].
  - inversion Hb; subst. destruct (Z.eqb_spec x y) as [->|].
    + rewrite IH by done. split; [by intros ->|by intros [= ->]].
    + split; [lia|by intros [= ? ?]].
Qed.

Lemma lower_nonzero s : text s -> Forall (fun c => c <> 0) (lower s).
Proof.
  intros Hs. apply Forall_map. eapply Forall_impl; [exact Hs|]. intros c Hc. cbn.
  by apply Z.eqb_neq, tolower_text.
Qed.

Lemma stricmp_compare a b :
  text a -> text b -> sqlite3StrICmp (a ++ [0]) (b ++ [0]) = Ret (compare (lower a) (lower b)).
Proof.
  intros Ha. revert b. induction Ha as [|c a Hc Ha IH]; intros b Hb; destruct Hb as [|x b Hx Hb];
    cbn [app sqlite3StrICmp lower map compare].
  - done.
  - rewrite uchar_eq by (lia || apply Hx). destruct (Z.eqb_spec 0 x) as [<-|]; [by destruct Hx|].
    change (sqlite3Tolower 0) with 0. rewrite Z.sub_0_l. pose proof (tolower_text x Hx).
    zify_bool. destruct (Z.eqb_spec (- sqlite3Tolower x) 0); [lia|done].
  - rewrite uchar_eq by (lia || apply Hc). destruct (Z.eqb_spec c 0) as [->|]; [by destruct Hc|].
    change (sqlite3Tolower 0) with 0. rewrite Z.sub_0_r. by rewrite tolower_text.
  - rewrite !uchar_eq by (lia || apply Hc || apply Hx). destruct (Z.eqb_spec c x) as [->|].
    + change 0 with (uchar 0) at 1. rewrite uchar_eq by (lia || apply Hx).
      destruct (Z.eqb_spec x 0) as [->|]; [by destruct Hx|]. rewrite Z.eqb_refl. by apply IH.
    + destruct (Z.eqb_spec (sqlite3Tolower c) (sqlite3Tolower x)) as [E|E].
      * rewrite E, Z.sub_diag. by apply IH.
      * destruct (Z.eqb_spec (sqlite3Tolower c - sqlite3Tolower x) 0); [lia|done].
Qed.

(** The case-insensitive comparison of two strings reads no further than
    their ends and answers the order of their lower-case forms: zero exactly
    when they agree up to the case of ASCII letters. *)
Theorem stricmp_spec a b :
  text a -> text b ->
  sqlite3StrICmp (a ++ [0]) (b ++ [0]) = Ret (compare (lower a) (lower b)) /\
  (compare (lower a) (lower b) = 0 <-> lower a = lower b).
Proof.
  intros Ha Hb. split; [by apply stricmp_compare|by apply compare_eq; apply lower_nonzero].
Qed.

Lemma stricmp_spec_witness :
  sqlite3StrICmp (chars "SeLecT" ++ [0]) (chars "sElECt" ++ [0]) = Ret 0.
Proof.
  etrans; [apply (stricmp_spec (chars "SeLecT") (chars "sElECt"));
           by apply text_check|reflexivity].
Defined.

(** The length-limited comparison is the comparison of prefixes. *)
Theorem strnicmp_spec a b N :
  text a -> text b -> 0 <= N < 2 ^ 31 ->
  sqlite3_strnicmp (Some (a ++ [0])) (Some (b ++ [0])) N
  = Ret (compare (take (Z.to_nat N) (lower a)) (take (Z.to_nat N) (lower b))).
Proof.
  intros Ha Hb HN. cbn [sqlite3_strnicmp]. revert b Hb N HN.
  assert (Hc0 : forall c, is_char c /\ c <> 0 -> (uchar c =? 0) = false).
  { intros c [Hc Hn]. change 0 with (uchar 0). rewrite uchar_eq by lia. by apply Z.eqb_neq. }
  induction Ha as [|c a Hc Ha IH]; intros b Hb N HN; destruct (Z.ltb_spec 0 N) as [Hp|Hp].
  all: try (assert (N = 0) as -> by lia; by destruct Hb).
  all: destruct (Z.to_nat N) as [|n] eqn:En; [lia|].
  all: destruct Hb as [|x b Hx Hb]; cbn [app strnicmp_loop lower map take compare];
    rewrite (proj2 (Z.ltb_lt 0 N)) by lia; rewrite ?Hc0 by done; cbn [negb andb].
  - change (uchar 0 =? 0) with true. cbn [negb andb]. by destruct (N - 1 <? 0).
  - change (uchar 0 =? 0) with true. cbn [negb andb]. destruct (Z.ltb_spec (N - 1) 0); [lia|]. done.
  - rewrite tolower_text by done. destruct (Z.ltb_spec (N - 1) 0); [lia|].
    change (sqlite3Tolower 0) with 0. by rewrite Z.sub_0_r.
  - destruct (Z.eqb_spec (sqlite3Tolower c) (sqlite3Tolower x)) as [E|E].
    + rewrite IH by (done || lia). by replace (Z.to_nat (N - 1)) with n by lia.
    + by destruct (Z.ltb_spec (N - 1) 0); [lia|].
Qed.

Lemma strnicmp_spec_witness :
  sqlite3_strnicmp (Some (chars "abc" ++ [0])) (Some (chars "ABd" ++ [0])) 2 = Ret 0.
Proof.
  etrans; [apply (strnicmp_spec (chars "abc") (chars "ABd") 2); [by apply text_check..|lia]|reflexivity].
Defined.

Lemma ihash_lower a h :
  text a -> ihash_loop (a ++ [0]) h = Ret (foldl (fun h c => (h + c) mod 256) h (lower a)).
Proof.
  intros Ha. revert h. induction Ha as [|c a [Hc Hn] Ha IH]; intros h; [done|].
  cbn [app ihash_loop lower map foldl]. destruct (Z.eqb_spec c 0); [done|]. apply IH.
Qed.

(** Strings that compare equal have equal hashes. *)
Theorem strihash_respects_case a b :
  text a -> text b -> sqlite3StrICmp (a ++ [0]) (b ++ [0]) = Ret 0 ->
  sqlite3StrIHash (Some (a ++ [0])) = sqlite3StrIHash (Some (b ++ [0])).
Proof.
  intros Ha Hb E. rewrite stricmp_compare in E by done. injection E as E.
  apply compare_eq in E; [|by apply lower_nonzero..].
  cbn [sqlite3StrIHash]. by rewrite !ihash_lower, E.
Qed.

Lemma strihash_respects_case_witness :
  sqlite3StrIHash (Some [65; 0]) = sqlite3StrIHash (Some [97; 0]).
Proof. apply (strihash_respects_case [65] [97]); [repeat constructor; lia..|reflexivity]. Defined.
