(* ===== verification/NumText.v ===== *)
(** * Numbers as text: deps/sqlite3/sqlite3.c, util.c

    Integers to decimal text and back: 64 bits in UTF-8 and both UTF-16 byte
    orders, hexadecimal literals, and the 32-bit reader.  A buffer is the list
    of its [char]s; a pointer into it is an index; reading outside is undefined. *)

From S2P Require Import Prelude Words Ints Chars.

(** [*p] or [p[i]] for the pointer [p] into the buffer. *)
Definition rdc (buf : list Z) (p : Z) : outcome Z :=
  if p <? 0 then Undefined
  else match buf !! Z.to_nat p with Some c => Ret c | None => Undefined end.

(** ** Integers to text *)

(** The [while( 1 )] loop: digits are written from the back. *)
Fixpoint text_digits (fuel : nat) (x : Z) (z : list Z) : outcome (list Z) :=
  match fuel with
  | O => OutOfFuel
  | S fuel =>
      let z := x mod 10 + 48 :: z in
      let x := x / 10 in
      if x =? 0 then Ret z else text_digits fuel x z
  end.

(** The text with its terminating zero, and the length without.  zTemp has 22
    bytes: a longer text would be undefined. *)
Definition sqlite3Int64ToText (v : Z) : outcome (list Z * Z) :=
  x ← (if v <? 0 then
         if v =? SMALLEST_INT64 then Ret (2 ^ 63) else n ← ck64 (- v); Ret (u64 n)
       else Ret v);
  z ← text_digits 21 x [0];
  let z := if v <? 0 then 45 :: z else z in
  if Z.of_nat (length z) <=? 22 then Ret (z, Z.of_nat (length z) - 1) else Undefined.

(** ** Text to integers *)

Definition pow63 : list Z := chars "922337203685477580".

(** The loop of [compare2pow63] from index [i] on, over the digits that are left. *)
Fixpoint compare_digits (buf : list Z) (zNum incr i : Z) (digits : list Z) : outcome Z :=
  match digits with
  | [] => Ret 0
  | d :: digits =>
      ch ← rdc buf (zNum + i * incr);
      let c := (ch - d) * 10 in
      if c =? 0 then compare_digits buf zNum incr (i + 1) digits else Ret c
  end.

Definition compare2pow63 (buf : list Z) (zNum incr : Z) : outcome Z :=
  c ← compare_digits buf zNum incr 0 pow63;
  if c =? 0 then ch ← rdc buf (zNum + 18 * incr); Ret (ch - 56) else Ret c.

Definition SQLITE_UTF8 : Z := 1.
Definition SQLITE_UTF16LE : Z := 2.
Definition SQLITE_UTF16BE : Z := 3.

(** [while( zNum<zEnd && p ) zNum+=incr], [p] testing the character there; with one unit of fuel per
    character of the buffer the loop always ends. *)
Fixpoint skip_while (fuel : nat) (p : Z -> bool) (buf : list Z) (incr zEnd zNum : Z) : outcome Z :=
  match fuel with
  | O => OutOfFuel
  | S fuel =>
      if zNum <? zEnd then
        ch ← rdc buf zNum;
        if p ch then skip_while fuel p buf incr zEnd (zNum + incr) else Ret zNum
      else Ret zNum
  end.

(** [for(i=0; &zNum[i]<zEnd && (c=zNum[i])>='0' && c<='9'; i+=incr)]: the index
    at which it stops and [u]. *)
Fixpoint read_digits (fuel : nat) (buf : list Z) (incr zEnd zNum i u : Z) : outcome (Z * Z) :=
  match fuel with
  | O => OutOfFuel
  | S fuel =>
      if zNum + i <? zEnd then
        c ← rdc buf (zNum + i);
        if (48 <=? c) && (c <=? 57)
        then read_digits fuel buf incr zEnd zNum (i + incr) (u64 (u * 10 + c - 48))
        else Ret (i, u)
      else Ret (i, u)
  end.

(** [for(i=3-enc; i<length && zNum[i]==0; i+=2){}] *)
Fixpoint high_bytes (fuel : nat) (buf : list Z) (len i : Z) : outcome Z :=
  match fuel with
  | O => OutOfFuel
  | S fuel =>
      if i <? len then
        c ← rdc buf i; if c =? 0 then high_bytes fuel buf len (i + 2) else Ret i
      else Ret i
  end.

(** The [do ... while( &zNum[jj]<zEnd )] loop: 1 when it meets a non-space. *)
Fixpoint extra_text (fuel : nat) (buf : list Z) (incr zEnd zNum jj rc : Z) : outcome Z :=
  match fuel with
  | O => OutOfFuel
  | S fuel =>
      ch ← rdc buf (zNum + jj);
      if negb (sqlite3Isspace ch) then Ret 1
      else if zNum + (jj + incr) <? zEnd then extra_text fuel buf incr zEnd zNum (jj + incr) rc
      else Ret rc
  end.

(** From the first character on: the code returned and [*pNum]. *)
Definition atoi64_from `{Build} (buf : list Z) (incr zNum zEnd : Z) (nonNum : bool) : outcome (Z * Z) :=
  let fuel := S (length buf) in
  zNum ← skip_while fuel sqlite3Isspace buf incr zEnd zNum;
  '(neg, zNum) ←
    (if zNum <? zEnd then
       ch ← rdc buf zNum;
       if ch =? 45 then Ret (true, zNum + incr)
       else if ch =? 43 then Ret (false, zNum + incr) else Ret (false, zNum)
     else Ret (false, zNum));
  let zStart := zNum in
  zNum ← skip_while fuel (fun ch => ch =? 48) buf incr zEnd zNum;
  '(i, u) ← read_digits fuel buf incr zEnd zNum 0 0;
  let pNum := if LARGEST_INT64 <? u then (if neg : bool then SMALLEST_INT64 else LARGEST_INT64)
              else if neg : bool then - i64 u else i64 u in
  rc ← (if (i =? 0) && (zStart =? zNum) then Ret (-1)
        else if nonNum then Ret 1
        else if zNum + i <? zEnd then extra_text fuel buf incr zEnd zNum i 0
        else Ret 0);
  if i <? 19 * incr then
    _ ← assert_ (u <=? LARGEST_INT64); Ret (rc, pNum)
  else
    c ← (if 19 * incr <? i then Ret 1 else compare2pow63 buf zNum incr);
    if c <? 0 then _ ← assert_ (u <=? LARGEST_INT64); Ret (rc, pNum)
    else
      let pNum := if neg then SMALLEST_INT64 else LARGEST_INT64 in
      if 0 <? c then Ret (2, pNum)
      else
        _ ← assert_ (u64 (u - 1) =? LARGEST_INT64);
        Ret (if neg then rc else 3, pNum).

Definition sqlite3Atoi64 `{Build} (buf : list Z) (len enc : Z) : outcome (Z * Z) :=
  _ ← assert_ ((enc =? SQLITE_UTF8) || (enc =? SQLITE_UTF16LE) || (enc =? SQLITE_UTF16BE));
  if enc =? SQLITE_UTF8 then atoi64_from buf 1 0 len false
  else
    let len := Z.land len (Z.lnot 1) in
    i ← high_bytes (S (length buf)) buf len (3 - enc);
    atoi64_from buf 2 (Z.land enc 1) (Z.lxor i 1) (i <? len).

Definition sqlite3HexToInt `{Build} (h : Z) : outcome Z :=
  _ ← assert_ (in_range 48 57 h || in_range 97 102 h || in_range 65 70 h);
  let h := h + 9 * Z.land 1 (Z.shiftr h 6) in
  Ret (Z.land h 0xf).

(** [for(i; z[i]=='0'; i++){}] *)
Fixpoint skip_zeros (fuel : nat) (z : list Z) (i : Z) : outcome Z :=
  match fuel with
  | O => OutOfFuel
  | S fuel => c ← rdc z i; if c =? 48 then skip_zeros fuel z (i + 1) else Ret i
  end.

(** [for(k=i; sqlite3Isxdigit(z[k]); k++){ u = u*16 + sqlite3HexToInt(z[k]); }] *)
Fixpoint read_hex `{Build} (fuel : nat) (z : list Z) (k u : Z) : outcome (Z * Z) :=
  match fuel with
  | O => OutOfFuel
  | S fuel =>
      c ← rdc z k;
      if sqlite3Isxdigit c then
        d ← sqlite3HexToInt c; read_hex fuel z (k + 1) (u64 (u * 16 + d))
      else Ret (k, u)
  end.

(** [strspn(z, "+- \n\t0123456789")] *)
Definition number_char (c : Z) : bool :=
  (c =? 43) || (c =? 45) || (c =? 32) || (c =? 10) || (c =? 9) || in_range 48 57 c.
Fixpoint strspn (z : list Z) : outcome Z :=
  match z with
  | [] => Undefined
  | c :: z => if number_char c then n ← strspn z; Ret (n + 1) else Ret 0
  end.

Definition sqlite3DecOrHexToI64 `{Build} (z : list Z) : outcome (Z * Z) :=
  let fuel := S (length z) in
  z0 ← rdc z 0;
  hex ← (if z0 =? 48 then z1 ← rdc z 1; Ret ((z1 =? 120) || (z1 =? 88)) else Ret false);
  if hex : bool then
    i ← skip_zeros fuel z 2;
    '(k, u) ← read_hex fuel z i 0;
    let pOut := i64 u in
    if 16 <? k - i then Ret (2, pOut)
    else zk ← rdc z k; if negb (zk =? 0) then Ret (1, pOut) else Ret (0, pOut)
  else
    s ← strspn z;
    let n := Z.land 0x3fffffff s in
    zn ← rdc z n;
    let n := if negb (zn =? 0) then n + 1 else n in
    sqlite3Atoi64 z n SQLITE_UTF8.

(** [for(i=0; i<8 && sqlite3Isxdigit(zNum[i]); i++)], [n] turns left. *)
Fixpoint read_hex32 `{Build} (n : nat) (z : list Z) (p u : Z) : outcome (Z * Z) :=
  match n with
  | O => Ret (p, u)
  | S n =>
      c ← rdc z p;
      if sqlite3Isxdigit c then
        d ← sqlite3HexToInt c; read_hex32 n z (p + 1) (u32 (u * 16 + d))
      else Ret (p, u)
  end.

(** [for(i=0; i<11 && (c = zNum[i] - '0')>=0 && c<=9; i++)], [n] turns left. *)
Fixpoint read_dec32 (n : nat) (z : list Z) (zNum i v : Z) : outcome (Z * Z) :=
  match n with
  | O => Ret (i, v)
  | S n =>
      ch ← rdc z (zNum + i);
      let c := ch - 48 in
      if (0 <=? c) && (c <=? 9) then v ← ck64 (v * 10 + c); read_dec32 n z zNum (i + 1) v
      else Ret (i, v)
  end.

(** The value for [*pValue] when the answer is true. *)
Definition sqlite3GetInt32 `{Build} (z : list Z) : outcome (option Z) :=
  let fuel := S (length z) in
  z0 ← rdc z 0;
  hex ← (if (z0 =? 45) || (z0 =? 43) then Ret false
         else if z0 =? 48 then
           z1 ← rdc z 1;
           if (z1 =? 120) || (z1 =? 88) then z2 ← rdc z 2; Ret (sqlite3Isxdigit z2) else Ret false
         else Ret false);
  if hex : bool then
    zNum ← skip_zeros fuel z 2;
    '(p, u) ← read_hex32 8 z zNum 0;
    if Z.land u 0x80000000 =? 0 then
      c ← rdc z p; if negb (sqlite3Isxdigit c) then Ret (Some (i32 u)) else Ret None
    else Ret None
  else
    let neg := z0 =? 45 in
    let zNum := if (z0 =? 45) || (z0 =? 43) then 1 else 0 in
    c0 ← rdc z zNum;
    if negb (sqlite3Isdigit c0) then Ret None
    else
      zNum ← skip_zeros fuel z zNum;
      '(i, v) ← read_dec32 11 z zNum 0 0;
      if 10 <? i then Ret None
      else if 2147483647 <? v - (if neg then 1 else 0) then Ret None
      else Ret (Some (i32 (if neg then - v else v))).

Definition sqlite3Atoi `{Build} (z : list Z) : outcome Z :=
  r ← sqlite3GetInt32 z; Ret (match r with Some x => x | None => 0 end).

(** ** Specification: what a text says *)

Fixpoint prefix_while (p : Z -> bool) (s : list Z) : list Z :=
  match s with [] => [] | c :: s => if p c then c :: prefix_while p s else [] end.
Fixpoint after_while (p : Z -> bool) (s : list Z) : list Z :=
  match s with [] => [] | c :: s' => if p c then after_while p s' else s end.

Definition is_digit (c : Z) : bool := (48 <=? c) && (c <=? 57).

(** The number written by decimal digits, [v] before them. *)
Definition value_from (v : Z) (ds : list Z) : Z := foldl (fun v c => v * 10 + (c - 48)) v ds.
Definition value (ds : list Z) : Z := value_from 0 ds.

Definition read_sign (s : list Z) : bool * list Z :=
  match s with
  | c :: s' => if c =? 45 then (true, s') else if c =? 43 then (false, s') else (false, s)
  | [] => (false, [])
  end.

(** Spaces, a sign, digits, spaces: the value, brought into the range of 64
    bits, and the code.  -1: no digits; 1: more text; 2: out of range; 3: it is
    2^63. *)
Definition parse (s : list Z) : Z * Z :=
  let '(neg, s) := read_sign (after_while sqlite3Isspace s) in
  let ds := prefix_while is_digit s in
  let rest := after_while is_digit s in
  let v := value ds in
  let rc := match ds with [] => -1 | _ => if forallb sqlite3Isspace rest then 0 else 1 end in
  if neg : bool then if v <=? 2 ^ 63 then (rc, - v) else (2, - 2 ^ 63)
  else if v <? 2 ^ 63 then (rc, v) else (if v =? 2 ^ 63 then 3 else 2, 2 ^ 63 - 1).

(** ** Lemmas: texts *)

Lemma prefix_after p s : prefix_while p s ++ after_while p s = s.
Proof. induction s as [|c s IH]; [done|]. cbn. destruct (p c); [|done]. cbn. by rewrite IH. Qed.
Lemma prefix_forall p s : Forall (fun c => p c = true) (prefix_while p s).
Proof. induction s as [|c s IH]; [done|]. cbn. destruct (p c) eqn:E; by constructor. Qed.
Lemma after_head p s c t : after_while p s = c :: t -> p c = false.
Proof. induction s as [|x s IH]; [done|]. cbn. destruct (p x) eqn:E; [done|]. by intros [= <- _]. Qed.

Lemma value_from_app v a b : value_from v (a ++ b) = value_from (value_from v a) b.
Proof. apply foldl_app. Qed.
Lemma value_from_eq v ds : value_from v ds = v * 10 ^ Z.of_nat (length ds) + value ds.
Proof.
  unfold value. revert v. induction ds as [|c ds IH] using rev_ind; intros v; [cbn; lia|].
  rewrite !value_from_app, length_app, (IH v). cbn [value_from foldl length].
  rewrite Nat2Z.inj_add, Z.pow_add_r by lia. change (10 ^ Z.of_nat 1) with 10. unfold value_from. lia.
Qed.
Lemma value_range ds : Forall (fun c => is_digit c = true) ds -> 0 <= value ds < 10 ^ Z.of_nat (length ds).
Proof.
  unfold value. induction ds as [|c ds IH] using rev_ind; [cbn; lia|].
  rewrite Forall_app, Forall_singleton. intros [Hds Hc]. specialize (IH Hds).
  rewrite value_from_app, length_app. unfold is_digit in Hc. zify_bool. cbn [value_from foldl length].
  rewrite Nat2Z.inj_add, Z.pow_add_r by lia. change (10 ^ Z.of_nat 1) with 10. unfold value_from in *. lia.
Qed.
Lemma value_zeros s : value (prefix_while (fun c => c =? 48) s) = 0.
Proof.
  unfold value, value_from. induction s as [|c s IH]; [done|]. cbn.
  destruct (Z.eqb_spec c 48) as [->|]; [exact IH|done].
Qed.

(** Leading zeros do not count. *)
Lemma digits_after_zeros s :
  prefix_while is_digit s
  = prefix_while (fun c => c =? 48) s ++ prefix_while is_digit (after_while (fun c => c =? 48) s) /\
  after_while is_digit s = after_while is_digit (after_while (fun c => c =? 48) s).
Proof.
  induction s as [|c s [IH1 IH2]]; [done|]. cbn. destruct (Z.eqb_spec c 48) as [->|]; [|done].
  cbn. by rewrite <- IH1, <- IH2.
Qed.

Lemma value_after_zeros s :
  value (prefix_while is_digit s) = value (prefix_while is_digit (after_while (fun c => c =? 48) s)).
Proof.
  destruct (digits_after_zeros s) as [-> _]. unfold value at 1. rewrite value_from_app.
  fold (value (prefix_while (fun c => c =? 48) s)). by rewrite value_zeros.
Qed.

Lemma prefix_nonzero t c ds : prefix_while is_digit (after_while (fun c => c =? 48) t) = c :: ds -> c <> 48.
Proof.
  intros E. destruct (after_while (fun c => c =? 48) t) as [|x t'] eqn:Ea; [done|].
  apply after_head, Z.eqb_neq in Ea. cbn [prefix_while] in E. destruct (is_digit x); [|done]. by injection E as ->.
Qed.

(** A number with more than [n] digits, the first not zero. *)
Lemma value_long ds n :
  Forall (fun c => is_digit c = true) ds -> (forall c ds', ds = c :: ds' -> c <> 48) ->
  (n < length ds)%nat -> 10 ^ Z.of_nat n <= value ds.
Proof.
  intros Hds Hlead Hn. destruct ds as [|c ds]; [cbn in Hn; lia|]. specialize (Hlead c ds eq_refl).
  apply Forall_cons in Hds as [Hc Hds]. unfold is_digit in Hc. zify_bool.
  change (value (c :: ds)) with (value_from (c - 48) ds). rewrite value_from_eq.
  pose proof (value_range ds Hds). cbn [length] in Hn.
  assert (10 ^ Z.of_nat n <= 10 ^ Z.of_nat (length ds)) by (apply Z.pow_le_mono_r; lia). nia.
Qed.

(** ** The loops, on a text that is laid out with a stride *)

Section View.
Context (buf : list Z) (base incr zEnd : Z) (s : list Z).
Hypothesis Hincr : 0 < incr.
Hypothesis Hview : forall k c, s !! k = Some c -> rdc buf (base + incr * Z.of_nat k) = Ret c.
Hypothesis Hend : zEnd = base + incr * Z.of_nat (length s).

Lemma at_end pre t :
  s = pre ++ t -> (base + incr * Z.of_nat (length pre) <? zEnd) = negb (bool_decide (t = [])).
Proof.
  intros E. rewrite Hend, E, length_app. destruct t as [|c t]; cbn [length].
  - rewrite bool_decide_true by done. apply Z.ltb_ge. lia.
  - rewrite bool_decide_false by done. apply Z.ltb_lt. nia.
Qed.
Lemma at_char pre c t : s = pre ++ c :: t -> rdc buf (base + incr * Z.of_nat (length pre)) = Ret c.
Proof. intros E. apply Hview. rewrite E. by apply list_lookup_middle. Qed.

Lemma skip_while_view fuel p pre t :
  s = pre ++ t -> (length t < fuel)%nat ->
  skip_while fuel p buf incr zEnd (base + incr * Z.of_nat (length pre))
  = Ret (base + incr * Z.of_nat (length (pre ++ prefix_while p t))).
Proof.
  revert pre t. induction fuel as [|fuel IH]; intros pre t E Hf; [lia|]. cbn [skip_while].
  rewrite (at_end pre t E). destruct t as [|c t].
  - rewrite bool_decide_true by done. cbn. by rewrite app_nil_r.
  - rewrite bool_decide_false by done. cbn [negb]. rewrite (at_char pre c t E). cbn [mbind outcome_bind].
    cbn [prefix_while]. destruct (p c); [|by rewrite app_nil_r].
    replace (base + incr * Z.of_nat (length pre) + incr) with (base + incr * Z.of_nat (length (pre ++ [c])))
      by (rewrite length_app; cbn [length]; lia).
    rewrite (IH (pre ++ [c]) t); [by rewrite <- app_assoc|by rewrite <- app_assoc|cbn [length] in Hf; lia].
Qed.

Lemma read_digits_view fuel pre mid t u :
  s = pre ++ mid ++ t -> (length t < fuel)%nat ->
  read_digits fuel buf incr zEnd (base + incr * Z.of_nat (length pre)) (incr * Z.of_nat (length mid)) (u64 u)
  = Ret (incr * Z.of_nat (length (mid ++ prefix_while is_digit t)), u64 (value_from u (prefix_while is_digit t))).
Proof.
  revert mid t u. induction fuel as [|fuel IH]; intros mid t u E Hf; [lia|]. cbn [read_digits].
  assert (Hp : base + incr * Z.of_nat (length pre) + incr * Z.of_nat (length mid)
               = base + incr * Z.of_nat (length (pre ++ mid))) by (rewrite length_app; lia).
  rewrite Hp. rewrite app_assoc in E. rewrite (at_end _ t E). destruct t as [|c t].
  - rewrite bool_decide_true by done. cbn. by rewrite app_nil_r.
  - rewrite bool_decide_false by done. cbn [negb]. rewrite (at_char _ c t E). cbn [mbind outcome_bind].
    cbn [prefix_while]. unfold is_digit at 1 3. destruct ((48 <=? c) && (c <=? 57)); [|by rewrite app_nil_r].
    replace (incr * Z.of_nat (length mid) + incr) with (incr * Z.of_nat (length (mid ++ [c])))
      by (rewrite length_app; cbn [length]; lia).
    replace (u64 (u64 u * 10 + c - 48)) with (u64 (u * 10 + (c - 48))).
    2: { unfold u64. rewrite <- Z.add_sub_assoc, <- (Zplus_mod_idemp_l (u mod _ * 10)), Zmult_mod_idemp_l.
         by rewrite Zplus_mod_idemp_l. }
    rewrite (IH (mid ++ [c]) t).
    + rewrite <- app_assoc. done.
    + by rewrite E, <- !app_assoc.
    + cbn [length] in Hf. lia.
Qed.

Lemma extra_text_view fuel pre mid c t :
  s = pre ++ mid ++ c :: t -> (length t < fuel)%nat ->
  extra_text fuel buf incr zEnd (base + incr * Z.of_nat (length pre)) (incr * Z.of_nat (length mid)) 0
  = Ret (if forallb sqlite3Isspace (c :: t) then 0 else 1).
Proof.
  revert mid c t. induction fuel as [|fuel IH]; intros mid c t E Hf; [lia|]. cbn [extra_text].
  assert (Hp : forall m, base + incr * Z.of_nat (length pre) + incr * Z.of_nat (length m)
               = base + incr * Z.of_nat (length (pre ++ m))) by (intros m; rewrite length_app; lia).
  rewrite Hp, (at_char (pre ++ mid) c t) by (by rewrite <- app_assoc). cbn [mbind outcome_bind forallb].
  destruct (sqlite3Isspace c); [|done]. cbn [negb andb].
  replace (incr * Z.of_nat (length mid) + incr) with (incr * Z.of_nat (length (mid ++ [c])))
    by (rewrite length_app; cbn [length]; lia).
  rewrite Hp, (at_end (pre ++ mid ++ [c]) t) by (by rewrite <- !app_assoc).
  destruct t as [|d t]; [by rewrite bool_decide_true|]. rewrite bool_decide_false by done. cbn [negb].
  apply IH; [by rewrite <- app_assoc|cbn [length] in Hf; lia].
Qed.

(** The signs of the two comparisons; the last two digits lists have one length. *)
Lemma compare_digits_view pre mid a digits t :
  s = pre ++ mid ++ a ++ t -> length a = length digits ->
  Forall (fun c => is_digit c = true) a -> Forall (fun c => is_digit c = true) digits ->
  exists c,
    compare_digits buf (base + incr * Z.of_nat (length pre)) incr (Z.of_nat (length mid)) digits = Ret c /\
    (c < 0 -> value a < value digits) /\ (c = 0 -> a = digits) /\ (0 < c -> value digits < value a).
Proof.
  intros E Hl Ha Hd. revert mid a E Hl Ha. induction Hd as [|d digits Hd Hds IH]; intros mid a E Hl Ha.
  { destruct a; [|done]. exists 0. repeat split; lia || done. }
  destruct a as [|c a]; [done|]. apply Forall_cons in Ha as [Hc Ha']. injection Hl as Hl. cbn [compare_digits].
  replace (base + incr * Z.of_nat (length pre) + Z.of_nat (length mid) * incr)
    with (base + incr * Z.of_nat (length (pre ++ mid))) by (rewrite length_app; lia).
  rewrite (at_char (pre ++ mid) c (a ++ t)) by (by rewrite E, <- app_assoc). cbn [mbind outcome_bind].
  assert (Hv : forall x l, value (x :: l) = (x - 48) * 10 ^ Z.of_nat (length l) + value l)
    by (intros x l; exact (value_from_eq (x - 48) l)).
  pose proof (value_range a Ha'). pose proof (value_range digits Hds).
  rewrite !Hv, Hl in *. set (P := 10 ^ _) in *. assert (0 < P) by (apply Z.pow_pos_nonneg; lia).
  destruct (Z.eqb_spec ((c - d) * 10) 0) as [E0|E0].
  - assert (c = d) as -> by lia.
    destruct (IH (mid ++ [d]) a) as (r & Er & Hlt & Heq & Hgt); [by rewrite E, <- app_assoc|done..|].
    exists r. rewrite length_app, Nat2Z.inj_add in Er. change (Z.of_nat (length [d])) with 1 in Er.
    rewrite Er. split; [done|]. repeat split; intros Hr; [specialize (Hlt Hr); lia|by rewrite Heq|specialize (Hgt Hr); lia].
  - exists ((c - d) * 10). split; [done|]. repeat split; intros; nia.
Qed.

Lemma compare2pow63_view pre ds t :
  s = pre ++ ds ++ t -> length ds = 19%nat -> Forall (fun c => is_digit c = true) ds ->
  exists c,
    compare2pow63 buf (base + incr * Z.of_nat (length pre)) incr = Ret c /\
    (c < 0 -> value ds < 2 ^ 63) /\ (c = 0 -> value ds = 2 ^ 63) /\ (0 < c -> 2 ^ 63 < value ds).
Proof.
  intros E Hl Hds. destruct ds as [|x a _] using rev_ind; [done|].
  rewrite length_app in Hl. cbn [length] in Hl. apply Forall_app in Hds as [Ha Hx].
  apply Forall_cons in Hx as [Hx _]. unfold is_digit in Hx. zify_bool.
  destruct (compare_digits_view pre [] a pow63 (x :: t)) as (c & Ec & Hlt & Heq & Hgt);
    [by rewrite E, <- !app_assoc|cbn; lia|done|by repeat constructor|].
  unfold compare2pow63. change (Z.of_nat (length [])) with 0 in Ec. rewrite Ec. cbn [mbind outcome_bind].
  assert (Hv : value (a ++ [x]) = value a * 10 + (x - 48)) by (unfold value; by rewrite value_from_app).
  rewrite Hv. change (value pow63) with 922337203685477580 in *.
  destruct (Z.eqb_spec c 0) as [->|Hc].
  - rewrite (Heq eq_refl) in *. change (value pow63) with 922337203685477580.
    replace (base + incr * Z.of_nat (length pre) + 18 * incr)
      with (base + incr * Z.of_nat (length (pre ++ pow63))) by (rewrite length_app; cbn [length pow63]; lia).
    rewrite (at_char (pre ++ pow63) x t) by (by rewrite E, <- !app_assoc). cbn [mbind outcome_bind].
    exists (x - 56). split; [done|]. lia.
  - exists c. split; [done|]. repeat split; intros Hs; [specialize (Hlt Hs)|done|specialize (Hgt Hs)]; lia.
Qed.

End View.

(** The whole conversion on a view. *)
Section Atoi.
Context `{Build}.
Context (buf : list Z) (base incr : Z) (s : list Z).
Hypothesis Hincr : 0 < incr.
Hypothesis Hview : forall k c, s !! k = Some c -> rdc buf (base + incr * Z.of_nat k) = Ret c.
Hypothesis Hlen : (length s <= length buf)%nat.

Let zEnd := base + incr * Z.of_nat (length s).
Local Abbreviation ptr pre := (base + incr * Z.of_nat (length pre)).

(** The sign. *)
Lemma sign_view pre t :
  s = pre ++ t ->
  exists pre', s = pre' ++ (read_sign t).2 /\
    (if ptr pre <? zEnd then
       ch ← rdc buf (ptr pre);
       if ch =? 45 then Ret (true, ptr pre + incr)
       else if ch =? 43 then Ret (false, ptr pre + incr) else Ret (false, ptr pre)
     else Ret (false, ptr pre)) = Ret ((read_sign t).1, ptr pre').
Proof.
  intros E. rewrite (at_end base incr zEnd s Hincr eq_refl pre t E). destruct t as [|c t].
  - rewrite bool_decide_true by done. by exists pre.
  - rewrite bool_decide_false by done. cbn [negb].
    rewrite (at_char buf base incr s Hview pre c t E). cbn [mbind outcome_bind read_sign].
    assert (Hn : base + incr * Z.of_nat (length pre) + incr = base + incr * Z.of_nat (length (pre ++ [c])))
      by (rewrite length_app; cbn [length]; lia).
    destruct (c =? 45); [|destruct (c =? 43)]; cbn [fst snd].
    1,2: exists (pre ++ [c]); rewrite Hn; split; [by rewrite <- app_assoc|done].
    by exists pre.
Qed.

(** The range checks at the end, over the significant digits. *)
Lemma range_view pre ds t neg rc :
  s = pre ++ ds ++ t -> Forall (fun c => is_digit c = true) ds ->
  (forall c ds', ds = c :: ds' -> c <> 48) ->
  let u := u64 (value ds) in
  let i := incr * Z.of_nat (length ds) in
  (if i <? 19 * incr then
     _ ← assert_ (u <=? LARGEST_INT64);
     Ret (rc, if LARGEST_INT64 <? u then (if neg : bool then SMALLEST_INT64 else LARGEST_INT64)
              else if neg : bool then - i64 u else i64 u)
   else
     c ← (if 19 * incr <? i then Ret 1 else compare2pow63 buf (ptr pre) incr);
     if c <? 0 then
       _ ← assert_ (u <=? LARGEST_INT64);
       Ret (rc, if LARGEST_INT64 <? u then (if neg : bool then SMALLEST_INT64 else LARGEST_INT64)
                else if neg : bool then - i64 u else i64 u)
     else
       if 0 <? c then Ret (2, if neg then SMALLEST_INT64 else LARGEST_INT64)
       else
         _ ← assert_ (u64 (u - 1) =? LARGEST_INT64);
         Ret (if neg then rc else 3, if neg then SMALLEST_INT64 else LARGEST_INT64))
  = Ret (if neg then if value ds <=? 2 ^ 63 then (rc, - value ds) else (2, - 2 ^ 63)
         else if value ds <? 2 ^ 63 then (rc, value ds)
              else (if value ds =? 2 ^ 63 then 3 else 2, 2 ^ 63 - 1)).
Proof.
  intros E Hds Hlead u i. rewrite LARGEST_eq, SMALLEST_eq.
  pose proof (value_range ds Hds) as Hv.
  assert (Hsmall : value ds < 2 ^ 63 ->
    (_ ← assert_ (u <=? 2 ^ 63 - 1);
     Ret (rc, if 2 ^ 63 - 1 <? u then (if neg : bool then - 2 ^ 63 else 2 ^ 63 - 1)
              else if neg : bool then - i64 u else i64 u))
    = Ret (if neg then if value ds <=? 2 ^ 63 then (rc, - value ds) else (2, - 2 ^ 63)
         else if value ds <? 2 ^ 63 then (rc, value ds)
              else (if value ds =? 2 ^ 63 then 3 else 2, 2 ^ 63 - 1))).
  { intros Hs. unfold u. rewrite u64_id by lia. rewrite assert_true by (apply Z.leb_le; lia).
    rewrite i64_id by lia. cbn [mbind outcome_bind]. destruct (Z.ltb_spec (2 ^ 63 - 1) (value ds)); [lia|].
    destruct (Z.leb_spec (value ds) (2 ^ 63)), (Z.ltb_spec (value ds) (2 ^ 63)); try lia. by destruct neg. }
  unfold i. destruct (Z.ltb_spec (incr * Z.of_nat (length ds)) (19 * incr)) as [Hi|Hi].
  { apply Hsmall. assert (Z.of_nat (length ds) <= 18) by nia.
    assert (10 ^ Z.of_nat (length ds) <= 10 ^ 18) by (apply Z.pow_le_mono_r; lia). lia. }
  destruct (Z.ltb_spec (19 * incr) (incr * Z.of_nat (length ds))) as [Hj|Hj].
  - cbn [mbind outcome_bind]. change (1 <? 0) with false. change (0 <? 1) with true. cbv iota.
    assert (Hbig : 2 ^ 63 < value ds).
    { pose proof (value_long ds 19 Hds Hlead ltac:(nia)) as Hbig. change (10 ^ Z.of_nat 19) with (10 ^ 19) in Hbig. lia. }
    destruct (Z.leb_spec (value ds) (2 ^ 63)), (Z.ltb_spec (value ds) (2 ^ 63)), (Z.eqb_spec (value ds) (2 ^ 63)); try lia.
    by destruct neg.
  - destruct (compare2pow63_view buf base incr s Hview pre ds t E) as (c & Ec & Hlt & Heq & Hgt); [nia|done|].
    rewrite Ec. cbn [mbind outcome_bind]. destruct (Z.ltb_spec c 0); [by apply Hsmall; auto|].
    destruct (Z.ltb_spec 0 c) as [Hc|Hc].
    + specialize (Hgt Hc).
      destruct (Z.leb_spec (value ds) (2 ^ 63)), (Z.ltb_spec (value ds) (2 ^ 63)), (Z.eqb_spec (value ds) (2 ^ 63)); try lia.
      by destruct neg.
    + specialize (Heq ltac:(lia)). unfold u. rewrite Heq. rewrite assert_true by reflexivity.
      cbn [mbind outcome_bind]. by destruct neg.
Qed.

Lemma tail_view pre ds rest :
  s = pre ++ ds ++ rest ->
  (if ptr pre + incr * Z.of_nat (length ds) <? zEnd
   then extra_text (S (length buf)) buf incr zEnd (ptr pre) (incr * Z.of_nat (length ds)) 0
   else Ret 0) = Ret (if forallb sqlite3Isspace rest then 0 else 1).
Proof.
  intros E. replace (ptr pre + incr * Z.of_nat (length ds)) with (ptr (pre ++ ds)) by (rewrite length_app; lia).
  rewrite (at_end base incr zEnd s Hincr eq_refl (pre ++ ds) rest) by (by rewrite <- app_assoc).
  destruct rest as [|c rest]; [by rewrite bool_decide_true|]. rewrite bool_decide_false by done. cbn [negb].
  apply (extra_text_view buf base incr zEnd s Hincr Hview eq_refl); [done|].
  rewrite E, !length_app in Hlen. cbn [length] in Hlen. lia.
Qed.

Lemma atoi64_view : atoi64_from buf incr base zEnd false = Ret (parse s).
Proof.
  unfold atoi64_from.
  pose proof (skip_while_view buf base incr zEnd s Hincr Hview eq_refl (S (length buf)) sqlite3Isspace
                [] s eq_refl ltac:(lia)) as Esp.
  change (Z.of_nat (length [])) with 0 in Esp. rewrite Z.mul_0_r, Z.add_0_r in Esp. rewrite Esp. clear Esp.
  cbn [mbind outcome_bind app].
  destruct (sign_view (prefix_while sqlite3Isspace s) (after_while sqlite3Isspace s)) as (pre & E & Es);
    [by rewrite prefix_after|].
  rewrite Es. cbn [mbind outcome_bind]. unfold parse.
  destruct (read_sign _) as [neg t]. cbn [fst snd] in *.
  assert (Hlt : (length t <= length s)%nat) by (rewrite E, length_app; lia).
  rewrite (skip_while_view buf base incr zEnd s Hincr Hview eq_refl _ _ pre t E) by lia.
  cbn [mbind outcome_bind].
  destruct (digits_after_zeros t) as [Ed Ea].
  set (zs := prefix_while (fun c => c =? 48) t) in *. set (t' := after_while (fun c => c =? 48) t) in *.
  assert (Et : t = zs ++ t') by (symmetry; apply prefix_after).
  assert (E' : s = (pre ++ zs) ++ t') by (by rewrite <- app_assoc, <- Et).
  assert (Hlt' : (length t' <= length s)%nat) by (rewrite E', length_app; lia).
  pose proof (read_digits_view buf base incr zEnd s Hincr Hview eq_refl (S (length buf)) (pre ++ zs) [] t' 0 E' ltac:(lia)) as Er.
  change (Z.of_nat (length [])) with 0 in Er. rewrite Z.mul_0_r in Er. change (u64 0) with 0 in Er.
  rewrite Er. clear Er. cbn [mbind outcome_bind app].
  rewrite (value_after_zeros t), Ea. fold t'. set (ds := prefix_while is_digit t') in *.
  assert (Et' : t' = ds ++ after_while is_digit t') by (symmetry; apply prefix_after).
  set (rest := after_while is_digit t') in *.
  set (rc := match prefix_while is_digit t with [] => -1 | _ => if forallb sqlite3Isspace rest then 0 else 1 end).
  assert (Erc :
    (if (incr * Z.of_nat (length ds) =? 0) && (ptr pre =? ptr (pre ++ zs)) then Ret (-1)
     else if ptr (pre ++ zs) + incr * Z.of_nat (length ds) <? zEnd
          then extra_text (S (length buf)) buf incr zEnd (ptr (pre ++ zs)) (incr * Z.of_nat (length ds)) 0
          else Ret 0) = Ret rc).
  { rewrite (tail_view (pre ++ zs) ds rest) by (by rewrite E', Et'). unfold rc. rewrite Ed.
    destruct (decide (zs ++ ds = [])) as [En|En].
    - apply app_nil in En as [-> ->]. rewrite app_nil_r. cbn [length app].
      rewrite Z.mul_0_r. by rewrite !Z.eqb_refl.
    - assert (((incr * Z.of_nat (length ds) =? 0) && (ptr pre =? ptr (pre ++ zs))) = false) as ->.
      { apply not_true_iff_false. rewrite andb_true_iff, !Z.eqb_eq, length_app. intros [H1 H2].
        assert (length ds = 0%nat /\ length zs = 0%nat) as [Hd%nil_length_inv Hz%nil_length_inv] by nia.
        by rewrite Hd, Hz in En. }
      by destruct (zs ++ ds). }
  rewrite Erc. cbn [mbind outcome_bind].
  apply (range_view (pre ++ zs) ds rest neg rc).
  - by rewrite E', Et'.
  - apply prefix_forall.
  - intros c ds' Ec. by apply prefix_nonzero in Ec.
Qed.

End Atoi.

(** ** What the functions do *)

Section Properties.
Context `{Build}.

Lemma rdc_lookup buf k c : buf !! k = Some c -> rdc buf (Z.of_nat k) = Ret c.
Proof. intros E. unfold rdc. destruct (Z.ltb_spec (Z.of_nat k) 0); [lia|]. by rewrite Nat2Z.id, E. Qed.

Lemma atoi64_parse s tail :
  sqlite3Atoi64 (s ++ tail) (Z.of_nat (length s)) SQLITE_UTF8 = Ret (parse s).
Proof.
  unfold sqlite3Atoi64. rewrite assert_true by done. cbn [mbind outcome_bind].
  change (SQLITE_UTF8 =? SQLITE_UTF8) with true. cbv iota.
  pose proof (atoi64_view (s ++ tail) 0 1 s ltac:(lia)) as E.
  replace (0 + 1 * Z.of_nat (length s)) with (Z.of_nat (length s)) in E by lia. apply E.
  - intros k c Hk. replace (0 + 1 * Z.of_nat k) with (Z.of_nat k) by lia.
    apply rdc_lookup. by apply lookup_app_l_Some.
  - rewrite length_app. lia.
Qed.

(** The conversion of a text in UTF-8 reads nothing outside it and answers what
    the text says: spaces, a sign, digits with any number of leading zeros,
    spaces; numbers out of range are brought to the nearest end of the range
    and reported. *)
Theorem atoi64_spec s tail :
  sqlite3Atoi64 (s ++ tail) (Z.of_nat (length s)) SQLITE_UTF8 = Ret (parse s).
Proof. apply atoi64_parse. Qed.

(** The UTF-16 forms of a text of characters below 128. *)
Definition utf16 (enc : Z) (s : list Z) : list Z :=
  flat_map (fun c => if enc =? SQLITE_UTF16LE then [c; 0] else [0; c]) s.

Lemma utf16_length enc s : length (utf16 enc s) = (2 * length s)%nat.
Proof. unfold utf16. induction s as [|c s IH]; [done|]. cbn. destruct (enc =? _); cbn; lia. Qed.

(** Character [k] and its zero byte. *)
Lemma utf16_lookup enc s tail k c :
  enc = SQLITE_UTF16LE \/ enc = SQLITE_UTF16BE -> s !! k = Some c ->
  rdc (utf16 enc s ++ tail) (Z.land enc 1 + 2 * Z.of_nat k) = Ret c /\
  rdc (utf16 enc s ++ tail) (3 - enc + 2 * Z.of_nat k) = Ret 0.
Proof.
  intros He Hk. assert (Hgen : forall j x, (j < 2)%nat ->
    (if enc =? SQLITE_UTF16LE then [c; 0] else [0; c]) !! j = Some x ->
    rdc (utf16 enc s ++ tail) (Z.of_nat (j + 2 * k)) = Ret x).
  { intros j x Hj Hx. apply rdc_lookup, lookup_app_l_Some. revert k Hk. unfold utf16.
    induction s as [|d s IH]; intros [|k] Hk; cbn in Hk; [done|done| |].
    - injection Hk as ->. rewrite Nat.add_0_r. cbn [flat_map]. apply lookup_app_l_Some. done.
    - specialize (IH k Hk). cbn [flat_map].
      replace (j + 2 * S k)%nat with (S (S (j + 2 * k))) by lia.
      destruct (enc =? SQLITE_UTF16LE); exact IH. }
  destruct He as [-> | ->]; cbn in Hgen.
  - specialize (Hgen 0%nat c ltac:(lia) eq_refl) as H0. specialize (Hgen 1%nat 0 ltac:(lia) eq_refl) as H1.
    change (Z.land SQLITE_UTF16LE 1) with 0. change (3 - SQLITE_UTF16LE) with 1.
    split; [rewrite <- H0|rewrite <- H1]; f_equal; lia.
  - specialize (Hgen 1%nat c ltac:(lia) eq_refl) as H0. specialize (Hgen 0%nat 0 ltac:(lia) eq_refl) as H1.
    change (Z.land SQLITE_UTF16BE 1) with 1. change (3 - SQLITE_UTF16BE) with 0.
    split; [rewrite <- H0|rewrite <- H1]; f_equal; lia.
Qed.

Lemma high_bytes_zero buf first n fuel k :
  0 <= first <= 1 -> (forall k, (k < n)%nat -> rdc buf (first + 2 * Z.of_nat k) = Ret 0) ->
  (k <= n)%nat -> (n - k < fuel)%nat ->
  high_bytes fuel buf (2 * Z.of_nat n) (first + 2 * Z.of_nat k) = Ret (first + 2 * Z.of_nat n).
Proof.
  intros Hf Hz. revert k. induction fuel as [|fuel IH]; intros k Hk Hfuel; [lia|]. cbn [high_bytes].
  destruct (Z.ltb_spec (first + 2 * Z.of_nat k) (2 * Z.of_nat n)).
  - rewrite Hz by lia. cbn [mbind outcome_bind]. rewrite Z.eqb_refl.
    replace (first + 2 * Z.of_nat k + 2) with (first + 2 * Z.of_nat (S k)) by lia. apply IH; lia.
  - by assert (k = n) as -> by lia.
Qed.

Lemma lxor_even n : Z.lxor (2 * n) 1 = 2 * n + 1.
Proof.
  symmetry. apply Z.add_nocarry_lxor. change 1 with (Z.ones 1). rewrite Z.land_ones by lia.
  rewrite Z.mul_comm. by apply Z.mod_mul.
Qed.
Lemma lxor_odd n : Z.lxor (1 + 2 * n) 1 = 2 * n.
Proof. rewrite Z.add_comm, <- lxor_even, Z.lxor_assoc, Z.lxor_nilpotent. apply Z.lxor_0_r. Qed.
Lemma land_even n : Z.land (2 * n) (Z.lnot 1) = 2 * n.
Proof.
  rewrite <- Z.ldiff_land. apply Z.bits_inj'. intros i Hi. rewrite Z.ldiff_spec.
  destruct (Z.eq_dec i 0) as [->|]; [by rewrite Z.testbit_even_0|].
  rewrite (Z.bits_above_log2 1 i) by (cbn; lia). by rewrite andb_true_r.
Qed.

Lemma atoi64_utf16_parse enc s tail :
  enc = SQLITE_UTF16LE \/ enc = SQLITE_UTF16BE ->
  sqlite3Atoi64 (utf16 enc s ++ tail) (2 * Z.of_nat (length s)) enc = Ret (parse s).
Proof.
  intros He. unfold sqlite3Atoi64. rewrite assert_true by (by destruct He as [-> | ->]).
  cbn [mbind outcome_bind]. replace (enc =? SQLITE_UTF8) with false by (by destruct He as [-> | ->]).
  rewrite land_even.
  pose proof (high_bytes_zero (utf16 enc s ++ tail) (3 - enc) (length s)
                (S (length (utf16 enc s ++ tail))) 0) as Eh.
  rewrite Z.mul_0_r, Z.add_0_r in Eh. rewrite Eh; clear Eh.
  2: by destruct He as [-> | ->].
  2: { intros k Hk. destruct (lookup_lt_is_Some_2 s k Hk) as [c Hc]. by eapply utf16_lookup. }
  2: lia.
  2: { rewrite length_app, utf16_length. lia. }
  cbn [mbind outcome_bind].
  assert (Hn : (3 - enc + 2 * Z.of_nat (length s) <? 2 * Z.of_nat (length s)) = false)
    by (apply Z.ltb_ge; destruct He as [-> | ->]; unfold SQLITE_UTF16LE, SQLITE_UTF16BE; lia).
  rewrite Hn.
  replace (Z.lxor (3 - enc + 2 * Z.of_nat (length s)) 1) with (Z.land enc 1 + 2 * Z.of_nat (length s)).
  2: { destruct He as [-> | ->]; cbn [Z.land].
       - change (3 - SQLITE_UTF16LE) with 1. rewrite lxor_odd. done.
       - change (3 - SQLITE_UTF16BE) with 0. rewrite Z.add_0_l, lxor_even. change (Z.land SQLITE_UTF16BE 1) with 1. lia. }
  apply (atoi64_view (utf16 enc s ++ tail) (Z.land enc 1) 2 s); [lia| |].
  - intros k c Hk. by eapply utf16_lookup.
  - rewrite length_app, utf16_length. lia.
Qed.

(** The conversion of a text in either UTF-16 byte order answers what the
    conversion of the same text in UTF-8 answers. *)
Theorem atoi64_encodings_agree enc s tail tail' :
  enc = SQLITE_UTF16LE \/ enc = SQLITE_UTF16BE ->
  sqlite3Atoi64 (utf16 enc s ++ tail) (2 * Z.of_nat (length s)) enc
  = sqlite3Atoi64 (s ++ tail') (Z.of_nat (length s)) SQLITE_UTF8.
Proof. intros He. by rewrite atoi64_utf16_parse, atoi64_parse. Qed.

(** ** Integers to text *)

Lemma text_digits_spec fuel n x z :
  0 <= x < 10 ^ Z.of_nat n -> (0 < n <= fuel)%nat ->
  exists ds, text_digits fuel x z = Ret (ds ++ z) /\ Forall (fun c => is_digit c = true) ds /\
    ds <> [] /\ value ds = x /\ (length ds <= n)%nat /\ (ds !! 0%nat = Some 48 -> x = 0).
Proof.
  revert n x z. induction fuel as [|fuel IH]; intros n x z Hx Hf; [lia|]. cbn [text_digits].
  pose proof (Z.div_mod x 10). pose proof (Z.mod_pos_bound x 10 ltac:(lia)).
  assert (Hd : is_digit (x mod 10 + 48) = true)
    by (unfold is_digit; apply andb_true_iff; rewrite !Z.leb_le; lia).
  destruct (Z.eqb_spec (x / 10) 0).
  - exists [x mod 10 + 48]. split; [done|]. split; [by constructor|]. split; [done|].
    split; [cbn; lia|]. split; [cbn; lia|]. intros [= ?]. lia.
  - destruct n as [|n]; [lia|]. rewrite Nat2Z.inj_succ, Z.pow_succ_r in Hx by lia.
    assert (0 < n)%nat.
    { destruct n; [|lia]. change (10 ^ Z.of_nat 0) with 1 in Hx. rewrite Z.div_small in *; lia. }
    destruct (IH n (x / 10) (x mod 10 + 48 :: z)) as (ds & E & Hds & Hn & Hv & Hl & Hz); [|lia|].
    { split; [apply Z.div_pos; lia|apply Z.div_lt_upper_bound; lia]. }
    exists (ds ++ [x mod 10 + 48]). rewrite E, <- app_assoc. split; [done|].
    split; [apply Forall_app; by repeat constructor|]. split; [by destruct ds|].
    split; [unfold value in *; rewrite value_from_app, Hv; cbn; lia|].
    split; [rewrite length_app; cbn; lia|].
    destruct ds as [|c ds]; [done|]. cbn. intros E0. specialize (Hz E0). lia.
Qed.

Lemma prefix_all p (s : list Z) : Forall (fun c => p c = true) s -> prefix_while p s = s /\ after_while p s = [].
Proof.
  induction 1 as [|c s Hc Hs [IH1 IH2]]; [done|]. cbn. rewrite Hc. by rewrite IH1.
Qed.

Lemma digit_not_space c : is_digit c = true -> sqlite3Isspace c = false.
Proof.
  unfold is_digit. intros Hc. zify_bool. rewrite isspace_spec by lia. unfold in_range.
  apply not_true_iff_false. rewrite orb_true_iff, andb_true_iff, !Z.leb_le, Z.eqb_eq. lia.
Qed.

(** Digits, with or without a minus sign. *)
Lemma parse_digits (neg : bool) ds :
  Forall (fun c => is_digit c = true) ds -> ds <> [] ->
  parse (if neg then 45 :: ds else ds)
  = if neg then if value ds <=? 2 ^ 63 then (0, - value ds) else (2, - 2 ^ 63)
    else if value ds <? 2 ^ 63 then (0, value ds)
    else (if value ds =? 2 ^ 63 then 3 else 2, 2 ^ 63 - 1).
Proof.
  intros Hds Hn. destruct (prefix_all is_digit ds Hds) as [Ep Ea]. unfold parse. destruct neg.
  - cbn [after_while]. change (sqlite3Isspace 45) with false. cbv iota. cbn [read_sign].
    rewrite Z.eqb_refl, Ep, Ea. by destruct ds.
  - destruct ds as [|c ds']; [done|]. pose proof Hds as Hds'. apply Forall_cons in Hds' as [Hc _].
    cbn [after_while]. rewrite (digit_not_space c Hc). unfold is_digit in Hc. zify_bool.
    cbn [read_sign]. destruct (Z.eqb_spec c 45); [lia|]. destruct (Z.eqb_spec c 43); [lia|].
    by rewrite Ep, Ea.
Qed.

(** The text of a 64-bit integer has at most 20 characters, no superfluous
    zero in front, and reads back as the integer. *)
Theorem int64_text_roundtrip v :
  is_i64 v ->
  exists s,
    sqlite3Int64ToText v = Ret (s ++ [0], Z.of_nat (length s)) /\ (length s <= 20)%nat /\
    (s !! 0%nat = Some 48 -> v = 0) /\
    sqlite3Atoi64 (s ++ [0]) (Z.of_nat (length s)) SQLITE_UTF8 = Ret (0, v).
Proof.
  intros Hv. destruct (text_digits_spec 21 19 (Z.abs v) [0]) as (ds & E & Hds & Hn & Hval & Hl & Hz); [cbn; lia|lia|].
  assert (Ex : (if v <? 0 then if v =? SMALLEST_INT64 then Ret (2 ^ 63) else n ← ck64 (- v); Ret (u64 n) else Ret v)
               = Ret (Z.abs v)).
  { rewrite SMALLEST_eq. destruct (Z.ltb_spec v 0); [|f_equal; lia].
    destruct (Z.eqb_spec v (- 2 ^ 63)) as [->|]; [done|].
    rewrite ck64_id by lia. cbn [mbind outcome_bind]. rewrite u64_id by lia. f_equal; lia. }
  unfold sqlite3Int64ToText. rewrite Ex. cbn [mbind outcome_bind]. rewrite E. cbn [mbind outcome_bind].
  pose proof (parse_digits (v <? 0) ds Hds Hn) as Hp. rewrite Hval in Hp.
  exists (if v <? 0 then 45 :: ds else ds). rewrite atoi64_parse, Hp.
  destruct (Z.ltb_spec v 0); cbn [app length]; rewrite ?length_app; cbn [length].
  - destruct (Z.leb_spec (Z.of_nat (S (length ds + 1))) 22); [|lia].
    destruct (Z.leb_spec (Z.abs v) (2 ^ 63)); [|lia].
    split; [f_equal; f_equal; lia|]. split; [lia|]. split; [done|]. do 2 f_equal; lia.
  - destruct (Z.leb_spec (Z.of_nat (length ds + 1)) 22); [|lia].
    destruct (Z.ltb_spec (Z.abs v) (2 ^ 63)); [|lia].
    split; [f_equal; f_equal; lia|]. split; [lia|]. split; [intros Hs0; specialize (Hz Hs0); lia|].
    do 2 f_equal; lia.
Qed.

Lemma int64_text_roundtrip_min :
  sqlite3Int64ToText (- 2 ^ 63)
  = Ret (chars "-9223372036854775808" ++ [0], 20).
Proof. reflexivity. Qed.

(** ** The 32-bit reader *)

(** The optional number a text starts with, when it fits 32 bits. *)
Definition parse32 (s : list Z) : option Z :=
  let '(neg, s) := read_sign s in
  let ds := prefix_while is_digit s in
  match ds with
  | [] => None
  | _ => let v := value ds in
         if neg : bool then if v <=? 2 ^ 31 then Some (- v) else None
         else if v <? 2 ^ 31 then Some v else None
  end.

(** Is it a hexadecimal literal with at least one digit? *)
Definition is_hex (s : list Z) : bool :=
  match s with
  | z0 :: z1 :: z2 :: _ => (z0 =? 48) && ((z1 =? 120) || (z1 =? 88)) && sqlite3Isxdigit z2
  | _ => false
  end.

Lemma rdc_pre pre c t : rdc (pre ++ c :: t) (Z.of_nat (length pre)) = Ret c.
Proof. apply rdc_lookup. by apply list_lookup_middle. Qed.

Lemma skip_zeros_spec fuel pre t tail :
  (length t < fuel)%nat ->
  skip_zeros fuel (pre ++ t ++ 0 :: tail) (Z.of_nat (length pre))
  = Ret (Z.of_nat (length (pre ++ prefix_while (fun c => c =? 48) t))).
Proof.
  revert pre t. induction fuel as [|fuel IH]; intros pre t Hf; [lia|]. cbn [skip_zeros].
  destruct t as [|c t]; cbn [app prefix_while]; rewrite rdc_pre; cbn [mbind outcome_bind].
  - by rewrite app_nil_r.
  - destruct (c =? 48); [|by rewrite app_nil_r]. specialize (IH (pre ++ [c]) t).
    rewrite <- !app_assoc, length_app, Nat2Z.inj_add in IH. apply IH. cbn [length] in Hf. lia.
Qed.

Lemma read_dec32_spec n pre mid t tail v :
  0 <= v < 10 ^ Z.of_nat (length mid) -> (length mid + n <= 11)%nat ->
  read_dec32 n (pre ++ mid ++ t ++ 0 :: tail) (Z.of_nat (length pre)) (Z.of_nat (length mid)) v
  = let ds := take n (prefix_while is_digit t) in
    Ret (Z.of_nat (length mid + length ds), value_from v ds).
Proof.
  revert mid t v. induction n as [|n IH]; intros mid t v Hv Hn; cbn [read_dec32].
  { rewrite take_0. cbn. f_equal. f_equal. lia. }
  replace (Z.of_nat (length pre) + Z.of_nat (length mid)) with (Z.of_nat (length (pre ++ mid)))
    by (rewrite length_app; lia).
  rewrite (app_assoc pre mid). destruct t as [|c t]; cbn [app prefix_while]; rewrite rdc_pre; cbn [mbind outcome_bind].
  { rewrite take_nil. cbn. f_equal. f_equal. lia. }
  change (is_digit c) with ((48 <=? c) && (c <=? 57)).
  assert (Hc : ((0 <=? c - 48) && (c - 48 <=? 9)) = ((48 <=? c) && (c <=? 57))).
  { apply eq_iff_eq_true. rewrite !andb_true_iff, !Z.leb_le. lia. }
  rewrite Hc. destruct ((48 <=? c) && (c <=? 57)) eqn:Ec; [|rewrite take_nil; cbn; f_equal; f_equal; lia].
  zify_bool. assert (10 ^ Z.of_nat (length mid) <= 10 ^ 10) by (apply Z.pow_le_mono_r; lia).
  rewrite ck64_id by lia. cbn [mbind outcome_bind].
  specialize (IH (mid ++ [c]) t (v * 10 + (c - 48))). rewrite length_app in IH. cbn [length] in IH.
  rewrite Nat2Z.inj_add in IH. change (Z.of_nat 1) with 1 in IH.
  rewrite <- !app_assoc in IH. cbn [app] in IH. rewrite <- app_assoc, IH; [|rewrite Z.pow_add_r, Z.pow_1_r by lia; lia|lia].
  cbn [take length value_from foldl]. f_equal. f_equal. lia.
Qed.

Lemma sign_split s tail :
  exists pre, s ++ 0 :: tail = pre ++ (read_sign s).2 ++ 0 :: tail /\
    rdc (s ++ 0 :: tail) 0 ≫= (fun z0 => Ret (z0 =? 45, if (z0 =? 45) || (z0 =? 43) then 1 else 0))
    = Ret ((read_sign s).1, Z.of_nat (length pre)).
Proof.
  destruct s as [|c s]; [by exists []|]. cbn [read_sign].
  destruct (Z.eqb_spec c 45) as [->|Hc]; [by exists [45]|].
  destruct (Z.eqb_spec c 43) as [->|]; [by exists [43]|].
  exists []. split; [done|].
  change (rdc ((c :: s) ++ 0 :: tail) 0) with (Ret c). cbn [mbind outcome_bind].
  by destruct (Z.eqb_spec c 45), (Z.eqb_spec c 43).
Qed.

Lemma hex_test s tail :
  (z0 ← rdc (s ++ 0 :: tail) 0;
   if (z0 =? 45) || (z0 =? 43) then Ret false
   else if z0 =? 48 then
     z1 ← rdc (s ++ 0 :: tail) 1;
     if (z1 =? 120) || (z1 =? 88) then z2 ← rdc (s ++ 0 :: tail) 2; Ret (sqlite3Isxdigit z2) else Ret false
   else Ret false) = Ret (is_hex (s ++ [0])).
Proof.
  destruct s as [|a s]; [done|].
  assert (Hh : ((a =? 45) || (a =? 43)) = true -> (a =? 48) = false).
  { rewrite orb_true_iff, !Z.eqb_eq, Z.eqb_neq. lia. }
  change (rdc ((a :: s) ++ 0 :: tail) 0) with (Ret a). cbn [mbind outcome_bind].
  destruct s as [|b s].
  - change (rdc ([a] ++ 0 :: tail) 1) with (Ret 0). cbn [mbind outcome_bind].
    by destruct ((a =? 45) || (a =? 43)), (a =? 48).
  - change (rdc ((a :: b :: s) ++ 0 :: tail) 1) with (Ret b). cbn [mbind outcome_bind].
    transitivity (Ret ((a =? 48) && ((b =? 120) || (b =? 88)) && sqlite3Isxdigit (hd 0 (s ++ [0])))); [|by destruct s].
    destruct ((a =? 45) || (a =? 43)); [by rewrite Hh|]. destruct (a =? 48); [|done].
    destruct ((b =? 120) || (b =? 88)); [|done]. by destruct s.
Qed.

(** A text that ends in a zero byte and is no hexadecimal literal: the reader
    answers the decimal number it starts with, exactly when that fits 32 bits. *)
Theorem get_int32_spec s tail :
  text s -> is_hex (s ++ [0]) = false ->
  sqlite3GetInt32 (s ++ 0 :: tail) = Ret (parse32 s).
Proof.
  intros Ht Hhex. pose proof (hex_test s tail) as Eh. rewrite Hhex in Eh.
  destruct (sign_split s tail) as (pre & E & Es). unfold sqlite3GetInt32, parse32.
  destruct (rdc (s ++ 0 :: tail) 0) as [z0| | | |] eqn:E0; try done. cbn [mbind outcome_bind] in *.
  rewrite Eh. cbn [mbind outcome_bind]. injection Es as Eneg Ept. rewrite Ept, Eneg.
  assert (Ht' : text (read_sign s).2).
  { destruct s as [|c s']; [done|]. cbn. apply Forall_cons in Ht as Ht'. destruct (c =? 45); [apply Ht'|].
    destruct (c =? 43); [apply Ht'|done]. }
  assert (Hlen : (length (read_sign s).2 < S (length (s ++ 0%Z :: tail)))%nat)
    by (rewrite E, !length_app; lia).
  destruct (read_sign s) as [neg t]. cbn [fst snd] in *. rewrite E in *. clear E E0 Eh Eneg Ept z0 Hhex Ht s.
  destruct t as [|c t].
  { cbn [app]. rewrite rdc_pre. done. }
  cbn [app]. rewrite rdc_pre. cbn [mbind outcome_bind]. rewrite isdigit_spec by (by inversion Ht'; tauto).
  change (in_range 48 57 c) with (is_digit c). cbn [prefix_while].
  destruct (is_digit c) eqn:Hc; [|done]. cbn [negb].
  assert (Hp : prefix_while is_digit (c :: t) = c :: prefix_while is_digit t) by (cbn; by rewrite Hc).
  rewrite <- Hp. change (c :: t ++ 0 :: tail) with ((c :: t) ++ 0 :: tail).
  rewrite skip_zeros_spec by done. cbn [mbind outcome_bind].
  set (s := c :: t) in *.
  transitivity (Ret (if neg : bool then if value (prefix_while is_digit s) <=? 2 ^ 31 then Some (- value (prefix_while is_digit s)) else None
                     else if value (prefix_while is_digit s) <? 2 ^ 31 then Some (value (prefix_while is_digit s)) else None));
    [|by rewrite Hp].
  rewrite value_after_zeros.
  pose proof (prefix_after (fun c => c =? 48) s) as Es. set (zs := prefix_while (fun c => c =? 48) s) in *.
  set (t' := after_while _ s) in *.
  pose proof (read_dec32_spec 11 (pre ++ zs) [] t' tail 0 ltac:(cbn; lia) ltac:(cbn; lia)) as Er.
  assert (Eb : pre ++ s ++ 0 :: tail = (pre ++ zs) ++ [] ++ t' ++ 0 :: tail)
    by (by rewrite <- Es at 1; rewrite <- !app_assoc).
  rewrite Eb. change (Z.of_nat (length [])) with 0 in Er. rewrite Er. cbn [mbind outcome_bind]. clear Er.
  pose proof (prefix_forall is_digit t') as Hds. pose proof (value_range _ Hds) as Hv.
  pose proof (value_long (prefix_while is_digit t') 10 Hds (fun c ds' => prefix_nonzero s c ds')) as Hbig.
  set (ds := prefix_while is_digit t') in *. rewrite Nat.add_0_l, length_take.
  destruct (Z.ltb_spec 10 (Z.of_nat (11 `min` length ds))) as [Hl|Hl].
  - specialize (Hbig ltac:(lia)). change (10 ^ Z.of_nat 10) with (10 ^ 10) in Hbig.
    destruct (Z.leb_spec (value ds) (2 ^ 31)), (Z.ltb_spec (value ds) (2 ^ 31)); try lia. by destruct neg.
  - rewrite take_ge by lia. fold (value ds). clear Hbig.
    destruct neg; cbn [negb].
    + destruct (Z.ltb_spec 2147483647 (value ds - 1)), (Z.leb_spec (value ds) (2 ^ 31)); try lia; [done|].
      by rewrite i32_id by lia.
    + destruct (Z.ltb_spec 2147483647 (value ds - 0)), (Z.ltb_spec (value ds) (2 ^ 31)); try lia; [done|].
      by rewrite i32_id by lia.
Qed.

(** ** Literals *)

(** The value of a hexadecimal digit. *)
Definition hex_digit (c : Z) : Z := if c <=? 57 then c - 48 else if c <=? 70 then c - 55 else c - 87.
Definition hex_from (v : Z) (ds : list Z) : Z := foldl (fun v c => v * 16 + hex_digit c) v ds.

Lemma hex_to_int_spec c :
  is_char c -> sqlite3Isxdigit c = true -> sqlite3HexToInt c = Ret (hex_digit c).
Proof.
  intros Hc Hx. rewrite isxdigit_spec in Hx by done. unfold sqlite3HexToInt.
  rewrite assert_true. 2: { revert Hx. rewrite !orb_true_iff. tauto. }
  cbn [mbind outcome_bind]. f_equal. apply Z.eqb_eq.
  pose proof (all_chars (fun c => negb (in_range 48 57 c || in_range 65 70 c || in_range 97 102 c)
    || (Z.land (c + 9 * Z.land 1 (Z.shiftr c 6)) 15 =? hex_digit c)) c eq_refl Hc) as Hall.
  cbv beta in Hall. by rewrite Hx in Hall.
Qed.

Lemma read_hex_spec fuel pre t tail u :
  (length t < fuel)%nat -> text t ->
  read_hex fuel (pre ++ t ++ 0 :: tail) (Z.of_nat (length pre)) (u64 u)
  = Ret (Z.of_nat (length (pre ++ prefix_while sqlite3Isxdigit t)),
         u64 (hex_from u (prefix_while sqlite3Isxdigit t))).
Proof.
  revert pre t u. induction fuel as [|fuel IH]; intros pre t u Hf Ht; [lia|]. cbn [read_hex].
  destruct t as [|c t]; cbn [app prefix_while]; rewrite rdc_pre; cbn [mbind outcome_bind].
  - change (sqlite3Isxdigit 0) with false. cbv iota. by rewrite app_nil_r.
  - apply Forall_cons in Ht as [[Hc Hc0] Ht]. destruct (sqlite3Isxdigit c) eqn:Hx; [|by rewrite app_nil_r].
    rewrite hex_to_int_spec by done. cbn [mbind outcome_bind].
    replace (u64 (u64 u * 16 + hex_digit c)) with (u64 (u * 16 + hex_digit c)).
    2: { unfold u64. by rewrite <- (Zplus_mod_idemp_l (u mod _ * 16)), Zmult_mod_idemp_l, Zplus_mod_idemp_l. }
    specialize (IH (pre ++ [c]) t (u * 16 + hex_digit c)).
    rewrite <- !app_assoc, length_app, Nat2Z.inj_add in IH. apply IH; [cbn [length] in Hf; lia|done].
Qed.

(** A hexadecimal literal of up to 16 significant digits is read as the
    64-bit pattern it writes, so from 8000000000000000 on it is negative; longer
    ones are reported, and so is text behind the digits. *)
Theorem hex_literal_spec x t tail :
  x = 120 \/ x = 88 -> text t ->
  let ds := prefix_while sqlite3Isxdigit (after_while (fun c => c =? 48) t) in
  let rest := after_while sqlite3Isxdigit (after_while (fun c => c =? 48) t) in
  sqlite3DecOrHexToI64 (48 :: x :: t ++ 0 :: tail)
  = Ret (if (16 <? length ds)%nat then 2 else match rest with [] => 0 | _ => 1 end, i64 (hex_from 0 ds)).
Proof.
  intros Hx Ht. set (zs := prefix_while (fun c => c =? 48) t). set (t' := after_while (fun c => c =? 48) t).
  assert (Et : t = zs ++ t') by (symmetry; apply prefix_after). intros ds rest.
  assert (Et' : t' = ds ++ rest) by (symmetry; apply prefix_after).
  assert (Ht' : text t') by (rewrite Et in Ht; by apply Forall_app in Ht as [_ ?]).
  unfold sqlite3DecOrHexToI64. set (z := 48 :: x :: t ++ 0 :: tail).
  change (rdc z 0) with (Ret 48). change (rdc z 1) with (Ret x). cbn [mbind outcome_bind].
  change (48 =? 48) with true. cbv iota. cbn [mbind outcome_bind].
  replace ((x =? 120) || (x =? 88)) with true by (by destruct Hx as [-> | ->]). cbv iota.
  assert (Hz : z = [48; x] ++ t ++ 0 :: tail) by done.
  assert (Hlen : length z = (3 + length t + length tail)%nat) by (rewrite Hz, !length_app; cbn [length]; lia).
  assert (Hlt : (length t' <= length t)%nat) by (rewrite Et, length_app; lia).
  assert (Es : skip_zeros (S (length z)) z 2 = Ret (Z.of_nat (length ([48; x] ++ zs)))).
  { remember (S (length z)) as fuel eqn:Ef. rewrite Hz. apply (skip_zeros_spec fuel [48; x] t tail). lia. }
  rewrite Es. cbn [mbind outcome_bind].
  assert (Hz' : z = ([48; x] ++ zs) ++ t' ++ 0 :: tail) by (by rewrite Hz, Et, <- !app_assoc).
  assert (Er : read_hex (S (length z)) z (Z.of_nat (length ([48; x] ++ zs))) 0
               = Ret (Z.of_nat (length (([48; x] ++ zs) ++ ds)), u64 (hex_from 0 ds))).
  { remember (S (length z)) as fuel eqn:Ef. rewrite Hz'. apply (read_hex_spec fuel ([48; x] ++ zs) t' tail 0); [lia|done]. }
  rewrite Er. clear Er. cbn [mbind outcome_bind]. rewrite i64_u64.
  replace (Z.of_nat (length (([48; x] ++ zs) ++ ds)) - Z.of_nat (length ([48; x] ++ zs))) with (Z.of_nat (length ds))
    by (rewrite (length_app _ ds); lia).
  destruct (Nat.ltb_spec 16 (length ds)), (Z.ltb_spec 16 (Z.of_nat (length ds))); try lia; [done|].
  assert (Hzr : z = (([48; x] ++ zs) ++ ds) ++ rest ++ 0 :: tail) by (by rewrite Hz', Et', <- !app_assoc).
  rewrite Hzr. set (pre := ([48; x] ++ zs) ++ ds). clearbody z rest pre.
  destruct rest as [|c rest]; cbn [app]; rewrite rdc_pre; cbn [mbind outcome_bind].
  - done.
  - destruct (Z.eqb_spec c 0) as [->|]; [|done].
    rewrite Et' in Ht'. apply Forall_app in Ht' as [_ Hr]. apply Forall_cons in Hr as [[_ ?] _]. done.
Qed.

Lemma strspn_spec s tail :
  Forall (fun c => number_char c = true) s -> strspn (s ++ 0 :: tail) = Ret (Z.of_nat (length s)).
Proof.
  induction 1 as [|c s Hc Hs IH]; [done|]. cbn [app strspn]. rewrite Hc, IH. cbn [mbind outcome_bind].
  f_equal. cbn [length]. lia.
Qed.

(** Any other literal, of the characters of decimal numbers, is read as the
    conversion of text does. *)
Theorem dec_literal_spec s tail :
  Forall (fun c => number_char c = true) s -> Z.of_nat (length s) < 2 ^ 30 ->
  sqlite3DecOrHexToI64 (s ++ 0 :: tail) = Ret (parse s).
Proof.
  intros Hs Hl. unfold sqlite3DecOrHexToI64.
  assert (Eh : (z0 ← rdc (s ++ 0 :: tail) 0;
    if z0 =? 48 then z1 ← rdc (s ++ 0 :: tail) 1; Ret ((z1 =? 120) || (z1 =? 88)) else Ret false) = Ret false).
  { destruct s as [|a s]; [done|]. change (rdc ((a :: s) ++ 0 :: tail) 0) with (Ret a). cbn [mbind outcome_bind].
    destruct (a =? 48); [|done]. destruct s as [|b s]; [done|].
    change (rdc ((a :: b :: s) ++ 0 :: tail) 1) with (Ret b). cbn [mbind outcome_bind].
    apply Forall_cons in Hs as [_ Hs]. apply Forall_cons in Hs as [Hb _].
    destruct (Z.eqb_spec b 120) as [->|]; [done|]. by destruct (Z.eqb_spec b 88) as [->|]. }
  destruct (rdc (s ++ 0 :: tail) 0) as [z0| | | |]; try done. cbn [mbind outcome_bind] in *. rewrite Eh.
  cbn [mbind outcome_bind]. rewrite strspn_spec by done. cbn [mbind outcome_bind].
  change 0x3fffffff with (Z.ones 30). rewrite Z.land_comm, Z.land_ones, Z.mod_small by lia.
  rewrite rdc_pre. cbn [mbind outcome_bind]. change (negb (0 =? 0)) with false. cbv iota. apply atoi64_parse.
Qed.

End Properties.

(** ** Witnesses *)

(** One more than the range. *)
Definition over_range : list Z := chars "9223372036854775808".

Example parse_over_range : parse over_range = (3, 2 ^ 63 - 1) /\ parse (45 :: over_range) = (0, - 2 ^ 63).
Proof. split; reflexivity. Qed.

Lemma atoi64_encodings_agree_witness :
  @sqlite3Atoi64 debug_build (utf16 SQLITE_UTF16LE over_range ++ []) (2 * 19) SQLITE_UTF16LE = Ret (3, 2 ^ 63 - 1).
Proof.
  etrans; [apply (@atoi64_encodings_agree debug_build SQLITE_UTF16LE over_range [] []); by left|reflexivity].
Defined.

Lemma int64_text_roundtrip_witness :
  exists s,
    sqlite3Int64ToText (-42) = Ret (s ++ [0], Z.of_nat (length s)) /\ (length s <= 20)%nat /\
    (s !! 0%nat = Some 48 -> -42 = 0) /\
    @sqlite3Atoi64 debug_build (s ++ [0]) (Z.of_nat (length s)) SQLITE_UTF8 = Ret (0, -42).
Proof. apply (@int64_text_roundtrip debug_build (-42)). lia. Defined.

Lemma get_int32_spec_witness :
  @sqlite3GetInt32 debug_build (chars "-07x" ++ 0 :: []) = Ret (Some (-7)).
Proof.
  etrans; [apply (@get_int32_spec debug_build (chars "-07x") []);
           [by apply text_check|reflexivity]|reflexivity].
Defined.

Lemma hex_literal_spec_witness :
  @sqlite3DecOrHexToI64 debug_build (48 :: 120 :: chars "0Ff" ++ 0 :: []) = Ret (0, 255).
Proof.
  etrans; [apply (@hex_literal_spec debug_build 120 (chars "0Ff") []); [by left|by apply text_check]|reflexivity].
Defined.

Lemma dec_literal_spec_witness :
  @sqlite3DecOrHexToI64 debug_build (chars "+12" ++ 0 :: []) = Ret (0, 12).
Proof.
  etrans; [apply (@dec_literal_spec debug_build (chars "+12") []); [repeat constructor|cbn; lia]|reflexivity].
Defined.

(** "0x" without a digit counts as the number zero. *)
Example hex_prefix_alone : @sqlite3DecOrHexToI64 debug_build (chars "0x" ++ [0]) = Ret (0, 0).
Proof. reflexivity. Qed.
