(* ===== verification/HashTab.v ===== *)
(** * Hash tables: deps/sqlite3/sqlite3.c, hash.c

    The hash table of the schema: all elements on one doubly-linked list, in
    which the elements of a bucket lie side by side; a bucket is a pointer into
    the list and a count.  The elements live in a store of cells that point at
    each other, as in the source; pointers are addresses, [None] is null.  Keys
    are zero-terminated strings compared without regard to the case of ASCII
    letters; data is a number, zero for the null pointer. *)

From S2P Require Import Prelude Words Chars.

(** ** Data *)

Record HashElem := { next : option nat; prev : option nat; data : Z; pKey : list Z }.
Record bucket := { b_count : Z; b_chain : option nat }.

Record Hash := {
  htsize : Z;
  count : Z;
  first : option nat;
  ht : option (list bucket);
  heap : gmap nat HashElem;       (* the cells allocated for the table *)
}.

(** Stores through a pointer. *)
Definition deref (h : gmap nat HashElem) (x : nat) : outcome HashElem :=
  match h !! x with Some e => Ret e | None => Undefined end.
Definition set_next (x : nat) (v : option nat) (h : gmap nat HashElem) : outcome (gmap nat HashElem) :=
  e ← deref h x; Ret (<[x := {| next := v; prev := prev e; data := data e; pKey := pKey e |}]> h).
Definition set_prev (x : nat) (v : option nat) (h : gmap nat HashElem) : outcome (gmap nat HashElem) :=
  e ← deref h x; Ret (<[x := {| next := next e; prev := v; data := data e; pKey := pKey e |}]> h).
Definition set_entry (x : nat) (d : Z) (k : list Z) (h : gmap nat HashElem) : outcome (gmap nat HashElem) :=
  e ← deref h x; Ret (<[x := {| next := next e; prev := prev e; data := d; pKey := k |}]> h).

(** ** Operations *)

Definition sqlite3HashInit (cells : gmap nat HashElem) : Hash :=
  {| htsize := 0; count := 0; first := None; ht := None; heap := cells |}.

(** The [while( elem )] loop, [fuel] bounding its turns. *)
Fixpoint free_all (fuel : nat) (elem : option nat) (h : gmap nat HashElem) : outcome (gmap nat HashElem) :=
  match elem, fuel with
  | None, _ => Ret h
  | Some x, O => OutOfFuel
  | Some x, S fuel => e ← deref h x; free_all fuel (next e) (delete x h)
  end.

Definition sqlite3HashClear (pH : Hash) : outcome Hash :=
  h ← free_all (size (heap pH)) (first pH) (heap pH);
  Ret {| htsize := 0; count := 0; first := None; ht := None; heap := h |}.

(** The loop over the key, [h] an [unsigned int]. *)
Fixpoint strHash_loop (z : list Z) (h : Z) : outcome Z :=
  match z with
  | [] => Undefined
  | c :: z =>
      if uchar c =? 0 then Ret h
      else strHash_loop z (u32 (u32 (h + sqlite3Tolower c) * 0x9e3779b1))
  end.
Definition strHash (z : list Z) : outcome Z := strHash_loop z 0.

(** [pEntry] is the index of a bucket. *)
Definition insertElement (pH : Hash) (pEntry : option nat) (pNew : nat) : outcome Hash :=
  '(pHead, ht') ←
    match pEntry with
    | Some i =>
        match ht pH with
        | Some bs =>
            match bs !! i with
            | Some b => Ret (if b_count b =? 0 then None else b_chain b,
                             Some (<[i := {| b_count := u32 (b_count b + 1); b_chain := Some pNew |}]> bs))
            | None => Undefined
            end
        | None => Undefined
        end
    | None => Ret (None, ht pH)
    end;
  '(first', h) ←
    match pHead with
    | Some hd =>
        e ← deref (heap pH) hd;
        h ← set_next pNew (Some hd) (heap pH);
        h ← set_prev pNew (prev e) h;
        '(first', h) ← match prev e with
                       | Some y => h ← set_next y (Some pNew) h; Ret (first pH, h)
                       | None => Ret (Some pNew, h)
                       end;
        h ← set_prev hd (Some pNew) h;
        Ret (first', h)
    | None =>
        h ← set_next pNew (first pH) (heap pH);
        h ← match first pH with Some f => set_prev f (Some pNew) h | None => Ret h end;
        h ← set_prev pNew None h;
        Ret (Some pNew, h)
    end;
  Ret {| htsize := htsize pH; count := count pH; first := first'; ht := ht'; heap := h |}.

Definition SQLITE_MALLOC_SOFT_LIMIT : Z := 1024.
(** [sizeof(struct _ht)] *)
Definition sizeof_ht : Z := 16.

(** The [for] loop of [rehash]. *)
Fixpoint rehash_loop (fuel : nat) (new_size : Z) (elem : option nat) (pH : Hash) : outcome Hash :=
  match elem, fuel with
  | None, _ => Ret pH
  | Some x, O => OutOfFuel
  | Some x, S fuel =>
      e ← deref (heap pH) x;
      h ← strHash (pKey e);
      if new_size =? 0 then Undefined
      else
        pH ← insertElement pH (Some (Z.to_nat (h mod new_size))) x;
        rehash_loop fuel new_size (next e) pH
  end.

(** [malloc n] is the size that sqlite3MallocSize reports for a block obtained
    for [n] bytes; [None] when there is no memory. *)
Definition rehash (malloc : Z -> option Z) (pH : Hash) (new_size : Z) : outcome (bool * Hash) :=
  let new_size := if SQLITE_MALLOC_SOFT_LIMIT <? new_size * sizeof_ht
                  then SQLITE_MALLOC_SOFT_LIMIT / sizeof_ht else new_size in
  if new_size =? htsize pH then Ret (false, pH)
  else
    match malloc (new_size * sizeof_ht) with
    | None => Ret (false, pH)
    | Some bytes =>
        let new_size := u32 (bytes / sizeof_ht) in
        let new_ht := replicate (Z.to_nat new_size) {| b_count := 0; b_chain := None |} in
        pH ← rehash_loop (size (heap pH)) new_size (first pH)
               {| htsize := new_size; count := count pH; first := None; ht := Some new_ht; heap := heap pH |};
        Ret (true, pH)
    end.

Section Ops.
Context `{Build}.

(** The [while( count )] loop; [None] stands for [nullElement]. *)
Fixpoint find_loop (h : gmap nat HashElem) (cnt : nat) (elem : option nat) (key : list Z) : outcome (option nat) :=
  match cnt with
  | O => Ret None
  | S cnt =>
      _ ← assert_ (bool_decide (elem <> None));
      match elem with
      | None => Undefined
      | Some x =>
          e ← deref h x;
          c ← sqlite3StrICmp (pKey e) key;
          if c =? 0 then Ret (Some x) else find_loop h cnt (next e) key
      end
  end.

(** The element and the bucket of its key. *)
Definition findElementWithHash (pH : Hash) (key : list Z) : outcome (option nat * Z) :=
  '(h, elem, cnt) ←
    match ht pH with
    | Some bs =>
        h ← strHash key;
        if htsize pH =? 0 then Undefined
        else
          let h := h mod htsize pH in
          match bs !! Z.to_nat h with
          | Some b => Ret (h, b_chain b, b_count b)
          | None => Undefined
          end
    | None => Ret (0, first pH, count pH)
    end;
  r ← find_loop (heap pH) (Z.to_nat cnt) elem key;
  Ret (r, h).

Definition removeElementGivenHash (pH : Hash) (elem : nat) (h : Z) : outcome Hash :=
  e ← deref (heap pH) elem;
  '(first', cells) ← match prev e with
                     | Some y => cells ← set_next y (next e) (heap pH); Ret (first pH, cells)
                     | None => Ret (next e, heap pH)
                     end;
  cells ← match next e with Some y => set_prev y (prev e) cells | None => Ret cells end;
  ht' ← match ht pH with
        | Some bs =>
            match bs !! Z.to_nat h with
            | Some b =>
                let chain := if decide (b_chain b = Some elem) then next e else b_chain b in
                _ ← assert_ (0 <? b_count b);
                Ret (Some (<[Z.to_nat h := {| b_count := u32 (b_count b - 1); b_chain := chain |}]> bs))
            | None => Undefined
            end
        | None => Ret None
        end;
  let pH := {| htsize := htsize pH; count := u32 (count pH - 1); first := first'; ht := ht';
               heap := delete elem cells |} in
  if count pH =? 0 then
    _ ← assert_ (bool_decide (first pH = None));
    sqlite3HashClear pH
  else Ret pH.

Definition sqlite3HashFind (pH : Hash) (key : list Z) : outcome Z :=
  '(r, _) ← findElementWithHash pH key;
  match r with Some x => e ← deref (heap pH) x; Ret (data e) | None => Ret 0 end.

(** [new_elem] is the address of the new element, [None] when there is no memory.
    The data returned and the table. *)
Definition sqlite3HashInsert (malloc : Z -> option Z) (new_elem : option nat)
    (pH : Hash) (key : list Z) (d : Z) : outcome (Z * Hash) :=
  '(r, h) ← findElementWithHash pH key;
  old ← match r with Some x => e ← deref (heap pH) x; Ret (data e) | None => Ret 0 end;
  if negb (old =? 0) then
    match r with
    | Some x =>
        pH ← (if d =? 0 then removeElementGivenHash pH x h
              else
                cells ← set_entry x d key (heap pH);
                Ret {| htsize := htsize pH; count := count pH; first := first pH; ht := ht pH; heap := cells |});
        Ret (old, pH)
    | None => Undefined                (* the data of nullElement is null *)
    end
  else
    if d =? 0 then Ret (0, pH)
    else
      match new_elem with
      | None => Ret (d, pH)
      | Some x =>
          (* the links are written by insertElement *)
          let cell := {| next := None; prev := None; data := d; pKey := key |} in
          let pH := {| htsize := htsize pH; count := u32 (count pH + 1); first := first pH; ht := ht pH;
                       heap := <[x := cell]> (heap pH) |} in
          '(h, pH) ←
            (if (10 <=? count pH) && (u32 (2 * htsize pH) <? count pH) then
               '(done, pH) ← rehash malloc pH (u32 (count pH * 2));
               if done : bool then
                 _ ← assert_ (0 <? htsize pH);
                 h ← strHash key;
                 if htsize pH =? 0 then Undefined else Ret (h mod htsize pH, pH)
               else Ret (h, pH)
             else Ret (h, pH));
          pH ← insertElement pH (match ht pH with Some _ => Some (Z.to_nat h) | None => None end) x;
          Ret (0, pH)
      end.

End Ops.

(** ** The list in the store *)

(** An element as its users see it: address, key, data. *)
Record node := { id : nat; nkey : list Z; ndata : Z }.

Definition ids (ns : list node) : list nat := map id ns.
Definition hd_id (ns : list node) (dst : option nat) : option nat :=
  match ns with [] => dst | n :: _ => Some (id n) end.
Fixpoint last_id (src : option nat) (ns : list node) : option nat :=
  match ns with [] => src | n :: ns => last_id (Some (id n)) ns end.

Definition cell (n : node) (p nx : option nat) : HashElem :=
  {| next := nx; prev := p; data := ndata n; pKey := nkey n ++ [0] |}.

(** The nodes lie in the store in this order, linked both ways, between [src]
    and [dst]. *)
Fixpoint chain (h : gmap nat HashElem) (src : option nat) (ns : list node) (dst : option nat) : Prop :=
  match ns with
  | [] => True
  | n :: ns => h !! id n = Some (cell n src (hd_id ns dst)) /\ chain h (Some (id n)) ns dst
  end.

Lemma hd_id_app a b dst : hd_id (a ++ b) dst = hd_id a (hd_id b dst).
Proof. by destruct a. Qed.
Lemma last_id_app src a b : last_id src (a ++ b) = last_id (last_id src a) b.
Proof. revert src. induction a as [|n a IH]; intros src; [done|apply IH]. Qed.

Lemma chain_app h src a b dst :
  chain h src (a ++ b) dst <-> chain h src a (hd_id b dst) /\ chain h (last_id src a) b dst.
Proof.
  revert src. induction a as [|n a IH]; intros src; cbn [app chain last_id]; [tauto|].
  rewrite IH, hd_id_app. tauto.
Qed.

(** A chain depends on its own cells only. *)
Lemma chain_frame h h' src ns dst :
  chain h src ns dst -> (forall x, x ∈ ids ns -> h' !! x = h !! x) -> chain h' src ns dst.
Proof.
  revert src. induction ns as [|n ns IH]; intros src Hc Hf; [done|]. destruct Hc as [Hn Hc].
  split; [rewrite Hf; [done|by left]|]. apply IH; [done|]. intros x Hx. apply Hf. by right.
Qed.

Lemma chain_lookup h src ns dst n : chain h src ns dst -> n ∈ ns -> exists p nx, h !! id n = Some (cell n p nx).
Proof.
  revert src. induction ns as [|m ns IH]; intros src Hc Hn; [by inversion Hn|]. destruct Hc as [Hm Hc].
  apply elem_of_cons in Hn as [->|Hn]; eauto.
Qed.

Lemma elem_of_ids n ns : n ∈ ns -> id n ∈ ids ns.
Proof. apply list_elem_of_fmap_2. Qed.
Lemma ids_app a b : ids (a ++ b) = ids a ++ ids b.
Proof. apply map_app. Qed.

(** Redirect the last link of a chain, or the first. *)
Lemma chain_set_last h src a n dst dst' :
  chain h src (a ++ [n]) dst -> id n ∉ ids a ->
  chain (<[id n := cell n (last_id src a) dst']> h) src (a ++ [n]) dst'.
Proof.
  rewrite !chain_app. intros [Ha [Hn _]] Hni. split; [|by split; [apply lookup_insert_eq|]].
  apply (chain_frame h); [done|]. intros x Hx. apply lookup_insert_ne. by intros <-.
Qed.
Lemma chain_set_first h src src' n b dst :
  chain h src (n :: b) dst -> id n ∉ ids b ->
  chain (<[id n := cell n src' (hd_id b dst)]> h) src' (n :: b) dst.
Proof.
  intros [Hn Hb] Hni. split; [apply lookup_insert_eq|].
  apply (chain_frame h); [done|]. intros x Hx. apply lookup_insert_ne. by intros <-.
Qed.

(** ** Insertion into the list *)

(** The element with pointers rewritten. *)
Lemma set_next_cell h x e v : h !! x = Some e ->
  set_next x v h = Ret (<[x := {| next := v; prev := prev e; data := data e; pKey := pKey e |}]> h).
Proof. intros E. unfold set_next, deref. by rewrite E. Qed.
Lemma set_prev_cell h x e v : h !! x = Some e ->
  set_prev x v h = Ret (<[x := {| next := next e; prev := v; data := data e; pKey := pKey e |}]> h).
Proof. intros E. unfold set_prev, deref. by rewrite E. Qed.

(** The store after an insertion: [n] stands between [a] and [b], everything
    outside the list is as before. *)
Definition linked (h h' : gmap nat HashElem) (n : node) (a b : list node) : Prop :=
  chain h' None (a ++ n :: b) None /\ dom h' = dom h /\
  (forall x, x ∉ ids (a ++ n :: b) -> h' !! x = h !! x).

(** A cell that holds the key and the data of a node, its links arbitrary. *)
Definition holds (h : gmap nat HashElem) (n : node) : Prop := exists p nx, h !! id n = Some (cell n p nx).

Lemma NoDup_mid (a : list node) n b : NoDup (ids (a ++ n :: b)) ->
  (id n ∉ ids a) /\ (id n ∉ ids b) /\ NoDup (ids (a ++ b)) /\ (forall x, x ∈ ids a -> x ∉ ids b).
Proof.
  rewrite !ids_app. cbn [ids map]. rewrite !NoDup_app, NoDup_cons.
  intros (Ha & Hd & Hn & Hb). repeat split; try done.
  - intros Hx. apply (Hd _ Hx). by left.
  - intros x Hx Hy. apply (Hd _ Hx). by right.
  - intros x Hx Hy. apply (Hd _ Hx). by right.
Qed.

Lemma dom_insert_in (h : gmap nat HashElem) x e e' : h !! x = Some e -> dom (<[x := e']> h) = dom h.
Proof. intros E. apply dom_insert_lookup_L. by eexists. Qed.

(** At the front of the list. *)
Lemma link_front h n ns :
  chain h None ns None -> holds h n -> NoDup (ids (n :: ns)) ->
  exists h',
    (h ← set_next (id n) (hd_id ns None) h;
     h ← (match hd_id ns None with Some f => set_prev f (Some (id n)) h | None => Ret h end);
     h ← set_prev (id n) None h;
     Ret (Some (id n), h)) = Ret (Some (id n), h') /\ linked h h' n [] ns.
Proof.
  intros Hc (p & nx & Hn) Hnd. apply NoDup_cons in Hnd as [Hni Hnd].
  rewrite (set_next_cell h _ _ _ Hn). cbn [mbind outcome_bind next prev data pKey cell].
  set (h1 := <[id n := _]> h).
  assert (Hc1 : chain h1 None ns None).
  { apply (chain_frame h); [done|]. intros x Hx. apply lookup_insert_ne. by intros <-. }
  destruct ns as [|m ns]; cbn [hd_id].
  - cbn [mbind outcome_bind]. rewrite (set_prev_cell h1 _ _ _ (lookup_insert_eq _ _ _)).
    eexists. split; [done|]. split; [|split].
    + cbn [app chain hd_id]. split; [|done]. by rewrite lookup_insert_eq.
    + unfold h1. rewrite insert_insert_eq. by eapply dom_insert_in.
    + intros x Hx. unfold h1. rewrite !lookup_insert_ne; [done|intros <-; apply Hx; by left..].
  - destruct Hc1 as [Hm Hc1]. assert (Hne : id n <> id m) by (intros E; apply Hni; rewrite E; by left).
    rewrite (set_prev_cell h1 _ _ _ Hm). cbn [mbind outcome_bind next prev data pKey cell].
    set (h2 := <[id m := _]> h1).
    assert (Hn2 : h2 !! id n = Some {| next := Some (id m); prev := p; data := ndata n; pKey := nkey n ++ [0] |}).
    { unfold h2. rewrite lookup_insert_ne by done. apply lookup_insert_eq. }
    rewrite (set_prev_cell h2 _ _ _ Hn2). eexists. split; [done|]. split; [|split].
    + split; [by rewrite lookup_insert_eq|]. apply (chain_frame h2).
      * apply (chain_set_first h1 None); [by split|]. apply NoDup_cons in Hnd as [? _]. done.
      * intros x Hx. apply lookup_insert_ne. by intros <-.
    + rewrite (dom_insert_in h2 _ _ _ Hn2). unfold h2. rewrite (dom_insert_in h1 _ _ _ Hm). by eapply dom_insert_in.
    + intros x Hx. unfold h2, h1. rewrite !lookup_insert_ne; [done|..]; intros <-; apply Hx; [by left|by right; left|by left].
Qed.

(** Redirect the last element of [a], if there is one; [f] and [g] are the first
    element of the list in either case. *)
Lemma relink_last h a dst dst' (f g : option nat) :
  chain h None a dst -> NoDup (ids a) ->
  exists h',
    match last_id None a with
    | Some y => h ← set_next y dst' h; Ret (f, h)
    | None => Ret (g, h)
    end = Ret (match a with [] => g | _ => f end, h') /\
    chain h' None a dst' /\ dom h' = dom h /\ (forall x, x ∉ ids a -> h' !! x = h !! x).
Proof.
  intros Ha Hnd. destruct a as [|y a _] using rev_ind; [by exists h|]. rewrite last_id_app. cbn [last_id].
  pose proof (proj1 (chain_app _ _ _ _ _) Ha) as [_ [Hy _]].
  rewrite (set_next_cell h _ _ _ Hy). cbn [mbind outcome_bind next prev data pKey cell].
  change {| next := dst'; prev := last_id None a; data := ndata y; pKey := nkey y ++ [0] |}
    with (cell y (last_id None a) dst').
  eexists. split; [by destruct a|]. split; [|split].
  - eapply chain_set_last; [done|]. by apply NoDup_mid in Hnd as [? _].
  - by eapply dom_insert_in.
  - intros x Hx. apply lookup_insert_ne. intros <-. apply Hx. rewrite ids_app. apply elem_of_app. right. by left.
Qed.

(** In front of the element [m]. *)
Lemma link_before h n a m b fst :
  chain h None (a ++ m :: b) None -> holds h n -> NoDup (ids (a ++ n :: m :: b)) ->
  fst = hd_id (a ++ m :: b) None ->
  exists h',
    (e ← deref h (id m);
     h ← set_next (id n) (Some (id m)) h;
     h ← set_prev (id n) (prev e) h;
     '(first', h) ← match prev e with
                    | Some y => h ← set_next y (Some (id n)) h; Ret (fst, h)
                    | None => Ret (Some (id n), h)
                    end;
     h ← set_prev (id m) (Some (id n)) h;
     Ret (first', h)) = Ret (hd_id (a ++ n :: m :: b) None, h') /\ linked h h' n a (m :: b).
Proof.
  intros Hc (p & nx & Hn) Hnd ->. apply chain_app in Hc as [Ha [Hm Hb]]. cbn [hd_id] in Ha.
  pose proof (NoDup_mid a n (m :: b) Hnd) as (Hna & Hnb & Hnd' & _).
  pose proof (NoDup_mid a m b Hnd') as (Hma & Hmb & _ & Hdisj).
  assert (Hne : id n <> id m) by (intros E; apply Hnb; rewrite E; by left).
  unfold deref at 1. rewrite Hm. cbn [mbind outcome_bind].
  rewrite (set_next_cell h _ _ _ Hn). cbn [mbind outcome_bind next prev data pKey cell].
  set (h1 := <[id n := _]> h). rewrite (set_prev_cell h1 _ _ _ (lookup_insert_eq _ _ _)).
  unfold h1. rewrite insert_insert_eq. clear h1. cbn [mbind outcome_bind next prev data pKey].
  change {| next := Some (id m); prev := last_id None a; data := ndata n; pKey := nkey n ++ [0] |}
    with (cell n (last_id None a) (Some (id m))).
  set (h2 := <[id n := _]> h).
  assert (Hdom2 : dom h2 = dom h) by (by eapply dom_insert_in).
  assert (Hn2 : h2 !! id n = Some (cell n (last_id None a) (Some (id m)))) by apply lookup_insert_eq.
  assert (Hfr2 : forall x, x <> id n -> h2 !! x = h !! x) by (intros x Hx; by apply lookup_insert_ne).
  clearbody h2.
  assert (Ha2 : chain h2 None a (Some (id m))).
  { apply (chain_frame h); [done|]. intros x Hx. apply Hfr2. by intros ->. }
  destruct (relink_last h2 a _ (Some (id n)) (hd_id (a ++ m :: b) None) (Some (id n)) Ha2)
    as (h3 & E3 & Ha3 & Hd3 & Hfr3); [rewrite ids_app in Hnd'; by apply NoDup_app in Hnd' as [? _]|].
  rewrite E3. cbn [mbind outcome_bind].
  assert (Hm3 : h3 !! id m = Some (cell m (last_id None a) (hd_id b None))) by (rewrite Hfr3, Hfr2; done).
  rewrite (set_prev_cell h3 _ _ _ Hm3). cbn [mbind outcome_bind next prev data pKey cell].
  change {| next := hd_id b None; prev := Some (id n); data := ndata m; pKey := nkey m ++ [0] |}
    with (cell m (Some (id n)) (hd_id b None)).
  eexists. split; [by destruct a|]. split; [|split].
  - apply chain_app. split; [|split; [|split]].
    + apply (chain_frame h3); [done|]. intros x Hx. apply lookup_insert_ne. by intros <-.
    + rewrite lookup_insert_ne by done. rewrite Hfr3 by done. exact Hn2.
    + apply lookup_insert_eq.
    + apply (chain_frame h); [done|]. intros x Hx. rewrite lookup_insert_ne by (by intros <-).
      rewrite Hfr3 by (intros Hx'; by apply (Hdisj x)). apply Hfr2. intros ->. apply Hnb. by right.
  - rewrite (dom_insert_in h3 _ _ _ Hm3). by rewrite Hd3.
  - intros x Hx. rewrite ids_app in Hx. cbn [ids map] in Hx. rewrite not_elem_of_app, !not_elem_of_cons in Hx.
    destruct Hx as (Hxa & Hxn & Hxm & _). rewrite lookup_insert_ne by done. rewrite Hfr3 by done. by apply Hfr2.
Qed.

(** ** Buckets *)

(** The hash of the lower-case form of a key. *)
Definition hash_of (k : list Z) : Z := foldl (fun h c => u32 (u32 (h + c) * 0x9e3779b1)) 0 (lower k).

Lemma uchar_text c : is_char c /\ c <> 0 -> (uchar c =? 0) = false.
Proof. intros [Hc Hn]. change 0 with (uchar 0). rewrite uchar_eq by lia. by apply Z.eqb_neq. Qed.

Lemma strHash_lower k : text k -> strHash (k ++ [0]) = Ret (hash_of k).
Proof.
  unfold strHash, hash_of. generalize 0 at 2 3. intros h Hk. revert h.
  induction Hk as [|c k Hc Hk IH]; intros h; [done|].
  cbn [app strHash_loop lower map foldl]. rewrite uchar_text by done. apply IH.
Qed.
Lemma hash_of_range k : 0 <= hash_of k.
Proof.
  unfold hash_of. destruct (lower k) as [|c l _] using rev_ind; [done|].
  rewrite foldl_snoc. apply u32_range.
Qed.

Section Buckets.
Context (size : Z) (Hsize : 0 < size).

Definition slot (k : list Z) : nat := Z.to_nat (hash_of k mod size).
Abbreviation bucket_of n := (slot (nkey n)).

(** Bucket [i] of the list: the elements with that hash lie side by side, the
    count is their number and the pointer, unless there are none, leads to the
    first. *)
Definition segment (ns : list node) (i : nat) (b : bucket) : Prop :=
  exists a s c, ns = a ++ s ++ c /\ b_count b = Z.of_nat (length s) /\
    (s <> [] -> b_chain b = hd_id s None) /\
    Forall (fun n => bucket_of n = i) s /\ Forall (fun n => bucket_of n <> i) (a ++ c).

Lemma segment_front n ns i b : segment ns i b -> bucket_of n <> i -> segment (n :: ns) i b.
Proof.
  intros (a & s & c & -> & Hc & Hch & Hs & Ho) Hn. exists (n :: a), s, c.
  split; [done|]. split; [done|]. split; [done|]. split; [done|]. by constructor.
Qed.

(** The head of a list that is cut in two ways stays on one side. *)
Lemma app_split (a s c A B : list node) (m : node) (P : node -> Prop) :
  a ++ s ++ c = A ++ m :: B -> Forall P s -> ~ P m ->
  (exists k, a = A ++ m :: k /\ B = k ++ s ++ c) \/ (exists k, A = a ++ s ++ k /\ c = k ++ m :: B).
Proof.
  intros E Hs Hm. apply app_eq_inv in E as [(k & -> & E)|(k & -> & E)].
  - destruct k as [|m' k]; cbn [app] in E.
    + destruct s as [|x s].
      * right. exists []. cbn in *. by rewrite !app_nil_r.
      * injection E as -> _. by apply Forall_cons in Hs as [? _].
    + injection E as -> ->. left. eauto.
  - apply app_eq_inv in E as [(k' & -> & E)|(k' & -> & ->)].
    + destruct k' as [|m' k']; cbn [app] in E.
      * right. exists []. rewrite app_nil_r. by rewrite app_nil_r.
      * injection E as -> _. apply Forall_app in Hs as [_ Hs]. by apply Forall_cons in Hs as [? _].
    + right. eauto.
Qed.

Lemma segment_insert_other n m A B i b :
  segment (A ++ m :: B) i b -> bucket_of n <> i -> bucket_of m <> i -> segment (A ++ n :: m :: B) i b.
Proof.
  intros (a & s & c & E & Hc & Hch & Hs & Ho) Hn Hm. symmetry in E.
  destruct (app_split a s c A B m _ E Hs Hm) as [(k & -> & ->)|(k & -> & ->)].
  - exists (A ++ n :: m :: k), s, c. rewrite <- app_assoc. split; [done|]. split; [done|]. split; [done|].
    split; [done|]. rewrite !Forall_app, !Forall_cons in *. tauto.
  - exists a, s, (k ++ n :: m :: B). rewrite <- !app_assoc. split; [done|]. split; [done|]. split; [done|].
    split; [done|]. rewrite !Forall_app, !Forall_cons in *. tauto.
Qed.

Lemma segment_remove_other n A B i b :
  segment (A ++ n :: B) i b -> bucket_of n <> i -> segment (A ++ B) i b.
Proof.
  intros (a & s & c & E & Hc & Hch & Hs & Ho) Hn. symmetry in E.
  destruct (app_split a s c A B n _ E Hs Hn) as [(k & -> & ->)|(k & -> & ->)].
  - exists (A ++ k), s, c. rewrite <- app_assoc. split; [done|]. split; [done|]. split; [done|].
    split; [done|]. rewrite !Forall_app, !Forall_cons in *. tauto.
  - exists a, s, (k ++ B). rewrite <- !app_assoc. split; [done|]. split; [done|]. split; [done|].
    split; [done|]. rewrite !Forall_app, !Forall_cons in *. tauto.
Qed.

(** The bucket of a node on the list, cut at the node. *)
Lemma segment_cut n A B b :
  segment (A ++ n :: B) (bucket_of n) b ->
  exists a s1 s2 c, A = a ++ s1 /\ B = s2 ++ c /\ b_count b = Z.of_nat (length s1 + S (length s2)) /\
    b_chain b = hd_id (s1 ++ [n]) None /\ Forall (fun x => bucket_of x = bucket_of n) (s1 ++ s2) /\
    Forall (fun x => bucket_of x <> bucket_of n) (a ++ c).
Proof.
  intros (a & s & c & E & Hc & Hch & Hs & Ho). symmetry in E. apply Forall_app in Ho as [Hoa Hoc].
  apply app_eq_inv in E as [(k & -> & E)|(k & -> & E)].
  - destruct k as [|m' k]; cbn [app] in E.
    + destruct s as [|x s]; cbn [app] in E.
      * destruct c as [|x c]; [done|]. injection E as -> _. by apply Forall_cons in Hoc as [? _].
      * injection E as -> ->. exists A, [], s, c. rewrite app_nil_r in *.
        split; [done|]. split; [done|]. split; [done|]. split; [by apply Hch|].
        apply Forall_cons in Hs as [_ Hs]. split; [done|]. by apply Forall_app.
    + injection E as -> _. apply Forall_app in Hoa as [_ Hoa]. by apply Forall_cons in Hoa as [? _].
  - apply app_eq_inv in E as [(k' & -> & E)|(k' & -> & ->)].
    + destruct k' as [|m' k']; cbn [app] in E.
      * destruct c as [|x c]; [done|]. injection E as -> _. by apply Forall_cons in Hoc as [? _].
      * injection E as -> ->. exists a, k, k', c. split; [done|]. split; [done|].
        split; [rewrite Hc, length_app; done|]. split; [rewrite Hch; by destruct k|].
        rewrite !Forall_app, Forall_cons in *. tauto.
    + apply Forall_app in Hoc as [_ Hoc]. by apply Forall_cons in Hoc as [? _].
Qed.

Lemma segment_remove_same n A B b :
  segment (A ++ n :: B) (bucket_of n) b -> NoDup (ids (A ++ n :: B)) ->
  segment (A ++ B) (bucket_of n)
    {| b_count := b_count b - 1;
       b_chain := if decide (b_chain b = Some (id n)) then hd_id B None else b_chain b |} /\
  0 < b_count b <= Z.of_nat (length (A ++ n :: B)).
Proof.
  intros Hseg Hnd. apply NoDup_mid in Hnd as (Hna & _).
  apply segment_cut in Hseg as (a & s1 & s2 & c & -> & -> & Hc & Hch & Hs & Ho).
  split; [|rewrite Hc, !length_app; cbn [length]; rewrite length_app; lia].
  exists a, (s1 ++ s2), c. split; [by rewrite <- !app_assoc|]. cbn [b_count b_chain].
  split; [rewrite Hc, length_app; lia|]. split; [|by split]. intros Hne.
  destruct s1 as [|x s1]; cbn [app hd_id] in *.
  - rewrite decide_True by done. by destruct s2.
  - rewrite decide_False; [done|]. rewrite Hch. intros [= E]. apply Hna. rewrite ids_app. apply elem_of_app.
    right. rewrite <- E. by left.
Qed.

End Buckets.

(** ** The structure as a whole *)

Definition buckets_ok (p : Hash) (ns : list node) : Prop :=
  match ht p with
  | None => htsize p = 0
  | Some bs => 0 < htsize p < 2 ^ 32 /\ length bs = Z.to_nat (htsize p) /\
               forall i b, bs !! i = Some b -> segment (htsize p) ns i b
  end.

(** [ns] are the elements, in the order of the list. *)
Record Links (p : Hash) (ns : list node) : Prop := {
  l_chain : chain (heap p) None ns None;
  l_first : first p = hd_id ns None;
  l_nodup : NoDup (ids ns);
  l_buckets : buckets_ok p ns;
}.

(** The bucket insertElement is called with. *)
Definition entry_of (p : Hash) (k : list Z) : option nat :=
  match ht p with Some _ => Some (slot (htsize p) k) | None => None end.

Lemma slot_range size k : 0 < size -> (slot size k < Z.to_nat size)%nat.
Proof. intros Hs. unfold slot. pose proof (Z.mod_pos_bound (hash_of k) size). lia. Qed.

(** The buckets after an insertion between [A] and [B]: in front of the bucket's
    elements [s], or at the front of the list when there are none. *)
Lemma insert_buckets sz (bs : list bucket) b n A B a s c :
  (forall i bk, bs !! i = Some bk -> segment sz (A ++ B) i bk) ->
  let i := slot sz (nkey n) in
  bs !! i = Some b -> A ++ B = a ++ s ++ c -> b_count b = Z.of_nat (length s) ->
  Forall (fun n => slot sz (nkey n) = i) s -> Forall (fun n => slot sz (nkey n) <> i) (a ++ c) ->
  (A = a /\ B = s ++ c /\ s <> []) \/ (A = [] /\ s = []) ->
  forall j bk, <[i := {| b_count := b_count b + 1; b_chain := Some (id n) |}]> bs !! j = Some bk ->
  segment sz (A ++ n :: B) j bk.
Proof.
  intros Hseg i Eb E Hc Hs Ho Hcut j bk Ej. destruct (decide (j = i)) as [->|Hji].
  - rewrite list_lookup_insert_eq in Ej by (by eapply lookup_lt_Some). injection Ej as <-.
    destruct Hcut as [(-> & -> & _)|[-> ->]].
    + exists a, (n :: s), c. cbn [b_count b_chain length]. split; [done|]. split; [lia|]. split; [done|].
      split; [by constructor|done].
    + exists [], [n], B. cbn [b_count b_chain length app] in *. split; [done|]. split; [lia|].
      split; [done|]. split; [by repeat constructor|]. by rewrite E.
  - rewrite list_lookup_insert_ne in Ej by done. specialize (Hseg j bk Ej).
    destruct Hcut as [(-> & -> & Hne)|[-> _]].
    + destruct s as [|m s]; [done|]. apply segment_insert_other; [done|by intros <-|].
      apply Forall_cons in Hs as [-> _]. done.
    + cbn [app] in *. apply segment_front; [done|]. by intros <-.
Qed.

Lemma insert_links p ns n :
  Links p ns -> holds (heap p) n -> id n ∉ ids ns -> Z.of_nat (length ns) < 2 ^ 32 - 1 ->
  exists p' a b,
    insertElement p (entry_of p (nkey n)) (id n) = Ret p' /\ ns = a ++ b /\ Links p' (a ++ n :: b) /\
    linked (heap p) (heap p') n a b /\
    htsize p' = htsize p /\ count p' = count p /\ (ht p' = None <-> ht p = None).
Proof.
  intros [Hch Hfst Hnd Hb] Hn Hni Hlen.
  assert (Hnd' : NoDup (ids (n :: ns))) by (by constructor).
  unfold insertElement, entry_of, buckets_ok in *. rewrite Hfst.
  destruct (ht p) as [bs|] eqn:Eht.
  2: { cbn [mbind outcome_bind].
       destruct (link_front _ _ _ Hch Hn Hnd') as (h' & E & Hl). rewrite E. cbn [mbind outcome_bind].
       eexists _, [], ns. split; [done|]. split; [done|].
       split; [|split; [exact Hl|]; split; [done|]; split; [done|]; by split]. split; [apply Hl|done|done|]. unfold buckets_ok. done. }
  destruct Hb as (Hsz & Hbs & Hseg). set (i := slot (htsize p) (nkey n)).
  destruct (lookup_lt_is_Some_2 bs i) as [b Eb]; [rewrite Hbs; apply slot_range; lia|].
  rewrite Eb. cbn [mbind outcome_bind].
  pose proof (Hseg i b Eb) as (a & s & c & Ens & Hc & Hchain & Hs & Ho).
  assert (Hcl : Z.of_nat (length s) <= Z.of_nat (length ns)) by (rewrite Ens, !length_app; lia).
  rewrite u32_id by lia.
  assert (Hins : forall A B h', ns = A ++ B -> linked (heap p) h' n A B ->
     (A = a /\ B = s ++ c /\ s <> []) \/ (A = [] /\ s = []) ->
     Links {| htsize := htsize p; count := count p; first := hd_id (A ++ n :: B) None;
              ht := Some (<[i := {| b_count := b_count b + 1; b_chain := Some (id n) |}]> bs); heap := h' |}
           (A ++ n :: B)).
  { intros A B h' E Hl Hcut. split; [apply Hl|done| |].
    - apply (NoDup_Permutation_proper _ (ids (n :: ns))); [|done].
      unfold ids. rewrite E. by rewrite Permutation_middle.
    - split; [done|]. split; [by rewrite length_insert|]. rewrite E in Hseg, Ens.
      by apply (insert_buckets (htsize p) bs b n A B a s c). }
  destruct s as [|m s].
  - rewrite (proj2 (Z.eqb_eq (b_count b) 0)) by (cbn in Hc; lia).
    destruct (link_front _ _ _ Hch Hn Hnd') as (h' & E & Hl). rewrite E. cbn [mbind outcome_bind].
    eexists _, [], ns. split; [done|]. split; [done|].
    split; [|split; [exact Hl|]; split; [done|]; split; [done|]; by split]. apply (Hins [] ns h'); auto.
  - rewrite (proj2 (Z.eqb_neq (b_count b) 0)) by (cbn in Hc; lia). rewrite Hchain by done. cbn [hd_id].
    destruct (link_before (heap p) n a m (s ++ c) (hd_id ns None)) as (h' & E & Hl);
      [by rewrite Ens in Hch|done| |by rewrite Ens|].
    { apply (NoDup_Permutation_proper _ (ids (n :: ns))); [|done].
      unfold ids. rewrite Ens. by rewrite <- Permutation_middle. }
    rewrite E. cbn [mbind outcome_bind]. eexists _, a, (m :: s ++ c). split; [done|]. split; [done|].
    split; [|split; [exact Hl|]; split; [done|]; split; [done|]; by split]. apply Hins; auto.
Qed.

(** Everything that holds between two calls.  The cells of the list are all the
    cells there are: nothing leaks and nothing is freed that is still linked. *)
Record Inv (p : Hash) (ns : list node) : Prop := {
  i_links : Links p ns;
  i_keys : Forall (fun n => text (nkey n)) ns;
  i_distinct : NoDup (map (fun n => lower (nkey n)) ns);
  i_data : Forall (fun n => ndata n <> 0) ns;
  i_cells : dom (heap p) = list_to_set (ids ns);
  i_count : count p = Z.of_nat (length ns);
  i_bound : Z.of_nat (length ns) < 2 ^ 31;
}.

(** ** Search *)

Fixpoint find_key (lk : list Z) (ns : list node) : option node :=
  match ns with
  | [] => None
  | n :: ns => if decide (lower (nkey n) = lk) then Some n else find_key lk ns
  end.

Lemma find_key_app lk a b :
  find_key lk (a ++ b) = match find_key lk a with Some n => Some n | None => find_key lk b end.
Proof. induction a as [|n a IH]; [done|]. cbn. by case_decide. Qed.
Lemma find_key_none lk ns : Forall (fun n => lower (nkey n) <> lk) ns -> find_key lk ns = None.
Proof. induction 1 as [|n ns Hn Hns IH]; [done|]. cbn. by rewrite decide_False. Qed.
Lemma find_key_none_inv lk ns m : find_key lk ns = None -> m ∈ ns -> lower (nkey m) <> lk.
Proof.
  induction ns as [|n ns IH]; intros E Hm; [by inversion Hm|]. cbn [find_key] in E. case_decide; [done|].
  apply elem_of_cons in Hm as [->|Hm]; [done|by apply IH].
Qed.
Lemma find_key_split lk ns n :
  find_key lk ns = Some n -> exists a b, ns = a ++ n :: b /\ lower (nkey n) = lk.
Proof.
  induction ns as [|m ns IH]; [done|]. cbn. case_decide as Hm.
  - intros [= <-]. by exists [], ns.
  - intros E. destruct (IH E) as (a & b & -> & Hn). by exists (m :: a), b.
Qed.

Lemma slot_lower size k k' : lower k = lower k' -> slot size k = slot size k'.
Proof. unfold slot, hash_of. by intros ->. Qed.

Section Search.
Context `{Build}.

Lemma find_loop_spec h src a b dst k :
  chain h src (a ++ b) dst -> Forall (fun n => text (nkey n)) a -> text k ->
  find_loop h (length a) (hd_id (a ++ b) dst) (k ++ [0]) = Ret (id <$> find_key (lower k) a).
Proof.
  intros Hc Ha Hk. revert src Hc. induction Ha as [|n a Hn Ha IH]; intros src Hc; [done|].
  destruct Hc as [Hcell Hc]. cbn [app length find_loop hd_id].
  rewrite assert_true by (by apply bool_decide_eq_true). cbn [mbind outcome_bind].
  unfold deref. rewrite Hcell. cbn [mbind outcome_bind pKey cell next].
  rewrite stricmp_compare by done. cbn [mbind outcome_bind find_key].
  pose proof (compare_eq (lower (nkey n)) (lower k) (lower_nonzero _ Hn) (lower_nonzero _ Hk)) as Heq.
  destruct (Z.eqb_spec (compare (lower (nkey n)) (lower k)) 0) as [E|E].
  - by rewrite decide_True by (by apply Heq).
  - rewrite decide_False by (by rewrite <- Heq). by eapply IH.
Qed.

(** The bucket of a key holds the element with that key, if there is one. *)
Lemma find_key_segment size a s c k :
  Forall (fun n => slot size (nkey n) <> slot size k) (a ++ c) ->
  find_key (lower k) (a ++ s ++ c) = find_key (lower k) s.
Proof.
  intros Ho. apply Forall_app in Ho as [Ha Hc].
  assert (Hnone : forall l, Forall (fun n => slot size (nkey n) <> slot size k) l -> find_key (lower k) l = None).
  { intros l Hl. apply find_key_none. eapply Forall_impl; [exact Hl|]. intros n Hn E. by apply Hn, slot_lower. }
  rewrite !find_key_app, (Hnone a Ha), (Hnone c Hc). by destruct (find_key (lower k) s).
Qed.

(** The element found and the bucket number. *)
Lemma find_element_spec p ns k :
  Inv p ns -> text k ->
  exists h, findElementWithHash p (k ++ [0]) = Ret (id <$> find_key (lower k) ns, h) /\
    entry_of p k = match ht p with Some _ => Some (Z.to_nat h) | None => None end.
Proof.
  intros [[Hch Hfst Hnd Hb] Hkeys _ _ _ Hcount _] Hk. unfold findElementWithHash, entry_of, buckets_ok in *.
  destruct (ht p) as [bs|] eqn:Eht.
  - destruct Hb as (Hsz & Hbs & Hseg). rewrite strHash_lower by done. cbn [mbind outcome_bind].
    destruct (Z.eqb_spec (htsize p) 0); [lia|]. change (Z.to_nat (hash_of k mod htsize p)) with (slot (htsize p) k).
    destruct (lookup_lt_is_Some_2 bs (slot (htsize p) k)) as [b Eb]; [rewrite Hbs; apply slot_range; lia|].
    rewrite Eb. cbn [mbind outcome_bind].
    destruct (Hseg _ _ Eb) as (a & s & c & -> & Hc & Hchain & Hs & Ho).
    rewrite (find_key_segment (htsize p)) by done. exists (hash_of k mod htsize p). split; [|done].
    rewrite Hc, Nat2Z.id. destruct s as [|m s]; [done|]. rewrite Hchain by done.
    apply chain_app in Hch as [_ Hch]. rewrite !Forall_app in Hkeys.
    change (hd_id (m :: s) None) with (hd_id ((m :: s) ++ c) None).
    by rewrite (find_loop_spec _ _ (m :: s) c None k Hch) by tauto.
  - cbn [mbind outcome_bind]. exists 0. split; [|done]. rewrite Hcount, Nat2Z.id, Hfst.
    pose proof (find_loop_spec (heap p) None ns [] None k) as Hf. rewrite app_nil_r in Hf. by rewrite Hf.
Qed.

(** ** Release *)

Lemma free_all_spec fuel h src ns :
  chain h src ns None -> NoDup (ids ns) -> (length ns <= fuel)%nat ->
  exists h', free_all fuel (hd_id ns None) h = Ret h' /\
    forall x, h' !! x = if decide (x ∈ ids ns) then None else h !! x.
Proof.
  revert fuel h src. induction ns as [|n ns IH]; intros fuel h src Hc Hnd Hf.
  - exists h. split; [by destruct fuel|]. intros x. rewrite decide_False; [done|]. apply not_elem_of_nil.
  - destruct fuel as [|fuel]; [cbn in Hf; lia|]. destruct Hc as [Hn Hc]. apply NoDup_cons in Hnd as [Hni Hnd].
    cbn [free_all hd_id]. unfold deref. rewrite Hn. cbn [mbind outcome_bind next cell].
    destruct (IH fuel (delete (id n) h) (Some (id n))) as (h' & E & Hh'); [|done|cbn in Hf; lia|].
    { apply (chain_frame h); [done|]. intros x Hx. apply lookup_delete_ne. by intros <-. }
    exists h'. split; [done|]. intros x. rewrite Hh'. cbn [ids map].
    destruct (decide (x = id n)) as [->|Hx].
    + rewrite decide_False by done. rewrite decide_True by (by left). apply lookup_delete_eq.
    + rewrite lookup_delete_ne by done. destruct (decide (x ∈ ids ns)) as [Hi|Hi].
      * rewrite decide_True; [done|by right].
      * rewrite decide_False; [done|]. by apply not_elem_of_cons.
Qed.

Lemma cells_size (h : gmap nat HashElem) ns :
  NoDup (ids ns) -> dom h = list_to_set (ids ns) -> size h = length ns.
Proof.
  intros Hnd Hd. rewrite <- size_dom, Hd, size_list_to_set by done. apply length_map.
Qed.

Definition empty_table : Hash := {| htsize := 0; count := 0; first := None; ht := None; heap := ∅ |}.

Lemma empty_inv : Inv empty_table [].
Proof. split; [split| | | | | |]; cbn; try done; constructor. Qed.

(** Clearing frees every cell. *)
Lemma clear_spec p ns :
  chain (heap p) None ns None -> first p = hd_id ns None -> NoDup (ids ns) ->
  dom (heap p) = list_to_set (ids ns) -> sqlite3HashClear p = Ret empty_table.
Proof.
  intros Hch Hfst Hnd Hd. unfold sqlite3HashClear. rewrite Hfst.
  destruct (free_all_spec (size (heap p)) (heap p) None ns Hch Hnd) as (h' & E & Hh');
    [by rewrite (cells_size _ ns)|].
  rewrite E. cbn [mbind outcome_bind]. unfold empty_table. repeat f_equal. apply map_empty. intros x.
  rewrite Hh'. case_decide as Hx; [done|]. apply not_elem_of_dom. rewrite Hd. by rewrite elem_of_list_to_set.
Qed.

End Search.

(** ** Removal *)

(** The neighbours are linked past the element. *)
Lemma unlink h n a b :
  chain h None (a ++ n :: b) None -> NoDup (ids (a ++ n :: b)) ->
  exists c1 c2,
    match last_id None a with
    | Some y => cells ← set_next y (hd_id b None) h; Ret (hd_id (a ++ n :: b) None, cells)
    | None => Ret (hd_id b None, h)
    end = Ret (hd_id (a ++ b) None, c1) /\
    match hd_id b None with Some y => set_prev y (last_id None a) c1 | None => Ret c1 end = Ret c2 /\
    chain (delete (id n) c2) None (a ++ b) None /\ dom c2 = dom h.
Proof.
  intros Hc Hnd. apply chain_app in Hc as [Ha [Hn Hb]]. cbn [hd_id] in Ha.
  pose proof (NoDup_mid a n b Hnd) as (Hna & Hnb & Hnd' & Hdisj).
  destruct (relink_last h a _ (hd_id b None) (hd_id (a ++ n :: b) None) (hd_id b None) Ha)
    as (c1 & E1 & Ha1 & Hd1 & Hf1); [rewrite ids_app in Hnd'; by apply NoDup_app in Hnd' as [? _]|].
  exists c1.
  assert (Hb1 : chain c1 (Some (id n)) b None).
  { apply (chain_frame h); [done|]. intros x Hx. apply Hf1. intros Hx'. by apply (Hdisj x). }
  assert (H2 : exists c2,
    match hd_id b None with Some y => set_prev y (last_id None a) c1 | None => Ret c1 end = Ret c2 /\
    chain c2 (last_id None a) b None /\ dom c2 = dom c1 /\ (forall x, x ∉ ids b -> c2 !! x = c1 !! x)).
  { destruct b as [|z b]; [by exists c1|]. cbn [hd_id]. pose proof Hb1 as [Hz _].
    rewrite (set_prev_cell c1 _ _ _ Hz). cbn [next prev data pKey cell].
    change {| next := hd_id b None; prev := last_id None a; data := ndata z; pKey := nkey z ++ [0] |}
      with (cell z (last_id None a) (hd_id b None)).
    eexists. split; [done|]. split; [|split].
    - eapply chain_set_first; [done|]. by apply NoDup_mid in Hnd' as (_ & ? & _).
    - by eapply dom_insert_in.
    - intros x Hx. apply lookup_insert_ne. intros <-. apply Hx. by left. }
  destruct H2 as (c2 & E2 & Hb2 & Hd2 & Hf2). exists c2.
  split; [rewrite E1; by destruct a|]. split; [done|]. split; [|congruence].
  apply chain_app. split.
  - apply (chain_frame c1); [done|]. intros x Hx. rewrite lookup_delete_ne by (by intros <-).
    apply Hf2. by apply Hdisj.
  - apply (chain_frame c2); [done|]. intros x Hx. apply lookup_delete_ne. by intros <-.
Qed.

Section Removal.
Context `{Build}.

(** The bucket of the element, one shorter. *)
Lemma remove_buckets p a n b h :
  buckets_ok p (a ++ n :: b) -> NoDup (ids (a ++ n :: b)) -> Z.of_nat (length (a ++ n :: b)) < 2 ^ 31 ->
  entry_of p (nkey n) = match ht p with Some _ => Some (Z.to_nat h) | None => None end ->
  exists ht',
    match ht p with
    | Some bs =>
        match bs !! Z.to_nat h with
        | Some b0 =>
            _ ← assert_ (0 <? b_count b0);
            Ret (Some (<[Z.to_nat h := {| b_count := u32 (b_count b0 - 1);
              b_chain := if decide (b_chain b0 = Some (id n)) then hd_id b None else b_chain b0 |}]> bs))
        | None => Undefined
        end
    | None => Ret None
    end = Ret ht' /\
    forall c f cells,
      buckets_ok {| htsize := htsize p; count := c; first := f; ht := ht'; heap := cells |} (a ++ b).
Proof.
  unfold buckets_ok, entry_of. cbn [ht htsize]. intros Hb Hnd Hbound Hh. destruct (ht p) as [bs|]; [|by exists None].
  injection Hh as Hh. destruct Hb as (Hsz & Hbs & Hseg). rewrite <- Hh.
  destruct (lookup_lt_is_Some_2 bs (slot (htsize p) (nkey n))) as [bk Eb]; [rewrite Hbs; apply slot_range; lia|].
  rewrite Eb. destruct (segment_remove_same (htsize p) n a b bk (Hseg _ _ Eb) Hnd) as [Hsn' Hcnt].
  rewrite assert_true by (apply Z.ltb_lt; lia). cbn [mbind outcome_bind].
  eexists. split; [done|]. intros _ _ _. split; [done|]. split; [by rewrite length_insert|].
  intros j bj Ej. destruct (decide (j = slot (htsize p) (nkey n))) as [->|Hj].
  - rewrite list_lookup_insert_eq in Ej by (by eapply lookup_lt_Some). injection Ej as <-. by rewrite u32_id by lia.
  - rewrite list_lookup_insert_ne in Ej by done. eapply segment_remove_other; [by apply Hseg|]. done.
Qed.

Lemma remove_spec p a n b h :
  Inv p (a ++ n :: b) ->
  entry_of p (nkey n) = match ht p with Some _ => Some (Z.to_nat h) | None => None end ->
  exists p', removeElementGivenHash p (id n) h = Ret p' /\ Inv p' (a ++ b).
Proof.
  intros [[Hch Hfst Hnd Hb] Hkeys Hdist Hdata Hcells Hcount Hbound] Hh. unfold removeElementGivenHash.
  assert (Hn : heap p !! id n = Some (cell n (last_id None a) (hd_id b None)))
    by (apply chain_app in Hch as [_ [Hn _]]; done).
  unfold deref. rewrite Hn, Hfst. cbn [mbind outcome_bind prev next cell].
  destruct (unlink (heap p) n a b Hch Hnd) as (c1 & c2 & E1 & E2 & Hch' & Hdom). rewrite E1.
  cbn [mbind outcome_bind]. rewrite E2. cbn [mbind outcome_bind]. clear E1 E2 c1.
  destruct (remove_buckets p a n b h Hb Hnd Hbound Hh) as (ht' & Eht & Hb').
  rewrite length_app in Hcount, Hbound. cbn [length] in Hcount, Hbound.
  pose proof (NoDup_mid a n b Hnd) as (Hna & Hnb & Hnd' & _).
  assert (Hcells' : dom (delete (id n) c2) = list_to_set (ids (a ++ b))).
  { rewrite dom_delete_L, Hdom, Hcells. rewrite !ids_app. cbn [ids map].
    rewrite !list_to_set_app_L, list_to_set_cons.
    apply set_eq. intros x. rewrite elem_of_difference, !elem_of_union, !elem_of_singleton, !elem_of_list_to_set.
    split; [tauto|]. intros [Hx|Hx]; (split; [tauto|intros ->; done]). }
  rewrite Eht. cbn [mbind outcome_bind count first].
  rewrite u32_id in * by lia.
  assert (Hinv : Inv {| htsize := htsize p; count := count p - 1; first := hd_id (a ++ b) None; ht := ht';
                        heap := delete (id n) c2 |} (a ++ b)).
  { split; [split; [done|done|done|apply Hb']| | | |done| |].
    - rewrite !Forall_app, Forall_cons in *. tauto.
    - rewrite !map_app in *. cbn [map] in Hdist. rewrite !NoDup_app, NoDup_cons in *.
      destruct Hdist as (? & Hd & ? & ?). repeat split; try done. intros x Hx Hy. apply (Hd x Hx). by right.
    - rewrite !Forall_app, Forall_cons in *. tauto.
    - cbn [count]. rewrite length_app. lia.
    - rewrite length_app. lia. }
  destruct (Z.eqb_spec (count p - 1) 0) as [E0|E0].
  - assert (a ++ b = []) as Eab by (apply length_zero_iff_nil; rewrite length_app; lia).
    rewrite Eab in *. rewrite assert_true by done. cbn [mbind outcome_bind].
    destruct Hinv as [[Hc0 Hf0 Hn0 _] _ _ _ Hd0 _ _].
    rewrite (clear_spec _ [] Hc0 Hf0 Hn0 Hd0). exists empty_table. split; [done|apply empty_inv].
  - eexists. split; [done|done].
Qed.

End Removal.

(** ** Rehashing *)

(** The nodes that are still to be moved: only their forward links matter. *)
Fixpoint nexts (h : gmap nat HashElem) (elem : option nat) (ns : list node) : Prop :=
  match ns with
  | [] => elem = None
  | n :: ns => elem = Some (id n) /\ exists p nx, h !! id n = Some (cell n p nx) /\ nexts h nx ns
  end.

Lemma chain_nexts h src ns : chain h src ns None -> nexts h (hd_id ns None) ns.
Proof.
  revert src. induction ns as [|n ns IH]; intros src Hc; [done|]. destruct Hc as [Hn Hc].
  split; [done|]. eexists _, _. split; [exact Hn|]. by eapply IH.
Qed.
Lemma nexts_frame h h' elem ns :
  nexts h elem ns -> (forall x, x ∈ ids ns -> h' !! x = h !! x) -> nexts h' elem ns.
Proof.
  revert elem. induction ns as [|n ns IH]; intros elem Hn Hf; [done|].
  destruct Hn as [-> (p & nx & Hn & Hns)]. split; [done|]. exists p, nx.
  split; [rewrite Hf; [done|by left]|]. apply IH; [done|]. intros x Hx. apply Hf. by right.
Qed.

Lemma rehash_loop_spec fuel sz elem p done_ todo :
  Links p done_ -> nexts (heap p) elem todo -> NoDup (ids (done_ ++ todo)) ->
  Forall (fun n => text (nkey n)) todo -> htsize p = sz -> ht p <> None -> 0 < sz ->
  (length todo <= fuel)%nat -> Z.of_nat (length (done_ ++ todo)) < 2 ^ 32 ->
  exists p' ns', rehash_loop fuel sz elem p = Ret p' /\ Links p' ns' /\ ns' ≡ₚ done_ ++ todo /\
    count p' = count p /\ htsize p' = sz /\ ht p' <> None /\ dom (heap p') = dom (heap p) /\
    forall x, x ∉ ids (done_ ++ todo) -> heap p' !! x = heap p !! x.
Proof.
  intros Hl Hn Hnd Ht Hsz Hht Hpos. revert fuel elem p done_ Hl Hn Hnd Hsz Hht.
  induction Ht as [|n todo Hk Ht IH]; intros fuel elem p done_ Hl Hn Hnd Hsz Hht Hf Hb.
  - cbn in Hn. subst elem. exists p, done_. rewrite app_nil_r. split; [by destruct fuel|].
    split; [exact Hl|]. by repeat split.
  - destruct Hn as [-> (pv & nx & Hc & Hns)]. destruct fuel as [|fuel]; [cbn in Hf; lia|]. cbn [rehash_loop].
    unfold deref. rewrite Hc. cbn [mbind outcome_bind pKey cell next].
    rewrite strHash_lower by done. cbn [mbind outcome_bind]. destruct (Z.eqb_spec sz 0); [lia|].
    pose proof (NoDup_mid done_ n todo Hnd) as (Hnd1 & Hnd2 & Hnd3 & Hdisj).
    rewrite length_app in Hb. cbn [length] in Hb.
    destruct (insert_links p done_ n Hl) as (p' & a & b & E & Eab & Hl' & (_ & Hdom & Hfr) & Hsz' & Hcnt & Hht');
      [by exists pv, nx|done|lia|].
    unfold entry_of in E. destruct (ht p) as [bs|] eqn:Eht; [|done].
    change (Z.to_nat (hash_of (nkey n) mod sz)) with (slot sz (nkey n)). rewrite <- Hsz, E.
    cbn [mbind outcome_bind]. rewrite Hsz.
    assert (Hperm : (a ++ n :: b) ++ todo ≡ₚ done_ ++ n :: todo).
    { rewrite <- app_assoc. cbn [app]. rewrite Eab, <- !app_assoc, <- !Permutation_middle, app_assoc. done. }
    assert (Hids : forall x, (x ∉ ids (a ++ n :: b)) <-> (x ∉ ids done_) /\ x <> id n).
    { intros x. rewrite Eab, !ids_app. cbn [ids map]. rewrite !not_elem_of_app, not_elem_of_cons. tauto. }
    destruct (IH fuel nx p' (a ++ n :: b)) as (p2 & ns2 & E2 & Hl2 & Hp2 & Hc2 & Hs2 & Hh2 & Hd2 & Hf2).
    + done.
    + apply (nexts_frame (heap p)); [done|]. intros x Hx. apply Hfr, Hids. split; [|by intros ->].
      intros Hx'. by apply (Hdisj x).
    + apply (NoDup_Permutation_proper _ (ids (done_ ++ n :: todo))); [|done]. by apply fmap_Permutation.
    + congruence.
    + by rewrite Hht'.
    + cbn in Hf. lia.
    + rewrite Hperm, length_app. cbn [length]. lia.
    + exists p2, ns2. split; [done|]. split; [done|]. split; [by rewrite Hp2|]. split; [congruence|].
      split; [done|]. split; [done|]. split; [congruence|]. intros x Hx.
      assert (Hx' : x ∉ ids ((a ++ n :: b) ++ todo)).
      { intros Hi. apply Hx. revert Hi. apply elem_of_Permutation_proper. by apply fmap_Permutation. }
      rewrite Hf2 by done. apply Hfr. intros Hi. apply Hx'. rewrite ids_app. apply elem_of_app. by left.
Qed.

(** Blocks from malloc are as large as asked for. *)
Definition malloc_ok (malloc : Z -> option Z) : Prop :=
  forall n b, malloc n = Some b -> n <= b < 2 ^ 36.

Lemma rehash_spec malloc p ns new_size :
  malloc_ok malloc -> Links p ns -> Forall (fun n => text (nkey n)) ns ->
  (length ns <= size (heap p))%nat -> Z.of_nat (length ns) < 2 ^ 31 -> 0 < new_size ->
  exists r p' ns', rehash malloc p new_size = Ret (r, p') /\ Links p' ns' /\ ns' ≡ₚ ns /\
    count p' = count p /\ dom (heap p') = dom (heap p) /\
    (forall x, x ∉ ids ns -> heap p' !! x = heap p !! x) /\
    (r = true -> ht p' <> None /\ 0 < htsize p') /\ (r = false -> p' = p).
Proof.
  intros Hm Hl Hk Hsize Hbound Hnew. unfold rehash, SQLITE_MALLOC_SOFT_LIMIT, sizeof_ht.
  set (req := if 1024 <? new_size * 16 then 1024 / 16 else new_size).
  assert (Hreq : 0 < req) by (unfold req; destruct (1024 <? new_size * 16); [done|done]).
  assert (Hsame : exists r p' ns', Ret (false, p) = Ret (r, p') /\ Links p' ns' /\ ns' ≡ₚ ns /\
    count p' = count p /\ dom (heap p') = dom (heap p) /\
    (forall x, x ∉ ids ns -> heap p' !! x = heap p !! x) /\
    (r = true -> ht p' <> None /\ 0 < htsize p') /\ (r = false -> p' = p)) by (by exists false, p, ns).
  destruct (req =? htsize p); [done|]. destruct (malloc (req * 16)) as [bytes|] eqn:Em; [|done]. clear Hsame.
  apply Hm in Em. assert (Hq : req <= bytes / 16 < 2 ^ 32).
  { split; [apply Z.div_le_lower_bound; lia|apply Z.div_lt_upper_bound; lia]. }
  rewrite u32_id by lia. set (sz := bytes / 16) in *.
  set (p0 := {| htsize := sz; count := count p; first := None;
                ht := Some (replicate (Z.to_nat sz) {| b_count := 0; b_chain := None |}); heap := heap p |}).
  assert (Hl0 : Links p0 []).
  { split; [done|done|constructor|]. unfold buckets_ok. cbn [ht htsize p0]. split; [lia|].
    split; [apply length_replicate|]. intros i b Hb. apply lookup_replicate in Hb as [-> _].
    exists [], [], []. by repeat split. }
  destruct Hl as [Hch Hfst Hnd _].
  destruct (rehash_loop_spec (size (heap p)) sz (first p) p0 [] ns Hl0)
    as (p' & ns' & E & Hl' & Hp & Hc & Hs & Hh & Hd & Hf); cbn [app];
    [rewrite Hfst; by eapply chain_nexts|done|done|done|done|lia|done|lia|].
  rewrite E. cbn [mbind outcome_bind]. exists true, p', ns'.
  split; [done|]. split; [done|]. split; [done|]. split; [done|]. split; [done|]. split; [done|].
  split; [|done]. intros _. split; [done|]. lia.
Qed.

(** ** Replacing data *)

Lemma segment_replace size n n' A B i b :
  slot size (nkey n') = slot size (nkey n) -> id n' = id n ->
  segment size (A ++ n :: B) i b -> segment size (A ++ n' :: B) i b.
Proof.
  intros Hs Hid Hseg. destruct (decide (slot size (nkey n) = i)) as [<-|Hi].
  - apply segment_cut in Hseg as (a & s1 & s2 & c & -> & -> & Hc & Hch & Hss & Ho).
    exists a, (s1 ++ n' :: s2), c. split; [by rewrite <- !app_assoc|].
    split; [rewrite Hc, length_app; done|]. split.
    + intros _. rewrite Hch. destruct s1; cbn; [by rewrite Hid|done].
    + split; [|done]. rewrite !Forall_app, Forall_cons in *. tauto.
  - destruct Hseg as (a & s & c & E & Hc & Hch & Hss & Ho). symmetry in E.
    destruct (app_split a s c A B n _ E Hss Hi) as [(k & -> & ->)|(k & -> & ->)].
    + exists (A ++ n' :: k), s, c. rewrite <- app_assoc. split; [done|]. split; [done|]. split; [done|].
      split; [done|]. rewrite !Forall_app, !Forall_cons, Hs in *. tauto.
    + exists a, s, (k ++ n' :: B). rewrite <- !app_assoc. split; [done|]. split; [done|]. split; [done|].
      split; [done|]. rewrite !Forall_app, !Forall_cons, Hs in *. tauto.
Qed.

Lemma hd_id_replace n n' a b dst : id n' = id n -> hd_id (a ++ n' :: b) dst = hd_id (a ++ n :: b) dst.
Proof. intros E. destruct a; cbn; [by rewrite E|done]. Qed.
Lemma ids_replace n n' a b : id n' = id n -> ids (a ++ n' :: b) = ids (a ++ n :: b).
Proof. intros E. rewrite !ids_app. cbn [ids map]. by rewrite E. Qed.

(** New data and a new spelling of the key for an element. *)
Lemma data_replace_spec p a n b k d :
  Inv p (a ++ n :: b) -> text k -> lower k = lower (nkey n) -> d <> 0 ->
  exists cells, set_entry (id n) d (k ++ [0]) (heap p) = Ret cells /\
    Inv {| htsize := htsize p; count := count p; first := first p; ht := ht p; heap := cells |}
        (a ++ {| id := id n; nkey := k; ndata := d |} :: b).
Proof.
  intros [[Hch Hfst Hnd Hb] Hkeys Hdist Hdata Hcells Hcount Hbound] Hk Hlow Hd.
  set (n' := {| id := id n; nkey := k; ndata := d |}). assert (Hid : id n' = id n) by done.
  pose proof (NoDup_mid a n b Hnd) as (Hna & Hnb & _).
  apply chain_app in Hch as [Ha [Hn Hbc]]. unfold set_entry, deref. rewrite Hn. cbn [mbind outcome_bind next prev cell].
  change {| next := hd_id b None; prev := last_id None a; data := d; pKey := k ++ [0] |}
    with (cell n' (last_id None a) (hd_id b None)).
  eexists. split; [done|]. split; [split| | | | | |]; cbn [heap first count].
  - apply chain_app. split; [|split].
    + cbn [hd_id] in *. rewrite Hid. apply (chain_frame (heap p)); [done|]. intros x Hx.
      apply lookup_insert_ne. by intros <-.
    + rewrite Hid. apply lookup_insert_eq.
    + rewrite Hid. apply (chain_frame (heap p)); [done|]. intros x Hx. apply lookup_insert_ne. by intros <-.
  - rewrite Hfst. symmetry. by apply hd_id_replace.
  - by rewrite (ids_replace n n').
  - unfold buckets_ok in *. cbn [ht htsize]. destruct (ht p) as [bs|]; [|done].
    destruct Hb as (Hsz & Hbs & Hseg). split; [done|]. split; [done|]. intros i bk Ei.
    apply (segment_replace (htsize p) n n'); [by apply slot_lower|done|by apply Hseg].
  - rewrite !Forall_app, !Forall_cons in *. tauto.
  - rewrite !map_app in *. cbn [map nkey n'] in *. by rewrite Hlow.
  - rewrite !Forall_app, !Forall_cons in *. tauto.
  - rewrite (ids_replace n n') by done. rewrite <- Hcells. by eapply dom_insert_in.
  - rewrite Hcount, !length_app. done.
  - rewrite length_app in *. done.
Qed.

(** ** Specification: a finite map from lower-case keys to data *)

Definition contents (ns : list node) : gmap (list Z) Z :=
  list_to_map (map (fun n => (lower (nkey n), ndata n)) ns).

(** What an insertion answers and leaves; [ok] tells whether there was memory for
    a new element. *)
Definition map_insert (ok : bool) (lk : list Z) (d : Z) (m : gmap (list Z) Z) : Z * gmap (list Z) Z :=
  match m !! lk with
  | Some old => (old, if d =? 0 then delete lk m else <[lk := d]> m)
  | None => if d =? 0 then (0, m) else if ok then (0, <[lk := d]> m) else (d, m)
  end.

Lemma keys_fst ns : (map (fun n => (lower (nkey n), ndata n)) ns).*1 = map (fun n => lower (nkey n)) ns.
Proof. induction ns as [|n ns IH]; [done|]. cbn. by rewrite <- IH. Qed.

Lemma contents_find ns lk : contents ns !! lk = ndata <$> find_key lk ns.
Proof.
  unfold contents. induction ns as [|n ns IH]; [apply lookup_empty|]. cbn [map list_to_map foldr find_key].
  case_decide as E; [by rewrite E, lookup_insert_eq|]. by rewrite lookup_insert_ne.
Qed.

Lemma contents_perm ns ns' :
  NoDup (map (fun n => lower (nkey n)) ns) -> ns ≡ₚ ns' -> contents ns = contents ns'.
Proof.
  intros Hnd Hp. apply list_to_map_proper; [by rewrite keys_fst|]. by apply fmap_Permutation.
Qed.

Lemma contents_cons n ns : contents (n :: ns) = <[lower (nkey n) := ndata n]> (contents ns).
Proof. reflexivity. Qed.

(** An element in the middle of the list. *)
Lemma contents_mid a n b :
  NoDup (map (fun n => lower (nkey n)) (a ++ n :: b)) ->
  contents (a ++ n :: b) = <[lower (nkey n) := ndata n]> (contents (a ++ b)) /\
  contents (a ++ b) !! lower (nkey n) = None.
Proof.
  intros Hnd. split.
  - rewrite <- contents_cons. apply contents_perm; [done|]. by rewrite Permutation_middle.
  - rewrite contents_find, find_key_none; [done|].
    assert (Hnd' : NoDup (map (fun n => lower (nkey n)) (n :: a ++ b))).
    { apply (NoDup_Permutation_proper _ (map (fun n => lower (nkey n)) (a ++ n :: b))); [|done].
      apply fmap_Permutation. by rewrite Permutation_middle. }
    apply NoDup_cons in Hnd' as [Hni _]. apply Forall_forall. intros x Hx E. apply Hni. rewrite <- E.
    by apply (list_elem_of_fmap_2 (fun n => lower (nkey n))).
Qed.

Section Refinement.
Context `{Build}.

Lemma find_spec p ns k :
  Inv p ns -> text k ->
  sqlite3HashFind p (k ++ [0]) = Ret (default 0 (contents ns !! lower k)).
Proof.
  intros Hinv Hk. destruct (find_element_spec p ns k Hinv Hk) as (h & E & _).
  unfold sqlite3HashFind. rewrite E. cbn [mbind outcome_bind]. rewrite contents_find.
  destruct (find_key (lower k) ns) as [n|] eqn:Ef; [|done]. cbn.
  apply find_key_split in Ef as (a & b & -> & _).
  destruct (chain_lookup (heap p) None (a ++ n :: b) None n) as (pv & nx & Hn); [apply Hinv|apply elem_of_app; right; by left|].
  unfold deref. by rewrite Hn.
Qed.

(** The table grows, or not, before an insertion. *)
Lemma table_grows malloc p ns k h :
  malloc_ok malloc -> Links p ns -> Forall (fun n => text (nkey n)) ns -> text k ->
  (length ns <= size (heap p))%nat -> count p = Z.of_nat (length ns) + 1 -> Z.of_nat (length ns) < 2 ^ 30 ->
  entry_of p k = match ht p with Some _ => Some (Z.to_nat h) | None => None end ->
  exists h' p' ns',
    (if (10 <=? count p) && (u32 (2 * htsize p) <? count p) then
       '(done, p) ← rehash malloc p (u32 (count p * 2));
       if done : bool then
         _ ← assert_ (0 <? htsize p);
         h ← strHash (k ++ [0]);
         if htsize p =? 0 then Undefined else Ret (h mod htsize p, p)
       else Ret (h, p)
     else Ret (h, p)) = Ret (h', p') /\
    Links p' ns' /\ ns' ≡ₚ ns /\ count p' = count p /\ dom (heap p') = dom (heap p) /\
    (forall x, x ∉ ids ns -> heap p' !! x = heap p !! x) /\
    entry_of p' k = match ht p' with Some _ => Some (Z.to_nat h') | None => None end.
Proof.
  intros Hm Hl Hks Hk Hsize Hcount Hbound Hentry.
  destruct (_ && _) eqn:Eg; [|by exists h, p, ns].
  apply andb_prop in Eg as [Eten%Z.leb_le _].
  destruct (rehash_spec malloc p ns (u32 (count p * 2))) as (r & p' & ns' & E & Hl' & Hp & Hc & Hd & Hf & Ht & Hfalse);
    [done|done|done|done|lia|rewrite u32_id; lia|].
  rewrite E. cbn [mbind outcome_bind]. destruct r.
  - destruct (Ht eq_refl) as [Hne Hsz]. rewrite assert_true by (by apply Z.ltb_lt). cbn [mbind outcome_bind].
    rewrite strHash_lower by done. cbn [mbind outcome_bind]. destruct (Z.eqb_spec (htsize p') 0); [lia|].
    exists (hash_of k mod htsize p'), p', ns'. unfold entry_of. destruct (ht p'); [|done]. repeat (split; [done|]). done.
  - rewrite (Hfalse eq_refl) in *. by exists h, p, ns.
Qed.

(** A new element. *)
Lemma add_spec malloc p ns k d x :
  malloc_ok malloc -> Inv p ns -> text k -> d <> 0 -> heap p !! x = None ->
  find_key (lower k) ns = None -> Z.of_nat (length ns) < 2 ^ 30 ->
  exists p' ns', sqlite3HashInsert malloc (Some x) p (k ++ [0]) d = Ret (0, p') /\ Inv p' ns' /\
    contents ns' = <[lower k := d]> (contents ns) /\ length ns' = S (length ns).
Proof.
  intros Hm Hinv Hk Hd Hx Hfind Hbound.
  destruct (find_element_spec p ns k Hinv Hk) as (h & E & Hentry).
  unfold sqlite3HashInsert. rewrite E, Hfind. cbn [mbind outcome_bind fmap option_fmap option_map].
  change (negb (0 =? 0)) with false. cbv iota. destruct (Z.eqb_spec d 0); [done|].
  destruct Hinv as [[Hch Hfst Hnd Hb] Hkeys Hdist Hdata Hcells Hcount _].
  set (nd := {| id := x; nkey := k; ndata := d |}).
  assert (Hxi : id nd ∉ ids ns).
  { intros Hi. apply (not_elem_of_dom (D := gset nat)) in Hx. apply Hx. rewrite Hcells. by apply elem_of_list_to_set. }
  change {| next := None; prev := None; data := d; pKey := k ++ [0] |} with (cell nd None None).
  rewrite Hcount, u32_id by lia.
  set (p1 := {| htsize := htsize p; count := Z.of_nat (length ns) + 1; first := first p; ht := ht p;
                heap := <[x := cell nd None None]> (heap p) |}).
  assert (Hl1 : Links p1 ns).
  { split; [|done|done|done]. apply (chain_frame (heap p)); [done|]. intros y Hy. apply lookup_insert_ne. by intros <-. }
  assert (Hdom1 : dom (heap p1) = {[x]} ∪ list_to_set (ids ns)) by (cbn [heap p1]; by rewrite dom_insert_L, Hcells).
  assert (Hsize : size (heap p1) = S (length ns)).
  { rewrite <- size_dom, Hdom1, size_union by (apply disjoint_singleton_l; by rewrite elem_of_list_to_set).
    rewrite size_singleton, size_list_to_set by done. unfold ids. by rewrite length_map. }
  destruct (table_grows malloc p1 ns k h) as (h2 & p2 & ns2 & E2 & Hl2 & Hp2 & Hc2 & Hd2 & Hf2 & He2);
    [done|done|done|done|lia|done|done|done|].
  cbv zeta. fold p1. rewrite E2.
  cbn [mbind outcome_bind]. rewrite <- He2.
  assert (Hids2 : forall y, y ∉ ids ns2 <-> y ∉ ids ns).
  { intros y. apply not_iff_compat. apply elem_of_Permutation_proper. by apply fmap_Permutation. }
  destruct (insert_links p2 ns2 nd Hl2) as (p' & a & b & E3 & Eab & Hl3 & (_ & Hdom3 & _) & _ & Hc3 & _).
  { exists None, None. rewrite Hf2 by done. apply lookup_insert_eq. }
  { by apply Hids2. }
  { rewrite Hp2. lia. }
  change x with (id nd). change k with (nkey nd) at 1. rewrite E3. cbn [mbind outcome_bind].
  assert (Hperm : a ++ nd :: b ≡ₚ nd :: ns) by (rewrite <- (Permutation_middle a b nd); apply perm_skip; by rewrite <- Eab).
  exists p', (a ++ nd :: b). split; [done|].
  assert (Hdist' : NoDup (map (fun n => lower (nkey n)) (nd :: ns))).
  { apply NoDup_cons. split; [|done]. intros (m & Em & Hmi)%list_elem_of_fmap.
    by apply (find_key_none_inv _ _ m Hfind Hmi). }
  assert (Hlen : length (a ++ nd :: b) = S (length ns)) by (by rewrite Hperm).
  split; [split|split].
  - done.
  - rewrite Hperm. by constructor.
  - apply (NoDup_Permutation_proper _ (map (fun n => lower (nkey n)) (nd :: ns))); [|done]. by apply fmap_Permutation.
  - rewrite Hperm. by constructor.
  - rewrite Hdom3, Hd2, Hdom1. transitivity (list_to_set (ids (nd :: ns)) : gset nat); [done|].
    apply list_to_set_perm_L. symmetry. by apply fmap_Permutation.
  - rewrite Hc3, Hc2, Hlen. cbn [count p1]. lia.
  - rewrite Hlen. lia.
  - rewrite (contents_perm _ (nd :: ns)) by (done || (eapply NoDup_Permutation_proper; [by apply fmap_Permutation|done])).
    apply contents_cons.
  - done.
Qed.

(** One insertion refines one of the map. *)
Lemma table_insert_spec malloc p ns k d new :
  malloc_ok malloc -> Inv p ns -> text k -> Z.of_nat (length ns) < 2 ^ 30 ->
  (forall x, new = Some x -> heap p !! x = None) ->
  exists r p' ns', sqlite3HashInsert malloc new p (k ++ [0]) d = Ret (r, p') /\ Inv p' ns' /\
    (r, contents ns') = map_insert (if new is Some _ then true else false) (lower k) d (contents ns) /\
    (length ns' <= S (length ns))%nat.
Proof.
  intros Hm Hinv Hk Hbound Hnew. unfold map_insert. rewrite contents_find.
  destruct (find_key (lower k) ns) as [n|] eqn:Ef; cbn [fmap option_fmap option_map].
  - destruct (find_element_spec p ns k Hinv Hk) as (h & E & Hentry).
    unfold sqlite3HashInsert. rewrite E, Ef. cbn [mbind outcome_bind fmap option_fmap option_map].
    apply find_key_split in Ef as (a & b & -> & Hlow).
    destruct (chain_lookup (heap p) None (a ++ n :: b) None n) as (pv & nx & Hn); [apply Hinv|apply elem_of_app; right; by left|].
    unfold deref at 1. rewrite Hn. cbn [mbind outcome_bind data cell].
    assert (Hd0 : ndata n <> 0).
    { destruct Hinv as [_ _ _ Hdata _ _ _]. apply Forall_app in Hdata as [_ Hdata]. by apply Forall_cons in Hdata as [? _]. }
    pose proof (i_distinct _ _ Hinv) as Hdist.
    destruct (contents_mid a n b Hdist) as [Ec Enone].
    destruct (Z.eqb_spec (ndata n) 0); [done|]. cbn [negb]. destruct (Z.eqb_spec d 0) as [->|Hd].
    + destruct (remove_spec p a n b h Hinv) as (p' & Er & Hinv').
      { rewrite <- Hentry. unfold entry_of. destruct (ht p); [|done]. f_equal. by apply slot_lower. }
      rewrite Er. cbn [mbind outcome_bind]. exists (ndata n), p', (a ++ b). split; [done|]. split; [done|].
      split; [|rewrite !length_app; cbn; lia]. f_equal. rewrite Ec, <- Hlow. by rewrite delete_insert_id.
    + destruct (data_replace_spec p a n b k d Hinv Hk (eq_sym Hlow) Hd) as (cells & Es & Hinv').
      rewrite Es. cbn [mbind outcome_bind]. eexists _, _, _. split; [done|]. split; [done|].
      split; [|rewrite !length_app; cbn; lia]. f_equal.
      pose proof (i_distinct _ _ Hinv') as Hdist'. destruct (contents_mid _ _ _ Hdist') as [Ec' _].
      rewrite Ec', Ec. cbn [nkey ndata]. rewrite <- Hlow. by rewrite insert_insert_eq.
  - destruct (Z.eqb_spec d 0) as [->|Hd].
    + destruct (find_element_spec p ns k Hinv Hk) as (h & E & _).
      unfold sqlite3HashInsert. rewrite E, Ef. cbn. exists 0, p, ns. repeat (split; [done|]). lia.
    + destruct new as [x|].
      * destruct (add_spec malloc p ns k d x Hm Hinv Hk Hd (Hnew x eq_refl) Ef Hbound) as (p' & ns' & E & Hi & Hc & Hlen).
        exists 0, p', ns'. rewrite Hc, Hlen. split; [done|]. split; [done|]. split; [done|]. lia.
      * destruct (find_element_spec p ns k Hinv Hk) as (h & E & _).
        unfold sqlite3HashInsert. rewrite E, Ef. cbn. destruct (Z.eqb_spec d 0); [done|].
        exists d, p, ns. repeat (split; [done|]). lia.
Qed.

End Refinement.

(** ** Sequences of calls *)

Inductive call :=
| CFind (k : list Z)
| CInsert (k : list Z) (d : Z) (mem : bool) (malloc : Z -> option Z)
| CClear.

Definition call_ok (c : call) : Prop :=
  match c with
  | CFind k => text k
  | CInsert k _ _ malloc => text k /\ malloc_ok malloc
  | CClear => True
  end.

Section Sequences.
Context `{Build}.
(** Where the allocator puts a new element. *)
Context (addr : gmap nat HashElem -> nat) (addr_fresh : forall h, h !! addr h = None).

Definition call_table (c : call) (p : Hash) : outcome (Z * Hash) :=
  match c with
  | CFind k => d ← sqlite3HashFind p (k ++ [0]); Ret (d, p)
  | CInsert k d mem malloc =>
      sqlite3HashInsert malloc (if mem : bool then Some (addr (heap p)) else None) p (k ++ [0]) d
  | CClear => p ← sqlite3HashClear p; Ret (0, p)
  end.

Definition call_map (c : call) (m : gmap (list Z) Z) : Z * gmap (list Z) Z :=
  match c with
  | CFind k => (default 0 (m !! lower k), m)
  | CInsert k d mem _ => map_insert mem (lower k) d m
  | CClear => (0, ∅)
  end.

Fixpoint table_run (cs : list call) (p : Hash) : outcome (list Z * Hash) :=
  match cs with
  | [] => Ret ([], p)
  | c :: cs => '(r, p) ← call_table c p; '(rs, p) ← table_run cs p; Ret (r :: rs, p)
  end.
Fixpoint map_run (cs : list call) (m : gmap (list Z) Z) : list Z * gmap (list Z) Z :=
  match cs with
  | [] => ([], m)
  | c :: cs => let '(r, m) := call_map c m in let '(rs, m) := map_run cs m in (r :: rs, m)
  end.

Lemma call_refines c p ns :
  Inv p ns -> call_ok c -> Z.of_nat (length ns) < 2 ^ 30 ->
  exists r p' ns', call_table c p = Ret (r, p') /\ Inv p' ns' /\
    call_map c (contents ns) = (r, contents ns') /\ (length ns' <= S (length ns))%nat.
Proof.
  intros Hinv Hok Hb. destruct c as [k|k d mem malloc|]; cbn [call_table call_map].
  - rewrite (find_spec p ns k Hinv Hok). cbn [mbind outcome_bind]. eexists _, p, ns. repeat (split; [done|]). lia.
  - destruct Hok as [Hk Hm].
    destruct (table_insert_spec malloc p ns k d (if mem then Some (addr (heap p)) else None) Hm Hinv Hk Hb)
      as (r & p' & ns' & E & Hi & Hc & Hl).
    { intros x. destruct mem; [|done]. intros [= <-]. apply addr_fresh. }
    exists r, p', ns'. split; [done|]. split; [done|]. split; [|done]. rewrite Hc. by destruct mem.
  - destruct Hinv as [[Hch Hf Hn _] _ _ _ Hd _ _]. rewrite (clear_spec p ns Hch Hf Hn Hd).
    exists 0, empty_table, []. split; [done|]. split; [apply empty_inv|]. split; [done|]. cbn. lia.
Qed.

Lemma table_run_refines cs p ns :
  Inv p ns -> Forall call_ok cs -> Z.of_nat (length ns + length cs) < 2 ^ 30 ->
  exists rs p' ns', table_run cs p = Ret (rs, p') /\ Inv p' ns' /\ map_run cs (contents ns) = (rs, contents ns').
Proof.
  intros Hinv Hok. revert p ns Hinv. induction Hok as [|c cs Hc Hcs IH]; intros p ns Hinv Hb.
  - by exists [], p, ns.
  - cbn [length] in Hb. destruct (call_refines c p ns Hinv Hc) as (r & p1 & ns1 & E & Hi & Em & Hl); [lia|].
    destruct (IH p1 ns1 Hi) as (rs & p' & ns' & E' & Hi' & Em'); [lia|].
    cbn [table_run map_run]. rewrite E, Em. cbn [mbind outcome_bind]. rewrite E', Em'. by exists (r :: rs), p', ns'.
Qed.

(** C35: over every sequence of calls the hash table answers what a finite map from
    lower-case keys answers: searches, insertions of new and of present keys,
    removals, insertions for which there is no memory, and clearing, whatever
    sizes the bucket array gets or fails to get.  The store holds exactly one
    cell per entry of the map, so no cell is lost and none is freed early. *)
Theorem hash_refines_map cs :
  Forall call_ok cs -> Z.of_nat (length cs) < 2 ^ 30 ->
  exists rs p m,
    table_run cs (sqlite3HashInit ∅) = Ret (rs, p) /\ map_run cs ∅ = (rs, m) /\
    size (heap p) = size m /\ sqlite3HashClear p = Ret empty_table.
Proof.
  intros Hok Hb. destruct (table_run_refines cs empty_table [] empty_inv Hok Hb) as (rs & p & ns & E & Hi & Em).
  exists rs, p, (contents ns). split; [done|]. split; [done|].
  destruct Hi as [[Hch Hf Hn _] _ Hd _ Hc _ _]. split; [|by apply (clear_spec p ns)].
  rewrite (cells_size _ ns Hn Hc). unfold contents.
  rewrite map_size_list_to_map by (by rewrite keys_fst). by rewrite length_map.
Qed.

End Sequences.

(** A dozen insertions, so that the table grows its bucket array, a look-up under
    another spelling, a removal and a failed insertion. *)
Definition malloc_example (n : Z) : option Z := if n <? 2 ^ 20 then Some (n + 8) else None.

Lemma malloc_example_ok : malloc_ok malloc_example.
Proof.
  intros n b. unfold malloc_example. destruct (Z.ltb_spec n (2 ^ 20)); [|done]. intros [= <-]. lia.
Qed.

Definition calls_example : list call :=
  map (fun n => CInsert [97; 65 + Z.of_nat n] (Z.of_nat n + 1) true malloc_example) (seq 0 12)
  ++ [CFind [65; 99]; CInsert [65; 68] 0 true malloc_example; CFind [97; 68];
      CInsert [122] 5 false malloc_example; CFind [122]].

Lemma hash_refines_map_witness :
  exists p (m : gmap (list Z) Z),
    @table_run debug_build (fun h => fresh (dom h)) calls_example (sqlite3HashInit ∅)
    = Ret (replicate 12 0 ++ [3; 4; 0; 5; 0], p) /\ size (heap p) = size m.
Proof.
  destruct (@hash_refines_map debug_build (fun h => fresh (dom h))
              (fun h => proj1 (not_elem_of_dom h (fresh (dom h))) (is_fresh (dom h))) calls_example)
    as (rs & p & m & E & Em & Hs & _).
  - repeat (apply Forall_cons; split; [try (split; [|exact malloc_example_ok]); repeat constructor; lia|]). constructor.
  - reflexivity.
  - assert (El : (map_run calls_example ∅).1 = replicate 12 0 ++ [3; 4; 0; 5; 0]) by (by vm_compute).
    rewrite Em in El. cbn [fst] in El. exists p, m. rewrite E, El. by split.
Defined.
