(* ===== verification/Bitvec.v ===== *)
(** * Fixed-length bitmaps: deps/sqlite3/sqlite3.c, bitvec.c

    The object that remembers which pages of a file a transaction has
    journalled.  Small bitmaps are arrays of bits; large ones start as a hash
    table of 124 slots and, once that is crowded, become 62 pointers to bitmaps
    for a share of the range each.  The blocks are never shared, so an object
    and its sub-bitmaps are a tree.  Whether a request for memory is met is an
    argument; the heap counts requests and live blocks. *)

From S2P Require Import Prelude Words.

(** ** Sizes *)

Definition BITVEC_SZ : Z := 512.
Definition BITVEC_USIZE : Z := (BITVEC_SZ - 3 * 4) / 8 * 8.
Definition BITVEC_SZELEM : Z := 8.
Definition BITVEC_NELEM : Z := BITVEC_USIZE / 1.
Definition BITVEC_NBIT : Z := BITVEC_NELEM * BITVEC_SZELEM.
Definition BITVEC_NINT : Z := BITVEC_USIZE / 4.
Definition BITVEC_MXHASH : Z := BITVEC_NINT / 2.
Definition BITVEC_HASH (x : Z) : Z := u32 (x * 1) mod BITVEC_NINT.
Definition BITVEC_NPTR : Z := BITVEC_USIZE / 8.

Definition SQLITE_OK : Z := 0.
Definition SQLITE_NOMEM : Z := 7.

(** ** Data *)

(** The constructor of the union is the member that the sizes select. *)
Inductive Bitvec := mk_bitvec (iSize nSet iDivisor : Z) (u : union)
with union :=
| aBitmap (l : list Z)
| aHash (l : list Z)
| apSub (l : list (option Bitvec)).

Definition iSize (p : Bitvec) : Z := let '(mk_bitvec n _ _ _) := p in n.
Definition nSet (p : Bitvec) : Z := let '(mk_bitvec _ n _ _) := p in n.
Definition iDivisor (p : Bitvec) : Z := let '(mk_bitvec _ _ d _) := p in d.
Definition u (p : Bitvec) : union := let '(mk_bitvec _ _ _ u) := p in u.

(** Reads through the union; an index behind the array is undefined, as is a
    member other than the selected one. *)
Definition bitmap_at (p : Bitvec) (k : Z) : outcome Z :=
  match u p with aBitmap l => from_option Ret Undefined (l !! Z.to_nat k) | _ => Undefined end.
Definition hash_of (p : Bitvec) : outcome (list Z) :=
  match u p with aHash l => Ret l | _ => Undefined end.
Definition sub_at (p : Bitvec) (k : Z) : outcome (option Bitvec) :=
  match u p with apSub l => from_option Ret Undefined (l !! Z.to_nat k) | _ => Undefined end.

Definition put_bitmap (p : Bitvec) (k v : Z) : Bitvec :=
  let '(mk_bitvec n s d u) := p in
  mk_bitvec n s d (match u with aBitmap l => aBitmap (<[Z.to_nat k := v]> l) | u => u end).
Definition put_hash (p : Bitvec) (n : Z) (l : list Z) : Bitvec :=
  let '(mk_bitvec sz _ d _) := p in mk_bitvec sz n d (aHash l).
Definition put_sub (p : Bitvec) (k : Z) (q : Bitvec) : Bitvec :=
  let '(mk_bitvec n s d u) := p in
  mk_bitvec n s d (match u with apSub l => apSub (<[Z.to_nat k := Some q]> l) | u => u end).

(** All bytes zero, seen through the member that the sizes select. *)
Definition zero_union (size divisor : Z) : union :=
  if size <=? BITVEC_NBIT then aBitmap (replicate (Z.to_nat BITVEC_NELEM) 0)
  else if divisor =? 0 then aHash (replicate (Z.to_nat BITVEC_NINT) 0)
  else apSub (replicate (Z.to_nat BITVEC_NPTR) None).

(** ** Memory *)

Record heap := { asked : nat; live : Z }.

Section Bitvec.
Context `{Build}.
(** Whether the n-th request is met. *)
Variable malloc : nat -> bool.

Definition request (h : heap) : bool * heap :=
  (malloc (asked h), {| asked := S (asked h); live := live h + if malloc (asked h) then 1 else 0 |}).
Definition release (h : heap) : heap := {| asked := asked h; live := live h - 1 |}.

Definition sqlite3BitvecCreate (size : Z) (h : heap) : option Bitvec * heap :=
  let '(ok, h) := request h in
  (if ok then Some (mk_bitvec size 0 0 (zero_union size 0)) else None, h).

(** ** Probing *)

(** The two ways the code steps to the next slot. *)
Definition next_mod (s : Z) : Z := u32 (s + 1) mod BITVEC_NINT.
Definition next_wrap (s : Z) : Z := if BITVEC_NINT <=? u32 (s + 1) then 0 else u32 (s + 1).

(** The loops over the hash table: on from slot [s] until the slot is empty, or
    holds [x] if the loop looks for a value. The flag says it was found. *)
Fixpoint probe (next : Z -> Z) (x : option Z) (fuel : nat) (l : list Z) (s : Z) : outcome (Z * bool) :=
  match fuel with
  | O => OutOfFuel
  | S fuel =>
      match l !! Z.to_nat s with
      | None => Undefined
      | Some v =>
          if v =? 0 then Ret (s, false)
          else if bool_decide (x = Some v) then Ret (s, true)
          else probe next x fuel l (next s)
      end
  end.

Definition SLOTS : nat := Z.to_nat BITVEC_NINT.

(** ** Test *)

Fixpoint test_from (fuel : nat) (p : Bitvec) (i : Z) : outcome bool :=
  match fuel with
  | O => OutOfFuel
  | S fuel =>
      if negb (iDivisor p =? 0) then
        let bin := i / iDivisor p in
        let i := i mod iDivisor p in
        q ← sub_at p bin;
        match q with None => Ret false | Some p => test_from fuel p i end
      else if iSize p <=? BITVEC_NBIT then
        b ← bitmap_at p (i / BITVEC_SZELEM);
        Ret (negb (Z.land b (Z.shiftl 1 (Z.land i (BITVEC_SZELEM - 1))) =? 0))
      else
        l ← hash_of p;
        '(_, found) ← probe next_mod (Some (u32 (i + 1))) SLOTS l (BITVEC_HASH i);
        Ret found
  end.

(** The passes of the loops down the tree and the recursions: see [levels]. *)
Definition FUEL : nat := 9.

Definition sqlite3BitvecTestNotNull (p : Bitvec) (i : Z) : outcome bool :=
  let i := u32 (i - 1) in
  if iSize p <=? i then Ret false else test_from FUEL p i.

Definition sqlite3BitvecTest (p : option Bitvec) (i : Z) : outcome bool :=
  match p with None => Ret false | Some p => sqlite3BitvecTestNotNull p i end.

(** ** Set *)

Definition set_result : Type := outcome (Z * Bitvec * heap).

(** The check of the arguments and [i--]. *)
Definition checked (set : Bitvec -> Z -> heap -> set_result) (p : Bitvec) (i : Z) (h : heap) : set_result :=
  _ ← assert_ (0 <? i);
  _ ← assert_ (i <=? iSize p);
  set p (u32 (i - 1)) h.

(** [for(j=0; j<BITVEC_NINT; j++)] over the saved values. *)
Fixpoint reinsert (set : Bitvec -> Z -> heap -> set_result) (aiValues : list Z) (rc : Z) (p : Bitvec) (h : heap)
  : set_result :=
  match aiValues with
  | [] => Ret (rc, p, h)
  | v :: vs =>
      if v =? 0 then reinsert set vs rc p h
      else '(rc', p, h) ← set p v h; reinsert set vs (Z.lor rc rc') p h
  end.

(** Behind [bitvec_set_end]. *)
Definition set_end (p : Bitvec) (l : list Z) (s i : Z) (h : heap) : set_result :=
  Ret (SQLITE_OK, put_hash p (u32 (nSet p + 1)) (<[Z.to_nat s := i]> l), h).

(** Behind [bitvec_set_rehash]. [BITVEC_NPTR] is a [size_t], so the sum has 64
    bits. *)
Definition set_rehash (set : Bitvec -> Z -> heap -> set_result) (p : Bitvec) (l : list Z) (s i : Z) (h : heap)
  : set_result :=
  if BITVEC_MXHASH <=? nSet p then
    let '(ok, h) := request h in
    if negb ok then Ret (SQLITE_NOMEM, p, h)
    else
      let divisor := u32 (u64 (iSize p + BITVEC_NPTR - 1) / BITVEC_NPTR) in
      let p := mk_bitvec (iSize p) (nSet p) divisor (zero_union (iSize p) divisor) in
      '(rc, p, h) ← set p i h;
      '(rc, p, h) ← reinsert set l rc p h;
      Ret (rc, p, release h)
  else set_end p l s i h.

Fixpoint set_from (fuel : nat) (p : Bitvec) (i : Z) (h : heap) : set_result :=
  match fuel with
  | O => OutOfFuel
  | S fuel =>
      if (BITVEC_NBIT <? iSize p) && negb (iDivisor p =? 0) then
        let bin := i / iDivisor p in
        let i := i mod iDivisor p in
        q ← sub_at p bin;
        let '(q, h) := match q with None => sqlite3BitvecCreate (iDivisor p) h | Some q => (Some q, h) end in
        match q with
        | None => Ret (SQLITE_NOMEM, p, h)
        | Some q => '(rc, q, h) ← set_from fuel q i h; Ret (rc, put_sub p bin q, h)
        end
      else if iSize p <=? BITVEC_NBIT then
        b ← bitmap_at p (i / BITVEC_SZELEM);
        Ret (SQLITE_OK,
             put_bitmap p (i / BITVEC_SZELEM) (Z.lor b (Z.shiftl 1 (Z.land i (BITVEC_SZELEM - 1)))), h)
      else
        l ← hash_of p;
        let s := BITVEC_HASH i in
        let i := u32 (i + 1) in
        match l !! Z.to_nat s with
        | None => Undefined
        | Some v =>
            if v =? 0 then
              if nSet p <? BITVEC_NINT - 1 then set_end p l s i h
              else set_rehash (checked (set_from fuel)) p l s i h
            else
              '(s, found) ← probe next_wrap (Some i) SLOTS l s;
              if found : bool then Ret (SQLITE_OK, p, h)
              else set_rehash (checked (set_from fuel)) p l s i h
        end
  end.

Definition sqlite3BitvecSet (p : option Bitvec) (i : Z) (h : heap) : outcome (Z * option Bitvec * heap) :=
  match p with
  | None => Ret (SQLITE_OK, None, h)
  | Some p => '(rc, p, h) ← checked (set_from FUEL) p i h; Ret (rc, Some p, h)
  end.

(** ** Clear *)

(** The loop that fills the emptied table again; [gone] is [i+1]. *)
Fixpoint rebuild (gone : Z) (aiValues : list Z) (n : Z) (l : list Z) : outcome (Z * list Z) :=
  match aiValues with
  | [] => Ret (n, l)
  | v :: vs =>
      if negb (v =? 0) && negb (v =? gone) then
        '(s, _) ← probe next_wrap None SLOTS l (BITVEC_HASH (u32 (v - 1)));
        rebuild gone vs (u32 (n + 1)) (<[Z.to_nat s := v]> l)
      else rebuild gone vs n l
  end.

Fixpoint clear_from (fuel : nat) (p : Bitvec) (i : Z) : outcome Bitvec :=
  match fuel with
  | O => OutOfFuel
  | S fuel =>
      if negb (iDivisor p =? 0) then
        let bin := i / iDivisor p in
        let i := i mod iDivisor p in
        q ← sub_at p bin;
        match q with None => Ret p | Some q => q ← clear_from fuel q i; Ret (put_sub p bin q) end
      else if iSize p <=? BITVEC_NBIT then
        b ← bitmap_at p (i / BITVEC_SZELEM);
        Ret (put_bitmap p (i / BITVEC_SZELEM)
               (Z.land b (Z.lnot (Z.shiftl 1 (Z.land i (BITVEC_SZELEM - 1))))))
      else
        l ← hash_of p;
        '(n, l) ← rebuild (u32 (i + 1)) l 0 (replicate SLOTS 0);
        Ret (put_hash p n l)
  end.

Definition sqlite3BitvecClear (p : option Bitvec) (i : Z) : outcome (option Bitvec) :=
  match p with
  | None => Ret None
  | Some p => _ ← assert_ (0 <? i); p ← clear_from FUEL p (u32 (i - 1)); Ret (Some p)
  end.

(** ** Destroy *)

Fixpoint destroy_all (destroy : Bitvec -> heap -> outcome heap) (l : list (option Bitvec)) (h : heap) : outcome heap :=
  match l with
  | [] => Ret h
  | None :: l => destroy_all destroy l h
  | Some p :: l => h ← destroy p h; destroy_all destroy l h
  end.

Fixpoint destroy_from (fuel : nat) (p : Bitvec) (h : heap) : outcome heap :=
  match fuel with
  | O => OutOfFuel
  | S fuel =>
      h ← (if negb (iDivisor p =? 0) then
             match u p with apSub l => destroy_all (destroy_from fuel) l h | _ => Undefined end
           else Ret h);
      Ret (release h)
  end.

Definition sqlite3BitvecDestroy (p : option Bitvec) (h : heap) : outcome heap :=
  match p with None => Ret h | Some p => destroy_from FUEL p h end.

Definition sqlite3BitvecSize (p : Bitvec) : Z := iSize p.

End Bitvec.

(** ** Lemmas: arrays *)

(** A table entry, with a default behind the end. *)
Definition at_ (l : list Z) (s : Z) : Z := nth (Z.to_nat s) l 0.

Lemma lookup_at l s : 0 <= s < Z.of_nat (length l) -> l !! Z.to_nat s = Some (at_ l s).
Proof.
  intros Hs. destruct (lookup_lt_is_Some_2 l (Z.to_nat s)) as [v Hv]; [lia|].
  unfold at_. by rewrite Hv, (nth_lookup_Some _ _ _ _ Hv).
Qed.

Lemma at_insert l s s' v : 0 <= s < Z.of_nat (length l) -> 0 <= s' ->
  at_ (<[Z.to_nat s := v]> l) s' = if s' =? s then v else at_ l s'.
Proof.
  intros Hs Hs'. unfold at_. destruct (Z.eqb_spec s' s) as [->|Hne].
  - apply nth_lookup_Some, list_lookup_insert_eq. lia.
  - rewrite !nth_lookup. by rewrite list_lookup_insert_ne by lia.
Qed.

Lemma at_replicate n s : at_ (replicate n 0) s = 0.
Proof.
  unfold at_. destruct (Nat.lt_ge_cases (Z.to_nat s) n).
  - apply nth_lookup_Some, lookup_replicate. by split.
  - apply nth_overflow. by rewrite length_replicate.
Qed.

Lemma at_elem l x : x <> 0 -> x ∈ l <-> exists s, 0 <= s < Z.of_nat (length l) /\ at_ l s = x.
Proof.
  intros Hx. rewrite list_elem_of_lookup. split.
  - intros [k Hk]. pose proof (lookup_lt_Some _ _ _ Hk). exists (Z.of_nat k). split; [lia|].
    unfold at_. rewrite Nat2Z.id. by apply nth_lookup_Some.
  - intros (s & Hs & <-). exists (Z.to_nat s). by apply lookup_at.
Qed.

(** The non-zero entries of a table. *)
Definition used (l : list Z) : Z := Z.of_nat (length (filter (fun v => v <> 0) l)).

Lemma used_app a b : used (a ++ b) = used a + used b.
Proof. unfold used. rewrite filter_app, length_app. lia. Qed.

Lemma used_cons v l : used (v :: l) = (if v =? 0 then 0 else 1) + used l.
Proof.
  unfold used. rewrite filter_cons. destruct (Z.eqb_spec v 0) as [->|Hv].
  - by rewrite decide_False by auto.
  - rewrite decide_True by done. cbn [length]. lia.
Qed.

Lemma used_bounds l : 0 <= used l <= Z.of_nat (length l).
Proof. unfold used. pose proof (length_filter (fun v => v <> 0) l). lia. Qed.

Lemma used_insert l s v : 0 <= s < Z.of_nat (length l) -> at_ l s = 0 -> v <> 0 ->
  used (<[Z.to_nat s := v]> l) = used l + 1.
Proof.
  intros Hs Hz Hv. pose proof (lookup_at l s Hs) as Hl. rewrite Hz in Hl.
  rewrite <- (take_drop_middle l _ _ Hl) at 2. rewrite insert_take_drop by lia.
  rewrite !used_app, !used_cons. rewrite (proj2 (Z.eqb_neq v 0)) by done. cbn. lia.
Qed.

(** A table that is not full has an empty slot. *)
Lemma free_slot l : used l < Z.of_nat (length l) -> exists s, 0 <= s < Z.of_nat (length l) /\ at_ l s = 0.
Proof.
  intros Hu. destruct (decide (0 ∈ l)) as [Hin|Hin].
  - apply list_elem_of_lookup in Hin as [k Hk]. pose proof (lookup_lt_Some _ _ _ Hk). exists (Z.of_nat k).
    split; [lia|]. unfold at_. rewrite Nat2Z.id. by apply nth_lookup_Some.
  - exfalso. enough (used l = Z.of_nat (length l)) by lia. clear Hu.
    induction l as [|v l IH]; [done|]. rewrite not_elem_of_cons in Hin. destruct Hin as [Hv Hl].
    rewrite used_cons, (proj2 (Z.eqb_neq v 0)), IH by auto. cbn [length]. lia.
Qed.

(** ** Lemmas: bits of a byte *)

Lemma land_pow2 b k : 0 <= k -> (Z.land b (Z.shiftl 1 k) =? 0) = negb (Z.testbit b k).
Proof.
  intros Hk. rewrite Z.shiftl_1_l. destruct (Z.testbit b k) eqn:Hb; cbn.
  - apply Z.eqb_neq. intros H0. apply (f_equal (fun z => Z.testbit z k)) in H0.
    rewrite Z.land_spec, Hb, Z.pow2_bits_true, Z.testbit_0_l in H0 by done. done.
  - apply Z.eqb_eq, Z.bits_inj'. intros j Hj. rewrite Z.land_spec, Z.pow2_bits_eqb, Z.testbit_0_l by done.
    destruct (Z.eqb_spec k j) as [<-|]; [by rewrite Hb|by rewrite andb_false_r].
Qed.

Lemma lor_pow2 b k j : 0 <= k -> Z.testbit (Z.lor b (Z.shiftl 1 k)) j = Z.testbit b j || (k =? j).
Proof. intros Hk. by rewrite Z.shiftl_1_l, Z.lor_spec, Z.pow2_bits_eqb. Qed.

Lemma land_lnot_pow2 b k j : 0 <= k -> 0 <= j ->
  Z.testbit (Z.land b (Z.lnot (Z.shiftl 1 k))) j = Z.testbit b j && negb (k =? j).
Proof. intros Hk Hj. by rewrite Z.shiftl_1_l, Z.land_spec, Z.lnot_spec, Z.pow2_bits_eqb. Qed.

Lemma land_7 i : Z.land i (BITVEC_SZELEM - 1) = i mod 8.
Proof. change (BITVEC_SZELEM - 1) with (Z.ones 3). by rewrite Z.land_ones. Qed.

(** ** Lemmas: the hash table *)

Lemma next_mod_spec s : 0 <= s < BITVEC_NINT -> next_mod s = (s + 1) mod BITVEC_NINT.
Proof. change BITVEC_NINT with 124. intros Hs. unfold next_mod. by rewrite u32_id by lia. Qed.

Lemma next_wrap_spec s : 0 <= s < BITVEC_NINT -> next_wrap s = (s + 1) mod BITVEC_NINT.
Proof.
  unfold next_wrap. change BITVEC_NINT with 124. intros Hs. rewrite u32_id by lia.
  destruct (Z.leb_spec 124 (s + 1)).
  - by replace s with 123 by lia.
  - by rewrite Z.mod_small by lia.
Qed.

Lemma hash_range i : 0 <= BITVEC_HASH i < BITVEC_NINT.
Proof. apply Z.mod_pos_bound. reflexivity. Qed.

Lemma hash_id i : is_u32 i -> BITVEC_HASH i = i mod BITVEC_NINT.
Proof. intros Hi. unfold BITVEC_HASH. by rewrite Z.mul_1_r, u32_id. Qed.

(** The slot [k] steps behind [s]. *)
Abbreviation slot s k := ((s + k) mod BITVEC_NINT).

Lemma slot_bounds s k : 0 <= slot s k < BITVEC_NINT.
Proof. apply Z.mod_pos_bound. reflexivity. Qed.

(** A probe stops at the first slot that is empty or holds its value. *)
Lemma probe_spec next x fuel l s :
  (forall s, 0 <= s < BITVEC_NINT -> next s = slot s 1) -> Z.of_nat (length l) = BITVEC_NINT ->
  0 <= s < BITVEC_NINT -> (exists d, 0 <= d < Z.of_nat fuel /\ at_ l (slot s d) = 0) ->
  exists d found, 0 <= d /\ probe next x fuel l s = Ret (slot s d, found)
    /\ (forall j, 0 <= j < d -> at_ l (slot s j) <> 0 /\ x <> Some (at_ l (slot s j)))
    /\ (if found : bool then x = Some (at_ l (slot s d)) /\ at_ l (slot s d) <> 0 else at_ l (slot s d) = 0).
Proof.
  intros Hnext Hl. revert s. induction fuel as [|fuel IH]; intros s Hs (d & Hd & Hz); [lia|].
  cbn [probe]. rewrite lookup_at by lia.
  assert (H0 : slot s 0 = s) by (rewrite Z.add_0_r; by apply Z.mod_small).
  destruct (Z.eqb_spec (at_ l s) 0) as [Hv|Hv].
  { exists 0, false. rewrite H0. split; [lia|]. split; [done|]. split; [lia|done]. }
  case_bool_decide as Hx.
  { exists 0, true. rewrite H0. split; [lia|]. split; [done|]. split; [lia|done]. }
  assert (Hslot : forall j, slot (slot s 1) j = slot s (j + 1)).
  { intros j. rewrite Zplus_mod_idemp_l. f_equal. lia. }
  rewrite Hnext by done.
  destruct (IH (slot s 1) (slot_bounds _ _)) as (d' & found & Hd' & Hp & Hbefore & Hat).
  - exists (d - 1). rewrite Hslot. replace (d - 1 + 1) with d by lia. split; [|done].
    destruct (Z.eq_dec d 0) as [-> |]; [congruence|lia].
  - rewrite Hslot in Hp, Hat. exists (d' + 1), found. split; [lia|]. split; [done|]. split; [|done].
    intros j Hj. destruct (Z.eq_dec j 0) as [-> |]; [by rewrite H0|].
    specialize (Hbefore (j - 1) ltac:(lia)). rewrite Hslot in Hbefore. by replace (j - 1 + 1) with j in Hbefore by lia.
Qed.

(** No empty slot between the home of [v] and the one [k] behind it. *)
Definition chain (l : list Z) (v k : Z) : Prop := forall j, 0 <= j < k -> at_ l (slot (v - 1) j) <> 0.

(** Every value is in the range and can be reached from its home. *)
Record hash_ok (size : Z) (l : list Z) : Prop := {
  h_length : Z.of_nat (length l) = BITVEC_NINT;
  h_used : used l < BITVEC_NINT;
  h_chain : forall s, 0 <= s < BITVEC_NINT -> at_ l s <> 0 ->
    1 <= at_ l s <= size /\ exists k, 0 <= k /\ s = slot (at_ l s - 1) k /\ chain l (at_ l s) k;
}.

(** Some slot behind [s] is empty. *)
Lemma free_ahead size l s : hash_ok size l -> 0 <= s < BITVEC_NINT ->
  exists d, 0 <= d < Z.of_nat SLOTS /\ at_ l (slot s d) = 0.
Proof.
  intros Hok Hs. destruct (free_slot l) as (f & Hf & Hz).
  { rewrite (h_length _ _ Hok). apply Hok. }
  rewrite (h_length _ _ Hok) in Hf. exists ((f - s) mod BITVEC_NINT).
  split; [by apply Z.mod_pos_bound|]. rewrite Zplus_mod_idemp_r.
  replace (s + (f - s)) with f by lia. by rewrite Z.mod_small.
Qed.

Lemma home v j : 1 <= v < 2 ^ 32 -> slot (BITVEC_HASH (v - 1)) j = slot (v - 1) j.
Proof. intros Hv. rewrite hash_id by lia. by rewrite Zplus_mod_idemp_l. Qed.

(** Looking for a value tells whether it is there, and where it could go. *)
Lemma hash_find next size l v :
  (forall s, 0 <= s < BITVEC_NINT -> next s = slot s 1) -> hash_ok size l -> 1 <= v < 2 ^ 32 ->
  exists k, 0 <= k /\ probe next (Some v) SLOTS l (BITVEC_HASH (v - 1)) = Ret (slot (v - 1) k, bool_decide (v ∈ l))
    /\ (v ∉ l -> at_ l (slot (v - 1) k) = 0 /\ chain l v k).
Proof.
  intros Hnext Hok Hv.
  destruct (probe_spec next (Some v) SLOTS l (BITVEC_HASH (v - 1)) Hnext (h_length _ _ Hok) (hash_range _)
    (free_ahead _ _ _ Hok (hash_range _))) as (k & found & Hk & Hp & Hbefore & Hat).
  rewrite home in Hp, Hat by done. exists k. split; [done|]. rewrite Hp.
  assert (Hch : chain l v k) by (intros j Hj; specialize (Hbefore j Hj); rewrite home in Hbefore by done; tauto).
  destruct found.
  - destruct Hat as [[= Hx] Hz].
    assert (Hin : v ∈ l) by (apply at_elem; [lia|exists (slot (v - 1) k); rewrite (h_length _ _ Hok); split; [apply slot_bounds|done]]).
    rewrite bool_decide_eq_true_2 by done. by split.
  - rewrite bool_decide_eq_false_2; [by repeat split|]. rewrite at_elem by lia.
    intros (s & Hs & Hx). rewrite (h_length _ _ Hok) in Hs.
    destruct (h_chain _ _ Hok s Hs ltac:(lia)) as (_ & k' & Hk' & Hsk & Hc). rewrite Hx in Hsk, Hc.
    destruct (Z.lt_trichotomy k k') as [Hlt|[->|Hgt]].
    + by apply (Hc k).
    + rewrite <- Hsk in Hat. lia.
    + destruct (Hbefore k') as [_ Hne]; [lia|]. rewrite home, <- Hsk, Hx in Hne by done. done.
Qed.

(** A value put into the first empty slot behind its home. *)
Lemma hash_place size l v k :
  hash_ok size l -> 1 <= v <= size -> used l + 1 < BITVEC_NINT -> 0 <= k ->
  at_ l (slot (v - 1) k) = 0 -> chain l v k ->
  let l' := <[Z.to_nat (slot (v - 1) k) := v]> l in
  hash_ok size l' /\ used l' = used l + 1 /\ forall x, x <> 0 -> x ∈ l' <-> x = v \/ x ∈ l.
Proof.
  intros Hok Hv Hu Hk Hz Hc l'. pose proof (slot_bounds (v - 1) k) as Hs. set (s := slot (v - 1) k) in *.
  pose proof (h_length _ _ Hok) as Hl.
  assert (Hat : forall s', 0 <= s' -> at_ l' s' = if s' =? s then v else at_ l s') by (intros; apply at_insert; lia).
  assert (Hused : used l' = used l + 1) by (apply used_insert; lia).
  assert (Hkeep : forall x k, chain l x k -> chain l' x k).
  { intros x k' Hx j Hj. rewrite Hat by apply slot_bounds. case_match; [lia|by apply Hx]. }
  split; [|split; [done|]].
  - split; [unfold l'; by rewrite length_insert|lia|].
    intros s' Hs'. rewrite Hat by lia. destruct (Z.eqb_spec s' s) as [->|Hne]; intros Hx.
    + split; [done|]. exists k. split; [done|]. split; [done|]. by apply Hkeep.
    + destruct (h_chain _ _ Hok s' Hs' Hx) as (Hr & k' & Hk' & Hsk & Hc'). split; [done|].
      exists k'. split; [done|]. split; [done|]. by apply Hkeep.
  - intros x Hx. rewrite !at_elem by done. unfold l'. rewrite length_insert. fold l'. split.
    + intros (s' & Hs' & <-). rewrite Hat by lia. case_match; [by left|right; by exists s'].
    + intros [-> |(s' & Hs' & <-)].
      * exists s. rewrite Hat by lia. rewrite Z.eqb_refl. split; [lia|done].
      * exists s'. rewrite Hat by lia. split; [done|]. destruct (Z.eqb_spec s' s) as [->|]; [congruence|done].
Qed.

Lemma hash_empty size : hash_ok size (replicate SLOTS 0).
Proof.
  split; [done|done|]. intros s _ Hs. by rewrite at_replicate in Hs.
Qed.

(** ** The abstraction: which bits an object holds *)

(** Bits are counted from 0 here; [n] is the number of levels. *)
Fixpoint mem (n : nat) (p : Bitvec) (i : Z) : bool :=
  match u p with
  | aBitmap l => Z.testbit (at_ l (i / 8)) (i mod 8)
  | aHash l => bool_decide (i + 1 ∈ l)
  | apSub l =>
      match n, l !! Z.to_nat (i / iDivisor p) with
      | S n, Some (Some q) => mem n q (i mod iDivisor p)
      | _, _ => false
      end
  end.

(** The blocks of memory of an object. *)
Fixpoint blocks (n : nat) (p : Bitvec) : Z :=
  match n, u p with
  | S n, apSub l => foldr (fun q b => from_option (blocks n) 0 q + b) 1 l
  | _, _ => 1
  end.

(** How large an object of [n] levels can be. *)
Definition levels (n : nat) : Z := BITVEC_NBIT * BITVEC_NPTR ^ Z.of_nat n.

Definition is_sub (p : Bitvec) : Prop := match u p with apSub _ => True | _ => False end.

(** The invariant. *)
Fixpoint wf (n : nat) (p : Bitvec) : Prop :=
  0 <= iSize p < 2 ^ 32 /\ iSize p <= levels n
  /\ match u p with
     | aBitmap l => iSize p <= BITVEC_NBIT /\ iDivisor p = 0 /\ Z.of_nat (length l) = BITVEC_NELEM
         /\ Forall (fun b => 0 <= b < 256) l
     | aHash l => BITVEC_NBIT < iSize p /\ iDivisor p = 0 /\ nSet p = used l /\ hash_ok (iSize p) l
     | apSub l => BITVEC_NBIT < iSize p /\ iDivisor p = (iSize p + BITVEC_NPTR - 1) / BITVEC_NPTR
         /\ Z.of_nat (length l) = BITVEC_NPTR
         /\ match n with
            | O => False
            | S n => Forall (fun o => match o with None => True | Some q => iSize q = iDivisor p /\ wf n q end) l
            end
     end.

Abbreviation in_size p i := (0 <= i < iSize p).

Lemma wf_size n p : wf n p -> 0 <= iSize p < 2 ^ 32.
Proof. destruct n; intros H; apply H. Qed.

(** The three shapes of a well-formed object. *)
Inductive shape : nat -> Bitvec -> Prop :=
| BitmapShape n size ns l : 0 <= size <= BITVEC_NBIT -> Z.of_nat (length l) = BITVEC_NELEM ->
    Forall (fun b => 0 <= b < 256) l -> shape n (mk_bitvec size ns 0 (aBitmap l))
| HashShape n size l : BITVEC_NBIT < size < 2 ^ 32 -> size <= levels n -> hash_ok size l ->
    shape n (mk_bitvec size (used l) 0 (aHash l))
| SubShape n size ns d l : BITVEC_NBIT < size < 2 ^ 32 -> size <= levels (S n) ->
    d = (size + BITVEC_NPTR - 1) / BITVEC_NPTR -> Z.of_nat (length l) = BITVEC_NPTR ->
    Forall (fun o => match o with None => True | Some q => iSize q = d /\ wf n q end) l ->
    shape (S n) (mk_bitvec size ns d (apSub l)).

Lemma levels_pos n : BITVEC_NBIT <= levels n.
Proof.
  unfold levels. change BITVEC_NBIT with 3968. pose proof (Z.pow_pos_nonneg BITVEC_NPTR (Z.of_nat n) ltac:(reflexivity) ltac:(lia)). lia.
Qed.

Lemma wf_shape n p : wf n p <-> shape n p.
Proof.
  assert (Hbit : 0 < BITVEC_NBIT < 2 ^ 32) by done. split.
  - destruct p as [size ns d [l|l|l]]; destruct n as [|n]; cbn [wf u iSize iDivisor nSet];
      intros (Hr & Hl & H); try (destruct H as (H1 & -> & H3 & H4); constructor; lia || done).
    + by destruct H as (H1 & -> & -> & H4); constructor; try lia.
    + by destruct H as (H1 & -> & -> & H4); constructor; try lia.
    + by destruct H as (_ & _ & _ & []).
  - intros Hs. destruct Hs as [n size ns l Hsz Hl Hb|n size l Hsz Hle Hh|n size ns d l Hsz Hle Hd Hl Hf].
    + pose proof (levels_pos n). destruct n; cbn [wf u iSize iDivisor nSet]; split_and!; done || lia.
    + destruct n; cbn [wf u iSize iDivisor nSet]; split_and!; done || lia.
    + cbn [wf u iSize iDivisor nSet]; split_and!; done || lia.
Qed.

(** The share of a sub-bitmap. *)
Lemma divisor_facts size : BITVEC_NBIT < size < 2 ^ 32 ->
  let d := (size + BITVEC_NPTR - 1) / BITVEC_NPTR in
  0 < d < size /\ u32 (u64 (size + BITVEC_NPTR - 1) / BITVEC_NPTR) = d
  /\ (forall n, size <= levels (S n) -> d <= levels n)
  /\ forall i, 0 <= i < size -> 0 <= i / d < BITVEC_NPTR /\ 0 <= i mod d < d.
Proof.
  intros Hs d. assert (Hd : 0 < d < size /\ size <= 62 * d).
  { unfold d. change BITVEC_NBIT with 3968 in *. change BITVEC_NPTR with 62.
    pose proof (Z.div_mod (size + 62 - 1) 62). pose proof (Z.mod_pos_bound (size + 62 - 1) 62). lia. }
  split; [lia|]. split; [|split].
  - rewrite u64_id by (change BITVEC_NPTR with 62; lia). fold d. apply u32_id. lia.
  - intros n Hn. unfold d, levels in *. rewrite Nat2Z.inj_succ, Z.pow_succ_r in Hn by lia.
    set (c := BITVEC_NPTR ^ Z.of_nat n) in *. change BITVEC_NPTR with 62 in *. change BITVEC_NBIT with 3968 in *.
    apply Z.lt_succ_r, Z.div_lt_upper_bound; lia.
  - intros i Hi. split; [|apply Z.mod_pos_bound; lia]. change BITVEC_NPTR with 62.
    split; [apply Z.div_pos; lia|apply Z.div_lt_upper_bound; lia].
Qed.

(** ** Lemmas: test *)

Lemma bitmap_index i : 0 <= i < BITVEC_NBIT -> 0 <= i / 8 < BITVEC_NELEM /\ 0 <= i mod 8 < 8.
Proof.
  change BITVEC_NBIT with 3968. change BITVEC_NELEM with 496. intros Hi.
  split; [|by apply Z.mod_pos_bound]. split; [apply Z.div_pos; lia|apply Z.div_lt_upper_bound; lia].
Qed.

Lemma bitmap_at_ok size ns d l i : 0 <= i < BITVEC_NBIT -> Z.of_nat (length l) = BITVEC_NELEM ->
  bitmap_at (mk_bitvec size ns d (aBitmap l)) (i / BITVEC_SZELEM) = Ret (at_ l (i / 8)).
Proof.
  intros Hi Hl. destruct (bitmap_index i Hi) as [Hk _]. unfold bitmap_at. cbn [u].
  change (i / BITVEC_SZELEM) with (i / 8). by rewrite lookup_at by lia.
Qed.

Lemma not_small size : BITVEC_NBIT < size -> (size <=? BITVEC_NBIT) = false.
Proof. apply Z.leb_gt. Qed.

Lemma sub_lookup (l : list (option Bitvec)) k : 0 <= k < Z.of_nat (length l) ->
  exists o, l !! Z.to_nat k = Some o.
Proof. intros Hk. apply lookup_lt_is_Some_2. lia. Qed.

(** The sub-bitmap that is responsible for a bit. *)
Lemma sub_step n size ns d (l : list (option Bitvec)) i :
  shape (S n) (mk_bitvec size ns d (apSub l)) -> 0 <= i < size ->
  0 < d < size /\ (d =? 0) = false /\ 0 <= i / d < Z.of_nat (length l) /\ 0 <= i mod d < d
  /\ exists o, l !! Z.to_nat (i / d) = Some o
     /\ sub_at (mk_bitvec size ns d (apSub l)) (i / d) = Ret o
     /\ match o with None => True | Some q => iSize q = d /\ wf n q end.
Proof.
  intros Hs Hi. inversion Hs as [| |? ? ? ? ? Hsz Hle Hd Hl Hf]; subst.
  destruct (divisor_facts size Hsz) as (Hd & _ & _ & Hbin). cbn zeta in *.
  set (d := (size + BITVEC_NPTR - 1) / BITVEC_NPTR) in *.
  destruct (Hbin i Hi) as [Hb Hm]. rewrite <- Hl in Hb.
  split; [done|]. split; [apply Z.eqb_neq; lia|]. split; [done|]. split; [done|].
  destruct (sub_lookup l _ Hb) as [o Ho]. exists o. split; [done|]. split; [|by eapply Forall_lookup in Hf].
  unfold sub_at. cbn [u]. by rewrite Ho.
Qed.

Lemma mem_sub n size ns d (l : list (option Bitvec)) i o : l !! Z.to_nat (i / d) = Some o ->
  mem (S n) (mk_bitvec size ns d (apSub l)) i = match o with None => false | Some q => mem n q (i mod d) end.
Proof. intros Ho. cbn [mem u iDivisor]. by rewrite Ho. Qed.

Lemma mem_bitmap n size ns d l i : mem n (mk_bitvec size ns d (aBitmap l)) i = Z.testbit (at_ l (i / 8)) (i mod 8).
Proof. by destruct n. Qed.
Lemma mem_hash n size ns d l i : mem n (mk_bitvec size ns d (aHash l)) i = bool_decide (i + 1 ∈ l).
Proof. by destruct n. Qed.

Lemma test_from_ok n p i fuel : wf n p -> in_size p i -> (n < fuel)%nat -> test_from fuel p i = Ret (mem n p i).
Proof.
  revert n p i. induction fuel as [|fuel IH]; [lia|]. intros n p i Hw%wf_shape Hi Hf. cbn [test_from].
  destruct Hw as [n size ns l Hsz Hl Hb|n size l Hsz Hle Hh|n size ns d l Hsz Hle Hd Hl Hfa];
    cbn [iDivisor iSize] in *.
  - rewrite Z.eqb_refl. cbn [negb]. rewrite (proj2 (Z.leb_le _ _)) by lia.
    destruct (bitmap_index i) as [Hk Hm]; [lia|]. rewrite bitmap_at_ok by (done || lia). cbn [mbind outcome_bind].
    by rewrite land_7, land_pow2, negb_involutive, mem_bitmap by lia.
  - rewrite Z.eqb_refl, not_small by lia. cbn [negb hash_of u mbind outcome_bind].
    rewrite u32_id by lia.
    destruct (hash_find next_mod size l (i + 1) next_mod_spec Hh) as (k & Hk & Hp & _); [lia|].
    replace (i + 1 - 1) with i in Hp by lia. rewrite Hp. cbn [mbind outcome_bind]. by rewrite mem_hash.
  - assert (Hs : shape (S n) (mk_bitvec size ns d (apSub l))) by by constructor.
    destruct (sub_step n size ns d l i Hs Hi) as (Hd' & -> & Hb & Hm & o & Ho & Hat & Hq).
    cbn [negb]. rewrite Hat. cbn [mbind outcome_bind]. rewrite (mem_sub _ _ _ _ _ _ o) by done.
    destruct o as [q|]; [|done]. destruct Hq as [Hsq Hwq]. apply IH; [done|lia|lia].
Qed.

(** ** Lemmas: fresh memory *)

Lemma elem_zeros k x : x <> 0 -> x ∉ replicate k 0.
Proof. intros Hx [? _]%elem_of_replicate. done. Qed.

Lemma fresh_ok n size : 0 <= size < 2 ^ 32 -> size <= levels n ->
  let p := mk_bitvec size 0 0 (zero_union size 0) in
  wf n p /\ blocks n p = 1 /\ forall j, 0 <= j -> mem n p j = false.
Proof.
  intros Hs Hl p. unfold p, zero_union. rewrite Z.eqb_refl.
  destruct (Z.leb_spec size BITVEC_NBIT).
  - split; [|split; [by destruct n|]].
    + apply wf_shape. constructor; [lia|done|]. apply Forall_replicate. lia.
    + intros j _. by rewrite mem_bitmap, at_replicate, Z.testbit_0_l.
  - split; [|split; [by destruct n|]].
    + apply wf_shape. change 0 with (used (replicate SLOTS 0)) at 1. constructor; [lia|done|apply hash_empty].
    + intros j Hj. rewrite mem_hash. apply bool_decide_eq_false_2, elem_zeros. lia.
Qed.

(** What a rehash starts from. *)
Lemma blank_ok n size ns : BITVEC_NBIT < size < 2 ^ 32 -> size <= levels (S n) ->
  let d := u32 (u64 (size + BITVEC_NPTR - 1) / BITVEC_NPTR) in
  let p := mk_bitvec size ns d (zero_union size d) in
  wf (S n) p /\ is_sub p /\ blocks (S n) p = 1 /\ forall j, in_size p j -> mem (S n) p j = false.
Proof.
  intros Hs Hl d p. destruct (divisor_facts size Hs) as (Hd & Hdiv & _ & Hbin). cbn zeta in *. fold d in Hdiv.
  unfold p, zero_union. rewrite not_small, (proj2 (Z.eqb_neq d 0)) by lia.
  split; [|split; [done|split; [done|]]].
  - apply wf_shape. constructor; try done. by apply Forall_replicate.
  - cbn [iSize]. intros j Hj. rewrite <- Hdiv in Hbin. rewrite (mem_sub _ _ _ _ _ _ None); [done|].
    apply lookup_replicate. split; [done|]. specialize (Hbin j Hj). change BITVEC_NPTR with 62 in *. lia.
Qed.

(** A hash table is only used where a level below is left. *)
Lemma level_below n size : BITVEC_NBIT < size -> size <= levels n -> exists m, n = S m.
Proof. destruct n as [|n]; [|by eexists]. change (levels 0) with BITVEC_NBIT. lia. Qed.

Lemma blocks_put n (l : list (option Bitvec)) k o q : l !! k = Some o ->
  foldr (fun q b => from_option (blocks n) 0 q + b) 1 (<[k := Some q]> l)
  = foldr (fun q b => from_option (blocks n) 0 q + b) 1 l - from_option (blocks n) 0 o + blocks n q.
Proof.
  revert k. induction l as [|o' l IH]; intros [|k] Hk; try done.
  - injection Hk as ->. cbn. lia.
  - change (<[S k := Some q]> (o' :: l)) with (o' :: <[k := Some q]> l). cbn [foldr]. rewrite (IH k) by done. lia.
Qed.

(** ** Lemmas: set *)

Section SetFacts.
Context `{Build}.
Variable malloc : nat -> bool.

Definition refused (h h' : heap) : Prop := exists k, (asked h <= k < asked h')%nat /\ malloc k = false.
Definition granted (h h' : heap) : Prop := forall k, (asked h <= k < asked h')%nat -> malloc k = true.

(** The code tells exactly whether a request was refused on the way. *)
Definition reports (rc : Z) (h h' : heap) : Prop :=
  (rc = SQLITE_OK /\ granted h h') \/ (rc = SQLITE_NOMEM /\ refused h h').

Lemma reports_same h h' : asked h' = asked h -> reports SQLITE_OK h h'.
Proof. intros E. left. split; [done|]. intros k Hk. lia. Qed.

Lemma reports_granted h h' : malloc (asked h) = true -> asked h' = S (asked h) -> reports SQLITE_OK h h'.
Proof. intros Hm E. left. split; [done|]. intros k Hk. by replace k with (asked h) by lia. Qed.

Lemma reports_refused h h' : malloc (asked h) = false -> asked h' = S (asked h) -> reports SQLITE_NOMEM h h'.
Proof. intros Hm E. right. split; [done|]. exists (asked h). split; [lia|done]. Qed.

Lemma reports_trans rc rc' h h1 h2 : (asked h <= asked h1 <= asked h2)%nat ->
  reports rc h h1 -> reports rc' h1 h2 -> reports (Z.lor rc rc') h h2.
Proof.
  intros Ha [[-> G]|[-> (k & Hk & Hm)]] [[-> G']|[-> (k' & Hk' & Hm')]].
  - left. split; [done|]. intros k Hk. destruct (Nat.lt_ge_cases k (asked h1)); [apply G|apply G']; lia.
  - right. split; [done|]. exists k'. split; [lia|done].
  - right. split; [done|]. exists k. split; [lia|done].
  - right. split; [done|]. exists k. split; [lia|done].
Qed.

(** What setting bits comes to: no other bit is set, with SQLITE_OK none is
    lost, and without it a request was refused; the count of live blocks follows the
    size of the object. *)
Record set_post n p h (added : Z -> Prop) rc p' h' : Prop := {
  sp_wf : wf n p';
  sp_size : iSize p' = iSize p;
  sp_sub : is_sub p -> is_sub p';
  sp_only : forall j, in_size p j -> mem n p' j = true -> mem n p j = true \/ added j;
  sp_all : rc = SQLITE_OK -> forall j, in_size p j -> mem n p j = true \/ added j -> mem n p' j = true;
  sp_rc : reports rc h h';
  sp_asked : (asked h <= asked h')%nat;
  sp_live : live h' - blocks n p' = live h - blocks n p;
}.

Lemma set_post_trans n p h A rc p1 h1 B rc' p2 h2 :
  set_post n p h A rc p1 h1 -> set_post n p1 h1 B rc' p2 h2 ->
  set_post n p h (fun j => A j \/ B j) (Z.lor rc rc') p2 h2.
Proof.
  intros P1 P2. pose proof (sp_size _ _ _ _ _ _ _ P1) as Hsz.
  pose proof (sp_asked _ _ _ _ _ _ _ P1) as Ha1. pose proof (sp_asked _ _ _ _ _ _ _ P2) as Ha2.
  split.
  - apply P2.
  - by rewrite (sp_size _ _ _ _ _ _ _ P2).
  - intros Hp. by apply P2, P1.
  - intros j Hj Hm. destruct (sp_only _ _ _ _ _ _ _ P2 j) as [Hm1|HB]; [by rewrite Hsz|done| |by right; right].
    destruct (sp_only _ _ _ _ _ _ _ P1 j Hj Hm1); tauto.
  - intros Hor j Hj Hm. apply Z.lor_eq_0_iff in Hor as [-> ->].
    apply (sp_all _ _ _ _ _ _ _ P2); [done|by rewrite Hsz|].
    destruct Hm as [Hm|[Hm|Hm]]; [left; apply (sp_all _ _ _ _ _ _ _ P1); tauto..|by right].
  - eapply reports_trans; [|apply P1|apply P2].
    pose proof (sp_asked _ _ _ _ _ _ _ P1). pose proof (sp_asked _ _ _ _ _ _ _ P2). lia.
  - lia.
  - rewrite (sp_live _ _ _ _ _ _ _ P2). apply P1.
Qed.

Lemma set_post_refl n p h : wf n p -> set_post n p h (fun _ => False) SQLITE_OK p h.
Proof. intros Hw. split; try done; tauto || by apply reports_same. Qed.

Lemma set_post_weaken n p h A B rc p' h' :
  (forall j, in_size p j -> A j <-> B j) -> set_post n p h A rc p' h' -> set_post n p h B rc p' h'.
Proof.
  intros Hab P. split; try apply P.
  - intros j Hj Hm. rewrite <- Hab by done. by apply (sp_only _ _ _ _ _ _ _ P).
  - intros Hrc j Hj Hm. apply (sp_all _ _ _ _ _ _ _ P); [done..|]. by rewrite Hab.
Qed.

(** The loop over the saved values, for any way to set one that keeps its
    promise on sub-divided objects. *)
Lemma reinsert_ok n size set vs rc p h :
  (forall p v h, wf n p -> is_sub p -> iSize p = size -> 1 <= v <= size ->
     exists rc p' h', set p v h = Ret (rc, p', h') /\ set_post n p h (eq (v - 1)) rc p' h') ->
  wf n p -> is_sub p -> iSize p = size -> Forall (fun v => v = 0 \/ 1 <= v <= size) vs ->
  exists rc' p' h', reinsert set vs rc p h = Ret (Z.lor rc rc', p', h')
    /\ set_post n p h (fun j => j + 1 ∈ vs) rc' p' h'.
Proof.
  intros Hset. revert rc p h. induction vs as [|v vs IH]; intros rc p h Hw Hsub Hsz Hvs; cbn [reinsert].
  { exists SQLITE_OK, p, h. rewrite Z.lor_0_r. split; [done|].
    eapply set_post_weaken; [|by apply set_post_refl]. intros j _. by rewrite elem_of_nil. }
  apply Forall_cons in Hvs as [Hv Hvs]. destruct (Z.eqb_spec v 0) as [->|Hne].
  - destruct (IH rc p h) as (rc' & p' & h' & -> & P); try done. exists rc', p', h'. split; [done|].
    eapply set_post_weaken; [|exact P]. intros j Hj. cbn. rewrite elem_of_cons. intuition lia.
  - destruct (Hset p v h) as (rc1 & p1 & h1 & -> & P1); [done..|lia|]. cbn [mbind outcome_bind].
    destruct (IH (Z.lor rc rc1) p1 h1) as (rc2 & p2 & h2 & -> & P2);
      [apply P1|by apply P1|by rewrite (sp_size _ _ _ _ _ _ _ P1)|done|].
    exists (Z.lor rc1 rc2), p2, h2. rewrite Z.lor_assoc. split; [done|].
    eapply set_post_weaken; [|by eapply set_post_trans]. intros j Hj. cbn. rewrite elem_of_cons. intuition lia.
Qed.

(** One byte of a bitmap changed: [b] gets the bit [i mod 8] set or cleared. *)
Lemma bitmap_update n size ns l i b (v : bool) : 0 <= i < size -> size <= BITVEC_NBIT ->
  Z.of_nat (length l) = BITVEC_NELEM -> Forall (fun b => 0 <= b < 256) l ->
  0 <= b < 256 -> (forall k, 0 <= k -> Z.testbit b k = if k =? i mod 8 then v else Z.testbit (at_ l (i / 8)) k) ->
  let p := mk_bitvec size ns 0 (aBitmap (<[Z.to_nat (i / 8) := b]> l)) in
  wf n p /\ forall j, 0 <= j < size -> mem n p j = if j =? i then v else mem n (mk_bitvec size ns 0 (aBitmap l)) j.
Proof.
  intros Hi Hsz Hl Hb Hbr Hbit p. destruct (bitmap_index i) as [Hk Hm]; [lia|]. split.
  - apply wf_shape. constructor; [lia|by rewrite length_insert|by apply Forall_insert].
  - intros j Hj. unfold p. rewrite !mem_bitmap.
    destruct (bitmap_index j) as [Hkj Hmj]; [lia|]. rewrite at_insert by lia.
    destruct (Z.eqb_spec (j / 8) (i / 8)) as [E|E].
    + rewrite Hbit by lia. rewrite E. destruct (Z.eqb_spec (j mod 8) (i mod 8)) as [E'|E'].
      * rewrite (proj2 (Z.eqb_eq j i)); [done|]. rewrite (Z.div_mod j 8), (Z.div_mod i 8), E, E' by lia. done.
      * by destruct (Z.eqb_spec j i) as [->|].
    + by destruct (Z.eqb_spec j i) as [->|].
Qed.

Lemma byte_bounds b : (forall k, 8 <= k -> Z.testbit b k = false) -> 0 <= b -> 0 <= b < 256.
Proof. intros Hb H0. by apply (range_of_bits b 8). Qed.

Lemma at_byte l k : Forall (fun b => 0 <= b < 256) l -> 0 <= at_ l k < 256.
Proof.
  intros Hl. unfold at_. destruct (nth_in_or_default (Z.to_nat k) l 0) as [Hin| ->]; [|lia].
  rewrite Forall_forall in Hl. by apply Hl, list_elem_of_In.
Qed.

Lemma set_bitmap_ok n size ns l i h : 0 <= i < size -> size <= BITVEC_NBIT ->
  Z.of_nat (length l) = BITVEC_NELEM -> Forall (fun b => 0 <= b < 256) l ->
  let p := mk_bitvec size ns 0 (aBitmap l) in
  set_post n p h (eq i) SQLITE_OK (put_bitmap p (i / BITVEC_SZELEM) (Z.lor (at_ l (i / 8)) (Z.shiftl 1 (i mod 8)))) h.
Proof.
  intros Hi Hsz Hl Hb p. destruct (bitmap_index i) as [_ Hm]; [lia|].
  pose proof (at_byte l (i / 8) Hb) as Hr.
  destruct (bitmap_update n size ns l i (Z.lor (at_ l (i / 8)) (Z.shiftl 1 (i mod 8))) true) as [Hw Hmem]; try done.
  - apply byte_bounds; [|apply Z.lor_nonneg; rewrite Z.shiftl_nonneg; lia].
    intros k Hk. rewrite lor_pow2, (testbit_high (at_ l (i / 8)) 8) by lia. cbn. apply Z.eqb_neq. lia.
  - intros k Hk. rewrite lor_pow2, (Z.eqb_sym k) by lia. destruct (i mod 8 =? k); by rewrite ?orb_true_r, ?orb_false_r.
  - split; try done; try (by apply reports_same); try lia; [| |by destruct n].
    + intros j Hj Hjm. cbn [put_bitmap p] in Hjm. change (i / BITVEC_SZELEM) with (i / 8) in Hjm.
      rewrite Hmem in Hjm by done. destruct (Z.eqb_spec j i); auto.
    + intros _ j Hj Hjm. cbn [put_bitmap p]. change (i / BITVEC_SZELEM) with (i / 8).
      rewrite Hmem by done. destruct (Z.eqb_spec j i) as [->|]; [done|]. by destruct Hjm.
Qed.

(** A value of the table put into its slot. *)
Lemma set_end_ok n size l i h k : BITVEC_NBIT < size < 2 ^ 32 -> size <= levels n -> hash_ok size l ->
  0 <= i < size -> used l < BITVEC_NINT - 1 -> 0 <= k -> at_ l (slot i k) = 0 -> chain l (i + 1) k ->
  let p := mk_bitvec size (used l) 0 (aHash l) in
  exists p', set_end p l (slot i k) (i + 1) h = Ret (SQLITE_OK, p', h)
    /\ set_post n p h (eq i) SQLITE_OK p' h.
Proof.
  intros Hs Hle Hh Hi Hu Hk Hz Hc p. eexists. split; [reflexivity|]. cbn [put_hash p nSet].
  assert (Hi1 : i + 1 - 1 = i) by lia.
  destruct (hash_place size l (i + 1) k) as (Hh' & Hu' & Hin); rewrite ?Hi1; [done|lia|lia|done..|].
  rewrite Hi1 in Hh', Hu', Hin. set (l' := <[Z.to_nat (slot i k) := i + 1]> l) in *.
  pose proof (used_bounds l). rewrite u32_id, <- Hu' by (change BITVEC_NINT with 124 in *; lia).
  assert (Hmem : forall j, 0 <= j < size -> mem n (mk_bitvec size (used l') 0 (aHash l')) j = true
                  <-> mem n p j = true \/ i = j).
  { intros j Hj. unfold p. rewrite !mem_hash, !bool_decide_eq_true, Hin by lia. intuition lia. }
  split; try done; try (by apply reports_same); try lia; [apply wf_shape; by constructor|intros j Hj; by apply Hmem| |by destruct n].
  intros _ j Hj. by apply Hmem.
Qed.

(** The saved values of a table. *)
Lemma hash_values size l : hash_ok size l -> Forall (fun v => v = 0 \/ 1 <= v <= size) l.
Proof.
  intros Hh. apply Forall_lookup_2. intros k v Hk. destruct (Z.eq_dec v 0) as [->|Hv]; [by left|right].
  pose proof (lookup_lt_Some _ _ _ Hk). pose proof (h_length _ _ Hh).
  assert (Hat : at_ l (Z.of_nat k) = v) by (unfold at_; rewrite Nat2Z.id; by apply nth_lookup_Some).
  destruct (h_chain _ _ Hh (Z.of_nat k)) as [Hr _]; [lia|congruence|]. by rewrite Hat in Hr.
Qed.

(** The rehash, given what one call can set on a sub-divided object. *)
Lemma set_rehash_ok n size l i h k set : BITVEC_NBIT < size < 2 ^ 32 -> size <= levels n -> hash_ok size l ->
  0 <= i < size -> 0 <= k -> at_ l (slot i k) = 0 -> chain l (i + 1) k ->
  (forall p v h, wf n p -> is_sub p -> iSize p = size -> 1 <= v <= size ->
     exists rc p' h', set p v h = Ret (rc, p', h') /\ set_post n p h (eq (v - 1)) rc p' h') ->
  let p := mk_bitvec size (used l) 0 (aHash l) in
  exists rc p' h', set_rehash malloc set p l (slot i k) (i + 1) h = Ret (rc, p', h')
    /\ set_post n p h (eq i) rc p' h'.
Proof.
  intros Hs Hle Hh Hi Hk Hz Hc Hset p. unfold set_rehash. cbn [nSet p].
  assert (Hwp : wf n p) by (apply wf_shape; by constructor).
  destruct (Z.leb_spec BITVEC_MXHASH (used l)) as [Hmx|Hmx].
  2: { destruct (set_end_ok n size l i h k) as (p' & He & P); try done; [|by eauto].
       change BITVEC_MXHASH with 62 in Hmx. change BITVEC_NINT with 124. lia. }
  destruct (level_below n size) as [m ->]; [lia|done|]. unfold request. cbn [fst snd].
  destruct (malloc (asked h)) eqn:Hm; cbn [negb].
  2: { exists SQLITE_NOMEM, p. eexists. split; [reflexivity|]. split; cbn; try done; try tauto; try lia.
       by apply reports_refused. }
  cbn [iSize nSet p]. destruct (blank_ok m size (used l) ltac:(lia) Hle) as (Hwb & Hsb & Hbb & Hmb). cbn zeta in *.
  set (b := mk_bitvec size (used l) (u32 _) _) in *. set (h1 := {| asked := S (asked h); live := live h + 1 |}).
  destruct (Hset b (i + 1) h1) as (rc1 & p1 & h2 & -> & P1); [done..|lia|]. cbn [mbind outcome_bind].
  destruct (reinsert_ok (S m) size set l rc1 p1 h2) as (rc2 & p2 & h3 & -> & P2);
    [done|apply P1|by apply P1|by rewrite (sp_size _ _ _ _ _ _ _ P1)|by apply hash_values|].
  cbn [mbind outcome_bind]. eexists _, p2, _. split; [reflexivity|].
  pose proof (set_post_trans _ _ _ _ _ _ _ _ _ _ _ P1 P2) as P.
  assert (Hmem : forall j, 0 <= j < size -> mem (S m) p j = true \/ i = j
                   <-> i + 1 - 1 = j \/ j + 1 ∈ l).
  { intros j Hj. unfold p. rewrite mem_hash, bool_decide_eq_true. intuition lia. }
  pose proof (sp_asked _ _ _ _ _ _ _ P) as Hak. cbn in Hak.
  split; try done.
  - apply P.
  - by rewrite (sp_size _ _ _ _ _ _ _ P).
  - intros j Hj Hjm. rewrite Hmem by done. destruct (sp_only _ _ _ _ _ _ _ P j Hj Hjm) as [Hbad|]; [|done].
    by rewrite Hmb in Hbad.
  - intros Hrc j Hj Hjm. apply (sp_all _ _ _ _ _ _ _ P Hrc j Hj). right. by rewrite <- Hmem.
  - apply (reports_trans SQLITE_OK _ h h1); [cbn; lia|by apply reports_granted|]. apply P.
  - cbn. lia.
  - pose proof (sp_live _ _ _ _ _ _ _ P) as Hlv. rewrite Hbb in Hlv. cbn in *. lia.
Qed.

(** A bit set in a sub-bitmap, or in a new one, is set in the whole. *)
Lemma div_mod_inj i j d : 0 < d -> i / d = j / d -> i mod d = j mod d -> i = j.
Proof. intros Hd Hq Hr. rewrite (Z.div_mod i d), (Z.div_mod j d), Hq, Hr by lia. done. Qed.

(** A sub-bitmap replaced: what the whole holds then. *)
Lemma put_sub_ok n size ns d l i q : shape (S n) (mk_bitvec size ns d (apSub l)) -> 0 <= i < size ->
  iSize q = d -> wf n q ->
  let p := mk_bitvec size ns d (apSub l) in
  wf (S n) (put_sub p (i / d) q)
  /\ forall j, 0 <= j < size ->
       mem (S n) (put_sub p (i / d) q) j = if j / d =? i / d then mem n q (j mod d) else mem (S n) p j.
Proof.
  intros Hs Hi Hq Hwq p. destruct (sub_step n size ns d l i Hs Hi) as (_ & _ & Hb & _ & o & Ho & _).
  split.
  - apply wf_shape. cbn [put_sub p]. inversion Hs; subst. constructor; try done; [by rewrite length_insert|].
    by apply Forall_insert.
  - intros j Hj. cbn [put_sub p]. destruct (sub_step n size ns d l j Hs Hj) as (_ & _ & Hbj & _ & oj & Hoj & _).
    destruct (Z.eqb_spec (j / d) (i / d)) as [E|E].
    + rewrite (mem_sub _ _ _ _ _ _ (Some q)); [done|]. rewrite E. apply list_lookup_insert_eq. by apply lookup_lt_Some in Ho.
    + rewrite (mem_sub _ _ _ _ _ _ oj); [unfold p; by rewrite (mem_sub _ _ _ _ _ _ oj)|]. rewrite list_lookup_insert_ne; [done|lia].
Qed.

(** [q0] stands for what was in the slot: [None], or the sub-bitmap before. *)
Lemma set_sub_ok n size ns d l i o q h0 h rc q' h' :
  let p := mk_bitvec size ns d (apSub l) in
  shape (S n) p -> 0 <= i < size -> l !! Z.to_nat (i / d) = Some o -> iSize q = d ->
  (forall j, 0 <= j < d -> mem n q j = from_option (fun q0 => mem n q0 j) false o) ->
  (asked h0 <= asked h)%nat -> reports SQLITE_OK h0 h -> live h - blocks n q = live h0 - from_option (blocks n) 0 o ->
  set_post n q h (eq (i mod d)) rc q' h' ->
  set_post (S n) p h0 (eq i) rc (put_sub p (i / d) q') h'.
Proof.
  intros p Hs Hi Ho Hq Hmem Ha Hrep Hlv P. pose proof (sp_size _ _ _ _ _ _ _ P) as Hq'. rewrite Hq in Hq'.
  destruct (put_sub_ok n size ns d l i q' Hs Hi Hq') as [Hw Hput]; [apply P|]. fold p in Hw, Hput.
  destruct (sub_step n size ns d l i Hs Hi) as (Hd & _ & _ & Him & _).
  assert (Hold : forall j, 0 <= j < size -> j / d = i / d -> mem (S n) p j = mem n q (j mod d)).
  { intros j Hj E. unfold p. rewrite (mem_sub _ _ _ _ _ _ o) by by rewrite E.
    rewrite Hmem by (apply Z.mod_pos_bound; lia). by destruct o. }
  split; [done|done|done| | | | |].
  - intros j Hj Hjm. rewrite Hput in Hjm by done. destruct (Z.eqb_spec (j / d) (i / d)) as [E|E]; [|by left].
    rewrite Hold by done. apply (sp_only _ _ _ _ _ _ _ P) in Hjm; [|rewrite Hq; apply Z.mod_pos_bound; lia].
    destruct Hjm as [|Hjm]; [by left|right]. apply (div_mod_inj _ _ d); lia.
  - intros Hrc j Hj Hjm. rewrite Hput by done. destruct (Z.eqb_spec (j / d) (i / d)) as [E|E].
    + apply (sp_all _ _ _ _ _ _ _ P Hrc); [rewrite Hq; apply Z.mod_pos_bound; lia|].
      rewrite Hold in Hjm by done. destruct Hjm as [|<-]; [by left|by right].
    + destruct Hjm as [|<-]; done.
  - apply (reports_trans SQLITE_OK rc h0 h); [|done|apply P]. pose proof (sp_asked _ _ _ _ _ _ _ P). lia.
  - pose proof (sp_asked _ _ _ _ _ _ _ P). lia.
  - pose proof (sp_live _ _ _ _ _ _ _ P). cbn [blocks put_sub p u]. rewrite (blocks_put _ _ _ o) by done. lia.
Qed.

Definition need (n : nat) (p : Bitvec) : nat := (2 * n + match u p with apSub _ => 0 | _ => 1 end)%nat.

Lemma checked_ok set p i h : 1 <= i <= iSize p -> 0 <= iSize p < 2 ^ 32 -> checked set p i h = set p (i - 1) h.
Proof.
  intros Hi Hs. unfold checked. rewrite (assert_true (0 <? i)) by (apply Z.ltb_lt; lia). cbn [mbind outcome_bind].
  rewrite assert_true by (apply Z.leb_le; lia). cbn [mbind outcome_bind]. by rewrite u32_id by lia.
Qed.

Lemma set_from_ok fuel n p i h : wf n p -> in_size p i -> (need n p <= fuel)%nat ->
  exists rc p' h', set_from malloc fuel p i h = Ret (rc, p', h') /\ set_post n p h (eq i) rc p' h'.
Proof.
  revert n p i h. induction fuel as [|fuel IH]; intros n p i h Hw%wf_shape Hi Hf.
  { exfalso. destruct Hw; unfold need in Hf; cbn in Hf; lia. }
  assert (Hrec : forall size m, (2 * m <= fuel)%nat -> forall p v h, wf m p -> is_sub p -> iSize p = size -> 1 <= v <= size ->
    exists rc p' h', checked (set_from malloc fuel) p v h = Ret (rc, p', h') /\ set_post m p h (eq (v - 1)) rc p' h').
  { intros size m Hm q v hq Hwq Hsq <- Hv. rewrite checked_ok by (done || by eapply wf_size).
    apply IH; [done|lia|]. unfold need. destruct q as [? ? ? []]; try done. cbn [u]. lia. }
  cbn [set_from]. destruct Hw as [n size ns l Hsz Hl Hb|n size l Hsz Hle Hh|n size ns d l Hsz Hle Hd Hl Hfa];
    cbn [iSize iDivisor nSet] in *.
  - rewrite Z.eqb_refl, andb_false_r, (proj2 (Z.leb_le _ _)) by lia.
    rewrite bitmap_at_ok by (done || lia). cbn [mbind outcome_bind]. rewrite land_7.
    eexists _, _, _. split; [reflexivity|]. apply set_bitmap_ok; done || lia.
  - rewrite Z.eqb_refl, andb_false_r, not_small by lia. cbn [hash_of u mbind outcome_bind].
    rewrite u32_id by lia. rewrite lookup_at by (rewrite (h_length _ _ Hh); apply hash_range).
    assert (H0 : BITVEC_HASH i = slot i 0) by (rewrite Z.add_0_r; apply hash_id; lia).
    destruct (Z.eqb_spec (at_ l (BITVEC_HASH i)) 0) as [Hz|Hz].
    + rewrite H0 in *. assert (Hc : chain l (i + 1) 0) by (intros j Hj; lia).
      destruct (Z.ltb_spec (used l) (BITVEC_NINT - 1)).
      * destruct (set_end_ok n size l i h 0) as (p' & -> & P); try done; try lia. by eauto.
      * apply set_rehash_ok; try done; try lia. apply Hrec. unfold need in Hf. cbn in Hf. lia.
    + destruct (hash_find next_wrap size l (i + 1) next_wrap_spec Hh) as (k & Hk & Hp & Hfree); [lia|].
      replace (i + 1 - 1) with i in Hp, Hfree by lia. rewrite Hp. cbn [mbind outcome_bind].
      case_bool_decide as Hin.
      * eexists _, _, _. split; [reflexivity|]. split; try done; try tauto; [apply wf_shape; by constructor| |by apply reports_same].
        intros _ j Hj [|<-]; [done|]. rewrite mem_hash. by apply bool_decide_eq_true_2.
      * destruct (Hfree Hin) as [Hz' Hc]. apply set_rehash_ok; try done. apply Hrec. unfold need in Hf. cbn in Hf. lia.
  - assert (Hs : shape (S n) (mk_bitvec size ns d (apSub l))) by by constructor.
    destruct (sub_step n size ns d l i Hs Hi) as (Hd' & -> & Hb & Hm & o & Ho & -> & Hq).
    rewrite (proj2 (Z.ltb_lt _ _)) by lia. cbn [negb andb mbind outcome_bind]. unfold need in Hf. cbn in Hf.
    destruct o as [q|].
    + destruct Hq as [Hsq Hwq]. destruct (IH n q (i mod d) h Hwq) as (rc & q' & h' & -> & P);
        [lia|unfold need; case_match; lia|]. cbn [mbind outcome_bind]. eexists _, _, _. split; [reflexivity|].
      eapply set_sub_ok; (done || by apply reports_same).
    + destruct (divisor_facts size ltac:(lia)) as (_ & _ & Hlv & _). cbn zeta in Hlv. rewrite <- Hd in Hlv.
      destruct (fresh_ok n d ltac:(lia) (Hlv n Hle)) as (Hwq & Hbq & Hmq). cbn zeta in *.
      unfold sqlite3BitvecCreate, request. destruct (malloc (asked h)) eqn:Hmal.
      * set (h1 := {| asked := S (asked h); live := live h + 1 |}).
        destruct (IH n _ (i mod d) h1 Hwq) as (rc & q' & h' & -> & P);
          [cbn [iSize]; lia|unfold need; case_match; lia|]. cbn [mbind outcome_bind]. eexists _, _, _. split; [reflexivity|].
        refine (set_sub_ok _ _ _ _ _ _ None (mk_bitvec d 0 0 (zero_union d 0)) _ _ _ _ _ Hs Hi Ho eq_refl _ _ _ _ P); [intros j Hj; apply Hmq; lia|cbn; lia|by apply reports_granted|cbn in *; lia].
      * eexists SQLITE_NOMEM, _, _. split; [reflexivity|].
        split; try done; try tauto; cbn [live asked]; try lia; [by apply wf_shape|].
        by apply reports_refused.
Qed.

End SetFacts.

(** ** Lemmas: clear *)

(** A probe without a value ends at the first empty slot. *)
Lemma hash_free size l v : hash_ok size l -> 1 <= v < 2 ^ 32 ->
  exists k, 0 <= k /\ probe next_wrap None SLOTS l (BITVEC_HASH (v - 1)) = Ret (slot (v - 1) k, false)
    /\ at_ l (slot (v - 1) k) = 0 /\ chain l v k.
Proof.
  intros Hok Hv.
  destruct (probe_spec next_wrap None SLOTS l (BITVEC_HASH (v - 1)) next_wrap_spec (h_length _ _ Hok) (hash_range _)
    (free_ahead _ _ _ Hok (hash_range _))) as (k & [|] & Hk & Hp & Hbefore & Hat); [by destruct Hat|].
  rewrite home in Hp, Hat by done. exists k. split; [done|]. split; [done|]. split; [done|].
  intros j Hj. rewrite <- home by done. by apply Hbefore.
Qed.

Lemma rebuild_ok size gone vs l : size < 2 ^ 32 -> hash_ok size l -> Forall (fun v => v = 0 \/ 1 <= v <= size) vs ->
  used l + used vs < BITVEC_NINT ->
  exists l', rebuild gone vs (used l) l = Ret (used l', l') /\ hash_ok size l'
    /\ forall x, x <> 0 -> x ∈ l' <-> x ∈ l \/ (x ∈ vs /\ x <> gone).
Proof.
  intros Hs. revert l. induction vs as [|v vs IH]; intros l Hh Hvs Hu; cbn [rebuild].
  { exists l. split; [done|]. split; [done|]. intros x _. rewrite elem_of_nil. tauto. }
  apply Forall_cons in Hvs as [Hv Hvs]. rewrite used_cons in Hu. pose proof (used_bounds vs). pose proof (used_bounds l).
  assert (Hu' : used l + used vs < BITVEC_NINT) by (destruct (v =? 0); lia).
  destruct (Z.eqb_spec v 0) as [->|Hv0]; [|destruct (Z.eqb_spec v gone) as [->|Hvg]]; cbn [negb andb].
  - destruct (IH l) as (l' & -> & Hh' & Hin); try done; try lia. exists l'. split; [done|]. split; [done|].
    intros x Hx. rewrite Hin, elem_of_cons by done. tauto.
  - destruct (IH l) as (l' & -> & Hh' & Hin); try done; try lia. exists l'. split; [done|]. split; [done|].
    intros x Hx. rewrite Hin, elem_of_cons by done. tauto.
  - cbn in Hu. destruct Hv as [|Hv]; [done|]. rewrite (u32_id (v - 1)) by lia.
    destruct (hash_free size l v Hh) as (k & Hk & -> & Hz & Hc); [lia|]. cbn [mbind outcome_bind].
    destruct (hash_place size l v k) as (Hh1 & Hu1 & Hin1); try done; try lia.
    set (l1 := <[Z.to_nat (slot (v - 1) k) := v]> l) in *.
    rewrite u32_id, <- Hu1 by (change BITVEC_NINT with 124 in *; lia).
    destruct (IH l1) as (l' & -> & Hh' & Hin); [done..|lia|]. exists l'. split; [done|]. split; [done|].
    intros x Hx. rewrite Hin, Hin1, elem_of_cons by done. intuition congruence.
Qed.

Lemma clear_from_ok fuel n p i : wf n p -> in_size p i -> (n < fuel)%nat ->
  exists p', clear_from fuel p i = Ret p' /\ wf n p' /\ iSize p' = iSize p /\ blocks n p' = blocks n p
    /\ forall j, in_size p j -> mem n p' j = mem n p j && negb (j =? i).
Proof.
  revert n p i. induction fuel as [|fuel IH]; [lia|]. intros n p i Hw%wf_shape Hi Hf. cbn [clear_from].
  destruct Hw as [n size ns l Hsz Hl Hb|n size l Hsz Hle Hh|n size ns d l Hsz Hle Hd Hl Hfa];
    cbn [iDivisor iSize] in *.
  - rewrite Z.eqb_refl. cbn [negb]. rewrite (proj2 (Z.leb_le _ _)) by lia.
    rewrite bitmap_at_ok by (done || lia). cbn [mbind outcome_bind]. rewrite land_7.
    eexists. split; [reflexivity|]. cbn [put_bitmap]. change (i / BITVEC_SZELEM) with (i / 8).
    destruct (bitmap_index i) as [_ Hm]; [lia|]. pose proof (at_byte l (i / 8) Hb) as Hr.
    destruct (bitmap_update n size ns l i (Z.land (at_ l (i / 8)) (Z.lnot (Z.shiftl 1 (i mod 8)))) false)
      as [Hw Hmem]; try done; try lia.
    + apply byte_bounds; [|apply Z.land_nonneg; lia]. intros k Hk.
      by rewrite land_lnot_pow2, (testbit_high (at_ l (i / 8)) 8) by lia.
    + intros k Hk. rewrite land_lnot_pow2, (Z.eqb_sym k) by lia. destruct (i mod 8 =? k); by rewrite ?andb_false_r, ?andb_true_r.
    + split; [done|]. split; [done|]. split; [by destruct n|]. intros j Hj. rewrite Hmem by done.
      destruct (j =? i); by rewrite ?andb_false_r, ?andb_true_r.
  - rewrite Z.eqb_refl, not_small by lia. cbn [negb hash_of u mbind outcome_bind]. rewrite u32_id by lia.
    destruct (rebuild_ok size (i + 1) l (replicate SLOTS 0)) as (l' & Hr & Hh' & Hin);
      [lia|apply hash_empty|by eapply hash_values|apply Hh|].
    change (used (replicate SLOTS 0)) with 0 in Hr. rewrite Hr. cbn [mbind outcome_bind].
    eexists. split; [reflexivity|]. cbn [put_hash]. split; [apply wf_shape; by constructor|]. split; [done|].
    split; [by destruct n|]. intros j Hj. rewrite !mem_hash. apply eq_true_iff_eq.
    rewrite andb_true_iff, negb_true_iff, !bool_decide_eq_true, Hin, Z.eqb_neq by lia.
    assert (Hz : j + 1 ∉ replicate SLOTS 0) by (apply elem_zeros; lia). intuition lia.
  - assert (Hs : shape (S n) (mk_bitvec size ns d (apSub l))) by by constructor.
    destruct (sub_step n size ns d l i Hs Hi) as (Hd' & -> & Hb & Hm & o & Ho & -> & Hq).
    cbn [negb mbind outcome_bind]. destruct o as [q|].
    + destruct Hq as [Hsq Hwq]. destruct (IH n q (i mod d) Hwq) as (q' & -> & Hw' & Hsq' & Hbl & Hmem); [lia|lia|].
      cbn [mbind outcome_bind]. eexists. split; [reflexivity|].
      destruct (put_sub_ok n size ns d l i q' Hs Hi) as [Hw Hput]; [congruence|done|].
      split; [done|]. split; [done|]. split; [cbn [blocks put_sub u]; rewrite (blocks_put _ _ _ _ _ Ho); cbn; lia|].
      intros j Hj. rewrite Hput by done. destruct (Z.eqb_spec (j / d) (i / d)) as [E|E].
      * rewrite Hmem by (rewrite Hsq; apply Z.mod_pos_bound; lia).
        rewrite (mem_sub _ _ _ _ _ _ (Some q)) by by rewrite E. f_equal. f_equal. apply eq_true_iff_eq.
        rewrite !Z.eqb_eq. split; [|by intros ->]. intros Hjm. apply (div_mod_inj _ _ d); [lia|done..].
      * destruct (Z.eqb_spec j i) as [->|]; [done|]. by rewrite andb_true_r.
    + eexists. split; [reflexivity|]. split; [by apply wf_shape|]. split; [done|]. split; [done|].
      intros j Hj. destruct (Z.eqb_spec j i) as [->|]; [|by rewrite andb_true_r].
      by rewrite (mem_sub _ _ _ _ _ _ None).
Qed.

(** ** Lemmas: destroy *)

Lemma destroy_from_ok fuel n p h : wf n p -> (n < fuel)%nat ->
  destroy_from fuel p h = Ret {| asked := asked h; live := live h - blocks n p |}.
Proof.
  revert n p h. induction fuel as [|fuel IH]; [lia|]. intros n p h Hw%wf_shape Hf. cbn [destroy_from].
  destruct Hw as [n size ns l Hsz Hl Hb|n size l Hsz Hle Hh|n size ns d l Hsz Hle Hd Hl Hfa]; cbn [iDivisor u].
  - cbn. by destruct n.
  - cbn. by destruct n.
  - destruct (divisor_facts size ltac:(lia)) as (Hd' & _). cbn zeta in Hd'. rewrite <- Hd in Hd'.
    rewrite (proj2 (Z.eqb_neq d 0)) by lia. cbn [negb blocks u].
    assert (Hall : forall l h, Forall (fun o => match o with None => True | Some q => iSize q = d /\ wf n q end) l ->
      destroy_all (destroy_from fuel) l h
      = Ret {| asked := asked h; live := live h + 1 - foldr (fun q b => from_option (blocks n) 0 q + b) 1 l |}).
    { clear - IH Hf. intros l h Hl. revert h. induction Hl as [|o l Ho _ IHl]; intros h; cbn [destroy_all foldr].
      - destruct h as [a v]. cbn. do 2 f_equal. lia.
      - destruct o as [q|]; cbn [from_option].
        + destruct Ho as [_ Hw]. rewrite (IH n) by (done || lia). cbn [mbind outcome_bind]. rewrite IHl. cbn.
          do 2 f_equal. lia.
        + rewrite IHl. by rewrite Z.add_0_l. }
    rewrite Hall by done. cbn [mbind outcome_bind]. unfold release. cbn [asked live].
    set (b := foldr _ 1 l). do 2 f_equal. lia.
Qed.

(** ** Specification: a set of numbers *)

Inductive op := SetBit (i : Z) | ClearBit (i : Z) | TestBit (i : Z).

(** The argument the callers guarantee; a test may ask for any number. *)
Definition valid_op (size : Z) (o : op) : Prop :=
  match o with SetBit i | ClearBit i => 1 <= i <= size | TestBit i => is_u32 i end.

(** The specification sees the requests for memory that a call makes: those with
    the numbers from [a] up to [a']. *)
Section Spec.
Variable malloc : nat -> bool.

(** A set succeeds exactly when each of its requests is met. A failed one may
    lose elements: a rehash that runs out of memory. *)
Inductive set_step (s : gset Z) (a : nat) : op -> Z -> gset Z -> nat -> Prop :=
| SetStep i a' : (a <= a')%nat -> (forall k, (a <= k < a')%nat -> malloc k = true) ->
    set_step s a (SetBit i) SQLITE_OK ({[i]} ∪ s) a'
| SetFails i s' a' : (exists k, (a <= k < a')%nat /\ malloc k = false) -> s' ⊆ {[i]} ∪ s ->
    set_step s a (SetBit i) SQLITE_NOMEM s' a'
| ClearStep i : set_step s a (ClearBit i) SQLITE_OK (s ∖ {[i]}) a
| TestStep i : set_step s a (TestBit i) (Z.b2z (bool_decide (i ∈ s))) s a.

Inductive set_run : gset Z -> nat -> list op -> list Z -> gset Z -> nat -> Prop :=
| SetRunNil s a : set_run s a [] [] s a
| SetRunCons s a o r s1 a1 ops rs s2 a2 :
    set_step s a o r s1 a1 -> set_run s1 a1 ops rs s2 a2 -> set_run s a (o :: ops) (r :: rs) s2 a2.

Lemma set_step_asked s a o r s' a' : set_step s a o r s' a' ->
  (a <= a')%nat /\ (r = SQLITE_NOMEM <-> exists k, (a <= k < a')%nat /\ malloc k = false).
Proof.
  intros [i a2 Ha Hg|i s2 a2 (k & Hk & Hm) Hs|i|i].
  - split; [done|]. split; [done|]. intros (k & Hk & Hm). by rewrite Hg in Hm.
  - split; [lia|]. split; [by exists k|done].
  - split; [done|]. split; [done|]. intros (k & Hk & _). lia.
  - split; [done|]. split; [by case_bool_decide|]. intros (k & Hk & _). lia.
Qed.

(** Over a whole sequence: a refusal is reported, and nothing else is. *)
Lemma set_run_asked s a ops rs s' a' : set_run s a ops rs s' a' ->
  (a <= a')%nat /\ (SQLITE_NOMEM ∈ rs <-> exists k, (a <= k < a')%nat /\ malloc k = false).
Proof.
  induction 1 as [s a|s a o r s1 a1 ops rs s2 a2 Hst _ [Ha IH]].
  { split; [done|]. rewrite elem_of_nil. split; [done|]. intros (k & Hk & _). lia. }
  apply set_step_asked in Hst as [Ha1 Hr]. split; [lia|]. rewrite elem_of_cons, IH. split.
  - intros [Hn|(k & Hk & Hm)]; [|exists k; split; [lia|done]].
    destruct (proj1 Hr) as (k & Hk & Hm); [done|]. exists k. split; [lia|done].
  - intros (k & Hk & Hm). destruct (Nat.lt_ge_cases k a1); [left; symmetry; apply Hr|right]; exists k; (split; [lia|done]).
Qed.

End Spec.

Section Refinement.
Context `{Build}.
Variable malloc : nat -> bool.

(** One call, with what it returns. *)
Definition call (o : op) (p : option Bitvec) (h : heap) : outcome (Z * option Bitvec * heap) :=
  match o with
  | SetBit i => sqlite3BitvecSet malloc p i h
  | ClearBit i => p ← sqlite3BitvecClear p i; Ret (SQLITE_OK, p, h)
  | TestBit i => b ← sqlite3BitvecTest p i; Ret (Z.b2z b, p, h)
  end.

Fixpoint calls (ops : list op) (p : option Bitvec) (h : heap) : outcome (list Z * option Bitvec * heap) :=
  match ops with
  | [] => Ret ([], p, h)
  | o :: ops =>
      '(r, p, h) ← call o p h;
      '(rs, p, h) ← calls ops p h;
      Ret (r :: rs, p, h)
  end.

(** Four levels are enough for every 32-bit size. *)
Definition LEVELS : nat := 4.

Definition represents (p : Bitvec) (s : gset Z) : Prop :=
  wf LEVELS p /\ forall i, i ∈ s <-> 1 <= i <= iSize p /\ mem LEVELS p (i - 1) = true.

Lemma levels_enough size : size < 2 ^ 32 -> size <= levels LEVELS.
Proof. intros Hs. assert (2 ^ 32 <= levels LEVELS) by (vm_compute; discriminate). lia. Qed.

Lemma enough_fuel p : (need LEVELS p <= FUEL)%nat.
Proof. unfold need, LEVELS, FUEL. destruct (u p); lia. Qed.

Lemma test_represents p s i : represents p s -> is_u32 i -> sqlite3BitvecTest (Some p) i = Ret (bool_decide (i ∈ s)).
Proof.
  intros [Hw Hs] Hi. cbn [sqlite3BitvecTest]. unfold sqlite3BitvecTestNotNull.
  pose proof (wf_size _ _ Hw) as Hsz. specialize (Hs i). destruct (Z.eq_dec i 0) as [->|].
  - change (u32 (0 - 1)) with (2 ^ 32 - 1). rewrite (proj2 (Z.leb_le _ _)) by lia.
    rewrite bool_decide_eq_false_2; [done|]. rewrite Hs. lia.
  - rewrite u32_id by lia. destruct (Z.leb_spec (iSize p) (i - 1)).
    + rewrite bool_decide_eq_false_2; [done|]. rewrite Hs. lia.
    + rewrite (test_from_ok LEVELS) by (done || lia || (unfold LEVELS, FUEL; lia)). f_equal.
      destruct (mem LEVELS p (i - 1)); symmetry;
        [apply bool_decide_eq_true_2; rewrite Hs; split; [lia|done]|apply bool_decide_eq_false_2; rewrite Hs; by intros [_ ?]].
Qed.

Lemma set_represents p s i h : represents p s -> 1 <= i <= iSize p ->
  exists rc p' h' s', sqlite3BitvecSet malloc (Some p) i h = Ret (rc, Some p', h') /\ represents p' s'
    /\ set_step malloc s (asked h) (SetBit i) rc s' (asked h') /\ iSize p' = iSize p
    /\ live h' - blocks LEVELS p' = live h - blocks LEVELS p.
Proof.
  intros [Hw Hs] Hi. cbn [sqlite3BitvecSet]. rewrite checked_ok by (done || by eapply wf_size).
  destruct (set_from_ok malloc FUEL LEVELS p (i - 1) h Hw) as (rc & p' & h' & -> & P); [lia|apply enough_fuel|].
  cbn [mbind outcome_bind].
  set (s' := filter (fun j => mem LEVELS p' (j - 1) = true) ({[i]} ∪ s)).
  assert (Hin : forall j, j ∈ s' <-> 1 <= j <= iSize p /\ mem LEVELS p' (j - 1) = true).
  { intros j. unfold s'. rewrite elem_of_filter, elem_of_union, elem_of_singleton, Hs. split.
    - intros [Hm [->|[Hj _]]]; by split.
    - intros [Hj Hm]. split; [done|]. apply (sp_only _ _ _ _ _ _ _ _ P) in Hm; [|lia].
      destruct Hm as [|Hm]; [by right|left]. lia. }
  exists rc, p', h', s'. split; [done|]. split; [|split; [|split; apply P]].
  - split; [apply P|]. intros j. by rewrite (sp_size _ _ _ _ _ _ _ _ P).
  - pose proof (sp_asked _ _ _ _ _ _ _ _ P) as Ha. destruct (sp_rc _ _ _ _ _ _ _ _ P) as [[-> Hg]|[-> Hx]].
    + replace s' with ({[i]} ∪ s); [by apply SetStep|]. apply set_eq. intros j. rewrite Hin, elem_of_union, elem_of_singleton, Hs.
      split.
      * intros Hj. assert (Hr : 1 <= j <= iSize p) by (destruct Hj as [->|[? _]]; done). split; [done|].
        apply (sp_all _ _ _ _ _ _ _ _ P); [done|lia|]. destruct Hj as [->|[_ ?]]; [by right|by left].
      * intros [Hj Hm]. apply (sp_only _ _ _ _ _ _ _ _ P) in Hm; [|lia]. destruct Hm as [|Hm]; [by right|left; lia].
    + apply SetFails; [done|]. intros j. unfold s'. rewrite elem_of_filter. tauto.
Qed.

Lemma clear_represents p s i : represents p s -> 1 <= i <= iSize p ->
  exists p', sqlite3BitvecClear (Some p) i = Ret (Some p') /\ represents p' (s ∖ {[i]})
    /\ iSize p' = iSize p /\ blocks LEVELS p' = blocks LEVELS p.
Proof.
  intros [Hw Hs] Hi. pose proof (wf_size _ _ Hw). cbn [sqlite3BitvecClear].
  rewrite assert_true by (apply Z.ltb_lt; lia). cbn [mbind outcome_bind]. rewrite u32_id by lia.
  destruct (clear_from_ok FUEL LEVELS p (i - 1) Hw) as (p' & -> & Hw' & Hsz & Hbl & Hm); [lia|unfold LEVELS, FUEL; lia|].
  exists p'. split; [done|]. split; [|done]. split; [done|]. intros j. rewrite elem_of_difference, elem_of_singleton, Hs, Hsz.
  split.
  - intros [[Hj Hjm] Hne]. split; [done|]. rewrite Hm, Hjm by lia. cbn. apply negb_true_iff, Z.eqb_neq. lia.
  - intros [Hj Hjm]. rewrite Hm in Hjm by lia. apply andb_prop in Hjm as [Hjm Hne]. apply negb_true_iff, Z.eqb_neq in Hne.
    split; [done|lia].
Qed.

Lemma calls_represent size ops p s h : iSize p = size -> represents p s -> Forall (valid_op size) ops ->
  exists rs p' h' s', calls ops (Some p) h = Ret (rs, Some p', h')
    /\ set_run malloc s (asked h) ops rs s' (asked h') /\ represents p' s'
    /\ iSize p' = size /\ live h' - blocks LEVELS p' = live h - blocks LEVELS p.
Proof.
  intros Hsz Hp Hops. revert p s h Hsz Hp. induction Hops as [|o ops Ho _ IH]; intros p s h Hsz Hp; cbn [calls].
  { exists [], p, h, s. split; [done|]. split; [constructor|done]. }
  assert (Hone : exists r p1 h1 s1, call o (Some p) h = Ret (r, Some p1, h1) /\ represents p1 s1
            /\ set_step malloc s (asked h) o r s1 (asked h1)
            /\ iSize p1 = size /\ live h1 - blocks LEVELS p1 = live h - blocks LEVELS p).
  { destruct o as [i|i|i]; cbn [call valid_op] in *.
    - rewrite <- Hsz in *. by apply set_represents.
    - rewrite <- Hsz in Ho. destruct (clear_represents p s i Hp Ho) as (p' & -> & Hp' & Hs' & Hb).
      cbn [mbind outcome_bind]. eexists _, p', h, _. split; [reflexivity|]. split; [done|]. split; [constructor|].
      split; [congruence|by rewrite Hb].
    - rewrite (test_represents p s i Hp Ho). cbn [mbind outcome_bind]. eexists _, p, h, s. split; [reflexivity|].
      split; [done|]. split; [constructor|done]. }
  destruct Hone as (r & p1 & h1 & s1 & -> & Hp1 & Hst & Hs1 & Hl). cbn [mbind outcome_bind].
  destruct (IH p1 s1 h1 Hs1 Hp1) as (rs & p2 & h2 & s2 & -> & Hrun & Hp2 & Hs2 & Hl2). cbn [mbind outcome_bind].
  eexists (r :: rs), p2, h2, s2. split; [reflexivity|]. split; [by econstructor|]. split; [done|]. split; [done|lia].
Qed.

(** Without an object the calls do nothing. *)
Lemma calls_null ops h : calls ops None h = Ret (replicate (length ops) 0, None, h).
Proof. induction ops as [|[]]; [done|..]; cbn [calls call]; cbn; by rewrite IHops. Qed.

End Refinement.

(** * Properties *)

(** C36: a bitmap of any 32-bit size behaves as a set of numbers from 1 to its
    size, whatever representation its bits have reached, for every sequence of
    calls and every pattern of refused allocations. Every call returns (the
    probes find an empty slot, the recursive rehash ends); a test is answered
    by membership, and is negative outside the range; a set that reports
    SQLITE_OK adds its number and loses none. Refused allocations are reported
    exactly: a set answers SQLITE_OK when every request for memory that it made
    was met and SQLITE_NOMEM when one of them was refused, and then no foreign
    number appears; the other calls ask for no memory. Destroying the object
    gives back every block that was taken since its creation. When the creation
    is refused, the null pointer can be used and behaves as the empty set. *)
Theorem bitvec_refines_set `{Build} (malloc : nat -> bool) (size : Z) (ops : list op) (h : heap) :
  is_u32 size -> Forall (valid_op size) ops ->
  match sqlite3BitvecCreate malloc size h with
  | (Some p, h1) =>
      exists rs p' h' s, calls malloc ops (Some p) h1 = Ret (rs, Some p', h')
        /\ set_run malloc ∅ (asked h1) ops rs s (asked h')
        /\ (SQLITE_NOMEM ∈ rs <-> exists k, (asked h1 <= k < asked h')%nat /\ malloc k = false)
        /\ (forall i, is_u32 i -> sqlite3BitvecTest (Some p') i = Ret (bool_decide (i ∈ s)))
        /\ sqlite3BitvecSize p' = size
        /\ exists h2, sqlite3BitvecDestroy (Some p') h' = Ret h2 /\ live h2 = live h
  | (None, h1) =>
      malloc (asked h) = false /\ live h1 = live h
      /\ calls malloc ops None h1 = Ret (replicate (length ops) 0, None, h1)
      /\ sqlite3BitvecDestroy None h1 = Ret h1
  end.
Proof.
  intros Hsz Hops. unfold sqlite3BitvecCreate, request. destruct (malloc (asked h)) eqn:Hm.
  - destruct (fresh_ok LEVELS size Hsz (levels_enough size ltac:(lia))) as (Hw & Hb & Hmem). cbn zeta in *.
    set (p := mk_bitvec size 0 0 (zero_union size 0)) in *.
    assert (Hp : represents p ∅).
    { split; [done|]. intros i. rewrite elem_of_empty. split; [done|]. intros [Hi Hf]. rewrite Hmem in Hf by lia. done. }
    destruct (calls_represent malloc size ops p ∅ {| asked := S (asked h); live := live h + 1 |} eq_refl Hp Hops)
      as (rs & p' & h' & s & Hc & Hrun & Hp' & Hs' & Hl).
    exists rs, p', h', s. split; [done|]. split; [exact Hrun|]. split; [by eapply set_run_asked|].
    split; [intros i Hi; by apply test_represents|]. split; [done|]. eexists. split; [apply (destroy_from_ok _ LEVELS); [apply Hp'|unfold LEVELS, FUEL; lia]|].
    cbn in *. lia.
  - cbn. split; [done|]. split; [lia|]. split; [apply calls_null|done].
Qed.

(** A bitmap that is subdivided twice by its 63rd number: 63 numbers with the same
    home, a number that was set, one that was not, and one that is cleared. *)
Definition demo_ops : list op :=
  (fun k => SetBit (124 * k + 1)) <$> seqZ 0 63.
Definition demo_ops' : list op := demo_ops ++ [TestBit 7689; TestBit 7690; ClearBit 7689; TestBit 7689].

(** With the second request refused, the 63rd number cannot be set. *)
Definition refuses_second (k : nat) : bool := negb (k =? 1)%nat.

Lemma valid_ops_dec size ops : forallb (fun o => match o with
    | SetBit i | ClearBit i => (1 <=? i) && (i <=? size) | TestBit i => (0 <=? i) && (i <? 2 ^ 32) end) ops = true ->
  Forall (valid_op size) ops.
Proof.
  rewrite forallb_forall. intros Hb. apply Forall_forall. intros o Ho. apply list_elem_of_In, Hb in Ho.
  destruct o; cbn [valid_op]; zify_bool; lia.
Qed.

Example bitvec_refines_set_witness :
  (exists p', calls (H := debug_build) (fun _ => true) demo_ops' (Some (mk_bitvec 5000000 0 0 (zero_union 5000000 0)))
               {| asked := 1; live := 1 |}
             = Ret (replicate 63 0 ++ [1; 0; 0; 0], Some p', {| asked := 10; live := 8 |})
    /\ iDivisor p' = 80646)
  /\ exists rs p' h', calls (H := debug_build) refuses_second demo_ops (Some (mk_bitvec 5000000 0 0 (zero_union 5000000 0)))
               {| asked := 1; live := 1 |} = Ret (rs, Some p', h') /\ SQLITE_NOMEM ∈ rs.
Proof.
  split.
  - destruct (bitvec_refines_set (H := debug_build) (fun _ => true) 5000000 demo_ops' {| asked := 0; live := 0 |}) as
      (rs & p' & h' & s & Hc & _).
    + by split.
    + apply valid_ops_dec. vm_compute. reflexivity.
    + exists p'. cbn [asked live] in Hc. revert Hc. vm_compute. intros [= <- <- <-]. by split.
  - destruct (bitvec_refines_set (H := debug_build) refuses_second 5000000 demo_ops {| asked := 0; live := 0 |}) as
      (rs & p' & h' & s & Hc & _ & Hrep & _).
    + by split.
    + apply valid_ops_dec. vm_compute. reflexivity.
    + exists rs, p', h'. split; [exact Hc|]. apply Hrep. exists 1%nat. split; [|reflexivity].
      cbn [asked live] in Hc. revert Hc. vm_compute. intros [= _ _ <-]. cbn. lia.
Defined.
