(* ===== verification/Utf.v ===== *)
(** * Text encodings: deps/sqlite3/sqlite3.c, utf.c

    Reading and writing of one character in UTF-8 and UTF-16, the translation
    of a value from one encoding to another, byte-order marks, and the two
    functions that count.  Bytes are [Z] in [0, 256); a pointer is the list of the bytes
    from there to the end of the buffer, and reading at the end of the list is
    undefined. *)

From S2P Require Import Prelude Words Chars NumText.

(** The table by runs: the payload bits of the bytes from 0xc0 on. *)
Definition sqlite3Utf8Trans1 : list Z :=
  from 32 0 ++ from 16 0 ++ from 8 0 ++ from 4 0 ++ [0; 1; 0; 0].

Definition trans1 (k : Z) : Z := nth (Z.to_nat k) sqlite3Utf8Trans1 0.

(** ** Writing a character; [c] is a [u32] *)

Definition WRITE_UTF8 (c : Z) : list Z :=
  if c <? 0x80 then [Z.land c 0xFF]
  else if c <? 0x800 then
    [0xC0 + Z.land (Z.shiftr c 6) 0x1F; 0x80 + Z.land c 0x3F]
  else if c <? 0x10000 then
    [0xE0 + Z.land (Z.shiftr c 12) 0x0F; 0x80 + Z.land (Z.shiftr c 6) 0x3F; 0x80 + Z.land c 0x3F]
  else
    [0xF0 + Z.land (Z.shiftr c 18) 0x07; 0x80 + Z.land (Z.shiftr c 12) 0x3F;
     0x80 + Z.land (Z.shiftr c 6) 0x3F; 0x80 + Z.land c 0x3F].

Definition WRITE_UTF16LE (c : Z) : list Z :=
  if c <=? 0xFFFF then [Z.land c 0xFF; Z.land (Z.shiftr c 8) 0xFF]
  else
    [uchar (Z.land (Z.shiftr c 10) 0x3F + Z.land (Z.shiftr (u32 (c - 0x10000)) 10) 0xC0);
     0xD8 + Z.land (Z.shiftr (u32 (c - 0x10000)) 18) 0x03;
     Z.land c 0xFF;
     0xDC + Z.land (Z.shiftr c 8) 0x03].

Definition WRITE_UTF16BE (c : Z) : list Z :=
  if c <=? 0xFFFF then [Z.land (Z.shiftr c 8) 0xFF; Z.land c 0xFF]
  else
    [0xD8 + Z.land (Z.shiftr (u32 (c - 0x10000)) 18) 0x03;
     uchar (Z.land (Z.shiftr c 10) 0x3F + Z.land (Z.shiftr (u32 (c - 0x10000)) 10) 0xC0);
     0xDC + Z.land (Z.shiftr c 8) 0x03;
     Z.land c 0xFF].

(** ** Reading a character *)

(** [(b & 0xc0)==0x80] *)
Definition continues (b : Z) : bool := Z.land b 0xC0 =? 0x80.

(** [c = (c<<6) + (0x3f & b)] on a [u32]. *)
Definition shift_in (c b : Z) : Z := u32 (u32 (Z.shiftl c 6) + Z.land 0x3F b).

(** The [while] loop. With [limited] the end of the list is zTerm and stops it,
    without it is the end of the memory. *)
Fixpoint read_rest (limited : bool) (c : Z) (z : list Z) : outcome (Z * list Z) :=
  match z with
  | [] => if limited then Ret (c, []) else Undefined
  | b :: z' => if continues b then read_rest limited (shift_in c b) z' else Ret (c, z)
  end.

(** What a character that is no character is rendered as. *)
Definition render (c : Z) : Z :=
  if (c <? 0x80) || (Z.land c 0xFFFFF800 =? 0xD800) || (Z.land c 0xFFFFFFFE =? 0xFFFE)
  then 0xFFFD else c.

Definition read_utf8 (limited : bool) (z : list Z) : outcome (Z * list Z) :=
  match z with
  | [] => Undefined
  | c :: z =>
      if 0xC0 <=? c then '(c, z) ← read_rest limited (trans1 (c - 0xC0)) z; Ret (render c, z)
      else Ret (c, z)
  end.

(** The macro, up to zTerm, and the function, on terminated text. *)
Definition READ_UTF8 : list Z -> outcome (Z * list Z) := read_utf8 true.
Definition sqlite3Utf8Read : list Z -> outcome (Z * list Z) := read_utf8 false.

(** [while( i<n && ... )]; [k] is [n-i]. *)
Fixpoint read_limited (k : nat) (z : list Z) (i c : Z) : outcome (Z * Z) :=
  match k with
  | O => Ret (i, c)
  | S k =>
      match z with
      | [] => Undefined
      | b :: z => if continues b then read_limited k z (i + 1) (shift_in c b) else Ret (i, c)
      end
  end.

(** The number of bytes and the character. *)
Definition sqlite3Utf8ReadLimited `{Build} (z : list Z) (n : Z) : outcome (Z * Z) :=
  _ ← assert_ (0 <? n);
  match z with
  | [] => Undefined
  | c :: z =>
      if 0xC0 <=? c then
        let n := if 4 <? n then 4 else n in
        read_limited (Z.to_nat (n - 1)) z 1 (trans1 (c - 0xC0))
      else Ret (1, c)
  end.

(** ** Counting *)

Fixpoint skip_rest (z : list Z) : outcome (list Z) :=
  match z with
  | [] => Undefined
  | b :: z' => if continues b then skip_rest z' else Ret z
  end.

Definition SQLITE_SKIP_UTF8 (z : list Z) : outcome (list Z) :=
  match z with
  | [] => Undefined
  | b :: z => if 0xC0 <=? b then skip_rest z else Ret z
  end.

(** The loop of [sqlite3Utf8CharLen]; [behind] is what is left of the buffer
    behind zTerm, [None] when there is no limit. The byte is looked at before
    the limit. *)
Fixpoint char_len (fuel : nat) (z : list Z) (behind : option nat) (r : Z) : outcome Z :=
  match fuel with
  | O => OutOfFuel
  | S fuel =>
      match z with
      | [] => Undefined
      | b :: _ =>
          if negb (b =? 0) && from_option (fun k => bool_decide (k < length z)%nat) true behind
          then z ← SQLITE_SKIP_UTF8 z; char_len fuel z behind (r + 1)
          else Ret r
      end
  end.

Definition sqlite3Utf8CharLen (z : list Z) (nByte : Z) : outcome Z :=
  char_len (S (length z)) z (if 0 <=? nByte then Some (length z - Z.to_nat nByte)%nat else None) 0.

(** ** The translation of a value *)

Definition MEM_Str : Z := 0x0002.
Definition MEM_Term : Z := 0x0200.
Definition MEM_AffMask : Z := 0x003F.
Definition MEM_Subtype : Z := 0x0800.
Definition SQLITE_NOMEM : Z := 7.

(** The fields of [sqlite3_value] the function works on; [z_] is the whole
    buffer, of which [n] bytes are the text. *)
Record Mem := { z_ : list Z; n : Z; enc : Z; flags : Z }.

(** The swap of the bytes in place, up to [&zIn[pMem->n&~1]]. *)
Fixpoint swap_bytes (k : nat) (z : list Z) : outcome (list Z) :=
  match k, z with
  | O, _ => Ret z
  | S k, a :: b :: z => z ← swap_bytes k z; Ret (b :: a :: z)
  | _, _ => Undefined
  end.

(** The second half of a pair of surrogates, or the character itself. *)
Definition read_utf16 (unit : Z -> Z -> Z) (z : list Z) : outcome (Z * list Z) :=
  match z with
  | a :: b :: z =>
      let c := unit a b in
      if (0xD800 <=? c) && (c <? 0xE000) then
        match z with
        | [] => Ret (c, [])
        | a :: b :: z =>
            let c2 := unit a b in
            Ret (u32 (Z.land c2 0x3FF + Z.shiftl (Z.land c 0x3F) 10 + Z.shiftl (Z.land c 0x3C0 + 0x40) 10), z)
        | _ => Undefined
        end
      else Ret (c, z)
  | _ => Undefined
  end.

Definition unit_le (a b : Z) : Z := a + Z.shiftl b 8.
Definition unit_be (a b : Z) : Z := Z.shiftl a 8 + b.

(** [while( zIn<zTerm ){ READ; WRITE; }] *)
Fixpoint translate (read : list Z -> outcome (Z * list Z)) (write : Z -> list Z) (fuel : nat) (z : list Z)
  : outcome (list Z) :=
  match fuel with
  | O => OutOfFuel
  | S fuel =>
      match z with
      | [] => Ret []
      | _ => '(c, z) ← read z; out ← translate read write fuel z; Ret (write c ++ out)
      end
  end.

Definition translate_asserts `{Build} (m : Mem) (desiredEnc : Z) : outcome unit :=
  _ ← assert_ (negb (Z.land (flags m) MEM_Str =? 0));
  _ ← assert_ (negb (enc m =? desiredEnc));
  _ ← assert_ (negb (enc m =? 0));
  assert_ (0 <=? n m).

(** [alloc] is whether the memory is there: for a private copy, or for the
    output. Writing more than [len] bytes to the output is undefined. *)
Definition sqlite3VdbeMemTranslate `{Build} (alloc : bool) (m : Mem) (desiredEnc : Z) : outcome (Z * Mem) :=
  _ ← translate_asserts m desiredEnc;
  if negb (enc m =? SQLITE_UTF8) && negb (desiredEnc =? SQLITE_UTF8) then
    if negb alloc then Ret (SQLITE_NOMEM, m)
    else
    z ← swap_bytes (Z.to_nat (n m / 2)) (z_ m);
    Ret (0, {| z_ := z; n := n m; enc := desiredEnc; flags := flags m |})
  else
    let n := if desiredEnc =? SQLITE_UTF8 then n m / 2 * 2 else n m in
    let terminator := if desiredEnc =? SQLITE_UTF8 then [0] else [0; 0] in
    let len := 2 * n + Z.of_nat (length terminator) in
    if negb alloc then Ret (SQLITE_NOMEM, {| z_ := z_ m; n := n; enc := enc m; flags := flags m |})
    else if negb (bool_decide (Z.to_nat n <= length (z_ m))%nat) then Undefined
    else
      let zIn := firstn (Z.to_nat n) (z_ m) in
      let fuel := S (length zIn) in
      out ← (if enc m =? SQLITE_UTF8 then
               if desiredEnc =? SQLITE_UTF16LE then translate READ_UTF8 WRITE_UTF16LE fuel zIn
               else _ ← assert_ (desiredEnc =? SQLITE_UTF16BE); translate READ_UTF8 WRITE_UTF16BE fuel zIn
             else
               _ ← assert_ (desiredEnc =? SQLITE_UTF8);
               if enc m =? SQLITE_UTF16LE then translate (read_utf16 unit_le) WRITE_UTF8 fuel zIn
               else translate (read_utf16 unit_be) WRITE_UTF8 fuel zIn);
      if len <? Z.of_nat (length (out ++ terminator)) then Undefined
      else
        let n := i32 (Z.of_nat (length out)) in
        _ ← assert_ (n + Z.of_nat (length terminator) <=? len);
        Ret (0, {| z_ := out ++ terminator; n := n; enc := desiredEnc;
                   flags := Z.lor (Z.lor MEM_Str MEM_Term) (Z.land (flags m) (Z.lor MEM_AffMask MEM_Subtype)) |}).

(** A byte-order mark is removed and believed. *)
Definition sqlite3VdbeMemHandleBom `{Build} (alloc : bool) (m : Mem) : outcome (Z * Mem) :=
  _ ← assert_ (0 <=? n m);
  bom ← (if 1 <? n m then
           match z_ m with
           | b1 :: b2 :: _ =>
               let bom := if (b1 =? 0xFE) && (b2 =? 0xFF) then SQLITE_UTF16BE else 0 in
               Ret (if (b1 =? 0xFF) && (b2 =? 0xFE) then SQLITE_UTF16LE else bom)
           | _ => Undefined
           end
         else Ret 0);
  if bom =? 0 then Ret (0, m)
  else if negb alloc then Ret (SQLITE_NOMEM, m)
  else
    let n := n m - 2 in
    Ret (0, {| z_ := firstn (Z.to_nat n) (skipn 2 (z_ m)) ++ [0; 0] ++ skipn (Z.to_nat n + 2) (z_ m);
               n := n; enc := bom; flags := Z.lor (flags m) MEM_Term |}).

(** The number of bytes of the first [nChar] characters of UTF-16 in little-endian
    order, the one of the target: [z] points at the high byte of a unit. *)
Fixpoint utf16_byte_len (nChar : nat) (z : list Z) (len : Z) : outcome Z :=
  match nChar with
  | O => Ret len
  | S nChar =>
      match z with
      | c :: z =>
          let z := drop 1 z in
          if (0xD8 <=? c) && (c <? 0xDC) then
            match z with
            | d :: z' => if (0xDC <=? d) && (d <? 0xE0) then utf16_byte_len nChar (drop 1 z') (len + 4)
                         else utf16_byte_len nChar z (len + 2)
            | [] => Undefined
            end
          else utf16_byte_len nChar z (len + 2)
      | [] => Undefined
      end
  end.

Definition sqlite3Utf16ByteLen (z : list Z) (nChar : Z) : outcome Z :=
  utf16_byte_len (Z.to_nat nChar) (drop 1 z) 0.

(** ** Lemmas: masks as remainders *)

(** [k] bits from bit [a] on. *)
Lemma land_ones_of x a k : 0 <= a -> 0 <= k -> Z.land x (Z.shiftl (Z.ones k) a) = x / 2 ^ a mod 2 ^ k * 2 ^ a.
Proof.
  intros Ha Hk. rewrite <- Z.land_ones, <- Z.shiftr_div_pow2, <- Z.shiftl_mul_pow2 by done.
  apply Z.bits_inj'. intros i Hi. rewrite Z.land_spec, !Z.shiftl_spec, Z.land_spec by done.
  destruct (Z.lt_ge_cases (i - a) 0).
  - rewrite !(Z.testbit_neg_r _ (i - a)) by done. by rewrite andb_false_r.
  - rewrite Z.shiftr_spec by done. by replace (i - a + a) with i by lia.
Qed.

Lemma land_low x k : 0 <= k -> Z.land x (Z.ones k) = x mod 2 ^ k.
Proof. intros Hk. by rewrite Z.land_ones. Qed.

(** The masks and shifts of the code as arithmetic. *)
Lemma land_FF x : Z.land x 0xFF = x mod 256. Proof. exact (land_low x 8 ltac:(lia)). Qed.
Lemma land_3FF x : Z.land x 0x3FF = x mod 1024. Proof. exact (land_low x 10 ltac:(lia)). Qed.
Lemma land_3F x : Z.land x 0x3F = x mod 64. Proof. exact (land_low x 6 ltac:(lia)). Qed.
Lemma land_1F x : Z.land x 0x1F = x mod 32. Proof. exact (land_low x 5 ltac:(lia)). Qed.
Lemma land_0F x : Z.land x 0x0F = x mod 16. Proof. exact (land_low x 4 ltac:(lia)). Qed.
Lemma land_07 x : Z.land x 0x07 = x mod 8. Proof. exact (land_low x 3 ltac:(lia)). Qed.
Lemma land_03 x : Z.land x 0x03 = x mod 4. Proof. exact (land_low x 2 ltac:(lia)). Qed.
Lemma land_C0 x : Z.land x 0xC0 = x / 64 mod 4 * 64. Proof. exact (land_ones_of x 6 2 ltac:(lia) ltac:(lia)). Qed.
Lemma land_3C0 x : Z.land x 0x3C0 = x / 64 mod 16 * 64. Proof. exact (land_ones_of x 6 4 ltac:(lia) ltac:(lia)). Qed.
Lemma shr_6 x : Z.shiftr x 6 = x / 64. Proof. exact (Z.shiftr_div_pow2 x 6 ltac:(lia)). Qed.
Lemma shr_8 x : Z.shiftr x 8 = x / 256. Proof. exact (Z.shiftr_div_pow2 x 8 ltac:(lia)). Qed.
Lemma shr_10 x : Z.shiftr x 10 = x / 1024. Proof. exact (Z.shiftr_div_pow2 x 10 ltac:(lia)). Qed.
Lemma shr_12 x : Z.shiftr x 12 = x / 4096. Proof. exact (Z.shiftr_div_pow2 x 12 ltac:(lia)). Qed.
Lemma shr_18 x : Z.shiftr x 18 = x / 262144. Proof. exact (Z.shiftr_div_pow2 x 18 ltac:(lia)). Qed.
Lemma shl_8 x : Z.shiftl x 8 = x * 256. Proof. exact (Z.shiftl_mul_pow2 x 8 ltac:(lia)). Qed.
Lemma shl_10 x : Z.shiftl x 10 = x * 1024. Proof. exact (Z.shiftl_mul_pow2 x 10 ltac:(lia)). Qed.
Create Rewrite HintDb masks.
#[export] Hint Rewrite land_FF land_3FF land_3F land_1F land_0F land_07 land_03 land_C0 land_3C0
  shr_6 shr_8 shr_10 shr_12 shr_18 shl_8 shl_10 : masks.
Ltac unmask := autorewrite with masks.
Ltac mod_range := apply Z.mod_pos_bound; reflexivity.

Lemma byte_facts b : 0 <= b < 256 ->
  continues b = (0x80 <=? b) && (b <? 0xC0) /\ Z.land 0x3F b = b mod 64.
Proof.
  intros Hb. assert (H : forallb (fun k => let b := Z.of_nat k in
    Bool.eqb (continues b) ((0x80 <=? b) && (b <? 0xC0)) && (Z.land 0x3F b =? b mod 64)) (seq 0 256) = true) by reflexivity.
  rewrite forallb_forall in H. specialize (H (Z.to_nat b) ltac:(apply in_seq; lia)). cbn zeta in H.
  rewrite Z2Nat.id in H by lia. apply andb_prop in H as [H1 H2]. split; [by apply eqb_prop|by apply Z.eqb_eq].
Qed.

(** A fact about the 64 entries of the table. *)
Lemma all_trans (P : Z -> bool) k : forallb (fun j => P (Z.of_nat j)) (seq 0 64) = true -> 0 <= k < 64 -> P k = true.
Proof.
  intros H Hk. rewrite forallb_forall in H. specialize (H (Z.to_nat k) ltac:(apply in_seq; lia)).
  by rewrite Z2Nat.id in H by lia.
Qed.

Lemma trans1_range k : 0 <= k < 64 -> 0 <= trans1 k < 32.
Proof.
  intros Hk. pose proof (all_trans (fun k => (0 <=? trans1 k) && (trans1 k <? 32)) k eq_refl Hk) as H.
  cbn beta in H. zify_bool. lia.
Qed.
(** Two, three and four bytes. *)
Lemma trans1_2 k : 0 <= k < 32 -> trans1 k = k.
Proof.
  intros Hk. pose proof (all_trans (fun k => (32 <=? k) || (trans1 k =? k)) k eq_refl ltac:(lia)) as H.
  apply orb_prop in H as [H|H]; zify_bool; lia.
Qed.
Lemma trans1_3 k : 0 <= k < 16 -> trans1 (32 + k) = k.
Proof.
  intros Hk. pose proof (all_trans (fun k => (k <? 32) || (48 <=? k) || (trans1 k =? k - 32)) (32 + k) eq_refl ltac:(lia)) as H.
  cbn beta in H. rewrite !orb_true_iff in H. destruct H as [[H|H]|H]; zify_bool; lia.
Qed.
Lemma trans1_4 k : 0 <= k < 8 -> trans1 (48 + k) = k.
Proof.
  intros Hk. pose proof (all_trans (fun k => (k <? 48) || (56 <=? k) || (trans1 k =? k - 48)) (48 + k) eq_refl ltac:(lia)) as H.
  cbn beta in H. rewrite !orb_true_iff in H. destruct H as [[H|H]|H]; zify_bool; lia.
Qed.

Lemma u32_shift c : 0 <= c < 2 ^ 26 -> forall b, 0 <= b < 256 -> shift_in c b = c * 64 + b mod 64.
Proof.
  intros Hc b Hb. unfold shift_in. rewrite (proj2 (byte_facts b Hb)), Z.shiftl_mul_pow2 by lia.
  change (2 ^ 6) with 64. pose proof (Z.mod_pos_bound b 64). rewrite (u32_id (c * 64)) by lia. apply u32_id. lia.
Qed.

(** ** Lemmas: what is written is read *)

(** Unicode scalar values; the last two of the basic plane are refused as well. *)
Definition surrogate (c : Z) : bool := (0xD800 <=? c) && (c <? 0xE000).
Definition scalar (c : Z) : Prop := 0 <= c < 0x110000 /\ surrogate c = false /\ Z.land c 0xFFFFFFFE <> 0xFFFE.

(** What the reader makes of the character [c]. *)
Definition rendered (c : Z) : Z := if c <? 0x80 then c else render c.

Lemma render_scalar c : 0x80 <= c < 2 ^ 32 ->
  render c = if surrogate c || (c =? 0xFFFE) || (c =? 0xFFFF) then 0xFFFD else c.
Proof.
  intros Hc. unfold render. rewrite (proj2 (Z.ltb_ge c 0x80)) by lia. cbn [orb].
  change 0xFFFFF800 with (Z.shiftl (Z.ones 21) 11). change 0xFFFFFFFE with (Z.shiftl (Z.ones 31) 1).
  rewrite !land_ones_of by lia.
  assert (E1 : (c / 2 ^ 11 mod 2 ^ 21 * 2 ^ 11 =? 0xD800) = surrogate c).
  { unfold surrogate. apply eq_true_iff_eq. rewrite andb_true_iff, Z.eqb_eq, Z.leb_le, Z.ltb_lt.
    Z.to_euclidean_division_equations. lia. }
  assert (E2 : (c / 2 ^ 1 mod 2 ^ 31 * 2 ^ 1 =? 0xFFFE) = (c =? 0xFFFE) || (c =? 0xFFFF)).
  { apply eq_true_iff_eq. rewrite orb_true_iff, !Z.eqb_eq. Z.to_euclidean_division_equations. lia. }
  by rewrite E1, E2, orb_assoc.
Qed.

Lemma scalar_rendered c : scalar c -> rendered c = c.
Proof.
  intros (Hr & Hs & Hn). unfold rendered. destruct (Z.ltb_spec c 0x80); [done|].
  rewrite render_scalar by lia. rewrite Hs.
  destruct (Z.eqb_spec c 0xFFFE) as [->|]; [done|]. by destruct (Z.eqb_spec c 0xFFFF) as [->|].
Qed.

(** The text behind a character does not continue it. *)
Definition fresh (limited : bool) (z : list Z) : Prop :=
  match z with [] => limited = true | b :: _ => continues b = false end.

Lemma rest_done limited c z : fresh limited z -> read_rest limited c z = Ret (c, z).
Proof. destruct z as [|b z]; cbn; [by intros ->|by intros ->]. Qed.

(** One continuation byte with the payload [x]. *)
Lemma rest_step limited c x z : 0 <= c < 2 ^ 26 -> 0 <= x < 64 ->
  read_rest limited c (0x80 + x :: z) = read_rest limited (c * 64 + x) z.
Proof.
  intros Hc Hx. cbn [read_rest]. rewrite (proj1 (byte_facts (0x80 + x) ltac:(lia))).
  rewrite (proj2 (Z.leb_le _ _)), (proj2 (Z.ltb_lt _ _)) by lia. cbn [andb]. rewrite u32_shift by lia.
  f_equal. f_equal. change 0x80 with (2 * 64). rewrite Z.add_comm, Z.mod_add by lia. by apply Z.mod_small.
Qed.

Lemma read_lead limited b z : 0xC0 <= b < 0x100 ->
  read_utf8 limited (b :: z) = '(c, z) ← read_rest limited (trans1 (b - 0xC0)) z; Ret (render c, z).
Proof. intros Hb. cbn [read_utf8]. by rewrite (proj2 (Z.leb_le _ _)) by lia. Qed.

Lemma read_write_utf8 limited c z : 0 <= c < 0x110000 -> fresh limited z ->
  read_utf8 limited (WRITE_UTF8 c ++ z) = Ret (rendered c, z).
Proof.
  intros Hc Hz. unfold WRITE_UTF8, rendered. destruct (Z.ltb_spec c 0x80) as [Ha|Ha].
  { unmask. rewrite Z.mod_small by lia. cbn [app read_utf8]. by rewrite (proj2 (Z.leb_gt _ _)) by lia. }
  destruct (Z.ltb_spec c 0x800); [|destruct (Z.ltb_spec c 0x10000)]; unmask; cbn [app].
  - assert (Hb : 0 <= c / 64 mod 32 < 32) by mod_range.
    rewrite read_lead by lia. replace (192 + c / 64 mod 32 - 192) with (c / 64 mod 32) by lia.
    rewrite trans1_2 by lia.
    rewrite rest_step, rest_done by (done || lia || mod_range). cbn [mbind outcome_bind].
    do 3 f_equal. Z.to_euclidean_division_equations; lia.
  - assert (Hb : 0 <= c / 4096 mod 16 < 16) by mod_range.
    rewrite read_lead by lia. replace (224 + c / 4096 mod 16 - 192) with (32 + c / 4096 mod 16) by lia.
    rewrite trans1_3 by lia.
    assert (Hm : 0 <= c / 64 mod 64 < 64) by mod_range.
    rewrite !rest_step, rest_done by (done || lia || mod_range). cbn [mbind outcome_bind].
    do 3 f_equal. Z.to_euclidean_division_equations; lia.
  - assert (Hb : 0 <= c / 262144 mod 8 < 8) by mod_range.
    rewrite read_lead by lia. replace (240 + c / 262144 mod 8 - 192) with (48 + c / 262144 mod 8) by lia.
    rewrite trans1_4 by lia.
    assert (Hm : 0 <= c / 64 mod 64 < 64) by mod_range.
    assert (Hn : 0 <= c / 4096 mod 64 < 64) by mod_range.
    rewrite !rest_step, rest_done by (done || lia || mod_range). cbn [mbind outcome_bind].
    do 3 f_equal. Z.to_euclidean_division_equations; lia.
Qed.

(** One unit, in either order. *)
Definition unit_bytes (be : bool) (lo hi : Z) : list Z := if be then [hi; lo] else [lo; hi].
Definition read_unit (be : bool) : Z -> Z -> Z := if be then unit_be else unit_le.
Definition write16 (be : bool) : Z -> list Z := if be then WRITE_UTF16BE else WRITE_UTF16LE.

Lemma write16_units be c : 0 <= c < 0x110000 ->
  write16 be c = if c <? 0x10000 then unit_bytes be (c mod 256) (c / 256)
    else let d := c - 0x10000 in
         unit_bytes be (d / 1024 mod 256) (0xD8 + d / 1024 / 256) ++ unit_bytes be (d mod 256) (0xDC + d mod 1024 / 256).
Proof.
  intros Hc. assert (E : (c <=? 0xFFFF) = (c <? 0x10000)) by (apply eq_true_iff_eq; rewrite Z.leb_le, Z.ltb_lt; lia).
  assert (Hw : write16 be c = if be then WRITE_UTF16BE c else WRITE_UTF16LE c) by by destruct be. rewrite Hw.
  unfold WRITE_UTF16BE, WRITE_UTF16LE, unit_bytes, uchar. rewrite E. destruct (Z.ltb_spec c 0x10000).
  - unmask. rewrite (Z.mod_small (c / 256)); [by destruct be|]. Z.to_euclidean_division_equations; lia.
  - rewrite u32_id by lia. unmask. cbn zeta.
    assert (E1 : ((c / 1024) mod 64 + (c - 65536) / 1024 / 64 mod 4 * 64) mod 256 = (c - 65536) / 1024 mod 256)
      by (Z.to_euclidean_division_equations; lia).
    assert (E2 : (c - 65536) / 262144 mod 4 = (c - 65536) / 1024 / 256) by (Z.to_euclidean_division_equations; lia).
    assert (E3 : c mod 256 = (c - 65536) mod 256) by (Z.to_euclidean_division_equations; lia).
    assert (E4 : c / 256 mod 4 = (c - 65536) mod 1024 / 256) by (Z.to_euclidean_division_equations; lia).
    rewrite E1, E2, E3, E4. by destruct be.
Qed.

Lemma read_unit_bytes be lo hi z : 
  exists a b, unit_bytes be lo hi ++ z = a :: b :: z /\ read_unit be a b = lo + hi * 256.
Proof.
  destruct be; cbn [unit_bytes read_unit app]; eexists _, _; (split; [reflexivity|]);
    unfold unit_be, unit_le; rewrite shl_8; lia.
Qed.

Lemma read_write_utf16 be c z : 0 <= c < 0x110000 -> surrogate c = false ->
  read_utf16 (read_unit be) (write16 be c ++ z) = Ret (c, z).
Proof.
  intros Hc Hs. unfold surrogate in Hs. rewrite write16_units by done. destruct (Z.ltb_spec c 0x10000).
  - destruct (read_unit_bytes be (c mod 256) (c / 256) z) as (a & b & -> & Hu). cbn [read_utf16]. rewrite Hu.
    replace (c mod 256 + c / 256 * 256) with c by (rewrite (Z.div_mod c 256) at 1; lia). by rewrite Hs.
  - cbn zeta. set (d := c - 0x10000). rewrite <- app_assoc.
    destruct (read_unit_bytes be (d / 1024 mod 256) (0xD8 + d / 1024 / 256)
      (unit_bytes be (d mod 256) (0xDC + d mod 1024 / 256) ++ z)) as (a & b & -> & Hu).
    destruct (read_unit_bytes be (d mod 256) (0xDC + d mod 1024 / 256) z) as (a2 & b2 & -> & Hu2).
    cbn [read_utf16]. rewrite Hu, Hu2.
    assert (E1 : d / 1024 mod 256 + (0xD8 + d / 1024 / 256) * 256 = 0xD800 + d / 1024)
      by (Z.to_euclidean_division_equations; lia).
    assert (E2 : d mod 256 + (0xDC + d mod 1024 / 256) * 256 = 0xDC00 + d mod 1024)
      by (Z.to_euclidean_division_equations; lia).
    assert (Hd : 0 <= d / 1024 < 1024) by (unfold d; Z.to_euclidean_division_equations; lia).
    rewrite E1, E2, (proj2 (Z.leb_le _ _)), (proj2 (Z.ltb_lt _ _)) by lia. cbn [andb]. unmask.
    do 2 f_equal. pose proof (Z.mod_pos_bound d 1024 ltac:(lia)).
    assert (E3 : (0xDC00 + d mod 1024) mod 1024 = d mod 1024) by (Z.to_euclidean_division_equations; lia).
    assert (E4 : (0xD800 + d / 1024) mod 64 + (0xD800 + d / 1024) / 64 mod 16 * 64 = d / 1024)
      by (Z.to_euclidean_division_equations; lia).
    rewrite E3, u32_id; [|]; pose proof (Z.div_mod d 1024 ltac:(lia)); unfold d in *; lia.
Qed.

(** ** Lemmas: texts *)

Lemma write_utf8_head c : 0 <= c < 0x110000 -> exists b z, WRITE_UTF8 c = b :: z /\ continues b = false.
Proof.
  intros Hc. unfold WRITE_UTF8.
  assert (Hb : forall b, 0 <= b < 0x80 \/ 0xC0 <= b < 0x100 -> continues b = false).
  { intros b Hb. rewrite (proj1 (byte_facts b ltac:(lia))). apply andb_false_iff. rewrite Z.leb_gt, Z.ltb_ge. lia. }
  destruct (Z.ltb_spec c 0x80); [|destruct (Z.ltb_spec c 0x800); [|destruct (Z.ltb_spec c 0x10000)]];
    eexists _, _; (split; [reflexivity|]); apply Hb; unmask;
    [rewrite Z.mod_small by lia|pose proof (Z.mod_pos_bound (c / 64) 32)|pose proof (Z.mod_pos_bound (c / 4096) 16)
    |pose proof (Z.mod_pos_bound (c / 262144) 8)]; lia.
Qed.

(** A text in an encoding, and the writer of each. *)
Definition write (e : Z) : Z -> list Z :=
  if e =? SQLITE_UTF8 then WRITE_UTF8 else write16 (e =? SQLITE_UTF16BE).
Definition encode (e : Z) (cs : list Z) : list Z := flat_map (write e) cs.

Lemma fresh_text cs : Forall scalar cs -> fresh true (flat_map WRITE_UTF8 cs).
Proof.
  intros Hcs. destruct Hcs as [|c cs [Hc _] _]; [done|]. cbn [flat_map].
  destruct (write_utf8_head c Hc) as (b & z & -> & Hb). done.
Qed.

(** The translation of a text, for a reader that undoes the writer. *)
Lemma translate_text (read : list Z -> outcome (Z * list Z)) (from_ to : Z -> list Z) cs fuel :
  Forall scalar cs ->
  (forall c cs, scalar c -> Forall scalar cs ->
     from_ c <> [] /\ read (from_ c ++ flat_map from_ cs) = Ret (c, flat_map from_ cs)) ->
  (length (flat_map from_ cs) < fuel)%nat ->
  translate read to fuel (flat_map from_ cs) = Ret (flat_map to cs).
Proof.
  intros Hcs Hread. revert fuel. induction Hcs as [|c cs Hc Hcs IH]; intros [|fuel] Hf; try (cbn in Hf; lia); [done|].
  destruct (Hread c cs Hc Hcs) as [Hne Hr]. cbn [translate flat_map].
  destruct (from_ c ++ flat_map from_ cs) as [|b z] eqn:E.
  { by apply app_eq_nil in E as [? _]. }
  rewrite Hr. cbn [mbind outcome_bind]. rewrite IH; [done|].
  cbn [flat_map] in Hf. rewrite length_app in Hf. destruct (from_ c); [done|]. cbn [length] in Hf. lia.
Qed.

Lemma read_text_utf8 c cs : scalar c -> Forall scalar cs ->
  WRITE_UTF8 c <> [] /\ READ_UTF8 (WRITE_UTF8 c ++ flat_map WRITE_UTF8 cs) = Ret (c, flat_map WRITE_UTF8 cs).
Proof.
  intros Hc Hcs. pose proof Hc as (Hr & _). split.
  - by destruct (write_utf8_head c Hr) as (b & z & -> & _).
  - unfold READ_UTF8. rewrite read_write_utf8 by (done || by apply fresh_text). by rewrite scalar_rendered.
Qed.

Lemma write16_ne be c : 0 <= c < 0x110000 -> write16 be c <> [].
Proof. intros Hc. rewrite write16_units by done. by destruct (c <? 0x10000), be. Qed.

Lemma read_text_utf16 be c cs : scalar c -> Forall scalar cs ->
  write16 be c <> [] /\ read_utf16 (read_unit be) (write16 be c ++ flat_map (write16 be) cs) = Ret (c, flat_map (write16 be) cs).
Proof. intros (Hr & Hs & _) _. split; [by apply write16_ne|by apply read_write_utf16]. Qed.

(** A text in UTF-16 is a list of units. *)
Definition units (c : Z) : list (Z * Z) :=
  if c <? 0x10000 then [(c mod 256, c / 256)]
  else let d := c - 0x10000 in [(d / 1024 mod 256, 0xD8 + d / 1024 / 256); (d mod 256, 0xDC + d mod 1024 / 256)].

Definition unit_pair (be : bool) (u : Z * Z) : list Z := unit_bytes be u.1 u.2.

Lemma text_units be cs : Forall scalar cs -> flat_map (write16 be) cs = flat_map (unit_pair be) (flat_map units cs).
Proof.
  induction 1 as [|c cs [Hc _] _ IH]; [done|]. cbn [flat_map]. rewrite flat_map_app, <- IH. f_equal.
  rewrite write16_units by done. unfold units.
  destruct (c <? 0x10000); cbn zeta; cbn [flat_map]; by rewrite app_nil_r.
Qed.

Lemma swap_units be us tail :
  swap_bytes (length us) (flat_map (unit_pair be) us ++ tail) = Ret (flat_map (unit_pair (negb be)) us ++ tail).
Proof. induction us as [|u us IH]; [done|]. destruct be; cbn in *; by rewrite IH. Qed.

Lemma units_length be us : length (flat_map (unit_pair be) us) = (2 * length us)%nat.
Proof. induction us as [|u us IH]; [done|]. cbn [flat_map]. rewrite length_app, IH. destruct be; cbn; lia. Qed.

(** ** Lemmas: arbitrary bytes *)

Abbreviation is_byte b := (0 <= b < 256).

Lemma write_utf8_length c : (1 <= length (WRITE_UTF8 c) <= 4)%nat /\ (c <= 0xFFFF -> (length (WRITE_UTF8 c) <= 3)%nat).
Proof.
  unfold WRITE_UTF8. destruct (Z.ltb_spec c 0x80); [|destruct (Z.ltb_spec c 0x800); [|destruct (Z.ltb_spec c 0x10000)]];
    cbn; lia.
Qed.

Lemma write16_length be c : length (write16 be c) = if c <=? 0xFFFF then 2%nat else 4%nat.
Proof. destruct be; cbn; unfold WRITE_UTF16BE, WRITE_UTF16LE; by destruct (c <=? 0xFFFF). Qed.

Lemma write_utf8_bytes c : 0 <= c -> Forall (fun b => is_byte b) (WRITE_UTF8 c).
Proof.
  intros Hc. unfold WRITE_UTF8.
  destruct (Z.ltb_spec c 0x80); [|destruct (Z.ltb_spec c 0x800); [|destruct (Z.ltb_spec c 0x10000)]]; unmask;
    pose proof (Z.mod_pos_bound c 64); pose proof (Z.mod_pos_bound (c / 64) 64); pose proof (Z.mod_pos_bound (c / 4096) 64);
    pose proof (Z.mod_pos_bound (c / 64) 32); pose proof (Z.mod_pos_bound (c / 4096) 16);
    pose proof (Z.mod_pos_bound (c / 262144) 8); pose proof (Z.mod_pos_bound c 256); repeat constructor; lia.
Qed.

Lemma write16_bytes be c : 0 <= c -> Forall (fun b => is_byte b) (write16 be c).
Proof.
  intros Hc. assert (Hu : forall x, 0 <= uchar x < 256) by (intros; apply Z.mod_pos_bound; lia).
  pose proof (Z.mod_pos_bound c 256). pose proof (Z.mod_pos_bound (c / 256) 256). pose proof (Z.mod_pos_bound (c / 256) 4).
  pose proof (Z.mod_pos_bound (u32 (c - 65536) / 262144) 4).
  destruct be; cbn [write16]; unfold WRITE_UTF16BE, WRITE_UTF16LE; destruct (c <=? 0xFFFF); unmask;
    repeat (constructor; [first [apply Hu|lia]|]); constructor.
Qed.

(** The reader stays in the buffer, takes at least one byte, and two when the
    character lies outside the basic plane. *)
Lemma read_rest_safe c z : 0 <= c < 2 ^ 32 ->
  exists c' z', read_rest true c z = Ret (c', z') /\ 0 <= c' < 2 ^ 32 /\ (length z' <= length z)%nat
    /\ (Forall (fun b => is_byte b) z -> Forall (fun b => is_byte b) z')
    /\ (c' <> c -> (length z' < length z)%nat).
Proof.
  revert c. induction z as [|b z IH]; intros c Hc; cbn [read_rest].
  { exists c, []. split; [done|]. split; [done|]. split; [done|]. split; done. }
  destruct (continues b).
  - destruct (IH (shift_in c b)) as (c' & z' & -> & Hc' & Hl & Hb & _); [apply u32_range|].
    exists c', z'. split; [done|]. split; [done|]. cbn [length]. split; [lia|].
    split; [intros [_ ?]%Forall_cons; auto|lia].
  - exists c, (b :: z). split; [done|]. split; [done|]. split; [done|]. split; done.
Qed.

Lemma render_range c : 0 <= c < 2 ^ 32 -> 0 <= render c < 2 ^ 32 /\ (c < 0x80 -> render c = 0xFFFD) .
Proof.
  intros Hc. unfold render. split; [split_if; lia|]. intros Hl. by rewrite (proj2 (Z.ltb_lt _ _) Hl).
Qed.

Lemma read_utf8_safe z : z <> [] -> Forall (fun b => is_byte b) z ->
  exists c z', READ_UTF8 z = Ret (c, z') /\ 0 <= c < 2 ^ 32 /\ Forall (fun b => is_byte b) z'
    /\ (length z' < length z)%nat /\ (0xFFFF < c -> (length z' + 2 <= length z)%nat).
Proof.
  intros Hne Hz. destruct z as [|b z]; [done|]. apply Forall_cons in Hz as [Hb Hz].
  unfold READ_UTF8. cbn [read_utf8]. destruct (Z.leb_spec 0xC0 b).
  - pose proof (trans1_range (b - 0xC0) ltac:(lia)) as Ht.
    destruct (read_rest_safe (trans1 (b - 0xC0)) z) as (c & z' & -> & Hc & Hl & Hz' & Hd); [lia|].
    cbn [mbind outcome_bind]. destruct (render_range c Hc) as [Hr Hs]. exists (render c), z'. cbn [length].
    split; [done|]. split; [done|]. split; [auto|]. split; [lia|]. intros Hbig.
    destruct (Z.eq_dec c (trans1 (b - 0xC0))) as [E|E]; [rewrite Hs in Hbig by lia; lia|]. specialize (Hd E). lia.
  - exists b, z. split; [done|]. cbn [length]. split; [lia|]. split; [done|]. lia.
Qed.

Lemma unit_range be a b : is_byte a -> is_byte b -> 0 <= read_unit be a b < 0x10000.
Proof. intros Ha Hb. destruct be; cbn [read_unit]; unfold unit_be, unit_le; rewrite shl_8; lia. Qed.

Lemma read_utf16_safe be z : z <> [] -> Forall (fun b => is_byte b) z -> Nat.Even (length z) ->
  exists c z', read_utf16 (read_unit be) z = Ret (c, z') /\ 0 <= c < 2 ^ 32 /\ Forall (fun b => is_byte b) z'
    /\ Nat.Even (length z') /\ (length z' + 2 <= length z)%nat /\ (0xFFFF < c -> (length z' + 4 <= length z)%nat).
Proof.
  intros Hne Hz He. destruct z as [|a [|b z]]; [done|by destruct He as [k Hk]; cbn in Hk; lia|].
  apply Forall_cons in Hz as [Ha Hz]. apply Forall_cons in Hz as [Hb Hz].
  assert (Hez : Nat.Even (length z)) by (destruct He as [k Hk]; cbn in Hk; exists (k - 1)%nat; lia).
  pose proof (unit_range be a b Ha Hb) as Hu. cbn [read_utf16].
  destruct (surrogate (read_unit be a b)) eqn:Es; unfold surrogate in Es; rewrite Es.
  2: { eexists _, z. split; [reflexivity|]. cbn [length]. split; [lia|]. split; [done|]. split; [done|]. lia. }
  destruct z as [|a2 [|b2 z]].
  - eexists _, []. split; [reflexivity|]. cbn [length]. split; [lia|]. split; [done|]. split; [done|]. lia.
  - by destruct Hez as [k Hk]; cbn in Hk; lia.
  - eexists _, z. split; [reflexivity|]. cbn [length]. split; [apply u32_range|].
    apply Forall_cons in Hz as [_ Hz]. apply Forall_cons in Hz as [_ Hz]. split; [done|].
    split; [destruct Hez as [k Hk]; cbn in Hk; exists (k - 1)%nat; lia|]. lia.
Qed.

(** The loop over readers that make progress: it returns, and writes at most
    twice as many bytes as it reads. *)
Lemma translate_safe read to (ok : list Z -> Prop) fuel z :
  (forall z, z <> [] -> ok z -> exists c z', read z = Ret (c, z') /\ ok z' /\ (length z' < length z)%nat
     /\ (length (to c) + 2 * length z' <= 2 * length z)%nat /\ Forall (fun b => is_byte b) (to c)) ->
  ok z -> (length z < fuel)%nat ->
  exists out, translate read to fuel z = Ret out /\ (length out <= 2 * length z)%nat /\ Forall (fun b => is_byte b) out.
Proof.
  intros Hread. revert z. induction fuel as [|fuel IH]; [lia|]. intros z Hz Hf. cbn [translate].
  destruct z as [|b z]; [by exists []|]. set (y := b :: z) in *.
  destruct (Hread y) as (c & z' & -> & Hz' & Hlt & Hle & Hb); [done|done|]. cbn [mbind outcome_bind].
  destruct (IH z' Hz' ltac:(lia)) as (out & -> & Ho & Hbo). cbn [mbind outcome_bind]. eexists. split; [reflexivity|].
  rewrite length_app. split; [lia|]. by apply Forall_app.
Qed.

(** ** Lemmas: the translation *)

Definition encoding (e : Z) : Prop := e = SQLITE_UTF8 \/ e = SQLITE_UTF16LE \/ e = SQLITE_UTF16BE.
Definition terminator (e : Z) : list Z := if e =? SQLITE_UTF8 then [0] else [0; 0].

(** A string value; its text and what lies behind it. *)
Definition is_string (m : Mem) : Prop :=
  encoding (enc m) /\ negb (Z.land (flags m) MEM_Str =? 0) = true
  /\ 0 <= n m < 2 ^ 30 /\ (Z.to_nat (n m) <= length (z_ m))%nat /\ Forall (fun b => is_byte b) (z_ m).
Definition text_of (m : Mem) : list Z := firstn (Z.to_nat (n m)) (z_ m).

Lemma translated_flags f : negb (Z.land (Z.lor (Z.lor MEM_Str MEM_Term) f) MEM_Str =? 0) = true.
Proof.
  apply negb_true_iff, Z.eqb_neq. intros H0. apply (f_equal (fun z => Z.testbit z 1)) in H0.
  rewrite Z.land_spec, !Z.lor_spec, Z.testbit_0_l in H0. done.
Qed.

Lemma byte_swap_safe k z : (2 * k <= length z)%nat -> Forall (fun b => is_byte b) z ->
  exists z', swap_bytes k z = Ret z' /\ length z' = length z /\ Forall (fun b => is_byte b) z'.
Proof.
  revert z. induction k as [|k IH]; intros z Hk Hz; [by exists z|].
  destruct z as [|a [|b z]]; cbn [length] in Hk; try lia. cbn [swap_bytes].
  apply Forall_cons in Hz as [Ha Hz]. apply Forall_cons in Hz as [Hb Hz].
  destruct (IH z ltac:(lia) Hz) as (z' & -> & Hl & Hz'). cbn [mbind outcome_bind].
  eexists. split; [reflexivity|]. cbn [length]. split; [lia|]. repeat (constructor; [done|]). done.
Qed.

(** The two readers and writers of a translation that uses a new buffer. *)
Definition reader (e : Z) : list Z -> outcome (Z * list Z) :=
  if e =? SQLITE_UTF8 then READ_UTF8 else read_utf16 (read_unit (e =? SQLITE_UTF16BE)).

(** How much of the buffer is read. *)
Definition used_bytes (n e' : Z) : Z := if e' =? SQLITE_UTF8 then n / 2 * 2 else n.

Section Translation.
Context `{Build}.

Lemma asserts_hold m e' : is_string m -> enc m <> e' -> translate_asserts m e' = Ret tt.
Proof.
  intros (He & Hf & Hn & _) Hd. unfold translate_asserts. rewrite Hf.
  rewrite (proj2 (Z.eqb_neq (enc m) e')), (proj2 (Z.eqb_neq (enc m) 0)), (proj2 (Z.leb_le 0 (n m)));
    [unfold assert_; by destruct NDEBUG|lia|by destruct He as [->|[->| ->]]|done].
Qed.

(** The function, once the preconditions are out of the way. *)
Lemma translate_unfold m e' out : is_string m -> encoding e' -> enc m <> e' ->
  (enc m = SQLITE_UTF8 \/ e' = SQLITE_UTF8) ->
  let k := used_bytes (n m) e' in
  let zIn := firstn (Z.to_nat k) (z_ m) in
  translate (reader (enc m)) (write e') (S (length zIn)) zIn = Ret out ->
  (length out <= 2 * length zIn)%nat ->
  sqlite3VdbeMemTranslate true m e'
  = Ret (0, {| z_ := out ++ terminator e'; n := Z.of_nat (length out); enc := e';
               flags := Z.lor (Z.lor MEM_Str MEM_Term) (Z.land (flags m) (Z.lor MEM_AffMask MEM_Subtype)) |}).
Proof.
  intros Hm He' Hne H8 k zIn Ht Ho. pose proof Hm as (He & Hf & Hn & Hl & _). unfold sqlite3VdbeMemTranslate.
  assert (Hk : 0 <= k <= n m) by (unfold k, used_bytes; split_if; Z.to_euclidean_division_equations; lia).
  assert (Hin : length zIn = Z.to_nat k) by (unfold zIn; rewrite length_firstn; lia).
  rewrite asserts_hold by done. cbn [mbind outcome_bind].
  replace (negb (enc m =? SQLITE_UTF8) && negb (e' =? SQLITE_UTF8)) with false
    by (destruct H8 as [-> | ->]; by rewrite ?andb_false_r).
  cbn [negb]. fold (used_bytes (n m) e'). fold k. fold (terminator e').
  rewrite bool_decide_eq_true_2 by lia. cbn [negb]. fold zIn.
  assert (Hlen : (2 * k + Z.of_nat (length (terminator e')) <? Z.of_nat (length (out ++ terminator e'))) = false)
    by (apply Z.ltb_ge; rewrite length_app; lia).
  assert (Hi : i32 (Z.of_nat (length out)) = Z.of_nat (length out)) by (apply i32_id; lia).
  assert (Hle : (Z.of_nat (length out) + Z.of_nat (length (terminator e')) <=? 2 * k + Z.of_nat (length (terminator e'))) = true)
    by (apply Z.leb_le; lia).
  unfold reader, write in Ht. clearbody zIn.
  destruct He as [E|[E|E]], He' as [-> |[-> | ->]]; rewrite E in *; try done; try (exfalso; destruct H8; done);
    cbn in Ht |- *; rewrite ?(assert_true true) by done; cbn [mbind outcome_bind]; rewrite Ht; cbn [mbind outcome_bind];
    cbn in Hlen, Hle |- *; rewrite Hlen, Hi, assert_true by done; done.
Qed.

End Translation.

Lemma reader_safe e z : encoding e -> z <> [] -> Forall (fun b => is_byte b) z ->
  (e <> SQLITE_UTF8 -> Nat.Even (length z)) -> forall e', encoding e' -> e = SQLITE_UTF8 \/ e' = SQLITE_UTF8 -> e <> e' ->
  exists c z', reader e z = Ret (c, z') /\ (Forall (fun b => is_byte b) z' /\ (e <> SQLITE_UTF8 -> Nat.Even (length z')))
    /\ (length z' < length z)%nat /\ (length (write e' c) + 2 * length z' <= 2 * length z)%nat
    /\ Forall (fun b => is_byte b) (write e' c).
Proof.
  intros He Hne Hz Hev e' He' H8 Hd. destruct (Z.eq_dec e SQLITE_UTF8) as [->|Hn8].
  - destruct (read_utf8_safe z Hne Hz) as (c & z' & Hr & Hc & Hz' & Hlt & Hbig). exists c, z'.
    assert (Hw : write e' = write16 (e' =? SQLITE_UTF16BE)) by (destruct He' as [-> |[-> | ->]]; done).
    rewrite Hw, write16_length. split; [done|]. split; [done|]. split; [done|]. split; [|apply write16_bytes; lia].
    destruct (Z.leb_spec c 0xFFFF); lia.
  - destruct H8 as [| ->]; [done|].
    assert (Hr : reader e = read_utf16 (read_unit (e =? SQLITE_UTF16BE))) by (destruct He as [-> |[-> | ->]]; done).
    rewrite Hr. destruct (read_utf16_safe (e =? SQLITE_UTF16BE) z Hne Hz (Hev Hn8)) as (c & z' & -> & Hc & Hz' & Hez & Hlt & Hbig).
    change (write SQLITE_UTF8) with WRITE_UTF8. exists c, z'. destruct (write_utf8_length c) as [Hl4 Hl3].
    split; [done|]. split; [done|]. split; [lia|]. split; [|by apply write_utf8_bytes; lia].
    destruct (Z.le_gt_cases c 0xFFFF) as [Hle|Hgt]; [specialize (Hl3 Hle)|specialize (Hbig ltac:(lia))]; lia.
Qed.

(** [used_bytes] is even whenever the source is UTF-16. *)
Lemma used_even n e e' : 0 <= n -> e = SQLITE_UTF8 \/ e' = SQLITE_UTF8 -> e <> SQLITE_UTF8 ->
  Nat.Even (Z.to_nat (used_bytes n e')).
Proof.
  intros Hn [| ->] Hne; [done|]. exists (Z.to_nat (n / 2)). unfold used_bytes. cbn.
  pose proof (Z.div_pos n 2). lia.
Qed.

Lemma translate_fits e e' z : encoding e -> encoding e' -> e = SQLITE_UTF8 \/ e' = SQLITE_UTF8 -> e <> e' ->
  Forall (fun b => is_byte b) z -> (e <> SQLITE_UTF8 -> Nat.Even (length z)) ->
  exists out, translate (reader e) (write e') (S (length z)) z = Ret out
    /\ (length out <= 2 * length z)%nat /\ Forall (fun b => is_byte b) out.
Proof.
  intros He He' H8 Hne Hz Hev.
  apply (translate_safe _ _ (fun z => Forall (fun b => is_byte b) z /\ (e <> SQLITE_UTF8 -> Nat.Even (length z))));
    [|done|lia].
  intros y Hy [Hby Hey]. by apply reader_safe.
Qed.

(** ** Lemmas: the translation of a text *)

(** The value holds the text [cs]. *)
Definition holds (m : Mem) (cs : list Z) : Prop := is_string m /\ text_of m = encode (enc m) cs.

Lemma holds_length m cs : holds m cs -> n m = Z.of_nat (length (encode (enc m) cs)).
Proof.
  intros [(_ & _ & Hn & Hl & _) Ht]. rewrite <- Ht. unfold text_of. rewrite length_firstn. lia.
Qed.

Lemma reader_text e cs : encoding e -> Forall scalar cs -> forall fuel e',
  (length (encode e cs) < fuel)%nat -> translate (reader e) (write e') fuel (encode e cs) = Ret (encode e' cs).
Proof.
  intros He Hcs fuel e' Hf. apply translate_text; [done| |done]. intros c ds Hc Hds.
  destruct He as [->|[->| ->]]; [by apply read_text_utf8|by apply read_text_utf16|by apply read_text_utf16].
Qed.

Lemma encode_units e cs : encoding e -> e <> SQLITE_UTF8 -> Forall scalar cs ->
  encode e cs = flat_map (unit_pair (e =? SQLITE_UTF16BE)) (flat_map units cs).
Proof. intros He Hne Hcs. rewrite <- text_units by done. unfold encode. by destruct He as [->|[->| ->]]. Qed.

Lemma encode16_length e cs : encoding e -> e <> SQLITE_UTF8 -> Forall scalar cs ->
  length (encode e cs) = (2 * length (flat_map units cs))%nat.
Proof. intros He Hne Hcs. by rewrite encode_units, units_length by done. Qed.

Lemma swap_text e e' cs tail : encoding e -> e <> SQLITE_UTF8 -> encoding e' -> e' <> SQLITE_UTF8 -> e <> e' ->
  Forall scalar cs -> swap_bytes (length (flat_map units cs)) (encode e cs ++ tail) = Ret (encode e' cs ++ tail).
Proof.
  intros He Hne He' Hne' Hd Hcs. rewrite !encode_units, swap_units by done. do 2 f_equal.
  by destruct He as [->|[->| ->]], He' as [->|[->| ->]].
Qed.

Lemma bytes_text e cs : encoding e -> Forall scalar cs -> Forall (fun b => is_byte b) (encode e cs).
Proof.
  intros He Hcs. induction Hcs as [|c cs [Hc _] _ IH]; [done|]. unfold encode. cbn [flat_map]. apply Forall_app. split; [|done].
  destruct He as [->|[->| ->]]; [apply write_utf8_bytes|apply write16_bytes..]; lia.
Qed.

(** The length of a text in one encoding is at most twice that in another. *)
Lemma text_lengths e e' cs : encoding e -> encoding e' -> Forall scalar cs ->
  (length (encode e' cs) <= 2 * length (encode e cs))%nat.
Proof.
  intros He He' Hcs. induction Hcs as [|c cs [Hc _] _ IH]; [done|]. unfold encode in *. cbn [flat_map].
  rewrite !length_app. enough (length (write e' c) <= 2 * length (write e c))%nat by lia.
  destruct (write_utf8_length c) as [H4 H3].
  assert (H2 : c < 0x80 -> length (WRITE_UTF8 c) = 1%nat) by (intros; unfold WRITE_UTF8; by rewrite (proj2 (Z.ltb_lt _ _))).
  assert (H1 : 0xFFFF < c -> length (WRITE_UTF8 c) = 4%nat).
  { intros. unfold WRITE_UTF8. by rewrite !(proj2 (Z.ltb_ge _ _)) by lia. }
  destruct He as [->|[->| ->]], He' as [->|[->| ->]];
    change (write SQLITE_UTF8) with WRITE_UTF8; change (write SQLITE_UTF16LE) with (write16 false);
    change (write SQLITE_UTF16BE) with (write16 true); rewrite ?write16_length; destruct (Z.leb_spec c 0xFFFF); lia.
Qed.

Lemma translate_holds `{Build} m cs e' : Forall scalar cs -> holds m cs -> encoding e' -> enc m <> e' ->
  2 * n m < 2 ^ 30 \/ Z.of_nat (length (encode e' cs)) < 2 ^ 30 ->
  exists m', sqlite3VdbeMemTranslate true m e' = Ret (0, m') /\ enc m' = e' /\ holds m' cs.
Proof.
  intros Hcs Hm He' Hd Hsz. pose proof (holds_length m cs Hm) as Hn. pose proof Hm as [Hs Ht].
  pose proof Hs as (He & Hf & Hr & Hl & Hb). pose proof (text_lengths (enc m) e' cs He He' Hcs) as Hle.
  assert (Hz : z_ m = encode (enc m) cs ++ skipn (Z.to_nat (n m)) (z_ m)) by (rewrite <- Ht; symmetry; apply take_drop).
  destruct (decide (enc m = SQLITE_UTF8 \/ e' = SQLITE_UTF8)) as [H8|H8].
  - assert (Hk : used_bytes (n m) e' = n m).
    { unfold used_bytes. destruct (Z.eqb_spec e' SQLITE_UTF8) as [->|]; [|done].
      rewrite Hn, encode16_length by done. Z.to_euclidean_division_equations; lia. }
    assert (Hin : firstn (Z.to_nat (used_bytes (n m) e')) (z_ m) = encode (enc m) cs) by (rewrite Hk; exact Ht).
    eexists. split; [apply (translate_unfold m e' (encode e' cs)); try done; rewrite ?Hin; [by apply reader_text; [done..|lia]|lia]|].
    split; [done|]. unfold holds, text_of, is_string. cbn [z_ n enc flags]. split; [split; [done|split; [apply translated_flags|]]|].
    + split; [|split; [rewrite length_app; lia|]].
      * lia.
      * apply Forall_app. split; [by apply bytes_text|]. unfold terminator. split_if; repeat constructor; lia.
    + rewrite Nat2Z.id. apply take_app_length.
  - assert (Hne : enc m <> SQLITE_UTF8) by tauto. assert (Hne' : e' <> SQLITE_UTF8) by tauto.
    pose proof (encode16_length (enc m) cs He Hne Hcs) as Hk.
    pose proof (encode16_length e' cs He' Hne' Hcs) as Hl'. rewrite <- Hk in Hl'.
    pose proof (swap_text (enc m) e' cs (skipn (Z.to_nat (n m)) (z_ m)) He Hne He' Hne' Hd Hcs) as Hsw.
    rewrite <- Hz in Hsw.
    assert (Hn2 : Z.to_nat (n m / 2) = length (flat_map units cs))
      by (rewrite Hn, Hk; Z.to_euclidean_division_equations; lia).
    unfold sqlite3VdbeMemTranslate. rewrite asserts_hold by done. cbn [mbind outcome_bind].
    rewrite !(proj2 (Z.eqb_neq _ _)) by done. cbn [negb andb]. rewrite Hn2, Hsw. cbn [mbind outcome_bind].
    eexists. split; [reflexivity|]. split; [done|]. unfold holds, text_of, is_string. cbn [z_ n enc flags].
    split; [split; [done|split; [done|split; [done|]]]|].
    + rewrite length_app, length_skipn. split; [lia|]. apply Forall_app. split; [by apply bytes_text|by apply Forall_drop].
    + rewrite Hn, Nat2Z.id, <- Hl'. apply take_app_length.
Qed.

(** ** Lemmas: counting *)

(** Skipping a character is reading it. *)
Lemma skip_read z : SQLITE_SKIP_UTF8 z = snd <$> sqlite3Utf8Read z.
Proof.
  unfold sqlite3Utf8Read. destruct z as [|b z]; [done|]. cbn [SQLITE_SKIP_UTF8 read_utf8]. destruct (0xC0 <=? b); [|done].
  generalize (trans1 (b - 0xC0)). induction z as [|d z IH]; intros c; cbn [skip_rest read_rest]; [done|].
  by destruct (continues d).
Qed.

Lemma fresh_terminated cs : Forall scalar cs -> fresh false (flat_map WRITE_UTF8 cs ++ [0]).
Proof.
  intros Hcs. pose proof (fresh_text cs Hcs) as Hf. by destruct (flat_map WRITE_UTF8 cs).
Qed.

Lemma read_limited_bounds k z i c i' c' : read_limited k z i c = Ret (i', c') -> i <= i' <= i + Z.of_nat k.
Proof.
  revert z i c. induction k as [|k IH]; intros z i c Hr; cbn [read_limited] in Hr.
  { injection Hr as <- <-. lia. }
  destruct z as [|b z]; [done|]. destruct (continues b); [|injection Hr as <- <-; lia].
  apply IH in Hr. lia.
Qed.

(** * Properties *)

(** What is written in UTF-8 is read back, for every code point, by the macro and by the
    function, and exactly its one to four bytes are taken; surrogates and the
    two non-characters at the end of the basic plane are read as U+FFFD. *)
Theorem utf8_read_write (limited : bool) (c : Z) (z : list Z) :
  0 <= c < 0x110000 -> fresh limited z ->
  read_utf8 limited (WRITE_UTF8 c ++ z)
  = Ret (if surrogate c || (c =? 0xFFFE) || (c =? 0xFFFF) then 0xFFFD else c, z)
  /\ (1 <= length (WRITE_UTF8 c) <= 4)%nat.
Proof.
  intros Hc Hz. split; [|apply write_utf8_length]. rewrite read_write_utf8 by done. do 2 f_equal. unfold rendered.
  destruct (Z.ltb_spec c 0x80); [|apply render_scalar; lia].
  unfold surrogate. rewrite (proj2 (Z.leb_gt _ _)), !(proj2 (Z.eqb_neq _ _)) by lia. done.
Qed.

Example utf8_read_write_witness :
  sqlite3Utf8Read (WRITE_UTF8 0x20AC ++ [0]) = Ret (0x20AC, [0]) /\ sqlite3Utf8Read (WRITE_UTF8 0xDC00 ++ [0]) = Ret (0xFFFD, [0]).
Proof.
  split; [refine (proj1 (utf8_read_write false 0x20AC [0] _ _))|refine (proj1 (utf8_read_write false 0xDC00 [0] _ _))];
    first [reflexivity|by split].
Defined.

(** C38: translating a text of Unicode scalar values between any two of UTF-8, UTF-16LE
    and UTF-16BE succeeds and gives the same text in the other encoding; translating it
    back gives the bytes one started from. *)
Theorem translate_roundtrip `{Build} (m : Mem) (cs : list Z) (e' : Z) :
  Forall scalar cs -> holds m cs -> encoding e' -> enc m <> e' -> 2 * n m < 2 ^ 30 ->
  exists m' m'', sqlite3VdbeMemTranslate true m e' = Ret (0, m') /\ enc m' = e' /\ text_of m' = encode e' cs
    /\ sqlite3VdbeMemTranslate true m' (enc m) = Ret (0, m'') /\ enc m'' = enc m /\ n m'' = n m
    /\ text_of m'' = text_of m.
Proof.
  intros Hcs Hm He' Hd Hn. pose proof Hm as [(He & _) Ht]. pose proof (holds_length m cs Hm) as Hl.
  destruct (translate_holds m cs e' Hcs Hm He' Hd) as (m' & Ht' & He1 & Hm'); [by left|].
  destruct (translate_holds m' cs (enc m) Hcs Hm' He) as (m'' & Ht'' & He2 & Hm'');
    [rewrite He1; auto|right; lia|].
  exists m', m''. pose proof (holds_length m'' cs Hm'') as Hl''. destruct Hm' as [_ Htx], Hm'' as [_ Htx'].
  rewrite He1 in Htx. rewrite He2 in Htx', Hl''. repeat (split; [done|]). split; [congruence|]. by rewrite Ht.
Qed.

(** The Euro sign and the musical G clef in UTF-8, and in UTF-16. *)
Definition demo_mem : Mem :=
  {| z_ := WRITE_UTF8 0x20AC ++ WRITE_UTF8 0x1D11E ++ [0]; n := 7; enc := SQLITE_UTF8; flags := MEM_Str |}.

Example translate_roundtrip_witness :
  exists m', sqlite3VdbeMemTranslate (H := debug_build) true demo_mem SQLITE_UTF16LE = Ret (0, m')
    /\ text_of m' = [0xAC; 0x20; 0x34; 0xD8; 0x1E; 0xDD].
Proof.
  destruct (translate_roundtrip (H := debug_build) demo_mem [0x20AC; 0x1D11E] SQLITE_UTF16LE) as (m' & m'' & Ht & _ & Hx & _).
  - repeat constructor; vm_compute; done.
  - split; [|reflexivity]. split; [by left|]. split; [reflexivity|]. split; [by split|]. split; [cbn; lia|].
    repeat constructor; vm_compute; done.
  - right. by left.
  - discriminate.
  - reflexivity.
  - exists m'. split; [exact Ht|]. rewrite Hx. reflexivity.
Defined.

(** Translating never leaves its buffers: for every string value, of any bytes
    whatever, the call returns, nothing is read behind the text or written behind the
    [len] bytes that were asked for, no assertion fails, and the result is a terminated string value of at
    most twice the size. Without memory it reports SQLITE_NOMEM and the bytes
    are untouched. *)
Theorem translate_never_overruns `{Build} (alloc : bool) (m : Mem) (e' : Z) :
  is_string m -> encoding e' -> enc m <> e' -> (n m < 2 ^ 29 \/ (enc m <> SQLITE_UTF8 /\ e' <> SQLITE_UTF8)) ->
  exists rc m', sqlite3VdbeMemTranslate alloc m e' = Ret (rc, m')
    /\ (if alloc then rc = 0 /\ enc m' = e' /\ is_string m' /\ n m' <= 2 * n m
                      /\ (enc m = SQLITE_UTF8 \/ e' = SQLITE_UTF8 -> z_ m' = text_of m' ++ terminator e')
        else rc = SQLITE_NOMEM /\ enc m' = enc m /\ z_ m' = z_ m /\ n m - 1 <= n m' <= n m).
Proof.
  intros Hm He' Hd Hn. pose proof Hm as (He & Hf & Hr & Hl & Hb).
  destruct (decide (enc m = SQLITE_UTF8 \/ e' = SQLITE_UTF8)) as [H8|H8]; destruct alloc.
  - set (k := used_bytes (n m) e'). set (zIn := firstn (Z.to_nat k) (z_ m)).
    assert (Hk : 0 <= k <= n m) by (unfold k, used_bytes; split_if; Z.to_euclidean_division_equations; lia).
    assert (Hin : length zIn = Z.to_nat k) by (unfold zIn; rewrite length_firstn; lia).
    destruct (translate_fits (enc m) e' zIn He He' H8 Hd) as (out & Ht & Ho & Hbo).
    { unfold zIn. by apply Forall_take. }
    { intros Hne. rewrite Hin. apply (used_even _ (enc m)); [lia|done|done]. }
    eexists 0, _. split; [by apply (translate_unfold m e' out)|]. split; [done|]. split; [done|].
    unfold is_string, text_of. cbn [z_ n enc flags]. split; [|split; [lia|by rewrite Nat2Z.id, take_app_length]].
    split; [done|]. split; [apply translated_flags|]. split; [|rewrite length_app; split; [lia|]].
    + destruct Hn as [Hn|[? ?]]; [lia|by destruct H8].
    + apply Forall_app. split; [done|]. unfold terminator. split_if; repeat constructor; lia.
  - unfold sqlite3VdbeMemTranslate. rewrite asserts_hold by done. cbn [mbind outcome_bind].
    replace (negb (enc m =? SQLITE_UTF8) && negb (e' =? SQLITE_UTF8)) with false
      by (destruct H8 as [-> | ->]; by rewrite ?andb_false_r).
    cbn [negb]. eexists _, _. split; [reflexivity|]. cbn [enc z_ n]. repeat (split; [done|]).
    split_if; Z.to_euclidean_division_equations; lia.
  - assert (Hne : enc m <> SQLITE_UTF8) by tauto. assert (Hne' : e' <> SQLITE_UTF8) by tauto.
    destruct (byte_swap_safe (Z.to_nat (n m / 2)) (z_ m)) as (z' & Hz' & Hlz & Hbz);
      [Z.to_euclidean_division_equations; lia|done|].
    unfold sqlite3VdbeMemTranslate. rewrite asserts_hold by done. cbn [mbind outcome_bind].
    rewrite !(proj2 (Z.eqb_neq _ _)) by done. cbn [negb andb]. rewrite Hz'. cbn [mbind outcome_bind].
    eexists _, _. split; [reflexivity|]. split; [done|]. split; [done|]. cbn [n].
    split; [|split; [lia|by intros [?|?]]]. unfold is_string. cbn [z_ n enc flags]. rewrite Hlz. do 4 (split; [done|]); done.
  - assert (Hne : enc m <> SQLITE_UTF8) by tauto. assert (Hne' : e' <> SQLITE_UTF8) by tauto.
    unfold sqlite3VdbeMemTranslate. rewrite asserts_hold by done. cbn [mbind outcome_bind].
    rewrite !(proj2 (Z.eqb_neq _ _)) by done. cbn [negb andb]. eexists _, _. split; [reflexivity|].
    repeat (split; [done|]). lia.
Qed.

(** Half a pair of surrogates and an odd byte behind it. *)
Example translate_never_overruns_witness :
  exists m', sqlite3VdbeMemTranslate (H := debug_build) true
      {| z_ := [0x41; 0x00; 0x34; 0xD8; 0xFF]; n := 5; enc := SQLITE_UTF16LE; flags := MEM_Str |} SQLITE_UTF8
    = Ret (0, m') /\ n m' <= 10 /\ z_ m' = [0x41; 0xED; 0xA0; 0xB4; 0].
Proof.
  destruct (translate_never_overruns (H := debug_build) true
    {| z_ := [0x41; 0x00; 0x34; 0xD8; 0xFF]; n := 5; enc := SQLITE_UTF16LE; flags := MEM_Str |} SQLITE_UTF8)
    as (rc & m' & Ht & -> & _ & _ & Hn & _).
  - split; [right; by left|]. split; [reflexivity|]. split; [by split|]. split; [cbn; lia|].
    repeat (constructor; [lia|]). constructor.
  - by left.
  - discriminate.
  - left. reflexivity.
  - exists m'. split; [exact Ht|]. split; [exact Hn|]. revert Ht. vm_compute. by intros [= <-].
Defined.

Lemma char_len_text cs tail behind fuel r :
  Forall (fun c => scalar c /\ c <> 0) cs ->
  match behind with None => head tail = Some 0 | Some k => length tail = k end ->
  fresh false tail -> (length cs < fuel)%nat ->
  char_len fuel (flat_map WRITE_UTF8 cs ++ tail) behind r = Ret (r + Z.of_nat (length cs)).
Proof.
  intros Hcs Hb Hf. revert fuel r. induction Hcs as [|c cs [Hc H0] Hcs IH]; intros [|fuel] r Hl; cbn [length] in *; try lia.
  - cbn [flat_map app char_len]. destruct tail as [|b tail]; [done|]. rewrite Z.add_0_r.
    destruct behind as [k|]; [|by injection Hb as ->]. cbn [from_option]. by rewrite bool_decide_eq_false_2, andb_false_r by lia.
  - cbn [flat_map]. rewrite <- app_assoc. pose proof Hc as (Hr & _).
    assert (Hfr : fresh false (flat_map WRITE_UTF8 cs ++ tail)).
    { destruct cs as [|d ds]; [done|]. apply Forall_cons in Hcs as [[[Hd _] _] _]. cbn [flat_map].
      destruct (write_utf8_head d Hd) as (b & z & -> & Hcont). done. }
    pose proof (read_write_utf8 false c _ Hr Hfr) as Hread. pose proof (skip_read (WRITE_UTF8 c ++ flat_map WRITE_UTF8 cs ++ tail)) as Hs.
    unfold sqlite3Utf8Read in Hs. rewrite Hread in Hs.
    destruct (write_utf8_head c Hr) as (b & z & E & _). rewrite E in Hs, Hread |- *. cbn [app char_len] in *.
    assert (Hb0 : negb (b =? 0) = true).
    { apply negb_true_iff, Z.eqb_neq. intros ->. cbn in Hread. injection Hread as Hread _. rewrite scalar_rendered in Hread by done. congruence. }
    rewrite Hb0. replace (from_option _ _ _) with true.
    2: { destruct behind as [k|]; [|done]. symmetry. apply bool_decide_eq_true. cbn [length].
         rewrite !length_app. lia. }
    cbn [andb]. rewrite Hs. cbn [fmap outcome_fmap mbind outcome_bind snd]. rewrite IH by lia. f_equal. lia.
Qed.

(** The length of a text in characters: up to its terminator, or of the part the limit
    leaves. The byte at the limit is looked at, so it has to be there. *)
Theorem char_len_counts (cs : list Z) (tail : list Z) :
  Forall (fun c => scalar c /\ c <> 0) cs -> fresh false tail ->
  (head tail = Some 0 -> sqlite3Utf8CharLen (encode SQLITE_UTF8 cs ++ tail) (-1) = Ret (Z.of_nat (length cs)))
  /\ sqlite3Utf8CharLen (encode SQLITE_UTF8 cs ++ tail) (Z.of_nat (length (encode SQLITE_UTF8 cs))) = Ret (Z.of_nat (length cs)).
Proof.
  intros Hcs Hf. change (encode SQLITE_UTF8 cs) with (flat_map WRITE_UTF8 cs). unfold sqlite3Utf8CharLen.
  assert (Hlen : (length cs < S (length (flat_map WRITE_UTF8 cs ++ tail)))%nat).
  { rewrite length_app. clear -Hcs. induction Hcs as [|c cs _ _ IH]; [cbn; lia|]. cbn [flat_map length]. rewrite length_app.
    pose proof (write_utf8_length c). lia. }
  split; [intros Ht; by rewrite char_len_text|].
  rewrite (proj2 (Z.leb_le _ _)) by lia. rewrite Nat2Z.id, char_len_text; try done. rewrite length_app. lia.
Qed.

(** [sqlite3Utf8ReadLimited] takes one to four bytes and not more than it may. *)
Theorem read_limited_takes `{Build} (z : list Z) (n : Z) :
  0 < n <= Z.of_nat (length z) ->
  exists i c, sqlite3Utf8ReadLimited z n = Ret (i, c) /\ 1 <= i <= Z.min 4 n.
Proof.
  intros Hn. unfold sqlite3Utf8ReadLimited. rewrite assert_true by (apply Z.ltb_lt; lia). cbn [mbind outcome_bind].
  destruct z as [|b z]; cbn [length] in Hn; [lia|]. destruct (0xC0 <=? b); [|eexists _, _; split; [done|lia]].
  set (m := if 4 <? n then 4 else n). assert (Hm : 0 < m /\ m = Z.min 4 n) by (unfold m; destruct (Z.ltb_spec 4 n); lia).
  assert (Hr : forall k z i c, (k <= length z)%nat -> exists i' c', read_limited k z i c = Ret (i', c')).
  { clear. induction k as [|k IH]; intros z i c Hk; cbn [read_limited]; [by eexists _, _|].
    destruct z as [|d z]; cbn [length] in Hk; [lia|]. destruct (continues d); [apply IH; lia|by eexists _, _]. }
  destruct (Hr (Z.to_nat (m - 1)) z 1 (trans1 (b - 0xC0))) as (i & c & Hi); [lia|]. exists i, c. split; [done|].
  apply read_limited_bounds in Hi. lia.
Qed.

(** A byte-order mark decides the encoding, whatever the value was taken for, and is removed. *)
Theorem bom_believed `{Build} (m : Mem) (e : Z) (cs tail : list Z) :
  encoding e -> e <> SQLITE_UTF8 -> z_ m = write e 0xFEFF ++ encode e cs ++ tail ->
  n m = 2 + Z.of_nat (length (encode e cs)) ->
  exists m', sqlite3VdbeMemHandleBom true m = Ret (0, m') /\ enc m' = e /\ text_of m' = encode e cs
    /\ z_ m' = encode e cs ++ [0; 0] ++ tail.
Proof.
  intros He Hne Hz Hn. unfold sqlite3VdbeMemHandleBom. rewrite assert_true by (apply Z.leb_le; lia).
  cbn [mbind outcome_bind]. rewrite (proj2 (Z.ltb_lt 1 _)) by lia.
  assert (Hk : Z.to_nat (n m - 2) = length (encode e cs)) by lia.
  destruct He as [->|[-> | ->]]; [done|..]; rewrite Hz; cbn; rewrite Hk; (eexists; split; [reflexivity|]); cbn;
    (split; [done|]); unfold text_of; cbn [z_ n]; rewrite Hk, drop_0, !take_app_length;
    (split; [done|]); rewrite (Nat.add_comm _ 2); cbn [Nat.add drop]; by rewrite drop_app_length.
Qed.
