(* ===== verification/Like.v ===== *)
(** * Pattern matching: deps/sqlite3/sqlite3.c, func.c

    [patternCompare], the matcher behind LIKE and GLOB, byte by byte as it is
    written, with its three results and the shortcuts they allow; the two
    interfaces to it and the SQL function.  Texts are UTF-8 and end with a zero byte; a pointer into one is
    the list of the bytes from there on. *)

From S2P Require Import Prelude Words Chars NumText Utf.

(** ** The matcher *)

Record compareInfo := { matchAll : Z; matchOne : Z; matchSet : Z; noCase : bool }.

(** The code points of the characters that are special. *)
Definition ch (s : string) : Z := nth 0 (chars s) 0.

Definition globInfo : compareInfo := {| matchAll := ch "*"; matchOne := ch "?"; matchSet := ch "["; noCase := false |}.
Definition likeInfoNorm : compareInfo := {| matchAll := ch "%"; matchOne := ch "_"; matchSet := 0; noCase := true |}.
Definition likeInfoAlt : compareInfo := {| matchAll := ch "%"; matchOne := ch "_"; matchSet := 0; noCase := false |}.

Definition SQLITE_MATCH : Z := 0.
Definition SQLITE_NOMATCH : Z := 1.
Definition SQLITE_NOWILDCARDMATCH : Z := 2.

(** The macro that is quick on ASCII. *)
Definition Utf8Read (z : list Z) : outcome (Z * list Z) :=
  match z with
  | [] => Undefined
  | a :: z' => if a <? 0x80 then Ret (a, z') else sqlite3Utf8Read z
  end.

(** [*z] *)
Definition byte_at (z : list Z) : outcome Z := match z with [] => Undefined | b :: _ => Ret b end.

(** [z + strcspn(z, stop)] *)
Fixpoint strcspn (z stop : list Z) : outcome (list Z) :=
  match z with
  | [] => Undefined
  | b :: z' => if (b =? 0) || bool_decide (b ∈ stop) then Ret z else strcspn z' stop
  end.

Section Compare.
Context `{Build}.
Variable pInfo : compareInfo.
Variable matchOther : Z.

(** The loop over several wildcards; [None] is the return from its middle. *)
Fixpoint skip_wildcards (fuel : nat) (zPattern zString : list Z) : outcome (option (Z * list Z * list Z)) :=
  match fuel with
  | O => OutOfFuel
  | S fuel =>
      '(c, zPattern) ← Utf8Read zPattern;
      if (c =? matchAll pInfo) || ((c =? matchOne pInfo) && negb (matchOne pInfo =? 0)) then
        if c =? matchOne pInfo then
          '(c2, zString) ← sqlite3Utf8Read zString;
          if c2 =? 0 then Ret None else skip_wildcards fuel zPattern zString
        else skip_wildcards fuel zPattern zString
      else Ret (Some (c, zPattern, zString))
  end.

(** The loop over the members of a set [[...]]; [c] is the character of the
    string. It hands back [c2], [seen] and the pattern. *)
Fixpoint set_loop (fuel : nat) (c c2 prior_c : Z) (seen : bool) (zPattern : list Z) : outcome (Z * bool * list Z) :=
  match fuel with
  | O => OutOfFuel
  | S fuel =>
      if (c2 =? 0) || (c2 =? ch "]") then Ret (c2, seen, zPattern)
      else
        p0 ← byte_at zPattern;
        if (c2 =? ch "-") && negb (p0 =? ch "]") && negb (p0 =? 0) && (0 <? prior_c) then
          '(c2, zPattern) ← sqlite3Utf8Read zPattern;
          let seen := seen || ((prior_c <=? c) && (c <=? c2)) in
          '(c2, zPattern) ← sqlite3Utf8Read zPattern;
          set_loop fuel c c2 0 seen zPattern
        else
          let seen := seen || (c =? c2) in
          let prior_c := c2 in
          '(c2, zPattern) ← sqlite3Utf8Read zPattern;
          set_loop fuel c c2 prior_c seen zPattern
  end.

(** A set behind its opening bracket; whether [c] is to be taken, and the rest of the
    pattern; [None] when the set is not closed. *)
Definition match_set (c : Z) (zPattern : list Z) : outcome (option (bool * list Z)) :=
  '(c2, zPattern) ← sqlite3Utf8Read zPattern;
  '(invert, c2, zPattern) ← (if c2 =? ch "^" then '(c2, zPattern) ← sqlite3Utf8Read zPattern; Ret (true, c2, zPattern)
                             else Ret (false, c2, zPattern));
  '(seen, c2, zPattern) ← (if c2 =? ch "]" then '(c2', zPattern) ← sqlite3Utf8Read zPattern; Ret (c =? ch "]", c2', zPattern)
                           else Ret (false, c2, zPattern));
  '(c2, seen, zPattern) ← set_loop (S (S (length zPattern))) c c2 0 seen zPattern;
  Ret (if c2 =? 0 then None else Some (xorb seen invert, zPattern)).

(** The searches behind a wildcard; [compare] is the recursive call. *)
Section Search.
Variable compare : list Z -> list Z -> outcome Z.

(** [while( *zString )] in front of a set; [zPattern] is at the bracket. *)
Fixpoint search_set (fuel : nat) (zPattern zString : list Z) : outcome Z :=
  match fuel with
  | O => OutOfFuel
  | S fuel =>
      b ← byte_at zString;
      if b =? 0 then Ret SQLITE_NOWILDCARDMATCH
      else
        bMatch ← compare zPattern zString;
        if negb (bMatch =? SQLITE_NOMATCH) then Ret bMatch
        else zString ← SQLITE_SKIP_UTF8 zString; search_set fuel zPattern zString
  end.

(** [while(1)], for an ASCII character in both cases. *)
Fixpoint search_ascii (fuel : nat) (zStop zPattern zString : list Z) : outcome Z :=
  match fuel with
  | O => OutOfFuel
  | S fuel =>
      zString ← strcspn zString zStop;
      match zString with
      | [] => Undefined
      | b :: zString =>
          if b =? 0 then Ret SQLITE_NOWILDCARDMATCH
          else
            bMatch ← compare zPattern zString;
            if negb (bMatch =? SQLITE_NOMATCH) then Ret bMatch
            else search_ascii fuel zStop zPattern zString
      end
  end.

(** [while( (c2 = Utf8Read(zString))!=0 )], for any other character. *)
Fixpoint search_char (fuel : nat) (c : Z) (zPattern zString : list Z) : outcome Z :=
  match fuel with
  | O => OutOfFuel
  | S fuel =>
      '(c2, zString) ← Utf8Read zString;
      if c2 =? 0 then Ret SQLITE_NOWILDCARDMATCH
      else if negb (c2 =? c) then search_char fuel c zPattern zString
      else
        bMatch ← compare zPattern zString;
        if negb (bMatch =? SQLITE_NOMATCH) then Ret bMatch
        else search_char fuel c zPattern zString
  end.

Definition search (c : Z) (zPattern zString : list Z) : outcome Z :=
  if c <? 0x80 then
    search_ascii (S (length zString)) (if noCase pInfo then [sqlite3Toupper c; sqlite3Tolower c] else [c]) zPattern zString
  else search_char (S (length zString)) c zPattern zString.

(** Behind [*]. *)
Definition match_all (zPattern zString : list Z) : outcome Z :=
  r ← skip_wildcards (S (length zPattern)) zPattern zString;
  match r with
  | None => Ret SQLITE_NOWILDCARDMATCH
  | Some (c, zPattern, zString) =>
      if c =? 0 then Ret SQLITE_MATCH
      else if c =? matchOther then
        if matchSet pInfo =? 0 then
          '(c, zPattern) ← sqlite3Utf8Read zPattern;
          if c =? 0 then Ret SQLITE_NOWILDCARDMATCH else search c zPattern zString
        else
          _ ← assert_ (matchOther <? 0x80);
          (* [&zPattern[-1]]: the byte before is [c] *)
          search_set (S (length zString)) (c :: zPattern) zString
      else search c zPattern zString
  end.
End Search.

(** One turn of the main loop per call. *)
Fixpoint pattern_loop (fuel : nat) (zPattern zString : list Z) (zEscaped : option (list Z)) : outcome Z :=
  match fuel with
  | O => OutOfFuel
  | S fuel =>
      let compare_char c zPattern zEscaped :=
        '(c2, zString) ← Utf8Read zString;
        if c =? c2 then pattern_loop fuel zPattern zString zEscaped
        else if noCase pInfo && (sqlite3Tolower c =? sqlite3Tolower c2) && (c <? 0x80) && (c2 <? 0x80)
        then pattern_loop fuel zPattern zString zEscaped
        else if (c =? matchOne pInfo) && negb (bool_decide (zEscaped = Some zPattern)) && negb (c2 =? 0)
        then pattern_loop fuel zPattern zString zEscaped
        else Ret SQLITE_NOMATCH in
      '(c, zPattern) ← Utf8Read zPattern;
      if c =? 0 then b ← byte_at zString; Ret (if b =? 0 then SQLITE_MATCH else SQLITE_NOMATCH)
      else if c =? matchAll pInfo then match_all (fun p s => pattern_loop fuel p s None) zPattern zString
      else if c =? matchOther then
        if matchSet pInfo =? 0 then
          '(c, zPattern) ← sqlite3Utf8Read zPattern;
          if c =? 0 then Ret SQLITE_NOMATCH else compare_char c zPattern (Some zPattern)
        else
          '(c, zString) ← sqlite3Utf8Read zString;
          if c =? 0 then Ret SQLITE_NOMATCH
          else
            r ← match_set c zPattern;
            match r with
            | None | Some (false, _) => Ret SQLITE_NOMATCH
            | Some (true, zPattern) => pattern_loop fuel zPattern zString zEscaped
            end
      else compare_char c zPattern zEscaped
  end.

(** Every call consumes pattern, so its length is enough fuel. *)
Definition patternCompare (zPattern zString : list Z) : outcome Z :=
  pattern_loop (S (length zPattern)) zPattern zString None.

End Compare.

(** ** The interfaces *)

Section Interfaces.
Context `{Build}.

Definition sqlite3_strglob (zGlobPattern zString : option (list Z)) : outcome Z :=
  match zString with
  | None => Ret (Z.b2z (bool_decide (is_Some zGlobPattern)))
  | Some s => match zGlobPattern with None => Ret 1 | Some p => patternCompare globInfo (ch "[") p s end
  end.

Definition sqlite3_strlike (zPattern zStr : option (list Z)) (esc : Z) : outcome Z :=
  match zStr with
  | None => Ret (Z.b2z (bool_decide (is_Some zPattern)))
  | Some s => match zPattern with None => Ret 1 | Some p => patternCompare likeInfoNorm esc p s end
  end.

(** What the SQL function hands out. *)
Inductive like_result := LikeNull | LikeInt (n : Z) | LikeTooComplex | LikeBadEscape.

(** [argv] as texts, [None] for NULL; the escape argument is there when the function has
    three; [limit] is the limit of the connection and [nPat] the size of the pattern. *)
Definition likeFunc (pInfo : compareInfo) (limit nPat : Z) (pat str : option (list Z))
    (esc : option (option (list Z))) : outcome like_result :=
  let finish pInfo escape :=
    match str, pat with
    | Some zA, Some zB => r ← patternCompare pInfo escape zB zA; Ret (LikeInt (Z.b2z (r =? SQLITE_MATCH)))
    | _, _ => Ret LikeNull
    end in
  if limit <? nPat then Ret LikeTooComplex
  else
    match esc with
    | None => finish pInfo (matchSet pInfo)
    | Some None => Ret LikeNull
    | Some (Some zEsc) =>
        len ← sqlite3Utf8CharLen zEsc (-1);
        if negb (len =? 1) then Ret LikeBadEscape
        else
          '(escape, _) ← sqlite3Utf8Read zEsc;
          finish {| matchAll := if escape =? matchAll pInfo then 0 else matchAll pInfo;
                    matchOne := if escape =? matchOne pInfo then 0 else matchOne pInfo;
                    matchSet := matchSet pInfo; noCase := noCase pInfo |} escape
    end.

End Interfaces.

(** ** Lemmas: terminated texts *)

(** The bytes of a text and its terminator. *)
Inductive terminated : list Z -> Prop :=
| TEnd : terminated [0]
| TByte b z : 0 < b < 256 -> terminated z -> terminated (b :: z).

(** The characters of a text, as the reader sees them. *)
Fixpoint decode (fuel : nat) (z : list Z) : list Z :=
  match fuel with
  | O => []
  | S fuel =>
      match sqlite3Utf8Read z with
      | Ret (c, z) => if c =? 0 then [] else c :: decode fuel z
      | _ => []
      end
  end.
Definition decoded (z : list Z) : list Z := decode (length z) z.

Lemma utf8read_eq z : Utf8Read z = sqlite3Utf8Read z.
Proof.
  unfold sqlite3Utf8Read. destruct z as [|a z]; [done|]. cbn [Utf8Read]. destruct (Z.ltb_spec a 0x80); [|done].
  cbn [read_utf8]. by rewrite (proj2 (Z.leb_gt _ _)) by lia.
Qed.

Lemma terminated_not_nil z : terminated z -> z <> [].
Proof. by destruct 1. Qed.

Lemma rest_terminated c z : 0 <= c -> terminated z ->
  exists c' z', read_rest false c z = Ret (c', z') /\ terminated z' /\ (length z' <= length z)%nat /\ 0 <= c'
    /\ forall stop, Forall (fun x => 0 < x < 0x80) stop -> strcspn z stop = strcspn z' stop.
Proof.
  intros Hc Hz. revert c Hc. induction Hz as [|b z Hb Hz IH]; intros c Hc; cbn [read_rest].
  { exists c, [0]. split; [done|]. split; [constructor|done]. }
  destruct (continues b) eqn:E.
  - destruct (IH (shift_in c b)) as (c' & z' & -> & Hz' & Hl & Hc' & Hs); [apply u32_range|].
    exists c', z'. split; [done|]. split; [done|]. cbn [length]. split; [lia|]. split; [done|].
    intros stop Hstop. rewrite <- (Hs stop Hstop). cbn [strcspn]. rewrite (proj2 (Z.eqb_neq b 0)) by lia.
    rewrite bool_decide_eq_false_2; [done|]. intros Hin. rewrite Forall_forall in Hstop. apply Hstop in Hin.
    rewrite (proj1 (byte_facts b ltac:(lia))) in E. zify_bool. lia.
  - exists c, (b :: z). split; [done|]. split; [by constructor|]. split; [done|]. done.
Qed.

Lemma render_positive c : 0 <= c -> 0x80 <= render c.
Proof. intros Hc. unfold render. split_if; [lia|]. zify_bool. lia. Qed.

(** Reading a character of a text that is not at its end. *)
Lemma read_terminated b z : terminated (b :: z) -> b <> 0 ->
  exists c z', sqlite3Utf8Read (b :: z) = Ret (c, z') /\ 0 < c /\ terminated z' /\ (length z' <= length z)%nat
    /\ (b < 0x80 -> c = b /\ z' = z) /\ (0x80 <= b -> 0x80 <= c)
    /\ (0x80 <= b -> forall stop, Forall (fun x => 0 < x < 0x80) stop -> strcspn (b :: z) stop = strcspn z' stop).
Proof.
  intros Hz Hb. assert (0 < b < 256 /\ terminated z) as [Hr Hz'] by (inversion Hz; subst; done).
  clear Hz. unfold sqlite3Utf8Read. cbn [read_utf8].
  assert (Hcut : 0x80 <= b -> forall stop, Forall (fun x => 0 < x < 0x80) stop -> strcspn (b :: z) stop = strcspn z stop).
  { intros Hge stop Hstop. cbn [strcspn]. rewrite (proj2 (Z.eqb_neq b 0)) by lia.
    rewrite bool_decide_eq_false_2; [done|]. intros Hin. rewrite Forall_forall in Hstop. apply Hstop in Hin. lia. }
  destruct (Z.leb_spec 0xC0 b).
  - pose proof (trans1_range (b - 0xC0) ltac:(lia)).
    destruct (rest_terminated (trans1 (b - 0xC0)) z) as (c & z' & -> & Ht & Hl & Hc & Hs); [lia|done|].
    cbn [mbind outcome_bind]. pose proof (render_positive c Hc). exists (render c), z'.
    split; [done|]. split; [lia|]. split; [done|]. split; [done|]. split; [lia|]. split; [done|].
    intros Hge stop Hstop. by rewrite Hcut, Hs.
  - exists b, z. split; [done|]. split; [lia|]. split; [done|]. split; [done|]. split; [done|]. split; [done|]. done.
Qed.

Lemma decode_fuel f1 f2 z : terminated z -> (length z <= f1)%nat -> (length z <= f2)%nat -> decode f1 z = decode f2 z.
Proof.
  revert f2 z. induction f1 as [|f1 IH]; intros [|f2] z Hz H1 H2; [done|by destruct Hz; cbn in *; lia..|].
  cbn [decode]. destruct z as [|b z]; [by inversion Hz|]. cbn [length] in *.
  destruct (Z.eq_dec b 0) as [->|Hb]; [done|].
  destruct (read_terminated b z Hz Hb) as (c & z' & -> & Hc & Ht & Hl & _). rewrite (proj2 (Z.eqb_neq c 0)) by lia.
  f_equal. apply IH; [done|lia|lia].
Qed.

(** The two cases of a text: at its end, or in front of a character. *)
Inductive view : list Z -> list Z -> Prop :=
| ViewEnd : view [0] []
| ViewChar b z c z' cs : terminated (b :: z) -> b <> 0 -> sqlite3Utf8Read (b :: z) = Ret (c, z') -> 0 < c ->
    terminated z' -> (length z' <= length z)%nat -> cs = decoded z' ->
    (b < 0x80 -> c = b /\ z' = z) -> (0x80 <= b -> 0x80 <= c) ->
    (0x80 <= b -> forall stop, Forall (fun x => 0 < x < 0x80) stop -> strcspn (b :: z) stop = strcspn z' stop) ->
    view (b :: z) (c :: cs).

Lemma decoded_view z : terminated z -> view z (decoded z).
Proof.
  intros Hz. destruct z as [|b z]; [by inversion Hz|]. destruct (Z.eq_dec b 0) as [->|Hb].
  - inversion Hz; subst; [constructor|lia].
  - destruct (read_terminated b z Hz Hb) as (c & z' & Hr & Hc & Ht & Hl & Ha & Hna & Hs).
    unfold decoded. cbn [length decode]. rewrite Hr, (proj2 (Z.eqb_neq c 0)) by lia.
    rewrite (decode_fuel _ (length z')) by (done || lia). econstructor; try done.
Qed.

Lemma decoded_end : decoded [0] = [].
Proof. reflexivity. Qed.

(** The first byte is ASCII exactly when the first character is, and then they are the same. *)
Lemma view_ascii b z c cs a : view (b :: z) (c :: cs) -> a < 0x80 -> (b =? a) = (c =? a).
Proof.
  intros Hv Ha.
  assert ((b < 0x80 -> c = b) /\ (0x80 <= b -> 0x80 <= c)) as [Hb Hnb] by (inversion Hv; subst; naive_solver).
  apply eq_true_iff_eq. rewrite !Z.eqb_eq.
  destruct (Z.lt_ge_cases b 0x80) as [Hlt|Hge]; [by rewrite Hb|specialize (Hnb Hge); lia].
Qed.

Lemma read_end : sqlite3Utf8Read [0] = Ret (0, []).
Proof. reflexivity. Qed.

(** ** Specification: patterns over characters *)

Section Spec.
Variable pInfo : compareInfo.
Variable matchOther : Z.

(** A character of the pattern and one of the string that are the same. *)
Definition same (c x : Z) : bool :=
  (c =? x) || (noCase pInfo && (sqlite3Tolower c =? sqlite3Tolower x) && (c <? 0x80) && (x <? 0x80)).

(** The members of a set up to the closing bracket, as ranges, and the rest of the
    pattern. A minus between two members is a range unless the member before it ended
    one; [prior] is that member, 0 if there is none. *)
Fixpoint members (prior : Z) (p : list Z) : option (list (Z * Z) * list Z) :=
  match p with
  | [] => None
  | c :: p1 =>
      if c =? ch "]" then Some ([], p1)
      else
        match p1 with
        | b :: p2 =>
            if (c =? ch "-") && negb (b =? ch "]") && (0 <? prior)
            then '(ms, q) ← members 0 p2; Some ((prior, b) :: ms, q)
            else '(ms, q) ← members c p1; Some ((c, c) :: ms, q)
        | [] => None
        end
  end.

Definition parse_set (p : list Z) : option (bool * list (Z * Z) * list Z) :=
  let '(invert, p) := match p with c :: q => if c =? ch "^" then (true, q) else (false, p) | [] => (false, p) end in
  let '(first, p) := match p with c :: q => if c =? ch "]" then ([(c, c)], q) else ([], p) | [] => ([], p) end in
  '(ms, q) ← members 0 p; Some (invert, first ++ ms, q).

Definition in_members (x : Z) (ms : list (Z * Z)) : bool := existsb (fun '(a, b) => (a <=? x) && (x <=? b)) ms.

(** What a pattern matches. *)
Inductive matches : list Z -> list Z -> Prop :=
| MEnd : matches [] []
| MAll p s s' : s' `suffix_of` s -> matches p s' -> matches (matchAll pInfo :: p) s
| MOne p x s : matches p s -> matches (matchOne pInfo :: p) (x :: s)
| MEscaped c x p s : matchSet pInfo = 0 -> same c x = true -> matches p s -> matches (matchOther :: c :: p) (x :: s)
| MSet p invert ms q x s : matchSet pInfo <> 0 -> parse_set p = Some (invert, ms, q) ->
    xorb (in_members x ms) invert = true -> matches q s -> matches (matchOther :: p) (x :: s)
| MLiteral c x p s : c <> matchAll pInfo -> c <> matchOther -> same c x = true -> matches p s ->
    matches (c :: p) (x :: s).

(** No two roles for one character. *)
Definition distinct : Prop :=
  matchAll pInfo <> matchOne pInfo /\ matchAll pInfo <> matchOther /\ matchOne pInfo <> matchOther.

Context (Hdist : distinct).

Lemma same_refl c : same c c = true.
Proof. unfold same. by rewrite Z.eqb_refl. Qed.

(** ** Lemmas: one step of a pattern *)

Lemma matches_nil s : matches [] s <-> s = [].
Proof. split; [by inversion 1|intros ->; constructor]. Qed.

Lemma matches_all p s : matches (matchAll pInfo :: p) s <-> exists s', s' `suffix_of` s /\ matches p s'.
Proof.
  destruct Hdist as (H1 & H2 & H3). split.
  - inversion 1; subst; try congruence. eauto.
  - intros (s' & Hs & Hm). by eapply MAll.
Qed.

Lemma matches_escaped c p s : matchSet pInfo = 0 ->
  matches (matchOther :: c :: p) s <-> exists x s', s = x :: s' /\ same c x = true /\ matches p s'.
Proof.
  destruct Hdist as (H1 & H2 & H3). intros H0. split.
  - inversion 1; subst; try congruence. eauto.
  - intros (x & s' & -> & Hx & Hm). by apply MEscaped.
Qed.

Lemma matches_escape_end s : matchSet pInfo = 0 -> ~ matches [matchOther] s.
Proof. destruct Hdist as (H1 & H2 & H3). intros H0. inversion 1; subst; congruence. Qed.

Lemma matches_set p s : matchSet pInfo <> 0 ->
  matches (matchOther :: p) s <-> exists invert ms q x s', parse_set p = Some (invert, ms, q) /\ s = x :: s'
     /\ xorb (in_members x ms) invert = true /\ matches q s'.
Proof.
  destruct Hdist as (H1 & H2 & H3). intros H0. split.
  - inversion 1; subst; try congruence. eauto 10.
  - intros (invert & ms & q & x & s' & Hp & -> & Hx & Hm). by eapply MSet.
Qed.

Lemma matches_char c p s : c <> matchAll pInfo -> c <> matchOther ->
  matches (c :: p) s <-> exists x s', s = x :: s' /\ (same c x = true \/ c = matchOne pInfo) /\ matches p s'.
Proof.
  destruct Hdist as (H1 & H2 & H3). intros Ha Ho. split.
  - inversion 1; subst; try congruence; eauto 10.
  - intros (x & s' & -> & [Hx| ->] & Hm); [by apply MLiteral|by apply MOne].
Qed.

Lemma suffix_cases (t : list Z) x s : t `suffix_of` x :: s -> t = x :: s \/ t `suffix_of` s.
Proof. intros [[|y k] E]; [left; by rewrite E|]. injection E as -> ->. right. by exists k. Qed.

Lemma suffix_of_nil (t : list Z) : t `suffix_of` [] -> t = [].
Proof. intros [k E]. symmetry in E. by apply app_eq_nil in E as [_ ->]. Qed.

(** Some end of the string matches. *)
Definition star (p s : list Z) : Prop := exists s', s' `suffix_of` s /\ matches p s'.

Lemma star_cons_r p x s : star p (x :: s) <-> matches p (x :: s) \/ star p s.
Proof.
  split.
  - intros (s' & Hs & Hm). apply suffix_cases in Hs as [->|Hs]; [by left|right; by exists s'].
  - intros [Hm|(s' & Hs & Hm)]; [by exists (x :: s)|exists s'; split; [by apply suffix_cons_r|done]].
Qed.

Lemma star_nil_r p : star p [] <-> matches p [].
Proof.
  split; [|by exists []]. intros (s' & Hs & Hm). by apply suffix_of_nil in Hs as ->.
Qed.

Lemma star_mono p s t : s `suffix_of` t -> star p s -> star p t.
Proof. intros Hst (s' & Hs & Hm). exists s'. split; [by etrans|done]. Qed.

Lemma star_all p s : star (matchAll pInfo :: p) s <-> star p s.
Proof.
  split.
  - intros (s' & Hs & Hm). apply matches_all in Hm. by eapply star_mono.
  - intros Hs. exists s. split; [done|]. by apply matches_all.
Qed.

Lemma star_one p x s : star (matchOne pInfo :: p) (x :: s) <-> star p s.
Proof.
  destruct Hdist as (H1 & H2 & H3). split.
  - intros (s' & Hs & Hm). apply matches_char in Hm as (y & t & -> & _ & Hm); [|done..].
    apply suffix_cases in Hs as [[= -> ->]|Hs]; [by exists s|]. exists t. split; [|done].
    etrans; [|exact Hs]. by apply suffix_cons_r.
  - intros (s' & [k ->] & Hm). destruct k as [|y k' _] using rev_ind.
    + exists (x :: s'). split; [done|]. by apply MOne.
    + exists (y :: s'). rewrite <- app_assoc. split; [|by apply MOne]. exists (x :: k'). done.
Qed.

Lemma star_one_nil p : ~ star (matchOne pInfo :: p) [].
Proof.
  destruct Hdist as (H1 & H2 & H3). rewrite star_nil_r. intros Hm.
  by apply matches_char in Hm as (y & t & ? & _); [|done..].
Qed.

(** ** The three results *)

Definition verdict (r : Z) (p s : list Z) : Prop :=
  (r = SQLITE_MATCH /\ matches p s) \/ (r = SQLITE_NOMATCH /\ ~ matches p s)
  \/ (r = SQLITE_NOWILDCARDMATCH /\ ~ star p s).

(** What a search finds out. *)
Definition found (r : Z) (p s : list Z) : Prop :=
  (r = SQLITE_MATCH /\ star p s) \/ (r = SQLITE_NOWILDCARDMATCH /\ ~ star p s).

Lemma star_matches p s : matches p s -> star p s.
Proof. by exists s. Qed.

Lemma verdict_iff r p s : verdict r p s -> (r = SQLITE_MATCH <-> matches p s) /\ (r = 0 \/ r = 1 \/ r = 2).
Proof.
  unfold SQLITE_MATCH, verdict, SQLITE_MATCH, SQLITE_NOMATCH, SQLITE_NOWILDCARDMATCH.
  pose proof (star_matches p s) as Hs. intros [[-> H]|[[-> H]|[-> H]]]; (split; [|auto]); split; intros; try done; tauto.
Qed.

(** A wildcard in front hands on what the search has found. *)
Lemma found_verdict r p s : found r p s -> verdict r (matchAll pInfo :: p) s.
Proof.
  intros [[-> H]|[-> H]]; [left|right; right]; (split; [done|]); [by apply matches_all|by rewrite star_all].
Qed.

(** One character of the string consumed by the front of the pattern. *)
Lemma verdict_step r p0 p x s :
  (forall t, matches p0 t -> exists y t', t = y :: t' /\ matches p t') ->
  (matches p0 (x :: s) <-> matches p s) -> verdict r p s -> verdict r p0 (x :: s).
Proof.
  intros Hpeel Hx [[-> H]|[[-> H]|[-> H]]]; [left; by rewrite Hx|right; left; by rewrite Hx|].
  right; right. split; [done|]. rewrite star_cons_r, Hx. intros [Hm|(t & Ht & Hm)]; [by apply H, star_matches|].
  apply Hpeel in Hm as (y & t' & -> & Hm). apply H. exists t'. split; [|done]. etrans; [|exact Ht]. by apply suffix_cons_r.
Qed.

(** Steps of a search: a place that does not match, and one that was tried. *)
Lemma found_skip r p x s : ~ matches p (x :: s) -> found r p s -> found r p (x :: s).
Proof. intros Hm. unfold found. rewrite star_cons_r. tauto. Qed.

Lemma found_try r p0 p x s :
  (forall t, matches p0 t -> exists y t', t = y :: t' /\ matches p t') ->
  (matches p0 (x :: s) <-> matches p s) -> verdict r p s -> r <> SQLITE_NOMATCH -> found r p0 (x :: s).
Proof.
  intros Hpeel Hx Hv Hr. destruct (verdict_step r p0 p x s Hpeel Hx Hv) as [[-> H]|[[-> H]|[-> H]]]; [left|done|by right].
  split; [done|]. by apply star_matches.
Qed.

Lemma found_end p : ~ matches p [] -> found SQLITE_NOWILDCARDMATCH p [].
Proof. right. by rewrite star_nil_r. Qed.

End Spec.

(** ** Lemmas: reading the pattern and the string *)

Ltac step := cbn [mbind outcome_bind].

Lemma decoded_cons b z : terminated (b :: z) -> b <> 0 ->
  exists c z', sqlite3Utf8Read (b :: z) = Ret (c, z') /\ decoded (b :: z) = c :: decoded z' /\ 0 < c
    /\ terminated z' /\ (length z' < length (b :: z))%nat /\ (c < 0x80 -> c = b /\ z' = z).
Proof.
  intros Hz Hb. pose proof (decoded_view _ Hz) as Hv. inversion Hv as [|? ? c z' cs ? ? Hr Hc Ht Hl E Ha Hna]; subst; [done|].
  exists c, z'. split; [done|]. split; [done|]. split; [done|]. split; [done|]. cbn [length]. split; [lia|].
  intros Hlt. destruct (Z.lt_ge_cases b 0x80) as [Hlt'|Hge]; [by apply Ha|specialize (Hna Hge); lia].
Qed.

(** A text is at its end or reads a character. *)
Lemma read_cases z : terminated z ->
  (z = [0] /\ decoded z = [] /\ sqlite3Utf8Read z = Ret (0, []))
  \/ (exists b y c z', z = b :: y /\ b <> 0 /\ sqlite3Utf8Read z = Ret (c, z') /\ decoded z = c :: decoded z' /\ 0 < c
      /\ terminated z' /\ (length z' < length z)%nat /\ (c < 0x80 -> z = c :: z')).
Proof.
  intros Hz. destruct z as [|b z]; [by inversion Hz|]. destruct (Z.eq_dec b 0) as [->|Hb].
  - left. inversion Hz; subst; [done|lia].
  - right. destruct (decoded_cons b z Hz Hb) as (c & z' & Hr & Hd & Hc & Ht & Hl & Ha). exists b, z, c, z'.
    repeat (split; [done|]). intros Hlt. by destruct (Ha Hlt) as [-> ->].
Qed.

Lemma strcspn_spec stop z : Forall (fun x => 0 < x < 0x80) stop -> terminated z ->
  exists z' pre, strcspn z stop = Ret z' /\ terminated z' /\ (length z' <= length z)%nat
    /\ decoded z = pre ++ decoded z' /\ Forall (fun x => x ∉ stop) pre
    /\ (z' = [0] \/ exists b z'', z' = b :: z'' /\ b ∈ stop /\ terminated z'' /\ decoded z' = b :: decoded z'').
Proof.
  intros Hstop. remember (length z) as k eqn:Ek. revert z Ek. induction (lt_wf k) as [k _ IH]. intros z -> Hz.
  pose proof (decoded_view z Hz) as Hv. inversion Hv as [E1 E2|b y c z1 cs Hzy Hb Hr Hc Ht Hl E Ha Hna Hs E1 E2]; subst.
  { exists [0], []. split; [done|]. split; [constructor|]. split; [done|]. split; [done|]. split; [constructor|by left]. }
  destruct (Z.lt_ge_cases b 0x80) as [Hlt|Hge].
  - destruct (Ha Hlt) as [-> ->]. cbn [strcspn]. rewrite (proj2 (Z.eqb_neq b 0)) by done.
    case_bool_decide as Hin; cbn [orb].
    + exists (b :: y), []. split; [done|]. split; [done|]. split; [done|]. split; [done|]. split; [constructor|].
      right. exists b, y. split; [done|]. split; [done|]. split; done.
    + destruct (IH (length y) ltac:(cbn; lia) y eq_refl Ht) as (z' & pre & -> & Ht' & Hl' & Hd & Hp & Hend).
      exists z', (b :: pre). split; [done|]. split; [done|]. cbn [length]. split; [lia|].
      rewrite Hd. split; [done|]. split; [by constructor|done].
  - rewrite (Hs Hge stop Hstop).
    destruct (IH (length z1) ltac:(cbn; lia) z1 eq_refl Ht) as (z' & pre & -> & Ht' & Hl' & Hd & Hp & Hend).
    exists z', (c :: pre). split; [done|]. split; [done|]. cbn [length]. split; [lia|].
    rewrite Hd. split; [done|]. split; [|done]. constructor; [|done]. intros Hin.
    rewrite Forall_forall in Hstop. apply Hstop in Hin. specialize (Hna Hge). lia.
Qed.

Lemma skip_text z : terminated z -> z <> [0] ->
  exists c z', SQLITE_SKIP_UTF8 z = Ret z' /\ decoded z = c :: decoded z' /\ terminated z' /\ (length z' < length z)%nat.
Proof.
  intros Hz Hne. rewrite skip_read. destruct (read_cases z Hz) as [(? & _)|(b & y & c & z' & _ & _ & -> & Hd & _ & Ht & Hl & _)]; [done|].
  by exists c, z'.
Qed.

(** The two ASCII cases of a character. *)
Lemma both_cases pInfo c x : 0 < c < 0x80 -> 0 < x < 0x80 ->
  let stop := if noCase pInfo then [sqlite3Toupper c; sqlite3Tolower c] else [c] in
  Forall (fun x => 0 < x < 0x80) stop /\ bool_decide (x ∈ stop) = same pInfo c x.
Proof.
  intros Hc Hx stop. unfold stop, same. rewrite (proj2 (Z.ltb_lt c 0x80)), (proj2 (Z.ltb_lt x 0x80)), !andb_true_r by lia.
  destruct (noCase pInfo); cbn [andb].
  - rewrite !tolower_spec, toupper_spec by lia. split.
    + unfold in_range, uchar. repeat constructor; destruct (Z.leb_spec 97 c), (Z.leb_spec c 122), (Z.leb_spec 65 c), (Z.leb_spec c 90);
        cbn; rewrite ?Z.mod_small by lia; lia.
    + apply eq_true_iff_eq. rewrite bool_decide_eq_true, orb_true_iff, !Z.eqb_eq.
      unfold in_range, uchar. rewrite !Z.mod_small by lia.
      rewrite !elem_of_cons, elem_of_nil.
      destruct (Z.leb_spec 97 c), (Z.leb_spec c 122), (Z.leb_spec 65 c), (Z.leb_spec c 90), (Z.leb_spec 65 x), (Z.leb_spec x 90);
        cbn; lia.
  - split; [by apply Forall_singleton|]. rewrite orb_false_r. apply eq_true_iff_eq.
    rewrite bool_decide_eq_true, elem_of_cons, elem_of_nil, Z.eqb_eq. lia.
Qed.

Lemma same_wide pInfo c x : 0x80 <= c \/ 0x80 <= x -> same pInfo c x = (c =? x).
Proof.
  intros Hw. unfold same. destruct Hw as [Hw|Hw]; rewrite (proj2 (Z.ltb_ge _ 0x80) Hw), ?andb_false_r; cbn;
    by rewrite ?andb_false_r, orb_false_r.
Qed.

(** ** Lemmas: sets *)

(** The head of a list of characters that was read: 0 at the end. *)
Definition heads (c : Z) (z : list Z) : list Z := if c =? 0 then [] else c :: decoded z.

Definition headed (c : Z) (z : list Z) : Prop := (c = 0 /\ z = []) \/ (0 < c /\ terminated z).

Lemma read_heads z : terminated z -> exists c z', sqlite3Utf8Read z = Ret (c, z') /\ decoded z = heads c z'
  /\ headed c z' /\ (length z' < length z)%nat.
Proof.
  intros Hz. destruct (read_cases z Hz) as [(-> & -> & ->)|(b & y & c & z' & _ & _ & -> & -> & Hc & Ht & Hl & _)].
  - exists 0, []. split; [done|]. split; [done|]. split; [by left|cbn; lia].
  - exists c, z'. unfold heads. rewrite (proj2 (Z.eqb_neq c 0)) by lia. split; [done|]. split; [done|]. split; [by right|done].
Qed.

(** The first byte of a text says whether a given ASCII character or the end comes next. *)
Lemma next_byte z a : terminated z -> 0 < a < 0x80 ->
  exists b, byte_at z = Ret b
    /\ match decoded z with [] => b = 0 | c :: _ => b <> 0 /\ (b =? a) = (c =? a) end.
Proof.
  intros Hz Ha. destruct z as [|b z]; [by inversion Hz|]. exists b. split; [done|]. pose proof (decoded_view _ Hz) as Hv.
  destruct (decoded (b :: z)) as [|c cs] eqn:E; [by inversion Hv|]. split; [by inversion Hv|].
  eapply view_ascii; [exact Hv|lia].
Qed.

Lemma in_members_cons x a b ms : in_members x ((a, b) :: ms) = (a <=? x) && (x <=? b) || in_members x ms.
Proof. done. Qed.

Lemma between_eq x c : (c <=? x) && (x <=? c) = (x =? c).
Proof. apply eq_true_iff_eq. rewrite andb_true_iff, !Z.leb_le, Z.eqb_eq. lia. Qed.

(** What the loop is to hand back, when the members are parsed to [r]. *)
Definition set_result (c : Z) (seen : bool) (r : option (list (Z * Z) * list Z)) (k : nat) (o : outcome (Z * bool * list Z)) : Prop :=
  match r with
  | None => exists seen' z', o = Ret (0, seen', z')
  | Some (ms, q) => exists z', o = Ret (ch "]", seen || in_members c ms, z') /\ decoded z' = q /\ terminated z'
      /\ (length z' <= k)%nat
  end.

Lemma set_result_cons c seen a b r k k' o : (k <= k')%nat ->
  set_result c (seen || (a <=? c) && (c <=? b)) r k o ->
  set_result c seen ('(ms, q) ← r; Some ((a, b) :: ms, q)) k' o.
Proof.
  intros Hk Hr. destruct r as [[ms q]|]; [|exact Hr]. cbn in Hr |- *. destruct Hr as (z' & -> & Hd & Ht & Hl).
  exists z'. rewrite <- orb_assoc. split; [done|]. split; [done|]. split; [done|lia].
Qed.

Lemma set_loop_spec fuel c c2 prior seen z : headed c2 z -> (length z < fuel)%nat ->
  set_result c seen (members prior (heads c2 z)) (length z) (set_loop fuel c c2 prior seen z).
Proof.
  revert c2 prior seen z. induction fuel as [|fuel IH]; [lia|]. intros c2 prior seen z Hc2 Hf. cbn [set_loop]. unfold heads.
  destruct Hc2 as [[-> ->]|[Hpos Hz]]; [cbn; by eexists _, _|]. rewrite (proj2 (Z.eqb_neq c2 0)) by lia. cbn [orb members].
  destruct (Z.eqb_spec c2 (ch "]")) as [->|Hne].
  { exists z. cbn [in_members existsb]. by rewrite orb_false_r. }
  destruct (next_byte z (ch "]") Hz ltac:(by split)) as (p0 & -> & Hp). step.
  destruct (read_heads z Hz) as (d & z1 & Hr & Hd & Hd0 & Hl1). rewrite Hr. step. rewrite Hd in *.
  assert (Hplain : forall o, o = set_loop fuel c d c2 (seen || (c =? c2)) z1 ->
    set_result c seen ('(ms, q) ← members c2 (heads d z1); Some ((c2, c2) :: ms, q)) (length z) o).
  { intros o ->. eapply set_result_cons; [|rewrite between_eq; apply IH; [done|lia]]. lia. }
  destruct Hd0 as [[-> ->]|[Hdp Hz1]]; unfold heads in *.
  - cbn in Hp. subst p0. change (negb (0 =? 0)) with false. rewrite andb_false_r. cbn [andb].
    destruct fuel as [|fuel]; [lia|]. cbn. by eexists _, _.
  - rewrite (proj2 (Z.eqb_neq d 0)) in * by lia. destruct Hp as [Hp0 ->]. rewrite (proj2 (Z.eqb_neq p0 0)) by done.
    cbn [negb]. rewrite andb_true_r. destruct ((c2 =? ch "-") && negb (d =? ch "]") && (0 <? prior)) eqn:Erange.
    + destruct (read_heads z1 Hz1) as (e & z2 & -> & -> & He0 & Hl2). step.
      eapply set_result_cons; [|apply IH; [done|lia]]. lia.
    + by apply Hplain.
Qed.

Lemma match_set_spec c z : terminated z ->
  match parse_set (decoded z) with
  | None => match_set c z = Ret None
  | Some (invert, ms, q) => exists z', match_set c z = Ret (Some (xorb (in_members c ms) invert, z'))
      /\ decoded z' = q /\ terminated z' /\ (length z' < length z)%nat
  end.
Proof.
  intros Hz. unfold match_set, parse_set. destruct (read_heads z Hz) as (c2 & z1 & -> & -> & Hh & Hl). step.
  (* the inversion *)
  assert (Hinv : exists invert c3 z3,
    (if c2 =? ch "^" then '(c2, z1) ← sqlite3Utf8Read z1; Ret (true, c2, z1) else Ret (false, c2, z1))
      = Ret (invert, c3, z3) /\ headed c3 z3 /\ (length z3 < length z)%nat
    /\ (match heads c2 z1 with c :: q => if c =? ch "^" then (true, q) else (false, heads c2 z1) | [] => (false, heads c2 z1) end)
       = (invert, heads c3 z3)).
  { unfold heads at 1. destruct Hh as [[-> ->]|[Hp Hz1]]; [exists false, 0, []; split; [done|split; [by left|done]]|]. rewrite (proj2 (Z.eqb_neq c2 0)) by lia.
    destruct (Z.eqb_spec c2 (ch "^")) as [->|].
    - destruct (read_heads z1 Hz1) as (c3 & z3 & -> & -> & Hh3 & Hl3). step. exists true, c3, z3.
      split; [done|]. split; [done|]. split; [lia|done].
    - exists false, c2, z1. split; [done|]. split; [by right|]. done. }
  destruct Hinv as (invert & c3 & z3 & -> & Hh3 & Hl3 & ->). step. clear Hh Hl c2 z1.
  (* a bracket in front *)
  assert (Hfirst : exists seen c4 z4 first,
    (if c3 =? ch "]" then '(c2', z1) ← sqlite3Utf8Read z3; Ret (c =? ch "]", c2', z1) else Ret (false, c3, z3))
      = Ret (seen, c4, z4) /\ headed c4 z4 /\ (length z4 < length z)%nat
    /\ (match heads c3 z3 with c :: q => if c =? ch "]" then ([(c, c)], q) else ([], heads c3 z3) | [] => ([], heads c3 z3) end)
       = (first, heads c4 z4) /\ forall ms, in_members c (first ++ ms) = seen || in_members c ms).
  { unfold heads at 1. destruct Hh3 as [[-> ->]|[Hp Hz1]]; [exists false, 0, [], []; split; [done|split; [by left|done]]|]. rewrite (proj2 (Z.eqb_neq c3 0)) by lia.
    destruct (Z.eqb_spec c3 (ch "]")) as [->|].
    - destruct (read_heads z3 Hz1) as (c4 & z4 & -> & -> & Hh4 & Hl4). step. exists (c =? ch "]"), c4, z4, [(ch "]", ch "]")].
      split; [done|]. split; [done|]. split; [lia|]. split; [done|]. intros ms. cbn [app]. by rewrite in_members_cons, between_eq.
    - exists false, c3, z3, []. split; [done|]. split; [by right|]. done. }
  destruct Hfirst as (seen & c4 & z4 & first & -> & Hh4 & Hl4 & -> & Hin). step.
  pose proof (set_loop_spec (S (S (length z4))) c c4 0 seen z4 Hh4 ltac:(lia)) as Hs.
  unfold set_result in Hs. destruct (members 0 (heads c4 z4)) as [[ms q]|].
  - destruct Hs as (z' & -> & Hd & Ht & Hl'). step. exists z'. rewrite Hin. split; [done|]. split; [done|]. split; [done|lia].
  - by destruct Hs as (seen' & z' & ->).
Qed.

(** ** Lemmas: searching *)

Section Matcher.
Context `{Build}.
Variable pInfo : compareInfo.
Variable matchOther : Z.
Context (Hdist : distinct pInfo matchOther).
Abbreviation pmatches := (matches pInfo matchOther).
Abbreviation pstar := (star pInfo matchOther).
Abbreviation pverdict := (verdict pInfo matchOther).
Abbreviation pfound := (found pInfo matchOther).

Lemma verdict_cases r p s : pverdict r p s -> (r =? SQLITE_NOMATCH) = true /\ ~ pmatches p s
  \/ (r =? SQLITE_NOMATCH) = false /\ r <> SQLITE_NOMATCH.
Proof. intros [[-> H0]|[[-> H0]|[-> H0]]]; [by right|by left|by right]. Qed.

(** The front of a pattern that takes the characters the same as [c]. *)
Definition takes (c : Z) (p0 p : list Z) : Prop :=
  forall t, pmatches p0 t <-> exists y t', t = y :: t' /\ same pInfo c y = true /\ pmatches p t'.

Lemma takes_step c p0 p x s r : takes c p0 p -> same pInfo c x = true -> pverdict r p s -> r <> SQLITE_NOMATCH ->
  pfound r p0 (x :: s).
Proof.
  intros Ht Hx Hv Hr. apply (found_try _ _ r p0 p x s); [|rewrite (Ht (x :: s))|done|done].
  - intros t (y & t' & -> & _ & Hm)%Ht. by exists y, t'.
  - split; [by intros (y & t' & [= <- <-] & _ & Hm)|intros Hm; by exists x, s].
Qed.

Lemma takes_not c p0 p x s : takes c p0 p -> same pInfo c x = false -> ~ pmatches p0 (x :: s).
Proof. intros Ht Hx (y & t' & [= <- <-] & Hy & _)%Ht. congruence. Qed.

Lemma takes_fail c p0 p x s : takes c p0 p -> ~ pmatches p s -> ~ pmatches p0 (x :: s).
Proof. intros Ht Hx (y & t' & [= <- <-] & Hy & Hm)%Ht. done. Qed.

Lemma takes_end c p0 p : takes c p0 p -> ~ pmatches p0 [].
Proof. by intros Ht (y & t' & ? & _)%Ht. Qed.

Section Searching.
Variable compare : list Z -> list Z -> outcome Z.
Variable zPattern : list Z.
Context (Hcompare : forall s, terminated s -> exists r, compare zPattern s = Ret r /\ pverdict r (decoded zPattern) (decoded s)).

Lemma search_set_spec fuel s : (forall t, pmatches (decoded zPattern) t -> t <> []) -> terminated s -> (length s < fuel)%nat ->
  exists r, search_set compare fuel zPattern s = Ret r /\ pfound r (decoded zPattern) (decoded s).
Proof.
  intros Hne. revert s. induction fuel as [|fuel IH]; [lia|]. intros s Hs Hf. cbn [search_set].
  destruct (read_cases s Hs) as [(-> & Hd & _)|(b & y & c & s' & E & Hb & Hr & Hd & _)].
  { cbn. eexists. split; [reflexivity|]. apply found_end. intros Hm. by apply (Hne []). }
  assert (Hbyte : byte_at s = Ret b) by by rewrite E. rewrite Hbyte. step. rewrite (proj2 (Z.eqb_neq b 0)) by done.
  destruct (Hcompare s Hs) as (r & -> & Hv). step.
  destruct (skip_text s Hs) as (c' & s1 & Hskip & Hd1 & Ht1 & Hl1); [by intros ->|].
  destruct (verdict_cases _ _ _ Hv) as [[-> Hm]|[-> Hr']]; cbn [negb].
  - rewrite Hskip. step. destruct (IH s1 Ht1 ltac:(lia)) as (r' & -> & Hfd). exists r'. split; [done|].
    rewrite Hd1 in *. by apply found_skip.
  - exists r. split; [done|]. destruct Hv as [[-> Hm]|[[-> Hm]|[-> Hm]]]; [left|done|by right].
    split; [done|by apply star_matches].
Qed.

Lemma search_char_spec fuel c p0 s : 0x80 <= c -> takes c p0 (decoded zPattern) -> terminated s -> (length s < fuel)%nat ->
  exists r, search_char compare fuel c zPattern s = Ret r /\ pfound r p0 (decoded s).
Proof.
  intros Hc Ht. revert s. induction fuel as [|fuel IH]; [lia|]. intros s Hs Hf. cbn [search_char]. rewrite utf8read_eq.
  destruct (read_cases s Hs) as [(-> & Hd & ->)|(b & y & x & s' & _ & _ & -> & -> & Hx & Ht' & Hl & _)]; step.
  { eexists. split; [reflexivity|]. by apply found_end, (takes_end c _ (decoded zPattern)). }
  rewrite (proj2 (Z.eqb_neq x 0)) by lia. destruct (Z.eqb_spec x c) as [->|Hne]; cbn [negb].
  - destruct (Hcompare s' Ht') as (r & -> & Hv). step. destruct (verdict_cases _ _ _ Hv) as [[-> Hm]|[-> Hr']]; cbn [negb].
    + destruct (IH s' Ht' ltac:(lia)) as (r' & -> & Hfd). exists r'. split; [done|].
      apply found_skip; [by apply (takes_fail c _ (decoded zPattern))|done].
    + exists r. split; [done|]. eapply takes_step; try done. apply same_refl.
  - destruct (IH s' Ht' ltac:(lia)) as (r' & -> & Hfd). exists r'. split; [done|].
    apply found_skip; [|done]. apply (takes_not c _ (decoded zPattern)); [done|]. rewrite same_wide by by left.
    apply Z.eqb_neq. congruence.
Qed.

Lemma found_skip_list r p0 pre s : Forall (fun x => forall s, ~ pmatches p0 (x :: s)) pre -> pfound r p0 s -> pfound r p0 (pre ++ s).
Proof. induction 1 as [|x pre Hx _ IH]; [done|]. intros Hs. cbn [app]. apply found_skip; [apply Hx|by apply IH]. Qed.

Lemma search_ascii_spec fuel c p0 s : 0 < c < 0x80 -> takes c p0 (decoded zPattern) -> terminated s -> (length s < fuel)%nat ->
  exists r, search_ascii compare fuel (if noCase pInfo then [sqlite3Toupper c; sqlite3Tolower c] else [c]) zPattern s = Ret r
    /\ pfound r p0 (decoded s).
Proof.
  intros Hc Ht. set (stop := if noCase pInfo then _ else _). 
  assert (Hstop : Forall (fun x => 0 < x < 0x80) stop) by exact (proj1 (both_cases pInfo c c Hc Hc)).
  assert (Hsame : forall x, 0 < x -> bool_decide (x ∈ stop) = same pInfo c x).
  { intros x Hx. destruct (Z.lt_ge_cases x 0x80) as [Hlt|Hge]; [by apply both_cases|].
    rewrite same_wide by by right. rewrite (proj2 (Z.eqb_neq c x)) by lia. apply bool_decide_eq_false_2. intros Hin.
    rewrite Forall_forall in Hstop. apply Hstop in Hin. lia. }
  assert (Hpos : forall z, terminated z -> Forall (fun x => 0 < x) (decoded z)).
  { intros z. remember (length z) as k eqn:Ek. revert z Ek. induction (lt_wf k) as [k _ IH]. intros z -> Hz.
    destruct (read_cases z Hz) as [(-> & -> & _)|(b & y & x & z' & _ & _ & _ & -> & Hx & Ht' & Hl & _)]; [constructor|].
    constructor; [done|by eapply IH]. }
  revert s. induction fuel as [|fuel IH]; [lia|]. intros s Hs Hf. cbn [search_ascii].
  destruct (strcspn_spec stop s Hstop Hs) as (z' & pre & -> & Hz' & Hl & Hd & Hpre & Hend). step.
  assert (Hskip : Forall (fun x => forall s, ~ pmatches p0 (x :: s)) pre).
  { pose proof (Hpos s Hs) as Hp. rewrite Hd, Forall_app in Hp. destruct Hp as [Hp _].
    apply Forall_forall. intros x Hx t. rewrite Forall_forall in Hpre, Hp. apply (takes_not c _ (decoded zPattern)); [done|].
    rewrite <- Hsame by auto. apply bool_decide_eq_false_2. auto. }
  rewrite Hd. destruct Hend as [->|(b & z'' & -> & Hin & Hz'' & Hdb)].
  - cbn. eexists. split; [reflexivity|]. apply found_skip_list; [done|]. by apply found_end, (takes_end c _ (decoded zPattern)).
  - assert (Hb : 0 < b < 0x80) by (rewrite Forall_forall in Hstop; auto). rewrite (proj2 (Z.eqb_neq b 0)) by lia.
    assert (Hbs : same pInfo c b = true) by (rewrite <- Hsame by lia; by apply bool_decide_eq_true_2).
    cbn [length] in Hl. rewrite Hdb. destruct (Hcompare z'' Hz'') as (r & -> & Hv). step.
    destruct (verdict_cases _ _ _ Hv) as [[-> Hm]|[-> Hr']]; cbn [negb].
    + destruct (IH z'' Hz'' ltac:(lia)) as (r' & -> & Hfd). exists r'. split; [done|].
      apply found_skip_list; [done|]. apply found_skip; [by apply (takes_fail c _ (decoded zPattern))|done].
    + exists r. split; [done|]. apply found_skip_list; [done|]. by eapply takes_step.
Qed.

Lemma search_spec c p0 s : 0 < c -> takes c p0 (decoded zPattern) -> terminated s ->
  exists r, search pInfo compare c zPattern s = Ret r /\ pfound r p0 (decoded s).
Proof.
  intros Hc Ht Hs. unfold search. destruct (Z.ltb_spec c 0x80); [apply search_ascii_spec|apply search_char_spec]; done || lia.
Qed.

End Searching.

(** ** Lemmas: wildcards *)

(** What skipping comes to: [k] is the size of the pattern, [P] and [S] its characters and
    those of the string. *)
Definition skipped (P S : list Z) (k : nat) (r : option (Z * list Z * list Z)) : Prop :=
  match r with
  | None => ~ pstar P S
  | Some (c, zP', zS') => terminated zS'
      /\ ((c = 0 /\ pstar P S)
          \/ (0 < c /\ c <> matchAll pInfo /\ c <> matchOne pInfo /\ terminated zP' /\ (length zP' < k)%nat
              /\ (pstar P S <-> pstar (c :: decoded zP') (decoded zS'))
              /\ (c < 0x80 -> terminated (c :: zP') /\ decoded (c :: zP') = c :: decoded zP' /\ (length zP' < k)%nat)))
  end.

Lemma skipped_weaken P S P' S' k k' r : (pstar P' S' <-> pstar P S) -> (k <= k')%nat -> skipped P S k r -> skipped P' S' k' r.
Proof.
  intros HP Hk. destruct r as [[[c zP] zS]|]; cbn; rewrite HP; [|done]. intros [HS [Hr|Hr]]; (split; [done|]); [by left|right].
  destruct Hr as (? & ? & ? & ? & ? & ? & Ha). repeat (split; [done || lia|]). intros Hlt. destruct (Ha Hlt) as (? & ? & ?).
  split; [done|]. split; [done|lia].
Qed.

Lemma skip_wildcards_spec fuel zP zS : matchAll pInfo <> 0 -> terminated zP -> terminated zS -> (length zP < fuel)%nat ->
  exists r, skip_wildcards pInfo fuel zP zS = Ret r /\ skipped (decoded zP) (decoded zS) (length zP) r.
Proof.
  intros H0. revert zP zS. induction fuel as [|fuel IH]; [lia|]. intros zP zS HP HS Hf. cbn [skip_wildcards].
  rewrite utf8read_eq.
  destruct (read_cases zP HP) as [(-> & Hd & ->)|(b & y & c & zP' & _ & _ & -> & Hd & Hc & HP' & Hl & Ha)]; step.
  { rewrite (proj2 (Z.eqb_neq 0 (matchAll pInfo))) by done. cbn [orb].
    replace ((0 =? matchOne pInfo) && negb (matchOne pInfo =? 0)) with false.
    2: { rewrite (Z.eqb_sym 0). by destruct (matchOne pInfo =? 0). }
    eexists. split; [reflexivity|]. split; [done|]. left. split; [done|]. rewrite Hd. exists []. split; [|constructor].
    exists (decoded zS). by rewrite app_nil_r. }
  assert (Hnext : (c = matchAll pInfo \/ c = matchOne pInfo) \/ (c <> matchAll pInfo /\ c <> matchOne pInfo)) by lia.
  destruct Hnext as [[->| ->]|[Hna Hno]].
  - rewrite Z.eqb_refl. cbn [orb]. rewrite (proj2 (Z.eqb_neq _ (matchOne pInfo))) by apply Hdist.
    destruct (IH zP' zS HP' HS ltac:(lia)) as (r & -> & Hr). exists r. split; [done|].
    eapply skipped_weaken; [|by apply Nat.lt_le_incl|exact Hr]. by rewrite Hd, star_all.
  - rewrite Z.eqb_refl. rewrite (proj2 (Z.eqb_neq (matchOne pInfo) 0)) by lia. rewrite orb_true_r.
    destruct (read_cases zS HS) as [(-> & HdS & ->)|(b' & y' & x & zS' & _ & _ & -> & HdS & Hx & HS' & HlS & _)]; step.
    + eexists. split; [reflexivity|]. cbn [skipped]. rewrite Hd. by apply star_one_nil.
    + rewrite (proj2 (Z.eqb_neq x 0)) by lia.
      destruct (IH zP' zS' HP' HS' ltac:(lia)) as (r & -> & Hr). exists r. split; [done|].
      eapply skipped_weaken; [|by apply Nat.lt_le_incl|exact Hr]. by rewrite Hd, HdS, star_one.
  - rewrite (proj2 (Z.eqb_neq c (matchAll pInfo)) Hna), (proj2 (Z.eqb_neq c (matchOne pInfo)) Hno). cbn [orb andb].
    eexists. split; [reflexivity|]. split; [done|]. right. split; [done|]. split; [done|]. split; [done|]. split; [done|].
    split; [done|]. rewrite Hd. split; [done|]. intros Hlt. specialize (Ha Hlt). by rewrite <- Ha, Hd.
Qed.

(** ** The matcher *)

(** Behind a wildcard, given that shorter patterns are compared well. *)
Lemma match_all_spec compare zP zS : matchAll pInfo <> 0 -> (matchSet pInfo <> 0 -> 0 < matchOther < 0x80) ->
  (forall p s, terminated p -> terminated s -> (length p <= length zP)%nat ->
     exists r, compare p s = Ret r /\ pverdict r (decoded p) (decoded s)) ->
  terminated zP -> terminated zS ->
  exists r, match_all pInfo matchOther compare zP zS = Ret r /\ pfound r (decoded zP) (decoded zS).
Proof.
  intros H0 Hascii Hcmp HP HS. unfold match_all.
  destruct (skip_wildcards_spec (S (length zP)) zP zS H0 HP HS ltac:(lia)) as (r & -> & Hr). step.
  destruct r as [[[c zP1] zS1]|]; [|eexists; split; [reflexivity|by right]].
  destruct Hr as [HS1 [[-> Hs]|(Hc & Hna & Hno & HP1 & Hl1 & Hstar & Ha)]]; [eexists; split; [reflexivity|by left]|].
  rewrite (proj2 (Z.eqb_neq c 0)) by lia.
  assert (Hcmp1 : forall p, terminated p -> (length p <= length zP)%nat -> forall s, terminated s ->
    exists r, compare p s = Ret r /\ pverdict r (decoded p) (decoded s)) by auto.
  assert (Hback : forall o, (exists r, o = Ret r /\ pfound r (c :: decoded zP1) (decoded zS1)) ->
    exists r, o = Ret r /\ pfound r (decoded zP) (decoded zS)).
  { intros o (r & Hr & Hf). exists r. split; [exact Hr|]. unfold found in *. by rewrite Hstar. }
  apply Hback. destruct (Z.eqb_spec c matchOther) as [->|Hnc].
  - destruct (Z.eqb_spec (matchSet pInfo) 0) as [Hset|Hset].
    + destruct (read_cases zP1 HP1) as [(-> & Hd & ->)|(b & y & c' & zP2 & _ & _ & -> & Hd & Hc' & HP2 & Hl2 & _)]; step.
      * eexists. split; [reflexivity|]. right. split; [done|]. rewrite Hd. intros (t & _ & Hm). by apply matches_escape_end in Hm.
      * rewrite (proj2 (Z.eqb_neq c' 0)) by lia. apply search_spec; [apply Hcmp1; [done|lia]|done| |done].
        intros t. rewrite Hd. by apply matches_escaped.
    + rewrite assert_true by (apply Z.ltb_lt; by apply Hascii). step. destruct Ha as (Ht & Hd & _); [by apply Hascii|].
      rewrite <- Hd. apply search_set_spec; [apply Hcmp1; [done|cbn [length]; lia]| |done|lia].
      rewrite Hd. intros t Hm ->. by apply matches_set in Hm as (? & ? & ? & ? & ? & _ & ? & _).
  - apply search_spec; [apply Hcmp1; [done|lia]|done| |done]. intros t. rewrite matches_char by done. split.
    + intros (x & s' & -> & [Hx|?] & Hm); [by exists x, s'|done].
    + intros (x & s' & -> & Hx & Hm). exists x, s'. split; [done|]. split; [by left|done].
Qed.

(** What [compare_char] of the loop does with a character of the pattern that stands for itself,
    or, if [wild], for any. *)
Lemma compare_char_spec c zP wild zS (next : list Z -> outcome Z) p0 :
  0 < c -> terminated zS ->
  (forall t, pmatches p0 t <-> exists x t', t = x :: t' /\ (same pInfo c x = true \/ wild = true) /\ pmatches (decoded zP) t') ->
  (forall s, terminated s -> exists r, next s = Ret r /\ pverdict r (decoded zP) (decoded s)) ->
  exists r, ('(c2, zString) ← Utf8Read zS;
     if c =? c2 then next zString
     else if noCase pInfo && (sqlite3Tolower c =? sqlite3Tolower c2) && (c <? 0x80) && (c2 <? 0x80) then next zString
     else if wild && negb (c2 =? 0) then next zString else Ret SQLITE_NOMATCH) = Ret r
   /\ pverdict r p0 (decoded zS).
Proof.
  intros Hc HS Hp Hnext. rewrite utf8read_eq.
  destruct (read_cases zS HS) as [(-> & Hd & ->)|(b & y & x & zS' & _ & _ & -> & Hd & Hx & HS' & Hl & _)]; step.
  - assert (Hlow : (sqlite3Tolower c =? sqlite3Tolower 0) && (c <? 0x80) = false).
    { apply andb_false_iff. destruct (Z.ltb_spec c 0x80); [left|by right]. apply Z.eqb_neq.
      rewrite !tolower_spec by lia. unfold in_range, uchar. rewrite !Z.mod_small by lia. cbn.
      destruct (Z.leb_spec 65 c), (Z.leb_spec c 90); cbn; lia. }
    rewrite (proj2 (Z.eqb_neq c 0)) by lia. change (negb (0 =? 0)) with false. rewrite andb_false_r.
    replace (noCase pInfo && _ && _ && _) with false by (rewrite <- (andb_assoc (noCase pInfo)), Hlow, andb_false_r; done).
    eexists. split; [reflexivity|]. right; left. split; [done|]. rewrite Hd, Hp. by intros (x & t' & ? & _).
  - assert (Hif : forall (A : Type) (a b : A), (if c =? x then a else if noCase pInfo && (sqlite3Tolower c =? sqlite3Tolower x)
         && (c <? 0x80) && (x <? 0x80) then a else if wild && negb (x =? 0) then a else b)
       = if same pInfo c x || wild then a else b).
    { intros A a b0. unfold same. rewrite (proj2 (Z.eqb_neq x 0)) by lia. cbn [negb]. rewrite andb_true_r.
      destruct (c =? x), (noCase pInfo), (_ =? _), (c <? 0x80), (x <? 0x80), wild; done. }
    rewrite Hif. rewrite Hd. destruct (same pInfo c x || wild) eqn:E.
    + destruct (Hnext zS' HS') as (r & -> & Hv). exists r. split; [done|]. apply (verdict_step _ _ r p0 (decoded zP)); [|rewrite Hp|done].
      * intros t (y' & t' & -> & _ & Hm)%Hp. by exists y', t'.
      * split; [by intros (y' & t' & [= <- <-] & _ & Hm)|]. intros Hm. exists x, (decoded zS'). split; [done|]. split; [|done].
        by apply orb_prop in E.
    + eexists. split; [reflexivity|]. right; left. split; [done|]. rewrite Hp. intros (y' & t' & [= <- <-] & Hor & _).
      apply orb_false_elim in E as [E1 E2]. destruct Hor; congruence.
Qed.

Lemma pattern_loop_spec fuel zP zS zE : (matchSet pInfo <> 0 -> 0 < matchOther < 0x80) ->
  terminated zP -> terminated zS -> (length zP < fuel)%nat ->
  match zE with Some e => (length zP <= length e)%nat | None => True end ->
  exists r, pattern_loop pInfo matchOther fuel zP zS zE = Ret r /\ pverdict r (decoded zP) (decoded zS).
Proof.
  intros Hascii. revert zP zS zE. induction fuel as [|fuel IH]; [lia|]. intros zP zS zE HP HS Hf HE. cbn [pattern_loop].
  rewrite (utf8read_eq zP). destruct (read_cases zP HP) as [(-> & Hd & ->)|(b & y & c & zP' & _ & _ & -> & Hd & Hc & HP' & Hl & _)]; step.
  { (* the end of the pattern *)
    rewrite Hd. destruct (next_byte zS 1 HS ltac:(lia)) as (b & -> & Hb). step. eexists. split; [reflexivity|].
    destruct (decoded zS) as [|x cs]; [subst b; left; split; [done|constructor]|].
    destruct Hb as [Hb _]. rewrite (proj2 (Z.eqb_neq b 0)) by done. right; left. split; [done|]. by rewrite matches_nil. }
  rewrite (proj2 (Z.eqb_neq c 0)) by lia. rewrite Hd. destruct (Z.eqb_spec c (matchAll pInfo)) as [->|Hna].
  { destruct (match_all_spec (fun p s => pattern_loop pInfo matchOther fuel p s None) zP' zS) as (r & -> & Hfd); try done; try lia.
    - intros p s Hp Hs Hlp. apply IH; [done|done|lia|done].
    - exists r. split; [done|]. by apply found_verdict. }
  destruct (Z.eqb_spec c matchOther) as [->|Hno].
  - destruct (Z.eqb_spec (matchSet pInfo) 0) as [Hset|Hset].
    + destruct (read_cases zP' HP') as [(-> & Hd' & ->)|(b' & y' & c' & zP2 & _ & _ & -> & Hd' & Hc' & HP2 & Hl2 & _)]; step.
      { eexists. split; [reflexivity|]. right; left. split; [done|]. rewrite Hd'. by apply matches_escape_end. }
      rewrite (proj2 (Z.eqb_neq c' 0)) by lia. rewrite Hd'. rewrite (bool_decide_eq_true_2 (Some zP2 = Some zP2)) by done.
      cbn [negb]. rewrite andb_false_r.
      apply (compare_char_spec c' zP2 false zS (fun s => pattern_loop pInfo matchOther fuel zP2 s (Some zP2))); try done.
      * intros t. rewrite matches_escaped by done. split; intros (x & s' & -> & Hx & Hm); exists x, s'; split; try done.
        -- split; [by left|done].
        -- by destruct Hx.
      * intros s Hs. apply IH; [done|done|lia|done].
    + destruct (read_cases zS HS) as [(-> & HdS & ->)|(b' & y' & x & zS' & _ & _ & -> & HdS & Hx & HS' & HlS & _)]; step.
      { eexists. split; [reflexivity|]. right; left. split; [done|]. rewrite HdS. intros Hm.
        by apply matches_set in Hm as (? & ? & ? & ? & ? & _ & ? & _). }
      rewrite (proj2 (Z.eqb_neq x 0)) by lia. rewrite HdS. pose proof (match_set_spec x zP' HP') as Hms.
      destruct (parse_set (decoded zP')) as [[[invert ms] q]|] eqn:Eset.
      * destruct Hms as (zP2 & -> & <- & HP2 & Hl2). step. destruct (xorb (in_members x ms) invert) eqn:Ex.
        -- destruct (IH zP2 zS' zE HP2 HS' ltac:(lia)) as (r & -> & Hv); [destruct zE; [lia|done]|]. exists r. split; [done|].
           apply (verdict_step _ _ r _ (decoded zP2)); [|rewrite matches_set by done|done].
           ++ intros t Hm. apply matches_set in Hm as (? & ? & ? & x' & s' & E' & -> & _ & Hm); [|done..]. exists x', s'.
              rewrite Eset in E'. by injection E' as <- <- <-.
           ++ split; [|intros Hm; by exists invert, ms, (decoded zP2), x, (decoded zS')].
              intros (? & ? & ? & ? & ? & E' & [= <- <-] & _ & Hm). rewrite Eset in E'. by injection E' as <- <- <-.
        -- eexists. split; [reflexivity|]. right; left. split; [done|]. rewrite matches_set by done.
           intros (? & ? & ? & ? & ? & E' & [= <- <-] & Hx' & Hm). rewrite Eset in E'. injection E' as <- <- <-. congruence.
      * rewrite Hms. step. eexists. split; [reflexivity|]. right; left. split; [done|]. rewrite matches_set by done.
        intros (? & ? & ? & ? & ? & E' & _). congruence.
  - assert (Hesc : bool_decide (zE = Some zP') = false).
    { apply bool_decide_eq_false_2. intros ->. lia. }
    rewrite Hesc. cbn [negb]. rewrite andb_true_r.
    apply (compare_char_spec c zP' (c =? matchOne pInfo) zS (fun s => pattern_loop pInfo matchOther fuel zP' s zE)); try done.
    + intros t. rewrite matches_char by done. by setoid_rewrite Z.eqb_eq.
    + intros s Hs. apply IH; [done|done|lia|]. destruct zE; [lia|done].
Qed.

End Matcher.

(** A pattern without special characters matches what is the same, character by character. *)
Lemma plain_pattern pInfo matchOther p s : distinct pInfo matchOther ->
  Forall (fun c => c <> matchAll pInfo /\ c <> matchOne pInfo /\ c <> matchOther) p ->
  matches pInfo matchOther p s <-> Forall2 (fun c x => same pInfo c x = true) p s.
Proof.
  intros Hd Hp. revert s. induction Hp as [|c p (Ha & Ho & Hm) _ IH]; intros s.
  - rewrite matches_nil. split; [by intros ->|by inversion 1].
  - rewrite matches_char by done. split.
    + intros (x & s' & -> & [Hx|?] & Hs); [constructor; [done|by apply IH]|done].
    + intros Hf. inversion Hf as [|? x ? s' Hx Hs]; subst. exists x, s'. split; [done|]. split; [by left|by apply IH].
Qed.

(** Texts that are written are terminated and decode to what was written. *)
Lemma terminated_bytes z : Forall (fun b => 0 < b < 256) z -> terminated (z ++ [0]).
Proof. induction 1 as [|b z Hb _ IH]; [constructor|by constructor]. Qed.

Lemma terminated_check z : forallb (fun b => (0 <? b) && (b <? 256)) z = true -> terminated (z ++ [0]).
Proof.
  intros Hz. apply terminated_bytes, Forall_forall. intros b Hb. rewrite forallb_forall in Hz.
  apply list_elem_of_In, Hz in Hb. zify_bool. lia.
Qed.

Lemma decoded_written cs : Forall (fun c => scalar c /\ c <> 0) cs -> decoded (flat_map WRITE_UTF8 cs ++ [0]) = cs.
Proof.
  intros Hcs. assert (Hgen : forall fuel, (length (flat_map WRITE_UTF8 cs) < fuel)%nat -> decode fuel (flat_map WRITE_UTF8 cs ++ [0]) = cs).
  { induction Hcs as [|c cs [Hc H0] Hcs IH]; intros [|fuel] Hf; try lia; [done|]. cbn [decode flat_map]. rewrite <- app_assoc.
    pose proof Hc as (Hr & _). unfold sqlite3Utf8Read. rewrite read_write_utf8; [|done|].
    - rewrite scalar_rendered by done. rewrite (proj2 (Z.eqb_neq c 0)) by done. f_equal. apply IH.
      cbn [flat_map] in Hf. rewrite length_app in Hf. pose proof (write_utf8_length c). lia.
    - apply fresh_terminated. eapply Forall_impl; [exact Hcs|]. by intros x []. }
  apply Hgen. rewrite length_app. cbn. lia.
Qed.

Lemma written_nonzero c : scalar c -> c <> 0 -> Forall (fun b => 0 < b < 256) (WRITE_UTF8 c).
Proof.
  intros (Hr & _) H0. unfold WRITE_UTF8.
  destruct (Z.ltb_spec c 0x80); [|destruct (Z.ltb_spec c 0x800); [|destruct (Z.ltb_spec c 0x10000)]]; unmask;
    pose proof (Z.mod_pos_bound c 64); pose proof (Z.mod_pos_bound (c / 64) 64); pose proof (Z.mod_pos_bound (c / 4096) 64);
    pose proof (Z.mod_pos_bound (c / 64) 32); pose proof (Z.mod_pos_bound (c / 4096) 16);
    pose proof (Z.mod_pos_bound (c / 262144) 8); rewrite ?(Z.mod_small c 256) by lia; repeat (constructor; [lia|]); constructor.
Qed.

(** * Properties *)

(** C37: the matcher behind LIKE and GLOB decides the declarative meaning of patterns, for
    all texts, valid UTF-8 or not. It always returns; it returns SQLITE_MATCH exactly
    when the characters of the string match those of the pattern (wildcards, escapes,
    sets with ranges and inversion, ASCII letters without case under LIKE); and when
    it returns SQLITE_NOWILDCARDMATCH, the result that ends all the searches around it
    at once, no end of the string matches either, so nothing is cut off too early. *)
Theorem pattern_compare_decides `{Build} (pInfo : compareInfo) (matchOther : Z) (zPattern zString : list Z) :
  distinct pInfo matchOther -> (matchSet pInfo <> 0 -> 0 < matchOther < 0x80) ->
  terminated zPattern -> terminated zString ->
  exists r, patternCompare pInfo matchOther zPattern zString = Ret r
    /\ (r = SQLITE_MATCH \/ r = SQLITE_NOMATCH \/ r = SQLITE_NOWILDCARDMATCH)
    /\ (r = SQLITE_MATCH <-> matches pInfo matchOther (decoded zPattern) (decoded zString))
    /\ (r = SQLITE_NOWILDCARDMATCH -> forall s, s `suffix_of` decoded zString ->
        ~ matches pInfo matchOther (decoded zPattern) s).
Proof.
  intros Hd Ha HP HS. destruct (pattern_loop_spec pInfo matchOther Hd (S (length zPattern)) zPattern zString None Ha HP HS)
    as (r & Hr & Hv); [lia|done|]. exists r. split; [exact Hr|]. destruct (verdict_iff _ _ _ _ _ Hv) as [Hm Hc].
  split; [exact Hc|]. split; [exact Hm|]. intros -> s Hs Hms. destruct Hv as [[? _]|[[? _]|[_ Hn]]]; [done..|].
  apply Hn. by exists s.
Qed.

(** A file name against a pattern with a set: three wildcards and an inverted range. *)
Example pattern_compare_decides_witness :
  let p := chars "*.[^a-f]*x?" in let s := chars "a.b.cpp.hxx" in
  patternCompare (H := debug_build) globInfo (ch "[") (p ++ [0]) (s ++ [0]) = Ret 0
  /\ matches globInfo (ch "[") p s.
Proof.
  intros p s. destruct (pattern_compare_decides (H := debug_build) globInfo (ch "[") (p ++ [0]) (s ++ [0])) as (r & Hr & _ & Hm & _).
  - vm_compute. repeat split; discriminate.
  - intros _. by split.
  - apply terminated_check. vm_compute. reflexivity.
  - apply terminated_check. vm_compute. reflexivity.
  - assert (Hr0 : r = 0) by (revert Hr; vm_compute; by intros [= <-]). rewrite Hr0 in *. split; [exact Hr|].
    apply Hm. reflexivity.
Defined.

(** The SQL function: with two arguments LIKE has no escape, with three the third must be
    one character, and a wildcard that is chosen as escape loses its role. A NULL among the arguments
    gives NULL, a pattern over the limit or a longer escape an error; otherwise the answer is
    whether the pattern matches. *)
Definition escaped_info (pInfo : compareInfo) (e : Z) : compareInfo :=
  {| matchAll := if e =? matchAll pInfo then 0 else matchAll pInfo;
     matchOne := if e =? matchOne pInfo then 0 else matchOne pInfo;
     matchSet := matchSet pInfo; noCase := noCase pInfo |}.

Theorem like_function `{Build} (pInfo : compareInfo) (limit nPat e : Z) (p s : list Z) :
  pInfo = likeInfoNorm \/ pInfo = likeInfoAlt -> nPat <= limit -> terminated p -> terminated s -> scalar e -> e <> 0 ->
  (exists b : bool, likeFunc pInfo limit nPat (Some p) (Some s) None = Ret (LikeInt (Z.b2z b))
     /\ (b = true <-> matches pInfo 0 (decoded p) (decoded s)))
  /\ (exists b : bool, likeFunc pInfo limit nPat (Some p) (Some s) (Some (Some (WRITE_UTF8 e ++ [0]))) = Ret (LikeInt (Z.b2z b))
     /\ (b = true <-> matches (escaped_info pInfo e) e (decoded p) (decoded s)))
  /\ (forall e2, scalar e2 -> e2 <> 0 ->
      likeFunc pInfo limit nPat (Some p) (Some s) (Some (Some (WRITE_UTF8 e ++ WRITE_UTF8 e2 ++ [0]))) = Ret LikeBadEscape)
  /\ (forall pat str esc, likeFunc pInfo limit (limit + 1) pat str esc = Ret LikeTooComplex).
Proof.
  intros Hinfo Hlim Hp Hs He He0.
  assert (Hset : matchSet pInfo = 0) by (by destruct Hinfo as [-> | ->]).
  assert (Hd0 : distinct pInfo 0) by (destruct Hinfo as [-> | ->]; vm_compute; repeat split; discriminate).
  assert (Hde : distinct (escaped_info pInfo e) e).
  { destruct Hd0 as (H1 & H2 & H3). unfold distinct. cbn [escaped_info matchAll matchOne].
    destruct (Z.eqb_spec e (matchAll pInfo)), (Z.eqb_spec e (matchOne pInfo)); repeat split; congruence. }
  assert (Hlt : (limit <? nPat) = false) by by apply Z.ltb_ge.
  assert (Hrun : forall info o, matchSet info = 0 -> distinct info o -> exists b : bool,
    (r ← patternCompare info o p s; Ret (LikeInt (Z.b2z (r =? SQLITE_MATCH)))) = Ret (LikeInt (Z.b2z b))
    /\ (b = true <-> matches info o (decoded p) (decoded s))).
  { intros info o Hz Hd. destruct (pattern_loop_spec info o Hd (S (length p)) p s None ltac:(done) Hp Hs) as (r & Hr & Hv); [lia|done|].
    unfold patternCompare. rewrite Hr. step. exists (r =? SQLITE_MATCH). split; [done|]. rewrite Z.eqb_eq. by apply verdict_iff. }
  unfold likeFunc. rewrite Hlt. split; [rewrite Hset; by apply Hrun|]. split; [|split].
  - assert (Hlen : sqlite3Utf8CharLen (WRITE_UTF8 e ++ [0]) (-1) = Ret 1).
    { unfold sqlite3Utf8CharLen. pose proof (char_len_text [e] [0] None (S (length (WRITE_UTF8 e ++ [0]))) 0) as Hc.
      cbn [flat_map] in Hc. rewrite app_nil_r in Hc. apply Hc; [by constructor|done|done|rewrite length_app; cbn; lia]. }
    rewrite Hlen. step. cbn [Z.eqb negb]. change (1 =? 1) with true. cbn [negb].
    unfold sqlite3Utf8Read. rewrite read_write_utf8 by (done || apply He). rewrite scalar_rendered by done. step.
    by apply (Hrun (escaped_info pInfo e) e).
  - intros e2 He2 He20. assert (Hlen : sqlite3Utf8CharLen (WRITE_UTF8 e ++ WRITE_UTF8 e2 ++ [0]) (-1) = Ret 2).
    { unfold sqlite3Utf8CharLen. pose proof (char_len_text [e; e2] [0] None (S (length (WRITE_UTF8 e ++ WRITE_UTF8 e2 ++ [0]))) 0) as Hc.
      cbn [flat_map] in Hc. rewrite app_nil_r, <- app_assoc in Hc. apply Hc; [|done|done|].
      - constructor; [done|]. by apply Forall_singleton.
      - rewrite !length_app. pose proof (write_utf8_length e). cbn. lia. }
    rewrite Hlen. done.
  - intros pat str esc. by rewrite (proj2 (Z.ltb_lt _ _)) by lia.
Qed.

(** [sqlite3_strlike] does not take the role from an escape character that is a wildcard,
    as the SQL function does: behind a percent sign an escaped underscore still stands for any
    character, elsewhere it does not. *)
Example strlike_wildcard_escape `{Build} :
  let like p s := sqlite3_strlike (Some (chars p ++ [0])) (Some (chars s ++ [0])) (ch "_") in
  like "%__" "ab" = Ret SQLITE_MATCH /\ like "a__" "ab" = Ret SQLITE_NOMATCH.
Proof. vm_compute. by split. Qed.
