(* ===== verification/Page.v ===== *)
(** * B-tree pages: deps/sqlite3/sqlite3.c, btree.c

    How a page of a database file keeps cells of varying length.  A page has a
    header, an array of two-byte cell pointers that grows upwards, and the cell
    contents, which grow downwards from the end.  Room that deleted cells leave
    inside the contents is kept in a chain of free blocks in ascending order;
    pieces of fewer than four bytes are only counted, as fragments.  Modelled
    are the allocation, the release and the defragmentation of that room, the
    functions that measure cells, the initialisation and the checks of a page,
    and the insertion and removal of cells.  The proofs are in PageSpace.v,
    PageCells.v, PageList.v and PageLoad.v.  What SQLite's debug build also asserts
    in the functions that measure cells, that the parser finds the same size, is
    [parse_agrees] of PageParse.v.

    Bytes are [Z] in [0, 256), a buffer is the list of its bytes and a pointer
    into it an index; reading or writing outside is undefined. *)

From S2P Require Import Prelude Words Chars.

(** ** Memory *)

Definition at_ (l : list Z) (k : Z) : Z := nth (Z.to_nat k) l 0.
Definition len (l : list Z) : Z := Z.of_nat (length l).

(** The [n] bytes from [k] on lie in the buffer. *)
Definition inside (l : list Z) (k n : Z) : bool := (0 <=? k) && (0 <=? n) && (k + n <=? len l).

Definition from_to (l : list Z) (k n : Z) : list Z := take (Z.to_nat n) (drop (Z.to_nat k) l).
Definition store (l : list Z) (k : Z) (bs : list Z) : list Z :=
  take (Z.to_nat k) l ++ bs ++ drop (Z.to_nat k + length bs) l.

Definition rd (l : list Z) (k : Z) : outcome Z := if inside l k 1 then Ret (at_ l k) else Undefined.
Definition wr (l : list Z) (k v : Z) : outcome (list Z) :=
  if inside l k 1 then Ret (store l k [uchar v]) else Undefined.

(** [memcpy] and [memmove]; a negative length is a huge [size_t]. *)
Definition memcpy (dst : list Z) (d : Z) (src : list Z) (s n : Z) : outcome (list Z) :=
  if inside src s n && inside dst d n then Ret (store dst d (from_to src s n)) else Undefined.
Definition memset (l : list Z) (k v n : Z) : outcome (list Z) :=
  if inside l k n then Ret (store l k (replicate (Z.to_nat n) (uchar v))) else Undefined.

Definition get2byte (l : list Z) (x : Z) : outcome Z :=
  a ← rd l x; b ← rd l (x + 1); Ret (Z.lor (Z.shiftl a 8) b).
Definition put2byte (l : list Z) (p v : Z) : outcome (list Z) :=
  l ← wr l p (Z.shiftr v 8); wr l (p + 1) v.
Definition get2byteNotZero (l : list Z) (x : Z) : outcome Z :=
  v ← get2byte l x; Ret (Z.land (v - 1) 0xffff + 1).
Definition sqlite3Put4byte (l : list Z) (p v : Z) : outcome (list Z) :=
  l ← wr l p (Z.shiftr v 24); l ← wr l (p + 1) (Z.shiftr v 16); l ← wr l (p + 2) (Z.shiftr v 8); wr l (p + 3) v.

(** ** Data *)

Definition SQLITE_OK : Z := 0.
Definition SQLITE_CORRUPT : Z := 11.

Definition PTF_INTKEY : Z := 0x01.
Definition PTF_ZERODATA : Z := 0x02.
Definition PTF_LEAFDATA : Z := 0x04.
Definition PTF_LEAF : Z := 0x08.
Definition BTS_FAST_SECURE : Z := 0x000c.

(** What the pages of one file share; [cellSizeCk] is the flag
    [SQLITE_CellSizeCk] of the connection. *)
Record BtShared := {
  btsFlags : Z; b_max1bytePayload : Z;
  b_maxLocal : Z; b_minLocal : Z; maxLeaf : Z; minLeaf : Z;
  pageSize : Z; usableSize : Z; cellSizeCk : bool
}.

(** The functions that the pointer [xCellSize] can hold. *)
Inductive size_method := m_cellSizePtr | m_cellSizePtrIdxLeaf | m_cellSizePtrNoPayload | m_cellSizePtrTableLeaf.

(** [aiOvfl] and [apOvfl] are one list of positions and cell bodies, as long as
    [nOverflow].  [aCellIdx] is [cellOffset] as a pointer. *)
Record MemPage := {
  isInit : bool; intKey : bool; intKeyLeaf : bool; leaf : bool;
  hdrOffset : Z; childPtrSize : Z; max1bytePayload : Z; maxLocal : Z; minLocal : Z;
  cellOffset : Z; nFree : Z; nCell : Z; maskPage : Z;
  aOvfl : list (Z * list Z); aData : list Z; xCellSize : size_method
}.

Definition nOverflow (p : MemPage) : Z := Z.of_nat (length (aOvfl p)).

Definition with_data (p : MemPage) (data : list Z) : MemPage :=
  {| isInit := isInit p; intKey := intKey p; intKeyLeaf := intKeyLeaf p; leaf := leaf p;
     hdrOffset := hdrOffset p; childPtrSize := childPtrSize p; max1bytePayload := max1bytePayload p;
     maxLocal := maxLocal p; minLocal := minLocal p; cellOffset := cellOffset p;
     nFree := nFree p; nCell := nCell p; maskPage := maskPage p;
     aOvfl := aOvfl p; aData := data; xCellSize := xCellSize p |}.
Definition with_counts (p : MemPage) (free cells : Z) : MemPage :=
  {| isInit := isInit p; intKey := intKey p; intKeyLeaf := intKeyLeaf p; leaf := leaf p;
     hdrOffset := hdrOffset p; childPtrSize := childPtrSize p; max1bytePayload := max1bytePayload p;
     maxLocal := maxLocal p; minLocal := minLocal p; cellOffset := cellOffset p;
     nFree := free; nCell := cells; maskPage := maskPage p;
     aOvfl := aOvfl p; aData := aData p; xCellSize := xCellSize p |}.
Definition with_ovfl (p : MemPage) (o : list (Z * list Z)) : MemPage :=
  {| isInit := isInit p; intKey := intKey p; intKeyLeaf := intKeyLeaf p; leaf := leaf p;
     hdrOffset := hdrOffset p; childPtrSize := childPtrSize p; max1bytePayload := max1bytePayload p;
     maxLocal := maxLocal p; minLocal := minLocal p; cellOffset := cellOffset p;
     nFree := nFree p; nCell := nCell p; maskPage := maskPage p;
     aOvfl := o; aData := aData p; xCellSize := xCellSize p |}.
(** The fields [decodeFlags] sets. *)
Definition with_kind (p : MemPage) (child : Z) (is_leaf int int_leaf : bool) (m1 mx mn : Z) (f : size_method) : MemPage :=
  {| isInit := isInit p; intKey := int; intKeyLeaf := int_leaf; leaf := is_leaf;
     hdrOffset := hdrOffset p; childPtrSize := child; max1bytePayload := m1;
     maxLocal := mx; minLocal := mn; cellOffset := cellOffset p;
     nFree := nFree p; nCell := nCell p; maskPage := maskPage p;
     aOvfl := aOvfl p; aData := aData p; xCellSize := f |}.
(** The fields [btreeInitPage] and [zeroPage] set at their ends. *)
Definition with_init (p : MemPage) (init : bool) (offset free cells mask : Z) : MemPage :=
  {| isInit := init; intKey := intKey p; intKeyLeaf := intKeyLeaf p; leaf := leaf p;
     hdrOffset := hdrOffset p; childPtrSize := childPtrSize p; max1bytePayload := max1bytePayload p;
     maxLocal := maxLocal p; minLocal := minLocal p; cellOffset := offset;
     nFree := free; nCell := cells; maskPage := mask;
     aOvfl := []; aData := aData p; xCellSize := xCellSize p |}.

Section Page.
Context `{Build}.
(** [sqlite3Config.neverCorrupt==0] *)
Variable CORRUPT_DB : bool.
Variable pBt : BtShared.
Abbreviation usable := (usableSize pBt).

(** ** The size of a cell; [pCell] are the bytes from the cell on *)

(** [do{ nSize = (nSize<<7) | ( *++pIter & 0x7f) } while( *pIter>=0x80 && pIter<pEnd )] *)
Fixpoint size_loop (fuel : nat) (pCell : list Z) (pIter pEnd nSize : Z) : outcome (Z * Z) :=
  match fuel with
  | O => OutOfFuel
  | S fuel =>
      let pIter := pIter + 1 in
      b ← rd pCell pIter;
      let nSize := Z.lor (u32 (Z.shiftl nSize 7)) (Z.land b 0x7f) in
      if (0x80 <=? b) && (pIter <? pEnd) then size_loop fuel pCell pIter pEnd nSize else Ret (nSize, pIter)
  end.

(** The payload size and the pointer behind it. *)
Definition payload_size (pCell : list Z) (pIter : Z) : outcome (Z * Z) :=
  b ← rd pCell pIter;
  '(nSize, pIter) ← (if 0x80 <=? b then size_loop 8 pCell pIter (pIter + 8) (Z.land b 0x7f) else Ret (b, pIter));
  Ret (nSize, pIter + 1).

(** The size of a cell whose payload does not fit; [h] is [pIter - pCell]. *)
Definition spilled_size (p : MemPage) (nSize h : Z) : Z :=
  let nSize := u32 (minLocal p + u32 (nSize - minLocal p) mod u32 (usable - 4)) in
  let nSize := if maxLocal p <? nSize then minLocal p else nSize in
  u16 (u32 (nSize + 4 + u16 h)).

Definition cellSizePtr (p : MemPage) (pCell : list Z) : outcome Z :=
  _ ← assert_ (childPtrSize p =? 4);
  '(nSize, pIter) ← payload_size pCell 4;
  if nSize <=? maxLocal p then
    let nSize := u32 (nSize + pIter) in
    _ ← assert_ (4 <? nSize);
    Ret (u16 nSize)
  else Ret (spilled_size p nSize pIter).

Definition cellSizePtrIdxLeaf (p : MemPage) (pCell : list Z) : outcome Z :=
  _ ← assert_ (childPtrSize p =? 0);
  '(nSize, pIter) ← payload_size pCell 0;
  if nSize <=? maxLocal p then Ret (u16 (Z.max 4 (u32 (nSize + pIter))))
  else Ret (spilled_size p nSize pIter).

(** [while( ( *pIter++)&0x80 && pIter<pEnd );] *)
Fixpoint skip_varint (fuel : nat) (pCell : list Z) (pIter pEnd : Z) : outcome Z :=
  match fuel with
  | O => OutOfFuel
  | S fuel =>
      b ← rd pCell pIter;
      let pIter := pIter + 1 in
      if negb (Z.land b 0x80 =? 0) && (pIter <? pEnd) then skip_varint fuel pCell pIter pEnd else Ret pIter
  end.

Definition cellSizePtrNoPayload (p : MemPage) (pCell : list Z) : outcome Z :=
  _ ← assert_ (childPtrSize p =? 4);
  pIter ← skip_varint 9 pCell 4 (4 + 9);
  Ret (u16 pIter).

(** The unrolled test of the key: up to eight bytes with the high bit, and one
    more behind eight of them. *)
Fixpoint skip_key (n : nat) (pCell : list Z) (pIter : Z) : outcome Z :=
  match n with
  | O => Ret (pIter + 1)
  | S n =>
      b ← rd pCell pIter;
      if negb (Z.land b 0x80 =? 0) then skip_key n pCell (pIter + 1) else Ret (pIter + 1)
  end.

Definition cellSizePtrTableLeaf (p : MemPage) (pCell : list Z) : outcome Z :=
  '(nSize, pIter) ← payload_size pCell 0;
  pIter ← skip_key 8 pCell pIter;
  if nSize <=? maxLocal p then Ret (u16 (Z.max 4 (u32 (nSize + pIter))))
  else Ret (spilled_size p nSize pIter).

Definition call_xCellSize (p : MemPage) (pCell : list Z) : outcome Z :=
  match xCellSize p with
  | m_cellSizePtr => cellSizePtr p pCell
  | m_cellSizePtrIdxLeaf => cellSizePtrIdxLeaf p pCell
  | m_cellSizePtrNoPayload => cellSizePtrNoPayload p pCell
  | m_cellSizePtrTableLeaf => cellSizePtrTableLeaf p pCell
  end.

(** The bytes from index [k] on. *)
Definition from_ptr (l : list Z) (k : Z) : list Z := drop (Z.to_nat k) l.

(** [findCell(P,I)], as an index into [aData]. *)
Definition findCell (p : MemPage) (i : Z) : outcome Z :=
  v ← get2byte (aData p) (cellOffset p + 2 * i);
  Ret (Z.land (maskPage p) v).

Definition cellSize (p : MemPage) (iCell : Z) : outcome Z :=
  k ← findCell p iCell;
  call_xCellSize p (from_ptr (aData p) k).

(** ** Defragmentation *)

(** Two bytes past the cell pointers. *)
Definition iCellFirst (p : MemPage) : Z := cellOffset p + 2 * nCell p.

(** The loop that adds what the cells have moved to their pointers. *)
Fixpoint shift_pointers (n : nat) (data : list Z) (pAddr iFree iFree2 sz sz2 : Z) : outcome (list Z) :=
  match n with
  | O => Ret data
  | S n =>
      pc ← get2byte data pAddr;
      data ← (if pc <? iFree then put2byte data pAddr (pc + sz)
              else if pc <? iFree2 then put2byte data pAddr (pc + sz2) else Ret data);
      shift_pointers n data (pAddr + 2) iFree iFree2 sz sz2
  end.

(** How the block for one or two free blocks ends: with an error, behind the
    block, or at [defragment_out]. *)
Inductive quick := QuickCorrupt | QuickNot | QuickDone (data : list Z) (cbrk : Z).

Definition defragment_move (p : MemPage) (data : list Z) (iFree iFree2 sz sz2 top : Z) : outcome quick :=
  let cbrk := top + sz in
  _ ← assert_ (cbrk + (iFree - top) <=? usable);
  data ← memcpy data cbrk data top (iFree - top);
  data ← shift_pointers (Z.to_nat (nCell p)) data (cellOffset p) iFree iFree2 sz sz2;
  Ret (QuickDone data cbrk).

Definition defragment_quick (p : MemPage) (nMaxFrag : Z) : outcome quick :=
  let data := aData p in
  let hdr := hdrOffset p in
  frag ← rd data (hdr + 7);
  if nMaxFrag <? frag then Ret QuickNot else
  iFree ← get2byte data (hdr + 1);
  if usable - 4 <? iFree then Ret QuickCorrupt else
  if iFree =? 0 then Ret QuickNot else
  iFree2 ← get2byte data iFree;
  if usable - 4 <? iFree2 then Ret QuickCorrupt else
  last ← (if iFree2 =? 0 then Ret true
          else a ← rd data iFree2; b ← rd data (iFree2 + 1); Ret ((a =? 0) && (b =? 0)));
  if negb last then Ret QuickNot else
  sz ← get2byte data (iFree + 2);
  top ← get2byte data (hdr + 5);
  if iFree <=? top then Ret QuickCorrupt else
  if negb (iFree2 =? 0) then
    if iFree2 <? iFree + sz then Ret QuickCorrupt else
    sz2 ← get2byte data (iFree2 + 2);
    if usable <? iFree2 + sz2 then Ret QuickCorrupt else
    data ← memcpy data (iFree + sz + sz2) data (iFree + sz) (iFree2 - (iFree + sz));
    defragment_move p data iFree iFree2 (sz + sz2) sz2 top
  else if usable <? iFree + sz then Ret QuickCorrupt
  else defragment_move p data iFree iFree2 sz 0 top.

(** The loop that packs the cells at the end of the page; [src] is the copy. *)
Fixpoint repack (n : nat) (p : MemPage) (src : list Z) (iCellStart : Z) (pAddr cbrk : Z) (data : list Z)
  : outcome (Z * Z * list Z) :=
  match n with
  | O => Ret (SQLITE_OK, cbrk, data)
  | S n =>
      pc ← get2byte data pAddr;
      if usable - 4 <? pc then Ret (SQLITE_CORRUPT, cbrk, data) else
      _ ← assert_ ((0 <=? pc) && (pc <=? usable - 4));
      size ← call_xCellSize p (from_ptr src pc);
      let cbrk := cbrk - size in
      if (cbrk <? iCellStart) || (usable <? pc + size) then Ret (SQLITE_CORRUPT, cbrk, data) else
      _ ← assert_ ((cbrk + size <=? usable) && (iCellStart <=? cbrk));
      data ← put2byte data pAddr cbrk;
      data ← memcpy data cbrk src pc size;
      repack n p src iCellStart (pAddr + 2) cbrk data
  end.

(** From [defragment_out] on. *)
Definition defragment_out (p : MemPage) (data : list Z) (cbrk : Z) : outcome (Z * MemPage) :=
  let hdr := hdrOffset p in
  _ ← assert_ (0 <=? nFree p);
  frag ← rd data (hdr + 7);
  if negb (frag + cbrk - iCellFirst p =? nFree p) then Ret (SQLITE_CORRUPT, with_data p data) else
  _ ← assert_ (iCellFirst p <=? cbrk);
  data ← put2byte data (hdr + 5) cbrk;
  data ← wr data (hdr + 1) 0;
  data ← wr data (hdr + 2) 0;
  data ← memset data (iCellFirst p) 0 (cbrk - iCellFirst p);
  Ret (SQLITE_OK, with_data p data).

(** Behind the block for few free blocks. *)
Definition defragment_slow (p : MemPage) : outcome (Z * MemPage) :=
  let data := aData p in
  let hdr := hdrOffset p in
  iCellStart ← get2byte data (hdr + 5);
  temp ← memcpy (replicate (Z.to_nat usable) 0) 0 data 0 usable;
  '(rc, cbrk, data) ← repack (Z.to_nat (nCell p)) p temp iCellStart (cellOffset p) usable data;
  if negb (rc =? SQLITE_OK) then Ret (rc, with_data p data) else
  data ← wr data (hdr + 7) 0;
  defragment_out p data cbrk.

Definition defragmentPage (p : MemPage) (nMaxFrag : Z) : outcome (Z * MemPage) :=
  _ ← assert_ (nOverflow p =? 0);
  n ← get2byte (aData p) (hdrOffset p + 3);
  _ ← assert_ ((nCell p =? n) || CORRUPT_DB);
  q ← defragment_quick p nMaxFrag;
  match q with
  | QuickCorrupt => Ret (SQLITE_CORRUPT, p)
  | QuickNot => defragment_slow p
  | QuickDone data cbrk => defragment_out p data cbrk
  end.

(** ** Allocation *)

(** The loop of [pageFindSlot]: the slot or none, the error code, the data. *)
Fixpoint find_slot (fuel : nat) (hdr nByte maxPC : Z) (data : list Z) (iAddr pc : Z)
  : outcome (option Z * Z * list Z) :=
  match fuel with
  | O => OutOfFuel
  | S fuel =>
      if maxPC <? pc then
        Ret (None, if maxPC + nByte - 4 <? pc then SQLITE_CORRUPT else SQLITE_OK, data)
      else
        size ← get2byte data (pc + 2);
        let x := size - nByte in
        if 0 <=? x then
          if x <? 4 then
            frag ← rd data (hdr + 7);
            if 57 <? frag then Ret (None, SQLITE_OK, data) else
            data ← memcpy data iAddr data pc 2;
            frag ← rd data (hdr + 7);
            data ← wr data (hdr + 7) (frag + uchar x);
            Ret (Some pc, SQLITE_OK, data)
          else if maxPC <? x + pc then Ret (None, SQLITE_CORRUPT, data)
          else data ← put2byte data (pc + 2) x; Ret (Some (pc + x), SQLITE_OK, data)
        else
          let iAddr := pc in
          pc ← get2byte data iAddr;
          if pc <=? iAddr then Ret (None, if pc =? 0 then SQLITE_OK else SQLITE_CORRUPT, data)
          else find_slot fuel hdr nByte maxPC data iAddr pc
  end.

(** No chain is longer than the page. *)
Definition chain_fuel : nat := S (Z.to_nat usable).

Definition pageFindSlot (p : MemPage) (nByte : Z) : outcome (option Z * Z * MemPage) :=
  let hdr := hdrOffset p in
  pc ← get2byte (aData p) (hdr + 1);
  _ ← assert_ (0 <? pc);
  '(slot, rc, data) ← find_slot chain_fuel hdr nByte (usable - nByte) (aData p) (hdr + 1) pc;
  Ret (slot, rc, with_data p data).

(** Defragmentation if the gap is too small; the new [top]. *)
Definition allocate_defragment (p : MemPage) (nByte gap top : Z) : outcome (Z * MemPage * Z) :=
  if top <? gap + 2 + nByte then
    _ ← assert_ ((0 <? nCell p) || CORRUPT_DB);
    _ ← assert_ (0 <=? nFree p);
    '(rc, p) ← defragmentPage p (Z.min 4 (nFree p - (2 + nByte)));
    if negb (rc =? SQLITE_OK) then Ret (rc, p, top)
    else
      top ← get2byteNotZero (aData p) (hdrOffset p + 5);
      _ ← assert_ (gap + 2 + nByte <=? top);
      Ret (SQLITE_OK, p, top)
  else Ret (SQLITE_OK, p, top).

(** Behind the search of the free list. *)
Definition allocate_gap (p : MemPage) (nByte gap top : Z) : outcome (Z * Z * MemPage) :=
  '(rc, p, top) ← allocate_defragment p nByte gap top;
  if negb (rc =? SQLITE_OK) then Ret (rc, 0, p)
  else
    let top := top - nByte in
    data ← put2byte (aData p) (hdrOffset p + 5) top;
    _ ← assert_ (top + nByte <=? usable);
    Ret (SQLITE_OK, top, with_data p data).

(** The error code, [*pIdx] and the page. *)
Definition allocateSpace (p : MemPage) (nByte : Z) : outcome (Z * Z * MemPage) :=
  let hdr := hdrOffset p in
  _ ← assert_ (0 <=? nByte);
  _ ← assert_ (nByte <=? nFree p);
  _ ← assert_ (nOverflow p =? 0);
  _ ← assert_ (nByte <? i32 (u32 (usable - 8)));
  _ ← assert_ (cellOffset p =? hdr + 12 - 4 * Z.b2z (leaf p));
  let gap := cellOffset p + 2 * nCell p in
  _ ← assert_ (gap <=? 65536);
  top ← get2byte (aData p) (hdr + 5);
  let top' := if top <? gap then (if (top =? 0) && (usable =? 65536) then Some 65536 else None)
              else if usable <? top then None else Some top in
  match top' with
  | None => Ret (SQLITE_CORRUPT, 0, p)
  | Some top =>
      a ← rd (aData p) (hdr + 2);
      b ← rd (aData p) (hdr + 1);
      if (negb (a =? 0) || negb (b =? 0)) && (gap + 2 <=? top) then
        '(slot, rc, p) ← pageFindSlot p nByte;
        match slot with
        | Some g2 =>
            _ ← assert_ (g2 + nByte <=? usable);
            if g2 <=? gap then Ret (SQLITE_CORRUPT, g2, p) else Ret (SQLITE_OK, g2, p)
        | None => if negb (rc =? SQLITE_OK) then Ret (rc, 0, p) else allocate_gap p nByte gap top
        end
      else allocate_gap p nByte gap top
  end.

(** ** Release *)

(** The loop that finds the place of [iStart] in the chain: [iPtr], the
    address of the pointer, and [iFreeBlk], the block behind, or the error. *)
Fixpoint free_position (fuel : nat) (data : list Z) (iStart iPtr : Z) : outcome (option (Z * Z)) :=
  match fuel with
  | O => OutOfFuel
  | S fuel =>
      iFreeBlk ← get2byte data iPtr;
      if iFreeBlk <? iStart then
        if iFreeBlk <=? iPtr then Ret (if iFreeBlk =? 0 then Some (iPtr, 0) else None)
        else free_position fuel data iStart iFreeBlk
      else Ret (Some (iPtr, iFreeBlk))
  end.

(** The block to be released while it is merged: [nFrag] of [u8], [iStart],
    [iSize] and [iFreeBlk] of [u16], [iEnd] of [u32]. *)
Record freed := { f_start : Z; f_size : Z; f_end : Z; f_next : Z; f_frag : Z }.

(** Merging with the free block behind. *)
Definition merge_next (data : list Z) (f : freed) : outcome (option freed) :=
  let '(Build_freed iStart iSize iEnd iFreeBlk _) := f in
  if negb (iFreeBlk =? 0) && (iFreeBlk <=? u32 (iEnd + 3)) then
    let nFrag := uchar (u32 (iFreeBlk - iEnd)) in
    if iFreeBlk <? iEnd then Ret None else
    n ← get2byte data (iFreeBlk + 2);
    let iEnd := u32 (iFreeBlk + n) in
    if usable <? iEnd then Ret None else
    let iSize := u16 (iEnd - iStart) in
    iFreeBlk ← get2byte data iFreeBlk;
    Ret (Some (Build_freed iStart iSize iEnd iFreeBlk nFrag))
  else Ret (Some f).

(** Merging with the free block in front. *)
Definition merge_prev (data : list Z) (hdr iPtr : Z) (f : freed) : outcome (option freed) :=
  let '(Build_freed iStart iSize iEnd iFreeBlk nFrag) := f in
  if hdr + 1 <? iPtr then
    n ← get2byte data (iPtr + 2);
    let iPtrEnd := iPtr + n in
    if iStart <=? iPtrEnd + 3 then
      if iStart <? iPtrEnd then Ret None
      else Ret (Some (Build_freed iPtr (u16 (iEnd - iPtr)) iEnd iFreeBlk (uchar (nFrag + (iStart - iPtrEnd)))))
    else Ret (Some f)
  else Ret (Some f).

(** The block for a free list that is not empty. *)
Definition merge_block (data : list Z) (hdr iPtr : Z) (f : freed) : outcome (option (freed * list Z)) :=
  if u32 (usable - 4) <? f_next f then Ret None else
  _ ← assert_ ((iPtr <? f_next f) || (f_next f =? 0) || CORRUPT_DB);
  f ← merge_next data f;
  match f with
  | None => Ret None
  | Some f =>
      f ← merge_prev data hdr iPtr f;
      match f with
      | None => Ret None
      | Some f =>
          frag ← rd data (hdr + 7);
          if frag <? f_frag f then Ret None
          else data ← wr data (hdr + 7) (frag - f_frag f); Ret (Some (f, data))
      end
  end.

(** The search of the free list and the merging: [iPtr], the block, the data. *)
Definition free_merge (p : MemPage) (iStart iSize iEnd : Z) : outcome (option (Z * freed * list Z)) :=
  let hdr := hdrOffset p in
  let data := aData p in
  b ← rd data (hdr + 2);
  a ← rd data (hdr + 1);
  if (b =? 0) && (a =? 0) then Ret (Some (hdr + 1, Build_freed iStart iSize iEnd 0 0, data))
  else
    pos ← free_position chain_fuel data iStart (hdr + 1);
    match pos with
    | None => Ret None
    | Some (iPtr, iFreeBlk) =>
        fd ← merge_block data hdr iPtr (Build_freed iStart iSize iEnd iFreeBlk 0);
        match fd with
        | None => Ret None
        | Some (f, data) => Ret (Some (iPtr, f, data))
        end
    end.

(** The error code and the page. *)
Definition freeSpace (p : MemPage) (iStart iSize : Z) : outcome (Z * MemPage) :=
  let hdr := hdrOffset p in
  let iEnd := u32 (iStart + iSize) in
  _ ← assert_ (CORRUPT_DB || (hdr + 6 + childPtrSize p <=? iStart));
  _ ← assert_ (CORRUPT_DB || (iEnd <=? usable));
  _ ← assert_ (4 <=? iSize);
  _ ← assert_ (CORRUPT_DB || (iStart <=? u32 (usable - 4)));
  m ← free_merge p iStart iSize iEnd;
  match m with
  | None => Ret (SQLITE_CORRUPT, p)
  | Some (iPtr, f, data) =>
      x ← get2byte data (hdr + 5);
      data ← (if negb (Z.land (btsFlags pBt) BTS_FAST_SECURE =? 0)
              then memset data (f_start f) 0 (f_size f) else Ret data);
      if f_start f <=? x then
        if f_start f <? x then Ret (SQLITE_CORRUPT, with_data p data) else
        if negb (iPtr =? hdr + 1) then Ret (SQLITE_CORRUPT, with_data p data) else
        data ← put2byte data (hdr + 1) (f_next f);
        data ← put2byte data (hdr + 5) (f_end f);
        Ret (SQLITE_OK, with_counts (with_data p data) (nFree p + iSize) (nCell p))
      else
        data ← put2byte data iPtr (f_start f);
        data ← put2byte data (f_start f) (f_next f);
        data ← put2byte data (f_start f + 2) (f_size f);
        Ret (SQLITE_OK, with_counts (with_data p data) (nFree p + iSize) (nCell p))
  end.

(** ** Initialisation and checks of a page *)

Definition decodeFlags (p : MemPage) (flagByte : Z) : outcome (Z * MemPage) :=
  let m1 := b_max1bytePayload pBt in
  if Z.lor PTF_ZERODATA PTF_LEAF <=? flagByte then
    if flagByte =? Z.lor (Z.lor PTF_LEAFDATA PTF_INTKEY) PTF_LEAF then
      Ret (SQLITE_OK, with_kind p 0 true true true m1 (maxLeaf pBt) (minLeaf pBt) m_cellSizePtrTableLeaf)
    else if flagByte =? Z.lor PTF_ZERODATA PTF_LEAF then
      Ret (SQLITE_OK, with_kind p 0 true false false m1 (b_maxLocal pBt) (b_minLocal pBt) m_cellSizePtrIdxLeaf)
    else
      Ret (SQLITE_CORRUPT, with_kind p 0 true false false m1 (maxLocal p) (minLocal p) m_cellSizePtrIdxLeaf)
  else
    if flagByte =? PTF_ZERODATA then
      Ret (SQLITE_OK, with_kind p 4 false false false m1 (b_maxLocal pBt) (b_minLocal pBt) m_cellSizePtr)
    else if flagByte =? Z.lor PTF_LEAFDATA PTF_INTKEY then
      Ret (SQLITE_OK, with_kind p 4 false true false m1 (maxLeaf pBt) (minLeaf pBt) m_cellSizePtrNoPayload)
    else
      Ret (SQLITE_CORRUPT, with_kind p 4 false false false m1 (maxLocal p) (minLocal p) m_cellSizePtr).

(** The loop over the free list; [None] for the error of a block off the page,
    else the sum, the last block and its size, and the pointer found in it. *)
Fixpoint sum_free (fuel : nat) (data : list Z) (pc nFree : Z) : outcome (option (Z * Z * Z * Z)) :=
  match fuel with
  | O => OutOfFuel
  | S fuel =>
      if usable - 4 <? pc then Ret None else
      next ← get2byte data pc;
      size ← get2byte data (pc + 2);
      let nFree := nFree + size in
      if next <=? pc + size + 3 then Ret (Some (nFree, pc, size, next)) else sum_free fuel data next nFree
  end.

Definition btreeComputeFreeSpace (p : MemPage) : outcome (Z * MemPage) :=
  _ ← assert_ (isInit p);
  _ ← assert_ (nFree p <? 0);
  let data := aData p in
  let hdr := hdrOffset p in
  top ← get2byteNotZero data (hdr + 5);
  let first := hdr + 8 + childPtrSize p + 2 * nCell p in
  pc ← get2byte data (hdr + 1);
  frag ← rd data (hdr + 7);
  let nFree := frag + top in
  sum ← (if 0 <? pc then
           if pc <? top then Ret None else
           s ← sum_free chain_fuel data pc nFree;
           match s with
           | None => Ret None
           | Some (nFree, pc, size, next) =>
               if 0 <? next then Ret None else if usable <? pc + size then Ret None else Ret (Some nFree)
           end
         else Ret (Some nFree));
  match sum with
  | None => Ret (SQLITE_CORRUPT, p)
  | Some nFree =>
      if (usable <? nFree) || (nFree <? first) then Ret (SQLITE_CORRUPT, p)
      else Ret (SQLITE_OK, with_counts p (u16 (nFree - first)) (nCell p))
  end.

(** The loop of [btreeCellSizeCheck]; the answer is whether all cells pass. *)
Fixpoint check_cells (n : nat) (p : MemPage) (i first last : Z) : outcome bool :=
  match n with
  | O => Ret true
  | S n =>
      pc ← get2byte (aData p) (cellOffset p + i * 2);
      if (pc <? first) || (last <? pc) then Ret false else
      sz ← call_xCellSize p (from_ptr (aData p) pc);
      if usable <? pc + sz then Ret false else check_cells n p (i + 1) first last
  end.

Definition btreeCellSizeCheck (p : MemPage) : outcome Z :=
  let last := if leaf p then usable - 4 else usable - 4 - 1 in
  ok ← check_cells (Z.to_nat (nCell p)) p 0 (iCellFirst p) last;
  Ret (if ok : bool then SQLITE_OK else SQLITE_CORRUPT).

Definition MX_CELL : Z := (pageSize pBt - 8) / 6.

Definition btreeInitPage (p : MemPage) : outcome (Z * MemPage) :=
  _ ← assert_ (negb (isInit p));
  flag ← rd (aData p) (hdrOffset p);
  '(rc, p) ← decodeFlags p flag;
  if negb (rc =? SQLITE_OK) then Ret (SQLITE_CORRUPT, p) else
  _ ← assert_ ((512 <=? pageSize pBt) && (pageSize pBt <=? 65536));
  n ← get2byte (aData p) (hdrOffset p + 3);
  let p := with_init p (isInit p) (hdrOffset p + 8 + childPtrSize p) (nFree p) n (u16 (pageSize pBt - 1)) in
  if MX_CELL <? n then Ret (SQLITE_CORRUPT, p) else
  top ← get2byteNotZero (aData p) (hdrOffset p + 5);
  _ ← assert_ ((0 <? n) || (top =? usable) || CORRUPT_DB);
  let p := with_init p true (cellOffset p) (-1) (nCell p) (maskPage p) in
  if cellSizeCk pBt then rc ← btreeCellSizeCheck p; Ret (rc, p) else Ret (SQLITE_OK, p).

Definition zeroPage (p : MemPage) (flags : Z) : outcome MemPage :=
  let hdr := hdrOffset p in
  data ← (if negb (Z.land (btsFlags pBt) BTS_FAST_SECURE =? 0)
          then memset (aData p) hdr 0 (usable - hdr) else Ret (aData p));
  data ← wr data hdr flags;
  let first := hdr + (if Z.land flags PTF_LEAF =? 0 then 12 else 8) in
  data ← memset data (hdr + 1) 0 4;
  data ← wr data (hdr + 7) 0;
  data ← put2byte data (hdr + 5) usable;
  '(_, p) ← decodeFlags (with_data p data) flags;
  _ ← assert_ ((512 <=? pageSize pBt) && (pageSize pBt <=? 65536));
  Ret (with_init p true first (u16 (usable - first)) 0 (u16 (pageSize pBt - 1))).

(** ** Cells *)

(** [rc] is [*pRC]. *)
Definition dropCell (p : MemPage) (idx sz rc : Z) : outcome (Z * MemPage) :=
  if negb (rc =? 0) then Ret (rc, p) else
  _ ← assert_ (0 <=? idx);
  _ ← assert_ (idx <? nCell p);
  _ ← (if NDEBUG || CORRUPT_DB then Ret tt else n ← cellSize p idx; assert_ (sz =? n));
  _ ← assert_ (0 <=? nFree p);
  let ptr := cellOffset p + 2 * idx in
  _ ← assert_ (ptr <? usable);
  pc ← get2byte (aData p) ptr;
  let hdr := hdrOffset p in
  if usable <? u32 (pc + sz) then Ret (SQLITE_CORRUPT, p) else
  '(rc, p) ← freeSpace p (u16 pc) (u16 sz);
  if negb (rc =? 0) then Ret (rc, p) else
  let p := with_counts p (nFree p) (u16 (nCell p - 1)) in
  if nCell p =? 0 then
    data ← memset (aData p) (hdr + 1) 0 4;
    data ← wr data (hdr + 7) 0;
    data ← put2byte data (hdr + 5) usable;
    Ret (SQLITE_OK, with_counts (with_data p data) (i32 (u32 (usable - hdrOffset p - childPtrSize p - 8))) (nCell p))
  else
    data ← memcpy (aData p) ptr (aData p) (ptr + 2) (2 * (nCell p - idx));
    data ← put2byte data (hdr + 3) (nCell p);
    Ret (SQLITE_OK, with_counts (with_data p data) (nFree p + 2) (nCell p)).

(** The assertions both insertions begin with. *)
Definition insert_asserts (p : MemPage) (i : Z) (pCell : list Z) (sz : Z) : outcome unit :=
  _ ← assert_ ((0 <=? i) && (i <=? nCell p + nOverflow p));
  _ ← assert_ (MX_CELL <=? 10921);
  _ ← assert_ ((nCell p <=? MX_CELL) || CORRUPT_DB);
  _ ← assert_ (nOverflow p <=? 4);
  _ ← (if NDEBUG : bool then Ret tt else n ← call_xCellSize p pCell; assert_ ((sz =? n) || CORRUPT_DB));
  assert_ (0 <=? nFree p).

(** The cell goes to the list of those that do not fit. *)
Definition add_overflow (p : MemPage) (i : Z) (pCell : list Z) : outcome MemPage :=
  let j := nOverflow p in
  _ ← assert_ (j <? 4 - 1);
  if 4 <=? j then Undefined else
  let before := last (aOvfl p) in
  _ ← assert_ (match before with None => true | Some (k, _) => k <? u16 i end);
  _ ← assert_ (match before with None => true | Some (k, _) => i =? k + 1 end);
  Ret (with_ovfl p (aOvfl p ++ [(u16 i, pCell)])).

(** [if( ( ++data[hdr+4])==0 ) data[hdr+3]++;] *)
Definition increment_count (data : list Z) (hdr : Z) : outcome (list Z) :=
  b ← rd data (hdr + 4);
  data ← wr data (hdr + 4) (b + 1);
  b ← rd data (hdr + 4);
  if b =? 0 then a ← rd data (hdr + 3); wr data (hdr + 3) (a + 1) else Ret data.

(** Behind the copy of the content to [idx]: the pointer and the count. *)
Definition insert_pointer (p : MemPage) (i idx : Z) : outcome MemPage :=
  let pIns := cellOffset p + i * 2 in
  data ← memcpy (aData p) (pIns + 2) (aData p) pIns (2 * (nCell p - i));
  data ← put2byte data pIns idx;
  let p := with_counts p (nFree p) (u16 (nCell p + 1)) in
  let hdr := hdrOffset p in
  data ← increment_count data hdr;
  n ← get2byte data (hdr + 3);
  _ ← assert_ ((n =? nCell p) || CORRUPT_DB);
  Ret (with_data p data).

(** What the pager answers when the page is made writable, and what the
    pointer map answers if the file has one. *)
Variable pager_write : Z.
Variable ptrmap : option Z.

Definition insertCellFast (p : MemPage) (i : Z) (pCell : list Z) (sz : Z) : outcome (Z * MemPage) :=
  _ ← insert_asserts p i pCell sz;
  _ ← assert_ (nOverflow p =? 0);
  if nFree p <? sz + 2 then p ← add_overflow p i (take (Z.to_nat sz) pCell); Ret (SQLITE_OK, p)
  else if negb (pager_write =? SQLITE_OK) then Ret (pager_write, p)
  else
    '(rc, idx, p) ← allocateSpace p sz;
    if negb (rc =? SQLITE_OK) then Ret (rc, p) else
    _ ← assert_ (0 <=? idx);
    _ ← assert_ ((cellOffset p + 2 * nCell p + 2 <=? idx) || CORRUPT_DB);
    _ ← assert_ (idx + sz <=? usable);
    let p := with_counts p (nFree p - u16 (2 + sz)) (nCell p) in
    data ← memcpy (aData p) idx pCell 0 sz;
    p ← insert_pointer (with_data p data) i idx;
    Ret (match ptrmap with Some rc2 => rc2 | None => SQLITE_OK end, p).

(** The buffer [pTemp], or the caller's, gets the child's number; the list
    holds a pointer to it, here its content. *)
Definition insertCell (p : MemPage) (i : Z) (pCell : list Z) (sz iChild : Z) : outcome (Z * MemPage) :=
  _ ← insert_asserts p i pCell sz;
  _ ← assert_ (0 <? iChild);
  if negb (nOverflow p =? 0) || (nFree p <? sz + 2) then
    pCell ← sqlite3Put4byte (take (Z.to_nat sz) pCell) 0 iChild;
    p ← add_overflow p i pCell;
    Ret (SQLITE_OK, p)
  else if negb (pager_write =? SQLITE_OK) then Ret (pager_write, p)
  else
    '(rc, idx, p) ← allocateSpace p sz;
    if negb (rc =? SQLITE_OK) then Ret (rc, p) else
    _ ← assert_ (0 <=? idx);
    _ ← assert_ ((cellOffset p + 2 * nCell p + 2 <=? idx) || CORRUPT_DB);
    _ ← assert_ (idx + sz <=? usable);
    let p := with_counts p (nFree p - u16 (2 + sz)) (nCell p) in
    data ← memcpy (aData p) (idx + 4) pCell 4 (sz - 4);
    data ← sqlite3Put4byte data idx iChild;
    p ← insert_pointer (with_data p data) i idx;
    Ret (match ptrmap with Some rc2 => rc2 | None => SQLITE_OK end, p).

End Page.
