(* ===== verification/PageSpace.v ===== *)
(** * B-tree pages: the room within a page

    What allocation and release do to the free blocks and fragments of a page
    of Page.v.  The content area is described by the list of the intervals in
    use; [space] says that these and the free blocks are disjoint, that the
    chain in the page lists the free blocks in order, and that the fragment
    count is exact. *)

From S2P Require Import Prelude Words Chars Page.

(** ** Buffers *)

Definition bytes (l : list Z) : Prop := forall k, 0 <= at_ l k < 256.

Lemma len_nonneg l : 0 <= len l.
Proof. unfold len. lia. Qed.

Lemma inside_spec l k n : inside l k n = true <-> 0 <= k /\ 0 <= n /\ k + n <= len l.
Proof. unfold inside. rewrite !andb_true_iff, !Z.leb_le. tauto. Qed.

Lemma len_store l k bs : 0 <= k -> k + len bs <= len l -> len (store l k bs) = len l.
Proof. unfold len, store. intros. rewrite !length_app, length_take, length_drop. lia. Qed.

Lemma at_store l k bs j : 0 <= k -> k + len bs <= len l -> 0 <= j ->
  at_ (store l k bs) j = if (k <=? j) && (j <? k + len bs) then at_ bs (j - k) else at_ l j.
Proof.
  unfold len, store, at_. intros Hk Hl Hj. rewrite !nth_lookup.
  destruct ((k <=? j) && (j <? k + Z.of_nat (length bs))) eqn:E; zify_bool.
  - rewrite lookup_app_r by (rewrite length_take; lia). rewrite length_take, lookup_app_l by lia. do 2 f_equal. lia.
  - assert (j < k \/ k + Z.of_nat (length bs) <= j) as [Hlt|Hge].
    { apply andb_false_iff in E as [E|E]; zify_bool; lia. }
    + rewrite lookup_app_l by (rewrite length_take; lia). by rewrite lookup_take_lt by lia.
    + rewrite lookup_app_r by (rewrite length_take; lia). rewrite lookup_app_r by (rewrite length_take; lia).
      rewrite lookup_drop, length_take. do 2 f_equal. lia.
Qed.

Lemma bytes_Forall l : Forall (fun b => 0 <= b < 256) l -> bytes l.
Proof.
  intros Hl k. unfold at_. rewrite nth_lookup. destruct (l !! Z.to_nat k) eqn:E; simpl; [|lia].
  exact (proj1 (Forall_lookup _ _) Hl _ _ E).
Qed.

Lemma at_neg l k : k < 0 -> at_ l k = at_ l 0.
Proof. intros. unfold at_. by replace (Z.to_nat k) with (Z.to_nat 0) by lia. Qed.

Lemma bytes_store l k bs : 0 <= k -> k + len bs <= len l -> bytes l -> bytes bs -> bytes (store l k bs).
Proof.
  intros Hk Hl B B' j. destruct (Z_lt_le_dec j 0); [rewrite at_neg by done|].
  all: rewrite at_store by lia; destruct (_ && _); auto.
Qed.

Lemma len_from_to l k n : 0 <= k -> 0 <= n -> k + n <= len l -> len (from_to l k n) = n.
Proof. unfold len, from_to. intros. rewrite length_take, length_drop. lia. Qed.

Lemma at_from_to l k n j : 0 <= k -> 0 <= j < n -> at_ (from_to l k n) j = at_ l (k + j).
Proof.
  unfold at_, from_to. intros. rewrite !nth_lookup, lookup_take_lt, lookup_drop by lia. do 2 f_equal. lia.
Qed.

Lemma bytes_from_to l k n : bytes l -> bytes (from_to l k n).
Proof.
  intros B j. unfold at_, from_to. rewrite nth_lookup.
  destruct (decide (Z.to_nat j < Z.to_nat n)%nat).
  - rewrite lookup_take_lt, lookup_drop by done. rewrite <- nth_lookup. specialize (B (Z.of_nat (Z.to_nat k + Z.to_nat j))).
    unfold at_ in B. by rewrite Nat2Z.id in B.
  - rewrite lookup_take_ge by lia. simpl. lia.
Qed.

Lemma rd_ok l k : 0 <= k -> k < len l -> rd l k = Ret (at_ l k).
Proof. intros. unfold rd. by rewrite (proj2 (inside_spec l k 1)) by lia. Qed.

Lemma wr_ok l k v : 0 <= k -> k < len l -> wr l k v = Ret (store l k [uchar v]).
Proof. intros. unfold wr. by rewrite (proj2 (inside_spec l k 1)) by lia. Qed.

Lemma memcpy_ok dst d src s n : 0 <= n -> 0 <= s -> s + n <= len src -> 0 <= d -> d + n <= len dst ->
  memcpy dst d src s n = Ret (store dst d (from_to src s n)).
Proof. intros. unfold memcpy. by rewrite !(proj2 (inside_spec _ _ _)) by lia. Qed.

Lemma memset_ok l k v n : 0 <= n -> 0 <= k -> k + n <= len l ->
  memset l k v n = Ret (store l k (replicate (Z.to_nat n) (uchar v))).
Proof. intros. unfold memset. by rewrite (proj2 (inside_spec l k n)) by lia. Qed.

Lemma at_replicate_same n v j : 0 <= j < Z.of_nat n -> at_ (replicate n v) j = v.
Proof. intros. unfold at_. rewrite nth_lookup, lookup_replicate_2 by lia. done. Qed.

Lemma len_replicate n v : len (replicate n v) = Z.of_nat n.
Proof. unfold len. by rewrite length_replicate. Qed.

Lemma uchar_bytes v : 0 <= uchar v < 256.
Proof. unfold uchar. apply Z.mod_pos_bound. lia. Qed.

Lemma bytes_one v : bytes [uchar v].
Proof. apply bytes_Forall. repeat constructor; apply uchar_bytes. Qed.

Lemma bytes_replicate n v : 0 <= v < 256 -> bytes (replicate n v).
Proof. intros. apply bytes_Forall, Forall_replicate. lia. Qed.

(** ** Two-byte numbers *)

Definition get2 (l : list Z) (k : Z) : Z := 256 * at_ l k + at_ l (k + 1).
Definition put2 (l : list Z) (k v : Z) : list Z := store (store l k [uchar (Z.shiftr v 8)]) (k + 1) [uchar v].

Lemma lor_bytes a b : 0 <= b < 256 -> Z.lor (Z.shiftl a 8) b = 256 * a + b.
Proof.
  intros Hb. rewrite <- Z.add_nocarry_lor.
  - rewrite Z.shiftl_mul_pow2 by lia. lia.
  - apply Z.bits_inj'. intros n Hn. rewrite Z.land_spec, Z.shiftl_spec, Z.bits_0 by done.
    destruct (Z_lt_le_dec n 8); [by rewrite (Z.testbit_neg_r a) by lia|].
    rewrite (testbit_high b 8) by lia. apply andb_false_r.
Qed.

Lemma get2byte_ok l k : bytes l -> 0 <= k -> k + 2 <= len l -> get2byte l k = Ret (get2 l k).
Proof.
  intros B Hk Hl. unfold get2byte, get2. rewrite !rd_ok by lia. simpl.
  by rewrite lor_bytes by apply B.
Qed.

Lemma get2_range l k : bytes l -> 0 <= get2 l k < 65536.
Proof. intros B. unfold get2. pose proof (B k). pose proof (B (k + 1)). lia. Qed.

Lemma len_put2 l k v : 0 <= k -> k + 2 <= len l -> len (put2 l k v) = len l.
Proof. intros. unfold put2. rewrite !len_store by (rewrite ?len_store; change (len [_]) with 1; lia). done. Qed.

Lemma put2byte_ok l k v : 0 <= k -> k + 2 <= len l -> put2byte l k v = Ret (put2 l k v).
Proof.
  intros. unfold put2byte, put2. rewrite wr_ok by lia. simpl.
  rewrite wr_ok by (rewrite ?len_store; change (len [_]) with 1; lia). done.
Qed.

Lemma at_store_one l k v j : 0 <= k < len l -> 0 <= j ->
  at_ (store l k [v]) j = if j =? k then v else at_ l j.
Proof.
  intros. rewrite at_store by (change (len [_]) with 1; lia). change (len [v]) with 1.
  destruct (Z.eqb_spec j k) as [->|].
  - rewrite (proj2 (Z.leb_le k k)), (proj2 (Z.ltb_lt k (k + 1))) by lia. simpl. by rewrite Z.sub_diag.
  - destruct (_ && _) eqn:E; [|done]. zify_bool. lia.
Qed.

Ltac eqb_cases := repeat match goal with |- context [?a =? ?b] => destruct (Z.eqb_spec a b) end.

Lemma at_put2 l k v j : 0 <= k -> k + 2 <= len l -> 0 <= j ->
  at_ (put2 l k v) j = if j =? k then uchar (Z.shiftr v 8) else if j =? k + 1 then uchar v else at_ l j.
Proof.
  intros. unfold put2. rewrite at_store_one by (rewrite ?len_store; change (len [_]) with 1; lia).
  rewrite at_store_one by lia. eqb_cases; lia || done.
Qed.

Lemma bytes_put2 l k v : 0 <= k -> k + 2 <= len l -> bytes l -> bytes (put2 l k v).
Proof.
  intros. unfold put2. repeat apply bytes_store; rewrite ?len_store; change (len [_]) with 1; auto using bytes_one; lia.
Qed.

Lemma get2_put2 l k v : 0 <= k -> k + 2 <= len l -> get2 (put2 l k v) k = v mod 65536.
Proof.
  intros. unfold get2. rewrite !at_put2 by lia. rewrite Z.eqb_refl.
  rewrite (proj2 (Z.eqb_neq (k + 1) k)) by lia. rewrite Z.eqb_refl. unfold uchar.
  rewrite Z.shiftr_div_pow2 by lia. change (2 ^ 8) with 256.
  change 65536 with (256 * 256). rewrite Z.rem_mul_r by lia. lia.
Qed.

(** The same bytes at two addresses of the same number. *)
Lemma get2_frame l l' k : at_ l' k = at_ l k -> at_ l' (k + 1) = at_ l (k + 1) -> get2 l' k = get2 l k.
Proof. unfold get2. intros -> ->. done. Qed.

(** ** Intervals *)

(** How many of the intervals contain the byte [k]; their total length. *)
Definition hit (iv : Z * Z) (k : Z) : Z := if (iv.1 <=? k) && (k <? iv.1 + iv.2) then 1 else 0.
Fixpoint cover (ivs : list (Z * Z)) (k : Z) : Z :=
  match ivs with [] => 0 | iv :: ivs => hit iv k + cover ivs k end.
Fixpoint total (ivs : list (Z * Z)) : Z := match ivs with [] => 0 | iv :: ivs => iv.2 + total ivs end.

(** Nonempty intervals between [a] and [b]; the program's have four bytes. *)
Definition within (a b : Z) (iv : Z * Z) : Prop := a <= iv.1 /\ 4 <= iv.2 /\ iv.1 + iv.2 <= b.

Lemma hit_in iv k : iv.1 <= k < iv.1 + iv.2 -> hit iv k = 1.
Proof. intros. unfold hit. destruct (_ && _) eqn:E; [done|]. apply andb_false_iff in E as [E|E]; zify_bool; lia. Qed.
Lemma hit_out iv k : ~ (iv.1 <= k < iv.1 + iv.2) -> hit iv k = 0.
Proof. intros. unfold hit. destruct (_ && _) eqn:E; [|done]. zify_bool. lia. Qed.
Lemma hit_range iv k : 0 <= hit iv k <= 1.
Proof. unfold hit. destruct (_ && _); lia. Qed.
Lemma hit_one iv k : 1 <= hit iv k -> iv.1 <= k < iv.1 + iv.2.
Proof. unfold hit. destruct (_ && _) eqn:E; [|lia]. zify_bool. lia. Qed.

Lemma hit_split s x n k : 0 <= x -> 0 <= n -> hit (s + x, n) k + hit (s, x) k = hit (s, x + n) k.
Proof.
  intros. destruct (decide (s <= k < s + x)).
  - rewrite (hit_out (s + x, n)), (hit_in (s, x)), (hit_in (s, x + n)) by (simpl; lia). done.
  - rewrite (hit_out (s, x)) by done. destruct (decide (s + x <= k < s + x + n)).
    + rewrite (hit_in (s + x, n)), (hit_in (s, x + n)) by (simpl; lia). done.
    + rewrite (hit_out (s + x, n)), (hit_out (s, x + n)) by (simpl; lia). done.
Qed.

Lemma cover_app a b k : cover (a ++ b) k = cover a k + cover b k.
Proof. induction a; simpl; lia. Qed.
Lemma total_app a b : total (a ++ b) = total a + total b.
Proof. induction a; simpl; lia. Qed.
Lemma cover_nonneg a k : 0 <= cover a k.
Proof. induction a as [|iv a IH]; simpl; [lia|]. pose proof (hit_range iv k). lia. Qed.
#[export] Instance cover_proper : Proper (Permutation ==> eq ==> eq) cover.
Proof. intros a b Hab ? k ->. induction Hab; simpl; lia. Qed.
#[export] Instance total_proper : Proper (Permutation ==> eq) total.
Proof. intros a b Hab. induction Hab; simpl; lia. Qed.
Lemma total_nonneg a b ivs : Forall (within a b) ivs -> 0 <= total ivs.
Proof. induction 1 as [|iv ivs (? & ? & ?)]; simpl; lia. Qed.
Lemma cover_in ivs iv k : iv ∈ ivs -> iv.1 <= k < iv.1 + iv.2 -> 1 <= cover ivs k.
Proof.
  intros Hin Hk. apply elem_of_Permutation in Hin as [r ->]. simpl.
  rewrite hit_in by done. pose proof (cover_nonneg r k). lia.
Qed.
Lemma cover_out a b ivs k : Forall (within a b) ivs -> ~ (a <= k < b) -> cover ivs k = 0.
Proof. induction 1 as [|iv ivs (? & ? & ?)]; simpl; intros; [done|]. rewrite hit_out by lia. auto with lia. Qed.

(** A gap of at most three bytes between bytes that the intervals do not cover
    is not covered either. *)
Lemma cover_gap a b ivs e f k : Forall (within a b) ivs ->
  cover ivs (e - 1) = 0 -> cover ivs f = 0 -> f - e <= 3 -> e <= k < f -> cover ivs k = 0.
Proof.
  induction 1 as [|iv ivs (? & ? & ?) Hivs IH]; simpl; intros He Hf Hef Hk; [done|].
  pose proof (hit_range iv (e - 1)). pose proof (hit_range iv f).
  pose proof (cover_nonneg ivs (e - 1)). pose proof (cover_nonneg ivs f).
  rewrite IH by lia. rewrite hit_out; [done|]. intros Hin.
  assert (~ (iv.1 <= e - 1 < iv.1 + iv.2)) by (intros ?; rewrite hit_in in He by lia; lia).
  assert (~ (iv.1 <= f < iv.1 + iv.2)) by (intros ?; rewrite hit_in in Hf by lia; lia). lia.
Qed.

(** Counting: disjoint intervals do not exceed the room they are in. *)
Fixpoint sum_cover (ivs : list (Z * Z)) (a : Z) (n : nat) : Z :=
  match n with O => 0 | S n => cover ivs a + sum_cover ivs (a + 1) n end.

Lemma sum_cover_nil a n : sum_cover [] a n = 0.
Proof. revert a. induction n; simpl; intros; [done|]. by rewrite IHn. Qed.
Lemma sum_cover_cons iv ivs a n : sum_cover (iv :: ivs) a n = sum_cover [iv] a n + sum_cover ivs a n.
Proof. revert a. induction n; simpl; intros; [done|]. rewrite IHn. lia. Qed.
Lemma sum_hit iv a n : 0 <= iv.2 ->
  sum_cover [iv] a n = Z.max 0 (Z.min (iv.1 + iv.2) (a + Z.of_nat n) - Z.max iv.1 a).
Proof.
  intros Hiv. revert a. induction n; intros; simpl; [lia|]. rewrite IHn.
  destruct (decide (iv.1 <= a < iv.1 + iv.2)); [rewrite hit_in by done|rewrite hit_out by done]; lia.
Qed.
Lemma sum_cover_total a b ivs : Forall (within a b) ivs -> a <= b ->
  sum_cover ivs a (Z.to_nat (b - a)) = total ivs.
Proof.
  intros Hivs Hab. induction Hivs as [|iv ivs (? & ? & ?) ? IH]; [apply sum_cover_nil|].
  rewrite sum_cover_cons, IH, sum_hit by lia. simpl. lia.
Qed.
Lemma sum_cover_le ivs a n : (forall k, cover ivs k <= 1) -> sum_cover ivs a n <= Z.of_nat n.
Proof. intros Hc. revert a. induction n; intros; simpl sum_cover; [lia|]. pose proof (Hc a). pose proof (IHn (a + 1)). lia. Qed.
Lemma total_bound a b ivs : Forall (within a b) ivs -> (forall k, cover ivs k <= 1) -> a <= b -> total ivs <= b - a.
Proof.
  intros ? Hc ?. rewrite <- (sum_cover_total a b) by done. pose proof (sum_cover_le ivs a (Z.to_nat (b - a)) Hc). lia.
Qed.

(** ** The free list *)

(** [seg l a fl]: the pointer at [a] and the heads of the blocks lead through
    [fl], whose last block (or [a]) is [link a fl]. *)
Fixpoint seg (l : list Z) (a : Z) (fl : list (Z * Z)) : Prop :=
  match fl with
  | [] => True
  | (s, n) :: fl => get2 l a = s /\ get2 l (s + 2) = n /\ seg l s fl
  end.
Fixpoint link (a : Z) (fl : list (Z * Z)) : Z := match fl with [] => a | (s, _) :: fl => link s fl end.
Definition chain (l : list Z) (a : Z) (fl : list (Z * Z)) : Prop := seg l a fl /\ get2 l (link a fl) = 0.

(** Blocks in order from [lo] on, more than three bytes apart, up to [hi]. *)
Fixpoint spaced (lo hi : Z) (fl : list (Z * Z)) : Prop :=
  match fl with
  | [] => True
  | (s, n) :: fl => lo <= s /\ 4 <= n /\ s + n <= hi /\ spaced (s + n + 4) hi fl
  end.
Fixpoint reach (lo : Z) (fl : list (Z * Z)) : Z := match fl with [] => lo | (s, n) :: fl => reach (s + n + 4) fl end.

(** The bytes that [seg] depends on. *)
Fixpoint reads (a : Z) (fl : list (Z * Z)) (k : Z) : Prop :=
  match fl with
  | [] => False
  | (s, _) :: fl => a <= k < a + 2 \/ s + 2 <= k < s + 4 \/ reads s fl k
  end.

Lemma seg_app l a f g : seg l a (f ++ g) <-> seg l a f /\ seg l (link a f) g.
Proof. revert a. induction f as [|[s n] f IH]; simpl; intros; [tauto|]. rewrite IH. tauto. Qed.
Lemma link_app a f g : link a (f ++ g) = link (link a f) g.
Proof. revert a. induction f as [|[s n] f IH]; simpl; intros; [done|]. apply IH. Qed.
Lemma freelist_app l a f g : chain l a (f ++ g) <-> seg l a f /\ chain l (link a f) g.
Proof. unfold chain. rewrite seg_app, link_app. tauto. Qed.
Lemma spaced_app lo hi f g : spaced lo hi (f ++ g) <-> spaced lo hi f /\ spaced (reach lo f) hi g.
Proof. revert lo. induction f as [|[s n] f IH]; simpl; intros; [tauto|]. rewrite IH. tauto. Qed.

Lemma reach_app lo f g : reach lo (f ++ g) = reach (reach lo f) g.
Proof. revert lo. induction f as [|[s n] f IH]; simpl; intros; [done|]. apply IH. Qed.

Lemma spaced_weaken lo lo' hi fl : lo' <= lo -> spaced lo hi fl -> spaced lo' hi fl.
Proof. destruct fl as [|[s n] fl]; simpl; [done|]. intuition lia. Qed.
Lemma spaced_within lo hi fl : spaced lo hi fl -> Forall (within lo hi) fl.
Proof.
  revert lo. induction fl as [|[s n] fl IH]; simpl; intros; [constructor|]. destruct H as (? & ? & ? & Hs).
  constructor; [unfold within; simpl; lia|]. eapply IH, spaced_weaken, Hs. lia.
Qed.
Lemma reach_ge lo hi fl : spaced lo hi fl -> lo <= reach lo fl.
Proof.
  revert lo. induction fl as [|[s n] fl IH]; simpl; intros; [lia|]. destruct H as (? & ? & ? & Hs).
  specialize (IH _ Hs). lia.
Qed.
Lemma spaced_disjoint lo hi fl k : spaced lo hi fl -> cover fl k <= 1.
Proof.
  revert lo. induction fl as [|[s n] fl IH]; simpl; intros; [lia|]. destruct H as (? & ? & ? & Hs).
  unfold hit. simpl. destruct (_ && _) eqn:E; [|specialize (IH _ Hs); lia]. zify_bool.
  rewrite (cover_out _ _ _ k (spaced_within _ _ _ Hs)); lia.
Qed.

Lemma seg_frame l l' a fl : seg l a fl -> (forall k, reads a fl k -> at_ l' k = at_ l k) -> seg l' a fl.
Proof.
  revert a. induction fl as [|[s n] fl IH]; simpl; intros a H Hk; [done|]. destruct H as (H1 & H2 & H3).
  rewrite (get2_frame l l' a), (get2_frame l l' (s + 2)) by (apply Hk; lia). auto 10.
Qed.
Lemma freelist_frame l l' a fl : chain l a fl ->
  (forall k, reads a fl k \/ link a fl <= k < link a fl + 2 -> at_ l' k = at_ l k) -> chain l' a fl.
Proof.
  intros [H1 H2] Hk. split; [eauto using seg_frame|]. rewrite (get2_frame l l'); auto; apply Hk; lia.
Qed.

Lemma link_cases lo hi a fl : spaced lo hi fl -> (fl = [] /\ link a fl = a) \/ (lo <= link a fl /\ link a fl + 4 <= hi /\
  forall k, link a fl <= k < link a fl + 4 -> 1 <= cover fl k).
Proof.
  revert a lo. induction fl as [|[s n] fl IH]; simpl; intros a lo H; [auto|]. right. destruct H as (? & ? & ? & Hs).
  destruct (IH s _ Hs) as [[-> Hl]|(? & ? & Hc)].
  - rewrite Hl. simpl. repeat split; try lia. intros. rewrite hit_in by (simpl; lia). lia.
  - repeat split; try lia. intros k Hk. specialize (Hc k Hk). pose proof (hit_range (s, n) k). lia.
Qed.

Lemma link_reach lo hi a fl : spaced lo hi fl -> fl = [] \/ link a fl < reach lo fl.
Proof.
  intros H. destruct fl as [|[s n] fl _] using rev_ind; [auto|]. right. rewrite link_app, reach_app. simpl.
  apply spaced_app in H as [_ H]. simpl in H. lia.
Qed.

(** What [seg] depends on is the pointer at its beginning and heads of blocks,
    without the pointer in the last one. *)
Lemma reads_bounds lo hi a fl k : spaced lo hi fl -> a + 2 <= lo -> reads a fl k ->
  (a <= k < a + 2 \/ lo <= k < hi /\ 1 <= cover fl k) /\ ~ (link a fl <= k < link a fl + 2).
Proof.
  revert a lo. induction fl as [|[s n] fl IH]; simpl; intros a lo H Ha Hr; [done|].
  destruct H as (? & ? & ? & Hs). pose proof (hit_range (s, n) k). pose proof (cover_nonneg fl k).
  assert (s <= k < s + n -> hit (s, n) k = 1) as Hh by apply (hit_in (s, n)).
  destruct (link_cases _ _ s fl Hs) as [[-> Hl]|(? & ? & _)].
  - rewrite Hl. simpl in *. intuition lia.
  - destruct Hr as [Hr|[Hr|Hr]]; [intuition lia..|]. destruct (IH s _ Hs ltac:(lia) Hr) as [Hc Hn]. intuition lia.
Qed.


Lemma spaced_length lo hi fl : spaced lo hi fl -> lo <= hi -> 4 * Z.of_nat (length fl) <= hi - lo + 4.
Proof.
  revert lo. induction fl as [|[s n] fl IH]; simpl; intros; [lia|]. destruct H as (? & ? & ? & Hs).
  destruct fl as [|[s' n'] fl]; [simpl; lia|]. assert (s + n + 4 <= hi) by (simpl in Hs; lia).
  specialize (IH _ Hs ltac:(lia)). lia.
Qed.

(** ** Merging, on the lists *)

(** The block in front joins the released one if at most three bytes part
    them, and likewise the block behind; [g] are the fragments that are gained. *)
Definition joins_prev (pc : Z) (pre pre' : list (Z * Z)) (st g : Z) : Prop :=
  (pre' = pre /\ st = pc /\ g = 0 /\ forall q s m, pre = q ++ [(s, m)] -> s + m + 3 < pc) \/
  (exists m, pre = pre' ++ [(st, m)] /\ g = pc - (st + m) /\ 0 <= g <= 3).
Definition joins_next (e : Z) (suf suf' : list (Z * Z)) (e1 g : Z) : Prop :=
  (suf' = suf /\ e1 = e /\ g = 0 /\ match suf with [] => True | (s, _) :: _ => e + 3 < s end) \/
  (exists s m, suf = (s, m) :: suf' /\ e1 = s + m /\ g = s - e /\ 0 <= g <= 3).

Lemma joins_prev_spaced top hi pc e pre pre' st g :
  joins_prev pc pre pre' st g -> spaced (top + 1) hi pre -> top <= pc -> pc + 4 <= e -> e <= hi ->
  spaced top hi (pre' ++ [(st, e - st)]) /\ st <= pc /\ (pre' = [] \/ top < st).
Proof.
  intros [(-> & -> & -> & Hp)|(m & -> & -> & Hg)] Hs Ht Hpc He.
  - rewrite spaced_app. split_and!; [eapply spaced_weaken, Hs; lia| |lia|].
    + simpl. destruct pre as [|[s m] q _] using rev_ind; simpl; [lia|].
      rewrite reach_app. simpl. pose proof (Hp q s m eq_refl). lia.
    + destruct pre as [|[s m] q _] using rev_ind; [auto|]. right. pose proof (Hp q s m eq_refl).
      apply spaced_app in Hs as [Hq Hs]. pose proof (reach_ge _ _ _ Hq). simpl in Hs. lia.
  - apply spaced_app in Hs as [Hq Hs]. pose proof (reach_ge _ _ _ Hq). simpl in Hs.
    rewrite spaced_app. split_and!; [eapply spaced_weaken, Hq; lia| |lia|lia].
    simpl. assert (reach top pre' <= reach (top + 1) pre') by (destruct pre' as [|[? ?] ?]; simpl; lia). lia.
Qed.

Lemma joins_next_spaced lo hi e suf suf' e1 g :
  joins_next e suf suf' e1 g -> spaced lo hi suf -> e <= hi ->
  spaced (e1 + 4) hi suf' /\ e <= e1 <= hi.
Proof.
  intros [(-> & -> & -> & Hn)|(s & m & -> & -> & -> & Hg)] Hs He.
  - split; [|lia]. destruct suf as [|[s m] suf]; [done|]. simpl in *. intuition lia.
  - simpl in Hs. destruct Hs as (? & ? & ? & Hs). split; [done|lia].
Qed.

Section Merge.
Variables (top hi pc n : Z) (used pre suf : list (Z * Z)).
Hypotheses (Hsp : spaced (top + 1) hi (pre ++ suf)) (Hused : Forall (within top hi) used)
  (Hpc : within top hi (pc, n)) (Hdis : forall k, hit (pc, n) k + cover used k + cover (pre ++ suf) k <= 1)
  (Hsuf : match suf with [] => True | (s, _) :: _ => pc <= s end).
Variables (pre' suf' : list (Z * Z)) (st g0 e1 g1 : Z).
Hypotheses (Hprev : joins_prev pc pre pre' st g0) (Hnext : joins_next (pc + n) suf suf' e1 g1).

Definition merged : list (Z * Z) := pre' ++ (st, e1 - st) :: suf'.

Lemma merged_spaced : spaced top hi merged /\ st <= pc /\ pc + n <= e1 <= hi /\ (pre' = [] \/ top < st).
Proof.
  destruct Hpc as (? & ? & ?). simpl in *. apply spaced_app in Hsp as [Hs1 Hs2].
  destruct (joins_next_spaced _ _ _ _ _ _ _ Hnext Hs2) as [Hn ?]; [lia|].
  destruct (joins_prev_spaced _ _ _ e1 _ _ _ _ Hprev Hs1) as (Hp & ? & ?); [lia..|].
  split_and!; try lia; [|done]. unfold merged. apply spaced_app in Hp as [Hp1 Hp2].
  rewrite spaced_app. split; [done|]. simpl in *. split_and!; try tauto. by replace (st + (e1 - st) + 4) with (e1 + 4) by lia.
Qed.

Lemma merged_total : total merged = total (pre ++ suf) + n + g0 + g1 /\ 0 <= g0 <= 3 /\ 0 <= g1 <= 3.
Proof using Hprev Hnext.
  clear - Hprev Hnext. unfold merged. rewrite !total_app. simpl.
  destruct Hprev as [(-> & -> & -> & Hp)|(m & -> & -> & Hg)];
    destruct Hnext as [(-> & -> & -> & Hn)|(s & m' & -> & -> & -> & Hg')]; rewrite ?total_app; simpl; lia.
Qed.

(** Nothing else is in the bytes from [st] to [e1]. *)
Lemma merged_free k : st <= k < e1 -> cover used k = 0.
Proof.
  intros Hk. destruct Hpc as (? & ? & ?). simpl in *.
  assert (forall k', 0 <= cover used k') as Hu by apply cover_nonneg.
  assert (forall k', pc <= k' < pc + n \/ 1 <= cover (pre ++ suf) k' -> cover used k' = 0) as Hz.
  { intros k' Hk'. pose proof (Hdis k'). pose proof (Hu k'). pose proof (cover_nonneg (pre ++ suf) k').
    pose proof (hit_range (pc, n) k'). destruct Hk' as [Hk'|Hk']; [pose proof (hit_in (pc, n) k' Hk'); lia|lia]. }
  destruct (decide (pc <= k < pc + n)); [apply Hz; lia|]. destruct (decide (k < pc)).
  - destruct Hprev as [(-> & -> & -> & Hp)|(m & -> & -> & Hg)]; [lia|].
    destruct (decide (k < st + m)).
    + apply Hz. right. apply (cover_in _ (st, m)); [set_solver|simpl; lia].
    + apply (cover_gap top hi used (st + m) pc); try lia; [done| |apply Hz; lia].
      apply Hz. right. apply spaced_app in Hsp as [Hs _]. apply spaced_app in Hs as [_ Hs]. simpl in Hs.
      apply (cover_in _ (st, m)); [set_solver|simpl; lia].
  - destruct Hnext as [(-> & -> & -> & Hn)|(s & m & -> & -> & -> & Hg)]; [lia|].
    apply spaced_app in Hsp as [_ Hs]. simpl in Hs. destruct (decide (s <= k)).
    + apply Hz. right. apply (cover_in _ (s, m)); [set_solver|simpl; lia].
    + apply (cover_gap top hi used (pc + n) s); try lia; [done|apply Hz; lia|].
      apply Hz. right. apply (cover_in _ (s, m)); [set_solver|simpl; lia].
Qed.

Lemma merged_cover k : ~ (st <= k < e1) -> cover merged k <= cover (pre ++ suf) k.
Proof.
  intros Hk. unfold merged. rewrite !cover_app. simpl. rewrite (hit_out (st, _)) by (simpl; lia).
  destruct Hprev as [(-> & -> & -> & Hp)|(m & -> & -> & Hg)];
    destruct Hnext as [(-> & -> & -> & Hn)|(s & m' & -> & -> & -> & Hg')]; rewrite ?cover_app; simpl;
    try pose proof (hit_range (st, m) k); try pose proof (hit_range (s, m') k); lia.
Qed.

Lemma merged_disjoint k : cover used k + cover merged k <= 1.
Proof.
  pose proof merged_spaced as (Hs & _). destruct (decide (st <= k < e1)) as [Hk|Hk].
  - rewrite (merged_free k Hk). pose proof (spaced_disjoint _ _ _ k Hs). lia.
  - pose proof (merged_cover k Hk). pose proof (Hdis k). pose proof (hit_range (pc, n) k). lia.
Qed.

(** There is room for both, so the gained fragments have been counted. *)
Lemma merged_fits : total used + total merged <= hi - top.
Proof.
  pose proof merged_spaced as (Hs & _). rewrite <- total_app. apply total_bound.
  - apply Forall_app. split; [done|]. apply spaced_within, Hs.
  - intros k. rewrite cover_app. apply merged_disjoint.
  - destruct Hpc as (? & ? & ?). simpl in *. lia.
Qed.

End Merge.

(** ** Pages *)

(** The parameters of a file. *)
Record params_ok (pBt : BtShared) : Prop := {
  pp_usable : 480 <= usableSize pBt <= pageSize pBt;
  pp_page : exists k, 9 <= k <= 16 /\ pageSize pBt = 2 ^ k
}.

Lemma page_bounds pBt : params_ok pBt -> 480 <= usableSize pBt <= pageSize pBt /\ 512 <= pageSize pBt <= 65536.
Proof.
  intros [Hu (k & Hk & Hp)]. split; [done|]. rewrite Hp. change 512 with (2 ^ 9). change 65536 with (2 ^ 16).
  split; apply Z.pow_le_mono_r; lia.
Qed.

(** The buffer of a page and the fields that depend on its kind only. *)
Record shape (pBt : BtShared) (p : MemPage) : Prop := {
  sh_len : len (aData p) = pageSize pBt;
  sh_bytes : bytes (aData p);
  sh_hdr : hdrOffset p = 0 \/ hdrOffset p = 100;
  sh_child : leaf p = true /\ childPtrSize p = 0 \/ leaf p = false /\ childPtrSize p = 4;
  sh_offset : cellOffset p = hdrOffset p + 8 + childPtrSize p;
  sh_mask : maskPage p = pageSize pBt - 1;
  sh_cells : 0 <= nCell p
}.

(** The room of a page, where [used] are the intervals in use. *)
Record space (pBt : BtShared) (p : MemPage) (used fl : list (Z * Z)) (top : Z) : Prop := {
  sp_chain : chain (aData p) (hdrOffset p + 1) fl;
  sp_spaced : spaced (top + 1) (usableSize pBt) fl;
  sp_top : get2 (aData p) (hdrOffset p + 5) = top mod 65536;
  sp_gap : iCellFirst p <= top <= usableSize pBt;
  sp_used : Forall (within top (usableSize pBt)) used;
  sp_disjoint : forall k, cover used k + cover fl k <= 1;
  sp_total : total used + total fl + at_ (aData p) (hdrOffset p + 7) = usableSize pBt - top
}.

(** The bytes of the header that the room is described in. *)
Definition room_header (p : MemPage) (k : Z) : Prop :=
  hdrOffset p + 1 <= k < hdrOffset p + 3 \/ hdrOffset p + 5 <= k < hdrOffset p + 8.

Definition first_of (fl : list (Z * Z)) : Z := match fl with [] => 0 | (s, _) :: _ => s end.

Lemma chain_first l a fl : chain l a fl -> get2 l a = first_of fl.
Proof. intros [H1 H2]. destruct fl as [|[s n] fl]; simpl in *; tauto. Qed.

Lemma chain_tail l a s n fl : chain l a ((s, n) :: fl) -> get2 l (s + 2) = n /\ chain l s fl.
Proof. unfold chain. simpl. tauto. Qed.

Section Space.
Context `{Build}.
Variable CORRUPT_DB : bool.
Variable pBt : BtShared.
Hypothesis Hpar : params_ok pBt.
Abbreviation usable := (usableSize pBt).

Lemma chain_relink l l2 x y suf lo hi : chain l x suf -> spaced lo hi suf -> get2 l2 y = first_of suf ->
  (forall k, lo <= k -> at_ l2 k = at_ l k) -> chain l2 y suf.
Proof.
  destruct suf as [|[s n] suf]; simpl; [by intros; split|]. intros Hc Hs Hy Hk.
  apply chain_tail in Hc as [Hn Hc]. simpl in Hs.
  assert (chain l2 s suf) as [Hc1 Hc2].
  { apply (freelist_frame l); [done|]. intros k [Hr|Hr]; apply Hk.
    - destruct (reads_bounds (s + n + 4) hi s suf k) as [? _]; [tauto|lia|done|lia].
    - destruct (link_cases (s + n + 4) hi s suf) as [[_ ?]|?]; [tauto|lia..]. }
  split; [|done]. simpl. split_and!; [done| |done]. rewrite (get2_frame l); [done|apply Hk; lia..].
Qed.

Lemma free_position_ok fuel l iStart a fl lo : bytes l -> 0 <= a -> a + 2 <= lo -> a + 2 <= usable -> usable <= len l ->
  chain l a fl -> spaced lo usable fl -> 0 < iStart -> (length fl < fuel)%nat ->
  exists pre suf, fl = pre ++ suf /\
    free_position fuel l iStart a = Ret (Some (link a pre, first_of suf)) /\
    Forall (fun iv => iv.1 < iStart) pre /\ match suf with [] => True | (s, _) :: _ => iStart <= s end.
Proof.
  intros B Ha Hlo Hal Hl Hc Hs Hi. revert fuel a lo Ha Hlo Hal Hc Hs.
  induction fl as [|[s n] fl IH]; intros fuel a lo Ha Hlo Hal Hc Hs Hf.
  all: destruct fuel as [|fuel]; [simpl in Hf; lia|]; simpl free_position.
  all: rewrite get2byte_ok, (chain_first _ _ _ Hc) by (done || lia); simpl.
  - exists [], []. rewrite (proj2 (Z.ltb_lt 0 iStart)), (proj2 (Z.leb_le 0 a)) by lia. done.
  - apply chain_tail in Hc as [_ Hc]. simpl in Hs, Hf. destruct (Z.ltb_spec s iStart).
    + rewrite (proj2 (Z.leb_gt s a)) by lia.
      destruct (IH fuel s (s + n + 4)) as (pre & suf & -> & Hr & Hp & Hn); try tauto; try lia.
      exists ((s, n) :: pre), suf. split_and!; auto.
    + exists [], ((s, n) :: fl). split_and!; auto.
Qed.

Lemma chain_room l a fl lo : chain l a fl -> spaced lo usable fl -> 0 <= lo -> lo <= usable ->
  (length fl < chain_fuel pBt)%nat.
Proof. intros Hc Hs ? ?. unfold chain_fuel. pose proof (page_bounds _ Hpar). pose proof (spaced_length _ _ _ Hs ltac:(lia)). lia. Qed.

(** The block in front, if any. *)
Lemma merge_prev_ok l hdr pre suf top pc f : bytes l -> usable <= len l -> usable <= 65536 ->
  seg l (hdr + 1) (pre ++ suf) -> spaced (top + 1) usable (pre ++ suf) -> 0 <= hdr -> hdr + 3 <= top ->
  f_start f = pc -> 0 <= f_frag f <= 3 -> pc + 4 <= f_end f <= usable -> f_size f = u16 (f_end f - pc) ->
  (forall s m, (s, m) ∈ pre -> s + m <= pc) ->
  exists pre' st g, joins_prev pc pre pre' st g /\
    merge_prev l hdr (link (hdr + 1) pre) f =
      Ret (Some (Build_freed st (u16 (f_end f - st)) (f_end f) (f_next f) (f_frag f + g))) /\
    (st = pc \/ st = link (hdr + 1) pre).
Proof.
  destruct f as [fs fz fe fn ff]. simpl. intros B Hl Hu Hseg Hsp Hh Ht -> Hff Hfe -> Hord.
  apply spaced_app in Hsp as [Hsp _]. apply seg_app in Hseg as [Hseg _].
  unfold merge_prev. destruct pre as [|[s m] q _] using rev_ind.
  - simpl. rewrite Z.ltb_irrefl. exists [], pc, 0. rewrite Z.add_0_r. split_and!; auto. left. split_and!; auto.
    intros q s m Hq. by destruct q.
  - rewrite link_app. simpl. apply seg_app in Hseg as [_ (_ & Hm & _)].
    apply spaced_app in Hsp as [Hq Hsp]. pose proof (reach_ge _ _ _ Hq). simpl in Hsp.
    rewrite (proj2 (Z.ltb_lt (hdr + 1) s)), get2byte_ok, Hm by (done || lia). simpl.
    assert (s + m <= pc) by (apply Hord; set_solver). destruct (Z.leb_spec pc (s + m + 3)).
    + rewrite (proj2 (Z.ltb_ge pc (s + m))) by lia. exists q, s, (pc - (s + m)). split_and!; [|do 3 f_equal|auto].
      * right. exists m. split_and!; lia || done.
      * unfold uchar. rewrite Z.mod_small; lia.
    + exists (q ++ [(s, m)]), pc, 0. rewrite Z.add_0_r. split_and!; auto. left. split_and!; auto.
      intros q' s' m' Hq'. apply app_inj_tail in Hq' as [_ [= -> ->]]. lia.
Qed.

Lemma merge_next_ok l pc n suf lo : bytes l -> usable <= len l -> usable <= 65536 ->
  chain l lo suf -> spaced (pc + n) usable suf -> 0 < pc -> 4 <= n -> pc + n <= usable ->
  exists suf' e1 g, joins_next (pc + n) suf suf' e1 g /\
    merge_next pBt l (Build_freed pc n (pc + n) (first_of suf) 0) =
      Ret (Some (Build_freed pc (u16 (e1 - pc)) e1 (first_of suf') g)).
Proof.
  intros B Hl Hu Hc Hs Hpc Hn He. unfold merge_next. assert (u16 n = n) as Hn16.
  { unfold u16. rewrite Z.mod_small; lia. }
  destruct suf as [|[s m] suf]; simpl.
  - exists [], (pc + n), 0. split; [left; auto|]. by replace (pc + n - pc) with n by lia; rewrite Hn16.
  - simpl in Hs. apply chain_tail in Hc as [Hm Hc]. rewrite (proj2 (Z.eqb_neq s 0)) by lia. simpl.
    rewrite u32_id by lia. destruct (Z.leb_spec s (pc + n + 3)).
    + rewrite (proj2 (Z.ltb_ge s (pc + n))), (get2byte_ok l (s + 2)), Hm by (done || lia). simpl.
      rewrite (u32_id (s + m)) by lia. rewrite (proj2 (Z.ltb_ge usable (s + m))) by lia.
      rewrite get2byte_ok, (chain_first _ _ _ Hc) by (done || lia). simpl.
      exists suf, (s + m), (s - (pc + n)). split; [right; exists s, m; split_and!; lia || done|].
      unfold uchar. rewrite u32_id by lia. rewrite Z.mod_small by lia. done.
    + exists ((s, m) :: suf), (pc + n), 0. split; [left; split_and!; auto|].
      by replace (pc + n - pc) with n by lia; rewrite Hn16.
Qed.

(** Both merges, with the facts about pages they need. *)
Lemma released_pages p used fl top pc n : shape pBt p -> space pBt p ((pc, n) :: used) fl top ->
  bytes (aData p) /\ usable <= len (aData p) /\ usable <= 65536 /\ 0 <= hdrOffset p /\ hdrOffset p + 8 <= top /\
  within top usable (pc, n) /\ Forall (within top usable) used /\
  (forall k, hit (pc, n) k + cover used k + cover fl k <= 1) /\ pc + n <= usable.
Proof.
  intros [Hl B Hh Hc Ho Hm Hn] [Sc Ss St Sg Su Sd Sn]. pose proof (page_bounds _ Hpar).
  inversion_clear Su as [|? ? Hw Hu]. pose proof Hw as (? & ? & ?). simpl in *. unfold iCellFirst in Sg.
  split_and!; auto; try lia.
Qed.

Lemma before_released fl top pc n (used : list (Z * Z)) pre suf : fl = pre ++ suf -> spaced (top + 1) usable fl -> 4 <= n ->
  (forall k, hit (pc, n) k + cover used k + cover fl k <= 1) -> Forall (fun iv => iv.1 < pc) pre ->
  forall s m, (s, m) ∈ pre -> s + m <= pc.
Proof.
  intros -> Hs Hn Hd Hp s m Hin. destruct (decide (s + m <= pc)); [done|exfalso].
  assert (s < pc) by exact (proj1 (Forall_forall _ _) Hp _ Hin).
  pose proof (Hd pc) as Hk. rewrite hit_in in Hk by (simpl; lia). pose proof (cover_nonneg used pc).
  assert (1 <= cover (pre ++ suf) pc) by (apply (cover_in _ (s, m)); [set_solver|simpl; lia]). lia.
Qed.

Lemma behind_released fl top pc n (used : list (Z * Z)) pre suf : fl = pre ++ suf -> spaced (top + 1) usable fl -> 4 <= n ->
  (forall k, hit (pc, n) k + cover used k + cover fl k <= 1) ->
  match suf with [] => True | (s, _) :: _ => pc <= s end -> spaced (pc + n) usable suf.
Proof.
  intros -> Hs Hn Hd Hp. apply spaced_app in Hs as [_ Hs]. destruct suf as [|[s m] suf]; [done|]. simpl in *.
  destruct Hs as (? & ? & ? & ?). split_and!; try done. destruct (decide (pc + n <= s)); [done|exfalso].
  pose proof (Hd s) as Hk. rewrite hit_in in Hk by (simpl; lia). pose proof (cover_nonneg used s).
  rewrite cover_app in Hk. simpl in Hk. rewrite (hit_in (s, m)) in Hk by (simpl; lia).
  pose proof (cover_nonneg pre s). pose proof (cover_nonneg suf s). lia.
Qed.

Lemma merge_block_ok p used fl top pc n pre suf : shape pBt p -> space pBt p ((pc, n) :: used) fl top ->
  fl = pre ++ suf -> Forall (fun iv => iv.1 < pc) pre ->
  match suf with [] => True | (s, _) :: _ => pc <= s end ->
  exists pre' suf' st e1 g0 g1, joins_prev pc pre pre' st g0 /\ joins_next (pc + n) suf suf' e1 g1 /\
    (st = pc \/ st = link (hdrOffset p + 1) pre) /\ 0 <= at_ (aData p) (hdrOffset p + 7) - (g1 + g0) /\
    merge_block CORRUPT_DB pBt (aData p) (hdrOffset p) (link (hdrOffset p + 1) pre) (Build_freed pc n (pc + n) (first_of suf) 0) =
    Ret (Some (Build_freed st (u16 (e1 - st)) e1 (first_of suf') (g1 + g0),
      store (aData p) (hdrOffset p + 7) [uchar (at_ (aData p) (hdrOffset p + 7) - (g1 + g0))])).
Proof.
  intros Sh Sp Hfl Hpre Hsuf. destruct (released_pages _ _ _ _ _ _ Sh Sp) as (B & Hl & Hu & Hh & Ht & Hw & Hus & Hd & He).
  destruct Hw as (Hw1 & Hw2 & _). destruct Sp as [Sc Ss St Sg Su Sd Sn]. simpl in *.
  pose proof (behind_released _ _ _ _ _ _ _ Hfl Ss Hw2 Hd Hsuf) as Hbs.
  pose proof (before_released _ _ _ _ _ _ _ Hfl Ss Hw2 Hd Hpre) as Hbp. subst fl.
  destruct (merge_next_ok (aData p) pc n suf (link (hdrOffset p + 1) pre)) as (suf' & e1 & g1 & Hjn & Hmn);
    [done..|by apply freelist_app in Sc as [_ Sc]|done|lia|lia|lia|].
  destruct (merge_prev_ok (aData p) (hdrOffset p) pre suf top pc (Build_freed pc (u16 (e1 - pc)) e1 (first_of suf') g1))
    as (pre' & st & g0 & Hjp & Hmp & Hst); try done; try lia.
  { by destruct Sc. }
  { destruct Hjn as [(_ & _ & -> & _)|(? & ? & _ & _ & -> & ?)]; simpl; lia. }
  { simpl. destruct (joins_next_spaced _ _ _ _ _ _ _ Hjn Hbs); lia. }
  pose proof (merged_total _ _ _ _ _ _ _ _ _ _ Hjp Hjn) as (Htot & Hg0 & Hg1).
  pose proof (merged_fits _ _ _ _ _ _ _ Ss Hus (conj Hw1 (conj Hw2 He)) Hd Hsuf _ _ _ _ _ _ Hjp Hjn) as Hfit.
  pose proof (B (hdrOffset p + 7)) as Bf.
  exists pre', suf', st, e1, g0, g1. split_and!; try done; [lia|].
  unfold merge_block. simpl f_next. pose proof (page_bounds _ Hpar).
  rewrite u32_id by lia. rewrite (proj2 (Z.ltb_ge (usable - 4) (first_of suf))).
  2: { apply spaced_within in Hbs. destruct suf as [|[s m] suf]; simpl; [lia|].
       inversion_clear Hbs as [|? ? (_ & ? & ?) _]. simpl in *. lia. }
  rewrite assert_true.
  2: { apply spaced_app in Ss as [Ss1 Ss2]. destruct suf as [|[s m] suf]; simpl; [by rewrite orb_true_r|].
       simpl in Ss2. rewrite (proj2 (Z.ltb_lt (link (hdrOffset p + 1) pre) s)); [done|].
       destruct (link_reach _ _ (hdrOffset p + 1) pre Ss1) as [->|?]; simpl in *; lia. }
  cbn [mbind outcome_bind]. rewrite Hmn. cbn [mbind outcome_bind]. rewrite Hmp. simpl. rewrite rd_ok by lia. simpl.
  rewrite (proj2 (Z.ltb_ge _ _)) by lia. rewrite wr_ok by lia. done.
Qed.

(** ** Release *)

Lemma spaced_upto lo hi h fl : spaced lo hi fl -> reach lo fl <= h + 4 -> spaced lo h fl.
Proof.
  revert lo. induction fl as [|[s n] fl IH]; simpl; intros lo Hs Hr; [done|]. destruct Hs as (? & ? & ? & Hs).
  pose proof (reach_ge _ _ _ Hs). split_and!; [lia..|]. by apply IH.
Qed.

Lemma joins_prev_link l a top hi pc pre pre' st g : seg l a pre -> joins_prev pc pre pre' st g ->
  spaced (top + 1) hi pre -> 0 <= a -> a + 7 <= top -> top <= pc ->
  seg l a pre' /\ spaced (top + 1) st pre' /\ (a = link a pre' \/ top < link a pre') /\ link a pre' + 2 <= st /\
  (link a pre = st /\ get2 l (link a pre') = st \/ link a pre = link a pre').
Proof.
  intros Hseg Hj Hs Ha Ht Hpc. destruct Hj as [(-> & -> & -> & Hp)|(m & -> & -> & Hg)].
  - assert (reach (top + 1) pre <= pc + 4) as Hr.
    { destruct pre as [|[s m] q _] using rev_ind; simpl; [lia|]. rewrite reach_app. simpl.
      pose proof (Hp q s m eq_refl). lia. }
    pose proof (spaced_upto _ _ _ _ Hs Hr) as Hs'.
    destruct (link_cases _ _ a pre Hs') as [[-> ?]|(? & ? & _)]; split_and!; auto; lia.
  - apply seg_app in Hseg as [Hseg (Hst & _)]. apply spaced_app in Hs as [Hs (? & ? & ? & _)].
    assert (spaced (top + 1) st pre') as Hs' by (apply (spaced_upto _ hi); [done|lia]).
    rewrite link_app. simpl. pose proof (reach_ge _ _ _ Hs).
    destruct (link_cases _ _ a pre' Hs') as [[-> ->]|(? & ? & _)]; simpl in *; split_and!; auto; lia.
Qed.

Section Relink.
Variables (l l1 : list Z) (a top pc n : Z) (pre suf pre' suf' : list (Z * Z)) (st g0 e1 g1 : Z).
Hypotheses (Hc : chain l a (pre ++ suf)) (Hs : spaced (top + 1) usable (pre ++ suf))
  (Hprev : joins_prev pc pre pre' st g0) (Hnext : joins_next (pc + n) suf suf' e1 g1)
  (Hpc : within top usable (pc, n)) (Ha : 0 <= a) (Htop : a + 7 <= top) (Hl1 : usable <= len l1)
  (Hu : usable <= 65536) (Hsame : forall k, 0 <= k -> k <> a + 6 -> ~ (st <= k < e1) -> at_ l1 k = at_ l k).

Lemma suffix_relinked l2 y : get2 l2 y = first_of suf' ->
  (forall k, e1 + 4 <= k -> at_ l2 k = at_ l k) -> chain l2 y suf'.
Proof.
  intros Hy Hk. pose proof (merged_spaced _ _ _ _ _ _ Hs Hpc _ _ _ _ _ _ Hprev Hnext) as (Hm & _ & _ & _).
  unfold merged in Hm. apply spaced_app in Hm as [_ (_ & _ & _ & Hm)].
  assert (exists x, chain l x suf') as [x Hx].
  { apply freelist_app in Hc as [_ Hx]. destruct Hnext as [(-> & _)|(s & m & -> & _)]; [eauto|].
    apply chain_tail in Hx as [_ Hx]. eauto. }
  eapply chain_relink; [exact Hx|exact Hm|done|]. intros k Hk'. apply Hk. lia.
Qed.

(** The pointer in front, and the head of the block. *)
Definition relinked : list Z := put2 (put2 (put2 l1 (link a pre) st) st (first_of suf')) (st + 2) (e1 - st).

Lemma relinked_ok : top < st ->
  chain relinked a (merged pre' suf' st e1) /\ len relinked = len l1 /\ (bytes l1 -> bytes relinked) /\
  (forall k, 0 <= k -> k <> a + 6 -> ~ (st <= k < e1) -> ~ (link a pre <= k < link a pre + 2) -> at_ relinked k = at_ l k).
Proof.
  intros Hst. destruct Hpc as (? & ? & ?). simpl in *.
  pose proof (merged_spaced _ _ _ _ _ _ Hs Hpc _ _ _ _ _ _ Hprev Hnext) as (Hm & ? & ? & _).
  pose proof (proj1 (proj1 (freelist_app _ _ _ _) Hc)) as Hseg. pose proof (proj1 (proj1 (spaced_app _ _ _ _) Hs)) as Hs1.
  destruct (joins_prev_link _ _ _ _ _ _ _ _ _ Hseg Hprev Hs1) as (Hseg' & Hs' & ? & ? & Hlk); [lia..|].
  assert (0 <= link a pre /\ link a pre + 2 <= st + 2) as [? ?] by lia.
  assert (forall k, 0 <= k -> k <> a + 6 -> ~ (st <= k < e1) -> ~ (link a pre <= k < link a pre + 2) ->
    at_ relinked k = at_ l k) as Hk.
  { intros k ? ? ? ?. unfold relinked. rewrite !at_put2 by (rewrite ?len_put2; rewrite ?len_put2; lia).
    rewrite <- Hsame by lia. eqb_cases; lia || done. }
  assert (len relinked = len l1) as Hlen
    by (unfold relinked; rewrite !len_put2; rewrite ?len_put2; rewrite ?len_put2; lia).
  assert (bytes l1 -> bytes relinked) as Hbytes.
  { intros B. unfold relinked. repeat apply bytes_put2; rewrite ?len_put2; rewrite ?len_put2; try done; lia. }
  assert (get2 relinked st = first_of suf') as Hnx.
  { transitivity (get2 (put2 (put2 l1 (link a pre) st) st (first_of suf')) st).
    - apply get2_frame; unfold relinked; rewrite at_put2 by (rewrite ?len_put2; rewrite ?len_put2; lia);
        eqb_cases; lia || done.
    - rewrite get2_put2 by (rewrite ?len_put2; lia). apply Z.mod_small. unfold merged in Hm.
      apply spaced_app in Hm as [_ (_ & _ & _ & Hm)]. destruct suf' as [|[s m] r]; simpl in *; lia. }
  assert (get2 relinked (link a pre') = st) as Hpt.
  { destruct Hlk as [[Hl Hg]|Hl].
    - rewrite (get2_frame l); [done|apply Hk; lia..].
    - transitivity (get2 (put2 l1 (link a pre) st) (link a pre')).
      + apply get2_frame; unfold relinked; rewrite !(at_put2 (put2 _ _ _)) by (rewrite ?len_put2; rewrite ?len_put2; lia);
          eqb_cases; lia || done.
      + rewrite <- Hl, get2_put2 by lia. apply Z.mod_small. lia. }
  split_and!; try done. unfold merged. apply freelist_app. split.
  - apply (seg_frame l); [done|]. intros k Hr.
    destruct (reads_bounds (top + 1) st a pre' k Hs' ltac:(lia) Hr) as [Hb Hn']. apply Hk; lia.
  - destruct (suffix_relinked relinked st Hnx) as [Hc1 Hc2].
    { intros k Hk'. apply Hk; lia. }
    split; [|done]. simpl. split_and!; try done. unfold relinked. rewrite get2_put2 by (rewrite ?len_put2; rewrite ?len_put2; lia).
    apply Z.mod_small. lia.
Qed.
End Relink.

(** Search and merging together; on an empty list nothing is read. *)
Lemma free_merge_ok p used fl top pc n : shape pBt p -> space pBt p ((pc, n) :: used) fl top ->
  exists pre suf pre' suf' st e1 g0 g1 ff data, fl = pre ++ suf /\ joins_prev pc pre pre' st g0 /\
    joins_next (pc + n) suf suf' e1 g1 /\ match suf with [] => True | (s, _) :: _ => pc <= s end /\
    free_merge CORRUPT_DB pBt p pc n (pc + n) =
      Ret (Some (link (hdrOffset p + 1) pre, Build_freed st (u16 (e1 - st)) e1 (first_of suf') ff, data)) /\
    len data = len (aData p) /\ bytes data /\
    at_ data (hdrOffset p + 7) = at_ (aData p) (hdrOffset p + 7) - (g0 + g1) /\
    (forall k, 0 <= k -> k <> hdrOffset p + 7 -> at_ data k = at_ (aData p) k).
Proof.
  intros Sh Sp. destruct (released_pages _ _ _ _ _ _ Sh Sp) as (B & Hl & Hu & Hh & Ht & Hw & Hus & Hd & He).
  pose proof Hw as (Hw1 & Hw2 & _). pose proof Sp as [Sc Ss St Sg Su Sd Sn]. simpl in *. unfold free_merge.
  pose proof (chain_first _ _ _ Sc) as Hf. pose proof (B (hdrOffset p + 1)). pose proof (B (hdrOffset p + 2)).
  unfold get2 in Hf. replace (hdrOffset p + 1 + 1) with (hdrOffset p + 2) in Hf by lia.
  rewrite !rd_ok by lia. cbn [mbind outcome_bind].
  destruct (_ && _) eqn:E.
  - zify_bool. assert (fl = []) as ->.
    { destruct fl as [|[s m] fl]; [done|]. simpl in *. lia. }
    exists [], [], [], [], pc, (pc + n), 0, 0, 0, (aData p). replace (pc + n - pc) with n by lia.
    assert (u16 n = n) as -> by (unfold u16; rewrite Z.mod_small; lia).
    split_and!; auto; [left|left|lia]; split_and!; auto. intros q s m Hq. by destruct q.
  - destruct (free_position_ok (chain_fuel pBt) (aData p) pc (hdrOffset p + 1) fl (top + 1))
      as (pre & suf & Hfl & Hr & Hpre & Hsuf); try done; try lia.
    { eapply chain_room; [done..| |]; lia. }
    rewrite Hr. cbn [mbind outcome_bind].
    destruct (merge_block_ok p used fl top pc n pre suf Sh Sp Hfl Hpre Hsuf)
      as (pre' & suf' & st & e1 & g0 & g1 & Hjp & Hjn & Hst & Hfr & Hm).
    rewrite Hm. cbn [mbind outcome_bind]. pose proof (B (hdrOffset p + 7)).
    assert (0 <= g1 + g0).
    { subst fl. pose proof (merged_total _ _ _ _ _ _ _ _ _ _ Hjp Hjn). lia. }
    do 10 eexists. split_and!; [done|done|done|done|done| | | |].
    + apply len_store; [lia|]. change (len [_]) with 1. lia.
    + apply bytes_store; auto using bytes_one; [lia|]. change (len [_]) with 1. lia.
    + rewrite at_store_one, Z.eqb_refl by lia. unfold uchar. rewrite Z.mod_small by lia. lia.
    + intros k ? ?. rewrite at_store_one by lia. destruct (Z.eqb_spec k (hdrOffset p + 7)); [lia|done].
Qed.

(** What a change of the room leaves alone. *)
Definition keeps (p : MemPage) (data : list Z) (used : list (Z * Z)) (top : Z) : Prop :=
  len data = len (aData p) /\ bytes data /\
  forall k, 0 <= k -> ~ room_header p k -> k < top \/ usable <= k \/ 1 <= cover used k -> at_ data k = at_ (aData p) k.

Section Released.
Variables (p : MemPage) (used pre suf : list (Z * Z)) (top pc n : Z).
Hypotheses (Sh : shape pBt p) (Sp : space pBt p ((pc, n) :: used) (pre ++ suf) top).
Variables (pre' suf' : list (Z * Z)) (st g0 e1 g1 : Z) (data1 data2 : list Z).
Hypotheses (Hprev : joins_prev pc pre pre' st g0) (Hnext : joins_next (pc + n) suf suf' e1 g1)
  (Hsuf : match suf with [] => True | (s, _) :: _ => pc <= s end)
  (Hlen : len data2 = len (aData p)) (Hbytes : bytes data2)
  (Hfrag : at_ data2 (hdrOffset p + 7) = at_ (aData p) (hdrOffset p + 7) - (g0 + g1))
  (Hsame : forall k, 0 <= k -> k <> hdrOffset p + 7 -> ~ (st <= k < e1) -> at_ data2 k = at_ (aData p) k).

(** The block becomes part of the unallocated space in front. *)
Lemma released_top : st = top ->
  let data := put2 (put2 data2 (hdrOffset p + 1) (first_of suf')) (hdrOffset p + 5) e1 in
  link (hdrOffset p + 1) pre = hdrOffset p + 1 /\ space pBt (with_data p data) used suf' e1 /\ keeps p data used top.
Proof.
  intros Hst data. destruct (released_pages _ _ _ _ _ _ Sh Sp) as (B & Hl & Hu & Hh & Ht & Hw & Hus & Hd & He).
  pose proof Sp as [Sc Ss St Sg Su Sd Sn]. simpl in Sn. pose proof Hw as (Hw1 & Hw2 & _). simpl in Hw1, Hw2.
  pose proof (merged_spaced _ _ _ _ _ _ Ss Hw _ _ _ _ _ _ Hprev Hnext) as (Hm & ? & He1 & Hp).
  pose proof (merged_total _ _ _ _ _ _ _ _ _ _ Hprev Hnext) as (Htot & Hg0 & Hg1).
  pose proof (merged_free _ _ _ _ _ _ _ Ss Hus Hw Hd Hsuf _ _ _ _ _ _ Hprev Hnext) as Hfree.
  pose proof (merged_disjoint _ _ _ _ _ _ _ Ss Hus Hw Hd Hsuf _ _ _ _ _ _ Hprev Hnext) as Hdm.
  assert (pre' = []) as -> by (destruct Hp; [done|lia]).
  assert (pre = []) as ->.
  { destruct Hprev as [(<- & _)|(m & -> & _)]; [done|]. apply spaced_app in Ss as [Ss _]. simpl in Ss. lia. }
  unfold merged in *. simpl in *. destruct Hm as (_ & _ & _ & Hm).
  assert (forall k, 0 <= k -> ~ room_header p k -> ~ (st <= k < e1) -> at_ data k = at_ (aData p) k) as Hk.
  { intros k ? Hr ?. unfold data, room_header in *. rewrite !at_put2 by (rewrite ?len_put2; lia).
    eqb_cases; try lia. apply Hsame; lia. }
  assert (forall k, e1 <= k -> at_ data k = at_ (aData p) k) as Hk1.
  { intros k ?. apply Hk; [lia| |lia]. unfold room_header. lia. }
  assert (0 <= first_of suf' < 65536) as Hfi by (destruct suf' as [|[s m] r]; simpl in *; lia).
  split; [done|]. split.
  - split; simpl.
    + apply (suffix_relinked (aData p) (hdrOffset p + 1) top pc n [] suf [] suf' st g0 e1 g1); try done; try lia.
      * transitivity (get2 (put2 data2 (hdrOffset p + 1) (first_of suf')) (hdrOffset p + 1)).
        -- apply get2_frame; unfold data; rewrite at_put2 by (rewrite ?len_put2; lia); eqb_cases; lia || done.
        -- rewrite get2_put2 by lia. apply Z.mod_small. lia.
      * intros k Hk'. apply Hk1. lia.
    + eapply spaced_weaken, Hm. lia.
    + unfold data. rewrite get2_put2 by (rewrite ?len_put2; lia). done.
    + unfold iCellFirst in *. simpl. lia.
    + apply Forall_forall. intros iv Hiv. pose proof (proj1 (Forall_forall _ _) Hus iv Hiv) as (? & ? & ?).
      split; [|lia]. destruct (decide (e1 <= iv.1)); [done|exfalso].
      pose proof (Hfree iv.1 ltac:(lia)). pose proof (cover_in used iv iv.1 Hiv ltac:(lia)). lia.
    + intros k. pose proof (Hdm k). pose proof (hit_range (st, e1 - st) k). lia.
    + unfold data. rewrite !at_put2 by (rewrite ?len_put2; lia). eqb_cases; try lia.
  - split_and!.
    + unfold data. rewrite !len_put2; rewrite ?len_put2; lia.
    + unfold data. repeat apply bytes_put2; rewrite ?len_put2; try done; lia.
    + intros k ? Hr Hk'. apply Hk; [done..|]. intros Hin. pose proof (Hfree k Hin). lia.
Qed.

(** The block joins the free list. *)
Lemma released_block : top < st ->
  let data := relinked data2 (hdrOffset p + 1) pre suf' st e1 in
  space pBt (with_data p data) used (merged pre' suf' st e1) top /\ keeps p data used top.
Proof.
  intros Hst data. destruct (released_pages _ _ _ _ _ _ Sh Sp) as (B & Hl & Hu & Hh & Ht & Hw & Hus & Hd & He).
  pose proof Sp as [Sc Ss St Sg Su Sd Sn]. simpl in Sn. pose proof Hw as (Hw1 & Hw2 & _). simpl in Hw1, Hw2.
  pose proof (merged_spaced _ _ _ _ _ _ Ss Hw _ _ _ _ _ _ Hprev Hnext) as (Hm & Hpc & He1 & _).
  pose proof (merged_total _ _ _ _ _ _ _ _ _ _ Hprev Hnext) as (Htot & Hg0 & Hg1).
  pose proof (merged_free _ _ _ _ _ _ _ Ss Hus Hw Hd Hsuf _ _ _ _ _ _ Hprev Hnext) as Hfree.
  pose proof (merged_disjoint _ _ _ _ _ _ _ Ss Hus Hw Hd Hsuf _ _ _ _ _ _ Hprev Hnext) as Hdm.
  destruct (relinked_ok (aData p) data2 (hdrOffset p + 1) top pc n pre suf pre' suf' st g0 e1 g1)
    as (Hc & Hle & Hby & Hk); try done; try lia.
  { intros k ? ? ?. apply Hsame; lia. }
  fold data in Hc, Hle, Hby, Hk. replace (hdrOffset p + 1 + 6) with (hdrOffset p + 7) in Hk by lia.
  assert (link (hdrOffset p + 1) pre = hdrOffset p + 1 \/ top < link (hdrOffset p + 1) pre /\
    link (hdrOffset p + 1) pre + 2 <= usable /\ forall k, link (hdrOffset p + 1) pre <= k < link (hdrOffset p + 1) pre + 2 -> k < usable /\ cover used k = 0) as Hlk.
  { apply spaced_app in Ss as [Ss1 _]. destruct (link_cases _ _ (hdrOffset p + 1) pre Ss1) as [[_ ?]|(? & ? & Hcv)]; [auto|].
    right. split_and!; [lia..|]. intros k Hk'. split; [lia|]. pose proof (Hcv k ltac:(lia)). pose proof (Hd k) as Hdk.
    rewrite cover_app in Hdk. pose proof (cover_nonneg used k). pose proof (cover_nonneg suf k).
    pose proof (hit_range (pc, n) k). lia. }
  assert (at_ data (hdrOffset p + 7) = at_ data2 (hdrOffset p + 7)) as H7.
  { unfold data, relinked. rewrite !at_put2 by (rewrite ?len_put2; rewrite ?len_put2; lia). eqb_cases; lia || done. }
  split.
  - split; simpl; try done.
    + pose proof (proj1 (proj1 (freelist_app _ _ _ _) Sc)) as Hseg. pose proof (proj1 (proj1 (spaced_app _ _ _ _) Ss)) as Hs1.
      destruct (joins_prev_link _ _ _ _ _ _ _ _ _ Hseg Hprev Hs1) as (_ & Hs' & _); [lia..|].
      unfold merged in *. destruct pre' as [|[s m] r]; simpl in *; intuition lia.
    + rewrite (get2_frame (aData p)); [done|apply Hk; lia..].
    + rewrite H7, Hfrag. lia.
  - split_and!; [lia|auto|]. intros k ? Hr Hk'. unfold room_header in Hr.
    destruct (decide (st <= k < e1)) as [Hin|Hin]; [pose proof (Hfree k Hin); lia|]. apply Hk; try lia.
    intros Hin'. destruct Hlk as [?|(? & ? & Hlk)]; [lia|]. pose proof (Hlk k Hin'). lia.
Qed.
End Released.

(** Releasing an interval that is in use succeeds, and only the interval and
    the book-keeping change. *)
Lemma freeSpace_ok p used fl top pc n : shape pBt p -> space pBt p ((pc, n) :: used) fl top ->
  exists data fl' top',
    freeSpace CORRUPT_DB pBt p pc n = Ret (SQLITE_OK, with_counts (with_data p data) (nFree p + n) (nCell p)) /\
    space pBt (with_data p data) used fl' top' /\ keeps p data used top.
Proof.
  intros Sh Sp. destruct (released_pages _ _ _ _ _ _ Sh Sp) as (B & Hl & Hu & Hh & Ht & Hw & Hus & Hd & He).
  destruct (free_merge_ok _ _ _ _ _ _ Sh Sp)
    as (pre & suf & pre' & suf' & st & e1 & g0 & g1 & ff & data1 & -> & Hprev & Hnext & Hsuf & Hm & Hl1 & B1 & H7 & Hk1).
  pose proof Sp as [Sc Ss St Sg Su Sd Sn]. pose proof Hw as (Hw1 & Hw2 & _). simpl in Hw1, Hw2.
  pose proof (merged_spaced _ _ _ _ _ _ Ss Hw _ _ _ _ _ _ Hprev Hnext) as (Hms & Hpc & He1 & _).
  pose proof (page_bounds _ Hpar). pose proof (sh_child _ _ Sh) as Hch. pose proof (sh_offset _ _ Sh) as Hco.
  pose proof (sh_cells _ _ Sh). unfold iCellFirst in Sg.
  assert (top <= st) by (unfold merged in Hms; destruct pre' as [|[s m] r]; simpl in Hms; [lia|];
    destruct Hms as (? & ? & ? & Hms); apply spaced_app in Hms as [Hms1 Hms2]; simpl in Hms2;
    pose proof (reach_ge _ _ _ Hms1); lia).
  unfold freeSpace. rewrite (u32_id (pc + n)) by lia.
  rewrite !assert_true by (rewrite ?orb_true_iff, ?Z.leb_le, ?u32_id by lia; lia || right; lia).
  cbn [mbind outcome_bind]. rewrite Hm. cbn [mbind outcome_bind f_start f_size f_end f_next f_frag].
  assert (u16 (e1 - st) = e1 - st) as -> by (unfold u16; apply Z.mod_small; lia).
  rewrite get2byte_ok by (done || lia). cbn [mbind outcome_bind].
  rewrite (get2_frame (aData p) data1), St, Z.mod_small by (lia || (apply Hk1; lia)).
  set (data2 := store data1 st (replicate (Z.to_nat (e1 - st)) (uchar 0))).
  assert (exists data2, (if negb (Z.land (btsFlags pBt) BTS_FAST_SECURE =? 0)
              then memset data1 st 0 (e1 - st) else Ret data1) = Ret data2 /\
    len data2 = len (aData p) /\ bytes data2 /\ (forall k, 0 <= k -> ~ (st <= k < e1) -> at_ data2 k = at_ data1 k))
    as (data3 & -> & Hl3 & B3 & Hk3).
  { destruct (negb _); [|by exists data1]. exists data2.
    assert (len (replicate (Z.to_nat (e1 - st)) (uchar 0)) = e1 - st) as Hr by (rewrite len_replicate; lia).
    rewrite memset_ok by lia. split_and!; [done|unfold data2; rewrite len_store; lia| |].
    - apply bytes_store; try done; [lia..|]. apply bytes_replicate, uchar_bytes.
    - intros k ? ?. unfold data2. rewrite at_store by lia. destruct (_ && _) eqn:E; [|done]. zify_bool. lia. }
  cbn [mbind outcome_bind].
  assert (forall k, 0 <= k -> k <> hdrOffset p + 7 -> ~ (st <= k < e1) -> at_ data3 k = at_ (aData p) k) as Hsame
    by (intros; rewrite Hk3, Hk1 by done; done).
  assert (at_ data3 (hdrOffset p + 7) = at_ (aData p) (hdrOffset p + 7) - (g0 + g1)) as H7' by (rewrite Hk3; lia).
  destruct (Z.leb_spec st top).
  - destruct (released_top p used pre suf top pc n Sh Sp pre' suf' st g0 e1 g1 data3) as (Hlk & Hsp & Hkp); try done; [lia|].
    rewrite (proj2 (Z.ltb_ge st top)) by lia. rewrite Hlk, Z.eqb_refl. simpl.
    rewrite put2byte_ok by lia. simpl. rewrite put2byte_ok by (rewrite ?len_put2; lia). simpl. eauto 10.
  - destruct (released_block p used pre suf top pc n Sh Sp pre' suf' st g0 e1 g1 data3) as (Hsp & Hkp); try done.
    pose proof (link_cases _ _ (hdrOffset p + 1) pre (proj1 (proj1 (spaced_app _ _ _ _) Ss))) as Hlk.
    assert (hdrOffset p + 1 <= link (hdrOffset p + 1) pre /\ link (hdrOffset p + 1) pre + 2 <= usable) by lia.
    rewrite put2byte_ok by lia. simpl. rewrite put2byte_ok by (rewrite ?len_put2; lia). simpl.
    rewrite put2byte_ok by (rewrite ?len_put2; rewrite ?len_put2; lia). simpl. unfold relinked in *. eauto 10.
Qed.

(** ** Slots of the free list *)

(** What [find_slot] does with a block [(s, m)] behind [pre]: all of it is
    taken, and the surplus becomes fragments, or its end. *)
Definition slot_taken (l : list Z) (hdr nByte : Z) (pre : list (Z * Z)) (s m q : Z) (data : list Z) : Prop :=
  let x := m - nByte in
  0 <= x < 4 /\ q = s /\ at_ l (hdr + 7) <= 57 /\
    data = store (store l (link (hdr + 1) pre) (from_to l s 2)) (hdr + 7) [uchar (at_ l (hdr + 7) + x)] \/
  4 <= x /\ q = s + x /\ data = put2 l (s + 2) x.

Lemma find_slot_ok fuel hdr nByte l lo pre suf : bytes l -> usable <= len l -> 0 <= hdr -> hdr + 8 <= lo -> 4 <= nByte ->
  nByte < usable -> usable <= 65536 -> chain l (hdr + 1) (pre ++ suf) -> spaced lo usable (pre ++ suf) -> suf <> [] ->
  (length suf < fuel)%nat ->
  exists slot data, find_slot fuel hdr nByte (usable - nByte) l (link (hdr + 1) pre) (first_of suf) = Ret (slot, SQLITE_OK, data) /\
    match slot with
    | None => data = l
    | Some q => exists pre' s m suf', pre ++ suf = pre' ++ (s, m) :: suf' /\ slot_taken l hdr nByte pre' s m q data
    end.
Proof.
  intros B Hl Hh Hlo Hn Hnu Hu. revert fuel pre. induction suf as [|[s m] suf IH]; intros fuel pre Hc Hs Hne Hf; [done|].
  destruct fuel as [|fuel]; [simpl in Hf; lia|]. simpl find_slot.
  pose proof (proj1 (spaced_app _ _ _ _) Hs) as [Hs1 Hs2]. pose proof (reach_ge _ _ _ Hs1). simpl in Hs2.
  pose proof (proj1 (freelist_app _ _ _ _) Hc) as [_ Hc2]. apply chain_tail in Hc2 as [Hm Hc2].
  assert (link (hdr + 1) pre = hdr + 1 \/ lo <= link (hdr + 1) pre /\ link (hdr + 1) pre < s) as Hlk.
  { destruct (link_cases _ _ (hdr + 1) pre Hs1) as [[_ ?]|[? _]]; [auto|]. right.
    destruct (link_reach _ _ (hdr + 1) pre Hs1) as [->|?]; simpl in *; lia. }
  destruct (Z.ltb_spec (usable - nByte) s).
  { rewrite (proj2 (Z.ltb_ge (usable - nByte + nByte - 4) s)) by lia. by exists None, l. }
  rewrite (get2byte_ok l (s + 2)), Hm by (done || lia). simpl. destruct (Z.leb_spec 0 (m - nByte)).
  - rewrite rd_ok by lia. simpl. destruct (Z.ltb_spec (m - nByte) 4).
    + destruct (Z.ltb_spec 57 (at_ l (hdr + 7))); [by exists None, l|].
      assert (len (from_to l s 2) = 2) as Hlen2 by (rewrite len_from_to; lia).
      rewrite memcpy_ok by lia. simpl. rewrite rd_ok by (rewrite ?len_store; lia). simpl.
      rewrite wr_ok by (rewrite ?len_store; lia). simpl. rewrite at_store by lia.
      destruct (_ && _) eqn:E; [zify_bool; lia|].
      do 2 eexists. split; [done|]. exists pre, s, m, suf. split; [done|]. left. split_and!; try lia.
      unfold uchar. rewrite (Z.mod_small (m - nByte)) by lia. done.
    + rewrite (proj2 (Z.ltb_ge _ _)) by lia. rewrite put2byte_ok by lia. simpl.
      do 2 eexists. split; [done|]. exists pre, s, m, suf. split; [done|]. right. split_and!; try lia. done.
  - rewrite get2byte_ok by (done || lia). simpl. rewrite (chain_first _ _ _ Hc2).
    destruct suf as [|[s' m'] suf].
    + simpl. rewrite (proj2 (Z.leb_le 0 s)) by lia. by exists None, l.
    + simpl. simpl in Hs2. rewrite (proj2 (Z.leb_gt s' s)) by lia.
      destruct (IH fuel (pre ++ [(s, m)])) as (slot & data & Hr & Hsl); rewrite <- ?app_assoc; try done.
      { simpl in *. lia. }
      rewrite link_app in Hr. simpl in Hr. exists slot, data. split; [done|].
      destruct slot; [|done]. by rewrite <- app_assoc in Hsl.
Qed.

(** What every page with a free list offers. *)
Lemma space_pages p used fl top : shape pBt p -> space pBt p used fl top ->
  bytes (aData p) /\ usable <= len (aData p) /\ usable <= 65536 /\ 0 <= hdrOffset p /\ hdrOffset p + 8 <= top.
Proof.
  intros [Hl B Hh Hc Ho Hm Hn] [Sc Ss St Sg Su Sd Sn]. pose proof (page_bounds _ Hpar). unfold iCellFirst in Sg.
  split_and!; auto; lia.
Qed.

(** A free block as a whole becomes an interval in use and fragments. *)
Lemma whole_slot_ok p used pre s m suf top nByte : shape pBt p -> space pBt p used (pre ++ (s, m) :: suf) top ->
  4 <= nByte -> 0 <= m - nByte < 4 -> at_ (aData p) (hdrOffset p + 7) <= 57 ->
  let data := store (store (aData p) (link (hdrOffset p + 1) pre) (from_to (aData p) s 2)) (hdrOffset p + 7)
    [uchar (at_ (aData p) (hdrOffset p + 7) + (m - nByte))] in
  space pBt (with_data p data) ((s, nByte) :: used) (pre ++ suf) top /\ keeps p data used top.
Proof.
  intros Sh Sp Hn Hx Hfr data. destruct (space_pages _ _ _ _ Sh Sp) as (B & Hl & Hu & Hh & Ht).
  pose proof Sp as [Sc Ss St Sg Su Sd Sn]. pose proof (proj1 (spaced_app _ _ _ _) Ss) as [Ss1 Ss2].
  pose proof (reach_ge _ _ _ Ss1) as Hre. pose proof (proj1 (freelist_app _ _ _ _) Sc) as [Hseg Hc2].
  destruct Ss2 as (Hs1 & Hm & Hsm & Ss2). pose proof (chain_tail _ _ _ _ _ Hc2) as [Hgm Hc3].
  set (a := hdrOffset p + 1) in *. pose proof (B (hdrOffset p + 7)) as B7.
  assert (link a pre = a \/ top < link a pre /\ link a pre + 2 <= s) as Hlk.
  { destruct (link_cases _ _ a pre Ss1) as [[_ ?]|[? _]]; [auto|]. right. split; [lia|].
    assert (spaced (top + 1) (s - 4) pre) as Hs' by (apply (spaced_upto _ usable); [done|lia]).
    destruct (link_cases _ _ a pre Hs') as [[-> Hla]|(? & ? & _)]; [simpl in *; lia|lia]. }
  assert (len (from_to (aData p) s 2) = 2) as Hlen2 by (rewrite len_from_to; lia).
  assert (forall k, 0 <= k -> at_ data k = if k =? hdrOffset p + 7 then at_ (aData p) (hdrOffset p + 7) + (m - nByte)
    else if (link a pre <=? k) && (k <? link a pre + 2) then at_ (aData p) (s + (k - link a pre)) else at_ (aData p) k) as Hk.
  { intros k ?. unfold data. rewrite at_store_one by (rewrite ?len_store; lia). destruct (Z.eqb_spec k (hdrOffset p + 7)).
    - unfold uchar. apply Z.mod_small. lia.
    - rewrite at_store, Hlen2 by lia. destruct (_ && _) eqn:E; [|done]. zify_bool. by rewrite at_from_to by lia. }
  assert (forall k, 0 <= k -> k <> hdrOffset p + 7 -> ~ (link a pre <= k < link a pre + 2) -> at_ data k = at_ (aData p) k) as Hk'.
  { intros k ? ? ?. rewrite Hk by done. rewrite (proj2 (Z.eqb_neq _ _)) by done.
    destruct (_ && _) eqn:E; [|done]. zify_bool. lia. }
  split.
  - split; simpl.
    + fold a. apply freelist_app. split.
      * apply (seg_frame (aData p)); [done|]. intros k Hr.
        destruct (reads_bounds (top + 1) usable a pre k Ss1 ltac:(lia) Hr) as [Hb Hn']. apply Hk'; lia.
      * apply (chain_relink (aData p) data s _ _ (s + m + 4) usable); try done.
        -- rewrite <- (chain_first _ _ _ Hc3). unfold get2. rewrite !Hk by lia. rewrite !(proj2 (Z.eqb_neq _ _)) by lia.
           rewrite !(proj2 (Z.leb_le _ _)), !(proj2 (Z.ltb_lt _ _)) by lia. simpl.
           replace (s + (link a pre - link a pre)) with s by lia. by replace (s + (link a pre + 1 - link a pre)) with (s + 1) by lia.
        -- intros k ?. apply Hk'; lia.
    + apply spaced_app. split; [done|]. eapply spaced_weaken, Ss2. lia.
    + rewrite (get2_frame (aData p)); [done|apply Hk'; lia..].
    + done.
    + constructor; [|done]. unfold within. simpl. lia.
    + intros k. pose proof (Sd k) as Hd. rewrite cover_app in *. simpl in Hd.
      pose proof (hit_range (s, m) k). unfold hit in *. simpl in *.
      destruct (_ && (k <? s + nByte)) eqn:E; [|lia]. zify_bool.
      rewrite (proj2 (Z.leb_le s k)), (proj2 (Z.ltb_lt k (s + m))) in Hd by lia. simpl in Hd. lia.
    + rewrite Hk, Z.eqb_refl by lia. rewrite total_app in *. simpl in *. lia.
  - split_and!.
    + unfold data. rewrite !len_store; rewrite ?len_store; change (len [_]) with 1; lia.
    + unfold data. repeat apply bytes_store; rewrite ?len_store; try done; change (len [_]) with 1; auto using bytes_one, bytes_from_to; lia.
    + intros k ? Hr Hk2. unfold room_header in Hr. apply Hk'; [done|lia|]. intros Hin. destruct Hlk as [?|?]; [lia|].
      assert (1 <= cover pre k); [|pose proof (Sd k) as Hd; rewrite cover_app in Hd; pose proof (cover_nonneg ((s, m) :: suf) k); lia].
      destruct (link_cases _ _ a pre Ss1) as [[_ ?]|(_ & _ & Hcv)]; [lia|]. apply Hcv. lia.
Qed.

(** The end of a free block becomes an interval in use. *)
Lemma part_slot_ok p used pre s m suf top nByte : shape pBt p -> space pBt p used (pre ++ (s, m) :: suf) top ->
  4 <= nByte -> 4 <= m - nByte -> let data := put2 (aData p) (s + 2) (m - nByte) in
  space pBt (with_data p data) ((s + (m - nByte), nByte) :: used) (pre ++ (s, m - nByte) :: suf) top /\ keeps p data used top.
Proof.
  intros Sh Sp Hn Hx data. destruct (space_pages _ _ _ _ Sh Sp) as (B & Hl & Hu & Hh & Ht).
  pose proof Sp as [Sc Ss St Sg Su Sd Sn]. pose proof (proj1 (spaced_app _ _ _ _) Ss) as [Ss1 Ss2].
  pose proof (reach_ge _ _ _ Ss1) as Hre. pose proof (proj1 (freelist_app _ _ _ _) Sc) as [Hseg Hc2].
  destruct Ss2 as (Hs1 & Hm & Hsm & Ss2). pose proof (chain_tail _ _ _ _ _ Hc2) as [Hgm Hc3].
  pose proof (chain_first _ _ _ Hc2) as Hgs. simpl in Hgs.
  set (a := hdrOffset p + 1) in *. set (x := m - nByte) in *.
  assert (forall k, 0 <= k -> ~ (s + 2 <= k < s + 4) -> at_ data k = at_ (aData p) k) as Hk.
  { intros k ? ?. unfold data. rewrite at_put2 by lia. eqb_cases; lia || done. }
  assert (link a pre = a \/ top < link a pre /\ link a pre + 2 <= s) as Hlk.
  { destruct (link_cases _ _ a pre Ss1) as [[_ ?]|[? _]]; [auto|]. right. split; [lia|].
    assert (spaced (top + 1) (s - 4) pre) as Hs' by (apply (spaced_upto _ usable); [done|lia]).
    destruct (link_cases _ _ a pre Hs') as [[-> Hla]|(? & ? & _)]; [simpl in *; lia|lia]. }
  split.
  - split; simpl.
    + fold a. apply freelist_app. split.
      * apply (seg_frame (aData p)); [done|]. intros k Hr.
        assert (spaced (top + 1) s pre) as Hs' by (apply (spaced_upto _ usable); [done|lia]).
        destruct (reads_bounds (top + 1) s a pre k Hs' ltac:(lia) Hr) as [Hb Hn']. apply Hk; lia.
      * assert (chain data s suf) as [Hd1 Hd2].
        { apply (chain_relink (aData p) data s _ _ (s + m + 4) usable); try done.
          - rewrite (get2_frame (aData p)); [|apply Hk; lia..]. apply chain_first, Hc3.
          - intros k ?. apply Hk; lia. }
        split; [|done]. simpl. split_and!; [|unfold data; rewrite get2_put2 by lia; apply Z.mod_small; lia|done].
        rewrite (get2_frame (aData p)); [done|apply Hk; lia..].
    + apply spaced_app. split; [done|]. simpl. split_and!; [lia..|]. eapply spaced_weaken, Ss2. lia.
    + rewrite (get2_frame (aData p)); [done|apply Hk; lia..].
    + done.
    + constructor; [|done]. unfold within. simpl. lia.
    + intros k. pose proof (Sd k) as Hd. pose proof (hit_split s x nByte k ltac:(lia) ltac:(lia)) as Hh'.
      replace (x + nByte) with m in Hh' by lia. rewrite cover_app in *. cbn [cover] in *. lia.
    + rewrite Hk by lia. rewrite total_app in *. simpl in *. lia.
  - split_and!.
    + unfold data. by rewrite len_put2 by lia.
    + unfold data. apply bytes_put2; try done; lia.
    + intros k ? Hr Hk2. apply Hk; [done|]. intros Hin. pose proof (Sd k) as Hd. rewrite cover_app in Hd. simpl in Hd.
      rewrite (hit_in (s, m)) in Hd by (simpl; lia). pose proof (cover_nonneg pre k). pose proof (cover_nonneg suf k). lia.
Qed.

(** The search changes nothing, or brings an interval into use. *)
Lemma pageFindSlot_ok p used fl top nByte : shape pBt p -> space pBt p used fl top -> fl <> [] -> 4 <= nByte < usable ->
  exists slot data, pageFindSlot pBt p nByte = Ret (slot, SQLITE_OK, with_data p data) /\
    match slot with
    | None => data = aData p
    | Some q => exists fl', space pBt (with_data p data) ((q, nByte) :: used) fl' top /\ keeps p data used top /\
        top < q /\ q + nByte <= usable /\ forall k, q <= k < q + nByte -> cover used k = 0
    end.
Proof.
  intros Sh Sp Hne Hn. destruct (space_pages _ _ _ _ Sh Sp) as (B & Hl & Hu & Hh & Ht). pose proof Sp as [Sc Ss St Sg Su Sd Sn].
  unfold pageFindSlot. rewrite get2byte_ok, (chain_first _ _ _ Sc) by (done || lia). cbn [mbind outcome_bind].
  rewrite assert_true. 2: { destruct fl as [|[s m] fl]; [done|]. simpl in *. apply Z.ltb_lt. lia. }
  cbn [mbind outcome_bind].
  destruct (find_slot_ok (chain_fuel pBt) (hdrOffset p) nByte (aData p) (top + 1) [] fl)
    as (slot & data & Hr & Hslot); try done; try lia.
  { apply (chain_room (aData p) (hdrOffset p + 1) fl (top + 1)); try done; try lia. destruct fl as [|[s m] fl]; [done|]. simpl in *. lia. }
  cbn [link] in Hr. rewrite Hr. cbn [mbind outcome_bind]. do 2 eexists. split; [done|]. destruct slot as [q|]; [|done].
  destruct Hslot as (pre & s & m & suf & Hfl & Htk). simpl in Hfl. subst fl.
  destruct Htk as [(Hx & -> & Hfr & ->)|(Hx & -> & ->)].
  - destruct (whole_slot_ok p used pre s m suf top nByte) as [Hsp Hk]; [done..|lia|lia|done|].
    exists (pre ++ suf). split_and!; try done; pose proof Hsp as [_ _ _ _ Hus Hds _];
      inversion_clear Hus as [|? ? (? & ? & ?) _]; simpl in *.
    + apply spaced_app in Ss as [Ss1 Ss2]. pose proof (reach_ge _ _ _ Ss1). simpl in Ss2. lia.
    + lia.
    + intros k Hk'. pose proof (Hds k) as Hd. rewrite hit_in in Hd by done.
      pose proof (cover_nonneg used k). pose proof (cover_nonneg (pre ++ suf) k). lia.
  - destruct (part_slot_ok p used pre s m suf top nByte) as [Hsp Hk]; [done..|lia|lia|].
    eexists. split_and!; try done; pose proof Hsp as [_ _ _ _ Hus Hds _];
      inversion_clear Hus as [|? ? (? & ? & ?) _]; simpl in *.
    + apply spaced_app in Ss as [Ss1 Ss2]. pose proof (reach_ge _ _ _ Ss1). simpl in Ss2. lia.
    + lia.
    + intros k Hk'. pose proof (Hds k) as Hd. rewrite hit_in in Hd by done.
      pose proof (cover_nonneg used k). pose proof (cover_nonneg (pre ++ (s, m - nByte) :: suf) k). lia.
Qed.
End Space.
