(* ===== verification/PageCells.v ===== *)
(** * B-tree pages: the cells of a page

    A page of Page.v as a list of cells: [holds] relates the two.  Insertion and
    removal implement those of lists as long as the cells fit, whatever the room
    looks like inside (PageSpace.v) and however often it is defragmented, and
    the free space the page records is exact.  The bytes of a page suffice to
    find its cells and its free space again. *)

From S2P Require Import Prelude Words Chars Page PageSpace.

(** ** Sizes of cells *)

Lemma rd_app l t k v : rd l k = Ret v -> rd (l ++ t) k = Ret v.
Proof.
  unfold rd. destruct (inside l k 1) eqn:E; [|done]. intros [= <-]. apply inside_spec in E.
  rewrite (proj2 (inside_spec (l ++ t) k 1)) by (unfold len in *; rewrite length_app; lia).
  unfold at_. rewrite app_nth1 by (unfold len in *; lia). done.
Qed.

Section Sizes.
Context `{Build}.
Variable CORRUPT_DB : bool.
Variable pBt : BtShared.

Lemma size_loop_app l t fuel i e n r : size_loop fuel l i e n = Ret r -> size_loop fuel (l ++ t) i e n = Ret r.
Proof.
  revert i n. induction fuel as [|fuel IH]; simpl; intros i n Hr; [done|]. apply bind_Ret_inv in Hr as (b & Hb & Hr).
  erewrite rd_app by done. simpl. destruct (_ && _); [by apply IH|done].
Qed.

Lemma payload_size_app l t i r : payload_size l i = Ret r -> payload_size (l ++ t) i = Ret r.
Proof.
  unfold payload_size. intros Hr. apply bind_Ret_inv in Hr as (b & Hb & Hr). erewrite rd_app by done.
  cbn [mbind outcome_bind]. revert Hr. destruct (_ <=? _); [|done]. intros Hr. apply bind_Ret_inv in Hr as (x & Hx & Hr).
  erewrite size_loop_app by done. done.
Qed.

Lemma skip_varint_app l t fuel i e r : skip_varint fuel l i e = Ret r -> skip_varint fuel (l ++ t) i e = Ret r.
Proof.
  revert i. induction fuel as [|fuel IH]; simpl; intros i Hr; [done|]. apply bind_Ret_inv in Hr as (b & Hb & Hr).
  erewrite rd_app by done. simpl. destruct (_ && _); [by apply IH|done].
Qed.

Lemma skip_key_app l t n i r : skip_key n l i = Ret r -> skip_key n (l ++ t) i = Ret r.
Proof.
  revert i. induction n as [|n IH]; simpl; intros i Hr; [done|]. apply bind_Ret_inv in Hr as (b & Hb & Hr).
  erewrite rd_app by done. simpl. destruct (negb _); [by apply IH|done].
Qed.

(** The size is in the cell: what follows it does not matter. *)
Lemma xCellSize_app p l t v : call_xCellSize pBt p l = Ret v -> call_xCellSize pBt p (l ++ t) = Ret v.
Proof.
  unfold call_xCellSize. destruct (xCellSize p); unfold cellSizePtr, cellSizePtrIdxLeaf, cellSizePtrNoPayload, cellSizePtrTableLeaf;
    intros Hr; apply bind_Ret_inv in Hr as (a & Ha & Hr).
  1, 2: rewrite Ha; apply bind_Ret_inv in Hr as (b & Hb & Hr); cbn [mbind outcome_bind]; by erewrite payload_size_app by done.
  - rewrite Ha. apply bind_Ret_inv in Hr as (b & Hb & Hr). cbn [mbind outcome_bind]. by erewrite skip_varint_app by done.
  - destruct a as [n i]. apply bind_Ret_inv in Hr as (b & Hb & Hr).
    erewrite payload_size_app by done. cbn [mbind outcome_bind]. by erewrite skip_key_app by done.
Qed.

(** A cell of a page of the kind of [p]: its size is its length.  Cells of
    interior pages have a byte behind the child's number. *)
Definition cell_ok (p : MemPage) (c : list Z) : Prop :=
  call_xCellSize pBt p c = Ret (len c) /\ 4 <= len c /\ bytes c /\ (leaf p = false -> 5 <= len c).

(** The fields that the size depends on, and the position of the header. *)
Definition same_kind (p q : MemPage) : Prop :=
  xCellSize q = xCellSize p /\ childPtrSize q = childPtrSize p /\ maxLocal q = maxLocal p /\ minLocal q = minLocal p /\
  hdrOffset q = hdrOffset p /\ leaf q = leaf p.

Lemma xCellSize_kind p q l : same_kind p q -> call_xCellSize pBt q l = call_xCellSize pBt p l.
Proof.
  intros (Hx & Hc & Hm & Hn & _). unfold call_xCellSize. rewrite Hx.
  destruct (xCellSize p); unfold cellSizePtr, cellSizePtrIdxLeaf, cellSizePtrNoPayload, cellSizePtrTableLeaf, spilled_size;
    rewrite ?Hc, ?Hm, ?Hn; done.
Qed.

Lemma cell_ok_kind p q c : same_kind p q -> cell_ok p c -> cell_ok q c.
Proof.
  intros Hk (Hs & H4 & B & H5). split; [by rewrite (xCellSize_kind p q)|]. destruct Hk as (_ & _ & _ & _ & _ & ->). done.
Qed.

End Sizes.

(** ** Cells in a buffer *)

Abbreviation cell := (Z * list Z)%type.
Definition ivs (cells : list cell) : list (Z * Z) := map (fun c => (c.1, len c.2)) cells.

(** The pointers from [off] on lead to the cells. *)
Definition pointed (l : list Z) (off : Z) (cells : list cell) : Prop :=
  forall i c, cells !! i = Some c -> get2 l (off + 2 * Z.of_nat i) = c.1.
Definition bodies (l : list Z) (cells : list cell) : Prop :=
  forall c, c ∈ cells -> forall j, 0 <= j < len c.2 -> at_ l (c.1 + j) = at_ c.2 j.

Lemma ivs_in c cells : c ∈ cells -> (c.1, len c.2) ∈ ivs cells.
Proof. intros. unfold ivs. apply list_elem_of_fmap. eauto. Qed.

Lemma pointed_frame l l' off cells : pointed l off cells ->
  (forall k, off <= k < off + 2 * Z.of_nat (length cells) -> at_ l' k = at_ l k) -> pointed l' off cells.
Proof.
  intros Hp Hk i c Hi. pose proof (lookup_lt_Some _ _ _ Hi). rewrite (get2_frame l); [by apply Hp|apply Hk; lia..].
Qed.

Lemma bodies_frame l l' cells : bodies l cells ->
  (forall k, 1 <= cover (ivs cells) k -> at_ l' k = at_ l k) -> bodies l' cells.
Proof.
  intros Hb Hk c Hc j Hj. rewrite Hk; [by apply Hb|]. apply (cover_in _ (c.1, len c.2)); [by apply ivs_in|simpl; lia].
Qed.

Lemma from_ptr_cell l pc c : 0 <= pc -> pc + len c <= len l -> (forall j, 0 <= j < len c -> at_ l (pc + j) = at_ c j) ->
  exists t, from_ptr l pc = c ++ t.
Proof.
  intros Hpc Hl Hj. exists (drop (length c) (from_ptr l pc)). rewrite <- (take_drop (length c) (from_ptr l pc)) at 1. f_equal.
  apply list_eq. intros i. unfold from_ptr. destruct (decide (i < length c)%nat) as [Hi|Hi].
  - rewrite lookup_take_lt, lookup_drop by done. specialize (Hj (Z.of_nat i)). unfold len, at_ in *.
    rewrite !nth_lookup in Hj. rewrite Nat2Z.id in Hj. replace (Z.to_nat (pc + Z.of_nat i)) with (Z.to_nat pc + i)%nat in Hj by lia.
    destruct (lookup_lt_is_Some_2 c i) as [x Hx]; [done|]. destruct (lookup_lt_is_Some_2 l (Z.to_nat pc + i)) as [y Hy]; [lia|].
    rewrite Hx, Hy in *. simpl in Hj. f_equal. apply Hj. lia.
  - rewrite lookup_take_ge by lia. by rewrite lookup_ge_None_2 by lia.
Qed.

Lemma pointed_cons l off c cells : pointed l off (c :: cells) <-> get2 l off = c.1 /\ pointed l (off + 2) cells.
Proof.
  unfold pointed. split.
  - intros Hp. split; [rewrite <- (Hp 0%nat c eq_refl); f_equal; lia|]. intros i c' Hi.
    rewrite <- (Hp (S i) c' Hi). f_equal. lia.
  - intros [H0 Hp] [|i] c' Hi; simpl in Hi; [injection Hi as <-; rewrite <- H0; f_equal; lia|].
    rewrite <- (Hp i c' Hi). f_equal. lia.
Qed.

Lemma bodies_cons l c cells : bodies l (c :: cells) <->
  (forall j, 0 <= j < len c.2 -> at_ l (c.1 + j) = at_ c.2 j) /\ bodies l cells.
Proof.
  unfold bodies. setoid_rewrite elem_of_cons. split; [intros Hb; split; intros; apply Hb; auto|].
  intros [H0 Hb] c' [->|?]; auto.
Qed.

Lemma bodies_nil l : bodies l [].
Proof. intros c Hc. by apply elem_of_nil in Hc. Qed.

Section Defragment.
Context `{Build}.
Variable CORRUPT_DB : bool.
Variable pBt : BtShared.
Hypothesis Hpar : params_ok pBt.
Abbreviation usable := (usableSize pBt).

(** ** The loops of defragmentPage *)

Definition move (f1 f2 sz sz2 : Z) (c : cell) : cell :=
  (if c.1 <? f1 then c.1 + sz else if c.1 <? f2 then c.1 + sz2 else c.1, c.2).

Lemma shift_pointers_ok l off f1 f2 sz sz2 cells : bytes l -> pointed l off cells -> 0 <= off ->
  off + 2 * Z.of_nat (length cells) <= len l -> (forall c, c ∈ cells -> 0 <= (move f1 f2 sz sz2 c).1 < 65536) ->
  exists l', shift_pointers (length cells) l off f1 f2 sz sz2 = Ret l' /\ pointed l' off (map (move f1 f2 sz sz2) cells) /\
    len l' = len l /\ bytes l' /\
    (forall k, 0 <= k -> ~ (off <= k < off + 2 * Z.of_nat (length cells)) -> at_ l' k = at_ l k).
Proof.
  revert l off. induction cells as [|c cells IH]; simpl length; intros l off B Hp Ho Hl Hm; [by exists l|].
  apply pointed_cons in Hp as [H0 Hp]. simpl shift_pointers. rewrite get2byte_ok, H0 by (done || lia). simpl.
  pose proof (Hm c ltac:(set_solver)) as Hc.
  assert (exists l1, (if c.1 <? f1 then put2byte l off (c.1 + sz) else if c.1 <? f2 then put2byte l off (c.1 + sz2) else Ret l) = Ret l1 /\
    get2 l1 off = (move f1 f2 sz sz2 c).1 /\ len l1 = len l /\ bytes l1 /\
    (forall k, 0 <= k -> ~ (off <= k < off + 2) -> at_ l1 k = at_ l k)) as (l1 & -> & Hg & Hl1 & B1 & Hk1).
  { unfold move in *. simpl in *. repeat destruct (_ <? _).
    3: exists l; split_and!; done || lia.
    all: rewrite put2byte_ok by lia; eexists; split; [done|]; rewrite get2_put2, Z.mod_small by lia; split_and!;
      [done|by rewrite len_put2 by lia|apply bytes_put2; try done; lia|];
      intros; rewrite at_put2 by lia; eqb_cases; lia || done. }
  cbn [mbind outcome_bind].
  destruct (IH l1 (off + 2)) as (l' & Hr & Hp' & Hl' & B' & Hk'); try done; try lia.
  { eapply pointed_frame; [done|]. intros; apply Hk1; lia. }
  { intros c' ?. apply Hm. set_solver. }
  exists l'. split_and!; try done; try lia.
  - apply pointed_cons. split; [|done]. rewrite <- Hg. apply get2_frame; apply Hk'; lia.
  - intros k ? ?. rewrite Hk', Hk1 by lia. done.
Qed.

(** Cells on top of each other from [hi] downwards. *)
Lemma repack_ok p src start pAddr cbrk data cells : bytes data -> bytes src -> pointed data pAddr cells -> bodies src cells ->
  len src = usable -> usable <= len data -> usable <= 65536 -> Forall (within 0 usable) (ivs cells) -> Forall (cell_ok pBt p) cells.*2 ->
  0 <= pAddr -> pAddr + 2 * Z.of_nat (length cells) <= cbrk - total (ivs cells) -> start <= cbrk - total (ivs cells) -> cbrk <= usable ->
  exists data' cells', repack pBt (length cells) p src start pAddr cbrk data = Ret (SQLITE_OK, cbrk - total (ivs cells), data') /\
    cells'.*2 = cells.*2 /\ pointed data' pAddr cells' /\ bodies data' cells' /\
    Forall (within (cbrk - total (ivs cells)) cbrk) (ivs cells') /\ (forall k, cover (ivs cells') k <= 1) /\
    len data' = len data /\ bytes data' /\
    (forall k, 0 <= k -> ~ (pAddr <= k < pAddr + 2 * Z.of_nat (length cells)) -> ~ (cbrk - total (ivs cells) <= k < cbrk) ->
      at_ data' k = at_ data k).
Proof.
  intros B Bs. revert data pAddr cbrk B. induction cells as [|[pc c] cells IH];
    intros data pAddr cbrk B Hp Hb Hls Hl Hu Hw Hok Hpa Hroom Hst Hcb; simpl.
  { rewrite Z.sub_0_r. exists data, []. split_and!; [done|done|done|apply bodies_nil|constructor|done..]. }
  apply pointed_cons in Hp as [H0 Hp]. apply bodies_cons in Hb as [Hb0 Hb].
  inversion_clear Hw as [|? ? (Hw1 & Hw2 & Hw3) Hw']. apply Forall_cons in Hok as [(Hsz & Hc4 & Bc) Hok]. simpl in *.
  pose proof (total_nonneg _ _ _ Hw') as Htn.
  rewrite get2byte_ok, H0 by (done || lia). cbn [mbind outcome_bind].
  rewrite (proj2 (Z.ltb_ge (usable - 4) pc)) by lia.
  rewrite assert_true by (rewrite (proj2 (Z.leb_le 0 pc)), (proj2 (Z.leb_le pc (usable - 4))) by lia; done).
  destruct (from_ptr_cell src pc c) as [t Ht]; [lia..|done|]. rewrite Ht. cbn [mbind outcome_bind].
  rewrite (xCellSize_app pBt p c t _ Hsz). cbn [mbind outcome_bind].
  rewrite (proj2 (Z.ltb_ge (cbrk - len c) start)), (proj2 (Z.ltb_ge usable (pc + len c))) by lia. cbn [orb].
  rewrite assert_true by (rewrite (proj2 (Z.leb_le (cbrk - len c + len c) usable)), (proj2 (Z.leb_le start (cbrk - len c))) by lia; done).
  rewrite put2byte_ok by lia. cbn [mbind outcome_bind].
  rewrite memcpy_ok by (rewrite ?len_put2; lia). cbn [mbind outcome_bind].
  assert (len (from_to src pc (len c)) = len c) as Hlf by (apply len_from_to; lia).
  set (data2 := store (put2 data pAddr (cbrk - len c)) (cbrk - len c) (from_to src pc (len c))).
  assert (forall k, 0 <= k -> at_ data2 k = if (cbrk - len c <=? k) && (k <? cbrk) then at_ src (pc + (k - (cbrk - len c)))
    else at_ (put2 data pAddr (cbrk - len c)) k) as Hk2.
  { intros k ?. unfold data2. rewrite at_store, Hlf by (rewrite ?len_put2; lia).
    replace (cbrk - len c + len c) with cbrk by lia. destruct (_ && _) eqn:E; [|done]. zify_bool. by rewrite at_from_to by lia. }
  assert (forall k, 0 <= k -> ~ (pAddr <= k < pAddr + 2) -> ~ (cbrk - len c <= k < cbrk) -> at_ data2 k = at_ data k) as Hk2'.
  { intros k ? ? ?. rewrite Hk2 by done. destruct (_ && _) eqn:E; [zify_bool; lia|].
    rewrite at_put2 by lia. eqb_cases; lia || done. }
  assert (len data2 = len data) as Hl2 by (unfold data2; rewrite len_store; rewrite ?len_put2; lia).
  assert (bytes data2) as B2.
  { apply bytes_store; rewrite ?len_put2; try lia; auto using bytes_from_to. apply bytes_put2; try done; lia. }
  destruct (IH data2 (pAddr + 2) (cbrk - len c)) as (data' & cells' & Hr & Hcs & Hp' & Hb' & Hw'' & Hd' & Hl' & B' & Hk'); try done; try lia.
  { eapply pointed_frame; [done|]. intros; apply Hk2'; lia. }
  replace (cbrk - len c - total (ivs cells)) with (cbrk - (len c + total (ivs cells))) in * by lia.
  exists data', ((cbrk - len c, c) :: cells'). split_and!; try done; try lia.
  - by rewrite !fmap_cons, Hcs.
  - apply pointed_cons. split; [|done]. simpl. transitivity (get2 (put2 data pAddr (cbrk - len c)) pAddr).
    + apply get2_frame; rewrite Hk' by lia; rewrite Hk2 by lia;
        (destruct (_ && _) eqn:E; [zify_bool; lia|done]).
    + rewrite get2_put2 by lia. apply Z.mod_small. lia.
  - apply bodies_cons. split; [|done]. simpl. intros j Hj. rewrite Hk' by lia. rewrite Hk2 by lia.
    rewrite (proj2 (Z.leb_le _ _)), (proj2 (Z.ltb_lt _ _)) by lia. simpl. rewrite <- Hb0 by done. f_equal. lia.
  - simpl. constructor; [unfold within; simpl; lia|]. eapply Forall_impl; [exact Hw''|].
    intros iv (? & ? & ?). unfold within. lia.
  - intros k. simpl. destruct (decide (cbrk - len c <= k < cbrk)) as [Hin|Hout].
    + rewrite (cover_out _ _ _ k Hw'') by lia. pose proof (hit_range (cbrk - len c, len c) k). lia.
    + rewrite hit_out by (simpl; lia). pose proof (Hd' k). lia.
  - intros k ? ? ?. rewrite Hk' by lia. apply Hk2'; lia.
Qed.

(** ** Pages and cells *)

(** The kind of the page is the one its first byte says. *)
Definition kind_ok (p : MemPage) : Prop := decodeFlags pBt p (at_ (aData p) (hdrOffset p)) = Ret (SQLITE_OK, p).

(** A flag byte is refused, or sets the kind whatever the page. *)
Lemma decode_cases flag :
  (exists c l i il m1 mx mn f, forall p, decodeFlags pBt p flag = Ret (SQLITE_OK, with_kind p c l i il m1 mx mn f)) \/
  (forall p q, decodeFlags pBt p flag <> Ret (SQLITE_OK, q)).
Proof.
  unfold decodeFlags. destruct (_ <=? flag); repeat (destruct (flag =? _); [left; repeat eexists|]); right; done.
Qed.

Lemma decode_with_data p data flag : decodeFlags pBt p flag = Ret (SQLITE_OK, p) ->
  decodeFlags pBt (with_data p data) flag = Ret (SQLITE_OK, with_data p data).
Proof.
  destruct (decode_cases flag) as [(c & l & i & il & m1 & mx & mn & f & Hd)|Hd]; [|intros Hr; by destruct (Hd _ _ Hr)].
  rewrite !Hd. intros Hr. injection Hr as Hr. do 2 f_equal.
  change (with_data (with_kind p c l i il m1 mx mn f) data = with_data p data). by rewrite Hr.
Qed.

Lemma decode_with_counts p x n flag : decodeFlags pBt p flag = Ret (SQLITE_OK, p) ->
  decodeFlags pBt (with_counts p x n) flag = Ret (SQLITE_OK, with_counts p x n).
Proof.
  destruct (decode_cases flag) as [(c & l & i & il & m1 & mx & mn & f & Hd)|Hd]; [|intros Hr; by destruct (Hd _ _ Hr)].
  rewrite !Hd. intros Hr. injection Hr as Hr. do 2 f_equal.
  change (with_counts (with_kind p c l i il m1 mx mn f) x n = with_counts p x n). by rewrite Hr.
Qed.

(** The pointers and the contents are those of [cells]. *)
Record index (p : MemPage) (cells : list cell) : Prop := {
  ix_kind : kind_ok p;
  ix_count : nCell p = Z.of_nat (length cells);
  ix_stored : get2 (aData p) (hdrOffset p + 3) = nCell p;
  ix_pointed : pointed (aData p) (cellOffset p) cells;
  ix_bodies : bodies (aData p) cells;
  ix_ok : Forall (cell_ok pBt p) cells.*2
}.

Record arranged (p : MemPage) (cells : list cell) (fl : list (Z * Z)) (top : Z) : Prop := {
  ar_shape : shape pBt p;
  ar_space : space pBt p (ivs cells) fl top;
  ar_index : index p cells
}.

Lemma shape_data p data : shape pBt p -> len data = len (aData p) -> bytes data -> shape pBt (with_data p data).
Proof. intros [] Hl B. split; simpl; try done. congruence. Qed.

Lemma cell_ok_data p data c : cell_ok pBt p c -> cell_ok pBt (with_data p data) c.
Proof. apply cell_ok_kind. by split_and!. Qed.

Lemma header_facts p : shape pBt p -> 0 <= hdrOffset p /\ hdrOffset p + 8 <= cellOffset p /\ 0 <= nCell p /\
  cellOffset p <= 112 /\ usable <= len (aData p) /\ usable <= 65536 /\ 480 <= usable /\ bytes (aData p).
Proof. intros [Hl B Hh Hc Ho Hm Hn]. pose proof (page_bounds _ Hpar). split_and!; auto; lia. Qed.

(** ** defragmentPage *)

Lemma defragment_out_ok p data cbrk cells : shape pBt p -> len data = len (aData p) -> bytes data ->
  kind_ok p -> at_ data (hdrOffset p) = at_ (aData p) (hdrOffset p) ->
  iCellFirst p <= cbrk <= usable -> Forall (within cbrk usable) (ivs cells) -> (forall k, cover (ivs cells) k <= 1) ->
  nCell p = Z.of_nat (length cells) -> get2 data (hdrOffset p + 3) = nCell p -> pointed data (cellOffset p) cells ->
  bodies data cells -> Forall (cell_ok pBt p) cells.*2 ->
  total (ivs cells) + at_ data (hdrOffset p + 7) = usable - cbrk -> 0 <= nFree p ->
  nFree p = at_ data (hdrOffset p + 7) + cbrk - iCellFirst p ->
  exists data', defragment_out p data cbrk = Ret (SQLITE_OK, with_data p data') /\
    arranged (with_data p data') cells [] cbrk /\ at_ data' (hdrOffset p + 7) = at_ data (hdrOffset p + 7).
Proof.
  intros Sh Hl B Hkind Hflag Hcb Hw Hd Hn Hst Hp Hb Hok Htot Hfree Hnf.
  destruct (header_facts p Sh) as (Hh & Hco & _ & _ & Hul & Hu & _ & _).
  unfold defragment_out, iCellFirst in *. rewrite assert_true by (apply Z.leb_le; lia). cbn [mbind outcome_bind].
  rewrite rd_ok by lia. cbn [mbind outcome_bind]. rewrite (proj2 (Z.eqb_eq _ _)) by lia. cbn [negb].
  rewrite assert_true by (apply Z.leb_le; lia). cbn [mbind outcome_bind].
  rewrite put2byte_ok by lia. cbn [mbind outcome_bind].
  assert (forall l k, len l = len data -> 0 <= k < len data -> wr l k 0 = Ret (store l k [0])) as Hwr.
  { intros l k ? ?. rewrite wr_ok by lia. done. }
  assert (forall l k, len l = len data -> 0 <= k < len data -> len (store l k [0]) = len data) as Hls.
  { intros l k ? ?. rewrite len_store; change (len [0]) with 1; lia. }
  assert (len (put2 data (hdrOffset p + 5) cbrk) = len data) as Hlp by (apply len_put2; lia).
  rewrite Hwr by lia. cbn [mbind outcome_bind]. rewrite Hwr by (rewrite ?Hls; lia). cbn [mbind outcome_bind].
  set (z := replicate (Z.to_nat (cbrk - (cellOffset p + 2 * nCell p))) (uchar 0)).
  assert (len z = cbrk - (cellOffset p + 2 * nCell p)) as Hlz by (unfold z; rewrite len_replicate; lia).
  rewrite memset_ok by (rewrite ?Hls; rewrite ?Hls; lia). fold z. cbn [mbind outcome_bind].
  set (data' := store _ (cellOffset p + 2 * nCell p) z).
  assert (forall k, 0 <= k -> ~ (cellOffset p + 2 * nCell p <= k < cbrk) ->
    at_ data' k = if k =? hdrOffset p + 2 then 0 else if k =? hdrOffset p + 1 then 0
      else at_ (put2 data (hdrOffset p + 5) cbrk) k) as Hk.
  { intros k ? ?. unfold data'. rewrite at_store by (rewrite ?Hls; rewrite ?Hls; lia). rewrite Hlz.
    destruct (_ && _) eqn:E; [zify_bool; lia|]. rewrite at_store_one by (rewrite ?Hls; lia). eqb_cases; [done|..];
    rewrite at_store_one by lia; eqb_cases; lia || done. }
  assert (forall k, 0 <= k -> ~ (cellOffset p + 2 * nCell p <= k < cbrk) -> ~ (hdrOffset p + 1 <= k < hdrOffset p + 3) ->
    ~ (hdrOffset p + 5 <= k < hdrOffset p + 7) -> at_ data' k = at_ data k) as Hk'.
  { intros k ? ? ? ?. rewrite Hk, at_put2 by lia. eqb_cases; lia || done. }
  assert (len data' = len data) as Hld by (unfold data'; rewrite len_store; rewrite ?Hls; rewrite ?Hls; lia).
  assert (bytes data') as B'.
  { assert (bytes [0]) as B0 by (apply bytes_Forall; repeat constructor; lia).
    unfold data'. apply bytes_store; rewrite ?Hls; rewrite ?Hls; try lia; [|apply bytes_replicate, uchar_bytes].
    apply bytes_store; rewrite ?Hls; change (len [0]) with 1; try done; try lia.
    apply bytes_store; change (len [0]) with 1; try done; try lia. apply bytes_put2; try done; lia. }
  exists data'. split; [done|]. split; [|apply Hk'; lia].
  split; [apply shape_data; done || lia|split; simpl|split; simpl]; try done.
  - split; [done|]. simpl. unfold get2. rewrite !Hk by lia. rewrite !(proj2 (Z.eqb_neq (hdrOffset p + 1) (hdrOffset p + 2))) by lia.
    rewrite Z.eqb_refl. by rewrite (proj2 (Z.eqb_eq (hdrOffset p + 1 + 1) (hdrOffset p + 2))) by lia.
  - transitivity (get2 (put2 data (hdrOffset p + 5) cbrk) (hdrOffset p + 5)); [|apply get2_put2; lia].
    apply get2_frame; rewrite Hk by lia; eqb_cases; lia || done.
  - intros k. rewrite Z.add_0_r. apply Hd.
  - rewrite Hk' by lia. lia.
  - apply decode_with_data. simpl. rewrite Hk', Hflag by lia. done.
  - rewrite (get2_frame data); [done|apply Hk'; lia..].
  - eapply pointed_frame; [done|]. intros; apply Hk'; lia.
  - eapply bodies_frame; [done|]. intros k Hc. assert (~ (k < cbrk)) by (intros ?; rewrite (cover_out _ _ _ k Hw) in Hc; lia).
    apply Hk'; lia.
Qed.

(** What the page records as free, from the room. *)
Definition free_bytes (p : MemPage) (fl : list (Z * Z)) (top : Z) : Z :=
  at_ (aData p) (hdrOffset p + 7) + total fl + top - iCellFirst p.

Lemma free_nonneg p cells fl top : arranged p cells fl top -> 0 <= free_bytes p fl top.
Proof.
  intros [Sh [Sc Ss St Sg Su Sd Sn] Ix]. unfold free_bytes. pose proof (sh_bytes _ _ Sh (hdrOffset p + 7)).
  pose proof (total_nonneg _ _ _ (spaced_within _ _ _ Ss)). lia.
Qed.

Lemma defragment_slow_ok p cells fl top : arranged p cells fl top -> nFree p = free_bytes p fl top ->
  exists data cells' top', defragment_slow pBt p = Ret (SQLITE_OK, with_data p data) /\ cells'.*2 = cells.*2 /\
    arranged (with_data p data) cells' [] top' /\ at_ data (hdrOffset p + 7) = 0.
Proof.
  intros Ha Hf. pose proof (free_nonneg _ _ _ _ Ha) as Hfn. destruct Ha as [Sh [Sc Ss St Sg Su Sd Sn] [If In Ist Ip Ib Io]].
  destruct (header_facts p Sh) as (Hh & Hco & _ & Hco' & Hul & Hu & Hu4 & B). pose proof (B (hdrOffset p + 7)) as B7.
  unfold free_bytes, iCellFirst in *. pose proof (total_nonneg _ _ _ (spaced_within _ _ _ Ss)) as Htf.
  unfold defragment_slow. rewrite get2byte_ok, St by (done || lia). cbn [mbind outcome_bind].
  rewrite memcpy_ok by (rewrite ?len_replicate; lia). cbn [mbind outcome_bind].
  set (src := store (replicate (Z.to_nat usable) 0) 0 (from_to (aData p) 0 usable)).
  assert (len (from_to (aData p) 0 usable) = usable) as Hlf by (apply len_from_to; lia).
  assert (len src = usable) as Hls by (unfold src; rewrite len_store; rewrite ?len_replicate; lia).
  assert (forall k, 0 <= k < usable -> at_ src k = at_ (aData p) k) as Hsrc.
  { intros k ?. unfold src. rewrite at_store by (rewrite ?len_replicate; lia). rewrite Hlf.
    rewrite (proj2 (Z.leb_le 0 k)), (proj2 (Z.ltb_lt k (0 + usable))) by lia. simpl. rewrite at_from_to by lia. f_equal. lia. }
  assert (bytes src) as Bsrc.
  { apply bytes_store; rewrite ?len_replicate; try lia; [apply bytes_replicate; lia|by apply bytes_from_to]. }
  assert (Forall (within 0 usable) (ivs cells)) as Hw0.
  { eapply Forall_impl; [exact Su|]. intros iv (? & ? & ?). unfold within. lia. }
  pose proof (Z.mod_le top 65536 ltac:(lia) ltac:(lia)) as Htm. pose proof (total_nonneg _ _ _ Su) as Htu.
  destruct (repack_ok p src (top mod 65536) (cellOffset p) usable (aData p) cells)
    as (data & cells' & Hr & Hcs & Hp' & Hb' & Hw' & Hd' & Hl' & B' & Hk'); try done; try lia.
  { intros c Hc j Hj. pose proof (proj1 (Forall_forall _ _) Su _ (ivs_in _ _ Hc)) as (? & ? & ?). simpl in *.
    rewrite Hsrc by lia. by apply Ib. }
  rewrite In, Nat2Z.id, Hr. cbn [mbind outcome_bind negb Z.eqb SQLITE_OK].
  change (negb (SQLITE_OK =? SQLITE_OK)) with false. cbn iota.
  rewrite wr_ok by lia. cbn [mbind outcome_bind]. change (uchar 0) with 0.
  assert (length cells' = length cells) as Hlc by (rewrite <- (length_fmap snd cells'), Hcs; apply length_fmap).
  assert (total (ivs cells') = total (ivs cells)) as Htc.
  { clear -Hcs. revert cells' Hcs. induction cells as [|[? c] cells IH]; intros [|[? c'] cells']; try done.
    intros [= -> Hcs]. simpl. by rewrite (IH cells'). }
  assert (forall k, 0 <= k -> k <> hdrOffset p + 7 -> at_ (store data (hdrOffset p + 7) [0]) k = at_ data k) as Hks.
  { intros k ? ?. rewrite at_store_one by lia. eqb_cases; lia || done. }
  destruct (defragment_out_ok p (store data (hdrOffset p + 7) [0]) (usable - total (ivs cells)) cells')
    as (data' & Hout & Har & H7); try done.
  - rewrite len_store; change (len [0]) with 1; lia.
  - apply bytes_store; change (len [0]) with 1; try done; try lia. apply bytes_Forall. repeat constructor; lia.
  - rewrite Hks, Hk' by lia. done.
  - unfold iCellFirst. lia.
  - lia.
  - rewrite (get2_frame (aData p)); [done|rewrite Hks, Hk' by lia; done..].
  - eapply pointed_frame; [done|]. intros; apply Hks; lia.
  - eapply bodies_frame; [done|]. intros k Hc. assert (~ (k < usable - total (ivs cells)))
      by (intros ?; rewrite (cover_out _ _ _ k Hw') in Hc; lia). apply Hks; lia.
  - by rewrite Hcs.
  - rewrite at_store_one, Z.eqb_refl by lia. lia.
  - lia.
  - unfold iCellFirst. rewrite at_store_one, Z.eqb_refl by lia. lia.
  - exists data', cells', (usable - total (ivs cells)). split_and!; try done.
    rewrite H7, at_store_one, Z.eqb_refl by lia. done.
Qed.

(** The block for few free blocks, [(f1, n1)] and [(f2, n2)]; a missing second
    one is empty and behind the first, and is passed as 0. *)
Section Quick.
Variables (p : MemPage) (cells : list cell) (fl : list (Z * Z)) (top f1 n1 f2 n2 : Z).
Hypotheses (Har : arranged p cells fl top) (Hf1 : top < f1) (Hn1 : 4 <= n1) (Hf2 : f1 + n1 <= f2) (Hn2 : 0 <= n2)
  (Hend : f2 + n2 <= usable) (Htot : total fl = n1 + n2)
  (Hfl : forall k, f1 <= k < f1 + n1 \/ f2 <= k < f2 + n2 -> 1 <= cover fl k)
  (Hone : n2 = 0 -> f2 = f1 + n1).
Variable f2' : Z.
Hypothesis Hf2' : f2' = f2 \/ f2' = 0 /\ n2 = 0.

Abbreviation moved := (move f1 f2' (n1 + n2) n2).

(** A cell is in front of, between or behind the free blocks. *)
Definition placed (c : cell) : Prop :=
  top <= c.1 /\ 4 <= len c.2 /\ c.1 + len c.2 <= usable /\
  (c.1 + len c.2 <= f1 /\ (moved c).1 = c.1 + (n1 + n2) \/
   f1 + n1 <= c.1 /\ c.1 + len c.2 <= f2 /\ (moved c).1 = c.1 + n2 \/
   f2 + n2 <= c.1 /\ (moved c).1 = c.1).

Lemma cell_placed c : c ∈ cells -> placed c.
Proof.
  intros Hc. destruct Har as [Sh [_ _ _ Sg Su Sd _] _].
  pose proof (proj1 (Forall_forall _ _) Su _ (ivs_in _ _ Hc)) as (H1 & H2 & H3). simpl in *.
  assert (forall k, c.1 <= k < c.1 + len c.2 -> cover fl k = 0) as Hk.
  { intros k Hk. pose proof (cover_in _ _ k (ivs_in _ _ Hc) Hk). pose proof (Sd k). pose proof (cover_nonneg fl k). lia. }
  assert (forall k, c.1 <= k < c.1 + len c.2 -> ~ (f1 <= k < f1 + n1 \/ f2 <= k < f2 + n2)) as Hno.
  { intros k Hin Hb. pose proof (Hk k Hin). pose proof (Hfl k Hb). lia. }
  unfold placed. split_and!; try done. unfold move. simpl.
  pose proof (Hno c.1). pose proof (Hno f1). pose proof (Hno f2).
  assert (0 <= top) by (destruct (header_facts p Sh) as (? & ? & ? & _); unfold iCellFirst in *; lia).
  destruct (Z.ltb_spec c.1 f1); [left; lia|]. destruct (Z.ltb_spec c.1 f2'); [right; left; lia|right; right; lia].
Qed.

(** Where the byte [k] comes from. *)
Definition back (k : Z) : Z := if k <? f1 + (n1 + n2) then k - (n1 + n2) else if k <? f2 + n2 then k - n2 else k.

Lemma hit_moved c k : placed c -> hit ((moved c).1, len c.2) k = hit (c.1, len c.2) (back k).
Proof.
  intros (? & ? & ? & Hc). unfold back.
  destruct (decide ((moved c).1 <= k < (moved c).1 + len c.2)) as [Hin|Hout].
  - rewrite hit_in by done. symmetry. apply hit_in. simpl.
    destruct (Z.ltb_spec k (f1 + (n1 + n2))); [lia|]. destruct (Z.ltb_spec k (f2 + n2)); lia.
  - rewrite hit_out by done. symmetry. apply hit_out. simpl.
    destruct (Z.ltb_spec k (f1 + (n1 + n2))); [lia|]. destruct (Z.ltb_spec k (f2 + n2)); lia.
Qed.

Lemma cover_moved k : cover (ivs (map moved cells)) k = cover (ivs cells) (back k).
Proof.
  pose proof cell_placed as Hpl. revert Hpl. generalize cells as cs.
  induction cs as [|c cs IH]; intros Hpl; [done|].
  change (ivs (map moved (c :: cs))) with (((moved c).1, len c.2) :: ivs (map moved cs)).
  change (ivs (c :: cs)) with ((c.1, len c.2) :: ivs cs). cbn [cover]. rewrite hit_moved by (apply Hpl; set_solver).
  rewrite IH; [done|]. intros. apply Hpl. set_solver.
Qed.

Lemma total_moved : total (ivs (map moved cells)) = total (ivs cells).
Proof. generalize cells as cs. induction cs as [|c cs IH]; [done|]. simpl in *. by rewrite IH. Qed.

Lemma within_moved : Forall (within (top + (n1 + n2)) usable) (ivs (map moved cells)).
Proof.
  apply Forall_forall. intros iv Hiv. apply list_elem_of_fmap in Hiv as (c' & -> & Hc').
  apply list_elem_of_fmap in Hc' as (c & -> & Hc). destruct (cell_placed c Hc) as (? & ? & ? & Hp).
  change (moved c).2 with c.2. set (q := (moved c).1) in *. clearbody q. unfold within. simpl. lia.
Qed.

(** The second move and the pointers. *)
Lemma defragment_move_ok l1 : len l1 = len (aData p) -> bytes l1 ->
  (forall k, 0 <= k -> at_ l1 k = if (f1 + n1 + n2 <=? k) && (k <? f2 + n2) then at_ (aData p) (k - n2) else at_ (aData p) k) ->
  exists data, defragment_move pBt p l1 f1 f2' (n1 + n2) n2 top = Ret (QuickDone data (top + (n1 + n2))) /\
    len data = len (aData p) /\ bytes data /\ pointed data (cellOffset p) (map moved cells) /\
    bodies data (map moved cells) /\
    (forall k, 0 <= k < cellOffset p -> at_ data k = at_ (aData p) k).
Proof.
  intros Hl1 B1 Hk1. destruct Har as [Sh [Sc Ss St Sg Su Sd Sn] [If In Ist Ip Ib Io]].
  destruct (header_facts p Sh) as (Hh & Hco & _ & _ & Hul & Hu & _ & B). unfold iCellFirst in *.
  unfold defragment_move. rewrite assert_true by (apply Z.leb_le; lia). cbn [mbind outcome_bind].
  rewrite memcpy_ok by lia. cbn [mbind outcome_bind].
  assert (len (from_to l1 top (f1 - top)) = f1 - top) as Hlf by (apply len_from_to; lia).
  set (l2 := store l1 (top + (n1 + n2)) (from_to l1 top (f1 - top))).
  assert (forall k, 0 <= k -> at_ l2 k = if (top + (n1 + n2) <=? k) && (k <? f1 + (n1 + n2)) then at_ (aData p) (k - (n1 + n2))
    else if (f1 + n1 + n2 <=? k) && (k <? f2 + n2) then at_ (aData p) (k - n2) else at_ (aData p) k) as Hk2.
  { intros k ?. unfold l2. rewrite at_store, Hlf by lia. replace (top + (n1 + n2) + (f1 - top)) with (f1 + (n1 + n2)) by lia.
    destruct (_ && _) eqn:E; [|by apply Hk1]. zify_bool. rewrite at_from_to by lia. rewrite Hk1 by lia.
    destruct (_ && _) eqn:E'; [zify_bool; lia|]. f_equal. lia. }
  assert (forall k, 0 <= k < top -> at_ l2 k = at_ (aData p) k) as Hlow.
  { intros k ?. rewrite Hk2 by lia. destruct (_ && _) eqn:E; [zify_bool; lia|]. destruct (_ && (k <? f2 + n2)) eqn:E'; [zify_bool; lia|done]. }
  assert (len l2 = len (aData p)) as Hl2 by (unfold l2; rewrite len_store; lia).
  assert (bytes l2) as B2 by (apply bytes_store; auto using bytes_from_to; lia).
  destruct (shift_pointers_ok l2 (cellOffset p) f1 f2' (n1 + n2) n2 cells) as (l3 & Hr & Hp3 & Hl3 & B3 & Hk3); try done; try lia.
  { eapply pointed_frame; [done|]. intros; apply Hlow; lia. }
  { intros c Hc. destruct (cell_placed c Hc) as (? & ? & ? & Hp). lia. }
  rewrite In, Nat2Z.id, Hr. exists l3. split_and!; try done; try lia.
  - intros c' Hc'. apply list_elem_of_fmap in Hc' as (c & -> & Hc). intros j Hj. change (moved c).2 with c.2 in *.
    rewrite <- (Ib c Hc j Hj). destruct (cell_placed c Hc) as (? & ? & ? & Hp). rewrite Hk3 by lia. rewrite Hk2 by lia.
    destruct (_ && (_ <? f1 + _)) eqn:E; [zify_bool; f_equal; lia|]. apply andb_false_iff in E.
    destruct (_ && (_ <? f2 + n2)) eqn:E'; zify_bool; [f_equal; lia|]. apply andb_false_iff in E'.
    rewrite !Z.leb_gt, !Z.ltb_ge in *. f_equal. lia.
  - intros k ?. rewrite Hk3 by lia. apply Hlow. lia.
Qed.

End Quick.

(** The moves lead to a page in order. *)
Lemma quick_done p cells fl top f1 n1 f2 n2 f2' l1 : arranged p cells fl top -> nFree p = free_bytes p fl top ->
  top < f1 -> 4 <= n1 -> f1 + n1 <= f2 -> 0 <= n2 -> f2 + n2 <= usable -> total fl = n1 + n2 ->
  (forall k, f1 <= k < f1 + n1 \/ f2 <= k < f2 + n2 -> 1 <= cover fl k) -> (n2 = 0 -> f2 = f1 + n1) ->
  f2' = f2 \/ f2' = 0 /\ n2 = 0 -> len l1 = len (aData p) -> bytes l1 ->
  (forall k, 0 <= k -> at_ l1 k = if (f1 + n1 + n2 <=? k) && (k <? f2 + n2) then at_ (aData p) (k - n2) else at_ (aData p) k) ->
  exists data cbrk data' cells', defragment_move pBt p l1 f1 f2' (n1 + n2) n2 top = Ret (QuickDone data cbrk) /\
    defragment_out p data cbrk = Ret (SQLITE_OK, with_data p data') /\ cells'.*2 = cells.*2 /\
    arranged (with_data p data') cells' [] cbrk /\ at_ data' (hdrOffset p + 7) = at_ (aData p) (hdrOffset p + 7).
Proof.
  intros Har Hnf H1 H2 H3 H4 H5 H6 Hfl Hone Hf2' Hl1 B1 Hk1.
  destruct (defragment_move_ok p cells fl top f1 n1 f2 n2) with (f2' := f2') (l1 := l1)
    as (data & Hmv & Hld & Bd & Hp & Hb & Hlow); try done.
  pose proof (free_nonneg _ _ _ _ Har) as Hfn. pose proof Har as [Sh [Sc Ss St Sg Su Sd Sn] [If In Ist Ip Ib Io]].
  destruct (header_facts p Sh) as (Hh & Hco & _ & _ & Hul & Hu & _ & B). unfold free_bytes, iCellFirst in *.
  set (cells' := map (move f1 f2' (n1 + n2) n2) cells) in *.
  assert (cells'.*2 = cells.*2) as Hcs by (unfold cells'; rewrite <- list_fmap_compose; by apply list_fmap_ext).
  assert (at_ data (hdrOffset p + 7) = at_ (aData p) (hdrOffset p + 7)) as H7 by (apply Hlow; lia).
  destruct (defragment_out_ok p data (top + (n1 + n2)) cells') as (data' & Hout & Har' & H7'); try done.
  - apply Hlow. lia.
  - unfold iCellFirst. lia.
  - eapply within_moved; done.
  - intros k. unfold cells'. erewrite cover_moved by done. pose proof (Sd (back f1 n1 f2 n2 k)).
    pose proof (cover_nonneg fl (back f1 n1 f2 n2 k)). lia.
  - unfold cells'. by rewrite length_map.
  - rewrite (get2_frame (aData p)); [done|apply Hlow; lia..].
  - by rewrite Hcs.
  - unfold cells'. rewrite total_moved. lia.
  - lia.
  - unfold iCellFirst. lia.
  - exists data, (top + (n1 + n2)), data', cells'. split_and!; try done. congruence.
Qed.

Lemma defragment_quick_ok p cells fl top n : arranged p cells fl top -> nFree p = free_bytes p fl top ->
  defragment_quick pBt p n = Ret QuickNot \/
  exists data cbrk data' cells', defragment_quick pBt p n = Ret (QuickDone data cbrk) /\
    defragment_out p data cbrk = Ret (SQLITE_OK, with_data p data') /\ cells'.*2 = cells.*2 /\
    arranged (with_data p data') cells' [] cbrk /\ at_ data' (hdrOffset p + 7) <= n.
Proof.
  intros Har Hnf. pose proof Har as [Sh [Sc Ss St Sg Su Sd Sn] [If In Ist Ip Ib Io]].
  destruct (header_facts p Sh) as (Hh & Hco & _ & Hco' & Hul & Hu & _ & B). unfold iCellFirst in *.
  unfold defragment_quick. rewrite rd_ok by lia. cbn [mbind outcome_bind].
  destruct (Z.ltb_spec n (at_ (aData p) (hdrOffset p + 7))) as [|Hfr]; [by left|].
  rewrite (get2byte_ok _ (hdrOffset p + 1)), (chain_first _ _ _ Sc) by (done || lia). cbn [mbind outcome_bind].
  destruct fl as [|[f1 n1] fl]; simpl first_of.
  { rewrite (proj2 (Z.ltb_ge _ _)) by lia. by left. }
  simpl in Ss. destruct Ss as (Hf1 & Hn1 & Hn1' & Ss). apply chain_tail in Sc as [Hg1 Sc].
  rewrite (proj2 (Z.ltb_ge (usable - 4) f1)) by lia. rewrite (proj2 (Z.eqb_neq f1 0)) by lia.
  rewrite (get2byte_ok _ f1), (chain_first _ _ _ Sc) by (done || lia). cbn [mbind outcome_bind].
  destruct fl as [|[f2 n2] fl]; simpl first_of.
  - rewrite (proj2 (Z.ltb_ge (usable - 4) 0)) by lia. cbn [Z.eqb mbind outcome_bind negb].
    rewrite (get2byte_ok _ (f1 + 2)), Hg1 by (done || lia). cbn [mbind outcome_bind].
    rewrite (get2byte_ok _ (hdrOffset p + 5)), St, Z.mod_small by (done || lia). cbn [mbind outcome_bind].
    rewrite (proj2 (Z.leb_gt f1 top)) by lia. rewrite (proj2 (Z.ltb_ge usable (f1 + n1))) by lia.
    right. destruct (quick_done p cells [(f1, n1)] top f1 n1 (f1 + n1) 0 0 (aData p))
      as (data & cbrk & data' & cells' & Hmv & Hout & Hcs & Har' & H7); try done; try lia.
    { intros k Hk. simpl. rewrite hit_in by (simpl; lia). lia. }
    { intros k ?. destruct (_ && _) eqn:E; [zify_bool; lia|done]. }
    rewrite Z.add_0_r in Hmv. exists data, cbrk, data', cells'. split_and!; try done. lia.
  - simpl in Ss. destruct Ss as (Hf2 & Hn2 & Hn2' & Ss). apply chain_tail in Sc as [Hg2 Sc].
    rewrite (proj2 (Z.ltb_ge (usable - 4) f2)) by lia. rewrite (proj2 (Z.eqb_neq f2 0)) by lia.
    rewrite !rd_ok by lia. cbn [mbind outcome_bind]. pose proof (chain_first _ _ _ Sc) as Hg3. unfold get2 in Hg3.
    pose proof (B f2). pose proof (B (f2 + 1)). destruct (_ && _) eqn:E; cbn [negb]; [|by left]. zify_bool.
    destruct fl as [|[f3 n3] fl]; simpl first_of in Hg3; [|simpl in Ss; lia].
    rewrite (get2byte_ok _ (f1 + 2)), Hg1 by (done || lia). cbn [mbind outcome_bind].
    rewrite (get2byte_ok _ (hdrOffset p + 5)), St, Z.mod_small by (done || lia). cbn [mbind outcome_bind].
    rewrite (proj2 (Z.leb_gt f1 top)) by lia. rewrite (proj2 (Z.ltb_ge f2 (f1 + n1))) by lia.
    rewrite (get2byte_ok _ (f2 + 2)), Hg2 by (done || lia). cbn [mbind outcome_bind].
    rewrite (proj2 (Z.ltb_ge usable (f2 + n2))) by lia.
    rewrite memcpy_ok by lia. cbn [mbind outcome_bind]. right.
    assert (len (from_to (aData p) (f1 + n1) (f2 - (f1 + n1))) = f2 - (f1 + n1)) as Hlf by (apply len_from_to; lia).
    destruct (quick_done p cells [(f1, n1); (f2, n2)] top f1 n1 f2 n2 f2
      (store (aData p) (f1 + n1 + n2) (from_to (aData p) (f1 + n1) (f2 - (f1 + n1)))))
      as (data & cbrk & data' & cells' & Hmv & Hout & Hcs & Har' & H7); try done; try lia.
    { simpl. lia. }
    { intros k Hk. cbn [cover]. pose proof (hit_range (f1, n1) k). pose proof (hit_range (f2, n2) k).
      destruct Hk; [rewrite (hit_in (f1, n1)) by done|rewrite (hit_in (f2, n2)) by done]; lia. }
    { rewrite len_store; lia. }
    { apply bytes_store; auto using bytes_from_to; lia. }
    { intros k ?. rewrite at_store, Hlf by lia. replace (f1 + n1 + n2 + (f2 - (f1 + n1))) with (f2 + n2) by lia.
      destruct (_ && _) eqn:E; [|done]. zify_bool. rewrite at_from_to by lia. f_equal. lia. }
    exists data, cbrk, data', cells'. split_and!; try done. lia.
Qed.

(** Defragmentation keeps the cells and leaves no free block. *)
Lemma defragmentPage_ok p cells fl top n : arranged p cells fl top -> nFree p = free_bytes p fl top -> aOvfl p = [] ->
  exists data cells' top', defragmentPage CORRUPT_DB pBt p n = Ret (SQLITE_OK, with_data p data) /\
    cells'.*2 = cells.*2 /\ arranged (with_data p data) cells' [] top' /\ at_ data (hdrOffset p + 7) <= Z.max 0 n.
Proof.
  intros Har Hnf Ho. pose proof Har as [Sh _ [If In Ist _ _ _]].
  destruct (header_facts p Sh) as (Hh & Hco & _ & Hco' & Hul & Hu & Hu4 & B).
  unfold defragmentPage, nOverflow. rewrite Ho. rewrite assert_true by done. cbn [mbind outcome_bind].
  rewrite get2byte_ok, Ist by (done || lia). cbn [mbind outcome_bind].
  rewrite assert_true by (by rewrite Z.eqb_refl). cbn [mbind outcome_bind].
  destruct (defragment_quick_ok p cells fl top n Har Hnf)
    as [->|(data & cbrk & data' & cells' & -> & Hout & Hcs & Har' & H7)]; cbn [mbind outcome_bind].
  - destruct (defragment_slow_ok p cells fl top Har Hnf) as (data & cells' & top' & -> & Hcs & Har' & H7).
    exists data, cells', top'. split_and!; try done. lia.
  - rewrite Hout. exists data', cells', cbrk. split_and!; try done. lia.
Qed.

(** ** allocateSpace *)

Lemma free_bytes_eq p used fl top : space pBt p used fl top -> free_bytes p fl top = usable - iCellFirst p - total used.
Proof. intros [Sc Ss St Sg Su Sd Sn]. unfold free_bytes. lia. Qed.

Lemma total_bodies (cells cells' : list cell) : cells'.*2 = cells.*2 -> total (ivs cells') = total (ivs cells).
Proof.
  revert cells'. induction cells as [|[? c] cells IH]; intros [|[? c'] cells']; try done.
  intros [= -> Hcs]. simpl. by rewrite (IH cells').
Qed.

Lemma length_bodies (cells cells' : list cell) : cells'.*2 = cells.*2 -> length cells' = length cells.
Proof. intros Hcs. rewrite <- (length_fmap snd cells'), Hcs. apply length_fmap. Qed.

(** The index is not touched where the room changes. *)
Lemma index_keeps p data cells fl top used : shape pBt p -> space pBt p used fl top -> index p cells ->
  (forall k, 1 <= cover (ivs cells) k -> top <= k /\ 1 <= cover used k) ->
  keeps pBt p data used top -> index (with_data p data) cells.
Proof.
  intros Sh [Sc Ss St Sg Su Sd Sn] [If In Ist Ip Ib Io] Hc (Hl & B & Hk). unfold room_header in Hk.
  destruct (header_facts p Sh) as (Hh & Hco & Hn & _). unfold iCellFirst in *. split; simpl; try done.
  - apply decode_with_data. simpl. rewrite Hk by lia. done.
  - rewrite (get2_frame (aData p)); [done|apply Hk; lia..].
  - eapply pointed_frame; [done|]. intros; apply Hk; lia.
  - eapply bodies_frame; [done|]. intros k Hk1. destruct (Hc k Hk1). apply Hk; lia.
Qed.

Lemma cover_top used top k : Forall (within top usable) used -> 1 <= cover used k -> top <= k < usable.
Proof. intros Hw Hc. destruct (decide (top <= k < usable)); [done|]. rewrite (cover_out _ _ _ k Hw) in Hc; lia. Qed.

Lemma get2byteNotZero_ok l k top : bytes l -> 0 <= k -> k + 2 <= len l -> get2 l k = top mod 65536 -> 0 < top <= 65536 ->
  get2byteNotZero l k = Ret top.
Proof.
  intros B Hk Hl Hg Ht. unfold get2byteNotZero. rewrite get2byte_ok, Hg by done. cbn [mbind outcome_bind]. f_equal.
  change 65535 with (Z.ones 16). rewrite Z.land_ones by lia. change (2 ^ 16) with 65536.
  destruct (decide (top = 65536)) as [->|?]; [done|]. rewrite (Z.mod_small top), Z.mod_small by lia. lia.
Qed.

(** The last bytes of the gap become an interval in use. *)
Lemma gap_taken p used fl top n : shape pBt p -> space pBt p used fl top -> 4 <= n -> iCellFirst p + n <= top ->
  let data := put2 (aData p) (hdrOffset p + 5) (top - n) in
  space pBt (with_data p data) ((top - n, n) :: used) fl (top - n) /\ keeps pBt p data used top.
Proof.
  intros Sh Sp Hn Hg data. pose proof Sp as [Sc Ss St Sg Su Sd Sn].
  destruct (header_facts p Sh) as (Hh & Hco & Hnc & Hco' & Hul & Hu & Hu4 & B). unfold iCellFirst in *.
  assert (forall k, 0 <= k -> ~ (hdrOffset p + 5 <= k < hdrOffset p + 7) -> at_ data k = at_ (aData p) k) as Hk.
  { intros k ? ?. unfold data. rewrite at_put2 by lia. eqb_cases; lia || done. }
  split.
  - split; simpl.
    + apply (freelist_frame (aData p)); [done|]. intros k Hr. apply Hk; destruct Hr as [Hr|Hr].
      * destruct (reads_bounds (top + 1) usable (hdrOffset p + 1) fl k Ss ltac:(lia) Hr). lia.
      * destruct (link_cases _ _ (hdrOffset p + 1) fl Ss) as [[_ ?]|?]; lia.
      * destruct (reads_bounds (top + 1) usable (hdrOffset p + 1) fl k Ss ltac:(lia) Hr). lia.
      * destruct (link_cases _ _ (hdrOffset p + 1) fl Ss) as [[_ ?]|?]; lia.
    + eapply spaced_weaken, Ss. lia.
    + unfold data. by rewrite get2_put2 by lia.
    + unfold iCellFirst. simpl. lia.
    + constructor; [unfold within; simpl; lia|]. eapply Forall_impl; [exact Su|]. intros iv (? & ? & ?). unfold within. lia.
    + intros k. pose proof (Sd k). destruct (decide (k < top)).
      * rewrite (cover_out _ _ _ k Su), (cover_out _ _ _ k (spaced_within _ _ _ Ss)) by lia.
        pose proof (hit_range (top - n, n) k). lia.
      * rewrite hit_out by (simpl; lia). lia.
    + rewrite Hk by lia. lia.
  - split_and!; [unfold data; by rewrite len_put2 by lia|unfold data; apply bytes_put2; try done; lia|].
    intros k ? Hr _. unfold room_header in Hr. apply Hk; lia.
Qed.

(** What an allocation establishes: the cells keep their contents, and [n]
    bytes at [idx] are in use that were not. *)
Definition allocated (p : MemPage) (cells : list cell) (n idx : Z) (data : list Z) : Prop :=
  exists cells' fl' top', cells'.*2 = cells.*2 /\ shape pBt (with_data p data) /\
    space pBt (with_data p data) ((idx, n) :: ivs cells') fl' top' /\ index (with_data p data) cells' /\
    iCellFirst p + 2 <= top' /\ top' <= idx /\ idx + n <= usable.

Lemma allocate_gap_ok p cells fl top n : arranged p cells fl top -> nFree p = usable - iCellFirst p - total (ivs cells) ->
  aOvfl p = [] -> (cells = [] -> top = usable) -> 4 <= n -> n + 2 <= nFree p ->
  exists idx data, allocate_gap CORRUPT_DB pBt p n (iCellFirst p) top = Ret (SQLITE_OK, idx, with_data p data) /\
    allocated p cells n idx data.
Proof.
  intros Har Hnf Ho He Hn Hfit.
  assert (exists data cells' fl' top', allocate_defragment CORRUPT_DB pBt p n (iCellFirst p) top =
    Ret (SQLITE_OK, with_data p data, top') /\ cells'.*2 = cells.*2 /\
    arranged (with_data p data) cells' fl' top' /\ iCellFirst p + 2 + n <= top') as (data & cells' & fl' & top' & Hpre & Hcs & Har' & Hroom).
  { unfold allocate_defragment. destruct (Z.ltb_spec top (iCellFirst p + 2 + n)) as [Hlt|].
    2: { exists (aData p), cells, fl, top. destruct p. split_and!; done. }
    pose proof Har as [Sh Sp [_ In _ _ _ _]]. pose proof (free_bytes_eq _ _ _ _ Sp) as Hfb.
    rewrite (assert_true ((0 <? nCell p) || CORRUPT_DB)). 2: { destruct cells as [|c cells]; [|apply orb_true_iff; left; apply Z.ltb_lt; simpl in In; lia]. specialize (He eq_refl). simpl in *. lia. }
    cbn [mbind outcome_bind]. rewrite assert_true by (apply Z.leb_le; lia). cbn [mbind outcome_bind].
    destruct (defragmentPage_ok p cells fl top (Z.min 4 (nFree p - (2 + n))) Har ltac:(lia) Ho)
      as (data & cells' & top' & -> & Hcs & Har' & H7). cbn [mbind outcome_bind].
    pose proof Har' as [Sh' Sp' Ix']. pose proof Sp' as [_ _ St' Sg' _ _ Sn'].
    destruct (header_facts _ Sh') as (Hh & Hco & Hnc & Hco' & Hul & Hu & Hu4 & B). unfold iCellFirst in *. simpl in *.
    rewrite (total_bodies _ _ Hcs) in Sn'.
    rewrite (get2byteNotZero_ok _ _ top') by (done || lia). cbn [mbind outcome_bind].
    rewrite assert_true by (apply Z.leb_le; lia). exists data, cells', [], top'. split_and!; try done. lia. }
  unfold allocate_gap. rewrite Hpre. cbn [mbind outcome_bind]. change (negb (SQLITE_OK =? SQLITE_OK)) with false. cbn iota.
  pose proof Har' as [Sh' Sp' Ix']. pose proof Sp' as [_ _ St' Sg' _ _ Sn'].
  destruct (header_facts _ Sh') as (Hh & Hco & Hnc & Hco' & Hul & Hu & Hu4 & B).
  rewrite put2byte_ok by lia. cbn [mbind outcome_bind]. rewrite assert_true by (apply Z.leb_le; lia). cbn [mbind outcome_bind].
  destruct (gap_taken _ _ _ _ n Sh' Sp' Hn) as [Hsp Hkp]; [unfold iCellFirst in *; simpl in *; lia|].
  pose proof Hkp as (Hl2 & B2 & _).
  exists (top' - n). eexists. split; [reflexivity|]. exists cells', fl', (top' - n). split_and!; try done; try lia.
  - by apply (shape_data (with_data p data)).
  - apply (index_keeps _ _ _ _ _ _ Sh' Sp' Ix'); [|done]. intros k Hk. split; [|done].
    eapply cover_top; [apply Sp'|done].
Qed.

Lemma with_data_same p : with_data p (aData p) = p.
Proof. by destruct p. Qed.

(** A request that fits always succeeds. *)
Lemma allocateSpace_ok p cells fl top n : arranged p cells fl top -> nFree p = usable - iCellFirst p - total (ivs cells) ->
  aOvfl p = [] -> (cells = [] -> top = usable) -> 4 <= n -> n + 2 <= nFree p ->
  exists idx data, allocateSpace CORRUPT_DB pBt p n = Ret (SQLITE_OK, idx, with_data p data) /\ allocated p cells n idx data.
Proof.
  intros Har Hnf Ho He Hn Hfit. pose proof Har as [Sh Sp Ix]. pose proof Sp as [Sc Ss St Sg Su Sd Sn].
  destruct (header_facts _ Sh) as (Hh & Hco & Hnc & Hco' & Hul & Hu & Hu4 & B). pose proof (total_nonneg _ _ _ Su) as Htn.
  pose proof (sh_offset _ _ Sh) as Hoff. pose proof (sh_child _ _ Sh) as Hch.
  destruct (allocate_gap_ok p cells fl top n Har Hnf Ho He Hn Hfit) as (idx & data & Hgap & Hal).
  assert (cellOffset p + 2 * nCell p = iCellFirst p) as Hicf by done. unfold allocateSpace. rewrite Hicf.
  unfold iCellFirst in Hnf, Sg. rewrite (assert_true (0 <=? n)) by (apply Z.leb_le; lia). cbn [mbind outcome_bind].
  rewrite (assert_true (n <=? nFree p)) by (apply Z.leb_le; lia). cbn [mbind outcome_bind].
  rewrite (assert_true (nOverflow p =? 0)) by (unfold nOverflow; by rewrite Ho). cbn [mbind outcome_bind].
  rewrite (u32_id (usable - 8)), (i32_id (usable - 8)) by lia.
  rewrite (assert_true (n <? usable - 8)) by (apply Z.ltb_lt; lia). cbn [mbind outcome_bind].
  rewrite (assert_true (cellOffset p =? _)) by (apply Z.eqb_eq; destruct Hch as [[-> ?]|[-> ?]]; simpl; lia).
  cbn [mbind outcome_bind].
  rewrite (assert_true (iCellFirst p <=? 65536)) by (apply Z.leb_le; unfold iCellFirst; lia). cbn [mbind outcome_bind].
  rewrite get2byte_ok, St by (done || lia). cbn [mbind outcome_bind].
  assert ((if top mod 65536 <? iCellFirst p then (if (top mod 65536 =? 0) && (usable =? 65536) then Some 65536 else None)
     else if usable <? top mod 65536 then None else Some (top mod 65536)) = Some top) as ->.
  { unfold iCellFirst. destruct (decide (top = 65536)) as [->|?].
    - change (65536 mod 65536) with 0. rewrite (proj2 (Z.ltb_lt 0 _)) by lia. by rewrite (proj2 (Z.eqb_eq usable 65536)) by lia.
    - rewrite Z.mod_small by lia. rewrite (proj2 (Z.ltb_ge top _)), (proj2 (Z.ltb_ge usable top)) by lia. done. }
  rewrite !rd_ok by lia. cbn [mbind outcome_bind].
  pose proof (chain_first _ _ _ Sc) as Hf. unfold get2 in Hf. replace (hdrOffset p + 1 + 1) with (hdrOffset p + 2) in Hf by lia.
  destruct (_ && _) eqn:E; [|eauto]. zify_bool.
  assert (fl <> []) as Hne.
  { intros ->. simpl in Hf. pose proof (B (hdrOffset p + 1)). pose proof (B (hdrOffset p + 2)).
    apply orb_true_iff in H0. rewrite !negb_true_iff, !Z.eqb_neq in H0. lia. }
  destruct (pageFindSlot_ok pBt Hpar p (ivs cells) fl top n Sh Sp Hne ltac:(lia)) as ([q|] & d & Hr & Hs); rewrite Hr;
    cbn [mbind outcome_bind].
  - destruct Hs as (fl' & Hsp & Hkp & Hq1 & Hq2 & Hq3). rewrite assert_true by (apply Z.leb_le; lia). cbn [mbind outcome_bind].
    rewrite (proj2 (Z.leb_gt q (iCellFirst p))) by (unfold iCellFirst; lia). pose proof Hkp as (Hld & Bd & _).
    exists q, d. split; [done|]. exists cells, fl', top. split_and!; try done; try lia.
    + by apply shape_data.
    + apply (index_keeps _ _ _ _ _ _ Sh Sp Ix); [|done]. intros k Hk. split; [|done]. eapply cover_top; done.
  - subst d. rewrite with_data_same. change (negb (SQLITE_OK =? SQLITE_OK)) with false. eauto.
Qed.
End Defragment.
