(* ===== verification/PageList.v ===== *)
(** * B-tree pages as lists of cells

    Insertion and removal of cells, new pages and the loading of stored pages,
    on top of PageCells.v; [page_refines_list] puts them together. *)

From S2P Require Import Prelude Words Chars Page PageSpace PageCells.

(** ** Cell lists *)

Definition insert_at {A} (i : nat) (x : A) (l : list A) : list A := take i l ++ x :: drop i l.

Lemma insert_at_lookup {A} i (x : A) l j : (i <= length l)%nat ->
  insert_at i x l !! j = if decide (j < i)%nat then l !! j else if decide (j = i) then Some x else l !! (j - 1)%nat.
Proof.
  intros Hi. unfold insert_at. destruct (decide (j < i)%nat).
  - rewrite lookup_app_l by (rewrite length_take; lia). by rewrite lookup_take_lt.
  - rewrite lookup_app_r by (rewrite length_take; lia). rewrite length_take, Nat.min_l by lia.
    destruct (decide (j = i)) as [->|]; [by rewrite Nat.sub_diag|].
    destruct (j - i)%nat as [|m] eqn:E; [lia|]. simpl. rewrite lookup_drop. f_equal. lia.
Qed.

Lemma length_insert_at {A} i (x : A) l : (i <= length l)%nat -> length (insert_at i x l) = S (length l).
Proof. intros. unfold insert_at. rewrite length_app, length_take. simpl. rewrite length_drop. lia. Qed.

Lemma insert_at_perm {A} i (x : A) l : insert_at i x l ≡ₚ x :: l.
Proof. unfold insert_at. rewrite <- Permutation_middle, take_drop. done. Qed.

Lemma fmap_insert_at {A B} (f : A -> B) i x l : f <$> insert_at i x l = insert_at i (f x) (f <$> l).
Proof. unfold insert_at. by rewrite fmap_app, fmap_cons, fmap_take, fmap_drop. Qed.

Lemma ivs_perm cells cells' : cells ≡ₚ cells' -> ivs cells ≡ₚ ivs cells'.
Proof. intros Hp. unfold ivs. by apply fmap_Permutation. Qed.

Lemma total_ge a b l : Forall (within a b) l -> 4 * Z.of_nat (length l) <= total l.
Proof. induction 1 as [|iv l (? & ? & ?) ? IH]; simpl; lia. Qed.

(** Bytes the cells take with their pointers. *)
Fixpoint cell_bytes (cs : list (list Z)) : Z :=
  match cs with [] => 0 | c :: cs => 2 + len c + cell_bytes cs end.

#[export] Instance cell_bytes_proper : Proper (Permutation ==> eq) cell_bytes.
Proof. intros a b Hab. induction Hab; simpl; lia. Qed.

Section Cells.
Context `{Build}.
Variable CORRUPT_DB : bool.
Variable pBt : BtShared.
Hypothesis Hpar : params_ok pBt.
Abbreviation usable := (usableSize pBt).

(** [p] holds the cells [cs] and nothing else. *)
Record holds (p : MemPage) (cs : list (list Z)) : Prop := {
  ho_init : isInit p = true;
  ho_ovfl : aOvfl p = [];
  ho_free : nFree p = usable - cellOffset p - cell_bytes cs;
  ho_cells : exists cells fl top, arranged pBt p cells fl top /\ cells.*2 = cs /\ (cells = [] -> top = usable)
}.

Lemma cell_bytes_total cells : cell_bytes cells.*2 = 2 * Z.of_nat (length cells) + total (ivs cells).
Proof.
  induction cells as [|[pc c] cells IH]; [done|]. rewrite fmap_cons. simpl in *. lia.
Qed.

(** ** The index of a new cell *)

Lemma increment_count_ok l hdr : bytes l -> 0 <= hdr -> hdr + 5 <= len l -> get2 l (hdr + 3) + 1 < 65536 ->
  exists l', increment_count l hdr = Ret l' /\
    get2 l' (hdr + 3) = get2 l (hdr + 3) + 1 /\ len l' = len l /\ bytes l' /\
    (forall j, 0 <= j -> ~ (hdr + 3 <= j < hdr + 5) -> at_ l' j = at_ l j).
Proof.
  intros B Hk Hl Hg. unfold get2, increment_count in *. assert (hdr + 3 + 1 = hdr + 4) as E34 by lia. rewrite !E34 in *.
  pose proof (B (hdr + 3)). pose proof (B (hdr + 4)).
  rewrite rd_ok by lia. cbn [mbind outcome_bind]. rewrite wr_ok by lia. cbn [mbind outcome_bind].
  assert (forall m v w, 0 <= m < len l -> len w = len l -> len (store w m [v]) = len l) as Hls.
  { intros. rewrite len_store; change (len [_]) with 1; lia. }
  rewrite (rd_ok _ (hdr + 4)) by (rewrite ?Hls; lia). cbn [mbind outcome_bind].
  rewrite (at_store_one l (hdr + 4) _ (hdr + 4)), Z.eqb_refl by lia.
  assert (bytes (store l (hdr + 4) [uchar (at_ l (hdr + 4) + 1)])) as B1.
  { apply bytes_store; change (len [_]) with 1; auto using bytes_one; lia. }
  destruct (Z.eqb_spec (uchar (at_ l (hdr + 4) + 1)) 0) as [Hz|Hz]; unfold uchar in Hz.
  - rewrite rd_ok by (rewrite ?Hls; lia). cbn [mbind outcome_bind]. rewrite wr_ok by (rewrite ?Hls; lia).
    eexists. split; [done|]. split_and!.
    + rewrite !at_store_one by (rewrite ?Hls; lia). eqb_cases; try lia. unfold uchar.
      assert (at_ l (hdr + 4) = 255) as E255.
      { destruct (decide (at_ l (hdr + 4) = 255)); [done|]. rewrite Z.mod_small in Hz by lia. lia. }
      rewrite E255 in *. rewrite (Z.mod_small (at_ l (hdr + 3) + 1)) by lia. change ((255 + 1) mod 256) with 0. lia.
    + rewrite !Hls; rewrite ?Hls; lia.
    + apply bytes_store; rewrite ?Hls; change (len [_]) with 1; auto using bytes_one; lia.
    + intros j ? ?. rewrite !at_store_one by (rewrite ?Hls; lia). eqb_cases; lia || done.
  - eexists. split; [done|]. split_and!; [|rewrite Hls; lia|done|].
    + rewrite !at_store_one by lia. eqb_cases; try lia. unfold uchar. rewrite Z.mod_small; [lia|].
      destruct (decide (at_ l (hdr + 4) = 255)) as [E255|]; [|lia]. rewrite E255 in Hz. by destruct Hz.
    + intros j ? ?. rewrite at_store_one by lia. eqb_cases; lia || done.
Qed.

(** A page whose count is as before plus [d], for the facts that do not change. *)
Lemma shape_counts p x n : shape pBt p -> 0 <= n -> shape pBt (with_counts p x n).
Proof. intros [] Hn. by split. Qed.

Lemma cells_fit p used fl top : shape pBt p -> space pBt p used fl top -> 4 * Z.of_nat (length used) <= usable - top.
Proof.
  intros Sh [Sc Ss St Sg Su Sd Sn]. pose proof (total_ge _ _ _ Su). pose proof (sh_bytes _ _ Sh (hdrOffset p + 7)).
  pose proof (total_nonneg _ _ _ (spaced_within _ _ _ Ss)). lia.
Qed.

Lemma length_ivs cells : length (ivs cells) = length cells.
Proof. apply length_map. Qed.

Lemma insert_pointer_ok p i idx c cells fl top : shape pBt p -> space pBt p ((idx, len c) :: ivs cells) fl top ->
  index pBt p cells -> iCellFirst p + 2 <= top -> cell_ok pBt p c ->
  (forall j, 0 <= j < len c -> at_ (aData p) (idx + j) = at_ c j) -> (i <= length cells)%nat ->
  exists data, insert_pointer CORRUPT_DB p (Z.of_nat i) idx = Ret (with_counts (with_data p data) (nFree p) (nCell p + 1)) /\
    arranged pBt (with_counts (with_data p data) (nFree p) (nCell p + 1)) (insert_at i (idx, c) cells) fl top.
Proof.
  intros Sh Sp [If In Ist Ip Ib Io] Hroom Hc Hbody Hi. pose proof (cells_fit _ _ _ _ Sh Sp) as Hfit. simpl in Hfit.
  rewrite length_ivs in Hfit. pose proof Sp as [Sc Ss St Sg Su Sd Sn].
  destruct (header_facts pBt Hpar p Sh) as (Hh & Hco & Hnc & Hco' & Hul & Hu & Hu4 & B). unfold iCellFirst in *.
  pose proof (proj1 (Forall_cons _ _ _) Su) as [(Hidx & Hlc & Hidx') _]. simpl in Hidx, Hlc, Hidx'.
  set (pIns := cellOffset p + Z.of_nat i * 2). set (n := 2 * (nCell p - Z.of_nat i)).
  assert (0 <= n /\ 0 <= pIns /\ pIns + 2 + n <= top) as (Hn & Hpi & Hpn) by lia.
  unfold insert_pointer. fold pIns. fold n. rewrite memcpy_ok by lia. cbn [mbind outcome_bind].
  set (d1 := store (aData p) (pIns + 2) (from_to (aData p) pIns n)).
  assert (len (from_to (aData p) pIns n) = n) as Hlf by (apply len_from_to; lia).
  assert (len d1 = len (aData p)) as Hl1 by (unfold d1; rewrite len_store; lia).
  rewrite put2byte_ok by lia. cbn [mbind outcome_bind].
  set (d2 := put2 d1 pIns idx).
  assert (len d2 = len (aData p)) as Hl2 by (unfold d2; rewrite len_put2; lia).
  assert (bytes d2) as B2.
  { apply bytes_put2; try lia. apply bytes_store; auto using bytes_from_to; lia. }
  assert (forall k, 0 <= k -> ~ (pIns <= k < pIns + 2 + n) -> at_ d2 k = at_ (aData p) k) as Hk2.
  { intros k ? ?. unfold d2. rewrite at_put2 by lia. eqb_cases; try lia. unfold d1. rewrite at_store by lia.
    destruct (_ && _) eqn:E; [zify_bool; lia|done]. }
  assert (forall k, pIns + 2 <= k < pIns + 2 + n -> at_ d2 k = at_ (aData p) (k - 2)) as Hk3.
  { intros k ?. unfold d2. rewrite at_put2 by lia. eqb_cases; try lia. unfold d1. rewrite at_store by lia.
    rewrite Hlf, (proj2 (Z.leb_le _ _)), (proj2 (Z.ltb_lt _ _)) by lia. simpl. rewrite at_from_to by lia. f_equal. lia. }
  assert (get2 d2 pIns = idx) as Hgi by (unfold d2; rewrite get2_put2 by lia; apply Z.mod_small; lia).
  assert (u16 (nCell p + 1) = nCell p + 1) as -> by (unfold u16; apply Z.mod_small; lia).
  assert (get2 d2 (hdrOffset p + 3) = nCell p) as Hg3 by (rewrite (get2_frame (aData p)); [done|apply Hk2; lia..]).
  destruct (increment_count_ok d2 (hdrOffset p)) as (d & Hb & Hgd & Hld & Bd & Hkd); try done; try lia.
  cbn [hdrOffset with_counts nCell]. rewrite Hb. cbn [mbind outcome_bind]. rewrite get2byte_ok by (done || lia).
  cbn [mbind outcome_bind]. rewrite assert_true by (rewrite Hgd, Hg3, Z.eqb_refl; done). cbn [mbind outcome_bind].
  exists d. split; [done|].
  assert (forall k, 0 <= k -> ~ (pIns <= k < pIns + 2 + n) -> ~ (hdrOffset p + 3 <= k < hdrOffset p + 5) ->
    at_ d k = at_ (aData p) k) as Hk by (intros; rewrite Hkd, Hk2 by done; done).
  assert (forall k, top <= k -> at_ d k = at_ (aData p) k) as Hkt by (intros; apply Hk; lia).
  split.
  - apply (shape_counts (with_data p d)); [apply shape_data; done || lia|lia].
  - split; simpl; try done.
    + apply (freelist_frame (aData p)); [done|]. intros k Hr. apply Hk; destruct Hr as [Hr|Hr].
      all: try (destruct (reads_bounds (top + 1) usable (hdrOffset p + 1) fl k Ss ltac:(lia) Hr); lia).
      all: destruct (link_cases _ _ (hdrOffset p + 1) fl Ss) as [[_ ?]|?]; lia.
    + rewrite (get2_frame (aData p)); [done|apply Hk; lia..].
    + unfold iCellFirst. simpl. lia.
    + by rewrite (ivs_perm _ _ (insert_at_perm _ _ _)).
    + intros k. rewrite (ivs_perm _ _ (insert_at_perm _ _ _)). apply Sd.
    + rewrite (ivs_perm _ _ (insert_at_perm _ _ _)). rewrite Hk by lia. apply Sn.
  - split; simpl.
    + apply decode_with_counts, decode_with_data. simpl. rewrite Hk by lia. done.
    + rewrite length_insert_at by done. lia.
    + lia.
    + intros j c' Hj. rewrite insert_at_lookup in Hj by done. repeat case_decide.
      * rewrite <- (Ip j c' Hj). apply get2_frame; apply Hk; lia.
      * injection Hj as <-. subst j. simpl. rewrite <- Hgi. rewrite (get2_frame d2); [f_equal; lia|apply Hkd; lia..].
      * pose proof (lookup_lt_Some _ _ _ Hj). rewrite <- (Ip _ c' Hj). unfold get2. f_equal; [f_equal|].
        -- rewrite Hkd, Hk3 by lia. f_equal. lia.
        -- rewrite Hkd, Hk3 by lia. f_equal. lia.
    + intros c' Hc' j Hj. rewrite insert_at_perm in Hc'. rewrite Hkt.
      * apply elem_of_cons in Hc' as [->|Hc']; [by apply Hbody|by apply Ib].
      * apply elem_of_cons in Hc' as [->|Hc']; simpl; [lia|].
        pose proof (proj1 (Forall_forall _ _) Su (c'.1, len c'.2)) as (? & _); [|simpl in *; lia].
        apply elem_of_cons. right. by apply ivs_in.
    + rewrite fmap_insert_at, insert_at_perm. simpl. constructor.
      * eapply cell_ok_kind; [|exact Hc]. by split_and!.
      * eapply Forall_impl; [exact Io|]. intros c' Hc'. eapply cell_ok_kind; [|exact Hc']. by split_and!.
Qed.

(** ** Insertion *)

(** Writing into the interval that was allocated. *)
Lemma fill_ok p idx n cells fl top data : shape pBt p -> space pBt p ((idx, n) :: ivs cells) fl top -> index pBt p cells ->
  len data = len (aData p) -> bytes data -> (forall k, 0 <= k -> ~ (idx <= k < idx + n) -> at_ data k = at_ (aData p) k) ->
  shape pBt (with_data p data) /\ space pBt (with_data p data) ((idx, n) :: ivs cells) fl top /\ index pBt (with_data p data) cells.
Proof.
  intros Sh Sp [If In Ist Ip Ib Io] Hl B Hk. pose proof Sp as [Sc Ss St Sg Su Sd Sn].
  destruct (header_facts pBt Hpar p Sh) as (Hh & Hco & Hnc & Hco' & Hul & Hu & Hu4 & Bp). unfold iCellFirst in *.
  pose proof (proj1 (Forall_cons _ _ _) Su) as [(Hidx & Hn & Hidx') Su']. simpl in Hidx, Hn, Hidx'.
  assert (forall k, idx <= k < idx + n -> cover fl k = 0 /\ cover (ivs cells) k = 0) as Hfree.
  { intros k Hin. pose proof (Sd k) as Hd. cbn [cover] in Hd. rewrite hit_in in Hd by done.
    pose proof (cover_nonneg fl k). pose proof (cover_nonneg (ivs cells) k). lia. }
  split_and!; [by apply shape_data|split; simpl; try done|split; simpl; try done].
  - apply (freelist_frame (aData p)); [done|]. intros k Hr.
    assert (hdrOffset p + 1 <= k < hdrOffset p + 3 \/ 1 <= cover fl k /\ top <= k) as Hb.
    { destruct Hr as [Hr|Hr].
      - destruct (reads_bounds (top + 1) usable (hdrOffset p + 1) fl k Ss ltac:(lia) Hr); lia.
      - destruct (link_cases _ _ (hdrOffset p + 1) fl Ss) as [[_ ?]|(? & ? & Hc)]; [lia|]. pose proof (Hc k). lia. }
    apply Hk; [lia|]. intros Hin. destruct (Hfree k Hin). lia.
  - rewrite (get2_frame (aData p)); [done|apply Hk; lia..].
  - rewrite Hk by lia. done.
  - apply decode_with_data. simpl. rewrite Hk by lia. done.
  - rewrite (get2_frame (aData p)); [done|apply Hk; lia..].
  - eapply pointed_frame; [done|]. intros; apply Hk; lia.
  - eapply bodies_frame; [done|]. intros k Hc. apply Hk; [apply (cover_top pBt _ _ k Su') in Hc; lia|].
    intros Hin. destruct (Hfree k Hin). lia.
Qed.

Lemma insert_asserts_ok p cs i c : holds p cs -> cell_ok pBt p c -> 0 <= i <= Z.of_nat (length cs) ->
  insert_asserts CORRUPT_DB pBt p i c (len c) = Ret tt.
Proof.
  intros [Hin Hov Hfree (cells & fl & top & [Sh Sp [If In Ist Ip Ib Io]] & Hcs & He)] (Hsz & _) Hi.
  pose proof (page_bounds _ Hpar). pose proof (cells_fit _ _ _ _ Sh Sp) as Hfit. rewrite length_ivs in Hfit.
  pose proof Sp as [Sc Ss St Sg Su Sd Sn]. pose proof (total_nonneg _ _ _ (spaced_within _ _ _ Ss)).
  pose proof (sh_bytes _ _ Sh (hdrOffset p + 7)).
  destruct (header_facts pBt Hpar p Sh) as (Hh & Hco & Hnc & Hco' & Hul & Hu & Hu4 & Bp).
  subst cs. rewrite cell_bytes_total in Hfree. rewrite length_fmap in Hi. unfold iCellFirst in *.
  unfold insert_asserts, MX_CELL, nOverflow. rewrite Hov.
  assert ((pageSize pBt - 8) / 6 <= 10921) by (apply Z.lt_succ_r, Z.div_lt_upper_bound; lia).
  assert (nCell p <= (pageSize pBt - 8) / 6) by (apply Z.div_le_lower_bound; lia).
  rewrite (assert_true (_ && _)) by (rewrite andb_true_iff, !Z.leb_le; simpl; lia). cbn [mbind outcome_bind].
  rewrite (assert_true (_ <=? 10921)) by (by apply Z.leb_le). cbn [mbind outcome_bind].
  rewrite (assert_true (_ || _)) by (apply orb_true_iff; left; by apply Z.leb_le). cbn [mbind outcome_bind].
  rewrite (assert_true (_ <=? 4)) by done. cbn [mbind outcome_bind].
  rewrite (assert_true (0 <=? nFree p)) by (apply Z.leb_le; lia). destruct NDEBUG; [done|]. rewrite Hsz. simpl.
  by rewrite assert_true by (by rewrite Z.eqb_refl).
Qed.

Lemma holds_counts p f n : same_kind p (with_counts p f n).
Proof. by split_and!. Qed.

Lemma index_free p f cells : index pBt p cells -> index pBt (with_counts p f (nCell p)) cells.
Proof.
  intros [If In Ist Ip Ib Io]. split; simpl; try done. by apply decode_with_counts.
Qed.

Lemma space_free p f used fl top : space pBt p used fl top -> space pBt (with_counts p f (nCell p)) used fl top.
Proof. intros []. by split. Qed.

(** What both insertions do when the cell fits; [data] is the page after the
    content has been written. *)
Lemma insert_fits p cs i c : holds p cs -> cell_ok pBt p c -> (i <= length cs)%nat -> len c + 2 <= nFree p ->
  exists idx d, allocateSpace CORRUPT_DB pBt p (len c) = Ret (SQLITE_OK, idx, with_data p d) /\
    0 <= idx /\ cellOffset p + 2 * nCell p + 2 <= idx /\ idx + len c <= usable /\ len d = len (aData p) /\ bytes d /\
    forall data c', len data = len d -> bytes data -> cell_ok pBt p c' -> len c' = len c ->
    (forall k, 0 <= k -> ~ (idx <= k < idx + len c) -> at_ data k = at_ d k) ->
    (forall j, 0 <= j < len c -> at_ data (idx + j) = at_ c' j) ->
    exists p', insert_pointer CORRUPT_DB (with_data (with_counts (with_data p d) (nFree p - u16 (2 + len c)) (nCell p)) data)
      (Z.of_nat i) idx = Ret p' /\ holds p' (insert_at i c' cs) /\ same_kind p p'.
Proof.
  intros Hho Hc Hi Hfit. pose proof Hho as [Hin Hov Hfree (cells & fl & top & Har & Hcs & He)].
  pose proof Har as [Sh Sp Ix]. pose proof Hc as (_ & Hc4 & _). subst cs. rewrite cell_bytes_total in Hfree.
  rewrite length_fmap in Hi. pose proof (ix_count _ _ _ Ix) as In.
  destruct (allocateSpace_ok CORRUPT_DB pBt Hpar p cells fl top (len c)) as (idx & d & Hal & cells' & fl' & top' & Hcs & Sh' & Sp' & Ix' & Hroom & Hidx & Hend);
    try done.
  { unfold iCellFirst. lia. }
  destruct (header_facts pBt Hpar p Sh) as (Hh & Hco & Hnc & Hco' & Hul & Hu & Hu4 & Bp). unfold iCellFirst in *.
  exists idx, d. split_and!; try done; try lia; [by rewrite (sh_len _ _ Sh), <- (sh_len _ _ Sh')|apply Sh'|].
  intros data c' Hl B Hok' Hlen Hk Hbody.
  assert (u16 (2 + len c) = 2 + len c) as -> by (unfold u16; apply Z.mod_small; lia).
  set (q := with_counts (with_data p d) (nFree p - (2 + len c)) (nCell p)).
  destruct (fill_ok q idx (len c) cells' fl' top' data) as (Sh2 & Sp2 & Ix2); try done.
  { by apply shape_counts. } { by apply (space_free (with_data p d)). } { by apply (index_free (with_data p d)). }
  rewrite <- Hlen in Sp2.
  destruct (insert_pointer_ok (with_data q data) i idx c' cells' fl' top' Sh2 Sp2 Ix2) as (d' & Hr & Har'); try done.
  { by rewrite Hlen. } { by rewrite (length_bodies _ _ Hcs). }
  eexists. split; [exact Hr|]. split; [|by split_and!]. split; simpl; try done.
  - rewrite insert_at_perm. simpl. rewrite cell_bytes_total. lia.
  - exists (insert_at i (idx, c') cells'), fl', top'. split_and!; [exact Har'| |].
    + by rewrite fmap_insert_at, Hcs.
    + intros Hn. assert (length (insert_at i (idx, c') cells') = 0%nat) as Hz by (by rewrite Hn).
      rewrite length_insert_at in Hz; [done|]. by rewrite (length_bodies _ _ Hcs).
Qed.

(** A cell that fits is inserted; one that does not is noted. *)
Lemma insertCellFast_ok map p cs i c : holds p cs -> cell_ok pBt p c -> (i <= length cs)%nat ->
  if len c + 2 <=? nFree p then
    exists p', insertCellFast CORRUPT_DB pBt SQLITE_OK map p (Z.of_nat i) c (len c) =
      Ret (match map with Some rc => rc | None => SQLITE_OK end, p') /\ holds p' (insert_at i c cs) /\ same_kind p p'
  else insertCellFast CORRUPT_DB pBt SQLITE_OK map p (Z.of_nat i) c (len c) = Ret (SQLITE_OK, with_ovfl p [(Z.of_nat i, c)]).
Proof.
  intros Hho Hc Hi. unfold insertCellFast. rewrite (insert_asserts_ok p cs) by (done || lia). cbn [mbind outcome_bind].
  pose proof (ho_ovfl _ _ Hho) as Hov. unfold nOverflow. rewrite Hov. rewrite assert_true by done. cbn [mbind outcome_bind].
  destruct (Z.leb_spec (len c + 2) (nFree p)) as [Hfit|Hfit].
  - rewrite (proj2 (Z.ltb_ge (nFree p) (len c + 2))) by lia. change (negb (SQLITE_OK =? SQLITE_OK)) with false. cbn iota.
    destruct (insert_fits p cs i c Hho Hc Hi Hfit) as (idx & d & Hal & H0 & H1 & H2 & Hld & Bd & Hins).
    rewrite Hal. cbn [mbind outcome_bind]. change (negb (SQLITE_OK =? SQLITE_OK)) with false. cbn iota.
    rewrite (assert_true (0 <=? idx)) by (by apply Z.leb_le). cbn [mbind outcome_bind].
    rewrite (assert_true (_ || _)) by (apply orb_true_iff; left; by apply Z.leb_le). cbn [mbind outcome_bind].
    rewrite (assert_true (idx + len c <=? usable)) by (by apply Z.leb_le). cbn [mbind outcome_bind].
    pose proof Hc as (_ & Hc4 & Bc & _). destruct Hho as [_ _ _ (cells & fl & top & [Sh _ _] & _)].
    destruct (header_facts pBt Hpar p Sh) as (Hh & Hco & Hnc & Hco' & Hul & Hu & Hu4 & Bp).
    cbn [aData with_counts with_data nFree nCell]. rewrite memcpy_ok by lia. cbn [mbind outcome_bind].
    assert (len (from_to c 0 (len c)) = len c) as Hlf by (apply len_from_to; lia).
    destruct (Hins (store d idx (from_to c 0 (len c))) c) as (p' & Hr & Hp'); try done.
    + rewrite len_store; lia.
    + apply bytes_store; auto using bytes_from_to; lia.
    + intros k ? ?. rewrite at_store, Hlf by lia. destruct (_ && _) eqn:E; [zify_bool; lia|done].
    + intros j ?. rewrite at_store, Hlf by lia. rewrite (proj2 (Z.leb_le _ _)), (proj2 (Z.ltb_lt _ _)) by lia. simpl.
      rewrite at_from_to by lia. f_equal. lia.
    + rewrite Hr. eauto.
  - rewrite (proj2 (Z.ltb_lt (nFree p) (len c + 2))) by lia. unfold add_overflow, nOverflow. rewrite Hov. simpl.
    rewrite !assert_true by done. simpl. destruct Hho as [_ _ Hfree (cells & fl & top & [Sh Sp Ix] & <- & _)].
    pose proof (cells_fit _ _ _ _ Sh Sp) as Hf. rewrite length_ivs in Hf. rewrite length_fmap in Hi.
    destruct (header_facts pBt Hpar p Sh) as (Hh & Hco & Hnc & Hco' & Hul & Hu & Hu4 & Bp).
    destruct Sp as [_ _ _ Sg _ _ _]. unfold iCellFirst in Sg.
    unfold u16. rewrite Z.mod_small by lia. unfold len. rewrite Nat2Z.id, take_ge by lia. done.
Qed.

(** ** Cells of interior pages *)

(** The size of a cell of an interior page does not depend on the number of
    the child in its first four bytes. *)
Section Behind.
Variables (l l' : list Z).
Hypothesis Hll : forall k, 4 <= k -> rd l' k = rd l k.

Lemma size_loop_behind fuel i e n : 4 <= i -> size_loop fuel l' i e n = size_loop fuel l i e n.
Proof.
  revert i n. induction fuel as [|fuel IH]; intros i n Hi; [done|]. simpl. rewrite Hll by lia.
  destruct (rd l (i + 1)); try done. simpl. destruct (_ && _); [apply IH; lia|done].
Qed.

Lemma skip_varint_behind fuel i e : 4 <= i -> skip_varint fuel l' i e = skip_varint fuel l i e.
Proof.
  revert i. induction fuel as [|fuel IH]; intros i Hi; [done|]. simpl. rewrite Hll by lia.
  destruct (rd l i); try done. simpl. destruct (_ && _); [apply IH; lia|done].
Qed.

Lemma payload_size_behind i : 4 <= i -> payload_size l' i = payload_size l i.
Proof.
  intros Hi. unfold payload_size. rewrite Hll by lia. destruct (rd l i); try done. cbn [mbind outcome_bind].
  by rewrite size_loop_behind by lia.
Qed.

Lemma xCellSize_behind p : kind_ok pBt p -> leaf p = false -> call_xCellSize pBt p l' = call_xCellSize pBt p l.
Proof.
  intros Hk Hleaf. assert (xCellSize p = m_cellSizePtr \/ xCellSize p = m_cellSizePtrNoPayload) as Hx.
  { unfold kind_ok, decodeFlags in Hk. repeat case_match; injection Hk as Hk; try done; rewrite <- Hk in Hleaf |- *; simpl in *; auto; done. }
  unfold call_xCellSize. destruct Hx as [-> | ->]; [unfold cellSizePtr|unfold cellSizePtrNoPayload].
  - by rewrite payload_size_behind by lia.
  - by rewrite skip_varint_behind by lia.
Qed.
End Behind.

Definition put4 (l : list Z) (k v : Z) : list Z :=
  store (store (store (store l k [uchar (Z.shiftr v 24)]) (k + 1) [uchar (Z.shiftr v 16)]) (k + 2) [uchar (Z.shiftr v 8)]) (k + 3) [uchar v].

Lemma len_store_one l k v : 0 <= k -> k < len l -> len (store l k [uchar v]) = len l.
Proof. intros. rewrite len_store; change (len [_]) with 1; lia. Qed.

(** The lengths of the four buffers in between. *)
Ltac four_stores l k v :=
  let l1 := fresh "l1" in let l2 := fresh "l2" in let l3 := fresh "l3" in
  set (l1 := store l k [uchar (Z.shiftr v 24)]) in *;
  set (l2 := store l1 (k + 1) [uchar (Z.shiftr v 16)]) in *;
  set (l3 := store l2 (k + 2) [uchar (Z.shiftr v 8)]) in *;
  assert (len l1 = len l) by (apply len_store_one; lia);
  assert (len l2 = len l) by (subst l2; rewrite len_store_one; lia);
  assert (len l3 = len l) by (subst l3; rewrite len_store_one; lia).

Lemma len_put4 l k v : 0 <= k -> k + 4 <= len l -> len (put4 l k v) = len l.
Proof. intros. unfold put4. four_stores l k v. rewrite len_store_one; lia. Qed.

Lemma put4byte_ok l k v : 0 <= k -> k + 4 <= len l -> sqlite3Put4byte l k v = Ret (put4 l k v).
Proof.
  intros. unfold put4. four_stores l k v. unfold sqlite3Put4byte.
  rewrite wr_ok by lia. fold l1. cbn [mbind outcome_bind]. rewrite wr_ok by lia. fold l2. cbn [mbind outcome_bind].
  rewrite wr_ok by lia. fold l3. cbn [mbind outcome_bind]. by rewrite wr_ok by lia.
Qed.

Lemma at_put4 l k v j : 0 <= k -> k + 4 <= len l -> 0 <= j ->
  at_ (put4 l k v) j = if (k <=? j) && (j <? k + 4) then uchar (Z.shiftr v (24 - 8 * (j - k))) else at_ l j.
Proof.
  intros. unfold put4. four_stores l k v. rewrite at_store_one by lia. subst l3. rewrite at_store_one by lia.
  subst l2. rewrite at_store_one by lia. subst l1. rewrite at_store_one by lia.
  destruct (_ && _) eqn:E; zify_bool; eqb_cases; try lia.
  - by replace (24 - _) with 0 by lia.
  - by replace (24 - _) with 8 by lia.
  - by replace (24 - _) with 16 by lia.
  - by replace (24 - _) with 24 by lia.
Qed.

Lemma bytes_put4 l k v : 0 <= k -> k + 4 <= len l -> bytes l -> bytes (put4 l k v).
Proof.
  intros Hk Hl B j. destruct (Z_lt_le_dec j 0); [rewrite at_neg by done|].
  all: rewrite at_put4 by lia; destruct (_ && _); auto using uchar_bytes.
Qed.

Lemma cell_ok_child p c child : kind_ok pBt p -> leaf p = false -> cell_ok pBt p c -> cell_ok pBt p (put4 c 0 child).
Proof.
  intros Hk Hl (Hs & H4 & B & H5). unfold cell_ok. rewrite len_put4 by lia. split_and!; try done; [|apply bytes_put4; done || lia].
  rewrite <- Hs. apply xCellSize_behind; try done. intros k Hk4. unfold rd, inside. rewrite len_put4 by lia.
  destruct (_ && _); [|done]. rewrite at_put4 by lia. by rewrite (proj2 (Z.ltb_ge k (0 + 4))), andb_false_r by lia.
Qed.

(** What [insertCell] does with the cell of a divider: it gets the number of
    the child, wherever it goes. *)
Lemma insertCell_ok map p cs i c child : holds p cs -> leaf p = false -> cell_ok pBt p c -> (i <= length cs)%nat -> 0 < child ->
  if len c + 2 <=? nFree p then
    exists p', insertCell CORRUPT_DB pBt SQLITE_OK map p (Z.of_nat i) c (len c) child =
      Ret (match map with Some rc => rc | None => SQLITE_OK end, p') /\ holds p' (insert_at i (put4 c 0 child) cs) /\ same_kind p p'
  else insertCell CORRUPT_DB pBt SQLITE_OK map p (Z.of_nat i) c (len c) child = Ret (SQLITE_OK, with_ovfl p [(Z.of_nat i, put4 c 0 child)]).
Proof.
  intros Hho Hleaf Hc Hi Hchild. unfold insertCell. rewrite (insert_asserts_ok p cs) by (done || lia). cbn [mbind outcome_bind].
  rewrite assert_true by (by apply Z.ltb_lt). cbn [mbind outcome_bind].
  pose proof (ho_ovfl _ _ Hho) as Hov. unfold nOverflow. rewrite Hov. change (negb (Z.of_nat (length []) =? 0)) with false.
  pose proof Hho as [_ _ Hfree (cells & fl & top & [Sh Sp Ix] & Hcs & _)].
  destruct (header_facts pBt Hpar p Sh) as (Hh & Hco & Hnc & Hco' & Hul & Hu & Hu4 & Bp).
  pose proof (ix_kind _ _ _ Ix) as Hkind. pose proof (cell_ok_child p c child Hkind Hleaf Hc) as Hc'.
  pose proof Hc as (_ & Hc4 & Bc & Hc5). specialize (Hc5 Hleaf).
  destruct (Z.leb_spec (len c + 2) (nFree p)) as [Hfit|Hfit].
  - rewrite (proj2 (Z.ltb_ge (nFree p) (len c + 2))) by lia. change (negb (SQLITE_OK =? SQLITE_OK)) with false. cbn [orb].
    destruct (insert_fits p cs i (put4 c 0 child) Hho Hc' Hi) as (idx & d & Hal & H0 & H1 & H2 & Hld & Bd & Hins).
    { rewrite len_put4; lia. }
    rewrite len_put4 in Hal, H2, Hins by lia.
    rewrite Hal. cbn [mbind outcome_bind]. change (negb (SQLITE_OK =? SQLITE_OK)) with false. cbn iota.
    rewrite (assert_true (0 <=? idx)) by (by apply Z.leb_le). cbn [mbind outcome_bind].
    rewrite (assert_true (_ || _)) by (apply orb_true_iff; left; by apply Z.leb_le). cbn [mbind outcome_bind].
    rewrite (assert_true (idx + len c <=? usable)) by (by apply Z.leb_le). cbn [mbind outcome_bind].
    cbn [aData with_counts with_data nFree nCell]. rewrite memcpy_ok by lia. cbn [mbind outcome_bind].
    assert (len (from_to c 4 (len c - 4)) = len c - 4) as Hlf by (apply len_from_to; lia).
    set (d1 := store d (idx + 4) (from_to c 4 (len c - 4))).
    assert (len d1 = len d) as Hl1 by (unfold d1; rewrite len_store; lia).
    rewrite put4byte_ok by lia. cbn [mbind outcome_bind].
    destruct (Hins (put4 d1 idx child) (put4 c 0 child)) as (p' & Hr & Hp'); try done.
    + rewrite len_put4; lia.
    + apply bytes_put4; [lia..|]. apply bytes_store; auto using bytes_from_to; lia.
    + by rewrite len_put4 by lia.
    + intros k ? ?. rewrite at_put4 by lia. unfold d1. rewrite at_store, Hlf by lia.
      destruct (_ && _) eqn:E; zify_bool; [lia|]. destruct ((idx + 4 <=? k) && _) eqn:E2; zify_bool; [lia|done].
    + intros j ?. rewrite !at_put4 by lia. unfold d1. rewrite at_store, Hlf by lia.
      destruct (Z_lt_le_dec j 4).
      * rewrite (proj2 (Z.leb_le idx (idx + j))), (proj2 (Z.ltb_lt (idx + j) (idx + 4))), (proj2 (Z.leb_le 0 j)),
          (proj2 (Z.ltb_lt j (0 + 4))) by lia. simpl. do 2 f_equal. lia.
      * rewrite (proj2 (Z.ltb_ge (idx + j) (idx + 4))), (proj2 (Z.ltb_ge j (0 + 4))), !andb_false_r by lia.
        rewrite !(proj2 (Z.leb_le _ _)), !(proj2 (Z.ltb_lt _ _)) by lia. simpl. rewrite at_from_to by lia. f_equal. lia.
    + rewrite Hr. eauto.
  - rewrite (proj2 (Z.ltb_lt (nFree p) (len c + 2))) by lia. cbn [orb]. unfold len at 1. rewrite Nat2Z.id, take_ge by lia.
    rewrite put4byte_ok by lia. cbn [mbind outcome_bind]. unfold add_overflow, nOverflow. rewrite Hov. simpl.
    rewrite !assert_true by done. simpl.
    pose proof (cells_fit _ _ _ _ Sh Sp) as Hf. rewrite length_ivs in Hf. subst cs. rewrite length_fmap in Hi.
    destruct Sp as [_ _ _ Sg _ _ _]. unfold iCellFirst in Sg. unfold u16. by rewrite Z.mod_small by lia.
Qed.

(** ** Removal *)

Lemma space_perm p used used' fl top : used ≡ₚ used' -> space pBt p used fl top -> space pBt p used' fl top.
Proof.
  intros Hu [Sc Ss St Sg Su Sd Sn]. split; try done; [by rewrite <- Hu|intros k; rewrite <- Hu; apply Sd|by rewrite <- Hu].
Qed.

Lemma findCell_ok p cells fl top i c : arranged pBt p cells fl top -> cells !! i = Some c ->
  findCell p (Z.of_nat i) = Ret c.1 /\ call_xCellSize pBt p (from_ptr (aData p) c.1) = Ret (len c.2) /\
  top <= c.1 /\ 4 <= len c.2 /\ c.1 + len c.2 <= usable.
Proof.
  intros [Sh [Sc Ss St Sg Su Sd Sn] [If In Ist Ip Ib Io]] Hi.
  destruct (header_facts pBt Hpar p Sh) as (Hh & Hco & Hnc & Hco' & Hul & Hu & Hu4 & B). unfold iCellFirst in *.
  pose proof (lookup_lt_Some _ _ _ Hi) as Hlt. pose proof (list_elem_of_lookup_2 _ _ _ Hi) as Hc.
  pose proof (proj1 (Forall_forall _ _) Su _ (ivs_in _ _ Hc)) as (H1 & H2 & H3). simpl in H1, H2, H3.
  pose proof (proj1 (Forall_forall _ _) Io c.2 ltac:(apply list_elem_of_fmap; eauto)) as (Hsz & _).
  destruct (from_ptr_cell (aData p) c.1 c.2) as [t Ht]; [lia..|by apply Ib|].
  split_and!; try done.
  - unfold findCell. rewrite get2byte_ok, (Ip i c Hi) by (done || lia). cbn [mbind outcome_bind]. f_equal.
    rewrite (sh_mask _ _ Sh). destruct (pp_page _ Hpar) as (k & Hk & Hp). pose proof (pp_usable _ Hpar).
    rewrite Hp, Z.land_comm. replace (2 ^ k - 1) with (Z.ones k) by (rewrite Z.ones_equiv; lia).
    rewrite Z.land_ones by lia. apply Z.mod_small. lia.
  - rewrite Ht. by apply xCellSize_app.
Qed.

(** A page without cells, however the bytes behind its header look. *)
Lemma empty_ok p : shape pBt p -> kind_ok pBt p -> isInit p = true -> aOvfl p = [] -> nFree p = usable - cellOffset p ->
  nCell p = 0 -> get2 (aData p) (hdrOffset p + 1) = 0 -> get2 (aData p) (hdrOffset p + 3) = 0 ->
  get2 (aData p) (hdrOffset p + 5) = usable mod 65536 -> at_ (aData p) (hdrOffset p + 7) = 0 -> holds p [].
Proof.
  intros Sh Hk Hi Ho Hf Hn H1 H3 H5 H7. destruct (header_facts pBt Hpar p Sh) as (Hh & Hco & Hnc & Hco' & Hul & Hu & Hu4 & B).
  split; try done; [simpl; lia|]. exists [], [], usable. split_and!; try done. split; [done|split; simpl; try done|split; try done].
  - unfold iCellFirst. lia.
  - lia.
  - by rewrite H3, Hn.
  - apply bodies_nil.
Qed.

(** Closing the index over a removed pointer. *)
Lemma remove_pointer_ok p i c cells fl top : shape pBt p -> cells !! i = Some c -> space pBt p (ivs (delete i cells)) fl top ->
  nCell p = Z.of_nat (length cells) - 1 -> iCellFirst p + 2 <= top -> kind_ok pBt p ->
  pointed (aData p) (cellOffset p) cells -> bodies (aData p) (delete i cells) -> Forall (cell_ok pBt p) (delete i cells).*2 ->
  let ptr := cellOffset p + 2 * Z.of_nat i in let n := 2 * (nCell p - Z.of_nat i) in
  let data := put2 (store (aData p) ptr (from_to (aData p) (ptr + 2) n)) (hdrOffset p + 3) (nCell p) in
  0 <= n /\ 0 <= ptr /\ ptr + 2 + n <= len (aData p) /\ arranged pBt (with_data p data) (delete i cells) fl top.
Proof.
  intros Sh Hi Sp Hn Hroom Hkind Hp Hb Hok ptr n data. pose proof (lookup_lt_Some _ _ _ Hi) as Hlt.
  pose proof Sp as [Sc Ss St Sg Su Sd Sn]. pose proof (cells_fit _ _ _ _ Sh Sp) as Hfit.
  destruct (header_facts pBt Hpar p Sh) as (Hh & Hco & Hnc & Hco' & Hul & Hu & Hu4 & B). unfold iCellFirst in *.
  assert (0 <= n /\ 0 <= ptr /\ cellOffset p <= ptr /\ ptr + n + 2 <= top) as (H0 & H1 & H2 & H3) by (unfold n, ptr; lia).
  assert (len (from_to (aData p) (ptr + 2) n) = n) as Hlf by (apply len_from_to; lia).
  assert (len (store (aData p) ptr (from_to (aData p) (ptr + 2) n)) = len (aData p)) as Hls by (rewrite len_store; lia).
  assert (forall k, 0 <= k -> ~ (ptr <= k < ptr + n) -> ~ (hdrOffset p + 3 <= k < hdrOffset p + 5) -> at_ data k = at_ (aData p) k) as Hk.
  { intros k ? ? ?. unfold data. rewrite at_put2 by lia. eqb_cases; try lia. rewrite at_store by lia.
    destruct (_ && _) eqn:E; [zify_bool; lia|done]. }
  assert (forall k, ptr <= k < ptr + n -> at_ data k = at_ (aData p) (k + 2)) as Hk2.
  { intros k ?. unfold data. rewrite at_put2 by lia. eqb_cases; try lia. rewrite at_store by lia.
    rewrite Hlf, (proj2 (Z.leb_le _ _)), (proj2 (Z.ltb_lt _ _)) by lia. simpl. rewrite at_from_to by lia. f_equal. lia. }
  split_and!; try done; [lia|]. split; [|split; simpl; try done|split; simpl; try done].
  - apply shape_data; [done|unfold data; rewrite len_put2; lia|]. unfold data. apply bytes_put2; try lia.
    apply bytes_store; auto using bytes_from_to; lia.
  - apply (freelist_frame (aData p)); [done|]. intros k Hr. apply Hk; destruct Hr as [Hr|Hr].
    all: try (destruct (reads_bounds (top + 1) usable (hdrOffset p + 1) fl k Ss ltac:(lia) Hr); lia).
    all: destruct (link_cases _ _ (hdrOffset p + 1) fl Ss) as [[_ ?]|?]; lia.
  - rewrite (get2_frame (aData p)); [done|apply Hk; lia..].
  - rewrite Hk by lia. done.
  - apply decode_with_data. simpl. rewrite Hk by lia. done.
  - rewrite length_delete by eauto. lia.
  - unfold data. rewrite get2_put2 by lia. apply Z.mod_small. lia.
  - intros j c' Hj. destruct (decide (j < i)%nat).
    + rewrite list_lookup_delete_lt in Hj by done. rewrite <- (Hp j c' Hj). apply get2_frame; apply Hk; unfold ptr; lia.
    + rewrite list_lookup_delete_ge in Hj by lia. pose proof (lookup_lt_Some _ _ _ Hj). rewrite <- (Hp _ c' Hj).
      unfold get2. rewrite !Hk2 by (unfold ptr, n; lia). f_equal; [f_equal|]; f_equal; lia.
  - eapply bodies_frame; [done|]. intros k Hc. apply (cover_top pBt _ _ k Su) in Hc. apply Hk; lia.
Qed.

(** The book-keeping of the first half: the interval is released, the index
    still has the pointer. *)
Lemma drop_release p cells fl top i c : arranged pBt p cells fl top -> cells !! i = Some c ->
  exists data fl' top', freeSpace CORRUPT_DB pBt p c.1 (len c.2) =
      Ret (SQLITE_OK, with_counts (with_data p data) (nFree p + len c.2) (nCell p)) /\
    shape pBt (with_data p data) /\ space pBt (with_data p data) (ivs (delete i cells)) fl' top' /\
    kind_ok pBt (with_data p data) /\ pointed data (cellOffset p) cells /\ bodies data (delete i cells) /\
    get2 data (hdrOffset p + 3) = nCell p /\ Forall (cell_ok pBt p) (delete i cells).*2.
Proof.
  intros [Sh Sp [If In Ist Ip Ib Io]] Hi. pose proof (delete_Permutation _ _ _ Hi) as Hperm.
  assert (space pBt p ((c.1, len c.2) :: ivs (delete i cells)) fl top) as Sp'.
  { eapply space_perm, Sp. exact (ivs_perm _ _ Hperm). }
  destruct (freeSpace_ok CORRUPT_DB pBt Hpar _ _ _ _ _ _ Sh Sp') as (data & fl' & top' & Hr & Hsp & Hl & B & Hk).
  destruct (header_facts pBt Hpar p Sh) as (Hh & Hco & Hnc & Hco' & Hul & Hu & Hu4 & Bp).
  pose proof Sp' as [_ _ _ Sg Su _ _]. unfold iCellFirst, room_header in *.
  exists data, fl', top'. split_and!; try done.
  - by apply shape_data.
  - apply decode_with_data. simpl. rewrite Hk by lia. done.
  - eapply pointed_frame; [done|]. intros; apply Hk; lia.
  - eapply bodies_frame.
    + intros c' Hc'. apply Ib. rewrite Hperm. by apply elem_of_cons; right.
    + intros k Hc. pose proof (cover_top pBt _ _ k (proj2 (proj1 (Forall_cons _ _ _) Su)) Hc). apply Hk; lia || auto.
  - rewrite (get2_frame (aData p)); [done|apply Hk; lia..].
  - rewrite Hperm in Io. by inversion Io.
Qed.

(** The header of a page without cells, as [dropCell] and [zeroPage] write it. *)
Definition cleared (l : list Z) (hdr : Z) : list Z :=
  put2 (store (store l (hdr + 1) (replicate 4 (uchar 0))) (hdr + 7) [uchar 0]) (hdr + 5) usable.

Lemma clear_ok {A} (f : list Z -> outcome A) l hdr : bytes l -> 0 <= hdr -> hdr + 8 <= len l ->
  (data ← memset l (hdr + 1) 0 4; data ← wr data (hdr + 7) 0; data ← put2byte data (hdr + 5) usable; f data) = f (cleared l hdr) /\
  len (cleared l hdr) = len l /\ bytes (cleared l hdr) /\
  (forall k, 0 <= k -> ~ (hdr + 1 <= k < hdr + 8) -> at_ (cleared l hdr) k = at_ l k) /\
  get2 (cleared l hdr) (hdr + 1) = 0 /\ get2 (cleared l hdr) (hdr + 3) = 0 /\
  get2 (cleared l hdr) (hdr + 5) = usable mod 65536 /\ at_ (cleared l hdr) (hdr + 7) = 0.
Proof.
  intros B Hh Hl. unfold cleared. change (uchar 0) with 0. set (l1 := store l (hdr + 1) (replicate 4 0)).
  assert (len l1 = len l) as Hl1 by (unfold l1; rewrite len_store; rewrite ?len_replicate; lia).
  set (l2 := store l1 (hdr + 7) [0]).
  assert (len l2 = len l) as Hl2 by (unfold l2; rewrite len_store; change (len [0]) with 1; lia).
  rewrite memset_ok by lia. change (replicate _ _) with (replicate 4 0). fold l1. cbn [mbind outcome_bind].
  rewrite wr_ok by lia. change (uchar 0) with 0. fold l2. cbn [mbind outcome_bind]. rewrite put2byte_ok by lia.
  assert (forall k, 0 <= k -> at_ l2 k = if (k =? hdr + 7) || (hdr + 1 <=? k) && (k <? hdr + 5) then 0 else at_ l k) as Hk.
  { intros k ?. change [0] with [uchar 0] in l2. unfold l2. rewrite at_store_one by lia. change (uchar 0) with 0. eqb_cases; simpl; [done|].
    unfold l1. rewrite at_store, len_replicate by (rewrite ?len_replicate; lia). change (Z.of_nat 4) with 4.
    replace (hdr + 1 + 4) with (hdr + 5) by lia.
    destruct (_ && _) eqn:E; zify_bool; [|done]. apply at_replicate_same. lia. }
  split_and!; [done|rewrite len_put2; lia|..].
  - apply bytes_put2; try lia. apply (bytes_store _ _ [0]); try (change (len [0]) with 1; lia); [|by apply bytes_Forall; repeat constructor].
    apply bytes_store; auto using bytes_replicate; rewrite ?len_replicate; lia || apply bytes_replicate; lia.
  - intros k ? ?. rewrite at_put2 by lia. rewrite Hk by lia. eqb_cases; try lia. simpl. destruct (_ && _) eqn:E; zify_bool; [lia|done].
  - unfold get2. rewrite !at_put2, !Hk by lia. rewrite !(proj2 (Z.eqb_neq _ _)) by lia.
    rewrite !(proj2 (Z.leb_le _ _)), !(proj2 (Z.ltb_lt _ _)) by lia. done.
  - unfold get2. rewrite !at_put2, !Hk by lia. rewrite !(proj2 (Z.eqb_neq _ _)) by lia.
    rewrite !(proj2 (Z.leb_le _ _)), !(proj2 (Z.ltb_lt _ _)) by lia. done.
  - by rewrite get2_put2 by lia.
  - rewrite at_put2, Hk by lia. rewrite Z.eqb_refl, !(proj2 (Z.eqb_neq _ _)) by lia. done.
Qed.

(** A page whose header is cleared holds nothing. *)
Lemma cleared_ok p : shape pBt p -> kind_ok pBt p -> isInit p = true -> aOvfl p = [] ->
  holds (with_counts (with_data p (cleared (aData p) (hdrOffset p))) (usable - cellOffset p) 0) [].
Proof.
  intros Sh Hk Hi Ho. destruct (header_facts pBt Hpar p Sh) as (Hh & Hco & Hnc & Hco' & Hul & Hu & Hu4 & B).
  destruct (clear_ok Ret (aData p) (hdrOffset p) B Hh ltac:(lia)) as (_ & Hl & Bc & Hf & H1 & H3 & H5 & H7).
  apply empty_ok; try done.
  - by apply shape_counts; [apply shape_data|].
  - apply decode_with_counts, decode_with_data. simpl. rewrite Hf by lia. done.
Qed.

Lemma dropCell_ok p cs i c : holds p cs -> cs !! i = Some c ->
  exists p', dropCell CORRUPT_DB pBt p (Z.of_nat i) (len c) 0 = Ret (SQLITE_OK, p') /\ holds p' (delete i cs) /\ same_kind p p'.
Proof.
  intros [Hin Hov Hfree (cells & fl & top & Har & <- & He)] Hi. rewrite list_lookup_fmap in Hi.
  destruct (cells !! i) as [[pc c0]|] eqn:Hic; [|done]. injection Hi as <-.
  destruct (findCell_ok _ _ _ _ _ _ Har Hic) as (Hf & Hsz & Htop & H4 & Hend).
  destruct (drop_release _ _ _ _ _ _ Har Hic) as (data & fl' & top' & Hfs & Sh' & Sp' & Hk & Hp & Hb & Hst & Hok).
  cbn [fst snd] in *. pose proof (lookup_lt_Some _ _ _ Hic) as Hlt. pose proof Har as [Sh [Sc Ss St Sg Su Sd Sn] [If In Ist Ip Ib Io]].
  destruct (header_facts pBt Hpar p Sh) as (Hh & Hco & Hnc & Hco' & Hul & Hu & Hu4 & Bp).
  pose proof (cells_fit _ _ _ _ Sh' Sp') as Hfit. rewrite length_ivs, length_delete in Hfit by eauto.
  pose proof (proj1 (Forall_forall _ _) Su) as Hsu. pose proof (total_nonneg _ _ _ (spaced_within _ _ _ Ss)).
  pose proof (sh_bytes _ _ Sh (hdrOffset p + 7)).
  rewrite cell_bytes_total in Hfree. unfold iCellFirst in *. unfold dropCell. change (negb (0 =? 0)) with false. cbn iota.
  rewrite (assert_true (0 <=? Z.of_nat i)) by (apply Z.leb_le; lia). cbn [mbind outcome_bind].
  rewrite (assert_true (_ <? nCell p)) by (apply Z.ltb_lt; lia). cbn [mbind outcome_bind].
  assert ((if NDEBUG || CORRUPT_DB then Ret tt else n ← cellSize pBt p (Z.of_nat i); assert_ (len c0 =? n)) = Ret tt) as ->.
  { destruct (_ || _); [done|]. unfold cellSize. rewrite Hf. cbn [mbind outcome_bind]. rewrite Hsz. cbn [mbind outcome_bind].
    by rewrite assert_true by apply Z.eqb_refl. }
  cbn [mbind outcome_bind]. rewrite (assert_true (0 <=? nFree p)) by (apply Z.leb_le; lia). cbn [mbind outcome_bind].
  rewrite (assert_true (_ <? usable)) by (apply Z.ltb_lt; lia). cbn [mbind outcome_bind].
  rewrite get2byte_ok, (Ip i _ Hic) by (done || lia). cbn [mbind outcome_bind fst].
  unfold u32 at 1. rewrite Z.mod_small by lia. rewrite (proj2 (Z.ltb_ge usable _)) by lia.
  assert (u16 pc = pc /\ u16 (len c0) = len c0) as [-> ->] by (unfold u16; rewrite !Z.mod_small by lia; done). rewrite Hfs. cbn [mbind outcome_bind].
  change (negb (SQLITE_OK =? 0)) with false. cbn iota. cbn [nFree nCell with_counts with_data aData hdrOffset childPtrSize].
  assert (u16 (nCell p - 1) = nCell p - 1) as -> by (unfold u16; apply Z.mod_small; lia).
  destruct Sh' as [Sl Sb Shd Sch Sof Sm _]. cbn [aData with_data hdrOffset leaf childPtrSize cellOffset maskPage] in *.
  pose proof (page_bounds _ Hpar). assert (cell_bytes cells.*2 = 2 + len c0 + cell_bytes (delete i cells).*2) as Hcb.
  { rewrite (delete_Permutation _ _ _ Hic) at 1. done. }
  rewrite cell_bytes_total in Hcb. rewrite <- list_fmap_delete.
  destruct (Z.eqb_spec (nCell p - 1) 0) as [Hz|Hz].
  - assert (delete i cells = []) as -> by (apply length_zero_iff_nil; rewrite length_delete by eauto; lia).
    destruct (clear_ok (fun d => Ret (SQLITE_OK, with_counts (with_data (with_counts (with_data p data) (nFree p + len c0) (nCell p - 1)) d)
      (i32 (u32 (usable - hdrOffset p - childPtrSize p - 8))) (nCell p - 1))) data (hdrOffset p) Sb Hh ltac:(lia)) as (Hc & _).
    unfold with_counts, with_data in Hc |- *. simpl in Hc |- *. rewrite Hc. eexists. split; [done|]. split; [|by split_and!].
    rewrite (u32_id (usable - _ - _ - 8)), i32_id, Hz by lia.
    replace (usable - _ - _ - 8) with (usable - cellOffset p) by lia. apply (cleared_ok (with_data p data)); try done.
  - set (q := with_counts (with_data p data) (nFree p + len c0 + 2) (nCell p - 1)).
    destruct (remove_pointer_ok q i (pc, c0) cells fl' top') as (Hr0 & Hr1 & Hr2 & Har'); try done.
    { split; try done. simpl. lia. }
    { destruct Sp'. split; try done. unfold iCellFirst in *. simpl in *. lia. }
    { simpl. lia. } { destruct Sp' as [_ _ _ Sg' _ _ _]. unfold iCellFirst in *. simpl in *. lia. }
    { by apply (decode_with_counts pBt (with_data p data)). }
    set (q2 := with_data q _) in Har'. subst q. cbn [nCell with_counts cellOffset with_data aData hdrOffset] in *.
    rewrite memcpy_ok by lia. cbn [mbind outcome_bind]. 
    rewrite put2byte_ok by (rewrite ?len_store; rewrite ?len_from_to; lia).
    cbn [mbind outcome_bind].
    eexists. split; [reflexivity|]. split; [|by split_and!]. split; try done; [simpl; lia|].
    exists (delete i cells), fl', top'. split_and!; [exact Har'|done|]. intros Hn. apply (f_equal length) in Hn.
    rewrite length_delete in Hn by eauto. simpl in Hn. lia.
Qed.

End Cells.
