(* ===== verification/PageLoad.v ===== *)
(** * B-tree pages: creation, loading, and the refinement of lists of cells

    [zeroPage] makes an empty page, [btreeInitPage] and
    [btreeComputeFreeSpace] restore the fields of a page from its bytes.
    [page_refines_list] shows that a page behaves as a list of cells with a
    budget of bytes, [page_reload] that its bytes determine it. *)

From S2P Require Import Prelude Words Chars Page PageSpace PageCells PageList.

(** ** The specification: a list of cells with a budget *)

Inductive page_op := InsertCell (i : nat) (c : list Z) | InsertChild (i : nat) (c : list Z) (child : Z) | DropCell (i : nat).

Section Load.
Context `{Build}.
Variable CORRUPT_DB : bool.
Variable pBt : BtShared.
Abbreviation usable := (usableSize pBt).

(** [cell_ok] as a test. *)
Definition well_formed (p : MemPage) (c : list Z) : bool :=
  match call_xCellSize pBt p c with Ret n => n =? len c | _ => false end &&
  (4 <=? len c) && forallb (fun b => (0 <=? b) && (b <? 256)) c && (leaf p || (5 <=? len c)).

(** The list with the operation done, if the operation is possible: the index
    is one of the list, the cell is one of the kind of page [kind], and there
    is room for it and its pointer in [room] bytes. *)
Definition list_insert (kind : MemPage) (room : Z) (i : nat) (c stored : list Z) (cs : list (list Z)) : option (list (list Z)) :=
  if well_formed kind c && (i <=? length cs)%nat && (cell_bytes cs + 2 + len c <=? room)
  then Some (insert_at i stored cs) else None.

Definition list_step (kind : MemPage) (room : Z) (o : page_op) (cs : list (list Z)) : option (list (list Z)) :=
  match o with
  | InsertCell i c => list_insert kind room i c c cs
  | InsertChild i c child =>
      if negb (leaf kind) && (0 <? child) then list_insert kind room i c (put4 c 0 child) cs else None
  | DropCell i => if (i <? length cs)%nat then Some (delete i cs) else None
  end.

Definition list_run (kind : MemPage) (room : Z) (ops : list page_op) (cs : list (list Z)) : option (list (list Z)) :=
  foldl (fun cs o => cs ← cs; list_step kind room o cs) (Some cs) ops.

(** ** The same operations on a page *)

Definition page_step (o : page_op) (p : MemPage) : outcome (Z * MemPage) :=
  match o with
  | InsertCell i c => insertCellFast CORRUPT_DB pBt SQLITE_OK None p (Z.of_nat i) c (len c)
  | InsertChild i c child => insertCell CORRUPT_DB pBt SQLITE_OK None p (Z.of_nat i) c (len c) child
  | DropCell i => n ← cellSize pBt p (Z.of_nat i); dropCell CORRUPT_DB pBt p (Z.of_nat i) n SQLITE_OK
  end.

(** The error code of the first operation that fails, and the page. *)
Fixpoint page_run (ops : list page_op) (p : MemPage) : outcome (Z * MemPage) :=
  match ops with
  | [] => Ret (SQLITE_OK, p)
  | o :: ops => '(rc, p) ← page_step o p; if rc =? SQLITE_OK then page_run ops p else Ret (rc, p)
  end.

(** The cells of a page, as [findCell] and [cellSize] find them. *)
Fixpoint cells_from (n : nat) (p : MemPage) (i : Z) : outcome (list (list Z)) :=
  match n with
  | O => Ret []
  | S n => pc ← findCell p i; size ← cellSize pBt p i; cs ← cells_from n p (i + 1); Ret (from_to (aData p) pc size :: cs)
  end.
Definition page_cells (p : MemPage) : outcome (list (list Z)) := cells_from (Z.to_nat (nCell p)) p 0.

Hypothesis Hpar : params_ok pBt.

Lemma well_formed_ok p c : well_formed p c = true -> cell_ok pBt p c.
Proof.
  unfold well_formed. rewrite !andb_true_iff, orb_true_iff, !Z.leb_le. intros [[[Hs H4] Hb] H5].
  split_and!; try done.
  - destruct (call_xCellSize pBt p c); try done. apply Z.eqb_eq in Hs. by subst.
  - apply bytes_Forall, Forall_forall. intros b Hc. rewrite forallb_forall in Hb. specialize (Hb b (proj1 (list_elem_of_In _ _) Hc)).
    rewrite andb_true_iff, Z.leb_le, Z.ltb_lt in Hb. lia.
  - intros Hl. rewrite Hl in H5. by destruct H5.
Qed.

(** ** New pages *)

Lemma decode_page flags : In flags [2; 5; 10; 13] -> exists c l i il m1 mx mn f,
  (forall p, decodeFlags pBt p flags = Ret (SQLITE_OK, with_kind p c l i il m1 mx mn f)) /\
  (l = true /\ c = 0 \/ l = false /\ c = 4) /\ (if Z.land flags PTF_LEAF =? 0 then 12 else 8) = 8 + c.
Proof.
  simpl. intros Hf. repeat destruct Hf as [<-|Hf]; try done; do 8 eexists; (split; [intros; reflexivity|]); simpl; split; auto; done.
Qed.

Lemma zeroPage_ok q flags : len (aData q) = pageSize pBt -> bytes (aData q) -> hdrOffset q = 0 \/ hdrOffset q = 100 ->
  In flags [2; 5; 10; 13] -> exists p, zeroPage pBt q flags = Ret p /\ holds pBt p [] /\ hdrOffset p = hdrOffset q /\
    cellOffset p = hdrOffset q + (if Z.land flags PTF_LEAF =? 0 then 12 else 8).
Proof.
  intros Hl B Hh Hf. pose proof (page_bounds _ Hpar) as (Hu & Hp). unfold zeroPage.
  assert (exists d, (if negb (Z.land (btsFlags pBt) BTS_FAST_SECURE =? 0)
     then memset (aData q) (hdrOffset q) 0 (usable - hdrOffset q) else Ret (aData q)) = Ret d /\ len d = len (aData q) /\ bytes d)
    as (d & -> & Hld & Bd).
  { destruct (negb _); [|eauto]. rewrite memset_ok by lia. eexists. split; [done|].
    assert (len (replicate (Z.to_nat (usable - hdrOffset q)) (uchar 0)) = usable - hdrOffset q) by (rewrite len_replicate; lia).
    split; [rewrite len_store; lia|apply bytes_store; auto using bytes_replicate; try lia]. apply bytes_replicate. done. }
  cbn [mbind outcome_bind]. rewrite wr_ok by lia. cbn [mbind outcome_bind].
  set (d1 := store d (hdrOffset q) [uchar flags]).
  assert (len d1 = len d) as Hl1 by (apply len_store_one; lia).
  assert (bytes d1) as B1 by (apply bytes_store; change (len [_]) with 1; auto using bytes_one; lia).
  assert (at_ d1 (hdrOffset q) = flags) as Hfl.
  { unfold d1. rewrite at_store_one, Z.eqb_refl by lia. simpl in Hf. unfold uchar. apply Z.mod_small. lia. }
  destruct (decode_page flags Hf) as (c & l & i & il & m1 & mx & mn & f & Hdec & Hlc & ->).
  destruct (clear_ok pBt (fun data => '(_, p) ← decodeFlags pBt (with_data q data) flags;
    _ ← assert_ ((512 <=? pageSize pBt) && (pageSize pBt <=? 65536));
    Ret (with_init p true (hdrOffset q + (8 + c)) (u16 (usable - (hdrOffset q + (8 + c)))) 0 (u16 (pageSize pBt - 1))))
    d1 (hdrOffset q) B1 ltac:(lia) ltac:(lia)) as (-> & Hlc1 & Bc & Hk & _).
  rewrite Hdec. cbn [mbind outcome_bind]. rewrite assert_true by (rewrite andb_true_iff, !Z.leb_le; lia). cbn [mbind outcome_bind].
  assert (u16 (usable - (hdrOffset q + (8 + c))) = usable - (hdrOffset q + (8 + c))) as -> by (unfold u16; apply Z.mod_small; lia).
  assert (u16 (pageSize pBt - 1) = pageSize pBt - 1) as -> by (unfold u16; apply Z.mod_small; lia).
  eexists. split; [done|]. split_and!; [|done|simpl; lia].
  pose (p1 := with_init (with_kind (with_data q d1) c l i il m1 mx mn f) true (hdrOffset q + (8 + c)) 0 0 (pageSize pBt - 1)).
  apply (cleared_ok pBt Hpar p1); try done.
  - split; simpl; try done; lia.
  - unfold kind_ok. simpl. rewrite Hfl, Hdec. done.
Qed.

(** ** Loading *)

(** The sum over the free list, and its last block. *)
Lemma sum_free_ok fuel l a s n fl acc lo : chain l a ((s, n) :: fl) -> spaced lo usable ((s, n) :: fl) -> bytes l ->
  0 <= lo -> usable <= len l -> (length fl < fuel)%nat ->
  exists s' n', sum_free pBt fuel l s acc = Ret (Some (acc + n + total fl, s', n', 0)) /\ s' + n' <= usable.
Proof.
  revert a s n fl acc lo. induction fuel as [|fuel IH]; intros a s n fl acc lo Hc Hs B Hlo Hl Hf; [lia|].
  destruct (chain_tail _ _ _ _ _ Hc) as [Hn Hc']. destruct Hs as (H1 & H2 & H3 & Hs).
  cbn [sum_free]. rewrite (proj2 (Z.ltb_ge (usable - 4) s)) by lia. rewrite !get2byte_ok by (done || lia).
  cbn [mbind outcome_bind]. rewrite Hn, (chain_first _ _ _ Hc'). destruct fl as [|[s2 n2] fl].
  - simpl. rewrite (proj2 (Z.leb_le 0 _)) by lia. exists s, n. simpl. by rewrite Z.add_0_r.
  - cbn [first_of]. pose proof Hs as (H4 & _). rewrite (proj2 (Z.leb_gt s2 _)) by lia.
    simpl in Hf. destruct (IH s s2 n2 fl (acc + n) (s + n + 4) Hc' Hs B) as (s' & n' & -> & He); [lia..|].
    exists s', n'. simpl. by rewrite !Z.add_assoc.
Qed.

Lemma compute_free_ok p q cells fl top : arranged pBt p cells fl top -> nFree p = usable - iCellFirst p - total (ivs cells) ->
  q = with_counts p (-1) (nCell p) -> isInit p = true ->
  btreeComputeFreeSpace pBt q = Ret (SQLITE_OK, p).
Proof.
  intros [Sh Sp Ix] Hfree -> Hi. pose proof Sp as [Sc Ss St Sg Su Sd Sn].
  destruct (header_facts pBt Hpar p Sh) as (Hh & Hco & Hnc & Hco' & Hul & Hu & Hu4 & B).
  pose proof (sh_offset _ _ Sh) as Hoff. pose proof (total_nonneg _ _ _ Su). pose proof (B (hdrOffset p + 7)).
  pose proof (total_nonneg _ _ _ (spaced_within _ _ _ Ss)).
  unfold iCellFirst in *. unfold btreeComputeFreeSpace.
  cbn [isInit with_counts nFree aData hdrOffset nCell childPtrSize]. rewrite Hi, !assert_true by done. cbn [mbind outcome_bind].
  rewrite (get2byteNotZero_ok _ _ top), get2byte_ok, (chain_first _ _ _ Sc), rd_ok by (done || lia). cbn [mbind outcome_bind].
  set (sum := if 0 <? first_of fl then _ else _).
  assert (sum = Ret (Some (at_ (aData p) (hdrOffset p + 7) + top + total fl))) as ->.
  { subst sum. destruct fl as [|[s n] fl]; [simpl; do 2 f_equal; lia|]. cbn [first_of]. pose proof Ss as (H4 & _).
    rewrite (proj2 (Z.ltb_lt 0 s)), (proj2 (Z.ltb_ge s top)) by lia.
    pose proof (chain_room pBt Hpar _ _ _ _ Sc Ss ltac:(lia) ltac:(destruct Ss as (? & ? & ? & _); lia)) as Hroom. simpl in Hroom.
    destruct (sum_free_ok (chain_fuel pBt) (aData p) _ s n fl (at_ (aData p) (hdrOffset p + 7) + top) (top + 1) Sc Ss B)
      as (s' & n' & -> & He); [lia..|]. cbn [mbind outcome_bind]. change (0 <? 0) with false. cbn iota.
    rewrite (proj2 (Z.ltb_ge usable _)) by lia. do 2 f_equal. simpl. lia. }
  cbn [mbind outcome_bind]. rewrite (proj2 (Z.ltb_ge usable _)), (proj2 (Z.ltb_ge _ (hdrOffset p + 8 + childPtrSize p + 2 * nCell p))) by lia.
  cbn [orb]. do 2 f_equal.
  assert (u16 (at_ (aData p) (hdrOffset p + 7) + top + total fl - (hdrOffset p + 8 + childPtrSize p + 2 * nCell p)) = nFree p) as ->.
  { unfold u16. rewrite Z.mod_small by lia. lia. }
  by destruct p.
Qed.

Lemma check_cells_ok p cells fl top n i last : arranged pBt p cells fl top -> (n + i)%nat = length cells ->
  last = (if leaf p then usable - 4 else usable - 4 - 1) ->
  check_cells pBt n p (Z.of_nat i) (iCellFirst p) last = Ret true.
Proof.
  intros Har. revert i. induction n as [|n IH]; intros i Hn Hlast; [done|].
  destruct (lookup_lt_is_Some_2 cells i ltac:(lia)) as [c Hc].
  destruct (findCell_ok pBt Hpar _ _ _ _ _ _ Har Hc) as (_ & Hsz & Htop & H4 & He).
  pose proof Har as [Sh [Sc Ss St Sg Su Sd Sn] [If In Ist Ip Ib Io]].
  destruct (header_facts pBt Hpar p Sh) as (Hh & Hco & Hnc & Hco' & Hul & Hu & Hu4 & B).
  pose proof (proj1 (Forall_forall _ _) Io c.2 ltac:(apply list_elem_of_fmap; eauto using list_elem_of_lookup_2)) as (_ & _ & _ & H5).
  cbn [check_cells]. unfold iCellFirst in *. rewrite (Z.mul_comm (Z.of_nat i)), get2byte_ok, (Ip i c Hc) by (done || lia).
  cbn [mbind outcome_bind]. rewrite (proj2 (Z.ltb_ge c.1 _)) by lia.
  rewrite (proj2 (Z.ltb_ge last c.1)) by (subst last; destruct (leaf p); [lia|specialize (H5 eq_refl); lia]).
  cbn [orb]. rewrite Hsz. cbn [mbind outcome_bind]. rewrite (proj2 (Z.ltb_ge usable _)) by lia.
  replace (Z.of_nat i + 1) with (Z.of_nat (S i)) by lia. apply IH; [lia|done].
Qed.

(** A page that has not been initialised, with the bytes and the position of [p]. *)
Definition unread (p q : MemPage) : Prop := isInit q = false /\ aData q = aData p /\ hdrOffset q = hdrOffset p.

Definition reload (q : MemPage) : outcome (Z * MemPage) :=
  '(rc, q) ← btreeInitPage CORRUPT_DB pBt q;
  if negb (rc =? SQLITE_OK) then Ret (rc, q) else btreeComputeFreeSpace pBt q.

Lemma btreeInitPage_ok p cs q : holds pBt p cs -> unread p q ->
  btreeInitPage CORRUPT_DB pBt q = Ret (SQLITE_OK, with_counts p (-1) (nCell p)).
Proof.
  intros [Hin Hov Hfree (cells & fl & top & Har & Hcs & He)] (Hq & Hd & Hh'). pose proof Har as [Sh Sp Ix]. pose proof Ix as [If In Ist _ _ _].
  destruct (header_facts pBt Hpar p Sh) as (Hh & Hco & Hnc & Hco' & Hul & Hu & Hu4 & B).
  pose proof (page_bounds _ Hpar). pose proof (sh_offset _ _ Sh) as Hoff. pose proof (sh_mask _ _ Sh) as Hmask.
  pose proof (cells_fit _ _ _ _ _ Sh Sp) as Hfit. rewrite length_ivs in Hfit. pose proof Sp as [Sc Ss St Sg Su Sd Sn].
  unfold iCellFirst in Sg. unfold kind_ok in If. unfold btreeInitPage.
  rewrite Hq, Hd, Hh', (assert_true (negb false)) by done. cbn [mbind outcome_bind]. rewrite rd_ok by lia. cbn [mbind outcome_bind].
  destruct (decode_cases pBt (at_ (aData p) (hdrOffset p))) as [(c & l & i & il & m1 & mx & mn & f & Hdec)|Hdec];
    [|by destruct (Hdec _ _ If)].
  rewrite Hdec in If |- *. injection If as If. cbn [mbind outcome_bind]. change (negb (SQLITE_OK =? SQLITE_OK)) with false. cbn iota.
  cbn [aData hdrOffset with_kind childPtrSize isInit]. rewrite Hd, Hh'.
  assert (childPtrSize p = c) as Hc by (by rewrite <- If).
  rewrite (assert_true (_ && _)) by (rewrite andb_true_iff, !Z.leb_le; lia). cbn [mbind outcome_bind].
  rewrite get2byte_ok, Ist by (done || lia). cbn [mbind outcome_bind]. unfold MX_CELL.
  rewrite (proj2 (Z.ltb_ge ((pageSize pBt - 8) / 6) (nCell p))) by (apply Z.div_le_lower_bound; lia).
  cbn [aData hdrOffset with_init with_kind]. rewrite Hd, Hh', (get2byteNotZero_ok _ _ top) by (done || lia). cbn [mbind outcome_bind].
  rewrite assert_true.
  2: { rewrite !orb_true_iff, Z.ltb_lt, Z.eqb_eq. destruct cells; [left; right; auto|left; left; simpl in *; lia]. }
  cbn [mbind outcome_bind cellOffset nCell maskPage with_init with_kind].
  assert (u16 (pageSize pBt - 1) = maskPage p) as -> by (unfold u16; rewrite Z.mod_small; lia).
  set (p1 := with_init _ _ _ _ _ _).
  assert (p1 = with_counts p (-1) (nCell p)) as ->.
  { subst p1. destruct p; unfold with_init, with_kind, with_counts in *; cbn in *. injection If; intros; by subst. }
  destruct (cellSizeCk pBt); [|done]. unfold btreeCellSizeCheck. cbn [nCell with_counts leaf].
  set (last := if leaf p then _ else _). rewrite (check_cells_ok (with_counts p (-1) (nCell p)) cells fl top _ 0 last); [done| |lia|done].
  split; [by apply shape_counts|by apply space_free|by apply index_free].
Qed.

Lemma reload_ok p cs q : holds pBt p cs -> unread p q -> reload q = Ret (SQLITE_OK, p).
Proof.
  intros Hho Hq. unfold reload. rewrite (btreeInitPage_ok p cs) by done. cbn [mbind outcome_bind].
  change (negb (SQLITE_OK =? SQLITE_OK)) with false. cbn iota. destruct Hho as [Hin Hov Hfree (cells & fl & top & Har & <- & He)].
  apply (compute_free_ok p _ cells fl top); try done. rewrite cell_bytes_total in Hfree.
  pose proof (ix_count _ _ _ (ar_index _ _ _ _ _ Har)). unfold iCellFirst. lia.
Qed.

(** ** Reading *)

Lemma cells_from_ok p cells fl top n i : arranged pBt p cells fl top -> (n + i)%nat = length cells ->
  cells_from n p (Z.of_nat i) = Ret (drop i cells.*2).
Proof.
  intros Har. revert i. induction n as [|n IH]; intros i Hn.
  - rewrite drop_ge by (rewrite length_fmap; lia). done.
  - destruct (lookup_lt_is_Some_2 cells i ltac:(lia)) as [c Hc].
    destruct (findCell_ok pBt Hpar _ _ _ _ _ _ Har Hc) as (Hf & Hsz & Htop & H4 & He).
    destruct (header_facts pBt Hpar p (ar_shape _ _ _ _ _ Har)) as (Hh & Hco & Hnc & Hco' & Hul & Hu & Hu4 & B).
    pose proof (sp_gap _ _ _ _ _ (ar_space _ _ _ _ _ Har)). unfold iCellFirst in *.
    cbn [cells_from]. unfold cellSize. rewrite Hf. cbn [mbind outcome_bind]. rewrite Hsz. cbn [mbind outcome_bind].
    replace (Z.of_nat i + 1) with (Z.of_nat (S i)) by lia. rewrite IH by lia. cbn [mbind outcome_bind].
    rewrite (drop_S cells.*2 c.2 i) by (by rewrite list_lookup_fmap, Hc). do 2 f_equal.
    destruct (from_ptr_cell (aData p) c.1 c.2) as [t Ht]; [lia..|exact (ix_bodies _ _ _ (ar_index _ _ _ _ _ Har) c (list_elem_of_lookup_2 _ _ _ Hc))|].
    unfold from_to. unfold from_ptr in Ht. rewrite Ht. unfold len. rewrite Nat2Z.id. by rewrite take_app_length.
Qed.

Lemma page_cells_ok p cs : holds pBt p cs -> page_cells p = Ret cs.
Proof.
  intros [_ _ _ (cells & fl & top & Har & <- & _)]. unfold page_cells.
  rewrite (cells_from_ok p cells fl top _ 0 Har); [done|]. rewrite (ix_count _ _ _ (ar_index _ _ _ _ _ Har)). lia.
Qed.

(** ** The simulation *)

Record related (kind : MemPage) (p : MemPage) (cs : list (list Z)) : Prop := {
  re_holds : holds pBt p cs;
  re_kind : same_kind kind p;
  re_offset : cellOffset kind = hdrOffset kind + 8 + childPtrSize kind
}.

Lemma related_room kind p cs : related kind p cs -> nFree p = usable - cellOffset kind - cell_bytes cs.
Proof.
  intros [[_ _ -> (cells & fl & top & [Sh _ _] & _)] (_ & Hc & _ & _ & Hh & _) ->]. rewrite (sh_offset _ _ Sh). lia.
Qed.

Lemma same_kind_trans p q r : same_kind p q -> same_kind q r -> same_kind p r.
Proof. unfold same_kind. intuition congruence. Qed.

Lemma list_insert_inv kind room i c stored cs cs' p : related kind p cs -> list_insert kind room i c stored cs = Some cs' ->
  room = usable - cellOffset kind -> cs' = insert_at i stored cs /\ cell_ok pBt p c /\ (i <= length cs)%nat /\ (len c + 2 <=? nFree p) = true.
Proof.
  intros Hr Hi ->. unfold list_insert in Hi. destruct (_ && _) eqn:E; [|done]. injection Hi as <-.
  rewrite !andb_true_iff, Nat.leb_le, Z.leb_le in E. destruct E as [[Hw Hi] Hroom]. rewrite (related_room _ _ _ Hr).
  split_and!; try done; [|apply Z.leb_le; lia]. eapply cell_ok_kind; [apply Hr|by apply well_formed_ok].
Qed.

Lemma page_step_ok kind p cs o cs' : related kind p cs -> list_step kind (usable - cellOffset kind) o cs = Some cs' ->
  exists p', page_step o p = Ret (SQLITE_OK, p') /\ related kind p' cs'.
Proof.
  intros Hr Ho. pose proof Hr as [Hho Hk Hoff].
  assert (forall p' l, holds pBt p' l /\ same_kind p p' -> related kind p' l) as Hrel.
  { intros p' l [Hp' Hk']. split; [done|by eapply same_kind_trans|done]. }
  destruct o as [i c|i c child|i]; simpl in Ho |- *.
  - destruct (list_insert_inv _ _ _ _ _ _ _ _ Hr Ho eq_refl) as (-> & Hc & Hi & Hfit).
    pose proof (insertCellFast_ok CORRUPT_DB pBt Hpar None p cs i c Hho Hc Hi) as Hins. rewrite Hfit in Hins.
    destruct Hins as (p' & -> & Hp'). eauto.
  - destruct (negb (leaf kind) && (0 <? child)) eqn:E; [|done]. rewrite andb_true_iff, negb_true_iff, Z.ltb_lt in E.
    destruct (list_insert_inv _ _ _ _ _ _ _ _ Hr Ho eq_refl) as (-> & Hc & Hi & Hfit).
    assert (leaf p = false) as Hleaf by (destruct Hk as (_ & _ & _ & _ & _ & ->); tauto).
    pose proof (insertCell_ok CORRUPT_DB pBt Hpar None p cs i c child Hho Hleaf Hc Hi ltac:(lia)) as Hins. rewrite Hfit in Hins.
    destruct Hins as (p' & -> & Hp'). eauto.
  - destruct (Nat.ltb_spec i (length cs)); [|done]. injection Ho as <-.
    destruct (lookup_lt_is_Some_2 cs i ltac:(lia)) as [c Hc]. pose proof Hho as [_ _ _ (cells & fl & top & Har & Hcs & _)].
    pose proof Hc as Hc'. rewrite <- Hcs, list_lookup_fmap in Hc'. destruct (cells !! i) as [[pc c0]|] eqn:Hcell; [|done].
    injection Hc' as ->. destruct (findCell_ok pBt Hpar _ _ _ _ _ _ Har Hcell) as (Hf & Hsz & _).
    cbn [fst snd] in *. unfold cellSize. rewrite Hf. cbn [mbind outcome_bind]. rewrite Hsz. cbn [mbind outcome_bind].
    destruct (dropCell_ok CORRUPT_DB pBt Hpar p cs i c Hho Hc) as (p' & Hd & Hp'). eauto.
Qed.

Lemma list_run_None kind room ops : foldl (fun cs o => cs ← cs; list_step kind room o cs) None ops = None.
Proof. by induction ops. Qed.

Lemma page_run_ok kind ops : forall p cs cs', related kind p cs -> list_run kind (usable - cellOffset kind) ops cs = Some cs' ->
  exists p', page_run ops p = Ret (SQLITE_OK, p') /\ related kind p' cs'.
Proof.
  unfold list_run. induction ops as [|o ops IH]; intros p cs cs' Hr Hl; simpl in Hl |- *.
  - injection Hl as <-. eauto.
  - destruct (list_step _ _ o cs) as [cs1|] eqn:E; [|by rewrite list_run_None in Hl].
    destruct (page_step_ok _ _ _ _ _ Hr E) as (p1 & -> & Hr1). cbn [mbind outcome_bind]. by apply (IH p1 cs1).
Qed.

(** The page [zeroPage] makes is related to the empty list. *)
Lemma zeroPage_related q flags : len (aData q) = pageSize pBt -> bytes (aData q) -> hdrOffset q = 0 \/ hdrOffset q = 100 ->
  In flags [2; 5; 10; 13] -> exists p, zeroPage pBt q flags = Ret p /\ related p p [] /\ nFree p = usable - cellOffset p /\
    hdrOffset p = hdrOffset q /\ cellOffset p = hdrOffset q + (if Z.land flags PTF_LEAF =? 0 then 12 else 8).
Proof.
  intros Hl B Hh Hf. destruct (zeroPage_ok q flags Hl B Hh Hf) as (p & Hz & Hho & Hh' & Hoff). exists p.
  pose proof Hho as [_ _ Hfree (cells & fl & top & [Sh _ _] & _)]. simpl in Hfree.
  split_and!; try done; [|lia]. split; [done|by split_and!|by apply Sh].
Qed.

(** C31: A page is a list of cells with a budget of bytes.  Take any buffer, let
    [zeroPage] make an empty page of one of the four kinds in it, and do any
    insertions ([insertCellFast], and [insertCell] with the number of a child
    on interior pages) and removals ([cellSize] and [dropCell]) that a list of
    cells allows whose cells, with two bytes for each pointer, never exceed the
    budget the page starts with.  Then every call returns [SQLITE_OK] -- however
    the free space is split, a cell for which there are bytes enough is stored
    -- no access leaves the buffer and no assertion fails, reading the page by
    [findCell] and [cellSize] gives exactly the cells of the list, [nFree] is
    exactly what is left of the budget, and [btreeInitPage] with
    [btreeComputeFreeSpace] restore the page, field by field, from its bytes.  A
    cell for which there are not bytes enough is neither lost nor half written:
    it becomes the overflow cell of the page, whose bytes stay as they are. *)
Theorem page_refines_list q flags : len (aData q) = pageSize pBt -> bytes (aData q) -> hdrOffset q = 0 \/ hdrOffset q = 100 ->
  In flags [2; 5; 10; 13] ->
  exists p0, zeroPage pBt q flags = Ret p0 /\
    nFree p0 = usable - hdrOffset q - (if Z.land flags PTF_LEAF =? 0 then 12 else 8) /\
    forall ops cs, list_run p0 (nFree p0) ops [] = Some cs ->
      exists p, page_run ops p0 = Ret (SQLITE_OK, p) /\ page_cells p = Ret cs /\ nFree p = nFree p0 - cell_bytes cs /\
        hdrOffset p = hdrOffset q /\ (forall u, unread p u -> reload u = Ret (SQLITE_OK, p)) /\
        forall i c, well_formed p0 c = true -> (i <= length cs)%nat -> nFree p < 2 + len c ->
          page_step (InsertCell i c) p = Ret (SQLITE_OK, with_ovfl p [(Z.of_nat i, c)]).
Proof.
  intros Hl B Hh Hf. destruct (zeroPage_related q flags Hl B Hh Hf) as (p0 & Hz & Hr & Hn & Hh' & Hoff).
  exists p0. split; [done|]. split; [lia|]. intros ops cs Hrun. rewrite Hn in Hrun.
  destruct (page_run_ok p0 ops p0 [] cs Hr Hrun) as (p & Hp & Hrp). exists p. split; [done|].
  split; [apply page_cells_ok, Hrp|]. split; [rewrite (related_room _ _ _ Hrp); lia|].
  split; [by destruct (re_kind _ _ _ Hrp) as (_ & _ & _ & _ & -> & _)|].
  split; [intros u Hu; eapply reload_ok, Hu; apply Hrp|]. intros i c Hc Hi Hfull.
  pose proof (cell_ok_kind pBt _ _ _ (re_kind _ _ _ Hrp) (well_formed_ok _ _ Hc)) as Hc'.
  pose proof (insertCellFast_ok CORRUPT_DB pBt Hpar None p cs i c (re_holds _ _ _ Hrp) Hc' Hi) as Hins.
  by rewrite (proj2 (Z.leb_gt _ _)) in Hins by lia.
Qed.
End Load.

(** ** Pages with arbitrary bytes *)

Section Corrupt.
Context `{Build}.
Variable pBt : BtShared.
Hypothesis Hpar : params_ok pBt.
Abbreviation usable := (usableSize pBt).

(** The walk over a chain of any bytes ends: a block begins behind the one
    before. *)
Lemma sum_free_total fuel l pc acc : bytes l -> 0 <= pc -> usable <= len l -> (0 < fuel)%nat -> usable - pc < Z.of_nat fuel ->
  exists r, sum_free pBt fuel l pc acc = Ret r.
Proof.
  revert pc acc. induction fuel as [|fuel IH]; intros pc acc B Hpc Hl Hf0 Hf; [lia|].
  cbn [sum_free]. destruct (Z.ltb_spec (usable - 4) pc); [eauto|]. rewrite !get2byte_ok by (done || lia). cbn [mbind outcome_bind].
  pose proof (get2_range l (pc + 2) B). pose proof (get2_range l pc B).
  destruct (Z.leb_spec (get2 l pc) (pc + get2 l (pc + 2) + 3)); [eauto|]. apply IH; done || lia.
Qed.

Lemma decode_total p flag : exists rc c l i il m1 mx mn f, decodeFlags pBt p flag = Ret (rc, with_kind p c l i il m1 mx mn f) /\
  (rc = SQLITE_OK \/ rc = SQLITE_CORRUPT) /\ (c = 0 \/ c = 4).
Proof. unfold decodeFlags. repeat case_match; do 9 eexists; (split; [reflexivity|]); auto. Qed.

Definition load_answer (p q : MemPage) (rc : Z) : Prop :=
  aData p = aData q /\
  (rc = SQLITE_CORRUPT \/ rc = SQLITE_OK /\ 0 <= nCell p <= MX_CELL pBt /\ 0 <= nFree p <= usable - (hdrOffset q + 8 + childPtrSize p + 2 * nCell p)).

Lemma get2byteNotZero_total l k : bytes l -> 0 <= k -> k + 2 <= len l -> exists v, get2byteNotZero l k = Ret v /\ 1 <= v <= 65536.
Proof.
  intros B Hk Hl. unfold get2byteNotZero. rewrite get2byte_ok by done. cbn [mbind outcome_bind]. eexists. split; [done|].
  change 65535 with (Z.ones 16). rewrite Z.land_ones by lia. pose proof (Z.mod_pos_bound (get2 l k - 1) (2 ^ 16)). lia.
Qed.

Lemma compute_free_total p : bytes (aData p) -> usable <= len (aData p) -> hdrOffset p = 0 \/ hdrOffset p = 100 -> isInit p = true ->
  nFree p < 0 -> 0 <= nCell p <= MX_CELL pBt -> 0 <= childPtrSize p ->
  exists rc p', btreeComputeFreeSpace pBt p = Ret (rc, p') /\ load_answer p' p rc.
Proof.
  intros B Hl Hh Hi Hn Hc Hch. pose proof (page_bounds _ Hpar) as (Hu & Hp). unfold btreeComputeFreeSpace.
  rewrite Hi, (proj2 (Z.ltb_lt (nFree p) 0)), !assert_true by done. cbn [mbind outcome_bind].
  destruct (get2byteNotZero_total (aData p) (hdrOffset p + 5)) as (top & -> & Htop); [done|lia..|]. cbn [mbind outcome_bind].
  rewrite get2byte_ok, rd_ok by (done || lia). cbn [mbind outcome_bind]. set (pc := get2 (aData p) (hdrOffset p + 1)).
  set (sum := if 0 <? pc then _ else _). assert (exists r, sum = Ret r) as (r & ->).
  { subst sum. destruct (0 <? pc); [|eauto]. destruct (pc <? top); [eauto|].
    destruct (sum_free_total (chain_fuel pBt) (aData p) pc (at_ (aData p) (hdrOffset p + 7) + top)) as (r & ->); try done.
    - apply get2_range, B.
    - unfold chain_fuel. lia.
    - unfold chain_fuel. pose proof (get2_range _ (hdrOffset p + 1) B). fold pc in H0. lia.
    - cbn [mbind outcome_bind]. destruct r as [[[[? ?] ?] ?]|]; [|eauto]. repeat (destruct (_ <? _)); eauto. }
  cbn [mbind outcome_bind]. destruct r as [f|]; [|do 2 eexists; split; [done|]; split; [done|by left]].
  destruct (_ || _) eqn:E; [do 2 eexists; split; [done|]; split; [done|by left]|].
  apply orb_false_iff in E as [E1 E2]. apply Z.ltb_ge in E1, E2. do 2 eexists. split; [done|]. split; [done|]. right.
  cbn [nFree nCell with_counts childPtrSize]. split; [done|]. split; [done|]. unfold u16. rewrite Z.mod_small by lia. lia.
Qed.

(** C34: Loading a page is safe whatever its bytes are.  For any content of the
    buffer, with the cell size check off, [btreeInitPage] and
    [btreeComputeFreeSpace] read nothing outside the buffer, fail no assertion
    that is not switched off for damaged files, and return: [SQLITE_CORRUPT], or
    [SQLITE_OK] with no more cells than [MX_CELL] allows and free bytes that
    fit between the cell pointers and the end of the page.  In particular the
    walk over the free blocks ends on a chain that has a cycle. *)
Theorem page_load_total q : len (aData q) = pageSize pBt -> bytes (aData q) -> hdrOffset q = 0 \/ hdrOffset q = 100 ->
  isInit q = false -> cellSizeCk pBt = false ->
  exists rc p, reload true pBt q = Ret (rc, p) /\ load_answer p q rc.
Proof.
  intros Hl B Hh Hi Hck. pose proof (page_bounds _ Hpar) as (Hu & Hp). unfold reload, btreeInitPage.
  rewrite Hi, (assert_true (negb false)) by done. cbn [mbind outcome_bind]. rewrite rd_ok by lia. cbn [mbind outcome_bind].
  destruct (decode_total q (at_ (aData q) (hdrOffset q))) as (rc & c & l & i & il & m1 & mx & mn & f & -> & Hrc & Hcs).
  cbn [mbind outcome_bind]. destruct (negb (rc =? SQLITE_OK)) eqn:E; [do 2 eexists; split; [done|]; split; [done|by left]|].
  rewrite (assert_true (_ && _)) by (rewrite andb_true_iff, !Z.leb_le; lia). cbn [mbind outcome_bind aData hdrOffset with_kind].
  rewrite get2byte_ok by (done || lia). cbn [mbind outcome_bind aData hdrOffset with_init with_kind].
  destruct (Z.ltb_spec (MX_CELL pBt) (get2 (aData q) (hdrOffset q + 3)));
    [do 2 eexists; split; [done|]; split; [done|by left]|].
  destruct (get2byteNotZero_total (aData q) (hdrOffset q + 5)) as (top & -> & _); [done|lia..|]. cbn [mbind outcome_bind].
  rewrite assert_true by apply orb_true_r. cbn [mbind outcome_bind]. rewrite Hck. cbn [mbind outcome_bind].
  change (negb (SQLITE_OK =? SQLITE_OK)) with false. cbn iota.
  match goal with |- context [btreeComputeFreeSpace pBt ?p] => destruct (compute_free_total p) as (rc' & p' & -> & Ha) end; try done; simpl; try lia.
  - pose proof (get2_range _ (hdrOffset q + 3) B). lia.
  - eauto.
Qed.
End Corrupt.

(** ** Concrete pages *)

#[local] Existing Instance debug_build.

(** A file with pages of 512 bytes, as [lockBtree] computes its limits, and a
    buffer with old content. *)
Definition small_file (check : bool) : BtShared :=
  {| btsFlags := 0; b_max1bytePayload := 102; b_maxLocal := 102; b_minLocal := 39; maxLeaf := 477; minLeaf := 39;
     pageSize := 512; usableSize := 512; cellSizeCk := check |}.
Definition buffer (v : Z) : MemPage :=
  {| isInit := false; intKey := false; intKeyLeaf := false; leaf := false; hdrOffset := 0; childPtrSize := 0;
     max1bytePayload := 0; maxLocal := 0; minLocal := 0; cellOffset := 0; nFree := -1; nCell := 0; maskPage := 0;
     aOvfl := []; aData := replicate 512 v; xCellSize := m_cellSizePtr |}.

Lemma small_file_ok check : params_ok (small_file check).
Proof. split; [simpl; lia|]. exists 9. split; [lia|done]. Qed.

(** A row of a table with key [k] and [n] bytes of payload. *)
Definition row (n k : Z) : list Z := [n; k] ++ replicate (Z.to_nat n) (k + 100).

(** Four rows; two that are not adjacent are removed, and a longer one comes,
    for which the page has to be defragmented. *)
Definition history : list page_op :=
  [InsertCell 0 (row 110 1); InsertCell 1 (row 110 2); InsertCell 1 (row 110 3); InsertCell 0 (row 110 4);
   DropCell 1; DropCell 1; InsertCell 1 (row 120 7); InsertCell 3 (row 97 5)].

Lemma page_refines_list_witness : exists p0 p, zeroPage (small_file true) (buffer 7) 13 = Ret p0 /\
  page_run false (small_file true) history p0 = Ret (SQLITE_OK, p) /\
  page_cells (small_file true) p = Ret [row 110 4; row 120 7; row 110 2; row 97 5] /\
  reload false (small_file true) (with_data (buffer 0) (aData p)) = Ret (SQLITE_OK, p) /\
  page_step false (small_file true) (InsertCell 2 (row 60 9)) p = Ret (SQLITE_OK, with_ovfl p [(2, row 60 9)]).
Proof.
  destruct (page_refines_list false (small_file true) (small_file_ok true) (buffer 7) 13)
    as (p0 & Hz & Hn & Hrun); [done|apply bytes_replicate; lia|by left|simpl; tauto|].
  destruct (Hrun history [row 110 4; row 120 7; row 110 2; row 97 5]) as (p & Hp & Hc & Hfree & Hh & Hl & Hfull).
  { rewrite Hn. clear -Hz. vm_compute in Hz. injection Hz as <-. vm_compute. reflexivity. }
  exists p0, p. split; [exact Hz|]. split; [exact Hp|]. split; [exact Hc|].
  split; [apply Hl; by split_and!|]. apply (Hfull 2%nat).
  - clear -Hz. vm_compute in Hz. injection Hz as <-. reflexivity.
  - simpl. lia.
  - rewrite Hfree, Hn. reflexivity.
Defined.

(** A page whose bytes are all 13 has far too many cells. *)
Lemma page_load_total_witness : exists rc p, reload true (small_file false) (buffer 13) = Ret (rc, p) /\
  load_answer (small_file false) p (buffer 13) rc /\ rc = SQLITE_CORRUPT.
Proof.
  destruct (page_load_total (small_file false) (small_file_ok false) (buffer 13)) as (rc & p & Hr & Ha); try done.
  - apply bytes_replicate; lia.
  - by left.
  - exists rc, p. split; [exact Hr|]. split; [exact Ha|]. vm_compute in Hr. by injection Hr.
Defined.
