(* ===== verification/PageParse.v ===== *)
(** * The cells of B-tree pages: deps/sqlite3/sqlite3.c, btree.c

    How a record becomes a cell and is found in it again.  [fillInCell] writes
    the header and the payload, and spreads what does not fit over a chain of
    overflow pages; the functions behind [xParseCell] read the header, with
    inlined copies of the decoder of variable-length integers.  Proved are the
    equivalence of the inlined decoder with [sqlite3GetVarint], the agreement of
    the two ways to measure a cell, and the round trip. *)

From S2P Require Import Prelude Words Chars Varint Page PageSpace PageCells PageList PageLoad.

Abbreviation rd := Page.rd.

(** ** Parsing *)

(** [pPayload] as an index into the cell; 0 stands for the null pointer. *)
Record CellInfo := { nKey : Z; pPayload : Z; nPayload : Z; nLocal : Z; nSize : Z }.

(** The limits of local payload that [lockBtree] computes from the page size. *)
Definition lockBtree_limits (b : BtShared) : BtShared :=
  let local k := u16 (u32 (u32 (u32 (usableSize b - 12) * k) / 255 - 23)) in
  {| btsFlags := btsFlags b;
     b_max1bytePayload := if 127 <? local 64 then 127 else uchar (local 64);
     b_maxLocal := local 64; b_minLocal := local 32; maxLeaf := u16 (u32 (usableSize b - 35)); minLeaf := local 32;
     pageSize := pageSize b; usableSize := usableSize b; cellSizeCk := cellSizeCk b |}.

Section Parse.
Context `{Build}.
Variable pBt : BtShared.
Abbreviation usable := (usableSize pBt).

(** The adjusted [nLocal] and [nSize]; [pay] is [pPayload - pCell]. *)
Definition btreeParseCellAdjustSizeForOverflow (p : MemPage) (payload pay : Z) : Z * Z :=
  let surplus := i32 (u32 (minLocal p + u32 (payload - minLocal p) mod u32 (usable - 4))) in
  let local := if surplus <=? maxLocal p then u16 surplus else u16 (minLocal p) in
  (local, u16 (u16 (pay + local) + 4)).

Definition btreePayloadToLocal (p : MemPage) (payload : Z) : Z :=
  if payload <=? maxLocal p then payload
  else
    let surplus := i32 (minLocal p + Z.rem (payload - minLocal p) (usable - 4)) in
    if surplus <=? maxLocal p then surplus else minLocal p.

Definition btreeParseCellPtrNoPayload (p : MemPage) (pCell : list Z) : outcome CellInfo :=
  _ ← assert_ (negb (leaf p));
  _ ← assert_ (childPtrSize p =? 4);
  '(n, key) ← sqlite3GetVarint (from_ptr pCell 4);
  Ret {| nKey := i64 key; pPayload := 0; nPayload := 0; nLocal := 0; nSize := u16 (4 + n) |}.

(** The unrolled decoder: the key and the pointer behind it. *)
Definition parse_key (pCell : list Z) (pIter : Z) : outcome (Z * Z) :=
  let shift k := u64 (Z.shiftl k 7) in
  iKey ← rd pCell pIter;
  '(iKey, pIter) ← (if 0x80 <=? iKey then
    x ← rd pCell (pIter + 1);
    let iKey := Z.lxor (shift iKey) x in
    if 0x80 <=? x then
      x ← rd pCell (pIter + 2);
      let iKey := Z.lxor (shift iKey) x in
      if 0x80 <=? x then
        x ← rd pCell (pIter + 3);
        let iKey := Z.lxor (Z.lxor (shift iKey) 0x10204000) x in
        if 0x80 <=? x then
          x ← rd pCell (pIter + 4);
          let iKey := Z.lxor (Z.lxor (shift iKey) 0x4000) x in
          if 0x80 <=? x then
            x ← rd pCell (pIter + 5);
            let iKey := Z.lxor (Z.lxor (shift iKey) 0x4000) x in
            if 0x80 <=? x then
              x ← rd pCell (pIter + 6);
              let iKey := Z.lxor (Z.lxor (shift iKey) 0x4000) x in
              if 0x80 <=? x then
                x ← rd pCell (pIter + 7);
                let iKey := Z.lxor (Z.lxor (shift iKey) 0x4000) x in
                if 0x80 <=? x then
                  x ← rd pCell (pIter + 8);
                  Ret (Z.lxor (Z.lxor (u64 (Z.shiftl iKey 8)) 0x8000) x, pIter + 8)
                else Ret (iKey, pIter + 7)
              else Ret (iKey, pIter + 6)
            else Ret (iKey, pIter + 5)
          else Ret (iKey, pIter + 4)
        else Ret (iKey, pIter + 3)
      else Ret (Z.lxor iKey 0x204000, pIter + 2)
    else Ret (Z.lxor iKey 0x4000, pIter + 1)
  else Ret (iKey, pIter));
  Ret (iKey, pIter + 1).

(** The end of both parsers. *)
Definition parse_sizes (p : MemPage) (key payload pIter : Z) : CellInfo :=
  let '(local, size) :=
    if payload <=? maxLocal p then (u16 payload, Z.max 4 (u16 (payload + u16 pIter)))
    else btreeParseCellAdjustSizeForOverflow p payload pIter in
  {| nKey := key; pPayload := pIter; nPayload := payload; nLocal := local; nSize := size |}.

Definition btreeParseCellPtr (p : MemPage) (pCell : list Z) : outcome CellInfo :=
  _ ← assert_ (intKeyLeaf p);
  _ ← assert_ (childPtrSize p =? 0);
  '(payload, pIter) ← payload_size pCell 0;
  '(iKey, pIter) ← parse_key pCell pIter;
  Ret (parse_sizes p (i64 iKey) payload pIter).

Definition btreeParseCellPtrIndex (p : MemPage) (pCell : list Z) : outcome CellInfo :=
  _ ← assert_ (negb (intKeyLeaf p));
  '(payload, pIter) ← payload_size pCell (childPtrSize p);
  Ret (parse_sizes p payload payload pIter).

(** [xParseCell], which [decodeFlags] sets together with [xCellSize]. *)
Definition call_xParseCell (p : MemPage) (pCell : list Z) : outcome CellInfo :=
  match xCellSize p with
  | m_cellSizePtr | m_cellSizePtrIdxLeaf => btreeParseCellPtrIndex p pCell
  | m_cellSizePtrNoPayload => btreeParseCellPtrNoPayload p pCell
  | m_cellSizePtrTableLeaf => btreeParseCellPtr p pCell
  end.

Definition btreeParseCell (p : MemPage) (iCell : Z) : outcome CellInfo :=
  k ← findCell p iCell;
  call_xParseCell p (from_ptr (aData p) k).

(** ** Filling *)

(** What [pX] points to: the content of an index entry, or the key, the data
    and the number of zeros behind it of a table row. *)
Record BtreePayload := { pKey : list Z; x_nKey : Z; pData : list Z; nData : Z; nZero : Z }.

(** [putVarint32] and [putVarint]: the buffer and the number of bytes written. *)
Definition put_varint (pCell : list Z) (k v : Z) : outcome (list Z * Z) :=
  bs ← sqlite3PutVarint v;
  pCell ← memcpy pCell k bs 0 (len bs);
  Ret (pCell, len bs).
Definition putVarint32 (pCell : list Z) (k v : Z) : outcome (list Z * Z) :=
  if u32 v <? 0x80 then pCell ← wr pCell k v; Ret (pCell, 1) else put_varint pCell k (u64 v).

(** What the pager answers for the [k]-th overflow page: the code after its
    allocation and its entry in the pointer map, its number and its content. *)
Variable allocateBtreePage : nat -> Z * Z * list Z.

(** The loop that writes the payload into [buf] at [pPayload], with the number
    of the next page to go to [pPrior]; the code, the buffer, and the overflow
    pages with their numbers. *)
Fixpoint fill_loop (fuel k : nat) (buf : list Z) (pPrior pPayload spaceLeft : Z) (src : list Z) (pSrc nSrc payload : Z)
  : outcome (Z * list Z * list (Z * list Z)) :=
  match fuel with
  | O => OutOfFuel
  | S fuel =>
      let n := Z.min payload spaceLeft in
      '(n, buf) ← (if n <=? nSrc then buf ← memcpy buf pPayload src pSrc n; Ret (n, buf)
                   else if 0 <? nSrc then buf ← memcpy buf pPayload src pSrc nSrc; Ret (nSrc, buf)
                   else buf ← memset buf pPayload 0 n; Ret (n, buf));
      let payload := payload - n in
      if payload <=? 0 then Ret (SQLITE_OK, buf, []) else
      let pPayload := pPayload + n in
      let pSrc := pSrc + n in
      let nSrc := nSrc - n in
      let spaceLeft := spaceLeft - n in
      if spaceLeft =? 0 then
        let '(rc, pgnoOvfl, aData) := allocateBtreePage k in
        if negb (rc =? SQLITE_OK) then Ret (rc, buf, []) else
        buf ← sqlite3Put4byte buf pPrior pgnoOvfl;
        aData ← sqlite3Put4byte aData 0 0;
        '(rc, aData, rest) ← fill_loop fuel (S k) aData 0 4 (usable - 4) src pSrc nSrc payload;
        Ret (rc, buf, (pgnoOvfl, aData) :: rest)
      else fill_loop fuel k buf pPrior pPayload spaceLeft src pSrc nSrc payload
  end.

(** Two passes for every page, one to the end of the source and one behind. *)
Definition fill_fuel (payload : Z) : nat := S (S (Z.to_nat payload)).

(** The header: the buffer, [nHeader], [nPayload], [pSrc] and [nSrc]. *)
Definition fill_header (p : MemPage) (pCell : list Z) (pX : BtreePayload) : outcome (list Z * Z * Z * list Z * Z) :=
  let nHeader := childPtrSize p in
  if intKey p then
    let payload := nData pX + nZero pX in
    if negb (i32 payload =? payload) then Undefined else
    _ ← assert_ (intKeyLeaf p);
    '(pCell, n) ← putVarint32 pCell nHeader payload;
    let nHeader := nHeader + n in
    '(pCell, n) ← put_varint pCell nHeader (u64 (x_nKey pX));
    Ret (pCell, nHeader + n, payload, pData pX, nData pX)
  else
    _ ← assert_ (x_nKey pX <=? 0x7fffffff);
    let payload := i32 (x_nKey pX) in
    '(pCell, n) ← putVarint32 pCell nHeader payload;
    Ret (pCell, nHeader + n, payload, pKey pX, payload).

(** The code, [*pnSize], the cell and the overflow pages. *)
Definition fillInCell (p : MemPage) (pCell : list Z) (pX : BtreePayload) : outcome (Z * Z * list Z * list (Z * list Z)) :=
  '(pCell, nHeader, payload, src, nSrc) ← fill_header p pCell pX;
  if payload <=? maxLocal p then
    let n := nHeader + payload in
    '(n, pCell) ← (if n <? 4 then pCell ← wr pCell (nHeader + payload) 0; Ret (4, pCell) else Ret (n, pCell));
    _ ← assert_ (nSrc <=? payload);
    pCell ← memcpy pCell nHeader src 0 nSrc;
    pCell ← memset pCell (nHeader + nSrc) 0 (payload - nSrc);
    Ret (SQLITE_OK, n, pCell, [])
  else
    let mn := minLocal p in
    let n := i32 (u32 (mn + u32 (payload - mn) mod u32 (usable - 4))) in
    let n := if maxLocal p <? n then mn else n in
    '(rc, pCell, pages) ← fill_loop (fill_fuel payload) 0 pCell (nHeader + n) nHeader n src 0 nSrc payload;
    Ret (rc, n + nHeader + 4, pCell, pages).

End Parse.

(** ** Lemmas: reading variable-length integers *)

Lemma rd_cons l k : 0 <= k -> rd l k = match from_ptr l k with b :: _ => Ret b | [] => Undefined end.
Proof.
  intros Hk. unfold Page.rd, inside, from_ptr, at_, len. rewrite nth_lookup.
  destruct (l !! Z.to_nat k) as [b|] eqn:E.
  - rewrite (drop_S _ _ _ E). pose proof (lookup_lt_Some _ _ _ E).
    by rewrite (proj2 (Z.leb_le 0 k)), (proj2 (Z.leb_le (k + 1) _)) by lia.
  - apply lookup_ge_None in E. rewrite drop_ge by done. by rewrite (proj2 (Z.leb_gt (k + 1) _)), andb_false_r by lia.
Qed.

Lemma from_ptr_next l k b r : 0 <= k -> from_ptr l k = b :: r -> from_ptr l (k + 1) = r.
Proof.
  intros Hk Hd. unfold from_ptr in *. replace (Z.to_nat (k + 1)) with (Z.to_nat k + 1)%nat by lia.
  rewrite <- drop_drop, Hd. done.
Qed.

Lemma decode_step g acc l k : 0 <= k -> decode_from (S g) acc (from_ptr l k) =
  (b ← rd l k; if b <? 128 then Ret (1, acc * 128 + b)
   else '(n, v) ← decode_from g (acc * 128 + (b - 128)) (from_ptr l (k + 1)); Ret (n + 1, v)).
Proof.
  intros Hk. rewrite rd_cons by done. destruct (from_ptr l k) as [|b r] eqn:E; [done|].
  by rewrite (from_ptr_next _ _ _ _ Hk E).
Qed.

Lemma decode_end acc l k : 0 <= k -> decode_from 0 acc (from_ptr l k) = (b ← rd l k; Ret (1, acc * 256 + b)).
Proof. intros Hk. rewrite rd_cons by done. by destruct (from_ptr l k). Qed.

Lemma rd_byte l k b : bytes l -> rd l k = Ret b -> 0 <= b < 256.
Proof. intros B. unfold Page.rd. destruct (inside _ _ _); [|done]. intros [= <-]. apply B. Qed.

Lemma rd_fails l k : rd l k = Undefined \/ exists b, rd l k = Ret b.
Proof. unfold Page.rd. destruct (inside _ _ _); eauto. Qed.

Lemma bytes_Forall_byte l : bytes l -> Forall byte l.
Proof.
  intros B. apply Forall_lookup. intros i b Hi. specialize (B (Z.of_nat i)). unfold at_ in B.
  rewrite Nat2Z.id, nth_lookup, Hi in B. exact B.
Qed.

Lemma bytes_from_ptr l k : bytes l -> Forall byte (from_ptr l k).
Proof. intros B. apply Forall_drop, bytes_Forall_byte, B. Qed.

Lemma getVarint_decode l k : bytes l -> sqlite3GetVarint (from_ptr l k) = decode (from_ptr l k).
Proof. intros B. apply decoder_agrees, bytes_from_ptr, B. Qed.

(** *** The unrolled decoder, whose accumulator carries continuation bits *)

Lemma lxor_bound a b n : 0 <= n -> 0 <= a < 2 ^ n -> 0 <= b < 2 ^ n -> 0 <= Z.lxor a b < 2 ^ n.
Proof.
  intros Hn Ha Hb. apply range_of_bits; [lia|by apply Z.lxor_nonneg; split; lia|].
  intros j Hj. rewrite Z.lxor_spec, !(testbit_high _ n) by lia. done.
Qed.

Lemma lxor_low a l n : 0 <= n -> 0 <= a -> 0 <= l < 2 ^ n -> Z.lxor (Z.shiftl a n) l = a * 2 ^ n + l.
Proof.
  intros Hn Ha Hl. rewrite <- Z.add_nocarry_lxor; [by rewrite Z.shiftl_mul_pow2 by lia|].
  apply Z.bits_inj'. intros i Hi. rewrite Z.land_spec, Z.shiftl_spec, Z.bits_0 by done.
  destruct (Z_lt_le_dec i n); [by rewrite (Z.testbit_neg_r a) by lia|]. by rewrite (testbit_high l n), andb_false_r by lia.
Qed.

(** One more byte [x] behind the accumulator [a] with the bits [c] too many. *)
Lemma key_last a c x : 0 <= a < 2 ^ 49 -> 0 <= c < 2 ^ 49 -> 0 <= x < 128 ->
  Z.lxor (u64 (Z.shiftl (Z.lxor a c) 7)) x = Z.lxor (a * 128 + x) (Z.shiftl c 7).
Proof.
  intros Ha Hc Hx. pose proof (lxor_bound a c 49 ltac:(lia) Ha Hc). rewrite u64_id.
  - rewrite Z.shiftl_lxor, (Z.lxor_comm (Z.shiftl a 7)), Z.lxor_assoc, (lxor_low a x 7) by lia. apply Z.lxor_comm.
  - rewrite Z.shiftl_mul_pow2 by lia. lia.
Qed.

Lemma key_more a c x : 0 <= a < 2 ^ 49 -> 0 <= c < 2 ^ 49 -> 128 <= x < 256 ->
  Z.lxor (u64 (Z.shiftl (Z.lxor a c) 7)) x = Z.lxor (a * 128 + (x - 128)) (Z.lxor (Z.shiftl c 7) 128).
Proof.
  intros Ha Hc Hx. assert (Z.lxor (x - 128) 128 = x) as E.
  { rewrite Z.lxor_comm. change 128 with (Z.shiftl 1 7) at 1. rewrite (lxor_low 1 (x - 128) 7) by lia. lia. }
  rewrite <- E at 1. by rewrite <- Z.lxor_assoc, key_last, Z.lxor_assoc by lia.
Qed.

Lemma key_end a x : 0 <= a < 2 ^ 56 -> 0 <= x < 256 ->
  Z.lxor (Z.lxor (u64 (Z.shiftl (Z.lxor a 0x80) 8)) 0x8000) x = a * 256 + x.
Proof.
  intros Ha Hx. pose proof (lxor_bound a 0x80 56 ltac:(lia) Ha ltac:(lia)). rewrite u64_id.
  - rewrite Z.shiftl_lxor. change (Z.shiftl 0x80 8) with 0x8000. rewrite (Z.lxor_assoc (Z.shiftl a 8)), Z.lxor_nilpotent, Z.lxor_0_r.
    by rewrite (lxor_low a x 8) by lia.
  - rewrite Z.shiftl_mul_pow2 by lia. lia.
Qed.

Lemma lxor_swap a b c : Z.lxor (Z.lxor a b) c = Z.lxor (Z.lxor a c) b.
Proof. by rewrite Z.lxor_assoc, (Z.lxor_comm b), <- Z.lxor_assoc. Qed.

(** The same with a correction [k] that removes what is too much, and leaves [d]. *)
Lemma key_last_fix a c k x : 0 <= a < 2 ^ 49 -> 0 <= c < 2 ^ 49 -> 0 <= x < 128 -> Z.shiftl c 7 = k ->
  Z.lxor (Z.lxor (u64 (Z.shiftl (Z.lxor a c) 7)) x) k = a * 128 + x.
Proof. intros Ha Hc Hx <-. by rewrite key_last, Z.lxor_assoc, Z.lxor_nilpotent, Z.lxor_0_r by lia. Qed.

Lemma key_more_fix a c k d x : 0 <= a < 2 ^ 49 -> 0 <= c < 2 ^ 49 -> 128 <= x < 256 ->
  Z.lxor (Z.lxor (Z.shiftl c 7) 128) k = d ->
  Z.lxor (Z.lxor (u64 (Z.shiftl (Z.lxor a c) 7)) k) x = Z.lxor (a * 128 + (x - 128)) d.
Proof. intros Ha Hc Hx <-. by rewrite lxor_swap, key_more, Z.lxor_assoc by lia. Qed.

Lemma key_first x : 128 <= x < 256 -> x = Z.lxor (0 * 128 + (x - 128)) 0x80.
Proof. intros Hx. rewrite Z.lxor_comm. change 0x80 with (Z.shiftl 1 7) at 1. rewrite (lxor_low 1 (0 * 128 + (x - 128)) 7) by lia. lia. Qed.

(** The inlined decoder computes what the format says. *)
Ltac key_read l B :=
  match goal with |- context [rd l ?k] =>
    let x := fresh "x" in let Hx := fresh "Hx" in let E := fresh "E" in
    destruct (rd_fails l k) as [E|[x E]]; rewrite E; [done|];
    pose proof (rd_byte _ _ _ B E) as Hx; cbn [mbind outcome_bind]
  end.
Ltac key_byte l B :=
  rewrite decode_step by lia; rewrite <- ?Z.add_assoc; 
  repeat match goal with |- context [Z.add (Zpos ?p) (Zpos ?q)] =>
    let r := eval vm_compute in (Z.add (Zpos p) (Zpos q)) in change (Z.add (Zpos p) (Zpos q)) with r end;
  key_read l B;
  match goal with |- context [?x <? 128] =>
    destruct (Z.ltb_spec x 128);
    [rewrite (proj2 (Z.leb_gt 0x80 x)) by lia|rewrite (proj2 (Z.leb_le 0x80 x)) by lia]
  end.
Ltac key_done := cbn [mbind outcome_bind]; f_equal; f_equal; lia.
(** Behind a byte that is not the last: the new accumulator, below [2 ^ n], and
    what it has too much. *)
Ltac key_next lem n :=
  rewrite lem by (lia || reflexivity);
  match goal with |- context [Z.lxor (?a * 128 + (?x - 128)) ?d] =>
    let b := fresh "a" in let E := fresh "E" in
    assert (0 <= a * 128 + (x - 128) < 2 ^ n) by lia;
    remember (a * 128 + (x - 128)) as b eqn:E; clear E
  end.

Lemma parse_key_ok l i : bytes l -> 0 <= i -> parse_key l i = ('(n, v) ← decode (from_ptr l i); Ret (v, i + n)).
Proof.
  intros B Hi. unfold decode, parse_key. key_byte l B; [key_done|].
  remember (0 * 128 + (x - 128)) as a0 eqn:Ea. assert (x = Z.lxor a0 0x80) as Ex by (subst; apply key_first; lia).
  assert (0 <= a0 < 2 ^ 7) by lia. clear Ea. rewrite Ex.
  key_byte l B; [rewrite key_last_fix by (lia || done); key_done|]. key_next (key_more a0 0x80 x0) 14.
  change (Z.lxor (Z.shiftl 0x80 7) 128) with 0x4080.
  key_byte l B; [rewrite key_last_fix by (lia || done); key_done|]. key_next (key_more a 0x4080 x1) 21.
  change (Z.lxor (Z.shiftl 0x4080 7) 128) with 0x204080.
  key_byte l B; [rewrite lxor_swap, key_last_fix by (lia || done); key_done|]. key_next (key_more_fix a1 0x204080 0x10204000 0x80 x2) 28.
  key_byte l B; [rewrite lxor_swap, key_last_fix by (lia || done); key_done|]. key_next (key_more_fix a2 0x80 0x4000 0x80 x3) 35.
  key_byte l B; [rewrite lxor_swap, key_last_fix by (lia || done); key_done|]. key_next (key_more_fix a3 0x80 0x4000 0x80 x4) 42.
  key_byte l B; [rewrite lxor_swap, key_last_fix by (lia || done); key_done|]. key_next (key_more_fix a4 0x80 0x4000 0x80 x5) 49.
  key_byte l B; [rewrite lxor_swap, key_last_fix by (lia || done); key_done|]. key_next (key_more_fix a5 0x80 0x4000 0x80 x6) 56.
  rewrite decode_end by lia. key_read l B. rewrite key_end by lia. key_done.
Qed.

Lemma high_bit b : 0 <= b < 256 -> negb (Z.land b 0x80 =? 0) = (128 <=? b).
Proof.
  intros Hb. destruct (byte_cases b Hb) as [[D ->]|(d & D & ->)]; unfold digit in D.
  - rewrite last_bit by done. unfold last. cbn [val]. symmetry. apply Z.leb_gt. lia.
  - rewrite more_bit by done. unfold more. cbn [val]. symmetry. apply Z.leb_le. lia.
Qed.

(** The test of the key reads no value, and no ninth byte. *)
Lemma skip_key_ok l g acc i n v : bytes l -> 0 <= i -> decode_from g acc (from_ptr l i) = Ret (n, v) -> skip_key g l i = Ret (i + n).
Proof.
  intros B. revert acc i n v. induction g as [|g IH]; intros acc i n v Hi Hd.
  - rewrite decode_end in Hd by done. destruct (rd l i); try done. by injection Hd as <- _.
  - rewrite decode_step in Hd by done. cbn [skip_key]. destruct (rd l i) as [b| | | |] eqn:E; try done. cbn [mbind outcome_bind] in *.
    rewrite high_bit by (by eapply rd_byte). destruct (Z.ltb_spec b 128).
    + rewrite (proj2 (Z.leb_gt 128 b)) by lia. by injection Hd as <- _.
    + rewrite (proj2 (Z.leb_le 128 b)) by lia. apply bind_Ret_inv in Hd as ([n' v'] & Hd & [= <- <-]).
      assert (0 <= i + 1) as Hi1 by lia. rewrite (IH _ _ _ _ Hi1 Hd). f_equal. lia.
Qed.

Lemma skip_varint_S f l i e : skip_varint (S f) l i e =
  (b ← rd l i; if negb (Z.land b 0x80 =? 0) && (i + 1 <? e) then skip_varint f l (i + 1) e else Ret (i + 1)).
Proof. reflexivity. Qed.

Lemma skip_varint_ok l g acc i n v : bytes l -> 0 <= i -> decode_from g acc (from_ptr l i) = Ret (n, v) ->
  skip_varint (S g) l i (i + Z.of_nat (S g)) = Ret (i + n).
Proof.
  intros B. revert acc i n v. induction g as [|g IH]; intros acc i n v Hi Hd.
  - rewrite decode_end in Hd by done. rewrite skip_varint_S. destruct (rd l i); try done. cbn [mbind outcome_bind] in *.
    rewrite (proj2 (Z.ltb_ge (i + 1) _)), andb_false_r by lia. by injection Hd as <- _.
  - rewrite decode_step in Hd by done. rewrite skip_varint_S. destruct (rd l i) as [b| | | |] eqn:E; try done. cbn [mbind outcome_bind] in *.
    rewrite high_bit by (by eapply rd_byte). rewrite (proj2 (Z.ltb_lt (i + 1) _)), andb_true_r by lia. destruct (Z.ltb_spec b 128).
    + rewrite (proj2 (Z.leb_gt 128 b)) by lia. by injection Hd as <- _.
    + rewrite (proj2 (Z.leb_le 128 b)) by lia. apply bind_Ret_inv in Hd as ([n' v'] & Hd & [= <- <-]).
      replace (i + Z.of_nat (S (S g))) with (i + 1 + Z.of_nat (S g)) by lia. assert (0 <= i + 1) as Hi1 by lia. rewrite (IH _ _ _ _ Hi1 Hd). f_equal. lia.
Qed.

(** *** The payload size *)

Lemma size_add acc b : 0 <= acc -> 0 <= b < 256 ->
  Z.lor (u32 (Z.shiftl (u32 acc) 7)) (Z.land b 0x7f) = u32 (acc * 128 + b mod 128).
Proof.
  intros Ha Hb. change 0x7f with (Z.ones 7). rewrite Z.land_ones by lia. change (2 ^ 7) with 128.
  pose proof (Z.mod_pos_bound b 128 ltac:(lia)) as Hr. pose proof (Z.mod_pos_bound acc (2 ^ 25) ltac:(lia)) as Hm.
  pose proof (Z.div_mod acc (2 ^ 25) ltac:(lia)) as Hd.
  assert (u32 (Z.shiftl (u32 acc) 7) = 0 + 2 ^ 7 * (acc mod 2 ^ 25)) as ->.
  { rewrite Z.shiftl_mul_pow2 by lia. unfold u32. rewrite Z.mul_mod_idemp_l by lia.
    symmetry. apply (Z.mod_unique _ _ (acc / 2 ^ 25)); lia. }
  replace (b mod 128) with (b mod 128 + 2 ^ 7 * 0) at 1 by lia. rewrite lor_slots, Z.lor_0_l, Z.lor_0_r by lia.
  unfold u32. apply (Z.mod_unique _ _ (acc / 2 ^ 25)); lia.
Qed.

Lemma size_loop_S f l i e n : size_loop (S f) l i e n =
  (b ← rd l (i + 1); let n := Z.lor (u32 (Z.shiftl n 7)) (Z.land b 0x7f) in
   if (0x80 <=? b) && (i + 1 <? e) then size_loop f l (i + 1) e n else Ret (n, i + 1)).
Proof. reflexivity. Qed.

(** The loop reads as many bytes as the decoder; its value is the decoder's,
    modulo [2^32], unless the number has nine bytes. *)
Lemma size_loop_ok l g acc i n v : bytes l -> 0 <= i -> 0 <= acc -> decode_from g acc (from_ptr l (i + 1)) = Ret (n, v) ->
  exists w, size_loop (S g) l i (i + Z.of_nat (S g)) (u32 acc) = Ret (w, i + n) /\ 0 <= w < 2 ^ 32 /\
    (n <= Z.of_nat g -> w = u32 v).
Proof.
  intros B. revert acc i n v. induction g as [|g IH]; intros acc i n v Hi Ha Hd; rewrite size_loop_S.
  - rewrite decode_end in Hd by lia. destruct (rd l (i + 1)) as [b| | | |] eqn:E; try done. cbn [mbind outcome_bind] in *.
    injection Hd as <- _. pose proof (rd_byte _ _ _ B E) as Hb. rewrite size_add by done.
    rewrite (proj2 (Z.ltb_ge (i + 1) _)), andb_false_r by lia. eexists. split; [done|]. split; [apply u32_range|lia].
  - rewrite decode_step in Hd by lia. destruct (rd l (i + 1)) as [b| | | |] eqn:E; try done. cbn [mbind outcome_bind] in *.
    pose proof (rd_byte _ _ _ B E) as Hb. rewrite size_add by done.
    rewrite (proj2 (Z.ltb_lt (i + 1) _)), andb_true_r by lia. destruct (Z.ltb_spec b 128).
    + rewrite (proj2 (Z.leb_gt 0x80 b)) by lia. injection Hd as <- <-. eexists. split; [done|]. split; [apply u32_range|].
      intros _. by rewrite Z.mod_small by lia.
    + rewrite (proj2 (Z.leb_le 0x80 b)) by lia. apply bind_Ret_inv in Hd as ([n' v'] & Hd & [= <- <-]).
      replace (b mod 128) with (b - 128) by (apply (Z.mod_unique _ _ 1); lia).
      destruct (IH (acc * 128 + (b - 128)) (i + 1) n' v') as (w & Hw & Hr & Hv); [lia..|done|].
      replace (i + Z.of_nat (S (S g))) with (i + 1 + Z.of_nat (S g)) by lia. rewrite Hw. exists w.
      split; [do 2 f_equal; lia|]. split; [done|]. intros. apply Hv. lia.
Qed.

Lemma size_loop_inv l g acc i m r : bytes l -> 0 <= i -> size_loop (S g) l i (i + Z.of_nat (S g)) m = Ret r ->
  exists n v, decode_from g acc (from_ptr l (i + 1)) = Ret (n, v).
Proof.
  intros B. revert acc i m. induction g as [|g IH]; intros acc i m Hi Hs; rewrite size_loop_S in Hs.
  - rewrite decode_end by lia. destruct (rd l (i + 1)); try done. eauto.
  - rewrite decode_step by lia. destruct (rd l (i + 1)) as [b| | | |] eqn:E; try done. cbn [mbind outcome_bind] in *.
    destruct (Z.ltb_spec b 128); [eauto|]. rewrite (proj2 (Z.leb_le 0x80 b)), (proj2 (Z.ltb_lt (i + 1) _)) in Hs by lia.
    replace (i + Z.of_nat (S (S g))) with (i + 1 + Z.of_nat (S g)) in Hs by lia.
    destruct (IH (acc * 128 + (b - 128)) (i + 1) _ ltac:(lia) Hs) as (n & v & ->). cbn [mbind outcome_bind]. eauto.
Qed.

Lemma payload_size_inv l i r : bytes l -> 0 <= i -> payload_size l i = Ret r -> exists n v, decode (from_ptr l i) = Ret (n, v).
Proof.
  intros B Hi Hp. unfold payload_size, decode in *. rewrite decode_step by done.
  destruct (rd l i) as [b| | | |] eqn:E; try done. cbn [mbind outcome_bind] in *. destruct (Z.ltb_spec b 128); [eauto|].
  rewrite (proj2 (Z.leb_le 0x80 b)) in Hp by lia. apply bind_Ret_inv in Hp as ([w j] & Hs & _).
  destruct (size_loop_inv l 7 (0 * 128 + (b - 128)) i _ _ B Hi Hs) as (n & v & ->). cbn [mbind outcome_bind]. eauto.
Qed.

Lemma decode_range l i n v : bytes l -> decode (from_ptr l i) = Ret (n, v) -> 1 <= n <= 9 /\ 0 <= v.
Proof. intros B Hd. apply decode_bounds in Hd; [lia|apply bytes_from_ptr, B|lia]. Qed.

Lemma payload_size_ok l i n v : bytes l -> 0 <= i -> decode (from_ptr l i) = Ret (n, v) ->
  exists w, payload_size l i = Ret (w, i + n) /\ 0 <= w < 2 ^ 32 /\ (n <= 8 -> w = u32 v).
Proof.
  intros B Hi Hd. unfold decode in Hd. rewrite decode_step in Hd by done. unfold payload_size.
  destruct (rd l i) as [b| | | |] eqn:E; try done. cbn [mbind outcome_bind] in *. pose proof (rd_byte _ _ _ B E) as Hb.
  destruct (Z.ltb_spec b 128).
  - rewrite (proj2 (Z.leb_gt 0x80 b)) by lia. cbn [mbind outcome_bind]. injection Hd as <- <-. exists b. split; [done|].
    split; [lia|]. intros _. by rewrite u32_id by lia.
  - rewrite (proj2 (Z.leb_le 0x80 b)) by lia. apply bind_Ret_inv in Hd as ([n' v'] & Hd & [= <- <-]).
    replace (Z.land b 0x7f) with (u32 (b - 128)).
    + destruct (size_loop_ok l 7 (b - 128) i n' v' B Hi ltac:(lia) Hd) as (w & Hw & Hr & Hv).
      change (i + Z.of_nat 8) with (i + 8) in Hw. rewrite Hw. cbn [mbind outcome_bind]. exists w. split; [do 2 f_equal; lia|].
      split; [done|]. intros. apply Hv. lia.
    + rewrite u32_id by lia. change 0x7f with (Z.ones 7). rewrite Z.land_ones by lia. apply (Z.mod_unique _ _ 1); lia.
Qed.

(** ** Both measures of a cell *)

Record limits_ok (pBt : BtShared) : Prop := {
  li_local : 35 <= b_minLocal pBt <= b_maxLocal pBt /\ b_maxLocal pBt <= usableSize pBt - 35;
  li_leaf : 35 <= minLeaf pBt <= maxLeaf pBt /\ maxLeaf pBt <= usableSize pBt - 35
}.

Lemma lockBtree_limits_ok b : params_ok b -> params_ok (lockBtree_limits b) /\ limits_ok (lockBtree_limits b).
Proof.
  intros Hpar. pose proof (page_bounds _ Hpar) as (Hu & Hp). split; [destruct Hpar; by split|].
  assert (forall k, 32 <= k <= 64 -> u16 (u32 (u32 (u32 (usableSize b - 12) * k) / 255 - 23)) = (usableSize b - 12) * k / 255 - 23) as Hl.
  { intros k Hk. rewrite (u32_id (usableSize b - 12)), (u32_id (_ * k)) by nia.
    assert (58 <= (usableSize b - 12) * k / 255) by (apply Z.div_le_lower_bound; nia).
    assert ((usableSize b - 12) * k / 255 <= usableSize b - 12) by (apply Z.div_le_upper_bound; nia).
    rewrite u32_id by lia. unfold u16. apply Z.mod_small. lia. }
  assert (58 <= (usableSize b - 12) * 32 / 255) by (apply Z.div_le_lower_bound; lia).
  assert ((usableSize b - 12) * 32 / 255 <= (usableSize b - 12) * 64 / 255) by (apply Z.div_le_mono; lia).
  assert ((usableSize b - 12) * 64 / 255 <= usableSize b - 12) by (apply Z.div_le_upper_bound; lia).
  assert ((usableSize b - 12) * 32 / 255 - 23 <= usableSize b - 35) by lia.
  split; unfold lockBtree_limits; cbn [b_minLocal b_maxLocal usableSize minLeaf maxLeaf]; rewrite !Hl by lia; [lia|].
  rewrite u32_id by lia. unfold u16. rewrite Z.mod_small by lia. lia.
Qed.

Section Agree.
Context `{Build}.
Variable pBt : BtShared.
Hypothesis Hpar : params_ok pBt.
Hypothesis Hlim : limits_ok pBt.
Abbreviation usable := (usableSize pBt).

(** The page is of one of the four kinds. *)
Definition has_kind (p : MemPage) : Prop := exists flag, decodeFlags pBt p flag = Ret (SQLITE_OK, p).

Lemma kind_cases p : has_kind p ->
  (xCellSize p = m_cellSizePtrTableLeaf /\ childPtrSize p = 0 /\ intKey p = true /\ intKeyLeaf p = true /\ leaf p = true \/
   xCellSize p = m_cellSizePtrIdxLeaf /\ childPtrSize p = 0 /\ intKey p = false /\ intKeyLeaf p = false /\ leaf p = true \/
   xCellSize p = m_cellSizePtr /\ childPtrSize p = 4 /\ intKey p = false /\ intKeyLeaf p = false /\ leaf p = false \/
   xCellSize p = m_cellSizePtrNoPayload /\ childPtrSize p = 4 /\ intKey p = true /\ intKeyLeaf p = false /\ leaf p = false) /\
  35 <= minLocal p <= maxLocal p /\ maxLocal p <= usable - 35.
Proof.
  destruct Hlim as [L1 L2]. intros [flag Hd]. unfold decodeFlags in Hd.
  repeat case_match; try done; injection Hd as <-; cbn; (split; [tauto|lia]).
Qed.

Lemma sum_agrees t pay : 0 <= t <= 65501 -> 0 <= pay <= 20 -> u16 (u16 (pay + u16 t) + 4) = u16 (u32 (t + 4 + u16 pay)).
Proof.
  intros Ht Hp. unfold u16, u32. rewrite (Z.mod_small t), (Z.mod_small pay), (Z.mod_small (pay + t)), (Z.mod_small (t + 4 + pay)) by lia.
  f_equal. lia.
Qed.

Lemma spilled_agrees p payload pay : has_kind p -> maxLocal p < payload < 2 ^ 32 -> 0 <= pay <= 20 ->
  (btreeParseCellAdjustSizeForOverflow pBt p payload pay).2 = spilled_size pBt p payload pay.
Proof.
  intros Hk Hp Hy. destruct (kind_cases p Hk) as (_ & Hm & Hx). pose proof (page_bounds _ Hpar) as (Hu & Hps).
  unfold btreeParseCellAdjustSizeForOverflow, spilled_size. cbn [snd].
  rewrite (u32_id (payload - minLocal p)), (u32_id (usable - 4)) by lia.
  pose proof (Z.mod_pos_bound (payload - minLocal p) (usable - 4) ltac:(lia)) as Hmod.
  set (s := minLocal p + (payload - minLocal p) mod (usable - 4)) in *. rewrite (u32_id s), (i32_id s) by lia.
  destruct (Z.leb_spec s (maxLocal p)); [rewrite (proj2 (Z.ltb_ge (maxLocal p) s)) by lia|rewrite (proj2 (Z.ltb_lt (maxLocal p) s)) by lia].
  all: apply sum_agrees; lia.
Qed.

Lemma sizes_agree p key payload pay : has_kind p -> 0 <= payload < 2 ^ 32 -> 0 <= pay <= 20 ->
  nSize (parse_sizes pBt p key payload pay) =
  (if payload <=? maxLocal p then u16 (Z.max 4 (u32 (payload + pay))) else spilled_size pBt p payload pay).
Proof.
  intros Hk Hp Hy. destruct (kind_cases p Hk) as (_ & Hm & Hx). pose proof (page_bounds _ Hpar) as (Hu & Hps). unfold parse_sizes.
  destruct (Z.leb_spec payload (maxLocal p)).
  - cbn [nSize]. rewrite u32_id by lia. unfold u16. rewrite (Z.mod_small pay), !Z.mod_small by lia. done.
  - rewrite <- spilled_agrees by (done || lia). by destruct (btreeParseCellAdjustSizeForOverflow _ _ _ _).
Qed.

Lemma parse_index_agrees p c info : has_kind p -> bytes c -> intKeyLeaf p = false -> btreeParseCellPtrIndex pBt p c = Ret info ->
  exists n v w, decode (from_ptr c (childPtrSize p)) = Ret (n, v) /\ 1 <= n <= 9 /\
    payload_size c (childPtrSize p) = Ret (w, childPtrSize p + n) /\ 0 <= w < 2 ^ 32 /\ (n <= 8 -> w = u32 v) /\
    info = parse_sizes pBt p w w (childPtrSize p + n).
Proof.
  intros Hk B Hl Hp. assert (0 <= childPtrSize p) as Hc by (destruct (kind_cases p Hk) as ([?|[?|[?|?]]] & _); lia).
  unfold btreeParseCellPtrIndex in Hp. rewrite Hl, assert_true in Hp by done. cbn [mbind outcome_bind] in Hp.
  apply bind_Ret_inv in Hp as ([w j] & Hs & [= <-]). destruct (payload_size_inv _ _ _ B Hc Hs) as (n & v & Hd).
  destruct (payload_size_ok _ _ _ _ B Hc Hd) as (w' & Hs' & Hw & Hv). rewrite Hs in Hs'. injection Hs' as -> ->.
  destruct (decode_range _ _ _ _ B Hd). exists n, v, w'. done.
Qed.

Lemma parse_table_agrees p c info : bytes c -> btreeParseCellPtr pBt p c = Ret info -> intKeyLeaf p = true -> childPtrSize p = 0 ->
  exists n1 v1 n2 v2 w, decode c = Ret (n1, v1) /\ 1 <= n1 <= 9 /\ decode (from_ptr c n1) = Ret (n2, v2) /\ 1 <= n2 <= 9 /\
    payload_size c 0 = Ret (w, n1) /\ 0 <= w < 2 ^ 32 /\ (n1 <= 8 -> w = u32 v1) /\ info = parse_sizes pBt p (i64 v2) w (n1 + n2).
Proof.
  intros B Hp Hl Hc. unfold btreeParseCellPtr in Hp. rewrite Hl, Hc, !assert_true in Hp by done. cbn [mbind outcome_bind] in Hp.
  apply bind_Ret_inv in Hp as ([w j] & Hs & Hp). destruct (payload_size_inv _ _ _ B (Z.le_refl 0) Hs) as (n1 & v1 & Hd).
  destruct (payload_size_ok _ _ _ _ B (Z.le_refl 0) Hd) as (w' & Hs' & Hw & Hv). rewrite Hs in Hs'. injection Hs' as -> ->.
  destruct (decode_range _ _ _ _ B Hd) as [Hn1 _]. rewrite parse_key_ok in Hp by (done || lia).
  apply bind_Ret_inv in Hp as ([k j2] & Hk & [= <-]). apply bind_Ret_inv in Hk as ([n2 v2] & Hd2 & [= <- <-]).
  rewrite !Z.add_0_l in *. destruct (decode_range _ _ _ _ B Hd2) as [Hn2 _]. exists n1, v1, n2, v2, w'. done.
Qed.

(** C33: The two ways to measure a cell agree, which is what SQLite asserts in
    its own debug build: whatever the bytes of a cell, if [xParseCell] can read
    its header, [xCellSize] answers the [nSize] it finds, for each of the four
    kinds of pages and with the limits [lockBtree] computes.  And the decoder
    that is inlined and unrolled for table rows, which corrects continuation
    bits by constants, finds the key that [sqlite3GetVarint] reads behind the
    payload size, and where it ends. *)
Theorem parse_agrees p c info : has_kind p -> bytes c -> call_xParseCell pBt p c = Ret info ->
  call_xCellSize pBt p c = Ret (nSize info) /\
  (intKeyLeaf p = true -> exists n1 v1 n2 v2, sqlite3GetVarint c = Ret (n1, v1) /\
    sqlite3GetVarint (from_ptr c n1) = Ret (n2, v2) /\ nKey info = i64 v2 /\ pPayload info = n1 + n2 /\
    (n1 <= 8 -> nPayload info = u32 v1)).
Proof.
  intros Hk B Hp. unfold call_xParseCell, call_xCellSize in *.
  destruct (kind_cases p Hk) as ([(Hx & Hc & _ & Hl & Hf)|[(Hx & Hc & _ & Hl & Hf)|[(Hx & Hc & _ & Hl & Hf)|(Hx & Hc & _ & Hl & Hf)]]] & Hm & Hmx);
    rewrite Hx in *.
  - destruct (parse_table_agrees p c info B Hp Hl Hc) as (n1 & v1 & n2 & v2 & w & Hd1 & Hn1 & Hd2 & Hn2 & Hs & Hw & Hv & ->).
    rewrite sizes_agree by (done || lia). split.
    + unfold cellSizePtrTableLeaf. rewrite Hs. cbn [mbind outcome_bind].
      rewrite (skip_key_ok c 8 0 n1 n2 v2) by (done || lia). cbn [mbind outcome_bind]. by destruct (_ <=? _).
    + intros _. exists n1, v1, n2, v2. pose proof (getVarint_decode c 0 B) as H0. change (from_ptr c 0) with c in H0.
      rewrite H0, getVarint_decode by done. unfold parse_sizes. destruct (w <=? maxLocal p); [done|].
      by destruct (btreeParseCellAdjustSizeForOverflow _ _ _ _).
  - destruct (parse_index_agrees p c info Hk B Hl Hp) as (n & v & w & Hd & Hn & Hs & Hw & _ & ->). rewrite Hl, Hc in *.
    rewrite sizes_agree by (done || lia). split; [|done].
    unfold cellSizePtrIdxLeaf. rewrite Hc, assert_true by done. cbn [mbind outcome_bind]. rewrite Hs. cbn [mbind outcome_bind].
    by destruct (_ <=? _).
  - destruct (parse_index_agrees p c info Hk B Hl Hp) as (n & v & w & Hd & Hn & Hs & Hw & _ & ->). rewrite Hl, Hc in *.
    rewrite sizes_agree by (done || lia). split; [|done].
    unfold cellSizePtr. rewrite Hc, assert_true by done. cbn [mbind outcome_bind]. rewrite Hs. cbn [mbind outcome_bind].
    destruct (Z.leb_spec w (maxLocal p)); [|done]. pose proof (page_bounds _ Hpar).
    assert (u32 (w + (4 + n)) = w + (4 + n)) as -> by (apply u32_id; lia).
    rewrite assert_true by (apply Z.ltb_lt; lia). cbn [mbind outcome_bind]. by rewrite Z.max_r by lia.
  - rewrite Hl. split; [|done]. unfold btreeParseCellPtrNoPayload in Hp. rewrite Hf, Hc, !assert_true in Hp by done.
    cbn [mbind outcome_bind] in Hp. rewrite getVarint_decode in Hp by done. apply bind_Ret_inv in Hp as ([n v] & Hd & [= <-]). cbn [nSize].
    unfold cellSizePtrNoPayload. rewrite Hc, assert_true by done. cbn [mbind outcome_bind].
    change (4 + 9) with (4 + Z.of_nat 9). by rewrite (skip_varint_ok c 8 0 4 n v) by done.
Qed.
End Agree.

(** ** Cells in a page *)

Lemma decode_app g acc l t r : decode_from g acc l = Ret r -> decode_from g acc (l ++ t) = Ret r.
Proof.
  revert g acc r. induction l as [|b l IH]; intros g acc r Hd; [by destruct g|]. destruct g as [|g]; [done|].
  cbn [app decode_from] in *. destruct (b <? 128); [done|]. apply bind_Ret_inv in Hd as ([n v] & Hd & Hr).
  by rewrite (IH _ _ _ Hd).
Qed.

Lemma decode_ptr_app l t k r : decode (from_ptr l k) = Ret r -> decode (from_ptr (l ++ t) k) = Ret r.
Proof.
  intros Hd. unfold from_ptr in *. destruct (decide (Z.to_nat k <= length l)%nat).
  - rewrite drop_app_le by done. by apply decode_app.
  - rewrite drop_ge in Hd by lia. done.
Qed.

Section InPage.
Context `{Build}.
Variable pBt : BtShared.
Hypothesis Hpar : params_ok pBt.

Lemma xParseCell_app p l t info : bytes l -> bytes (l ++ t) -> 0 <= childPtrSize p ->
  call_xParseCell pBt p l = Ret info -> call_xParseCell pBt p (l ++ t) = Ret info.
Proof.
  intros B Bt Hc Hp. unfold call_xParseCell in *.
  assert (forall b (k k' : unit -> outcome CellInfo), (k tt = Ret info -> k' tt = Ret info) ->
    (x ← assert_ b; k x) = Ret info -> (x ← assert_ b; k' x) = Ret info) as Hassert.
  { intros b k k' Hkk Hr. apply bind_Ret_inv in Hr as ([] & -> & Hr). by apply Hkk. }
  destruct (xCellSize p); unfold btreeParseCellPtrIndex, btreeParseCellPtrNoPayload, btreeParseCellPtr in *;
    revert Hp; apply Hassert; [..|apply Hassert|apply Hassert]; intros Hp.
  1,2: apply bind_Ret_inv in Hp as ([w j] & Hs & Hp); by rewrite (payload_size_app _ _ _ _ Hs).
  - rewrite getVarint_decode in * by done. apply bind_Ret_inv in Hp as ([n v] & Hd & Hp). by rewrite (decode_ptr_app _ _ _ _ Hd).
  - apply bind_Ret_inv in Hp as ([w j] & Hs & Hp). rewrite (payload_size_app _ _ _ _ Hs). cbn [mbind outcome_bind].
    destruct (payload_size_inv _ _ _ B (Z.le_refl 0) Hs) as (n & v & Hd).
    destruct (payload_size_ok _ _ _ _ B (Z.le_refl 0) Hd) as (w' & Hs' & _). rewrite Hs in Hs'. injection Hs' as -> ->.
    pose proof (decode_range _ _ _ _ B Hd). rewrite parse_key_ok in Hp |- * by (done || lia).
    apply bind_Ret_inv in Hp as ([k j2] & Hk & Hp). apply bind_Ret_inv in Hk as ([n2 v2] & Hd2 & Hk).
    rewrite (decode_ptr_app _ _ _ _ Hd2). cbn [mbind outcome_bind] in *. by injection Hk as -> ->.
Qed.

(** The parser finds in the page what it finds in the cell. *)
Lemma btreeParseCell_ok p cs i c info : holds pBt p cs -> cs !! i = Some c -> call_xParseCell pBt p c = Ret info ->
  btreeParseCell pBt p (Z.of_nat i) = Ret info.
Proof.
  intros [_ _ _ (cells & fl & top & Har & <- & _)] Hi Hp. rewrite list_lookup_fmap in Hi.
  destruct (cells !! i) as [[pc c0]|] eqn:Hic; [|done]. injection Hi as ->.
  destruct (findCell_ok pBt Hpar _ _ _ _ _ _ Har Hic) as (Hf & _ & Htop & _ & Hend). pose proof Har as [Sh Sp [_ _ _ _ Ib Io]].
  destruct (header_facts pBt Hpar p Sh) as (Hh & Hco & Hnc & _ & Hul & _ & _ & B). pose proof (sp_gap _ _ _ _ _ Sp). unfold iCellFirst in *.
  cbn [fst snd] in *. pose proof (list_elem_of_lookup_2 _ _ _ Hic) as Hin.
  pose proof (proj1 (Forall_forall _ _) Io c ltac:(apply list_elem_of_fmap; by exists (pc, c))) as (_ & _ & Bc & _).
  unfold btreeParseCell. rewrite Hf. cbn [mbind outcome_bind].
  destruct (from_ptr_cell (aData p) pc c) as [t Ht]; [lia..|exact (Ib _ Hin)|]. rewrite Ht. apply xParseCell_app; try done.
  - rewrite <- Ht. apply bytes_Forall, (bytes_from_ptr _ _ B).
  - destruct (sh_child _ _ Sh) as [[_ ->]|[_ ->]]; lia.
Qed.
End InPage.

(** ** Concrete cells *)

#[local] Existing Instance debug_build.

(** The comment at the inlined loop calls it equivalent to [getVarint32]; it
    is not for sizes from [2 ^ 32] on, which wrap where [getVarint32] answers
    the largest value. *)
Lemma payload_not_getVarint32 : let c := [0x90; 0x80; 0x80; 0x80; 0x05] in
  payload_size c 0 = Ret (5, 5) /\ sqlite3GetVarint32 c = Ret (5, 0xffffffff).
Proof. split; reflexivity. Qed.

Lemma small_file_limits check : limits_ok (small_file check).
Proof. exact (proj2 (lockBtree_limits_ok _ (small_file_ok check))). Qed.

(** An empty leaf of a table. *)
Definition leaf_page : MemPage := match zeroPage (small_file true) (buffer 7) 13 with Ret p => p | _ => buffer 7 end.

(** A row with a key of nine bytes. *)
Lemma parse_agrees_witness : exists info, let c := [3] ++ replicate 8 0x81 ++ [5; 65; 66; 67] in
  call_xParseCell (small_file true) leaf_page c = Ret info /\ call_xCellSize (small_file true) leaf_page c = Ret (nSize info) /\ nSize info = 13.
Proof.
  destruct (call_xParseCell (small_file true) leaf_page ([3] ++ replicate 8 0x81 ++ [5; 65; 66; 67])) as [info| | | |] eqn:E;
    try (vm_compute in E; discriminate).
  exists info. split; [exact E|]. split; [|vm_compute in E; by injection E as <-].
  refine (proj1 (parse_agrees (small_file true) (small_file_ok true) (small_file_limits true) leaf_page _ info _ _ E)).
  - exists 13. reflexivity.
  - apply bytes_Forall. repeat constructor; lia.
Defined.
