(* ===== verification/PageFill.v ===== *)
(** * Records in the cells of B-tree pages and in overflow pages

    [fillInCell] of PageParse.v and the parser are inverse to each other, and
    the payload is where the cell and the chain of overflow pages say
    ([cell_roundtrip]). *)

From S2P Require Import Prelude Words Chars Varint Page PageSpace PageCells PageList PageLoad PageParse.

(** ** The chain of overflow pages *)

Definition get4 (l : list Z) (k : Z) : Z := 65536 * get2 l k + get2 l (k + 2).

(** The pointer [ovfl] leads through the pages, and zero ends the chain. *)
Fixpoint chained (ovfl : Z) (pages : list (Z * list Z)) : Prop :=
  match pages with
  | [] => ovfl = 0
  | (pgno, d) :: pages => ovfl = pgno /\ chained (get4 d 0) pages
  end.

(** The first [left] bytes of content in the pages. *)
Fixpoint chain_bytes (room : Z) (pages : list (Z * list Z)) (left : Z) : list Z :=
  match pages with
  | [] => []
  | (_, d) :: pages => from_to d 4 (Z.min left room) ++ chain_bytes room pages (left - room)
  end.

Lemma get4_put4 l k v : bytes l -> 0 <= k -> k + 4 <= len l -> 0 <= v < 2 ^ 32 -> get4 (put4 l k v) k = v.
Proof.
  intros B Hk Hl Hv. unfold get4, get2. rewrite !at_put4 by lia. replace (k + 2 + 1) with (k + 3) by lia.
  rewrite !(proj2 (Z.leb_le k _)), !(proj2 (Z.ltb_lt _ (k + 4))) by lia. cbn [andb].
  replace (k + 1 - k) with 1 by lia. replace (k + 2 - k) with 2 by lia. replace (k + 3 - k) with 3 by lia. rewrite Z.sub_diag.
  change (24 - 8 * 0) with 24. change (24 - 8 * 1) with 16. change (24 - 8 * 2) with 8. change (24 - 8 * 3) with 0.
  unfold uchar. rewrite !Z.shiftr_div_pow2 by lia. Z.to_euclidean_division_equations. lia.
Qed.

Lemma get4_frame l l' k : (forall j, k <= j < k + 4 -> at_ l' j = at_ l j) -> get4 l' k = get4 l k.
Proof. intros Hf. unfold get4, get2. by rewrite !Hf by lia. Qed.

Lemma at_app l r j : 0 <= j -> at_ (l ++ r) j = if j <? len l then at_ l j else at_ r (j - len l).
Proof.
  intros Hj. unfold at_, len. rewrite !nth_lookup. destruct (Z.ltb_spec j (Z.of_nat (length l))).
  - by rewrite lookup_app_l by lia.
  - rewrite lookup_app_r by lia. do 2 f_equal. lia.
Qed.

Lemma len_app l r : len (l ++ r) = len l + len r.
Proof. unfold len. rewrite length_app. lia. Qed.

(** Buffers are equal if their bytes are. *)
Lemma list_at_eq l r : len l = len r -> (forall j, 0 <= j < len l -> at_ l j = at_ r j) -> l = r.
Proof.
  intros Hl Hat. unfold len in *. apply list_eq_same_length with (length l); [lia|done|]. intros i x y Hi Hx Hy.
  specialize (Hat (Z.of_nat i) ltac:(lia)). unfold at_ in Hat. rewrite Nat2Z.id, !nth_lookup, Hx, Hy in Hat. exact Hat.
Qed.

(** ** The header of a cell *)

(** A number at [k]: its [n] bytes decode to [v] whatever follows. *)
Definition number_at (l : list Z) (k n v : Z) : Prop :=
  forall c, bytes c -> k + n <= len c -> (forall j, k <= j < k + n -> at_ c j = at_ l j) -> decode (from_ptr c k) = Ret (n, v).

Lemma number_stored l k bs n v : 0 <= k -> k + len bs <= len l -> n = len bs -> (forall t, decode (bs ++ t) = Ret (n, v)) ->
  number_at (store l k bs) k n v.
Proof.
  intros Hk Hl -> Hd c B Hc Hat. destruct (from_ptr_cell c k bs) as [t ->]; [lia..| |apply Hd].
  intros j Hj. rewrite Hat, at_store by lia. rewrite (proj2 (Z.leb_le _ _)), (proj2 (Z.ltb_lt _ _)) by lia. cbn [andb]. f_equal. lia.
Qed.

Lemma number_frame l l' k n v : number_at l k n v -> (forall j, k <= j < k + n -> at_ l' j = at_ l j) -> number_at l' k n v.
Proof. intros Hn Hf c B Hc Hat. apply Hn; try done. intros j Hj. by rewrite Hat, Hf by done. Qed.

(** What both functions that write a number leave. *)
Definition number_written (l : list Z) (k v : Z) (r : list Z * Z) : Prop :=
  let '(l', n) := r in 1 <= n <= 9 /\ (v < 2 ^ 56 -> n <= 8) /\ len l' = len l /\ bytes l' /\
    number_at l' k n v /\ forall j, 0 <= j < k -> at_ l' j = at_ l j.

Lemma put_varint_ok `{Build} l k v : 0 <= v < 2 ^ 64 -> 0 <= k -> k + 9 <= len l -> bytes l ->
  exists r, put_varint l k v = Ret r /\ number_written l k v r.
Proof.
  intros Hv Hk Hl B. destruct (exists_needs v Hv) as (n & Hn & Hn10).
  assert (exists bs, sqlite3PutVarint v = Ret bs /\ 1 <= len bs <= 9 /\ (v < 2 ^ 56 -> len bs <= 8) /\ Forall byte bs /\
    forall t, decode (bs ++ t) = Ret (len bs, v)) as (bs & Hb & Hlen & H8 & Hby & Hd).
  { destruct (Z_lt_le_dec v (2 ^ 56)).
    - destruct (put_decode_short n v [] Hn) as (bs & Hb & Hlen & Hby & _ & _); [done|]. exists bs. unfold len. split; [done|].
      assert (Z.of_nat n <= 8).
      { destruct Hn as (_ & Hbn & Hm). destruct (decide (n <= 8)%nat); [lia|]. destruct Hm as [-> |Hm]; [lia|].
        assert (128 ^ 8 <= 128 ^ (Z.of_nat n - 1)) by (apply Z.pow_le_mono_r; lia). change (128 ^ 8) with (2 ^ 56) in *. lia. }
      destruct Hn as (Hn0 & Hn'). split; [lia|]. split; [lia|]. split; [done|]. intros t.
      destruct (put_decode_short n v t (conj Hn0 Hn')) as (bs' & Hb' & _ & _ & Hdt & _); [done|]. rewrite Hb in Hb'. by injection Hb' as <-.
    - destruct (put_decode_long n v [] Hn) as (bs & Hb & Hlen & Hby & _ & _); [done|lia|]. exists bs. unfold len. split; [done|].
      pose proof (proj1 Hn). split; [lia|]. split; [lia|]. split; [done|]. intros t.
      destruct (put_decode_long n v t Hn) as (bs' & Hb' & _ & _ & Hdt & _); [done|lia|]. rewrite Hb in Hb'. by injection Hb' as <-. }
  unfold put_varint. rewrite Hb. cbn [mbind outcome_bind]. rewrite memcpy_ok by lia. cbn [mbind outcome_bind].
  assert (from_to bs 0 (len bs) = bs) as ->. { unfold from_to, len. rewrite Nat2Z.id, drop_0. by rewrite take_ge. }
  eexists. split; [done|]. unfold number_written. split_and!; try done; try lia.
  - apply len_store; lia.
  - apply bytes_store; try done; try lia. by apply bytes_Forall.
  - apply number_stored; done || lia.
  - intros j Hj. rewrite at_store by lia. destruct (_ && _) eqn:E; [zify_bool; lia|done].
Qed.

Lemma putVarint32_ok `{Build} l k v : 0 <= v < 2 ^ 31 -> 0 <= k -> k + 9 <= len l -> bytes l ->
  exists r, putVarint32 l k v = Ret r /\ number_written l k v r.
Proof.
  intros Hv Hk Hl B. unfold putVarint32. rewrite u32_id by lia. destruct (Z.ltb_spec v 0x80).
  - rewrite wr_ok by lia. cbn [mbind outcome_bind]. eexists. split; [done|]. unfold number_written.
    assert (uchar v = v) as -> by (unfold uchar; apply Z.mod_small; lia). split_and!; try lia.
    + by rewrite len_store by (change (len [v]) with 1; lia).
    + apply bytes_store; try (change (len [v]) with 1; lia); [done|]. apply bytes_Forall. repeat constructor; lia.
    + apply number_stored; try (change (len [v]) with 1; lia). intros t. unfold decode. cbn [app decode_from].
      rewrite (proj2 (Z.ltb_lt v 128)) by lia. done.
    + intros j Hj. rewrite at_store_one by lia. destruct (Z.eqb_spec j k); [lia|done].
  - rewrite u64_id by lia. apply put_varint_ok; done || lia.
Qed.

(** ** What a record says *)

(** The bytes that are given, their number, the number of bytes of the payload,
    and the payload. *)
Definition x_src (p : MemPage) (pX : BtreePayload) : list Z := if intKey p then pData pX else pKey pX.
Definition x_given (p : MemPage) (pX : BtreePayload) : Z := if intKey p then nData pX else x_nKey pX.
Definition x_total (p : MemPage) (pX : BtreePayload) : Z := if intKey p then nData pX + nZero pX else x_nKey pX.
Definition x_bytes (p : MemPage) (pX : BtreePayload) : list Z :=
  from_to (x_src p pX) 0 (x_given p pX) ++ replicate (Z.to_nat (x_total p pX - x_given p pX)) 0.

(** The record is one a caller may pass for a page of this kind. *)
Definition payload_ok (p : MemPage) (pX : BtreePayload) : Prop :=
  0 <= x_given p pX <= x_total p pX /\ x_total p pX < 2 ^ 31 /\ x_given p pX <= len (x_src p pX) /\ bytes (x_src p pX) /\
  - 2 ^ 63 <= x_nKey pX < 2 ^ 63.

Section Header.
Context `{Build}.
Variable pBt : BtShared.
Hypothesis Hpar : params_ok pBt.
Hypothesis Hlim : limits_ok pBt.
Abbreviation usable := (usableSize pBt).

Lemma i64_u64_id z : - 2 ^ 63 <= z < 2 ^ 63 -> i64 (u64 z) = z.
Proof. intros Hz. unfold i64, u64. rewrite Z.add_mod_idemp_l by lia. rewrite Z.mod_small by lia. lia. Qed.

(** The header [fill_header] writes is the one the parser reads, from every
    buffer that has its bytes. *)
Lemma fill_header_ok p buf pX : has_kind pBt p -> (intKey p = true -> intKeyLeaf p = true) -> payload_ok p pX ->
  bytes buf -> usable <= len buf ->
  exists b nH, fill_header p buf pX = Ret (b, nH, x_total p pX, x_src p pX, x_given p pX) /\
    len b = len buf /\ bytes b /\ childPtrSize p + 1 <= nH <= 17 /\
    forall c, bytes c -> nH <= len c -> (forall j, 0 <= j < nH -> at_ c j = at_ b j) ->
      call_xParseCell pBt p c = Ret (parse_sizes pBt p (x_nKey pX) (x_total p pX) nH).
Proof.
  intros Hk Hint (HN & HP & Hsrc & Bs & Hkey) B Hl. pose proof (page_bounds _ Hpar) as (Hu & _). unfold fill_header.
  destruct (kind_cases pBt Hlim p Hk) as ([(Hx & Hc & Hi & Hil & Hf)|Hcases] & Hm & Hmx).
  - unfold x_total, x_given, x_src in *. rewrite Hi, Hil, Hc in *.
    rewrite i32_id, Z.eqb_refl, assert_true by (done || lia). cbn [negb mbind outcome_bind].
    destruct (putVarint32_ok buf 0 (nData pX + nZero pX)) as ([b1 n1] & -> & Hn1 & H81 & Hl1 & B1 & Hd1 & _); [lia..|done|].
    cbn [mbind outcome_bind]. rewrite Z.add_0_l.
    destruct (put_varint_ok b1 n1 (u64 (x_nKey pX))) as ([b2 n2] & -> & Hn2 & _ & Hl2 & B2 & Hd2 & Hf2); [apply u64_range|lia..|done|].
    cbn [mbind outcome_bind]. exists b2, (n1 + n2). split_and!; try done; try lia. intros c Bc Hlc Hat.
    assert (decode (from_ptr c 0) = Ret (n1, nData pX + nZero pX)) as D1.
    { apply Hd1; [done|lia|]. intros j Hj. rewrite Hat by lia. apply Hf2. lia. }
    assert (decode (from_ptr c n1) = Ret (n2, u64 (x_nKey pX))) as D2 by (apply Hd2; [done|lia|intros; apply Hat; lia]).
    unfold call_xParseCell. rewrite Hx. unfold btreeParseCellPtr. rewrite Hil, Hc, !assert_true by done. cbn [mbind outcome_bind].
    destruct (payload_size_ok c 0 n1 _ Bc (Z.le_refl 0) D1) as (w & -> & _ & Hw). rewrite Hw, u32_id, Z.add_0_l by lia. cbn [mbind outcome_bind].
    rewrite parse_key_ok, D2 by (done || lia). cbn [mbind outcome_bind]. by rewrite i64_u64_id.
  - assert (intKey p = false) as Hi.
    { destruct (intKey p) eqn:E; [|done]. specialize (Hint eq_refl). destruct Hcases as [?|[?|?]]; intuition congruence. }
    assert (intKeyLeaf p = false) as Hil by (destruct Hcases as [?|[?|?]]; tauto).
    assert (childPtrSize p = 0 \/ childPtrSize p = 4) as Hc by (destruct Hcases as [?|[?|?]]; tauto).
    assert (call_xParseCell pBt p = btreeParseCellPtrIndex pBt p) as Hpc.
    { unfold call_xParseCell. destruct Hcases as [(-> & _)|[(-> & _)|?]]; [done..|intuition congruence]. }
    unfold x_total, x_given, x_src in *. rewrite Hi in *. rewrite assert_true by (apply Z.leb_le; lia).
    cbn [mbind outcome_bind]. rewrite i32_id by lia.
    destruct (putVarint32_ok buf (childPtrSize p) (x_nKey pX)) as ([b n] & -> & Hn & H8 & Hl1 & B1 & Hd & _); [lia..|done|].
    cbn [mbind outcome_bind]. exists b, (childPtrSize p + n). split_and!; try done; try lia. intros c Bc Hlc Hat.
    assert (decode (from_ptr c (childPtrSize p)) = Ret (n, x_nKey pX)) as D by (apply Hd; [done|lia|intros; apply Hat; lia]).
    rewrite Hpc. unfold btreeParseCellPtrIndex. rewrite Hil, assert_true by done. cbn [mbind outcome_bind].
    destruct (payload_size_ok c (childPtrSize p) n _ Bc ltac:(lia) D) as (w & -> & _ & Hw). rewrite Hw, u32_id by lia. done.
Qed.

(** How the payload is divided. *)
Lemma parse_sizes_ok p key payload nH : has_kind pBt p -> 0 <= payload < 2 ^ 31 -> 1 <= nH <= 17 ->
  let info := parse_sizes pBt p key payload nH in let local := btreePayloadToLocal pBt p payload in
  nKey info = key /\ pPayload info = nH /\ nPayload info = payload /\ nLocal info = local /\
  nSize info = (if payload <=? maxLocal p then Z.max 4 (nH + payload) else nH + local + 4) /\
  0 <= local <= payload /\ local <= maxLocal p /\ (maxLocal p < payload -> 35 <= local < payload /\
    local = let n := i32 (u32 (minLocal p + u32 (payload - minLocal p) mod u32 (usable - 4))) in if maxLocal p <? n then minLocal p else n).
Proof.
  intros Hk Hp Hn info local. subst info local. destruct (kind_cases pBt Hlim p Hk) as (_ & Hm & Hx). pose proof (page_bounds _ Hpar) as (Hu & Hps).
  unfold parse_sizes, btreePayloadToLocal. destruct (Z.leb_spec payload (maxLocal p)) as [Hle|Hgt].
  - cbn. unfold u16. rewrite (Z.mod_small payload), (Z.mod_small nH), (Z.mod_small (payload + nH)) by lia. split_and!; lia.
  - unfold btreeParseCellAdjustSizeForOverflow. rewrite Z.rem_mod_nonneg by lia.
    rewrite (u32_id (payload - minLocal p)), (u32_id (usable - 4)) by lia.
    pose proof (Z.mod_pos_bound (payload - minLocal p) (usable - 4) ltac:(lia)) as Hmod.
    set (s := minLocal p + (payload - minLocal p) mod (usable - 4)) in *. rewrite (u32_id s), (i32_id s) by lia. cbn zeta.
    destruct (Z.leb_spec s (maxLocal p)); [rewrite (proj2 (Z.ltb_ge (maxLocal p) s)) by lia|rewrite (proj2 (Z.ltb_lt (maxLocal p) s)) by lia]; cbn.
    all: unfold u16; rewrite !(Z.mod_small (minLocal p)) || rewrite !(Z.mod_small s); try lia.
    all: split_and!; try lia; rewrite !Z.mod_small; rewrite ?Z.mod_small; lia.
Qed.
End Header.

Section Fill.
Context `{Build}.
Variable pBt : BtShared.
Hypothesis Hpar : params_ok pBt.
Abbreviation usable := (usableSize pBt).

(** What the pager is relied on for: every page it allocates has room for the
    usable bytes and a number of 32 bits. *)
Variable allocateBtreePage : nat -> Z * Z * list Z.
Hypothesis Halloc : forall k, exists pgno d, allocateBtreePage k = (SQLITE_OK, pgno, d) /\ 0 < pgno < 2 ^ 32 /\ usable <= len d /\ bytes d.

(** The payload: [N] bytes of the source and zeros. *)
Variable src : list Z.
Variables N P : Z.
Hypothesis HN : 0 <= N <= P /\ N <= len src /\ bytes src.
Definition content (j : Z) : Z := if j <? N then at_ src j else 0.

(** The pages hold the content from [o] on, [left] bytes. *)
Fixpoint spread (pages : list (Z * list Z)) (o left : Z) : Prop :=
  match pages with
  | [] => left <= 0
  | (_, d) :: pages => 0 < left /\ usable <= len d /\
      (forall j, 0 <= j < Z.min left (usable - 4) -> at_ d (4 + j) = content (o + j)) /\
      spread pages (o + (usable - 4)) (left - (usable - 4))
  end.

Lemma spread_bytes pages o left : spread pages o left -> 0 <= left ->
  len (chain_bytes (usable - 4) pages left) = left /\
  forall j, 0 <= j < left -> at_ (chain_bytes (usable - 4) pages left) j = content (o + j).
Proof.
  pose proof (page_bounds _ Hpar) as (Hu & _). revert o left. induction pages as [|[pgno d] pages IH]; intros o left Hs Hl; simpl in Hs |- *.
  - split; [unfold len; simpl; lia|lia].
  - destruct Hs as (H0 & Hd & Hat & Hs). assert (len (from_to d 4 (Z.min left (usable - 4))) = Z.min left (usable - 4)) as Hlf by (apply len_from_to; lia).
    destruct (Z_le_gt_dec left (usable - 4)).
    + assert (pages = []) as ->. { destruct pages as [|[? ?] ?]; [done|]. simpl in Hs. lia. }
      cbn [chain_bytes]. rewrite app_nil_r, Hlf. split; [lia|]. intros j Hj. rewrite at_from_to by lia. apply Hat. lia.
    + destruct (IH _ _ Hs ltac:(lia)) as [IHl IHa]. rewrite len_app, Hlf, IHl. split; [lia|]. intros j Hj.
      rewrite at_app, Hlf by lia. destruct (Z.ltb_spec j (Z.min left (usable - 4))); [rewrite at_from_to by lia; apply Hat; lia|].
      rewrite IHa by lia. f_equal. lia.
Qed.

(** A pass writes [n] bytes of the content at [pos]. *)
Lemma write_pass buf pos o n : 0 <= o -> o + n <= P -> 0 < n -> 0 <= pos -> pos + n <= len buf -> bytes buf ->
  exists m buf', (if n <=? N - o then buf ← memcpy buf pos src o n; Ret (n, buf)
      else if 0 <? N - o then buf ← memcpy buf pos src o (N - o); Ret (N - o, buf)
      else buf ← memset buf pos 0 n; Ret (n, buf)) = Ret (m, buf') /\
    0 < m <= n /\ (m < n -> o + m = N) /\ len buf' = len buf /\ bytes buf' /\
    (forall j, 0 <= j < m -> at_ buf' (pos + j) = content (o + j)) /\
    (forall j, 0 <= j -> ~ (pos <= j < pos + m) -> at_ buf' j = at_ buf j).
Proof.
  intros Ho Hon Hn Hp Hpn B. destruct HN as (HN1 & HN2 & Bs).
  assert (forall m (w : list Z) , 0 < m <= n -> len w = m -> bytes w -> (forall j, 0 <= j < m -> at_ w j = content (o + j)) ->
    len (store buf pos w) = len buf /\ bytes (store buf pos w) /\
    (forall j, 0 <= j < m -> at_ (store buf pos w) (pos + j) = content (o + j)) /\
    (forall j, 0 <= j -> ~ (pos <= j < pos + m) -> at_ (store buf pos w) j = at_ buf j)) as Hst.
  { intros m w Hm Hw Bw Hat. split_and!; [apply len_store; lia|apply bytes_store; done || lia|..].
    - intros j Hj. rewrite at_store, Hw by lia. rewrite (proj2 (Z.leb_le _ _)), (proj2 (Z.ltb_lt _ _)) by lia. cbn [andb].
      rewrite <- Hat by lia. f_equal. lia.
    - intros j ? ?. rewrite at_store, Hw by lia. destruct (_ && _) eqn:E; [zify_bool; lia|done]. }
  destruct (Z.leb_spec n (N - o)); [|destruct (Z.ltb_spec 0 (N - o))].
  - rewrite memcpy_ok by lia. cbn [mbind outcome_bind]. exists n, (store buf pos (from_to src o n)). split; [done|].
    split; [lia|]. split; [lia|]. apply Hst; [lia|apply len_from_to; lia|by apply bytes_from_to|].
    intros j Hj. rewrite at_from_to by lia. unfold content. by rewrite (proj2 (Z.ltb_lt _ _)) by lia.
  - rewrite memcpy_ok by lia. cbn [mbind outcome_bind]. exists (N - o), (store buf pos (from_to src o (N - o))). split; [done|].
    split; [lia|]. split; [lia|]. apply Hst; [lia|apply len_from_to; lia|by apply bytes_from_to|].
    intros j Hj. rewrite at_from_to by lia. unfold content. by rewrite (proj2 (Z.ltb_lt _ _)) by lia.
  - rewrite memset_ok by lia. cbn [mbind outcome_bind]. exists n. eexists. split; [done|].
    split; [lia|]. split; [lia|]. apply Hst; [lia|rewrite len_replicate; lia|apply bytes_replicate; done|].
    intros j Hj. rewrite at_replicate_same by lia. unfold content. by rewrite (proj2 (Z.ltb_ge _ _)) by lia.
Qed.

Lemma get4_range l k : bytes l -> 0 <= get4 l k < 2 ^ 32.
Proof. intros B. unfold get4. pose proof (get2_range l k B). pose proof (get2_range l (k + 2) B). lia. Qed.

(** What the loop makes of a buffer with [space] bytes from [pos] on and the
    place for a page number at [prior]. *)
Definition filled (buf : list Z) (prior pos space o : Z) (buf' : list Z) (pages : list (Z * list Z)) : Prop :=
  let m := Z.min (P - o) space in
  len buf' = len buf /\ bytes buf' /\
  (forall j, 0 <= j < m -> at_ buf' (pos + j) = content (o + j)) /\
  (forall j, 0 <= j -> ~ (pos <= j < pos + m) -> ~ (prior <= j < prior + 4) -> at_ buf' j = at_ buf j) /\
  spread pages (o + space) (P - (o + space)) /\
  (if P - o <=? space then pages = [] /\ forall j, prior <= j < prior + 4 -> at_ buf' j = at_ buf j
   else pages <> [] /\ chained (get4 buf' prior) pages).

Lemma fill_loop_ok fuel : forall k buf prior pos space o, 0 <= o < P -> P - o <= Z.of_nat fuel -> 0 < space ->
  0 <= pos -> pos + space <= len buf -> bytes buf -> 0 <= prior -> prior + 4 <= len buf -> prior + 4 <= pos \/ pos + space <= prior ->
  exists buf' pages, fill_loop pBt allocateBtreePage fuel k buf prior pos space src o (N - o) (P - o) = Ret (SQLITE_OK, buf', pages) /\
    filled buf prior pos space o buf' pages.
Proof.
  pose proof (page_bounds _ Hpar) as (Hu & _).
  induction fuel as [|fuel IH]; intros k buf prior pos space o Ho Hf Hs Hp Hps B Hr Hrl Hdis; [lia|]. cbn [fill_loop].
  destruct (write_pass buf pos o (Z.min (P - o) space)) as (m & b1 & Hw & Hm & Hmn & Hl1 & B1 & Hat1 & Hk1); [lia..|done|].
  rewrite Hw. cbn [mbind outcome_bind]. destruct (Z.leb_spec (P - o - m) 0).
  - assert (P - o <= space) as Hle by lia. eexists _, []. split; [done|]. unfold filled. rewrite (proj2 (Z.leb_le (P - o) space)) by lia. rewrite Z.min_l in * by lia.
    assert (m = P - o) as -> by lia. split_and!; try done; [intros; apply Hk1; lia|simpl; lia|intros; apply Hk1; lia].
  - destruct (Z.eqb_spec (space - m) 0) as [Hz|Hz].
    + destruct (Halloc k) as (pgno & d & Hk & Hpg & Hd & Bd). rewrite Hk. change (negb (SQLITE_OK =? SQLITE_OK)) with false. cbn iota.
      rewrite !put4byte_ok by lia. cbn [mbind outcome_bind]. replace (N - o - m) with (N - (o + m)) by lia.
      replace (P - o - m) with (P - (o + m)) by lia.
      destruct (IH (S k) (put4 d 0 0) 0 4 (usable - 4) (o + m)) as (d' & pages & -> & Hfd & Bd' & Hat & Hkd & Hsp & Hlast);
        [lia..|rewrite len_put4; lia|apply bytes_put4; done || lia|lia|rewrite len_put4; lia|lia|].
      cbn [mbind outcome_bind]. eexists _, _. split; [done|]. rewrite len_put4 in Hfd by lia. unfold filled.
      rewrite (proj2 (Z.leb_gt (P - o) space)) by lia. rewrite Z.min_r in * by lia. assert (m = space) as -> by lia.
      split_and!; [rewrite len_put4; lia|apply bytes_put4; done || lia|..].
      * intros j Hj. rewrite at_put4 by lia. destruct (_ && _) eqn:E; [zify_bool; lia|]. by apply Hat1.
      * intros j ? ? ?. rewrite at_put4 by lia. destruct (_ && _) eqn:E; [zify_bool; lia|]. by apply Hk1.
      * cbn [spread]. split; [lia|]. split; [lia|]. split; [|replace (P - (o + space) - (usable - 4)) with (P - (o + space + (usable - 4))) by lia; done].
        intros j Hj. apply Hat. lia.
      * done.
      * rewrite get4_put4 by (done || lia). split; [done|]. destruct (Z.leb_spec (P - (o + space)) (usable - 4)) as [|_]; [|apply Hlast].
        destruct Hlast as [-> Hlast]. cbn [chained]. rewrite (get4_frame (put4 d 0 0)) by (intros; apply Hlast; lia).
        apply get4_put4; done || lia.
    + assert (m < Z.min (P - o) space) as Hlt by lia. specialize (Hmn Hlt).
      replace (N - o - m) with (N - (o + m)) by lia. replace (P - o - m) with (P - (o + m)) by lia.
      destruct (IH k b1 prior (pos + m) (space - m) (o + m)) as (b' & pages & -> & Hfd & Bd' & Hat & Hkd & Hsp & Hlast); [lia..|done|lia|lia|lia|].
      eexists _, _. split; [done|]. unfold filled. replace (o + m + (space - m)) with (o + space) in Hsp by lia.
      replace (Z.min (P - (o + m)) (space - m)) with (Z.min (P - o) space - m) in * by lia.
      split_and!; [lia|done|..|done|].
      * intros j Hj. destruct (Z_lt_le_dec j m).
        -- rewrite Hkd by lia. apply Hat1. lia.
        -- specialize (Hat (j - m) ltac:(lia)). replace (pos + m + (j - m)) with (pos + j) in Hat by lia. rewrite Hat. f_equal. lia.
      * intros j ? ? ?. rewrite Hkd by lia. apply Hk1; lia.
      * replace (P - (o + m) <=? space - m) with (P - o <=? space) in Hlast
          by (apply Bool.eq_iff_eq_true; rewrite !Z.leb_le; lia).
        destruct (P - o <=? space); [|done]. destruct Hlast as [-> Hlast]. split; [done|]. intros. rewrite Hlast by done. apply Hk1; lia.
Qed.
End Fill.

Section Roundtrip.
Context `{Build}.
Variable pBt : BtShared.
Hypothesis Hpar : params_ok pBt.
Hypothesis Hlim : limits_ok pBt.
Variable allocateBtreePage : nat -> Z * Z * list Z.
Hypothesis Halloc : forall k, exists pgno d, allocateBtreePage k = (SQLITE_OK, pgno, d) /\ 0 < pgno < 2 ^ 32 /\ usableSize pBt <= len d /\ bytes d.
Abbreviation usable := (usableSize pBt).

(** The content of a cell and its pages, where [nH] bytes of header are. *)
Definition body_ok (p : MemPage) (pX : BtreePayload) (b cell : list Z) (nH local : Z) (pages : list (Z * list Z)) : Prop :=
  len cell = len b /\ bytes cell /\ (forall j, 0 <= j < nH -> at_ cell j = at_ b j) /\
  (forall j, 0 <= j < local -> at_ cell (nH + j) = content (x_src p pX) (x_given p pX) j) /\
  spread pBt (x_src p pX) (x_given p pX) pages local (x_total p pX - local) /\
  (if x_total p pX <=? maxLocal p then pages = [] else pages <> [] /\ chained (get4 cell (nH + local)) pages).

(** The payload that fits. *)
Lemma fill_local b src N P nH : 0 <= N <= P -> N <= len src -> bytes src -> bytes b -> 0 <= nH -> nH + P + 4 <= len b ->
  exists cell n, ('(n, pCell) ← (if nH + P <? 4 then pCell ← wr b (nH + P) 0; Ret (4, pCell) else Ret (nH + P, b));
    _ ← assert_ (N <=? P); pCell ← memcpy pCell nH src 0 N; pCell ← memset pCell (nH + N) 0 (P - N);
    Ret (SQLITE_OK, n, pCell, ([] : list (Z * list Z)))) = Ret (SQLITE_OK, n, cell, []) /\
    n = Z.max 4 (nH + P) /\ len cell = len b /\ bytes cell /\ (forall j, 0 <= j < nH -> at_ cell j = at_ b j) /\
    (forall j, 0 <= j < P -> at_ cell (nH + j) = content src N j).
Proof.
  intros HN Hs Bs B Hn Hl.
  assert (exists b1, (if nH + P <? 4 then pCell ← wr b (nH + P) 0; Ret (4, pCell) else Ret (nH + P, b)) = Ret (Z.max 4 (nH + P), b1) /\
    len b1 = len b /\ bytes b1 /\ forall j, 0 <= j < nH + P -> at_ b1 j = at_ b j) as (b1 & -> & Hl1 & B1 & Hk1).
  { destruct (Z.ltb_spec (nH + P) 4).
    - rewrite wr_ok by lia. cbn [mbind outcome_bind]. rewrite Z.max_l by lia. eexists. split; [done|].
      split; [apply len_store_one; lia|]. split; [apply bytes_store; change (len [_]) with 1; auto using bytes_one; lia|].
      intros j Hj. rewrite at_store_one by lia. destruct (Z.eqb_spec j (nH + P)); [lia|done].
    - rewrite Z.max_r by lia. eauto. }
  cbn [mbind outcome_bind]. rewrite assert_true by (apply Z.leb_le; lia). cbn [mbind outcome_bind].
  rewrite memcpy_ok by lia. cbn [mbind outcome_bind]. assert (len (from_to src 0 N) = N) as Hlf by (apply len_from_to; lia).
  set (b2 := store b1 nH (from_to src 0 N)). assert (len b2 = len b) as Hl2 by (unfold b2; rewrite len_store; lia).
  rewrite memset_ok by lia. cbn [mbind outcome_bind]. eexists _, _. split; [done|]. split; [done|].
  change (uchar 0) with 0. assert (len (replicate (Z.to_nat (P - N)) 0) = P - N) as Hlr by (rewrite len_replicate; lia).
  split_and!; [rewrite len_store; lia|..].
  - apply bytes_store; [lia..|apply bytes_store; auto using bytes_from_to; lia|apply bytes_replicate; lia].
  - intros j Hj. rewrite at_store, Hlr, (proj2 (Z.leb_gt (nH + N) j)) by lia. cbn [andb].
    unfold b2. rewrite at_store, Hlf, (proj2 (Z.leb_gt nH j)) by lia. cbn [andb]. apply Hk1. lia.
  - intros j Hj. unfold content. rewrite at_store, Hlr by lia. destruct (Z.ltb_spec j N).
    + rewrite (proj2 (Z.leb_gt (nH + N) _)) by lia. cbn [andb]. unfold b2. rewrite at_store, Hlf by lia.
      rewrite (proj2 (Z.leb_le _ _)), (proj2 (Z.ltb_lt _ _)) by lia. cbn [andb]. rewrite at_from_to by lia. f_equal. lia.
    + rewrite (proj2 (Z.leb_le _ _)), (proj2 (Z.ltb_lt _ _)) by lia. cbn [andb]. apply at_replicate_same. lia.
Qed.

Lemma fillInCell_ok p buf pX : has_kind pBt p -> (intKey p = true -> intKeyLeaf p = true) -> payload_ok p pX ->
  bytes buf -> usable <= len buf ->
  exists b nH cell pages, let info := parse_sizes pBt p (x_nKey pX) (x_total p pX) nH in
    fillInCell pBt allocateBtreePage p buf pX = Ret (SQLITE_OK, nSize info, cell, pages) /\
    childPtrSize p + 1 <= nH <= 17 /\ len b = len buf /\
    (forall c, bytes c -> nH <= len c -> (forall j, 0 <= j < nH -> at_ c j = at_ b j) -> call_xParseCell pBt p c = Ret info) /\
    body_ok p pX b cell nH (nLocal info) pages.
Proof.
  intros Hk Hint Hok B Hl. pose proof (page_bounds _ Hpar) as (Hu & _). pose proof Hok as (HN & HP & Hsrc & Bs & Hkey).
  destruct (fill_header_ok pBt Hpar Hlim p buf pX Hk Hint Hok B Hl) as (b & nH & Hr & Hlb & Bb & Hn & Hparse).
  destruct (kind_cases pBt Hlim p Hk) as (Hcs & Hm & Hmx). assert (0 <= childPtrSize p) as Hc0 by (destruct Hcs as [?|[?|[?|?]]]; lia).
  pose proof (parse_sizes_ok pBt Hpar Hlim p (x_nKey pX) (x_total p pX) nH Hk ltac:(lia) ltac:(lia)) as (_ & _ & _ & Hlo & Hsz & Hlr & Hlm & Hsp).
  set (local := btreePayloadToLocal pBt p (x_total p pX)) in *. cbv zeta. exists b, nH. unfold fillInCell. rewrite Hr, Hlo, Hsz. cbn [mbind outcome_bind].
  unfold body_ok. destruct (Z.leb_spec (x_total p pX) (maxLocal p)) as [Hle|Hgt].
  - destruct (fill_local b (x_src p pX) (x_given p pX) (x_total p pX) nH) as (cell & n & -> & -> & Hlc & Bc & Hh & Hat); [done..|lia|lia|].
    assert (local = x_total p pX) as -> by (subst local; unfold btreePayloadToLocal; by rewrite (proj2 (Z.leb_le _ _))).
    exists cell, []. split_and!; try done; try lia. cbn [spread]. lia.
  - destruct (Hsp Hgt) as [Hl35 Hloc]. cbv zeta in Hloc. rewrite <- Hloc.
    pose proof (fill_loop_ok pBt Hpar allocateBtreePage Halloc (x_src p pX) (x_given p pX) (x_total p pX) (conj HN (conj Hsrc Bs))
      (fill_fuel (x_total p pX)) 0 b (nH + local) nH local 0) as Hfl. rewrite !Z.sub_0_r in Hfl.
    destruct Hfl as (cell & pages & -> & Hlc & Bc & Hat & Hfr & Hspread & Hlast);
      [lia|unfold fill_fuel; lia|lia|lia|lia|done|lia|lia|lia|].
    rewrite !Z.sub_0_r in *.
    rewrite (proj2 (Z.leb_gt _ local)) in Hlast by lia. rewrite Z.min_r in Hat by lia.
    exists cell, pages. cbn [mbind outcome_bind]. split; [by replace (local + nH + 4) with (nH + local + 4) by lia|].
    split_and!; try done; try lia.
    + intros j Hj. apply Hfr; lia.
    + apply Hlast.
    + apply Hlast.
Qed.

(** C32: Records come back from their cells.  For a record a caller may pass --
    a key and data with zeros behind it for a table row, a key for an index
    entry -- on a page of any kind that has payload, [fillInCell] succeeds; the
    cell it makes is one [page_refines_list] takes, of the size it answers;
    [xParseCell] finds in it the key, the number of bytes and where they are;
    and these bytes, followed by those of the overflow pages, to which the last
    four bytes of the cell and the first four of each page lead in order, are
    the payload.  A record that fits needs no page. *)
Theorem cell_roundtrip p buf pX : has_kind pBt p -> (intKey p = true -> intKeyLeaf p = true) -> payload_ok p pX ->
  bytes buf -> usable <= len buf ->
  exists size cell pages info, fillInCell pBt allocateBtreePage p buf pX = Ret (SQLITE_OK, size, cell, pages) /\
    let c := from_to cell 0 size in
    cell_ok pBt p c /\ call_xParseCell pBt p c = Ret info /\
    nSize info = size /\ nKey info = x_nKey pX /\ nPayload info = x_total p pX /\ nLocal info = btreePayloadToLocal pBt p (x_total p pX) /\
    from_to c (pPayload info) (nLocal info) ++ chain_bytes (usable - 4) pages (nPayload info - nLocal info) = x_bytes p pX /\
    (if nPayload info <=? maxLocal p then pages = [] else pages <> [] /\ chained (get4 c (size - 4)) pages).
Proof.
  intros Hk Hint Hok B Hl. pose proof (page_bounds _ Hpar) as (Hu & Hps). pose proof Hok as (HN & HP & Hsrc & Bs & Hkey).
  destruct (kind_cases pBt Hlim p Hk) as (Hcs & Hm & Hmx).
  destruct (fillInCell_ok p buf pX Hk Hint Hok B Hl) as (b & nH & cell & pages & Hr & Hn & Hlb & Hparse & Hlc & Bc & Hh & Hat & Hsp & Hlast).
  assert (0 <= childPtrSize p) as Hc0 by (destruct Hcs as [?|[?|[?|?]]]; lia).
  destruct (parse_sizes_ok pBt Hpar Hlim p (x_nKey pX) (x_total p pX) nH Hk ltac:(lia) ltac:(lia)) as (Ik & Ip & Iy & Il & Is & Hlr & Hlm & Hspill).
  set (info := parse_sizes pBt p (x_nKey pX) (x_total p pX) nH) in *. set (size := nSize info) in *.
  exists size, cell, pages, info. split; [exact Hr|]. set (c := from_to cell 0 size). cbv zeta. rewrite Ip, Iy.
  assert (nH + nLocal info <= size <= len cell /\ 4 <= size /\ (maxLocal p < x_total p pX -> size = nH + nLocal info + 4)) as (Hsz & Hs4 & Hs').
  { rewrite Is. destruct (Z.leb_spec (x_total p pX) (maxLocal p)) as [Hle|Hgt].
    - rewrite Il. unfold btreePayloadToLocal. rewrite (proj2 (Z.leb_le _ _) Hle). lia.
    - rewrite Il. specialize (Hspill Hgt). lia. }
  assert (len c = size) as Hlen by (apply len_from_to; lia). assert (bytes c) as Bcc by (by apply bytes_from_to).
  assert (forall j, 0 <= j < size -> at_ c j = at_ cell j) as Hcat by (intros; unfold c; rewrite at_from_to by lia; done).
  assert (call_xParseCell pBt p c = Ret info) as Hpc.
  { apply Hparse; [done|lia|]. intros j Hj. rewrite Hcat by lia. by apply Hh. }
  destruct (parse_agrees pBt Hpar Hlim p c info Hk Bcc Hpc) as [Hsize _].
  split; [|split; [done|]; split; [done|]; split; [done|]; split; [done|]; split; [done|]; split].
  - split; [by rewrite Hlen|]. split; [lia|]. split; [done|]. intros Hleaf.
    assert (childPtrSize p = 4) by (destruct Hcs as [?|[?|[?|?]]]; intuition congruence). lia.
  - destruct (spread_bytes pBt Hpar _ _ _ _ _ Hsp ltac:(lia)) as [Hcl Hca].
    assert (len (from_to c nH (nLocal info)) = nLocal info) as Hf1 by (apply len_from_to; lia).
    assert (len (from_to (x_src p pX) 0 (x_given p pX)) = x_given p pX) as Hf2 by (apply len_from_to; lia).
    unfold x_bytes. apply list_at_eq; rewrite !len_app, Hf1, Hcl; [rewrite Hf2, len_replicate; lia|]. intros j Hj.
    assert (at_ (from_to (x_src p pX) 0 (x_given p pX) ++ replicate (Z.to_nat (x_total p pX - x_given p pX)) 0) j =
      content (x_src p pX) (x_given p pX) j) as ->.
    { rewrite at_app, Hf2 by lia. unfold content. destruct (Z.ltb_spec j (x_given p pX)); [by rewrite at_from_to by lia|].
      apply at_replicate_same. lia. }
    rewrite at_app, Hf1 by lia. destruct (Z.ltb_spec j (nLocal info)).
    + rewrite at_from_to, Hcat by lia. apply Hat; lia.
    + rewrite Hca by lia. f_equal. lia.
  - destruct (Z.leb_spec (x_total p pX) (maxLocal p)) as [|Hgt]; [done|]. rewrite (Hs' Hgt) in *.
    replace (nH + nLocal info + 4 - 4) with (nH + nLocal info) by lia. destruct Hlast as [Hne Hch]. split; [done|].
    rewrite (get4_frame cell); [done|]. intros. apply Hcat. lia.
Qed.
End Roundtrip.

(** ** A concrete record *)

#[local] Existing Instance debug_build.

(** Pages 9, 10, ... with old content. *)
Definition fresh_pages (k : nat) : Z * Z * list Z := (SQLITE_OK, 9 + Z.of_nat k mod 2 ^ 20, replicate 512 7).

(** 600 bytes and 700 zeros: 284 bytes stay, the rest takes two pages. *)
Definition long_row : BtreePayload :=
  {| pKey := []; x_nKey := -3; pData := replicate 600 65; nData := 600; nZero := 700 |}.

Lemma cell_roundtrip_witness : exists size cell pages info,
  fillInCell (small_file true) fresh_pages leaf_page (replicate 512 1) long_row = Ret (SQLITE_OK, size, cell, pages) /\
  call_xParseCell (small_file true) leaf_page (from_to cell 0 size) = Ret info /\ nKey info = -3 /\
  from_to (from_to cell 0 size) (pPayload info) (nLocal info) ++ chain_bytes 508 pages (nPayload info - nLocal info) =
    replicate 600 65 ++ replicate 700 0 /\ pages <> [].
Proof.
  destruct (cell_roundtrip (small_file true) (small_file_ok true) (small_file_limits true) fresh_pages) with
    (p := leaf_page) (buf := replicate 512 1) (pX := long_row)
    as (size & cell & pages & info & Hf & _ & Hp & _ & Hkey & Hn & _ & Hb & Hpages).
  - intros k. eexists _, _. split; [reflexivity|]. pose proof (Z.mod_pos_bound (Z.of_nat k) (2 ^ 20) ltac:(lia)).
    split; [lia|]. split; [discriminate|]. apply bytes_replicate. lia.
  - exists 13. reflexivity.
  - reflexivity.
  - split; [vm_compute; split; discriminate|]. split; [reflexivity|]. split; [vm_compute; discriminate|].
    split; [apply bytes_replicate; lia|]. simpl. lia.
  - apply bytes_replicate. lia.
  - vm_compute. discriminate.
  - exists size, cell, pages, info. split; [exact Hf|]. split; [exact Hp|]. split; [exact Hkey|]. split; [exact Hb|].
    rewrite Hn in Hpages. exact (proj1 Hpages).
Defined.
