(* ===== verification/Wal.v ===== *)
(** * The wal-index: deps/sqlite3/sqlite3.c, wal.c

    The shared memory beside a write-ahead log that says which frame holds
    which page.  It is cut into pages of 32 KB: an array of page numbers, one
    per frame, and behind it a hash table, open addressing with linear probing,
    from page numbers to places in that array.  Modelled are the mapping of
    these pages, the way from a frame to its place, the entry of a frame, the
    removal of entries after a rollback, the search for the last frame of a
    page, and the calls of the log that undo frames.  The proofs are in
    WalIndex.v and WalLog.v.

    The memory is a store of blocks.  A block holds its 4096 words and its 8192
    slots; a pointer to it is its number, the number of the page for shared
    memory.  The 136 bytes at the start of page 0, which are only reached
    through the structures they hold, are a record of their own ([header]).
    An access outside an array is undefined.  The assertion of [walFindFrame]
    has a disjunct for connections whose lock failed, a field for debugging that
    is left out: the model asserts slightly more than the code. *)

From S2P Require Import Prelude Words.

(** ** Constants *)

Definition SQLITE_OK : Z := 0.
Definition SQLITE_ERROR : Z := 1.
Definition SQLITE_NOMEM : Z := 7.
Definition SQLITE_READONLY : Z := 8.
Definition SQLITE_BUSY_SNAPSHOT : Z := 5 + 2 * 256.
Definition SQLITE_CORRUPT : Z := 11.
Definition SQLITE_CANTOPEN : Z := 14.

Definition HASHTABLE_NPAGE : Z := 4096.
Definition HASHTABLE_HASH_1 : Z := 383.
Definition HASHTABLE_NSLOT : Z := HASHTABLE_NPAGE * 2.
(** Two headers of 48 bytes and 40 bytes of checkpoint information. *)
Definition WALINDEX_HDR_SIZE : Z := 48 * 2 + 40.
Definition HASHTABLE_NPAGE_ONE : Z := HASHTABLE_NPAGE - WALINDEX_HDR_SIZE / 4.

Definition WAL_HEAPMEMORY_MODE : Z := 2.
Definition WAL_SHM_RDONLY : Z := 2.

(** ** Data *)

Record WalIndexHdr := {
  iVersion : Z; unused : Z; iChange : Z; isInit : Z; bigEndCksum : Z; hdr_szPage : Z;
  mxFrame : Z; nPage : Z; aFrameCksum : Z * Z;
  aSalt : list Z; (** the eight bytes *)
  aCksum : Z * Z
}.
#[export] Instance WalIndexHdr_eq_dec : EqDecision WalIndexHdr.
Proof. solve_decision. Defined.

Record block := { words : list Z; slots : list Z }.
Definition zero_block : block :=
  {| words := replicate (Z.to_nat HASHTABLE_NPAGE) 0; slots := replicate (Z.to_nat HASHTABLE_NSLOT) 0 |}.

(** The shared memory. The header of page 0 has two copies of the [WalIndexHdr]. *)
Record store := { blocks : gmap Z block; header : WalIndexHdr * WalIndexHdr }.

Record Wal := {
  apWiData : list (option Z); (** null or a block *)
  szPage : Z;
  readLock : Z;
  exclusiveMode : Z;
  writeLock : bool;
  readOnly : Z;
  bShmUnreliable : bool;
  hdr : WalIndexHdr;
  minFrame : Z;
  iReCksum : Z;
  nCkpt : Z;
  iCallback : Z;
  mxWalSize : Z;
  truncateOnCommit : bool;
  syncHeader : bool;
  padToSectorBoundary : bool
}.
Definition nWiData (w : Wal) : Z := Z.of_nat (length (apWiData w)).

Definition with_apWiData (w : Wal) (v : list (option Z)) : Wal :=
  {| apWiData := v; szPage := szPage w; readLock := readLock w; exclusiveMode := exclusiveMode w;
     writeLock := writeLock w; readOnly := readOnly w; bShmUnreliable := bShmUnreliable w; hdr := hdr w;
     minFrame := minFrame w; iReCksum := iReCksum w; nCkpt := nCkpt w; iCallback := iCallback w;
     mxWalSize := mxWalSize w; truncateOnCommit := truncateOnCommit w; syncHeader := syncHeader w;
     padToSectorBoundary := padToSectorBoundary w |}.
Definition with_szPage (w : Wal) (v : Z) : Wal :=
  {| apWiData := apWiData w; szPage := v; readLock := readLock w; exclusiveMode := exclusiveMode w;
     writeLock := writeLock w; readOnly := readOnly w; bShmUnreliable := bShmUnreliable w; hdr := hdr w;
     minFrame := minFrame w; iReCksum := iReCksum w; nCkpt := nCkpt w; iCallback := iCallback w;
     mxWalSize := mxWalSize w; truncateOnCommit := truncateOnCommit w; syncHeader := syncHeader w;
     padToSectorBoundary := padToSectorBoundary w |}.
Definition with_writeLock (w : Wal) (v : bool) : Wal :=
  {| apWiData := apWiData w; szPage := szPage w; readLock := readLock w; exclusiveMode := exclusiveMode w;
     writeLock := v; readOnly := readOnly w; bShmUnreliable := bShmUnreliable w; hdr := hdr w;
     minFrame := minFrame w; iReCksum := iReCksum w; nCkpt := nCkpt w; iCallback := iCallback w;
     mxWalSize := mxWalSize w; truncateOnCommit := truncateOnCommit w; syncHeader := syncHeader w;
     padToSectorBoundary := padToSectorBoundary w |}.
Definition with_readOnly (w : Wal) (v : Z) : Wal :=
  {| apWiData := apWiData w; szPage := szPage w; readLock := readLock w; exclusiveMode := exclusiveMode w;
     writeLock := writeLock w; readOnly := v; bShmUnreliable := bShmUnreliable w; hdr := hdr w;
     minFrame := minFrame w; iReCksum := iReCksum w; nCkpt := nCkpt w; iCallback := iCallback w;
     mxWalSize := mxWalSize w; truncateOnCommit := truncateOnCommit w; syncHeader := syncHeader w;
     padToSectorBoundary := padToSectorBoundary w |}.
Definition with_hdr (w : Wal) (v : WalIndexHdr) : Wal :=
  {| apWiData := apWiData w; szPage := szPage w; readLock := readLock w; exclusiveMode := exclusiveMode w;
     writeLock := writeLock w; readOnly := readOnly w; bShmUnreliable := bShmUnreliable w; hdr := v;
     minFrame := minFrame w; iReCksum := iReCksum w; nCkpt := nCkpt w; iCallback := iCallback w;
     mxWalSize := mxWalSize w; truncateOnCommit := truncateOnCommit w; syncHeader := syncHeader w;
     padToSectorBoundary := padToSectorBoundary w |}.
Definition with_iReCksum (w : Wal) (v : Z) : Wal :=
  {| apWiData := apWiData w; szPage := szPage w; readLock := readLock w; exclusiveMode := exclusiveMode w;
     writeLock := writeLock w; readOnly := readOnly w; bShmUnreliable := bShmUnreliable w; hdr := hdr w;
     minFrame := minFrame w; iReCksum := v; nCkpt := nCkpt w; iCallback := iCallback w;
     mxWalSize := mxWalSize w; truncateOnCommit := truncateOnCommit w; syncHeader := syncHeader w;
     padToSectorBoundary := padToSectorBoundary w |}.
Definition with_nCkpt (w : Wal) (v : Z) : Wal :=
  {| apWiData := apWiData w; szPage := szPage w; readLock := readLock w; exclusiveMode := exclusiveMode w;
     writeLock := writeLock w; readOnly := readOnly w; bShmUnreliable := bShmUnreliable w; hdr := hdr w;
     minFrame := minFrame w; iReCksum := iReCksum w; nCkpt := v; iCallback := iCallback w;
     mxWalSize := mxWalSize w; truncateOnCommit := truncateOnCommit w; syncHeader := syncHeader w;
     padToSectorBoundary := padToSectorBoundary w |}.
Definition with_iCallback (w : Wal) (v : Z) : Wal :=
  {| apWiData := apWiData w; szPage := szPage w; readLock := readLock w; exclusiveMode := exclusiveMode w;
     writeLock := writeLock w; readOnly := readOnly w; bShmUnreliable := bShmUnreliable w; hdr := hdr w;
     minFrame := minFrame w; iReCksum := iReCksum w; nCkpt := nCkpt w; iCallback := v;
     mxWalSize := mxWalSize w; truncateOnCommit := truncateOnCommit w; syncHeader := syncHeader w;
     padToSectorBoundary := padToSectorBoundary w |}.
Definition with_truncateOnCommit (w : Wal) (v : bool) : Wal :=
  {| apWiData := apWiData w; szPage := szPage w; readLock := readLock w; exclusiveMode := exclusiveMode w;
     writeLock := writeLock w; readOnly := readOnly w; bShmUnreliable := bShmUnreliable w; hdr := hdr w;
     minFrame := minFrame w; iReCksum := iReCksum w; nCkpt := nCkpt w; iCallback := iCallback w;
     mxWalSize := mxWalSize w; truncateOnCommit := v; syncHeader := syncHeader w;
     padToSectorBoundary := padToSectorBoundary w |}.

Definition with_mxFrame (h : WalIndexHdr) (v : Z) : WalIndexHdr :=
  {| iVersion := iVersion h; unused := unused h; iChange := iChange h; isInit := isInit h;
     bigEndCksum := bigEndCksum h; hdr_szPage := hdr_szPage h; mxFrame := v; nPage := nPage h;
     aFrameCksum := aFrameCksum h; aSalt := aSalt h; aCksum := aCksum h |}.
Definition with_aFrameCksum (h : WalIndexHdr) (v : Z * Z) : WalIndexHdr :=
  {| iVersion := iVersion h; unused := unused h; iChange := iChange h; isInit := isInit h;
     bigEndCksum := bigEndCksum h; hdr_szPage := hdr_szPage h; mxFrame := mxFrame h; nPage := nPage h;
     aFrameCksum := v; aSalt := aSalt h; aCksum := aCksum h |}.
Definition with_bigEndCksum (h : WalIndexHdr) (v : Z) : WalIndexHdr :=
  {| iVersion := iVersion h; unused := unused h; iChange := iChange h; isInit := isInit h; bigEndCksum := v;
     hdr_szPage := hdr_szPage h; mxFrame := mxFrame h; nPage := nPage h; aFrameCksum := aFrameCksum h;
     aSalt := aSalt h; aCksum := aCksum h |}.
Definition with_aSalt (h : WalIndexHdr) (v : list Z) : WalIndexHdr :=
  {| iVersion := iVersion h; unused := unused h; iChange := iChange h; isInit := isInit h;
     bigEndCksum := bigEndCksum h; hdr_szPage := hdr_szPage h; mxFrame := mxFrame h; nPage := nPage h;
     aFrameCksum := aFrameCksum h; aSalt := v; aCksum := aCksum h |}.
Definition with_version (h : WalIndexHdr) (v : Z) : WalIndexHdr :=
  {| iVersion := v; unused := unused h; iChange := iChange h; isInit := 1; bigEndCksum := bigEndCksum h;
     hdr_szPage := hdr_szPage h; mxFrame := mxFrame h; nPage := nPage h; aFrameCksum := aFrameCksum h;
     aSalt := aSalt h; aCksum := aCksum h |}.
Definition with_aCksum (h : WalIndexHdr) (v : Z * Z) : WalIndexHdr :=
  {| iVersion := iVersion h; unused := unused h; iChange := iChange h; isInit := isInit h;
     bigEndCksum := bigEndCksum h; hdr_szPage := hdr_szPage h; mxFrame := mxFrame h; nPage := nPage h;
     aFrameCksum := aFrameCksum h; aSalt := aSalt h; aCksum := v |}.
Definition with_size (h : WalIndexHdr) (sz n c : Z) : WalIndexHdr :=
  {| iVersion := iVersion h; unused := unused h; iChange := c; isInit := isInit h;
     bigEndCksum := bigEndCksum h; hdr_szPage := sz; mxFrame := mxFrame h; nPage := n;
     aFrameCksum := aFrameCksum h; aSalt := aSalt h; aCksum := aCksum h |}.

Definition with_block (m : store) (p : Z) (b : block) : store :=
  {| blocks := <[p := b]> (blocks m); header := header m |}.

(** The machine below: whether memory is granted for a page of the index, what
    [xShmMap] of the VFS does (the code, the pointer that it stores, the memory
    afterwards), and the fault that a test may inject. *)
Class Shm := {
  xRealloc : Z -> bool;
  xMallocZero : Z -> bool;
  xShmMap : store -> Z -> bool -> Z * option Z * store;
  xFaultSim : Z -> bool
}.

(** ** Access to a block *)

Definition nth_at (l : list Z) (k : Z) : outcome Z :=
  if 0 <=? k then from_option Ret Undefined (l !! Z.to_nat k) else Undefined.
Definition put_at (l : list Z) (k v : Z) : outcome (list Z) :=
  if (0 <=? k) && (k <? Z.of_nat (length l)) then Ret (<[Z.to_nat k := v]> l) else Undefined.
(** Zero the elements from [k] on. *)
Definition zero_from (l : list Z) (k : Z) : list Z :=
  take (Z.to_nat k) l ++ replicate (length l - Z.to_nat k) 0.

Record WalHashLoc := { aHash : Z; aPgno : Z * Z; iZero : Z }.

Definition block_of (m : store) (p : Z) : outcome block := from_option Ret Undefined (blocks m !! p).
(** [sLoc.aHash[i]] and [sLoc.aPgno[i]]: a pointer to words is a block and an index. *)
Definition load_slot (m : store) (l : WalHashLoc) (i : Z) : outcome Z :=
  b ← block_of m (aHash l); nth_at (slots b) i.
Definition load_pgno (m : store) (l : WalHashLoc) (i : Z) : outcome Z :=
  b ← block_of m (aPgno l).1; nth_at (words b) ((aPgno l).2 + i).
Definition store_slot (m : store) (l : WalHashLoc) (i v : Z) : outcome store :=
  b ← block_of m (aHash l); s ← put_at (slots b) i v; Ret (with_block m (aHash l) {| words := words b; slots := s |}).
Definition store_pgno (m : store) (l : WalHashLoc) (i v : Z) : outcome store :=
  b ← block_of m (aPgno l).1; s ← put_at (words b) ((aPgno l).2 + i) v;
  Ret (with_block m (aPgno l).1 {| words := s; slots := slots b |}).

(** ** Hashing *)

Definition walHash (iPage : Z) : Z := Z.land (u32 (iPage * HASHTABLE_HASH_1)) (HASHTABLE_NSLOT - 1).
Definition walNextHash (iPriorHash : Z) : Z := Z.land (iPriorHash + 1) (HASHTABLE_NSLOT - 1).

Section Wal.
Context {BD : Build}.
(** Configured when the database may be corrupt on purpose. *)
Variable CORRUPT_DB : bool.

(** ** Pages of the index *)

Section Mapping.
Context {SHM : Shm}.

Definition set_page (w : Wal) (iPage : Z) (p : option Z) : Wal :=
  with_apWiData w (<[Z.to_nat iPage := p]> (apWiData w)).

Definition walIndexPageRealloc (pWal : Wal) (m : store) (iPage : Z) : outcome (Z * option Z * Wal * store) :=
  if (nWiData pWal <=? iPage) && negb (xRealloc iPage) then Ret (SQLITE_NOMEM, None, pWal, m)
  else
    let pWal := if nWiData pWal <=? iPage
                then with_apWiData pWal (apWiData pWal ++ replicate (Z.to_nat (iPage + 1 - nWiData pWal)) None)
                else pWal in
    _ ← assert_ (bool_decide (apWiData pWal !! Z.to_nat iPage = Some None));
    '(rc, pWal, m) ←
      (if exclusiveMode pWal =? WAL_HEAPMEMORY_MODE then
         if xMallocZero iPage then Ret (SQLITE_OK, set_page pWal iPage (Some iPage), with_block m iPage zero_block)
         else Ret (SQLITE_NOMEM, set_page pWal iPage None, m)
       else
         let '(rc, p, m) := xShmMap m iPage (writeLock pWal) in
         let pWal := set_page pWal iPage p in
         _ ← assert_ (bool_decide (is_Some p) || negb (rc =? SQLITE_OK) || (negb (writeLock pWal) && (iPage =? 0)));
         if rc =? SQLITE_OK then Ret (if (0 <? iPage) && xFaultSim 600 then SQLITE_NOMEM else rc, pWal, m)
         else if Z.land rc 0xff =? SQLITE_READONLY then
           Ret (if rc =? SQLITE_READONLY then SQLITE_OK else rc,
                with_readOnly pWal (Z.lor (readOnly pWal) WAL_SHM_RDONLY), m)
         else Ret (rc, pWal, m));
    let ppPage := default None (apWiData pWal !! Z.to_nat iPage) in
    _ ← assert_ ((iPage =? 0) || bool_decide (is_Some ppPage) || negb (rc =? SQLITE_OK));
    Ret (rc, ppPage, pWal, m).

Definition walIndexPage (pWal : Wal) (m : store) (iPage : Z) : outcome (Z * option Z * Wal * store) :=
  if iPage <? 0 then Undefined
  else match apWiData pWal !! Z.to_nat iPage with
       | Some (Some p) => Ret (SQLITE_OK, Some p, pWal, m)
       | _ => walIndexPageRealloc pWal m iPage
       end.

(** The first of the two headers. *)
Definition walIndexHdr (pWal : Wal) (m : store) : outcome WalIndexHdr :=
  let mapped := bool_decide (apWiData pWal !! 0%nat = Some (Some 0)) in
  _ ← assert_ mapped; if mapped then Ret (header m).1 else Undefined.

(** Signed products that leave the range of [int] are undefined. *)
Definition table_start (iHash : Z) : outcome Z :=
  if (iHash - 1) * HASHTABLE_NPAGE <? 2 ^ 31
  then Ret (u32 (u64 (HASHTABLE_NPAGE_ONE + (iHash - 1) * HASHTABLE_NPAGE))) else Undefined.

(** [NEVER(x)]: in a debug build it asserts that [x] is false. *)
Definition NEVER (b : bool) : outcome bool := _ ← assert_ (negb b); Ret b.

Definition walHashGet (pWal : Wal) (m : store) (iHash : Z) : outcome (Z * option WalHashLoc * Wal * store) :=
  '(rc, p, pWal, m) ← walIndexPage pWal m iHash;
  _ ← assert_ ((rc =? SQLITE_OK) || (0 <? iHash));
  match p with
  | Some p =>
      if iHash =? 0 then Ret (rc, Some {| aHash := p; aPgno := (p, WALINDEX_HDR_SIZE / 4); iZero := 0 |}, pWal, m)
      else z ← table_start iHash; Ret (rc, Some {| aHash := p; aPgno := (p, 0); iZero := z |}, pWal, m)
  | None => never ← NEVER (rc =? SQLITE_OK); Ret (if never : bool then SQLITE_ERROR else rc, None, pWal, m)
  end.

(** The sum is computed in 32 bits, the difference in 64. *)
Definition walFramePage (iFrame : Z) : outcome Z :=
  let iHash := i32 (u64 (u32 (iFrame + HASHTABLE_NPAGE) - HASHTABLE_NPAGE_ONE - 1) / HASHTABLE_NPAGE) in
  _ ← assert_ (((iHash =? 0) || (HASHTABLE_NPAGE_ONE <? iFrame))
               && ((1 <=? iHash) || (iFrame <=? HASHTABLE_NPAGE_ONE))
               && ((iHash <=? 1) || (HASHTABLE_NPAGE_ONE + HASHTABLE_NPAGE <? iFrame))
               && ((2 <=? iHash) || (iFrame <=? HASHTABLE_NPAGE_ONE + HASHTABLE_NPAGE))
               && ((iHash <=? 2) || (HASHTABLE_NPAGE_ONE + 2 * HASHTABLE_NPAGE <? iFrame)));
  _ ← assert_ (0 <=? iHash);
  Ret iHash.

Definition walFramePgno (pWal : Wal) (m : store) (iFrame : Z) : outcome Z :=
  iHash ← walFramePage iFrame;
  match (if iHash <? 0 then None else apWiData pWal !! Z.to_nat iHash) with
  | Some (Some p) =>
      b ← block_of m p;
      if iHash =? 0 then nth_at (words b) (u64 (WALINDEX_HDR_SIZE / 4 + iFrame - 1))
      else nth_at (words b) (u64 (u32 (iFrame - 1) - HASHTABLE_NPAGE_ONE) mod HASHTABLE_NPAGE)
  | _ => Undefined
  end.

(** ** Removing entries *)

Definition clear_slots (iLimit : Z) (l : list Z) : list Z := map (fun v => if iLimit <? v then 0 else v) l.

Definition cleanup_table (m : store) (sLoc : WalHashLoc) (iLimit : Z) : outcome store :=
  b ← block_of m (aHash sLoc);
  let m := with_block m (aHash sLoc) {| words := words b; slots := clear_slots iLimit (slots b) |} in
  let nByte := (HASHTABLE_NPAGE - ((aPgno sLoc).2 + iLimit)) * 4 in
  _ ← assert_ (0 <=? nByte);
  b ← block_of m (aPgno sLoc).1;
  if nByte <? 0 then Undefined
  else Ret (with_block m (aPgno sLoc).1 {| words := zero_from (words b) ((aPgno sLoc).2 + iLimit); slots := slots b |}).

Definition walCleanupHash (pWal : Wal) (m : store) : outcome (Wal * store) :=
  _ ← assert_ (writeLock pWal);
  if mxFrame (hdr pWal) =? 0 then Ret (pWal, m)
  else
    h ← walFramePage (mxFrame (hdr pWal));
    _ ← assert_ (bool_decide (is_Some (default None (apWiData pWal !! Z.to_nat h))));
    '(i, sLoc, pWal, m) ← walHashGet pWal m h;
    never ← NEVER (negb (i =? SQLITE_OK));
    if never : bool then Ret (pWal, m)
    else match sLoc with
         | None => Undefined
         | Some sLoc =>
             let iLimit := i32 (u32 (mxFrame (hdr pWal) - iZero sLoc)) in
             _ ← assert_ (0 <? iLimit);
             m ← cleanup_table m sLoc iLimit;
             Ret (pWal, m)
         end.

(** ** Entering a frame *)

(** On from slot [iKey] to an empty one; [nCollide] bounds the collisions. *)
Fixpoint free_slot (m : store) (sLoc : WalHashLoc) (nCollide : nat) (iKey : Z) : outcome (option Z) :=
  v ← load_slot m sLoc iKey;
  if v =? 0 then Ret (Some iKey)
  else match nCollide with
       | O => Ret None
       | S nCollide => free_slot m sLoc nCollide (walNextHash iKey)
       end.

Definition zero_table (m : store) (sLoc : WalHashLoc) : outcome store :=
  b ← block_of m (aPgno sLoc).1;
  Ret (with_block m (aPgno sLoc).1
         {| words := zero_from (words b) (aPgno sLoc).2; slots := zero_from (slots b) 0 |}).

Definition walIndexAppend (pWal : Wal) (m : store) (iFrame iPage : Z) : outcome (Z * Wal * store) :=
  h ← walFramePage iFrame;
  '(rc, sLoc, pWal, m) ← walHashGet pWal m h;
  if negb (rc =? SQLITE_OK) then Ret (rc, pWal, m)
  else match sLoc with
       | None => Undefined
       | Some sLoc =>
           let idx := i32 (u32 (iFrame - iZero sLoc)) in
           _ ← assert_ (idx <=? HASHTABLE_NSLOT / 2 + 1);
           m ← (if idx =? 1 then zero_table m sLoc else Ret m);
           x ← load_pgno m sLoc (idx - 1);
           '(pWal, m) ← (if x =? 0 then Ret (pWal, m)
                         else '(pWal, m) ← walCleanupHash pWal m;
                              x ← load_pgno m sLoc (idx - 1); _ ← assert_ (x =? 0); Ret (pWal, m));
           _ ← assert_ (0 <? iPage);
           k ← free_slot m sLoc (Z.to_nat idx) (walHash iPage);
           match k with
           | None => Ret (SQLITE_CORRUPT, pWal, m)
           | Some iKey =>
               m ← store_pgno m sLoc (idx - 1) iPage;
               m ← store_slot m sLoc iKey (u16 idx);
               Ret (SQLITE_OK, pWal, m)
           end
       end.

(** ** Looking for a page *)

(** Other connections work on the index during a search: [env n] is what they
    do to the memory before the [n]-th load. *)
Section Search.
Variable env : nat -> store -> store.

Fixpoint find_in_table (sLoc : WalHashLoc) (iLast iMin pgno : Z) (nCollide : nat) (m : store) (n : nat) (iKey iRead : Z)
  : outcome (Z * Z * store * nat) :=
  let m := env n m in
  iH ← load_slot m sLoc iKey;
  if iH =? 0 then Ret (SQLITE_OK, iRead, m, S n)
  else
    let iFrame := u32 (iH + iZero sLoc) in
    '(iRead, m, n) ←
      (if (iFrame <=? iLast) && (iMin <=? iFrame) then
         let m := env (S n) m in
         x ← load_pgno m sLoc (iH - 1);
         if x =? pgno then _ ← assert_ ((iRead <? iFrame) || CORRUPT_DB); Ret (iFrame, m, S n)
         else Ret (iRead, m, S n)
       else Ret (iRead, m, n));
    match nCollide with
    | O => Ret (SQLITE_CORRUPT, 0, m, S n)
    | S nCollide => find_in_table sLoc iLast iMin pgno nCollide m (S n) (walNextHash iKey) iRead
    end.

(** One pass per table, from the last down to [iMinHash]. *)
Fixpoint find_tables (fuel : nat) (pWal : Wal) (m : store) (n : nat) (iMinHash iHash pgno : Z)
  : outcome (Z * Z * Wal * store) :=
  match fuel with
  | O => OutOfFuel
  | S fuel =>
      if iHash <? iMinHash then Ret (SQLITE_OK, 0, pWal, m)
      else
        '(rc, sLoc, pWal, m) ← walHashGet pWal m iHash;
        if negb (rc =? SQLITE_OK) then Ret (rc, 0, pWal, m)
        else match sLoc with
             | None => Undefined
             | Some sLoc =>
                 _ ← assert_ (0 <? pgno);
                 '(rc, iRead, m, n) ← find_in_table sLoc (mxFrame (hdr pWal)) (minFrame pWal) pgno
                                        (Z.to_nat HASHTABLE_NSLOT) m n (walHash pgno) 0;
                 if negb (rc =? SQLITE_OK) then Ret (rc, 0, pWal, m)
                 else if negb (iRead =? 0) then Ret (SQLITE_OK, iRead, pWal, m)
                 else find_tables fuel pWal m n iMinHash (iHash - 1) pgno
             end
  end.

Definition walFindFrame (pWal : Wal) (m : store) (pgno : Z) : outcome (Z * Z * Wal * store) :=
  _ ← assert_ (0 <=? readLock pWal);
  let iLast := mxFrame (hdr pWal) in
  if (iLast =? 0) || ((readLock pWal =? 0) && negb (bShmUnreliable pWal)) then Ret (SQLITE_OK, 0, pWal, m)
  else
    iMinHash ← walFramePage (minFrame pWal);
    iHash ← walFramePage iLast;
    find_tables (2 + Z.to_nat (iHash - iMinHash)) pWal m 0 iMinHash iHash pgno.

End Search.

(** ** Write transactions *)

(** [lock] is what the attempt to get the lock of the writer returns. *)
Definition sqlite3WalBeginWriteTransaction (lock : Z) (pWal : Wal) (m : store) : outcome (Z * Wal) :=
  _ ← assert_ (0 <=? readLock pWal);
  _ ← assert_ (negb (writeLock pWal) && (iReCksum pWal =? 0));
  if negb (readOnly pWal =? 0) then Ret (SQLITE_READONLY, pWal)
  else if negb (lock =? SQLITE_OK) then Ret (lock, pWal)
  else
    let pWal := with_writeLock pWal true in
    h ← walIndexHdr pWal m;
    if bool_decide (hdr pWal = h) then Ret (SQLITE_OK, pWal)
    else Ret (SQLITE_BUSY_SNAPSHOT, with_writeLock pWal false).

Definition sqlite3WalEndWriteTransaction (pWal : Wal) : Z * Wal :=
  (SQLITE_OK, if writeLock pWal then with_truncateOnCommit (with_iReCksum (with_writeLock pWal false) 0) false else pWal).

(** ** Undoing frames *)

Definition SavepointData : Type := Z * (Z * Z) * Z.

Section Undo.
(** The callback of the pager; its state is the list of the pages it was called with. *)
Variable xUndo : Z -> Z.

Fixpoint undo_frames (fuel : nat) (pWal : Wal) (m : store) (iFrame iMax rc : Z) : outcome (Z * list Z) :=
  match fuel with
  | O => OutOfFuel
  | S fuel =>
      _ ← assert_ (rc =? SQLITE_OK);
      if (rc =? SQLITE_OK) && (iFrame <=? iMax) then
        pg ← walFramePgno pWal m iFrame;
        _ ← assert_ (negb (pg =? 1));
        '(rc, l) ← undo_frames fuel pWal m (u32 (iFrame + 1)) iMax (xUndo pg);
        Ret (rc, pg :: l)
      else Ret (rc, [])
  end.

Definition sqlite3WalUndo (pWal : Wal) (m : store) : outcome (Z * list Z * Wal * store) :=
  _ ← assert_ (writeLock pWal);
  if writeLock pWal then
    let iMax := mxFrame (hdr pWal) in
    h ← walIndexHdr pWal m;
    let pWal := with_hdr pWal h in
    '(rc, l) ← undo_frames (2 + Z.to_nat (iMax - mxFrame (hdr pWal))) pWal m (u32 (mxFrame (hdr pWal) + 1)) iMax SQLITE_OK;
    '(pWal, m) ← (if negb (iMax =? mxFrame (hdr pWal)) then walCleanupHash pWal m else Ret (pWal, m));
    Ret (rc, l, pWal, m)
  else Ret (SQLITE_OK, [], pWal, m).

End Undo.

Definition sqlite3WalSavepoint (pWal : Wal) : outcome SavepointData :=
  _ ← assert_ (writeLock pWal);
  Ret (mxFrame (hdr pWal), aFrameCksum (hdr pWal), nCkpt pWal).

Definition sqlite3WalSavepointUndo (pWal : Wal) (m : store) (aWalData : SavepointData)
  : outcome (Z * SavepointData * Wal * store) :=
  _ ← assert_ (writeLock pWal);
  let '(frame, ck, ckpt) := aWalData in
  _ ← assert_ (negb (ckpt =? nCkpt pWal) || (frame <=? mxFrame (hdr pWal)));
  let aWalData := if negb (ckpt =? nCkpt pWal) then (0, ck, nCkpt pWal) else aWalData in
  let '(frame, ck, _) := aWalData in
  if frame <? mxFrame (hdr pWal) then
    let pWal := with_hdr pWal (with_aFrameCksum (with_mxFrame (hdr pWal) frame) ck) in
    '(pWal, m) ← walCleanupHash pWal m;
    Ret (SQLITE_OK, aWalData, pWal, m)
  else Ret (SQLITE_OK, aWalData, pWal, m).

End Mapping.
End Wal.
