(* ===== verification/WalFrame.v ===== *)
(** * Frames of the write-ahead log: deps/sqlite3/sqlite3.c, wal.c

    The log is a file of frames, each a page with a header of 24 bytes in front
    of it.  A frame counts when its salt is that of the log and its checksum,
    taken over everything in the log up to it, is right; that is what tells the
    frames that were written from what was in the file before.  Modelled are the
    checksum, with its two byte orders and its unrolled loop, the writing and
    the checking of a frame, and the header of the file.

    The byte order of the machine is an argument, since a log may be written on
    one machine and read on another. *)

From S2P Require Import Prelude Words Chars Page PageSpace PageList PageFill Wal.

(** ** Words in a buffer *)

Definition sqlite3Get4byte (l : list Z) (p : Z) : outcome Z :=
  a ← rd l p; b ← rd l (p + 1); c ← rd l (p + 2); d ← rd l (p + 3);
  Ret (Z.lor (Z.lor (Z.lor (u32 (Z.shiftl a 24)) (Z.shiftl b 16)) (Z.shiftl c 8)) d).

Definition BYTESWAP32 (x : Z) : Z :=
  u32 (u32 (Z.shiftl (Z.land x 0x000000FF) 24) + u32 (Z.shiftl (Z.land x 0x0000FF00) 8)
       + Z.shiftr (Z.land x 0x00FF0000) 8 + Z.shiftr (Z.land x 0xFF000000) 24).

Definition WAL_FRAME_HDRSIZE : Z := 24.
Definition WAL_HDRSIZE : Z := 32.
Definition WAL_MAGIC : Z := 0x377f0682.
Definition WAL_MAX_VERSION : Z := 3007000.

Section Machine.
Context {BD : Build}.
(** 1 when the most significant byte comes first in memory, 0 otherwise. *)
Variable SQLITE_BIGENDIAN : Z.

(** A [u32] read from memory. *)
Definition load32 (l : list Z) (p : Z) : outcome Z :=
  a ← rd l p; b ← rd l (p + 1); c ← rd l (p + 2); d ← rd l (p + 3);
  Ret (if SQLITE_BIGENDIAN =? 0 then a + 256 * b + 65536 * c + 16777216 * d
       else d + 256 * c + 65536 * b + 16777216 * a).

(** ** The checksum *)

Definition cksum : Type := Z * Z.

(** Two words of the data: [s1 += *aData++ + s2; s2 += *aData++ + s1]. *)
Definition two_words (a : list Z) (s : Z * cksum) : outcome (Z * cksum) :=
  let '(aData, (s1, s2)) := s in
  x ← load32 a aData; let s1 := u32 (s1 + u32 (x + s2)) in
  y ← load32 a (aData + 4); let s2 := u32 (s2 + u32 (y + s1)) in
  Ret (aData + 8, (s1, s2)).

Definition two_words_swapped (a : list Z) (s : Z * cksum) : outcome (Z * cksum) :=
  let '(aData, (s1, s2)) := s in
  x ← load32 a aData; let s1 := u32 (s1 + u32 (BYTESWAP32 x + s2)) in
  y ← load32 a (aData + 4); let s2 := u32 (s2 + u32 (BYTESWAP32 y + s1)) in
  Ret (aData + 8, (s1, s2)).

Definition sixteen_words (a : list Z) (s : Z * cksum) : outcome (Z * cksum) :=
  s ← two_words a s; s ← two_words a s; s ← two_words a s; s ← two_words a s;
  s ← two_words a s; s ← two_words a s; s ← two_words a s; two_words a s.

(** [do ... while( aData<aEnd )]. *)
Fixpoint sum_loop (body : list Z -> Z * cksum -> outcome (Z * cksum)) (fuel : nat) (a : list Z) (aEnd : Z) (s : Z * cksum)
  : outcome (Z * cksum) :=
  match fuel with
  | O => OutOfFuel
  | S fuel => s ← body a s; if s.1 <? aEnd then sum_loop body fuel a aEnd s else Ret s
  end.

(** The bytes are the first [nByte] from [p] on. *)
Definition walChecksumBytes (nativeCksum : bool) (a : list Z) (p nByte : Z) (aIn : option cksum) : outcome cksum :=
  let s := default (0, 0) aIn in
  _ ← assert_ (8 <=? nByte);
  _ ← assert_ (Z.land nByte 0x00000007 =? 0);
  _ ← assert_ (nByte <=? 65536);
  _ ← assert_ (Z.rem nByte 4 =? 0);
  let body := if negb nativeCksum then two_words_swapped
              else if Z.rem nByte 64 =? 0 then sixteen_words
              else two_words in
  '(aData, s) ← sum_loop body (Z.to_nat nByte) a (p + nByte) (p, s);
  _ ← assert_ (aData =? p + nByte);
  Ret s.

(** ** Frames *)

Definition set_cksum (w : Wal) (c : cksum) : Wal := with_hdr w (with_aFrameCksum (hdr w) c).
Definition nativeCksum (w : Wal) : bool := bigEndCksum (hdr w) =? SQLITE_BIGENDIAN.

(** The header of a frame is built in the buffer [aFrame]; the connection keeps the checksum so far. *)
Definition walEncodeFrame (pWal : Wal) (iPage nTruncate : Z) (aData aFrame : list Z) : outcome (list Z * Wal) :=
  aFrame ← sqlite3Put4byte aFrame 0 iPage;
  aFrame ← sqlite3Put4byte aFrame 4 nTruncate;
  if iReCksum pWal =? 0 then
    aFrame ← memcpy aFrame 8 (aSalt (hdr pWal)) 0 8;
    c ← walChecksumBytes (nativeCksum pWal) aFrame 0 8 (Some (aFrameCksum (hdr pWal)));
    c ← walChecksumBytes (nativeCksum pWal) aData 0 (szPage pWal) (Some c);
    let pWal := set_cksum pWal c in
    aFrame ← sqlite3Put4byte aFrame 16 c.1;
    aFrame ← sqlite3Put4byte aFrame 20 c.2;
    Ret (aFrame, pWal)
  else
    aFrame ← memset aFrame 8 0 16;
    Ret (aFrame, pWal).

(** The number of the page and the size of the database, when the frame is valid. *)
Definition walDecodeFrame (pWal : Wal) (aData aFrame : list Z) : outcome (option (Z * Z) * Wal) :=
  if negb (inside aFrame 8 8) then Undefined
  else if negb (bool_decide (from_to aFrame 8 8 = aSalt (hdr pWal))) then Ret (None, pWal)
  else
    pgno ← sqlite3Get4byte aFrame 0;
    if pgno =? 0 then Ret (None, pWal)
    else
      c ← walChecksumBytes (nativeCksum pWal) aFrame 0 8 (Some (aFrameCksum (hdr pWal)));
      c ← walChecksumBytes (nativeCksum pWal) aData 0 (szPage pWal) (Some c);
      let pWal := set_cksum pWal c in
      x ← sqlite3Get4byte aFrame 16;
      if negb (c.1 =? x) then Ret (None, pWal)
      else y ← sqlite3Get4byte aFrame 20;
           if negb (c.2 =? y) then Ret (None, pWal)
           else nTruncate ← sqlite3Get4byte aFrame 4; Ret (Some (pgno, nTruncate), pWal).

(** The header of the file, as [walFrames] builds it; [bigEndCksum] becomes the byte order of the machine. *)
Definition wal_file_header (pWal : Wal) (szPage_ : Z) (aWalHdr : list Z) : outcome (list Z * cksum) :=
  l ← sqlite3Put4byte aWalHdr 0 (Z.lor WAL_MAGIC SQLITE_BIGENDIAN);
  l ← sqlite3Put4byte l 4 WAL_MAX_VERSION;
  l ← sqlite3Put4byte l 8 szPage_;
  l ← sqlite3Put4byte l 12 (nCkpt pWal);
  l ← memcpy l 16 (aSalt (hdr pWal)) 0 8;
  c ← walChecksumBytes true l 0 (WAL_HDRSIZE - 2 * 4) None;
  l ← sqlite3Put4byte l 24 c.1;
  l ← sqlite3Put4byte l 28 c.2;
  Ret (l, c).

(** ** The header of the index *)

(** The 40 bytes of a header before its own checksum, as they lie in memory. *)
Definition bytes32 (v : Z) : list Z :=
  let l := [uchar v; uchar (Z.shiftr v 8); uchar (Z.shiftr v 16); uchar (Z.shiftr v 24)] in
  if SQLITE_BIGENDIAN =? 0 then l else reverse l.
Definition bytes16 (v : Z) : list Z :=
  let l := [uchar v; uchar (Z.shiftr v 8)] in if SQLITE_BIGENDIAN =? 0 then l else reverse l.
Definition hdr_bytes (h : WalIndexHdr) : list Z :=
  bytes32 (iVersion h) ++ bytes32 (unused h) ++ bytes32 (iChange h) ++ [uchar (isInit h); uchar (bigEndCksum h)]
  ++ bytes16 (hdr_szPage h) ++ bytes32 (mxFrame h) ++ bytes32 (nPage h)
  ++ bytes32 (aFrameCksum h).1 ++ bytes32 (aFrameCksum h).2 ++ aSalt h.

Definition WALINDEX_MAX_VERSION : Z := 3007000.

(** Both copies are written, the second one first. *)
Definition walIndexWriteHdr (pWal : Wal) (m : store) : outcome (Wal * store) :=
  _ ← walIndexHdr pWal m;
  _ ← assert_ (writeLock pWal);
  let h := hdr pWal in
  let h := with_version h WALINDEX_MAX_VERSION in
  c ← walChecksumBytes true (hdr_bytes h) 0 40 None;
  let h := with_aCksum h c in
  Ret (with_hdr pWal h, {| blocks := blocks m; header := (h, h) |}).

End Machine.

(** ** Words *)

Lemma get4byte_ok l p : bytes l -> 0 <= p -> p + 4 <= len l -> sqlite3Get4byte l p = Ret (get4 l p).
Proof.
  intros B Hp Hl. unfold sqlite3Get4byte, get4, get2. rewrite !rd_ok by lia. cbn [mbind outcome_bind].
  pose proof (B p). pose proof (B (p + 1)). pose proof (B (p + 2)). pose proof (B (p + 3)).
  replace (p + 2 + 1) with (p + 3) by lia. rewrite u32_id by (rewrite Z.shiftl_mul_pow2; lia).
  assert (forall a b k, 0 <= k -> 0 <= b < 2 ^ k -> Z.lor (Z.shiftl a k) b = a * 2 ^ k + b) as Hlor.
  { intros a b k Hk Hb. rewrite <- Z.add_nocarry_lor; [by rewrite Z.shiftl_mul_pow2|].
    apply Z.bits_inj'. intros n Hn. rewrite Z.land_spec, Z.shiftl_spec, Z.bits_0 by done.
    destruct (Z_lt_le_dec n k); [by rewrite (Z.testbit_neg_r a) by lia|].
    rewrite (testbit_high b k) by lia. apply andb_false_r. }
  rewrite (Hlor (at_ l p) (Z.shiftl (at_ l (p + 1)) 16)) by (rewrite ?Z.shiftl_mul_pow2; lia).
  rewrite Z.shiftl_mul_pow2 by lia.
  replace (at_ l p * 2 ^ 24 + at_ l (p + 1) * 2 ^ 16) with (Z.shiftl (at_ l p * 256 + at_ l (p + 1)) 16) by (rewrite Z.shiftl_mul_pow2 by lia; lia).
  rewrite Hlor by (rewrite ?Z.shiftl_mul_pow2; lia).
  replace (_ * 2 ^ 16 + Z.shiftl (at_ l (p + 2)) 8) with (Z.shiftl ((at_ l p * 256 + at_ l (p + 1)) * 256 + at_ l (p + 2)) 8)
    by (rewrite !Z.shiftl_mul_pow2 by lia; lia).
  rewrite Hlor by lia. f_equal. lia.
Qed.

(** The word at [p] in the byte order [big]. *)
Definition word_at (big : bool) (l : list Z) (p : Z) : Z :=
  if big then get4 l p else at_ l p + 256 * at_ l (p + 1) + 65536 * at_ l (p + 2) + 16777216 * at_ l (p + 3).

Lemma word_range big l p : bytes l -> 0 <= word_at big l p < 2 ^ 32.
Proof.
  intros B. pose proof (B p). pose proof (B (p + 1)). pose proof (B (p + 2)). pose proof (B (p + 3)).
  destruct big; unfold word_at; [by apply get4_range|lia].
Qed.

Lemma load32_ok BE l p : 0 <= p -> p + 4 <= len l -> load32 BE l p = Ret (word_at (negb (BE =? 0)) l p).
Proof.
  intros Hp Hl. unfold load32. rewrite !rd_ok by lia. cbn [mbind outcome_bind]. f_equal. unfold word_at, get4, get2.
  replace (p + 2 + 1) with (p + 3) by lia. destruct (BE =? 0); cbn [negb]; lia.
Qed.

Lemma land_byte x k : 0 <= k -> Z.land x (Z.shiftl 255 k) = Z.shiftl (Z.shiftr x k mod 256) k.
Proof.
  intros Hk. change 256 with (2 ^ 8). rewrite <- Z.land_ones by lia. change (Z.ones 8) with 255.
  apply Z.bits_inj'. intros n Hn. rewrite Z.land_spec, !Z.shiftl_spec by done. destruct (Z_lt_le_dec n k).
  - rewrite !(Z.testbit_neg_r _ (n - k)) by lia. apply andb_false_r.
  - rewrite Z.land_spec, Z.shiftr_spec by lia. by replace (n - k + k) with n by lia.
Qed.

Lemma byteswap_ok l p big : bytes l -> BYTESWAP32 (word_at big l p) = word_at (negb big) l p.
Proof.
  intros B. pose proof (B p) as H0. pose proof (B (p + 1)) as H1. pose proof (B (p + 2)) as H2. pose proof (B (p + 3)) as H3.
  assert (forall a b c d, 0 <= a < 256 -> 0 <= b < 256 -> 0 <= c < 256 -> 0 <= d < 256 ->
    BYTESWAP32 (a + 256 * b + 65536 * c + 16777216 * d) = d + 256 * c + 65536 * b + 16777216 * a) as Hswap.
  { intros a b c d Ha Hb Hc Hd. unfold BYTESWAP32. set (x := a + 256 * b + 65536 * c + 16777216 * d).
    change 0x000000FF with (Z.shiftl 255 0). change 0x0000FF00 with (Z.shiftl 255 8).
    change 0x00FF0000 with (Z.shiftl 255 16). change 0xFF000000 with (Z.shiftl 255 24). rewrite !land_byte by lia.
    rewrite (Z.shiftr_div_pow2 x 0), (Z.shiftr_div_pow2 x 8), (Z.shiftr_div_pow2 x 16), (Z.shiftr_div_pow2 x 24) by lia.
    assert ((x / 2 ^ 0) mod 256 = a) as -> by (subst x; Z.to_euclidean_division_equations; lia).
    assert ((x / 2 ^ 8) mod 256 = b) as -> by (subst x; Z.to_euclidean_division_equations; lia).
    assert ((x / 2 ^ 16) mod 256 = c) as -> by (subst x; Z.to_euclidean_division_equations; lia).
    assert ((x / 2 ^ 24) mod 256 = d) as -> by (subst x; Z.to_euclidean_division_equations; lia).
    rewrite (Z.shiftr_div_pow2 _ 8), (Z.shiftr_div_pow2 _ 24), !Z.shiftl_mul_pow2 by lia.
    replace (c * 2 ^ 16 / 2 ^ 8) with (c * 256) by (Z.to_euclidean_division_equations; lia).
    replace (d * 2 ^ 24 / 2 ^ 24) with d by (Z.to_euclidean_division_equations; lia).
    rewrite (u32_id (a * 2 ^ 0 * 2 ^ 24)), (u32_id (b * 2 ^ 8 * 2 ^ 8)) by lia. rewrite u32_id; lia. }
  unfold word_at, get4, get2. replace (p + 2 + 1) with (p + 3) by lia. destruct big; cbn [negb].
  - replace (65536 * (256 * at_ l p + at_ l (p + 1)) + (256 * at_ l (p + 2) + at_ l (p + 3)))
      with (at_ l (p + 3) + 256 * at_ l (p + 2) + 65536 * at_ l (p + 1) + 16777216 * at_ l p) by lia.
    rewrite Hswap by done. lia.
  - rewrite Hswap by done. lia.
Qed.

(** ** The checksum that the file format describes *)

Definition sum_pair (big : bool) (l : list Z) (p : Z) (s : cksum) : cksum :=
  let s1 := u32 (s.1 + word_at big l p + s.2) in (s1, u32 (s.2 + word_at big l (p + 4) + s1)).
Fixpoint sum_pairs (big : bool) (l : list Z) (p : Z) (n : nat) (s : cksum) : cksum :=
  match n with O => s | S n => sum_pairs big l (p + 8) n (sum_pair big l p s) end.

Lemma sum_pairs_app big l n k : forall p s, sum_pairs big l p (n + k) s = sum_pairs big l (p + 8 * Z.of_nat n) k (sum_pairs big l p n s).
Proof.
  induction n as [|n IH]; intros p s; cbn [Nat.add sum_pairs]; [by replace (p + 8 * Z.of_nat 0) with p by lia|].
  rewrite IH. f_equal. lia.
Qed.

Lemma sum_pairs_frame big l l' n : forall p p' s, (forall k, 0 <= k < 8 * Z.of_nat n -> at_ l' (p' + k) = at_ l (p + k)) ->
  sum_pairs big l' p' n s = sum_pairs big l p n s.
Proof.
  induction n as [|n IH]; intros p p' s Hf; cbn [sum_pairs]; [done|].
  assert (forall j, j = 0 \/ j = 4 -> word_at big l' (p' + j) = word_at big l (p + j)) as Hw.
  { intros j Hj. assert (forall i, 0 <= i < 4 -> at_ l' (p' + j + i) = at_ l (p + j + i)) as He.
    { intros i Hi. rewrite <- !Z.add_assoc. apply Hf. lia. }
    unfold word_at, get4, get2. pose proof (He 0 ltac:(lia)) as E0. rewrite !Z.add_0_r in E0. rewrite E0, (He 1), (He 2), (He 3) by lia.
    pose proof (He 3 ltac:(lia)) as E3. replace (p' + j + 2 + 1) with (p' + j + 3) by lia. replace (p + j + 2 + 1) with (p + j + 3) by lia.
    by rewrite E3. }
  pose proof (Hw 0 ltac:(auto)) as H0. rewrite !Z.add_0_r in H0.
  assert (sum_pair big l' p' s = sum_pair big l p s) as -> by (unfold sum_pair; by rewrite H0, (Hw 4) by auto).
  apply IH. intros k Hk. rewrite <- !Z.add_assoc. apply Hf. lia.
Qed.

Definition is_cksum (c : cksum) : Prop := is_u32 c.1 /\ is_u32 c.2.

Lemma sum_pair_range big l p s : is_cksum (sum_pair big l p s).
Proof. split; apply u32_range. Qed.
Lemma sum_pairs_range big l n : forall p s, is_cksum s -> is_cksum (sum_pairs big l p n s).
Proof. induction n as [|n IH]; intros p s Hs; cbn [sum_pairs]; [done|]. apply IH, sum_pair_range. Qed.

Section Sum.
Context {BD : Build}.
Variable BE : Z.

Lemma u32_add3 a b c : u32 (a + u32 (b + c)) = u32 (a + b + c).
Proof. unfold u32. rewrite Zplus_mod_idemp_r. f_equal. lia. Qed.

Lemma two_words_ok a p s : 0 <= p -> p + 8 <= len a -> two_words BE a (p, s) = Ret (p + 8, sum_pair (negb (BE =? 0)) a p s).
Proof.
  intros Hp Hl. destruct s as [s1 s2]. unfold two_words. rewrite !load32_ok by lia. cbn [mbind outcome_bind].
  unfold sum_pair. cbn [fst snd]. by rewrite !u32_add3.
Qed.

Lemma two_words_swapped_ok a p s : bytes a -> 0 <= p -> p + 8 <= len a -> two_words_swapped BE a (p, s) = Ret (p + 8, sum_pair (BE =? 0) a p s).
Proof.
  intros B Hp Hl. destruct s as [s1 s2]. unfold two_words_swapped. rewrite !load32_ok by lia. cbn [mbind outcome_bind].
  unfold sum_pair. cbn [fst snd]. by rewrite !byteswap_ok, negb_involutive, !u32_add3 by done.
Qed.

Lemma sixteen_words_ok a p s : 0 <= p -> p + 64 <= len a -> sixteen_words BE a (p, s) = Ret (p + 64, sum_pairs (negb (BE =? 0)) a p 8 s).
Proof.
  intros Hp Hl. unfold sixteen_words. do 8 (rewrite two_words_ok by lia; cbn [mbind outcome_bind]). cbn [sum_pairs].
  do 2 f_equal. lia.
Qed.

(** A loop whose body takes [w] pairs of words at a time. *)
Lemma sum_loop_ok body big a w : (0 < w)%nat ->
  (forall p s, 0 <= p -> p + 8 * Z.of_nat w <= len a -> body a (p, s) = Ret (p + 8 * Z.of_nat w, sum_pairs big a p w s)) ->
  forall n fuel p s, (0 < n)%nat -> (n <= fuel)%nat -> 0 <= p -> p + 8 * Z.of_nat (n * w) <= len a ->
  sum_loop body fuel a (p + 8 * Z.of_nat (n * w)) (p, s) = Ret (p + 8 * Z.of_nat (n * w), sum_pairs big a p (n * w) s).
Proof.
  intros Hw Hbody n. induction n as [|n IH]; intros fuel p s Hn Hf Hp Hl; [lia|]. destruct fuel as [|fuel]; [lia|].
  cbn [sum_loop]. rewrite Hbody by (cbn [Nat.mul] in Hl; lia). cbn [mbind outcome_bind fst].
  destruct (decide (n = 0)%nat) as [->|Hn0].
  - rewrite Nat.mul_1_l. by rewrite (proj2 (Z.ltb_ge _ _)) by lia.
  - rewrite (proj2 (Z.ltb_lt _ _)) by (cbn [Nat.mul]; nia).
    replace (p + 8 * Z.of_nat (S n * w)) with (p + 8 * Z.of_nat w + 8 * Z.of_nat (n * w)) by (cbn [Nat.mul]; lia).
    rewrite IH by (cbn [Nat.mul] in Hl; lia). do 2 f_equal. cbn [Nat.mul]. by rewrite sum_pairs_app.
Qed.

(** Neither the byte order of the machine nor the unrolled loop matters. *)
Lemma checksum_ok (big : bool) native a p nByte s : bytes a -> 0 <= p -> p + nByte <= len a -> 8 <= nByte <= 65536 -> nByte mod 8 = 0 ->
  native = Bool.eqb big (negb (BE =? 0)) ->
  walChecksumBytes BE native a p nByte s = Ret (sum_pairs big a p (Z.to_nat (nByte / 8)) (default (0, 0) s)).
Proof.
  intros B Hp Hl Hn Hm Hnat. unfold walChecksumBytes. rewrite !Z.rem_mod_nonneg by lia.
  assert (nByte = 8 * (nByte / 8)) as Hq by (pose proof (Z.div_mod nByte 8); lia).
  rewrite (assert_true (8 <=? nByte)) by (apply Z.leb_le; lia). cbn [mbind outcome_bind].
  rewrite (assert_true (Z.land nByte 7 =? 0)) by (change 7 with (Z.ones 3); rewrite Z.land_ones by lia; by apply Z.eqb_eq). cbn [mbind outcome_bind].
  rewrite (assert_true (nByte <=? 65536)) by (apply Z.leb_le; lia). cbn [mbind outcome_bind].
  rewrite (assert_true (nByte mod 4 =? 0)) by (apply Z.eqb_eq; rewrite Hq; change 8 with (2 * 4); rewrite <- Z.mul_assoc, (Z.mul_comm 4), Z.mul_assoc; apply Z.mod_mul; lia).
  cbn [mbind outcome_bind].
  match goal with |- context [sum_loop ?b] => assert (forall m, (0 < m)%nat -> forall body w, body = b -> (0 < w)%nat -> (m * w)%nat = Z.to_nat (nByte / 8) ->
    (forall p s, 0 <= p -> p + 8 * Z.of_nat w <= len a -> body a (p, s) = Ret (p + 8 * Z.of_nat w, sum_pairs big a p w s)) ->
    sum_loop b (Z.to_nat nByte) a (p + nByte) (p, default (0, 0) s) = Ret (p + nByte, sum_pairs big a p (Z.to_nat (nByte / 8)) (default (0, 0) s))) as Hloop end.
  { intros m Hm0 body w -> Hw Emw Hbody. replace (p + nByte) with (p + 8 * Z.of_nat (m * w)) by lia. rewrite <- Emw.
    apply sum_loop_ok; try done; nia. }
  assert (sum_loop (if negb native then two_words_swapped BE else if nByte mod 64 =? 0 then sixteen_words BE else two_words BE)
    (Z.to_nat nByte) a (p + nByte) (p, default (0, 0) s) = Ret (p + nByte, sum_pairs big a p (Z.to_nat (nByte / 8)) (default (0, 0) s))) as ->.
  { subst native. destruct big, (Z.eqb_spec BE 0); cbn [negb Bool.eqb] in *.
    all: try (apply (Hloop (Z.to_nat (nByte / 8)) ltac:(lia) _ 1%nat eq_refl); [lia..|]; intros; rewrite two_words_swapped_ok by (done || lia);
      rewrite ?(proj2 (Z.eqb_eq BE 0)), ?(proj2 (Z.eqb_neq BE 0)) by done; done).
    all: destruct (Z.eqb_spec (nByte mod 64) 0) as [E64|].
    all: try (apply (Hloop (Z.to_nat (nByte / 8)) ltac:(lia) _ 1%nat eq_refl); [lia..|]; intros; rewrite two_words_ok by (done || lia);
      rewrite ?(proj2 (Z.eqb_eq BE 0)), ?(proj2 (Z.eqb_neq BE 0)) by done; done).
    all: assert (nByte = 64 * (nByte / 64)) as Hq64 by (pose proof (Z.div_mod nByte 64); lia).
    all: apply (Hloop (Z.to_nat (nByte / 64)) ltac:(lia) _ 8%nat eq_refl); [lia| |intros; rewrite sixteen_words_ok by (done || lia);
      rewrite ?(proj2 (Z.eqb_eq BE 0)), ?(proj2 (Z.eqb_neq BE 0)) by done; done].
    all: lia. }
  cbn [mbind outcome_bind]. rewrite assert_true by (by apply Z.eqb_eq). done.
Qed.

End Sum.

(** ** Frames *)

Definition page_size (sz : Z) : Prop := 512 <= sz <= 65536 /\ sz mod 8 = 0.
Definition big_sum (w : Wal) : bool := negb (bigEndCksum (hdr w) =? 0).

(** The connection that writes or checks frames. *)
Record log_ok (w : Wal) : Prop := {
  l_size : page_size (szPage w);
  l_salt : len (aSalt (hdr w)) = 8;
  l_salt_bytes : bytes (aSalt (hdr w));
  l_sum : is_cksum (aFrameCksum (hdr w));
  l_big : bigEndCksum (hdr w) = 0 \/ bigEndCksum (hdr w) = 1
}.

(** The checksum of a frame on top of that of the log before it. *)
Definition frame_sum (big : bool) (sz : Z) (aData aFrame : list Z) (c : cksum) : cksum :=
  sum_pairs big aData 0 (Z.to_nat (sz / 8)) (sum_pairs big aFrame 0 1 c).
Definition conn_sum (w : Wal) (aData aFrame : list Z) : cksum :=
  frame_sum (big_sum w) (szPage w) aData aFrame (aFrameCksum (hdr w)).

Definition accepts (w : Wal) (aData aFrame : list Z) : bool :=
  bool_decide (from_to aFrame 8 8 = aSalt (hdr w)) && negb (get4 aFrame 0 =? 0)
  && ((conn_sum w aData aFrame).1 =? get4 aFrame 16) && ((conn_sum w aData aFrame).2 =? get4 aFrame 20).

Section Frames.
Context {BD : Build}.
Variable BE : Z.
Hypothesis HBE : BE = 0 \/ BE = 1.

Lemma native_ok w : log_ok w -> nativeCksum BE w = Bool.eqb (big_sum w) (negb (BE =? 0)).
Proof using HBE.
  intros [_ _ _ _ Hb]. unfold nativeCksum, big_sum. by destruct HBE as [-> | ->], Hb as [-> | ->].
Qed.

(** Both checksums of a frame. *)
Lemma frame_sum_ok w aData aFrame : log_ok w -> bytes aData -> bytes aFrame -> len aData = szPage w -> 8 <= len aFrame ->
  (c ← walChecksumBytes BE (nativeCksum BE w) aFrame 0 8 (Some (aFrameCksum (hdr w)));
   walChecksumBytes BE (nativeCksum BE w) aData 0 (szPage w) (Some c)) = Ret (conn_sum w aData aFrame).
Proof using HBE.
  intros Hw Bd Bf Hd Hf. destruct (l_size _ Hw) as [Hsz Hm].
  rewrite (checksum_ok BE (big_sum w)); auto using native_ok; try lia; try reflexivity. cbn [mbind outcome_bind].
  rewrite (checksum_ok BE (big_sum w)); auto using native_ok; lia.
Qed.

Lemma decode_spec w aData aFrame : log_ok w -> bytes aData -> bytes aFrame -> len aData = szPage w -> len aFrame = 24 ->
  exists w', walDecodeFrame BE w aData aFrame =
    Ret (if accepts w aData aFrame then Some (get4 aFrame 0, get4 aFrame 4) else None, w') /\
    (accepts w aData aFrame = true -> w' = set_cksum w (conn_sum w aData aFrame)) /\
    (w' = w \/ w' = set_cksum w (conn_sum w aData aFrame)).
Proof using HBE.
  intros Hw Bd Bf Hd Hf. unfold walDecodeFrame, accepts. rewrite (proj2 (inside_spec _ _ _)) by lia. cbn [negb].
  destruct (bool_decide _); cbn [negb andb]; [|exists w; split_and!; [done..|by left]].
  rewrite (get4byte_ok aFrame 0) by (done || lia). cbn [mbind outcome_bind].
  destruct (get4 aFrame 0 =? 0); cbn [negb andb]; [exists w; split_and!; [done..|by left]|].
  pose proof (frame_sum_ok w aData aFrame Hw Bd Bf Hd ltac:(lia)) as Hs.
  destruct (walChecksumBytes BE _ aFrame 0 8 _) as [c| | | |]; try discriminate. cbn [mbind outcome_bind] in *. rewrite Hs.
  cbn [mbind outcome_bind]. rewrite !get4byte_ok by (done || lia). cbn [mbind outcome_bind].
  exists (set_cksum w (conn_sum w aData aFrame)).
  destruct (_ =? get4 aFrame 16); cbn [negb andb]; [|split_and!; [done..|by right]]. destruct (_ =? get4 aFrame 20); cbn [negb]; (split_and!; [done..|by right]).
Qed.

Lemma encode_spec w pgno nTruncate aData buf : log_ok w -> iReCksum w = 0 -> bytes aData -> bytes buf -> len aData = szPage w ->
  len buf = 24 -> is_u32 pgno -> is_u32 nTruncate ->
  exists aFrame, walEncodeFrame BE w pgno nTruncate aData buf = Ret (aFrame, set_cksum w (conn_sum w aData aFrame)) /\
    len aFrame = 24 /\ bytes aFrame /\ get4 aFrame 0 = pgno /\ get4 aFrame 4 = nTruncate /\
    from_to aFrame 8 8 = aSalt (hdr w) /\ get4 aFrame 16 = (conn_sum w aData aFrame).1 /\ get4 aFrame 20 = (conn_sum w aData aFrame).2.
Proof using HBE.
  intros Hw Hr Bd Bb Hd Hb Hp Ht. destruct (l_sum _ Hw) as [Hc1 Hc2]. unfold walEncodeFrame.
  rewrite put4byte_ok by lia. cbn [mbind outcome_bind]. set (f1 := put4 buf 0 pgno).
  assert (len f1 = 24) as L1 by (subst f1; rewrite len_put4; lia). assert (bytes f1) as B1 by (apply bytes_put4; done || lia).
  rewrite put4byte_ok by lia. cbn [mbind outcome_bind]. set (f2 := put4 f1 4 nTruncate).
  assert (len f2 = 24) as L2 by (subst f2; rewrite len_put4; lia). assert (bytes f2) as B2 by (apply bytes_put4; done || lia).
  rewrite Hr. cbn [Z.eqb]. rewrite memcpy_ok by (rewrite ?(l_salt _ Hw); lia). cbn [mbind outcome_bind].
  assert (from_to (aSalt (hdr w)) 0 8 = aSalt (hdr w)) as Esalt.
  { unfold from_to. rewrite drop_0. apply take_ge. pose proof (l_salt _ Hw) as E. unfold len in E. lia. }
  rewrite Esalt. pose proof (l_salt _ Hw) as Ls. set (f3 := Page.store f2 8 (aSalt (hdr w))).
  assert (len f3 = 24) as L3 by (subst f3; rewrite len_store; lia).
  assert (bytes f3) as B3 by (apply bytes_store; try lia; [done|apply (l_salt_bytes _ Hw)]).
  pose proof (frame_sum_ok w aData f3 Hw Bd B3 Hd ltac:(lia)) as Hs.
  destruct (walChecksumBytes BE _ f3 0 8 _) as [c0| | | |]; try discriminate. cbn [mbind outcome_bind] in *. rewrite Hs.
  cbn [mbind outcome_bind]. clear Hs c0. set (c := conn_sum w aData f3) in *.
  assert (is_cksum c) as [Hk1 Hk2] by (apply sum_pairs_range, sum_pairs_range, (l_sum _ Hw)).
  rewrite put4byte_ok by lia. cbn [mbind outcome_bind]. set (f4 := put4 f3 16 c.1).
  assert (len f4 = 24) as L4 by (subst f4; rewrite len_put4; lia). assert (bytes f4) as B4 by (apply bytes_put4; done || lia).
  rewrite put4byte_ok by lia. cbn [mbind outcome_bind]. set (f5 := put4 f4 20 c.2).
  assert (forall j, 0 <= j < 16 -> at_ f5 j = at_ f3 j) as E53.
  { intros j Hj. subst f5 f4. rewrite !at_put4 by lia. by rewrite !(proj2 (Z.leb_gt _ j)) by lia. }
  assert (forall j, 0 <= j < 8 -> at_ f5 j = at_ f2 j) as E52.
  { intros j Hj. rewrite E53 by lia. subst f3. rewrite at_store by lia. by rewrite (proj2 (Z.leb_gt _ j)) by lia. }
  assert (conn_sum w aData f5 = c) as Ec.
  { subst c. reflexivity. }
  exists f5. rewrite Ec. split; [done|]. split_and!.
  - subst f5. rewrite len_put4; lia.
  - apply bytes_put4; done || lia.
  - rewrite (get4_frame f1) by (intros; rewrite E52 by lia; subst f2; rewrite at_put4 by lia; by rewrite (proj2 (Z.leb_gt _ _)) by lia).
    apply get4_put4; done || lia.
  - rewrite (get4_frame f2) by (intros; apply E52; lia). apply get4_put4; done || lia.
  - assert (len f5 = 24) as L5 by (subst f5; rewrite len_put4; lia). apply (nth_ext _ _ 0 0).
    + pose proof (len_from_to f5 8 8 ltac:(lia) ltac:(lia) ltac:(lia)) as E. unfold len in *. lia.
    + intros n Hn. pose proof (len_from_to f5 8 8 ltac:(lia) ltac:(lia) ltac:(lia)) as E. unfold len in E.
      change (at_ (from_to f5 8 8) (Z.of_nat n) = at_ (aSalt (hdr w)) (Z.of_nat n)) || (rewrite <- (Nat2Z.id n); fold (at_ (from_to f5 8 8) (Z.of_nat n)); fold (at_ (aSalt (hdr w)) (Z.of_nat n))).
      rewrite at_from_to, E53 by lia. subst f3. rewrite at_store by lia.
      rewrite (proj2 (Z.leb_le _ _)), (proj2 (Z.ltb_lt _ _)) by lia. cbn [andb]. f_equal. lia.
  - rewrite (get4_frame f4) by (intros; subst f5; rewrite at_put4 by lia; by rewrite (proj2 (Z.leb_gt _ _)) by lia).
    apply get4_put4; done || lia.
  - apply get4_put4; done || lia.
Qed.

(** A frame that was written is valid for any machine that has read the log so far. *)
Lemma encoded_accepted w w' pgno nTruncate aData aFrame : log_ok w -> log_ok w' -> szPage w' = szPage w ->
  aSalt (hdr w') = aSalt (hdr w) -> aFrameCksum (hdr w') = aFrameCksum (hdr w) -> bigEndCksum (hdr w') = bigEndCksum (hdr w) ->
  0 < pgno -> get4 aFrame 0 = pgno -> get4 aFrame 4 = nTruncate -> from_to aFrame 8 8 = aSalt (hdr w) ->
  get4 aFrame 16 = (conn_sum w aData aFrame).1 -> get4 aFrame 20 = (conn_sum w aData aFrame).2 ->
  accepts w' aData aFrame = true /\ conn_sum w' aData aFrame = conn_sum w aData aFrame.
Proof.
  intros _ _ Hsz Hsalt Hck Hbig Hp E0 E4 E8 E16 E20.
  assert (conn_sum w' aData aFrame = conn_sum w aData aFrame) as Ec by (unfold conn_sum, big_sum; by rewrite Hsz, Hck, Hbig).
  split; [|done]. unfold accepts. rewrite Ec, E16, E20, Hsalt, !Z.eqb_refl, bool_decide_true, E0 by done.
  by rewrite (proj2 (Z.eqb_neq pgno 0)) by lia.
Qed.

End Frames.

(** ** Theorems *)

(** C30: A frame survives the file. What [walEncodeFrame] writes on a machine of
    one byte order, [walDecodeFrame] accepts on a machine of either, for a
    connection that has read the log up to there: the number of the page and
    the size of the database come back, and both connections have the same
    checksum afterwards. A connection of a log with another salt takes the same
    bytes for the end of its log. *)
Theorem frame_roundtrip {BD : Build} BE BE' w w' pgno nTruncate aData buf :
  BE = 0 \/ BE = 1 -> BE' = 0 \/ BE' = 1 -> log_ok w -> log_ok w' -> szPage w' = szPage w -> aSalt (hdr w') = aSalt (hdr w) ->
  aFrameCksum (hdr w') = aFrameCksum (hdr w) -> bigEndCksum (hdr w') = bigEndCksum (hdr w) -> iReCksum w = 0 ->
  bytes aData -> bytes buf -> len aData = szPage w -> len buf = 24 -> 0 < pgno < 2 ^ 32 -> is_u32 nTruncate ->
  exists aFrame c, walEncodeFrame BE w pgno nTruncate aData buf = Ret (aFrame, set_cksum w c) /\ len aFrame = 24 /\
    walDecodeFrame BE' w' aData aFrame = Ret (Some (pgno, nTruncate), set_cksum w' c) /\
    forall w2, aSalt (hdr w2) <> aSalt (hdr w) -> walDecodeFrame BE' w2 aData aFrame = Ret (None, w2).
Proof.
  intros HBE HBE' Hw Hw' Hsz Hsalt Hck Hbig Hr Bd Bb Hd Hb Hp Ht.
  destruct (encode_spec BE HBE w pgno nTruncate aData buf Hw Hr Bd Bb Hd Hb ltac:(lia) Ht) as (aFrame & Ee & Hf & Bf & E0 & E4 & E8 & E16 & E20).
  destruct (encoded_accepted w w' pgno nTruncate aData aFrame Hw Hw' Hsz Hsalt Hck Hbig ltac:(lia) E0 E4 E8 E16 E20) as [Ha Hc].
  destruct (decode_spec BE' HBE' w' aData aFrame Hw' Bd Bf ltac:(congruence) Hf) as (w1 & Ed & Hok & _).
  exists aFrame, (conn_sum w aData aFrame). split_and!; try done.
  - rewrite Ed, Ha, (Hok Ha), Hc, E0, E4. done.
  - intros w2 Hne. unfold walDecodeFrame. rewrite (proj2 (inside_spec _ _ _)) by lia. cbn [negb].
    by rewrite bool_decide_false by congruence.
Qed.

Module Frame.
Definition hdr0 : WalIndexHdr :=
  {| iVersion := 3007000; unused := 0; iChange := 1; isInit := 1; bigEndCksum := 1; hdr_szPage := 512; mxFrame := 0; nPage := 0;
     aFrameCksum := (11, 4294967295); aSalt := [1; 2; 3; 4; 5; 6; 7; 8]; aCksum := (0, 0) |}.
Definition log0 : Wal :=
  {| apWiData := []; szPage := 512; readLock := 1; exclusiveMode := 0; writeLock := true; readOnly := 0; bShmUnreliable := false;
     hdr := hdr0; minFrame := 1; iReCksum := 0; nCkpt := 1; iCallback := 0; mxWalSize := -1; truncateOnCommit := false;
     syncHeader := false; padToSectorBoundary := false |}.
Lemma log0_ok : log_ok log0.
Proof. split; [split; [cbn; lia|done]|done| |split; cbn; lia|by right]. apply bytes_Forall. repeat constructor; done. Qed.
End Frame.

Lemma frame_roundtrip_witness : exists aFrame c,
  walEncodeFrame (BD := debug_build) 0 Frame.log0 7 3 (replicate 512 9) (replicate 24 0) = Ret (aFrame, set_cksum Frame.log0 c) /\ len aFrame = 24 /\
  walDecodeFrame (BD := debug_build) 1 Frame.log0 (replicate 512 9) aFrame = Ret (Some (7, 3), set_cksum Frame.log0 c).
Proof.
  destruct (frame_roundtrip (BD := debug_build) 0 1 Frame.log0 Frame.log0 7 3 (replicate 512 9) (replicate 24 0)
    (or_introl eq_refl) (or_intror eq_refl) Frame.log0_ok Frame.log0_ok eq_refl eq_refl eq_refl eq_refl eq_refl) as (aFrame & c & H1 & H2 & H3 & _);
    [apply bytes_replicate; lia|apply bytes_replicate; lia|done|done|lia|split; lia|]. exists aFrame, c. by split_and!.
Defined.
