(* ===== verification/WalWrite.v ===== *)
(** * Writing and recovering the log: deps/sqlite3/sqlite3.c, wal.c

    [walFrames] writes the dirty pages of a transaction behind the log, or over
    frames that the same transaction has written already, enters them in the
    index and, at a commit, publishes the new header.  [walIndexRecover] reads
    the file after a crash and rebuilds the index.  What happens when the log is
    started over from its first frame ([walRestartLog] for a connection that
    reads from the database only) waits for the locks of other connections and
    is an argument. *)

From S2P Require Import Prelude Words Chars Page PageSpace PageList PageFill Wal WalFrame.

(** ** The file *)

(** What the VFS answers: a code, with the file after a write, the buffer after
    a read, or the size of the file. *)
Class Vfs := {
  xWrite : list Z -> list Z -> Z -> Z * list Z;
  xSync : list Z -> Z -> Z;
  xRead : list Z -> Z -> Z -> Z * list Z;
  xFileSize : list Z -> Z * Z;
  xTruncate : list Z -> Z -> Z * list Z;
  xSectorSize : Z;
  xMalloc : Z -> bool;
  xRandomness : list Z (** eight bytes *)
}.

Definition WAL_SYNC_FLAGS (x : Z) : Z := Z.land x 0x03.
Definition CKPT_SYNC_FLAGS (x : Z) : Z := Z.land (Z.shiftr x 2) 0x03.
Definition SQLITE_MAX_PAGE_SIZE : Z := 65536.

Definition walFrameOffset (iFrame szPage : Z) : Z := WAL_HDRSIZE + (iFrame - 1) * (szPage + WAL_FRAME_HDRSIZE).

(** A dirty page; [wal_append] is the flag [PGHDR_WAL_APPEND]. *)
Record PgHdr := { pgno : Z; pData : list Z; wal_append : bool }.
Definition with_append (p : PgHdr) (b : bool) : PgHdr := {| pgno := pgno p; pData := pData p; wal_append := b |}.

Record WalWriter := { iSyncPoint : Z; syncFlags : Z; w_szPage : Z }.

Section Log.
Context {BD : Build} {SHM : Shm} {VFS : Vfs}.
Variable CORRUPT_DB : bool.
Variable SQLITE_BIGENDIAN : Z.
(** The content of an uninitialised buffer of the given size. *)
Variable garbage : Z -> list Z.

Abbreviation encode := (walEncodeFrame SQLITE_BIGENDIAN).
Abbreviation decode := (walDecodeFrame SQLITE_BIGENDIAN).

Definition walWriteToLog (p : WalWriter) (file pContent : list Z) (iAmt iOffset : Z) : outcome (Z * list Z) :=
  if (iOffset <? iSyncPoint p) && (iSyncPoint p <=? iOffset + iAmt) then
    let iFirstAmt := iSyncPoint p - iOffset in
    let '(rc, file) := xWrite file (from_to pContent 0 iFirstAmt) iOffset in
    if negb (rc =? SQLITE_OK) then Ret (rc, file)
    else
      let iOffset := iOffset + iFirstAmt in
      let iAmt := iAmt - iFirstAmt in
      _ ← assert_ (negb (WAL_SYNC_FLAGS (syncFlags p) =? 0));
      let rc := xSync file (WAL_SYNC_FLAGS (syncFlags p)) in
      if (iAmt =? 0) || negb (rc =? SQLITE_OK) then Ret (rc, file)
      else Ret (xWrite file (from_to pContent iFirstAmt iAmt) iOffset)
  else Ret (xWrite file (from_to pContent 0 iAmt) iOffset).

Definition walWriteOneFrame (p : WalWriter) (pWal : Wal) (file : list Z) (pPage : PgHdr) (nTruncate iOffset : Z)
  : outcome (Z * Wal * list Z) :=
  '(aFrame, pWal) ← encode pWal (pgno pPage) nTruncate (pData pPage) (garbage WAL_FRAME_HDRSIZE);
  '(rc, file) ← walWriteToLog p file aFrame WAL_FRAME_HDRSIZE iOffset;
  if negb (rc =? SQLITE_OK) then Ret (rc, pWal, file)
  else '(rc, file) ← walWriteToLog p file (pData pPage) (w_szPage p) (iOffset + WAL_FRAME_HDRSIZE); Ret (rc, pWal, file).

(** ** Checksums of overwritten frames *)

Fixpoint rewrite_loop (fuel : nat) (pWal : Wal) (file aBuf : list Z) (iRead iLast rc : Z) : outcome (Z * Wal * list Z) :=
  match fuel with
  | O => OutOfFuel
  | S fuel =>
      if (rc =? SQLITE_OK) && (iRead <=? iLast) then
        let iOff := walFrameOffset iRead (szPage pWal) in
        let '(rc, aBuf) := xRead file (szPage pWal + WAL_FRAME_HDRSIZE) iOff in
        if rc =? SQLITE_OK then
          iPgno ← sqlite3Get4byte aBuf 0;
          nDbSize ← sqlite3Get4byte aBuf 4;
          '(aFrame, pWal) ← encode pWal iPgno nDbSize (from_to aBuf WAL_FRAME_HDRSIZE (szPage pWal)) (garbage WAL_FRAME_HDRSIZE);
          let '(rc, file) := xWrite file aFrame iOff in
          rewrite_loop fuel pWal file aBuf (u32 (iRead + 1)) iLast rc
        else rewrite_loop fuel pWal file aBuf (u32 (iRead + 1)) iLast rc
      else Ret (rc, pWal, file)
  end.

Definition walRewriteChecksums (pWal : Wal) (file : list Z) (iLast : Z) : outcome (Z * Wal * list Z) :=
  if negb (xMalloc (szPage pWal + WAL_FRAME_HDRSIZE)) then Ret (SQLITE_NOMEM, pWal, file)
  else
    _ ← assert_ (0 <? iReCksum pWal);
    let iCksumOff := if iReCksum pWal =? 1 then 24 else walFrameOffset (iReCksum pWal - 1) (szPage pWal) + 16 in
    let '(rc, aBuf) := xRead file (4 * 2) iCksumOff in
    c1 ← sqlite3Get4byte aBuf 0;
    c2 ← sqlite3Get4byte aBuf 4;
    let iRead := iReCksum pWal in
    let pWal := with_iReCksum (set_cksum pWal (c1, c2)) 0 in
    rewrite_loop (2 + Z.to_nat (iLast - iRead)) pWal file aBuf iRead iLast rc.

(** ** Writing frames *)

(** The state of [walFrames] in its loops. *)
Record progress := { p_wal : Wal; p_shm : store; p_file : list Z; p_frame : Z; p_offset : Z }.

(** Every page is written once: over a frame of this transaction (from [iFirst]
    on) or behind the log. The result has the pages with their flags, the last
    one that was appended, and a code. *)
Fixpoint write_pages (w : WalWriter) (iFirst nTruncate : Z) (isCommit : bool) (pList : list PgHdr) (pLast : option PgHdr)
  (s : progress) : outcome (Z * list PgHdr * option PgHdr * progress) :=
  match pList with
  | [] => Ret (SQLITE_OK, [], pLast, s)
  | p :: pDirty =>
      '(iWrite, pWal, m) ←
        (if negb (iFirst =? 0) && (negb (bool_decide (pDirty = [])) || negb isCommit) then
           '(rc, iWrite, pWal, m) ← walFindFrame CORRUPT_DB (fun _ m => m) (p_wal s) (p_shm s) (pgno p);
           _ ← assert_ ((rc =? SQLITE_OK) || (iWrite =? 0));
           Ret (iWrite, pWal, m)
         else Ret (0, p_wal s, p_shm s));
      if negb (iFirst =? 0) && (negb (bool_decide (pDirty = [])) || negb isCommit) && (iFirst <=? iWrite) then
        let iOff := walFrameOffset iWrite (w_szPage w) + WAL_FRAME_HDRSIZE in
        let pWal := if (iReCksum pWal =? 0) || (iWrite <? iReCksum pWal) then with_iReCksum pWal iWrite else pWal in
        let '(rc, file) := xWrite (p_file s) (from_to (pData p) 0 (w_szPage w)) iOff in
        let s := {| p_wal := pWal; p_shm := m; p_file := file; p_frame := p_frame s; p_offset := p_offset s |} in
        if negb (rc =? SQLITE_OK) then Ret (rc, p :: pDirty, pLast, s)
        else '(rc, l, pLast, s) ← write_pages w iFirst nTruncate isCommit pDirty pLast s; Ret (rc, with_append p false :: l, pLast, s)
      else
        let iFrame := u32 (p_frame s + 1) in
        _ ← assert_ (p_offset s =? walFrameOffset iFrame (w_szPage w));
        let nDbSize := if isCommit && bool_decide (pDirty = []) then nTruncate else 0 in
        '(rc, pWal, file) ← walWriteOneFrame w pWal (p_file s) p nDbSize (p_offset s);
        let s' := {| p_wal := pWal; p_shm := m; p_file := file; p_frame := iFrame; p_offset := p_offset s |} in
        if negb (rc =? SQLITE_OK) then Ret (rc, p :: pDirty, pLast, s')
        else
          let s' := {| p_wal := pWal; p_shm := m; p_file := file; p_frame := iFrame;
                       p_offset := p_offset s + (w_szPage w + WAL_FRAME_HDRSIZE) |} in
          '(rc, l, pLast, s) ← write_pages w iFirst nTruncate isCommit pDirty (Some p) s';
          Ret (rc, with_append p true :: l, pLast, s)
  end.

(** Copies of the last frame up to the next sector; their number. *)
Fixpoint pad_frames (fuel : nat) (w : WalWriter) (pLast : option PgHdr) (nTruncate : Z) (s : progress) (nExtra : Z)
  : outcome (Z * Z * progress) :=
  match fuel with
  | O => OutOfFuel
  | S fuel =>
      if p_offset s <? iSyncPoint w then
        match pLast with
        | None => Undefined
        | Some p =>
            '(rc, pWal, file) ← walWriteOneFrame w (p_wal s) (p_file s) p nTruncate (p_offset s);
            if negb (rc =? SQLITE_OK)
            then Ret (rc, nExtra, {| p_wal := pWal; p_shm := p_shm s; p_file := file; p_frame := p_frame s; p_offset := p_offset s |})
            else pad_frames fuel w pLast nTruncate
                   {| p_wal := pWal; p_shm := p_shm s; p_file := file; p_frame := p_frame s;
                      p_offset := p_offset s + (w_szPage w + WAL_FRAME_HDRSIZE) |} (nExtra + 1)
        end
      else Ret (SQLITE_OK, nExtra, s)
  end.

Definition walLimitSize (file : list Z) (nMax : Z) : list Z :=
  let '(rx, sz) := xFileSize file in
  if (rx =? SQLITE_OK) && (nMax <? sz) then (xTruncate file nMax).2 else file.

(** ** Entering the frames in the index *)

Fixpoint index_pages (pWal : Wal) (m : store) (iFrame rc : Z) (pList : list PgHdr) : outcome (Z * Z * Wal * store) :=
  match pList with
  | [] => Ret (rc, iFrame, pWal, m)
  | p :: pDirty =>
      if negb (rc =? SQLITE_OK) then Ret (rc, iFrame, pWal, m)
      else if negb (wal_append p) then index_pages pWal m iFrame rc pDirty
      else
        let iFrame := u32 (iFrame + 1) in
        '(rc, pWal, m) ← walIndexAppend pWal m iFrame (pgno p);
        index_pages pWal m iFrame rc pDirty
  end.

Fixpoint index_extra (nExtra : nat) (pWal : Wal) (m : store) (iFrame rc : Z) (pLast : option PgHdr) : outcome (Z * Z * Wal * store) :=
  match nExtra with
  | O => Ret (rc, iFrame, pWal, m)
  | S nExtra =>
      if negb (rc =? SQLITE_OK) then Ret (rc, iFrame, pWal, m)
      else match pLast with
           | None => Undefined
           | Some p =>
               let iFrame := u32 (iFrame + 1) in
               '(rc, pWal, m) ← walIndexAppend pWal m iFrame (pgno p);
               index_extra nExtra pWal m iFrame rc pLast
           end
  end.

(** The end of [walFrames]: the index, the connection's own header and, at a commit, the shared one. *)
Definition index_frames (pWal : Wal) (m : store) (rc : Z) (pList : list PgHdr) (pLast : option PgHdr)
  (nExtra szPage_ nTruncate : Z) (isCommit : bool) : outcome (Z * Wal * store) :=
  '(rc, iFrame, pWal, m) ← index_pages pWal m (mxFrame (hdr pWal)) rc pList;
  _ ← assert_ (bool_decide (is_Some pLast) || (nExtra =? 0));
  '(rc, iFrame, pWal, m) ← index_extra (Z.to_nat nExtra) pWal m iFrame rc pLast;
  if negb (rc =? SQLITE_OK) then Ret (rc, pWal, m)
  else
    let h := hdr pWal in
    let h := with_mxFrame (with_size h (u16 (Z.lor (Z.land szPage_ 0xff00) (Z.shiftr szPage_ 16))) (nPage h) (iChange h)) iFrame in
    if isCommit then
      let pWal := with_hdr pWal (with_size h (hdr_szPage h) nTruncate (u32 (iChange h + 1))) in
      '(pWal, m) ← walIndexWriteHdr SQLITE_BIGENDIAN pWal m;
      Ret (rc, with_iCallback pWal iFrame, m)
    else Ret (rc, with_hdr pWal h, m).

(** ** walFrames *)

(** The header of an empty log. *)
Definition begin_log (pWal : Wal) (file : list Z) (szPage_ sync_flags : Z) : outcome (Z * Wal * list Z) :=
  let pWal := if nCkpt pWal =? 0 then with_hdr pWal (with_aSalt (hdr pWal) xRandomness) else pWal in
  '(aWalHdr, c) ← wal_file_header SQLITE_BIGENDIAN pWal szPage_ (garbage WAL_HDRSIZE);
  let pWal := with_szPage pWal szPage_ in
  let pWal := with_hdr pWal (with_aFrameCksum (with_bigEndCksum (hdr pWal) SQLITE_BIGENDIAN) c) in
  let pWal := with_truncateOnCommit pWal true in
  let '(rc, file) := xWrite file aWalHdr 0 in
  if negb (rc =? SQLITE_OK) then Ret (rc, pWal, file)
  else if syncHeader pWal then Ret (xSync file (CKPT_SYNC_FLAGS sync_flags), pWal, file)
  else Ret (SQLITE_OK, pWal, file).

(** Padding and synchronisation at a commit. A failure to write ends
    [walFrames] at once (the flag), one to synchronise does not. *)
Definition finish_commit (w : WalWriter) (pLast : option PgHdr) (nTruncate : Z) (s : progress) : outcome (bool * Z * Z * progress) :=
  if padToSectorBoundary (p_wal s) then
    let sync := Z.quot (p_offset s + xSectorSize - 1) xSectorSize * xSectorSize in
    let w := {| iSyncPoint := sync; syncFlags := syncFlags w; w_szPage := w_szPage w |} in
    let bSync := sync =? p_offset s in
    '(rc, nExtra, s) ← pad_frames (2 + Z.to_nat (sync - p_offset s)) w pLast nTruncate s 0;
    if negb (rc =? SQLITE_OK) then Ret (true, rc, nExtra, s)
    else Ret (false, if bSync then xSync (p_file s) (WAL_SYNC_FLAGS (syncFlags w)) else SQLITE_OK, nExtra, s)
  else Ret (false, xSync (p_file s) (WAL_SYNC_FLAGS (syncFlags w)), 0, s).

(** The size limit of the file, applied when the first transaction is complete. *)
Definition limit_log (s : progress) (isCommit : bool) (nExtra szPage_ : Z) : progress :=
  if isCommit && truncateOnCommit (p_wal s) && (0 <=? mxWalSize (p_wal s)) then
    let end_ := walFrameOffset (u32 (p_frame s + nExtra + 1)) szPage_ in
    let sz := if mxWalSize (p_wal s) <? end_ then end_ else mxWalSize (p_wal s) in
    {| p_wal := with_truncateOnCommit (p_wal s) false; p_shm := p_shm s; p_file := walLimitSize (p_file s) sz;
       p_frame := p_frame s; p_offset := p_offset s |}
  else s.

(** The branch of [walRestartLog] for [readLock = 0]. *)
Variable restart : Wal -> store -> Z * Wal * store.
Definition walRestartLog (pWal : Wal) (m : store) : Z * Wal * store :=
  if readLock pWal =? 0 then restart pWal m else (SQLITE_OK, pWal, m).

Definition walFrames (pWal : Wal) (m : store) (file : list Z) (szPage_ : Z) (pList : list PgHdr) (nTruncate : Z) (isCommit : bool)
  (sync_flags : Z) : outcome (Z * Wal * store * list Z) :=
  _ ← assert_ (negb (bool_decide (pList = [])));
  _ ← assert_ (writeLock pWal);
  _ ← assert_ (Bool.eqb isCommit (negb (nTruncate =? 0)));
  pLive ← walIndexHdr pWal m;
  let iFirst := if bool_decide (hdr pWal = pLive) then 0 else u32 (mxFrame pLive + 1) in
  let '(rc, pWal, m) := walRestartLog pWal m in
  if negb (rc =? SQLITE_OK) then Ret (rc, pWal, m, file)
  else
    let iFrame := mxFrame (hdr pWal) in
    '(rc, pWal, file) ← (if iFrame =? 0 then begin_log pWal file szPage_ sync_flags else Ret (SQLITE_OK, pWal, file));
    if negb (rc =? SQLITE_OK) then Ret (rc, pWal, m, file)
    else if negb (szPage pWal =? szPage_) then Ret (SQLITE_CORRUPT, pWal, m, file)
    else
      let w := {| iSyncPoint := 0; syncFlags := sync_flags; w_szPage := szPage_ |} in
      let s := {| p_wal := pWal; p_shm := m; p_file := file; p_frame := iFrame; p_offset := walFrameOffset (iFrame + 1) szPage_ |} in
      '(rc, pList, pLast, s) ← write_pages w iFirst nTruncate isCommit pList None s;
      if negb (rc =? SQLITE_OK) then Ret (rc, p_wal s, p_shm s, p_file s)
      else
        '(rc, s) ← (if isCommit && negb (iReCksum (p_wal s) =? 0) then
                      '(rc, pWal, file) ← walRewriteChecksums (p_wal s) (p_file s) (p_frame s);
                      Ret (rc, {| p_wal := pWal; p_shm := p_shm s; p_file := file; p_frame := p_frame s; p_offset := p_offset s |})
                    else Ret (SQLITE_OK, s));
        if negb (rc =? SQLITE_OK) then Ret (rc, p_wal s, p_shm s, p_file s)
        else
          '(return_, rc, nExtra, s) ← (
            if isCommit && negb (WAL_SYNC_FLAGS sync_flags =? 0) then finish_commit w pLast nTruncate s else Ret (false, SQLITE_OK, 0, s));
          if return_ : bool then Ret (rc, p_wal s, p_shm s, p_file s)
          else
            let s := limit_log s isCommit nExtra szPage_ in
            '(rc, pWal, m) ← index_frames (p_wal s) (p_shm s) rc pList pLast nExtra szPage_ nTruncate isCommit;
            Ret (rc, pWal, m, p_file s).

(** ** Recovery *)

Definition WALINDEX_PGSZ : Z := 2 * HASHTABLE_NSLOT + HASHTABLE_NPAGE * 4.

(** The frames of one page of the index. The connection sees [aPrivate] there,
    so the store of the loop has that block in place of the shared one. *)
Fixpoint recover_frames (fuel : nat) (pWal : Wal) (m : store) (file : list Z) (iFrame iLast rc : Z) (ck : cksum) (szPage_ : Z)
  : outcome (Z * Z * cksum * Wal * store) :=
  match fuel with
  | O => OutOfFuel
  | S fuel =>
      if iFrame <=? iLast then
        let szFrame := szPage_ + WAL_FRAME_HDRSIZE in
        let '(rc, aFrame) := xRead file szFrame (walFrameOffset iFrame szPage_) in
        if negb (rc =? SQLITE_OK) then Ret (rc, iFrame, ck, pWal, m)
        else
          '(v, pWal) ← decode pWal (from_to aFrame WAL_FRAME_HDRSIZE szPage_) (from_to aFrame 0 WAL_FRAME_HDRSIZE);
          match v with
          | None => Ret (rc, iFrame, ck, pWal, m)
          | Some (pg, nTruncate) =>
              '(rc, pWal, m) ← walIndexAppend pWal m iFrame pg;
              never ← NEVER (negb (rc =? SQLITE_OK));
              if never : bool then Ret (rc, iFrame, ck, pWal, m)
              else if negb (nTruncate =? 0) then
                let h := hdr pWal in
                let h := with_mxFrame (with_size h (u16 (Z.lor (Z.land szPage_ 0xff00) (Z.shiftr szPage_ 16))) nTruncate (iChange h)) iFrame in
                recover_frames fuel (with_hdr pWal h) m file (u32 (iFrame + 1)) iLast rc (aFrameCksum h) szPage_
              else recover_frames fuel pWal m file (u32 (iFrame + 1)) iLast rc ck szPage_
          end
      else Ret (rc, iFrame, ck, pWal, m)
  end.

Definition first_of (iPg : Z) : Z :=
  u32 (1 + (if iPg =? 0 then 0 else u64 (HASHTABLE_NPAGE_ONE + u32 (u32 (iPg - 1) * HASHTABLE_NPAGE)))).
Definition last_of (iLastFrame iPg : Z) : Z :=
  u32 (Z.min iLastFrame (u64 (HASHTABLE_NPAGE_ONE + u32 (iPg * HASHTABLE_NPAGE)))).

(** One pass per page of the index; [aPrivate] goes from pass to pass. *)
Fixpoint recover_pages (fuel : nat) (pWal : Wal) (m : store) (file : list Z) (aPrivate : block) (iPg iLastFrame nPages rc : Z)
  (ck : cksum) (szPage_ : Z) : outcome (Z * cksum * Wal * store) :=
  match fuel with
  | O => OutOfFuel
  | S fuel =>
      if iPg <=? nPages then
        let iLast := last_of iLastFrame iPg in
        let iFirst := first_of iPg in
        '(rc, aShare, pWal, m) ← walIndexPage pWal m iPg;
        _ ← assert_ (bool_decide (is_Some aShare) || negb (rc =? SQLITE_OK));
        match aShare with
        | None => Ret (rc, ck, pWal, m)
        | Some p =>
            '(rc, iFrame, ck, pWal, m') ←
              recover_frames (2 + Z.to_nat (iLast - iFirst)) pWal (with_block m p aPrivate) file iFirst iLast rc ck szPage_;
            aPrivate ← block_of m' p;
            if iFrame <=? iLast then Ret (rc, ck, pWal, m')
            else recover_pages fuel pWal m' file aPrivate (u32 (iPg + 1)) iLastFrame nPages rc ck szPage_
        end
      else Ret (rc, ck, pWal, m)
  end.

(** The frames of a file with a valid header; [aPrivate] is not initialised. *)
Definition recover_log (pWal : Wal) (m : store) (file : list Z) (nSize : Z) (aPrivate : block) : outcome (bool * Z * cksum * Wal * store) :=
  let '(rc, aBuf) := xRead file WAL_HDRSIZE 0 in
  if negb (rc =? SQLITE_OK) then Ret (true, rc, (0, 0), pWal, m)
  else
    magic ← sqlite3Get4byte aBuf 0;
    sz ← sqlite3Get4byte aBuf 8;
    let szPage_ := i32 sz in
    if (Z.land magic 0xFFFFFFFE =? WAL_MAGIC) && (szPage_ =? - 2 ^ 31) then Undefined (* szPage-1 *)
    else if negb (Z.land magic 0xFFFFFFFE =? WAL_MAGIC) || negb (Z.land szPage_ (szPage_ - 1) =? 0) || (SQLITE_MAX_PAGE_SIZE <? szPage_)
       || (szPage_ <? 512) then Ret (false, rc, (0, 0), pWal, m)
    else
      ckpt ← sqlite3Get4byte aBuf 12;
      let h := with_aSalt (with_bigEndCksum (hdr pWal) (Z.land magic 1)) (from_to aBuf 16 8) in
      let pWal := with_nCkpt (with_szPage (with_hdr pWal h) szPage_) ckpt in
      c ← walChecksumBytes SQLITE_BIGENDIAN (nativeCksum SQLITE_BIGENDIAN pWal) aBuf 0 (WAL_HDRSIZE - 2 * 4) None;
      let pWal := set_cksum pWal c in
      x ← sqlite3Get4byte aBuf 24;
      y ← sqlite3Get4byte aBuf 28;
      if negb (c.1 =? x) || negb (c.2 =? y) then Ret (false, rc, (0, 0), pWal, m)
      else
        version ← sqlite3Get4byte aBuf 4;
        if negb (version =? WAL_MAX_VERSION) then Ret (false, SQLITE_CANTOPEN, (0, 0), pWal, m)
        else
          let szFrame := szPage_ + WAL_FRAME_HDRSIZE in
          if negb (xMalloc (szFrame + WALINDEX_PGSZ)) then Ret (true, SQLITE_NOMEM, (0, 0), pWal, m)
          else
            let iLastFrame := u32 (Z.quot (nSize - WAL_HDRSIZE) szFrame) in
            nPages ← walFramePage iLastFrame;
            '(rc, ck, pWal, m) ← recover_pages (2 + Z.to_nat (u32 nPages)) pWal m file aPrivate 0 iLastFrame (u32 nPages) rc (0, 0) szPage_;
            Ret (false, rc, ck, pWal, m).

Definition empty_hdr : WalIndexHdr :=
  {| iVersion := 0; unused := 0; iChange := 0; isInit := 0; bigEndCksum := 0; hdr_szPage := 0; mxFrame := 0; nPage := 0;
     aFrameCksum := (0, 0); aSalt := replicate 8 0; aCksum := (0, 0) |}.

(** [lock] is the answer to the attempt to lock out all others. The checkpoint
    information and the read marks, which are reset at the end, are left out. *)
Definition walIndexRecover (lock : Z) (pWal : Wal) (m : store) (file : list Z) (aPrivate : block) : outcome (Z * Wal * store) :=
  _ ← assert_ (writeLock pWal);
  if negb (lock =? SQLITE_OK) then Ret (lock, pWal, m)
  else
    let pWal := with_hdr pWal empty_hdr in
    let '(rc, nSize) := xFileSize file in
    if negb (rc =? SQLITE_OK) then Ret (rc, pWal, m)
    else
      '(error, rc, ck, pWal, m) ←
        (if WAL_HDRSIZE <? nSize then recover_log pWal m file nSize aPrivate else Ret (false, rc, (0, 0), pWal, m));
      if error : bool then Ret (rc, pWal, m)
      else if rc =? SQLITE_OK then
        '(pWal, m) ← walIndexWriteHdr SQLITE_BIGENDIAN (set_cksum pWal ck) m;
        Ret (rc, pWal, m)
      else Ret (rc, pWal, m).

End Log.
