(* ===== verification/WalIndex.v ===== *)
(** * The wal-index refines a log

    What the operations of Wal.v do to the shared memory, against the list of
    the frames that have been entered.  Of a frame the list has the page and the
    distance of its slot from the place that the hash function names, so that a
    prefix of the list says exactly what stays in place for a reader of an older
    snapshot. *)

From S2P Require Import Prelude Words Bitvec Wal.

(** ** Counting *)

(** An injection of [0, N) into [1, M]. *)
Lemma pigeonhole (N M : Z) (f : Z -> Z) :
  0 <= M -> (forall e, 0 <= e < N -> 1 <= f e <= M) ->
  (forall a b, 0 <= a < N -> 0 <= b < N -> f a = f b -> a = b) -> N <= M.
Proof.
  intros HM Hf Hinj. destruct (Z_le_gt_dec N M) as [|Hgt]; [done|exfalso].
  assert (length (f <$> seqZ 0 N) <= length (seqZ 1 M))%nat as Hl.
  { apply submseteq_length, NoDup_submseteq.
    - apply NoDup_alt. intros i j x Hi Hj. rewrite list_lookup_fmap in Hi, Hj.
      apply fmap_Some in Hi as (a & Ha & ->). apply fmap_Some in Hj as (b & Hb & Hab).
      apply lookup_seqZ in Ha, Hb. apply Hinj in Hab; lia.
    - intros x Hx. apply list_elem_of_fmap in Hx as (e & -> & He). apply elem_of_seqZ in He.
      apply elem_of_seqZ. specialize (Hf e). lia. }
  rewrite length_fmap, !length_seqZ in Hl. lia.
Qed.

(** ** Places *)

Definition table_of (f : Z) : Z := (f + 33) / 4096.
Definition start (h : Z) : Z := if h =? 0 then 0 else 4096 * h - 34.
Definition cap (h : Z) : Z := if h =? 0 then 4062 else 4096.
Definition off (h : Z) : Z := if h =? 0 then 34 else 0.
Definition loc_of (h : Z) : WalHashLoc := {| aHash := h; aPgno := (h, off h); iZero := start h |}.

(** Frames are counted in [int]s by the code; this is what fits. *)
Definition MAX_FRAME : Z := 2 ^ 31 - 34.

Lemma off_cap h : off h + cap h = 4096.
Proof. unfold off, cap. by destruct (h =? 0). Qed.
Lemma cap_range h : 4062 <= cap h <= 4096.
Proof. unfold cap. destruct (h =? 0); lia. Qed.
Lemma off_nonneg h : 0 <= off h.
Proof. unfold off. destruct (h =? 0); lia. Qed.
Lemma start_nonneg h : 0 <= h -> 0 <= start h.
Proof. unfold start. destruct (Z.eqb_spec h 0); lia. Qed.
Lemma start_next h : 0 <= h -> start (h + 1) = start h + cap h.
Proof. unfold start, cap. destruct (Z.eqb_spec h 0), (Z.eqb_spec (h + 1) 0); lia. Qed.

(** A frame lies in the table of its number and in no other. *)
Lemma table_of_spec f h : 0 < f -> 0 <= h -> table_of f = h <-> start h < f <= start h + cap h.
Proof.
  intros Hf Hh. unfold table_of, start, cap. pose proof (Z.div_mod (f + 33) 4096). pose proof (Z.mod_pos_bound (f + 33) 4096).
  destruct (Z.eqb_spec h 0); split; lia.
Qed.

Lemma table_of_nonneg f : 0 <= f -> 0 <= table_of f.
Proof. intros. apply Z.div_pos; lia. Qed.
Lemma table_of_mono f g : f <= g -> table_of f <= table_of g.
Proof. intros. apply Z.div_le_mono; lia. Qed.
Lemma table_of_bounds f : 0 < f -> start (table_of f) < f <= start (table_of f) + cap (table_of f).
Proof. intros. apply table_of_spec; [done|apply table_of_nonneg; lia|done]. Qed.
Lemma start_mono h k : 0 <= h < k -> start h + cap h <= start k.
Proof. intros. unfold start, cap. destruct (Z.eqb_spec h 0), (Z.eqb_spec k 0); lia. Qed.
Lemma table_of_start h : 0 <= h -> table_of (start h + 1) = h.
Proof. intros. apply table_of_spec; [pose proof (start_nonneg h)|..]; pose proof (cap_range h); lia. Qed.

(** ** Probing *)

Definition walk (pg d : Z) : Z := (walHash pg + d) mod 8192.

Lemma slot_mask x : Z.land x (HASHTABLE_NSLOT - 1) = x mod 8192.
Proof. change (HASHTABLE_NSLOT - 1) with (Z.ones 13). by rewrite Z.land_ones by lia. Qed.
Lemma walHash_range pg : 0 <= walHash pg < 8192.
Proof. unfold walHash. rewrite slot_mask. apply Z.mod_pos_bound. lia. Qed.
Lemma walk_range pg d : 0 <= walk pg d < 8192.
Proof. apply Z.mod_pos_bound. lia. Qed.
Lemma walk_0 pg : walk pg 0 = walHash pg.
Proof. unfold walk. rewrite Z.add_0_r. apply Z.mod_small, walHash_range. Qed.
Lemma walk_next pg d : walNextHash (walk pg d) = walk pg (d + 1).
Proof. unfold walNextHash, walk. rewrite slot_mask, Zplus_mod_idemp_l. f_equal. lia. Qed.
Lemma walk_inj pg a b : 0 <= a < 8192 -> 0 <= b < 8192 -> walk pg a = walk pg b -> a = b.
Proof.
  unfold walk. intros Ha Hb E. pose proof (walHash_range pg).
  pose proof (Z.div_mod (walHash pg + a) 8192). pose proof (Z.div_mod (walHash pg + b) 8192).
  pose proof (Z.mod_pos_bound (walHash pg + a) 8192). nia.
Qed.

(** ** One table *)

(** Entries: page and probe distance of frame 1, 2, ... *)
Definition len (E : list (Z * Z)) : Z := Z.of_nat (length E).
Definition pg (E : list (Z * Z)) (f : Z) : Z := (nth (Z.to_nat (f - 1)) E (0, 0)).1.
Definition dist (E : list (Z * Z)) (f : Z) : Z := (nth (Z.to_nat (f - 1)) E (0, 0)).2.

(** The [j]-th place of the array of page numbers, from 1. *)
Definition place (h : Z) (b : block) (j : Z) : Z := at_ (words b) (off h + j - 1).
Definition slot (b : block) (k : Z) : Z := at_ (slots b) k.

Record sized (b : block) : Prop := {
  sz_words : Z.of_nat (length (words b)) = 4096;
  sz_slots : Z.of_nat (length (slots b)) = 8192
}.

(** Block [b] is table [h] for the entries [E]. Its array has [cnt] numbers: the
    frames behind the end of [E] are what a writer left that went away. *)
Record table (h : Z) (E : list (Z * Z)) (b : block) (cnt : Z) : Prop := {
  t_sized : sized b;
  t_cnt : 0 <= cnt <= cap h;
  t_cover : forall j, 1 <= j <= cap h -> start h + j <= len E -> j <= cnt;
  t_page : forall j, 1 <= j <= cap h -> start h + j <= len E -> place h b j = pg E (start h + j);
  t_used : forall j, 1 <= j <= cnt -> place h b j <> 0;
  t_free : forall j, cnt < j <= cap h -> place h b j = 0;
  t_range : forall k, 0 <= k < 8192 -> 0 <= slot b k <= cnt;
  t_inj : forall k k', 0 <= k < 8192 -> 0 <= k' < 8192 -> slot b k = slot b k' -> slot b k <> 0 -> k = k';
  t_dist : forall j, 1 <= j <= cap h -> start h + j <= len E -> 0 <= dist E (start h + j) < 8192;
  t_here : forall j, 1 <= j <= cap h -> start h + j <= len E ->
    slot b (walk (pg E (start h + j)) (dist E (start h + j))) = j;
  t_path : forall j e, 1 <= j <= cap h -> start h + j <= len E -> 0 <= e < dist E (start h + j) ->
    0 < slot b (walk (pg E (start h + j)) e) < j
}.

Lemma place_index h j : 1 <= j <= cap h -> 0 <= off h + j - 1 < 4096.
Proof. pose proof (off_cap h). pose proof (off_nonneg h). lia. Qed.

(** A value in a slot of a frame is the frame's own. *)
Lemma slot_unique h E b cnt j k : table h E b cnt -> 1 <= j <= cap h -> start h + j <= len E -> 0 <= k < 8192 ->
  slot b k = j -> k = walk (pg E (start h + j)) (dist E (start h + j)).
Proof.
  intros T Hj Hl Hk E1. apply (t_inj _ _ _ _ T); [done|apply walk_range|rewrite (t_here _ _ _ _ T) by done; done|lia].
Qed.

(** Nothing but the frames up to the end of the list is said of a table. *)
Lemma log_len_app E F : len (E ++ F) = len E + len F.
Proof. unfold len. rewrite length_app. lia. Qed.
Lemma log_len_nonneg E : 0 <= len E.
Proof. unfold len. lia. Qed.
Lemma pg_app E F f : 1 <= f <= len E -> pg (E ++ F) f = pg E f.
Proof. unfold pg, len. intros. by rewrite app_nth1 by lia. Qed.
Lemma dist_app E F f : 1 <= f <= len E -> dist (E ++ F) f = dist E f.
Proof. unfold dist, len. intros. by rewrite app_nth1 by lia. Qed.
Lemma pg_last E x : pg (E ++ [x]) (len E + 1) = x.1.
Proof. unfold pg, len. rewrite app_nth2 by lia. by replace (_ - _)%nat with 0%nat by lia. Qed.
Lemma dist_last E x : dist (E ++ [x]) (len E + 1) = x.2.
Proof. unfold dist, len. rewrite app_nth2 by lia. by replace (_ - _)%nat with 0%nat by lia. Qed.

(** The same block for another list that has the same frames in this table. *)
Lemma table_same h E F b cnt : 0 <= h -> table h E b cnt ->
  (forall j, 1 <= j <= cap h -> start h + j <= len F ->
     start h + j <= len E /\ pg F (start h + j) = pg E (start h + j) /\ dist F (start h + j) = dist E (start h + j)) ->
  table h F b cnt.
Proof.
  intros Hh [] Hs. split; try done; intros j *; intros Hj Hl; destruct (Hs j Hj Hl) as (HE & Hp & Hd); rewrite ?Hp, ?Hd; eauto.
Qed.

Lemma table_prefix h E F b cnt : 0 <= h -> table h (E ++ F) b cnt -> table h E b cnt.
Proof.
  intros Hh T. apply (table_same h (E ++ F)); [done..|]. intros j Hj Hl. pose proof (start_nonneg h Hh).
  rewrite log_len_app, pg_app, dist_app by lia. pose proof (log_len_nonneg F). split_and!; (done || lia).
Qed.

Lemma table_extend h E F b cnt : 0 <= h -> start h + cap h <= len E -> table h E b cnt -> table h (E ++ F) b cnt.
Proof.
  intros Hh Hf T. apply (table_same h E); [done..|]. intros j Hj Hl. pose proof (start_nonneg h Hh).
  rewrite pg_app, dist_app by lia. split_and!; (done || lia).
Qed.

Lemma at_zero l k : (forall i x, l !! i = Some x -> x = 0) -> at_ l k = 0.
Proof.
  intros Hz. unfold at_. rewrite nth_lookup. destruct (l !! Z.to_nat k) eqn:E; [|done]. exact (Hz _ _ E).
Qed.

(** A block of which nothing but zeros is in the table. *)
Lemma table_empty h E b : 0 <= h -> len E <= start h -> sized b ->
  (forall j, 1 <= j <= cap h -> place h b j = 0) -> (forall k, 0 <= k < 8192 -> slot b k = 0) -> table h E b 0.
Proof.
  intros Hh Hl Hs Hw Hk. pose proof (cap_range h).
  split; try done; try lia; intros; try lia; first [apply Hw; lia | rewrite Hk in *; lia].
Qed.

(** ** The search for an empty slot *)

Lemma nth_at_ok l k : 0 <= k < Z.of_nat (length l) -> nth_at l k = Ret (at_ l k).
Proof. intros Hk. unfold nth_at. rewrite (proj2 (Z.leb_le 0 k)), lookup_at by lia. done. Qed.
Lemma put_at_ok l k v : 0 <= k < Z.of_nat (length l) -> put_at l k v = Ret (<[Z.to_nat k := v]> l).
Proof. intros Hk. unfold put_at. by rewrite (proj2 (Z.leb_le 0 k)), (proj2 (Z.ltb_lt k _)) by lia. Qed.

Lemma load_slot_ok m h b k : blocks m !! h = Some b -> sized b -> 0 <= k < 8192 -> load_slot m (loc_of h) k = Ret (slot b k).
Proof. intros Hb [_ Hs] Hk. unfold load_slot, block_of. cbn [aHash loc_of]. rewrite Hb. cbn. apply nth_at_ok. lia. Qed.
Lemma load_pgno_ok m h b j : blocks m !! h = Some b -> sized b -> 1 <= j <= cap h ->
  load_pgno m (loc_of h) (j - 1) = Ret (place h b j).
Proof.
  intros Hb [Hs _] Hj. unfold load_pgno, block_of, place. cbn [aPgno loc_of fst snd]. rewrite Hb. cbn.
  replace (off h + (j - 1)) with (off h + j - 1) by lia. apply nth_at_ok. pose proof (place_index h j Hj). lia.
Qed.

Lemma free_slot_spec m h b p : blocks m !! h = Some b -> sized b -> forall fuel d, 0 <= d ->
  (exists D, free_slot m (loc_of h) fuel (walk p d) = Ret (Some (walk p D)) /\ d <= D <= d + Z.of_nat fuel /\
     slot b (walk p D) = 0 /\ forall e, d <= e < D -> slot b (walk p e) <> 0) \/
  (free_slot m (loc_of h) fuel (walk p d) = Ret None /\ forall e, d <= e <= d + Z.of_nat fuel -> slot b (walk p e) <> 0).
Proof.
  intros Hb Hs. induction fuel as [|fuel IH]; intros d Hd; cbn [free_slot];
    rewrite (load_slot_ok _ _ _ _ Hb Hs (walk_range p d)); cbn [mbind outcome_bind];
    destruct (Z.eqb_spec (slot b (walk p d)) 0) as [E|E].
  1, 3: left; exists d; split_and!; (done || lia).
  - right. split; [done|]. intros e He. by replace e with d by lia.
  - rewrite walk_next. destruct (IH (d + 1)) as [(D & EQ & HD & Hz & Hn)|(EQ & Hn)]; [lia|left|right].
    + exists D. split_and!; try done; try lia. intros e He. destruct (Z.eq_dec e d) as [->|]; [done|apply Hn; lia].
    + split; [done|]. intros e He. destruct (Z.eq_dec e d) as [->|]; [done|apply Hn; lia].
Qed.

(** The slots of a table hold each number once, so a probe ends. *)
Lemma probe_ends h E b cnt p N : table h E b cnt -> 0 <= N <= 8192 -> (forall e, 0 <= e < N -> slot b (walk p e) <> 0) -> N <= cnt.
Proof.
  intros T HN Hn. apply (pigeonhole _ _ (fun e => slot b (walk p e))).
  - destruct T as [_ ? _ _ _]. lia.
  - intros e He. pose proof (t_range _ _ _ _ T _ (walk_range p e)). specialize (Hn e He). lia.
  - intros x y Hx Hy Hxy. apply (walk_inj p); [lia..|].
    apply (t_inj _ _ _ _ T); auto using walk_range.
Qed.

Lemma probe_finds m h E b cnt p idx : blocks m !! h = Some b -> table h E b cnt -> cnt < idx <= 4096 ->
  exists D, free_slot m (loc_of h) (Z.to_nat idx) (walHash p) = Ret (Some (walk p D)) /\ 0 <= D < 8192 /\
    slot b (walk p D) = 0 /\ forall e, 0 <= e < D -> slot b (walk p e) <> 0.
Proof.
  intros Hb T Hi. rewrite <- walk_0. pose proof (t_cnt _ _ _ _ T).
  destruct (free_slot_spec m h b p Hb (t_sized _ _ _ _ T) (Z.to_nat idx) 0) as [(D & EQ & HD & Hz & Hn)|(EQ & Hn)]; [lia|..].
  - exists D. split_and!; (done || lia).
  - pose proof (probe_ends h E b cnt p (idx + 1) T) as Hp. exfalso. enough (idx + 1 <= cnt) by lia. apply Hp; [lia|].
    intros e He. apply Hn. lia.
Qed.

(** ** What the operations do to a table *)

Lemma length_zero_from l k : length (zero_from l k) = length l.
Proof. unfold zero_from. rewrite length_app, length_take, length_replicate. lia. Qed.

Lemma at_zero_from l k j : 0 <= k -> 0 <= j -> at_ (zero_from l k) j = if j <? k then at_ l j else 0.
Proof.
  intros Hk Hj. unfold at_, zero_from. rewrite !nth_lookup. destruct (Z.ltb_spec j k).
  - destruct (Nat.lt_ge_cases (Z.to_nat j) (length l)).
    + rewrite lookup_app_l by (rewrite length_take; lia). by rewrite lookup_take_lt by lia.
    + rewrite !lookup_ge_None_2; [done|lia|]. rewrite length_app, length_take, length_replicate. lia.
  - destruct (lookup (M := list Z) _ _) eqn:E; [|done]. rewrite lookup_app_r in E by (rewrite length_take; lia).
    apply lookup_replicate_1 in E as [-> _]. done.
Qed.

Lemma at_clear_slots c l k : at_ (clear_slots c l) k = if c <? at_ l k then 0 else at_ l k.
Proof.
  unfold at_, clear_slots. rewrite !nth_lookup, list_lookup_fmap. destruct (l !! Z.to_nat k); cbn; [done|].
  by destruct (c <? 0).
Qed.

Lemma place_insert h b s j v i : sized b -> 1 <= j <= cap h -> 1 <= i <= cap h ->
  place h {| words := <[Z.to_nat (off h + j - 1) := v]> (words b); slots := s |} i = if i =? j then v else place h b i.
Proof.
  intros [Hs _] Hj Hi. unfold place. cbn [words]. pose proof (place_index h j Hj). pose proof (place_index h i Hi).
  rewrite at_insert by lia. by destruct (Z.eqb_spec i j), (Z.eqb_spec (off h + i - 1) (off h + j - 1)); try lia.
Qed.

Lemma slot_insert b w k v i : sized b -> 0 <= k < 8192 -> 0 <= i < 8192 ->
  slot {| words := w; slots := <[Z.to_nat k := v]> (slots b) |} i = if i =? k then v else slot b i.
Proof. intros [_ Hs] Hk Hi. unfold slot. cbn [slots]. by rewrite at_insert by lia. Qed.

Definition entered (h : Z) (b : block) (j p k : Z) : block :=
  {| words := <[Z.to_nat (off h + j - 1) := p]> (words b); slots := <[Z.to_nat k := j]> (slots b) |}.

Lemma table_enter h E b cnt p D : 0 <= h -> table h E b cnt -> len E = start h + cnt -> cnt < cap h -> 0 < p ->
  0 <= D < 8192 -> slot b (walk p D) = 0 -> (forall e, 0 <= e < D -> slot b (walk p e) <> 0) ->
  table h (E ++ [(p, D)]) (entered h b (cnt + 1) p (walk p D)) (cnt + 1).
Proof.
  intros Hh T Hl Hc Hp HD Hz Hn. pose proof (t_cnt _ _ _ _ T) as Hcnt. pose proof (start_nonneg h Hh) as Hst.
  pose proof (t_sized _ _ _ _ T) as Hs. pose proof (walk_range p D) as Hw.
  assert (forall k, 0 <= k < 8192 -> slot (entered h b (cnt + 1) p (walk p D)) k = if k =? walk p D then cnt + 1 else slot b k) as Hslot.
  { intros. apply slot_insert; auto. }
  assert (forall i, 1 <= i <= cap h -> place h (entered h b (cnt + 1) p (walk p D)) i = if i =? cnt + 1 then p else place h b i) as Hplace.
  { intros. apply place_insert; auto. lia. }
  assert (forall j, 1 <= j <= cap h -> start h + j <= len (E ++ [(p, D)]) -> j = cnt + 1 \/ j <= cnt /\ start h + j <= len E) as Hcase.
  { intros j Hj. rewrite log_len_app. change (len [(p, D)]) with 1. lia. }
  assert (start h + (cnt + 1) = len E + 1) as Heq by lia.
  split.
  - destruct Hs. split; cbn [words slots entered]; by rewrite length_insert.
  - lia.
  - intros j Hj Hle. destruct (Hcase j Hj Hle); lia.
  - intros j Hj Hle. rewrite Hplace by done. destruct (Hcase j Hj Hle) as [->|[Hj' HlE]].
    + by rewrite Z.eqb_refl, Heq, pg_last.
    + rewrite (proj2 (Z.eqb_neq _ _)), pg_app by lia. apply (t_page _ _ _ _ T); lia.
  - intros j Hj. rewrite Hplace by lia. destruct (Z.eqb_spec j (cnt + 1)); [lia|]. apply (t_used _ _ _ _ T). lia.
  - intros j Hj. rewrite Hplace, (proj2 (Z.eqb_neq _ _)) by lia. apply (t_free _ _ _ _ T). lia.
  - intros k Hk. rewrite Hslot by done. pose proof (t_range _ _ _ _ T k Hk). destruct (k =? _); lia.
  - intros k k' Hk Hk'. rewrite !Hslot by done. pose proof (t_range _ _ _ _ T k Hk). pose proof (t_range _ _ _ _ T k' Hk').
    destruct (Z.eqb_spec k (walk p D)), (Z.eqb_spec k' (walk p D)); intros; try lia. by apply (t_inj _ _ _ _ T).
  - intros j Hj Hle. destruct (Hcase j Hj Hle) as [->|[Hj' HlE]].
    + by rewrite Heq, dist_last.
    + rewrite dist_app by lia. by apply (t_dist _ _ _ _ T).
  - intros j Hj Hle. rewrite Hslot by apply walk_range. destruct (Hcase j Hj Hle) as [->|[Hj' HlE]].
    + by rewrite Heq, pg_last, dist_last, Z.eqb_refl.
    + rewrite pg_app, dist_app by lia. pose proof (t_here _ _ _ _ T j Hj HlE) as Hhere.
      destruct (Z.eqb_spec (walk (pg E (start h + j)) (dist E (start h + j))) (walk p D)) as [Ew|]; [|done].
      rewrite Ew in Hhere. lia.
  - intros j e Hj Hle. destruct (Hcase j Hj Hle) as [->|[Hj' HlE]].
    + rewrite Heq, pg_last, dist_last. cbn [fst snd]. intros He. rewrite Hslot by apply walk_range.
      destruct (Z.eqb_spec (walk p e) (walk p D)) as [Ew|_]; [apply walk_inj in Ew; lia|].
      pose proof (t_range _ _ _ _ T _ (walk_range p e)). specialize (Hn e He). lia.
    + rewrite pg_app, dist_app by lia. intros He. rewrite Hslot by apply walk_range.
      pose proof (t_path _ _ _ _ T j e Hj HlE He) as Hpath.
      destruct (Z.eqb_spec (walk (pg E (start h + j)) e) (walk p D)) as [Ew|]; [|done].
      rewrite Ew in Hpath. lia.
Qed.

Definition cleaned (h : Z) (b : block) (c : Z) : block :=
  {| words := zero_from (words b) (off h + c); slots := clear_slots c (slots b) |}.

Lemma table_clean h E b cnt c : 0 <= h -> table h E b cnt -> len E = start h + c -> 1 <= c <= cap h -> table h E (cleaned h b c) c.
Proof.
  intros Hh T Hl Hc. pose proof (t_cnt _ _ _ _ T) as Hcnt. pose proof (start_nonneg h Hh) as Hst. pose proof (off_nonneg h).
  assert (c <= cnt) as Hcc by (apply (t_cover _ _ _ _ T); lia).
  assert (forall k, slot (cleaned h b c) k = if c <? slot b k then 0 else slot b k) as Hslot by (intros; apply at_clear_slots).
  assert (forall i, 1 <= i <= cap h -> place h (cleaned h b c) i = if i <=? c then place h b i else 0) as Hplace.
  { intros i Hi. unfold place, cleaned. cbn [words]. rewrite at_zero_from by lia.
    by destruct (Z.ltb_spec (off h + i - 1) (off h + c)), (Z.leb_spec i c); try lia. }
  assert (forall k, 0 <= slot b k <= c -> slot (cleaned h b c) k = slot b k) as Hkeep.
  { intros k Hk. rewrite Hslot. destruct (Z.ltb_spec c (slot b k)); [lia|done]. }
  split; [|lia|lia|..].
  - destruct T as [[Hsw Hss] _ _ _ _]. split; cbn [words slots cleaned]; [by rewrite length_zero_from|].
    unfold clear_slots. by rewrite length_map.
  - intros j Hj Hle. rewrite Hplace, (proj2 (Z.leb_le j c)) by lia. apply (t_page _ _ _ _ T); lia.
  - intros j Hj. rewrite Hplace, (proj2 (Z.leb_le j c)) by lia. apply (t_used _ _ _ _ T); lia.
  - intros j Hj. rewrite Hplace, (proj2 (Z.leb_gt j c)) by lia. done.
  - intros k Hk. rewrite Hslot. pose proof (t_range _ _ _ _ T k Hk). destruct (Z.ltb_spec c (slot b k)); lia.
  - intros k k' Hk Hk'. rewrite !Hslot. destruct (_ <? _); [done|]. destruct (_ <? _); [by intros -> |]. by apply (t_inj _ _ _ _ T).
  - apply (t_dist _ _ _ _ T).
  - intros j Hj Hle. pose proof (t_here _ _ _ _ T j Hj Hle) as E1. rewrite Hkeep; [done|]. rewrite E1. lia.
  - intros j e Hj Hle He. pose proof (t_path _ _ _ _ T j e Hj Hle He) as E1. rewrite Hkeep; [done|]. lia.
Qed.

(** ** Mapping *)

(** What is documented of [xShmMap]: it maps the page that is asked for, makes
    a missing one only for a writer, and then filled with zeros. *)
Class ShmOk `{Shm} : Prop := shm_map m p wl rc q m' : 0 <= p -> xShmMap m p wl = (rc, q, m') ->
  (m' = m \/ wl = true /\ blocks m !! p = None /\ m' = with_block m p zero_block) /\
  (forall x, q = Some x -> x = p /\ is_Some (blocks m' !! p)) /\
  (rc = SQLITE_OK \/ rc = SQLITE_READONLY -> is_Some (blocks m !! p) \/ wl = true -> q = Some p).

(** The pointers of a connection: page 0 is mapped, and a pointer is the number of its page. *)
Record conn (w : Wal) : Prop := {
  c_zero : apWiData w !! 0%nat = Some (Some 0);
  c_ptr : forall i p, apWiData w !! i = Some (Some p) -> p = Z.of_nat i
}.

(** A connection that has mapped more pages and is the same otherwise. *)
Record same (w w' : Wal) : Prop := {
  s_hdr : hdr w' = hdr w; s_min : minFrame w' = minFrame w; s_excl : exclusiveMode w' = exclusiveMode w;
  s_lock : writeLock w' = writeLock w; s_read : readLock w' = readLock w; s_bad : bShmUnreliable w' = bShmUnreliable w;
  s_ckpt : nCkpt w' = nCkpt w; s_size : szPage w' = szPage w; s_rec : iReCksum w' = iReCksum w;
  s_ptr : forall i p, apWiData w !! i = Some (Some p) -> apWiData w' !! i = Some (Some p)
}.
#[export] Instance same_preorder : PreOrder same.
Proof. split; [by split|]. intros x y z [] []. split; try congruence. auto. Qed.

Definition mapped (w : Wal) (h : Z) : Prop := apWiData w !! Z.to_nat h = Some (Some h).

(** The page [h] can be had: it is there or may be made; what is mapped is
    there, and in heap memory what is there is mapped. *)
Record gettable (w : Wal) (m : store) (h : Z) : Prop := {
  g_there : mapped w h -> is_Some (blocks m !! h);
  g_heap : exclusiveMode w = WAL_HEAPMEMORY_MODE -> is_Some (blocks m !! h) -> mapped w h;
  g_make : is_Some (blocks m !! h) \/ writeLock w = true
}.

(** [m'] has at most page [h] in addition, and that is blank. *)
Definition grown (m m' : store) (h : Z) : Prop := m' = m \/ blocks m !! h = None /\ m' = with_block m h zero_block.

Definition got (w : Wal) (m : store) (h rc : Z) (q : option Z) (w' : Wal) (m' : store) : Prop :=
  same w w' /\ conn w' /\ grown m m' h /\
  (forall k, k <> h -> mapped w' k -> mapped w k) /\
  (mapped w' h -> is_Some (blocks m' !! h)) /\
  (exclusiveMode w = WAL_HEAPMEMORY_MODE -> is_Some (blocks m' !! h) -> mapped w' h) /\
  (rc = SQLITE_OK -> q = Some h /\ is_Some (blocks m' !! h) /\ mapped w' h).

Section Ops.
Context `{Build} `{ShmOk}.

Lemma mapped_nonneg w k : conn w -> mapped w k -> 0 <= k.
Proof. intros Hc Hk. rewrite (c_ptr _ Hc _ _ Hk). lia. Qed.

Lemma conn_enlarge w n : conn w -> conn (with_apWiData w (apWiData w ++ replicate n None)) /\
  same w (with_apWiData w (apWiData w ++ replicate n None)) /\
  forall k, 0 <= k -> mapped (with_apWiData w (apWiData w ++ replicate n None)) k -> mapped w k.
Proof.
  intros [Hz Hp].
  assert (forall i p, (apWiData w ++ replicate n None) !! i = Some (Some p) -> apWiData w !! i = Some (Some p)) as Hl.
  { intros i p Hi. apply lookup_app_Some in Hi as [Hi|[_ Hi]]; [done|]. apply lookup_replicate_1 in Hi as [? _]. done. }
  split_and!.
  - split; cbn; eauto using lookup_app_l_Some.
  - split; try done. intros. cbn. by apply lookup_app_l_Some.
  - intros k _. apply Hl.
Qed.

Lemma conn_set w h q : conn w -> 0 < h -> apWiData w !! Z.to_nat h = Some None -> (forall x, q = Some x -> x = h) ->
  conn (set_page w h q) /\ same w (set_page w h q) /\ (forall k, 0 <= k -> k <> h -> mapped (set_page w h q) k -> mapped w k) /\
  apWiData (set_page w h q) !! Z.to_nat h = Some q.
Proof.
  intros [Hz Hp] Hh Hn Hq. pose proof (lookup_lt_Some _ _ _ Hn) as Hlt.
  assert (forall i, i <> Z.to_nat h -> apWiData (set_page w h q) !! i = apWiData w !! i) as Hne.
  { intros. cbn. by apply list_lookup_insert_ne. }
  assert (apWiData (set_page w h q) !! Z.to_nat h = Some q) as Heq by (cbn; by apply list_lookup_insert_eq).
  split_and!; try done.
  - split; [rewrite Hne by lia; done|]. intros i p Hi. destruct (decide (i = Z.to_nat h)) as [->|].
    + rewrite Heq in Hi. rewrite (Hq p) by congruence. lia.
    + rewrite Hne in Hi by done. eauto.
  - split; try done. intros i p Hi. rewrite Hne; [done|]. intros ->. congruence.
  - intros k Hk0 Hk. unfold mapped. rewrite Hne by lia. done.
Qed.

Lemma got_weaken w0 w m h rc q w' m' : same w0 w -> (forall k, k <> h -> mapped w k -> mapped w0 k) ->
  got w m h rc q w' m' -> got w0 m h rc q w' m'.
Proof.
  intros Hs Hm (Hs' & ? & ? & Hk & ? & ? & ?). split_and!; eauto; [by etrans|]. intros. rewrite <- (s_excl _ _ Hs) in *. eauto.
Qed.

(** The page is asked from the heap or from the VFS. *)
Lemma realloc_block w m h : conn w -> 0 < h -> apWiData w !! Z.to_nat h = Some None -> gettable w m h ->
  exists rc q w' m', walIndexPageRealloc w m h = Ret (rc, q, w', m') /\ got w m h rc q w' m'.
Proof.
  intros Hc Hh Hn [Ht Hheap Hm]. pose proof (lookup_lt_Some _ _ _ Hn) as Hlt. unfold walIndexPageRealloc.
  rewrite (proj2 (Z.leb_gt (nWiData w) h)) by (unfold nWiData; lia). cbn [andb].
  rewrite assert_true by (by apply bool_decide_eq_true_2). cbn [mbind outcome_bind].
  destruct (Z.eqb_spec (exclusiveMode w) WAL_HEAPMEMORY_MODE) as [He|He].
  - assert (blocks m !! h = None) as Hnone.
    { destruct (blocks m !! h) eqn:E; [|done]. exfalso. assert (mapped w h) as Hmap by eauto. unfold mapped in Hmap. congruence. }
    destruct (xMallocZero h); cbn [mbind outcome_bind].
    + destruct (conn_set w h (Some h) Hc Hh Hn) as (C & S' & K & L); [congruence|]. rewrite L.
      rewrite assert_true by (cbn; by rewrite orb_true_r). cbn [mbind outcome_bind default].
      eexists _, _, _, _. split; [done|].
      assert (is_Some (blocks (with_block m h zero_block) !! h)) as Hsome by (cbn; rewrite lookup_insert_eq; eauto).
      split_and!; eauto; [by right|]. intros k Hk Hmk. apply K; eauto using mapped_nonneg.
    + destruct (conn_set w h None Hc Hh Hn) as (C & S' & K & L); [congruence|]. rewrite L.
      rewrite assert_true by (cbn; by rewrite orb_true_r). cbn [mbind outcome_bind default].
      eexists _, _, _, _. split; [done|]. split_and!; eauto; [by left|..|done].
      * intros k Hk Hmk. apply K; eauto using mapped_nonneg.
      * unfold mapped. rewrite L. congruence.
      * rewrite Hnone. by intros _ [? ?].
  - destruct (xShmMap m h (writeLock w)) as [[rc q] m'] eqn:Ex.
    pose proof (shm_map m h _ _ _ _ ltac:(lia) Ex) as (Hm' & Hq & Hget).
    destruct (conn_set w h q Hc Hh Hn) as (C & S' & K & L); [intros x Hx; by destruct (Hq x Hx)|].
    assert (grown m m' h) as Hg by (destruct Hm' as [->|(_ & ? & ->)]; [left|right]; done).
    assert (rc = SQLITE_OK \/ rc = SQLITE_READONLY -> q = Some h) as Hget' by auto. clear Hget.
    rewrite assert_true; [|destruct (Z.eqb_spec rc SQLITE_OK); [rewrite Hget' by auto; done|by rewrite orb_true_r]].
    cbn [mbind outcome_bind].
    assert (forall w' rc', same w w' -> conn w' -> apWiData w' = apWiData (set_page w h q) -> (rc' = SQLITE_OK -> q = Some h) ->
      got w m h rc' q w' m') as Hgot.
    { intros w' rc' Hs' Hc' Hap Hrc. unfold got, mapped. rewrite Hap. split_and!; try done.
      - intros k Hk Hmk. apply K; eauto using mapped_nonneg.
      - intros Hmh. rewrite L in Hmh. injection Hmh as ->. by apply (Hq h).
      - intros Hrc'. rewrite (Hrc Hrc') in *. destruct (Hq h); [done|]. split_and!; done. }
    destruct (Z.eqb_spec rc SQLITE_OK) as [->|Hrc]; [|destruct (_ =? SQLITE_READONLY) eqn:Ero].
    + rewrite Hget' in * by auto. cbn [mbind outcome_bind]. rewrite L, assert_true by (cbn; by rewrite orb_true_r).
      cbn [mbind outcome_bind default]. eexists _, _, _, _. split; [done|]. by apply Hgot.
    + cbn [mbind outcome_bind].
      change (apWiData (with_readOnly ?a ?b)) with (apWiData a). rewrite L. cbn [default].
      rewrite assert_true.
      2: { destruct (Z.eqb_spec rc SQLITE_READONLY); [by rewrite Hget' by auto; rewrite orb_true_r|].
           rewrite (proj2 (Z.eqb_neq rc SQLITE_OK)) by done. by rewrite orb_true_r. }
      cbn [mbind outcome_bind]. eexists _, _, _, _. split; [done|]. apply Hgot; [by destruct S'; split|by destruct C; split|done|].
      destruct (Z.eqb_spec rc SQLITE_READONLY); auto.
    + cbn [mbind outcome_bind]. rewrite L. cbn [default]. rewrite (proj2 (Z.eqb_neq rc SQLITE_OK)) by done.
      rewrite assert_true by (cbn; by rewrite orb_true_r). cbn [mbind outcome_bind].
      eexists _, _, _, _. split; [done|]. by apply Hgot.
Qed.

Lemma index_page w m h : conn w -> 0 <= h -> gettable w m h ->
  exists rc q w' m', walIndexPage w m h = Ret (rc, q, w', m') /\ got w m h rc q w' m' /\ (h = 0 -> rc = SQLITE_OK).
Proof.
  intros Hc Hh G. unfold walIndexPage. rewrite (proj2 (Z.ltb_ge h 0)) by done.
  destruct (apWiData w !! Z.to_nat h) as [[p|]|] eqn:E.
  - assert (p = h) as -> by (rewrite (c_ptr _ Hc _ _ E); lia).
    eexists _, _, _, _. split; [done|]. split; [|done].
    assert (mapped w h) as Hmw by done. assert (is_Some (blocks m !! h)) by by apply (g_there _ _ _ G).
    split_and!; eauto; try done. by left.
  - destruct (Z.eq_dec h 0) as [->|]; [change (Z.to_nat 0) with 0%nat in E; rewrite (c_zero _ Hc) in E; done|].
    destruct (realloc_block w m h Hc ltac:(lia) E G) as (rc & q & w' & m' & ? & ?). by exists rc, q, w', m'.
  - destruct (Z.eq_dec h 0) as [->|]; [change (Z.to_nat 0) with 0%nat in E; rewrite (c_zero _ Hc) in E; done|]. pose proof E as Hlen.
    apply lookup_ge_None in Hlen.
    destruct (xRealloc h) eqn:Er.
    + destruct (conn_enlarge w (Z.to_nat (h + 1 - nWiData w)) Hc) as (C & S' & K).
      set (w1 := with_apWiData w (apWiData w ++ replicate (Z.to_nat (h + 1 - nWiData w)) None)) in *.
      assert (apWiData w1 !! Z.to_nat h = Some None) as E1.
      { cbn. rewrite lookup_app_r by done. apply lookup_replicate. unfold nWiData. split; [done|lia]. }
      assert (~ mapped w h) as Hnm by (unfold mapped; congruence).
      assert (walIndexPageRealloc w m h = walIndexPageRealloc w1 m h) as ->.
      { unfold walIndexPageRealloc. rewrite Er, !andb_false_r. rewrite (proj2 (Z.leb_le (nWiData w) h)) by (unfold nWiData; lia).
        fold w1. rewrite (proj2 (Z.leb_gt (nWiData w1) h)); [done|]. pose proof (lookup_lt_Some _ _ _ E1). unfold nWiData. lia. }
      assert (gettable w1 m h) as G1.
      { destruct G as [G1 G2 G3]. split; [|intros He Hb; exfalso; by apply Hnm, G2|done]. intros Hm. unfold mapped in Hm. congruence. }
      destruct (realloc_block w1 m h C ltac:(lia) E1 G1) as (rc & q & w' & m' & ? & Hg).
      exists rc, q, w', m'. split_and!; try done. apply (got_weaken w w1); try done.
      intros k Hk Hmk. apply K; eauto using mapped_nonneg.
    + unfold walIndexPageRealloc. rewrite Er, (proj2 (Z.leb_le (nWiData w) h)) by (unfold nWiData; lia). cbn [andb negb].
      eexists _, _, _, _. split; [done|]. split; [|done]. split_and!; try done; [by left|apply (g_there _ _ _ G)|apply (g_heap _ _ _ G)].
Qed.

(** The tables that an [int] can count. *)
Definition countable (h : Z) : Prop := 0 <= h < 2 ^ 19.

Lemma table_start_ok h : 0 < h -> countable h -> table_start h = Ret (start h).
Proof.
  intros Hh [_ Hc]. unfold table_start, start. rewrite (proj2 (Z.ltb_lt _ _)) by (unfold HASHTABLE_NPAGE; lia).
  rewrite (proj2 (Z.eqb_neq h 0)) by lia. f_equal. change HASHTABLE_NPAGE_ONE with 4062. unfold HASHTABLE_NPAGE.
  rewrite u64_id by lia. rewrite u32_id by lia. lia.
Qed.

Lemma hash_get w m h : conn w -> countable h -> gettable w m h ->
  exists rc q w' m', walHashGet w m h = Ret (rc, q, w', m') /\ same w w' /\ conn w' /\ grown m m' h /\
    (forall k, k <> h -> mapped w' k -> mapped w k) /\ (mapped w' h -> is_Some (blocks m' !! h)) /\
    (exclusiveMode w = WAL_HEAPMEMORY_MODE -> is_Some (blocks m' !! h) -> mapped w' h) /\
    (rc = SQLITE_OK -> q = Some (loc_of h) /\ is_Some (blocks m' !! h) /\ mapped w' h).
Proof.
  intros Hc Hh G. destruct (index_page w m h Hc (proj1 Hh) G) as (rc & q & w' & m' & E & (Hs & Hc' & Hg & Hk & Hb & Hheap & Hok) & Hzero).
  unfold walHashGet. rewrite E. cbn [mbind outcome_bind].
  rewrite assert_true.
  2: { destruct (Z.eqb_spec rc SQLITE_OK); [done|]. destruct Hh. apply Z.ltb_lt. destruct (Z.eq_dec h 0); [by rewrite Hzero in *|lia]. }
  cbn [mbind outcome_bind]. destruct (decide (rc = SQLITE_OK)) as [->|Hne].
  - destruct (Hok eq_refl) as (-> & Hb' & Hmw). destruct (Z.eqb_spec h 0) as [->|Hh0].
    + eexists _, _, _, _. split_and!; eauto.
    + rewrite table_start_ok by (done || destruct Hh; lia). cbn [mbind outcome_bind].
      eexists _, _, _, _. split_and!; eauto. intros _. split; [|by split]. unfold loc_of, off. by rewrite (proj2 (Z.eqb_neq h 0)).
  - assert (h <> 0) as Hh0 by (intros ->; auto). destruct q as [p|].
    + rewrite (proj2 (Z.eqb_neq h 0)) by done. rewrite table_start_ok by (done || destruct Hh; lia). cbn [mbind outcome_bind].
      eexists _, _, _, _. split_and!; eauto. done.
    + unfold NEVER. rewrite (proj2 (Z.eqb_neq rc SQLITE_OK)) by done. cbn [negb]. rewrite assert_true by done.
      cbn [mbind outcome_bind]. eexists _, _, _, _. split_and!; eauto. done.
Qed.

Lemma frame_page f : 0 <= f <= MAX_FRAME -> walFramePage f = Ret (table_of f) /\ countable (table_of f).
Proof.
  intros Hf. unfold MAX_FRAME in Hf. assert (countable (table_of f)) as Hc.
  { unfold countable, table_of. split; [apply Z.div_pos; lia|apply Z.div_lt_upper_bound; lia]. }
  split; [|done]. unfold walFramePage. change HASHTABLE_NPAGE with 4096. change HASHTABLE_NPAGE_ONE with 4062.
  rewrite u32_id by lia. rewrite u64_id by lia. replace (f + 4096 - 4062 - 1) with (f + 33) by lia. fold (table_of f).
  rewrite i32_id by (destruct Hc; lia). unfold table_of in *.
  pose proof (Z.div_mod (f + 33) 4096). pose proof (Z.mod_pos_bound (f + 33) 4096).
  rewrite assert_true by (destruct Hc; by apply Z.leb_le).
  rewrite assert_true by (rewrite !andb_true_iff, !orb_true_iff, !Z.ltb_lt, !Z.leb_le, !Z.eqb_eq; lia). done.
Qed.

Lemma hash_get_mapped w m h : conn w -> mapped w h -> countable h -> walHashGet w m h = Ret (SQLITE_OK, Some (loc_of h), w, m).
Proof.
  intros Hc Hm Hh. unfold walHashGet, walIndexPage. rewrite (proj2 (Z.ltb_ge h 0)) by (destruct Hh; lia).
  rewrite Hm. cbn [mbind outcome_bind]. rewrite assert_true by done. cbn [mbind outcome_bind].
  destruct (Z.eqb_spec h 0) as [->|Hh0]; [done|]. rewrite table_start_ok by (done || destruct Hh; lia).
  cbn [mbind outcome_bind]. unfold loc_of, off. by rewrite (proj2 (Z.eqb_neq h 0)).
Qed.

(** ** The index *)

(** The memory holds the entries [E]. *)
Record holds (m : store) (E : list (Z * Z)) : Prop := {
  h_len : len E <= MAX_FRAME;
  h_pages : forall f, 1 <= f <= len E -> 0 < pg E f < 2 ^ 32;
  h_sized : forall p b, blocks m !! p = Some b -> sized b;
  h_table : forall h, 0 <= h -> start h < len E -> exists b cnt, blocks m !! h = Some b /\ table h E b cnt
}.

Lemma holds_prefix m E F : holds m (E ++ F) -> holds m E.
Proof.
  intros [Hl Hp Hs Ht]. rewrite log_len_app in *. pose proof (log_len_nonneg F). split; [lia|..|done|].
  - intros f Hf. rewrite <- (pg_app E F) by done. apply Hp. lia.
  - intros h Hh Hst. destruct (Ht h Hh) as (b & cnt & Hb & T); [lia|]. exists b, cnt. eauto using table_prefix.
Qed.

Lemma sized_zero : sized zero_block.
Proof. split; cbn [words slots zero_block]; by rewrite length_replicate. Qed.

Lemma holds_grown m m' h E : holds m E -> grown m m' h -> holds m' E.
Proof.
  intros Hh [->|[Hn ->]]; [done|]. destruct Hh as [Hl Hp Hs Ht]. split; try done; cbn [blocks with_block].
  - intros p b Hb. apply lookup_insert_Some in Hb as [[_ <-]|[_ Hb]]; [apply sized_zero|eauto].
  - intros k Hk Hst. destruct (Ht k Hk Hst) as (b & cnt & Hb & T). exists b, cnt. split; [|done].
    rewrite lookup_insert_ne; [done|]. intros ->. congruence.
Qed.

(** Another block for a table. *)
Lemma holds_update m h b E : holds m E -> sized b -> (start h < len E -> exists cnt, table h E b cnt) -> holds (with_block m h b) E.
Proof.
  intros [Hl Hp Hs Ht] Hb Hc. split; try done; cbn [blocks with_block].
  - intros p b' Hb'. apply lookup_insert_Some in Hb' as [[_ <-]|[_ Hb']]; eauto.
  - intros k Hk Hst. destruct (decide (k = h)) as [->|Hne].
    + destruct (Hc Hst) as [cnt T]. exists b, cnt. by rewrite lookup_insert_eq.
    + rewrite lookup_insert_ne by done. eauto.
Qed.

Lemma with_block_twice m h a b : with_block (with_block m h a) h b = with_block m h b.
Proof. unfold with_block. cbn. by rewrite insert_insert_eq. Qed.

(** A connection that may write. *)
Record writer (w : Wal) (m : store) : Prop := {
  w_conn : conn w;
  w_lock : writeLock w = true;
  w_there : forall h, mapped w h -> is_Some (blocks m !! h);
  w_heap : exclusiveMode w = WAL_HEAPMEMORY_MODE -> forall h, is_Some (blocks m !! h) -> mapped w h
}.

Lemma writer_block w m h b : writer w m -> is_Some (blocks m !! h) -> writer w (with_block m h b).
Proof.
  intros [Hc Hl Ht Hp] Hb. split; try done; cbn [blocks with_block].
  - intros k Hk. destruct (decide (k = h)) as [->|]; [rewrite lookup_insert_eq|rewrite lookup_insert_ne by done]; eauto.
  - intros He k. destruct (decide (k = h)) as [->|]; [eauto|rewrite lookup_insert_ne by done; eauto].
Qed.

Lemma writer_get w m h : writer w m -> countable h ->
  exists rc q w' m', walHashGet w m h = Ret (rc, q, w', m') /\ same w w' /\ writer w' m' /\ grown m m' h /\
    (rc = SQLITE_OK -> q = Some (loc_of h) /\ is_Some (blocks m' !! h) /\ mapped w' h).
Proof.
  intros [Hc Hl Ht Hp] Hh. destruct (hash_get w m h Hc Hh) as (rc & q & w' & m' & E & Hs & Hc' & Hg & Hk & Hb & Hheap & Hok).
  { split; auto. }
  exists rc, q, w', m'. split_and!; try done. split; [done|by rewrite (s_lock _ _ Hs)|..].
  - intros k Hmk. destruct (decide (k = h)) as [->|Hne]; [auto|]. specialize (Hk k Hne Hmk). apply Ht in Hk.
    destruct Hg as [->|[_ ->]]; [done|]. cbn. by rewrite lookup_insert_ne.
  - intros He k Hsk. rewrite (s_excl _ _ Hs) in He. destruct (decide (k = h)) as [->|Hne]; [auto|].
    assert (is_Some (blocks m !! k)) as Hmk.
    { destruct Hg as [->|[_ ->]]; [done|]. cbn in Hsk. by rewrite lookup_insert_ne in Hsk. }
    by apply (s_ptr _ _ Hs), Hp.
Qed.

(** ** Removing entries *)

Lemma cleanup_ok w m h b : writer w m -> 1 <= mxFrame (hdr w) <= MAX_FRAME -> h = table_of (mxFrame (hdr w)) ->
  mapped w h -> blocks m !! h = Some b -> sized b ->
  walCleanupHash w m = Ret (w, with_block m h (cleaned h b (mxFrame (hdr w) - start h))).
Proof.
  intros [Hc Hl _ _] Hx -> Hm Hb Hs. destruct (frame_page (mxFrame (hdr w)) ltac:(lia)) as [Hf Hcount].
  pose proof (table_of_bounds (mxFrame (hdr w)) ltac:(lia)) as Hbounds. set (h := table_of (mxFrame (hdr w))) in *.
  unfold walCleanupHash. rewrite Hl. rewrite assert_true by done. cbn [mbind outcome_bind].
  rewrite (proj2 (Z.eqb_neq _ 0)) by lia. rewrite Hf. cbn [mbind outcome_bind]. rewrite Hm.
  rewrite assert_true by (apply bool_decide_eq_true_2; by eexists). cbn [mbind outcome_bind]. rewrite hash_get_mapped by done. cbn [mbind outcome_bind].
  unfold NEVER. change (SQLITE_OK =? SQLITE_OK) with true. cbn [negb]. rewrite (assert_true true) by done. cbn [mbind outcome_bind].
  pose proof (off_cap h). pose proof (cap_range h). pose proof (off_nonneg h). pose proof (start_nonneg h (proj1 Hcount)).
  unfold MAX_FRAME in Hx. cbn [iZero loc_of]. rewrite u32_id by lia. rewrite i32_id by lia.
  rewrite assert_true by (apply Z.ltb_lt; lia). cbn [mbind outcome_bind].
  unfold cleanup_table, block_of. cbn [aHash aPgno loc_of fst snd]. rewrite Hb. cbn [from_option mbind outcome_bind].
  rewrite assert_true by (apply Z.leb_le; unfold HASHTABLE_NPAGE; lia). cbn [mbind outcome_bind blocks with_block].
  rewrite lookup_insert_eq. cbn [from_option mbind outcome_bind words slots].
  rewrite (proj2 (Z.ltb_ge _ 0)) by (unfold HASHTABLE_NPAGE; lia).
  unfold cleaned, with_block. cbn [blocks header]. by rewrite insert_insert_eq.
Qed.

(** After it nothing is left behind the frames that count. *)
Definition next_free (m : store) (E : list (Z * Z)) : Prop :=
  let h := table_of (len E + 1) in
  len E = start h \/ exists b, blocks m !! h = Some b /\ place h b (len E + 1 - start h) = 0.

Lemma cleanup_spec w m E : writer w m -> holds m E -> mxFrame (hdr w) = len E ->
  (len E = 0 \/ mapped w (table_of (len E))) ->
  exists m', walCleanupHash w m = Ret (w, m') /\ writer w m' /\ holds m' E /\ next_free m' E /\
    (forall k, k <> table_of (len E) -> blocks m' !! k = blocks m !! k) /\ header m' = header m.
Proof.
  intros Hw Hh Hx Hm. pose proof (h_len _ _ Hh). pose proof (log_len_nonneg E). destruct (Z.eq_dec (len E) 0) as [E0|E0].
  { exists m. unfold walCleanupHash. rewrite (w_lock _ _ Hw), Hx, E0. rewrite assert_true by done. split_and!; try done.
    left. by rewrite E0. }
  destruct Hm as [?|Hm]; [done|]. set (h := table_of (len E)) in *. assert (0 <= h) as Hh0 by (apply table_of_nonneg; lia).
  pose proof (table_of_bounds (len E) ltac:(lia)) as Hb. fold h in Hb.
  destruct (h_table _ _ Hh h Hh0) as (b & cnt & Hblk & T); [lia|]. pose proof (t_sized _ _ _ _ T) as Hs.
  assert (table h E (cleaned h b (len E - start h)) (len E - start h)) as T' by (eapply table_clean; eauto; lia).
  exists (with_block m h (cleaned h b (len E - start h))). split_and!.
  - rewrite (cleanup_ok w m h b), Hx by (done || lia || by rewrite Hx). done.
  - apply writer_block; eauto.
  - apply holds_update; eauto. apply (t_sized _ _ _ _ T').
  - destruct (Z.eq_dec (len E) (start h + cap h)) as [Ee|Ee].
    + left. rewrite Ee, <- start_next by done. by rewrite table_of_start by lia.
    + right. assert (table_of (len E + 1) = h) as -> by (apply table_of_spec; lia).
      exists (cleaned h b (len E - start h)). split; [cbn; by rewrite lookup_insert_eq|].
      apply (t_free _ _ _ _ T'). lia.
  - intros k Hk. cbn. by rewrite lookup_insert_ne.
  - done.
Qed.

(** ** Entering a frame *)

Lemma with_block_id m h b : blocks m !! h = Some b -> with_block m h b = m.
Proof. intros Hb. unfold with_block. rewrite insert_id by done. by destruct m. Qed.

(** Either the entries of the connection reach up to the next frame, or there is no debris. *)
Definition ready (w : Wal) (m : store) (E : list (Z * Z)) : Prop := mxFrame (hdr w) = len E \/ next_free m E.

Lemma next_free_grown m m' h E : next_free m E -> grown m m' h -> next_free m' E.
Proof.
  intros [?|(b & Hb & Hp)] Hg; [by left|right]. exists b. split; [|done]. destruct Hg as [->|[Hn ->]]; [done|].
  cbn. rewrite lookup_insert_ne; [done|]. intros ->. congruence.
Qed.

Section Append.
Variable (w : Wal) (m : store) (E : list (Z * Z)) (b : block).
Let h := table_of (len E + 1).
Let idx := len E + 1 - start h.
Hypothesis (Hw : writer w m) (Hm : mapped w h) (Hh : holds m E) (Hr : ready w m E) (Hl : len E < MAX_FRAME).
Hypothesis (Hb : blocks m !! h = Some b).

Local Lemma append_bounds : 0 <= h /\ 1 <= idx <= cap h.
Proof.
  pose proof (log_len_nonneg E). assert (0 <= h) by (apply table_of_nonneg; lia). split; [done|].
  pose proof (table_of_bounds (len E + 1) ltac:(lia)) as Hbd. fold h in Hbd. subst idx. lia.
Qed.

(** The first frame of a table finds it full of zeros. *)
Local Lemma append_zero : exists b2 cnt, (if idx =? 1 then zero_table m (loc_of h) else Ret m) = Ret (with_block m h b2) /\
  table h E b2 cnt /\ (idx = 1 -> cnt = 0) /\ (idx <> 1 -> b2 = b).
Proof.
  destruct append_bounds as [Hh0 Hidx]. pose proof (h_sized _ _ Hh _ _ Hb) as Hs. pose proof (off_cap h). pose proof (off_nonneg h).
  destruct (Z.eqb_spec idx 1) as [E1|E1].
  - exists {| words := zero_from (words b) (off h); slots := zero_from (slots b) 0 |}, 0. split_and!; try done.
    + unfold zero_table, block_of. cbn [aPgno loc_of fst snd]. by rewrite Hb.
    + destruct Hs as [Hsw Hss]. apply table_empty; [done|subst idx; lia|split; cbn [words slots]; by rewrite length_zero_from|..].
      * intros j Hj. unfold place. cbn [words]. rewrite at_zero_from by lia. by rewrite (proj2 (Z.ltb_ge _ _)) by lia.
      * intros k Hk. unfold slot. cbn [slots]. rewrite at_zero_from by lia. by rewrite (proj2 (Z.ltb_ge _ _)) by lia.
  - destruct (h_table _ _ Hh h Hh0) as (b' & cnt & Hb' & T); [subst idx; lia|]. assert (b' = b) as -> by congruence.
    exists b, cnt. rewrite with_block_id by done. split_and!; (done || lia).
Qed.

(** What is left of a writer that went away is removed. *)
Local Lemma append_prepare : exists m2 x b3,
  (if idx =? 1 then zero_table m (loc_of h) else Ret m) = Ret m2 /\
  load_pgno m2 (loc_of h) (idx - 1) = Ret x /\
  (if x =? 0 then Ret (w, m2)
   else '(w, m) ← walCleanupHash w m2; x ← load_pgno m (loc_of h) (idx - 1); _ ← assert_ (x =? 0); Ret (w, m))
  = Ret (w, with_block m h b3) /\ table h E b3 (idx - 1).
Proof.
  destruct append_bounds as [Hh0 Hidx]. destruct append_zero as (b2 & cnt & EA & T & Hi1 & Hn1).
  pose proof (t_sized _ _ _ _ T) as Hs2. pose proof (t_cnt _ _ _ _ T) as Hcnt.
  assert (idx - 1 <= cnt) as Hge.
  { destruct (Z.eq_dec idx 1); [lia|]. apply (t_cover _ _ _ _ T); subst idx; lia. }
  exists (with_block m h b2), (place h b2 idx). rewrite EA, (load_pgno_ok _ _ b2) by (done || (cbn; by rewrite lookup_insert_eq)).
  destruct (Z.eqb_spec (place h b2 idx) 0) as [Ex|Ex].
  - exists b2. split_and!; try done. replace (idx - 1) with cnt; [done|].
    destruct (Z_le_gt_dec idx cnt) as [Hle|]; [|lia]. exfalso. by apply (t_used _ _ _ _ T idx ltac:(lia)).
  - assert (idx <> 1) as Hi.
    { intros Hi. apply Ex. apply (t_free _ _ _ _ T). rewrite (Hi1 Hi). lia. }
    rewrite (Hn1 Hi) in *. rewrite with_block_id by done. clear b2 Hn1 EA Hs2.
    assert (mxFrame (hdr w) = len E) as Hx.
    { destruct Hr as [?|[Hst|(b' & Hb' & Hp)]]; [done|exfalso; apply Hi; subst idx h; lia|].
      exfalso. apply Ex. fold h in Hb'. rewrite Hb in Hb'. by injection Hb' as <-. }
    assert (start h < len E <= start h + cap h) as Hlh by (subst idx; lia). pose proof (start_nonneg h Hh0).
    assert (table_of (len E) = h) as Ht by (apply table_of_spec; lia).
    exists (cleaned h b (idx - 1)). rewrite (cleanup_ok w m h b); rewrite ?Hx; try done; [|lia|exact (t_sized _ _ _ _ T)].
    replace (len E - start h) with (idx - 1) by (subst idx; lia).
    assert (table h E (cleaned h b (idx - 1)) (idx - 1)) as T' by (eapply table_clean; eauto; subst idx; lia).
    cbn [mbind outcome_bind]. rewrite (load_pgno_ok _ _ (cleaned h b (idx - 1))) by
      (done || apply (t_sized _ _ _ _ T') || (cbn; by rewrite lookup_insert_eq)).
    cbn [mbind outcome_bind]. rewrite (t_free _ _ _ _ T') by lia. rewrite assert_true by done. done.
Qed.

(** The other tables of the index do not see the new entry. *)
Local Lemma append_holds b' p D : 0 < p < 2 ^ 32 -> table h (E ++ [(p, D)]) b' idx ->
  holds (with_block m h b') (E ++ [(p, D)]) /\ next_free (with_block m h b') (E ++ [(p, D)]).
Proof.
  intros Hp T. destruct append_bounds as [Hh0 Hidx]. pose proof (log_len_nonneg E). pose proof (start_nonneg h Hh0).
  assert (len (E ++ [(p, D)]) = len E + 1) as Hlen by (rewrite log_len_app; done). split.
  - split; rewrite ?Hlen; [lia|..]; cbn [blocks with_block].
    + intros f Hf. destruct (Z.eq_dec f (len E + 1)) as [->|]; [by rewrite pg_last|].
      rewrite pg_app by lia. apply (h_pages _ _ Hh). lia.
    + intros k c Hc. apply lookup_insert_Some in Hc as [[_ <-]|[_ Hc]]; [apply (t_sized _ _ _ _ T)|].
      by apply (h_sized _ _ Hh k).
    + intros k Hk Hst. destruct (decide (k = h)) as [->|Hne]; [exists b', idx; by rewrite lookup_insert_eq|].
      rewrite lookup_insert_ne by done.
      assert (start k + cap k <= len E) as Hfull.
      { destruct (Z_lt_le_dec k h) as [|Hge]; [pose proof (start_mono k h); subst idx; lia|].
        pose proof (start_mono h k ltac:(lia)). subst idx. lia. }
      pose proof (cap_range k). destruct (h_table _ _ Hh k Hk) as (c & cnt & Hc & Tc); [lia|].
      exists c, cnt. split; [done|]. by apply table_extend.
  - unfold next_free. rewrite Hlen. destruct (Z.eq_dec (len E + 1) (start h + cap h)) as [Ee|Ee].
    + left. rewrite Ee, <- start_next by done. by rewrite table_of_start by lia.
    + right. assert (table_of (len E + 1 + 1) = h) as -> by (apply table_of_spec; subst idx; lia).
      exists b'. split; [cbn; by rewrite lookup_insert_eq|]. apply (t_free _ _ _ _ T). subst idx. lia.
Qed.

End Append.

(** A frame is entered, or the page of the index cannot be mapped; there is always an empty slot. *)
Lemma append_spec w m E p : writer w m -> holds m E -> ready w m E -> 0 < p < 2 ^ 32 -> len E < MAX_FRAME ->
  exists rc w' m', walIndexAppend w m (len E + 1) p = Ret (rc, w', m') /\ same w w' /\ writer w' m' /\ header m' = header m /\
    (mapped w (table_of (len E + 1)) -> rc = SQLITE_OK) /\
    (rc <> SQLITE_OK /\ holds m' E /\ ready w' m' E \/
     rc = SQLITE_OK /\ mapped w' (table_of (len E + 1)) /\ exists d, holds m' (E ++ [(p, d)]) /\ next_free m' (E ++ [(p, d)])).
Proof.
  intros Hw Hh Hr Hp Hl. pose proof (log_len_nonneg E). set (h := table_of (len E + 1)). set (idx := len E + 1 - start h).
  destruct (frame_page (len E + 1) ltac:(lia)) as [Hf Hc].
  destruct (writer_get w m h Hw Hc) as (rc & q & w' & m' & Eg & Hs & Hw' & Hg & Hok).
  assert (holds m' E) as Hh' by eauto using holds_grown. assert (header m' = header m) as Hhd by (by destruct Hg as [->|[_ ->]]).
  assert (ready w' m' E) as Hr'.
  { destruct Hr as [Hr|Hr]; [left; by rewrite (s_hdr _ _ Hs)|right; eauto using next_free_grown]. }
  unfold walIndexAppend. rewrite Hf. cbn [mbind outcome_bind]. fold h. rewrite Eg. cbn [mbind outcome_bind].
  destruct (decide (rc = SQLITE_OK)) as [->|Hne].
  2: { rewrite (proj2 (Z.eqb_neq rc SQLITE_OK)) by done. exists rc, w', m'. split_and!; try done; [|left; by split_and!].
       intros Hmap. rewrite (hash_get_mapped w m h (w_conn _ _ Hw) Hmap Hc) in Eg. congruence. }
  destruct (Hok eq_refl) as (-> & [b Hb] & Hm). change (negb (SQLITE_OK =? SQLITE_OK)) with false. cbn [iZero loc_of].
  destruct (append_bounds E) as [Hh0 Hidx]. fold h idx in Hh0, Hidx. pose proof (cap_range h). unfold MAX_FRAME in Hl.
  pose proof (start_nonneg h Hh0).
  rewrite u32_id by (subst idx; lia). rewrite i32_id by (subst idx; lia). fold idx.
  change (HASHTABLE_NSLOT / 2 + 1) with 4097. rewrite (assert_true (idx <=? _)) by (apply Z.leb_le; lia). cbn [mbind outcome_bind].
  destruct (append_prepare w' m' E b Hw' Hm Hh' Hr' Hl Hb) as (m2 & x & b3 & E1 & E2 & E3 & T). fold h idx in E1, E2, E3, T.
  rewrite E1. cbn [mbind outcome_bind]. rewrite E2. cbn [mbind outcome_bind]. rewrite E3. cbn [mbind outcome_bind].
  rewrite (assert_true (0 <? p)) by (apply Z.ltb_lt; lia). cbn [mbind outcome_bind].
  assert (blocks (with_block m' h b3) !! h = Some b3) as Hb3 by (cbn; by rewrite lookup_insert_eq).
  destruct (probe_finds _ h E b3 (idx - 1) p idx Hb3 T ltac:(lia)) as (D & EF & HD & Hz & Hn).
  rewrite EF. cbn [mbind outcome_bind]. pose proof (t_sized _ _ _ _ T) as [Hsw Hss]. pose proof (place_index h idx Hidx).
  unfold store_pgno, store_slot, block_of. cbn [aPgno aHash loc_of fst snd]. rewrite Hb3. cbn [from_option mbind outcome_bind].
  replace (off h + (idx - 1)) with (off h + idx - 1) by lia. rewrite put_at_ok by lia.
  cbn [mbind outcome_bind blocks with_block]. rewrite lookup_insert_eq. cbn [from_option mbind outcome_bind words slots].
  pose proof (walk_range p D). rewrite put_at_ok by lia. cbn [mbind outcome_bind].
  unfold u16. rewrite Z.mod_small by lia. rewrite !with_block_twice.
  pose proof (table_enter h E b3 (idx - 1) p D Hh0 T ltac:(subst idx; lia) ltac:(lia) ltac:(lia) HD Hz Hn) as T'.
  replace (idx - 1 + 1) with idx in T' by lia. destruct (append_holds m' E Hh' Hl _ p D Hp T') as [Ho Hnf].
  eexists _, w', _. split; [reflexivity|]. split_and!; try done; [apply writer_block; eauto|].
  right. split_and!; try done. exists D. by split.
Qed.

End Ops.
