(* ===== verification/WalFind.v ===== *)
(** * The search for the last frame of a page

    [walFindFrame] of Wal.v answers what a scan of the log from its end would
    answer, also while other connections work on the index: what they may do is
    any change that leaves the frames of the reader's snapshot in place. *)

From S2P Require Import Prelude Words Bitvec Wal WalIndex.

(** ** The scan *)

(** The page of frame [f] of a log, from 1. *)
Definition page_of (L : list Z) (f : Z) : Z := nth (Z.to_nat (f - 1)) L 0.

(** The greatest frame up to [n], from [lo] on, that holds page [p], or 0. *)
Fixpoint latest_upto (L : list Z) (lo p : Z) (n : nat) : Z :=
  match n with
  | O => 0
  | S n' => if (lo <=? Z.of_nat n) && (page_of L (Z.of_nat n) =? p) then Z.of_nat n else latest_upto L lo p n'
  end.
Definition latest (L : list Z) (lo p : Z) : Z := latest_upto L lo p (length L).

Lemma pg_page_of E f : pg E f = page_of E.*1 f.
Proof. unfold pg, page_of. change 0 with ((0, 0) : Z * Z).1 at 3. by rewrite map_nth. Qed.

Definition holds_page (E : list (Z * Z)) (lo p f : Z) : Prop := 1 <= f <= len E /\ lo <= f /\ pg E f = p.

Lemma latest_upto_unique L lo p (n : nat) R :
  (R = 0 /\ forall f, 1 <= f <= Z.of_nat n -> lo <= f -> page_of L f <> p) \/
  (1 <= R <= Z.of_nat n /\ lo <= R /\ page_of L R = p /\ forall f, R < f <= Z.of_nat n -> page_of L f <> p) ->
  latest_upto L lo p n = R.
Proof.
  induction n as [|n IH]; cbn [latest_upto].
  - intros [[-> _]|(? & _)]; lia.
  - intros HR. destruct (_ && _) eqn:E1.
    + zify_bool. destruct HR as [[-> Hn]|(H1 & H2 & H3 & H4)].
      * exfalso. apply (Hn (Z.of_nat (S n))); (done || lia).
      * destruct (Z.eq_dec R (Z.of_nat (S n))) as [->|]; [done|]. exfalso. apply (H4 (Z.of_nat (S n))); (done || lia).
    + apply IH. destruct HR as [[-> Hn]|(H1 & H2 & H3 & H4)].
      * left. split; [done|]. intros. apply Hn; lia.
      * right. assert (R <> Z.of_nat (S n)) as Hne.
        { intros ->. apply andb_false_iff in E1 as [E1|E1]; zify_bool; lia. }
        split_and!; try done; try lia. intros. apply H4. lia.
Qed.

Lemma latest_unique E lo p R :
  (R = 0 /\ forall f, ~ holds_page E lo p f) \/ (holds_page E lo p R /\ forall f, holds_page E lo p f -> f <= R) ->
  latest E.*1 lo p = R.
Proof.
  intros HR. apply latest_upto_unique. rewrite length_fmap. fold (len E). destruct HR as [[-> Hn]|[(H1 & H2 & H3) Hm]]; [left|right].
  - split; [done|]. intros f Hf Hlo Hp. rewrite <- pg_page_of in Hp. by apply (Hn f).
  - rewrite <- pg_page_of. split_and!; try done; try lia. intros f Hf Hp. rewrite <- pg_page_of in Hp. enough (f <= R) by lia.
    apply Hm. split_and!; (done || lia).
Qed.

(** ** One table *)

Section Table.
Context {BD : Build} (CORRUPT_DB : bool) (env : nat -> store -> store).
Variable (E : list (Z * Z)) (lo p h : Z) (Q : store -> Prop).
Hypothesis Hh : 0 <= h.
Hypothesis Hmax : len E <= MAX_FRAME.
Hypothesis Hlast : start h < len E.
Hypothesis Henv : forall n m, Q m -> Q (env n m).
Hypothesis HQ : forall m, Q m -> exists b cnt, blocks m !! h = Some b /\ table h E b cnt.

Definition in_table (f : Z) : Prop := holds_page E lo p f /\ start h < f <= start h + cap h.

Local Lemma order b cnt f g : table h E b cnt -> in_table f -> in_table g -> f < g -> dist E f < dist E g.
Proof using Hh.
  intros T [(Hf & _ & Pf) Hsf] [(Hg & _ & Pg) Hsg] Hlt.
  replace f with (start h + (f - start h)) in * by lia. replace g with (start h + (g - start h)) in * by lia.
  set (i := f - start h) in *. set (j := g - start h) in *.
  pose proof (t_here _ _ _ _ T i ltac:(lia) ltac:(lia)) as Hi. pose proof (t_here _ _ _ _ T j ltac:(lia) ltac:(lia)) as Hj.
  rewrite Pf in Hi. rewrite Pg in Hj.
  destruct (Z.lt_trichotomy (dist E (start h + i)) (dist E (start h + j))) as [|[Eq|Hgt]]; [done|rewrite Eq in Hi; lia|].
  pose proof (t_path _ _ _ _ T i (dist E (start h + j)) ltac:(lia) ltac:(lia)) as Hp. rewrite Pf in Hp.
  pose proof (t_dist _ _ _ _ T j ltac:(lia) ltac:(lia)). lia.
Qed.

(** What has been seen up to distance [d]. *)
Definition seen (d R : Z) : Prop :=
  (R = 0 \/ in_table R /\ dist E R < d) /\ forall f, in_table f -> dist E f < d -> f <= R.
Definition best (R : Z) : Prop := (R = 0 /\ forall f, ~ in_table f) \/ (in_table R /\ forall f, in_table f -> f <= R).

Local Lemma seen_all b cnt d R : table h E b cnt -> 0 <= d -> slot b (walk p d) = 0 \/ 8192 <= d -> seen d R -> best R.
Proof using Hh.
  intros T Hd Hz [HR Hs].
  assert (forall f, in_table f -> dist E f < d) as Hall.
  { intros f [(Hf & _ & Pf) Hsf]. replace f with (start h + (f - start h)) in * by lia. set (i := f - start h) in *.
    pose proof (t_dist _ _ _ _ T i ltac:(lia) ltac:(lia)) as Hdi. destruct Hz as [Hz|]; [|lia].
    destruct (Z_lt_le_dec (dist E (start h + i)) d) as [|Hge]; [done|].
    destruct (Z.eq_dec (dist E (start h + i)) d) as [Eq|Hne].
    - pose proof (t_here _ _ _ _ T i ltac:(lia) ltac:(lia)) as Hi. rewrite Pf, Eq in Hi. lia.
    - pose proof (t_path _ _ _ _ T i d ltac:(lia) ltac:(lia) ltac:(lia)) as Hi. rewrite Pf in Hi. lia. }
  destruct HR as [->|[HR _]]; [left|right]; split; eauto.
  intros f Hf. pose proof (Hs f Hf (Hall f Hf)). destruct Hf as [_ ?]. pose proof (start_nonneg h Hh). lia.
Qed.

(** A slot that is in use is at a frame of the table, or behind the snapshot. *)
Local Lemma seen_step b cnt d R : table h E b cnt -> 0 <= d < 8192 -> slot b (walk p d) <> 0 -> seen d R ->
  let f := start h + slot b (walk p d) in
  (f <= len E -> lo <= f -> pg E f = p -> R < f /\ seen (d + 1) f) /\
  ((f <= len E -> lo <= f -> pg E f <> p) -> seen (d + 1) R).
Proof using Hh.
  intros T Hd Hnz [HR Hs] f. pose proof (t_range _ _ _ _ T _ (walk_range p d)) as Hr. pose proof (t_cnt _ _ _ _ T) as Hc.
  pose proof (start_nonneg h Hh).
  assert (forall g, in_table g -> dist E g = d -> g = f) as Hat.
  { intros g [(Hg & _ & Pg) Hsg] Hdg. replace g with (start h + (g - start h)) in * by lia. set (j := g - start h) in *.
    pose proof (t_here _ _ _ _ T j ltac:(lia) ltac:(lia)) as Hj. rewrite Pg, Hdg in Hj. subst f. lia. }
  split.
  - intros Hf Hlo Hp. assert (in_table f) as Hin by (unfold in_table, holds_page; subst f; split_and!; (done || lia)).
    assert (dist E f = d) as Hdf.
    { pose proof (t_dist _ _ _ _ T (slot b (walk p d)) ltac:(lia) Hf). apply (walk_inj p); [done|done|].
      symmetry. rewrite <- Hp at 2. apply (slot_unique h E b cnt); try done; [lia|apply walk_range]. }
    assert (R < f) as Hlt.
    { destruct HR as [->|[HR HdR]]; [subst f; lia|]. destruct (Z.lt_trichotomy R f) as [|[->|Hgt]]; [done|lia|].
      pose proof (order b cnt f R T Hin HR Hgt). lia. }
    split; [done|]. split; [right; split; [done|lia]|]. intros g Hg Hdg. destruct (Z.eq_dec (dist E g) d) as [Eq|].
    + rewrite (Hat g Hg Eq). lia.
    + enough (g <= R) by lia. apply Hs; [done|lia].
  - intros Hno. split; [destruct HR as [?|[? ?]]; [by left|right; split; [done|lia]]|].
    intros g Hg Hdg. apply Hs; [done|]. destruct (Z.eq_dec (dist E g) d) as [Eq|]; [|lia]. exfalso.
    pose proof (Hat g Hg Eq) as ->. destruct Hg as [(? & ? & ?) ?]. apply Hno; (done || lia).
Qed.

Local Lemma frame_ok v : 0 <= v <= cap h -> u32 (v + iZero (loc_of h)) = start h + v.
Proof using Hh Hlast Hmax.
  intros Hv. pose proof (cap_range h). pose proof (start_nonneg h Hh). unfold MAX_FRAME in Hmax. cbn [iZero loc_of]. rewrite u32_id; lia.
Qed.

Let find (c : nat) (m : store) (n : nat) (d R : Z) : outcome (Z * Z * store * nat) :=
  find_in_table CORRUPT_DB env (loc_of h) (len E) lo p c m n (walk p d) R.
Let after (c : nat) (m : store) (n : nat) (d R : Z) : outcome (Z * Z * store * nat) :=
  match c with O => Ret (SQLITE_CORRUPT, 0, m, n) | S c => find c m n d R end.

(** The body of the loop, with the reads carried out. *)
Local Lemma find_body c m n d R b cnt : 0 <= d -> blocks (env n m) !! h = Some b -> table h E b cnt ->
  let v := slot b (walk p d) in
  find c m n d R =
    if v =? 0 then Ret (SQLITE_OK, R, env n m, S n) else
    '(iRead, m, n) ←
      (if (start h + v <=? len E) && (lo <=? start h + v) then
         let m := env (S n) (env n m) in
         x ← load_pgno m (loc_of h) (v - 1);
         if x =? p then _ ← assert_ ((R <? start h + v) || CORRUPT_DB); Ret (start h + v, m, S n)
         else Ret (R, m, S n)
       else Ret (R, env n m, n));
    after c m (S n) (d + 1) iRead.
Proof using Hh Hlast Hmax.
  intros Hd Hb T v. pose proof (t_range _ _ _ _ T _ (walk_range p d)) as Hr. pose proof (t_cnt _ _ _ _ T) as Hc.
  unfold after, find. rewrite <- walk_next.
  destruct c; cbn [find_in_table]; rewrite (load_slot_ok _ _ b) by (done || apply (t_sized _ _ _ _ T) || apply walk_range);
    cbn [mbind outcome_bind]; fold v; by rewrite frame_ok by (subst v; lia).
Qed.

(** One turn of the loop. *)
Local Lemma find_turn c m n d R : Q m -> 0 <= d < 8192 -> seen d R ->
  exists b cnt, blocks (env n m) !! h = Some b /\ table h E b cnt /\ Q (env n m) /\
    (slot b (walk p d) = 0 -> find c m n d R = Ret (SQLITE_OK, R, env n m, S n)) /\
    (slot b (walk p d) <> 0 -> exists m' n' R', Q m' /\ seen (d + 1) R' /\ find c m n d R = after c m' n' (d + 1) R').
Proof using Henv HQ Hh Hlast Hmax.
  intros HQm Hd Hseen. pose proof (Henv n m HQm) as HQ1. destruct (HQ _ HQ1) as (b & cnt & Hb & T).
  exists b, cnt. split_and!; try done.
  - intros Hz. rewrite (find_body c m n d R b cnt) by (done || lia). by rewrite Hz.
  - intros Hnz. pose proof (find_body c m n d R b cnt ltac:(lia) Hb T) as Hbody. cbv zeta in Hbody.
    rewrite (proj2 (Z.eqb_neq _ 0) Hnz) in Hbody.
    pose proof (t_range _ _ _ _ T _ (walk_range p d)) as Hr. pose proof (t_cnt _ _ _ _ T) as Hc.
    destruct (seen_step b cnt d R T Hd Hnz Hseen) as [Hhit Hmiss]. set (v := slot b (walk p d)) in *.
    destruct (_ && _) eqn:Ec.
    + zify_bool. pose proof (Henv (S n) _ HQ1) as HQ2. destruct (HQ _ HQ2) as (b2 & cnt2 & Hb2 & T2).
      rewrite (load_pgno_ok _ _ b2) in Hbody by (done || apply (t_sized _ _ _ _ T2) || lia). cbn [mbind outcome_bind] in Hbody.
      rewrite (t_page _ _ _ _ T2) in Hbody by lia. destruct (Z.eqb_spec (pg E (start h + v)) p) as [Ep|Ep].
      * destruct (Hhit ltac:(lia) ltac:(lia) Ep) as [Hlt Hs']. rewrite (proj2 (Z.ltb_lt _ _) Hlt) in Hbody.
        rewrite assert_true in Hbody by done. cbn [mbind outcome_bind] in Hbody. by eexists _, _, _.
      * cbn [mbind outcome_bind] in Hbody. eexists _, _, _. split_and!; [exact HQ2|apply Hmiss; by intros|exact Hbody].
    + cbn [mbind outcome_bind] in Hbody. eexists _, _, _. split_and!; [exact HQ1| |exact Hbody].
      apply Hmiss. intros H1 H2. apply andb_false_iff in Ec as [Ec|Ec]; zify_bool; lia.
Qed.

(** Whatever the others do, an answer is right. *)
Lemma find_safe c : forall m n d R, Q m -> seen d R -> 0 <= d -> d + Z.of_nat c = 8192 ->
  forall iRead m' n', find c m n d R = Ret (SQLITE_OK, iRead, m', n') -> best iRead /\ Q m'.
Proof using Henv HQ Hh Hlast Hmax.
  induction c as [|c IH]; intros m n d R HQm Hs Hd Hc iRead m' n' Hf.
  - pose proof (Henv n m HQm) as HQ1. destruct (HQ _ HQ1) as (b & cnt & Hb & T).
    rewrite (find_body 0 m n d R b cnt Hd Hb T) in Hf. destruct (_ =? 0).
    + injection Hf as <- <- <-. split; [|done]. apply (seen_all b cnt d); (done || (right; lia)).
    + exfalso. apply bind_Ret_inv in Hf as ([[? ?] ?] & _ & Hf). cbn in Hf. discriminate.
  - destruct (find_turn (S c) m n d R HQm ltac:(lia) Hs) as (b & cnt & Hb & T & HQ1 & Hz & Hnz).
    destruct (Z.eq_dec (slot b (walk p d)) 0) as [E0|E0].
    + rewrite (Hz E0) in Hf. injection Hf as <- <- <-. split; [|done]. apply (seen_all b cnt d); auto.
    + destruct (Hnz E0) as (m1 & n1 & R1 & HQ2 & Hs1 & Heq). rewrite Heq in Hf. cbn [after] in Hf.
      eapply IH; eauto; lia.
Qed.

(** A slot that stays empty ends the search. *)
Lemma find_returns D : 0 <= D < 8192 -> (forall m b, Q m -> blocks m !! h = Some b -> slot b (walk p D) = 0) ->
  forall c m n d R, Q m -> seen d R -> 0 <= d <= D -> D - d <= Z.of_nat c ->
  exists iRead m' n', find c m n d R = Ret (SQLITE_OK, iRead, m', n').
Proof using Henv HQ Hh Hlast Hmax.
  intros HD Hhole c. induction c as [|c IH]; intros m n d R HQm Hs Hd Hc;
    (match goal with |- exists _ _ _, find ?c _ _ _ _ = _ =>
       destruct (find_turn c m n d R HQm ltac:(lia) Hs) as (b & cnt & Hb & T & HQ1 & Hz & Hnz) end);
    (destruct (Z.eq_dec (slot b (walk p d)) 0) as [E0|E0]; [rewrite (Hz E0); eauto|]).
  - exfalso. apply E0. replace d with D by lia. eauto.
  - destruct (Hnz E0) as (m1 & n1 & R1 & HQ2 & Hs1 & ->). cbn [after].
    destruct (Z.eq_dec d D) as [->|]; [exfalso; eauto|]. apply IH; (done || lia).
Qed.

Lemma seen_0 m : Q m -> seen 0 0.
Proof using HQ.
  intros HQm. destruct (HQ m HQm) as (b & cnt & _ & T). split; [by left|]. intros f [(Hf & _) Hsf] Hd. exfalso.
  pose proof (t_dist _ _ _ _ T (f - start h) ltac:(lia) ltac:(lia)) as Hdist.
  replace (start h + (f - start h)) with f in Hdist by lia. lia.
Qed.

End Table.

(** ** All tables *)

Section Search.
Context {BD : Build} {SHM : Shm} {SOK : ShmOk} (CORRUPT_DB : bool) (env : nat -> store -> store).
Variable (E : list (Z * Z)) (p : Z) (Q : store -> Prop).
Hypothesis Hp : 0 < p < 2 ^ 32.
(** The other connections keep [Q], and where it holds the frames of the snapshot are in place. *)
Hypothesis Henv : forall n m, Q m -> Q (env n m).
Hypothesis HQ : forall m, Q m -> holds m E.

(** The reader of the snapshot [E]. *)
Record reader (w : Wal) : Prop := {
  r_conn : conn w;
  r_snapshot : mxFrame (hdr w) = len E;
  r_lock : 0 <= readLock w;
  r_min : 0 <= minFrame w <= MAX_FRAME;
  r_heap : exclusiveMode w = WAL_HEAPMEMORY_MODE -> forall h, 0 <= h -> start h < len E -> mapped w h
}.

(** In every table some slot on the way of the page stays empty. *)
Definition calm : Prop :=
  forall h, 0 <= h -> start h < len E ->
    exists D, 0 <= D < 8192 /\ forall m b, Q m -> blocks m !! h = Some b -> slot b (walk p D) = 0.

Lemma reader_same w w' : reader w -> same w w' -> conn w' -> reader w'.
Proof.
  intros [Hc Hs Hl Hm Hh] S' Hc'. pose proof (s_excl _ _ S'). split; [done|..].
  - by rewrite (s_hdr _ _ S').
  - by rewrite (s_read _ _ S').
  - by rewrite (s_min _ _ S').
  - intros He h Hh0 Hst. apply (s_ptr _ _ S'), Hh; congruence.
Qed.

Lemma reader_get w m h : Q m -> reader w -> 0 <= h -> start h < len E ->
  exists rc q w', walHashGet w m h = Ret (rc, q, w', m) /\ reader w' /\ same w w' /\ (rc = SQLITE_OK -> q = Some (loc_of h)).
Proof using HQ SOK.
  intros HQm Hr Hh Hst. destruct (h_table _ _ (HQ _ HQm) h Hh Hst) as (b & cnt & Hb & T).
  assert (countable h) as Hcount.
  { split; [done|]. pose proof (h_len _ _ (HQ _ HQm)) as Hl. unfold MAX_FRAME in Hl. unfold start in Hst. destruct (Z.eqb_spec h 0); lia. }
  destruct (hash_get w m h (r_conn _ Hr) Hcount) as (rc & q & w' & m' & Eg & Hs & Hc & Hg & _ & _ & _ & Hok).
  { split; [by eexists|intros; by apply (r_heap _ Hr)|left; by eexists]. }
  exists rc, q, w'. assert (m' = m) as -> by (destruct Hg as [->|[? _]]; congruence).
  split_and!; eauto using reader_same. by intros [-> _]%Hok.
Qed.

(** The search of one table answers for all frames from that table on. *)
Lemma table_answer lo m n h c : Q m -> 0 <= h -> start h < len E -> Z.of_nat c = 8192 ->
  (forall f, holds_page E lo p f -> f <= start (h + 1)) ->
  forall res, res = find_in_table CORRUPT_DB env (loc_of h) (len E) lo p c m n (walHash p) 0 ->
  (forall R m1 n1, res = Ret (SQLITE_OK, R, m1, n1) -> R <> 0 -> latest E.*1 lo p = R) /\
  (forall m1 n1, res = Ret (SQLITE_OK, 0, m1, n1) -> Q m1 /\ forall f, holds_page E lo p f -> f <= start h) /\
  (calm -> exists R m1 n1, res = Ret (SQLITE_OK, R, m1, n1)).
Proof using Henv HQ.
  intros HQm Hh Hst Hc Habove res Eres0. pose proof (h_len _ _ (HQ _ HQm)) as Hmax. rewrite start_next in Habove by lia.
  assert (forall m0, Q m0 -> exists b cnt, blocks m0 !! h = Some b /\ table h E b cnt) as HQt.
  { intros m0 Hm0. apply (h_table _ _ (HQ _ Hm0)); (done || lia). }
  assert (res = find_in_table CORRUPT_DB env (loc_of h) (len E) lo p c m n (walk p 0) 0) as Hres by (by rewrite walk_0, Eres0).
  pose proof (find_safe CORRUPT_DB env E lo p h Q Hh Hmax Hst Henv HQt c m n 0 0 HQm) as Hsafe.
  specialize (Hsafe (seen_0 E lo p h Q HQt m HQm) ltac:(lia) ltac:(lia)). cbv zeta beta in Hsafe. rewrite <- Hres in Hsafe. split_and!.
  - intros R m1 n1 Eres HR. destruct (Hsafe _ _ _ Eres) as [[[? _]|[[Hin Htab] Hbest]] _]; [done|]. apply latest_unique. right.
    split; [done|]. intros f Hf. destruct (Z_le_gt_dec f (start h)) as [|Hgt]; [lia|]. apply Hbest. split; [done|].
    specialize (Habove f Hf). lia.
  - intros m1 n1 Eres. destruct (Hsafe _ _ _ Eres) as [[[_ Hno]|[[(Hin & _) _] _]] HQ1]; [|lia]. split; [done|]. intros f Hf.
    destruct (Z_le_gt_dec f (start h)) as [|Hgt]; [done|]. exfalso. apply (Hno f).
    split; [done|]. specialize (Habove f Hf). lia.
  - intros Hcalm. destruct (Hcalm h Hh Hst) as (D & HD & Hhole). rewrite Hres.
    apply (find_returns CORRUPT_DB env E lo p h Q Hh Hmax Hst Henv HQt D HD Hhole c m n 0 0 HQm); [by apply (seen_0 E lo p h Q HQt m)|lia|lia].
Qed.

Lemma collisions : Z.of_nat (Z.to_nat HASHTABLE_NSLOT) = 8192.
Proof. by rewrite Z2Nat.id. Qed.

Lemma find_tables_spec lo lm fuel : forall w m n h iRead w' m', Q m -> reader w -> minFrame w = lo -> 0 <= lm -> lm = table_of lo ->
  0 <= h + 1 -> (0 <= h -> start h < len E) -> Z.max 1 (h - lm + 2) <= Z.of_nat fuel ->
  (forall f, holds_page E lo p f -> f <= start (h + 1)) ->
  (find_tables CORRUPT_DB env fuel w m n lm h p = Ret (SQLITE_OK, iRead, w', m') -> iRead = latest E.*1 lo p) /\
  (calm -> exists rc w' m', same w w' /\
     (find_tables CORRUPT_DB env fuel w m n lm h p = Ret (SQLITE_OK, latest E.*1 lo p, w', m') \/
      rc <> SQLITE_OK /\ find_tables CORRUPT_DB env fuel w m n lm h p = Ret (rc, 0, w', m'))).
Proof using Hp Henv HQ SOK.
  induction fuel as [|fuel IH]; intros w m n h iRead w' m' HQm Hr Hlo Hlm Elm Hh Hst Hfuel Habove; [lia|].
  cbn [find_tables]. destruct (Z.ltb_spec h lm) as [Hlt|Hge].
  { assert (latest E.*1 lo p = 0) as ->.
    { apply latest_unique. left. split; [done|]. intros f Hf. specialize (Habove f Hf). destruct Hf as (Hf & Hlf & _).
      pose proof (table_of_mono lo f Hlf) as Hmono. pose proof (table_of_bounds f ltac:(lia)) as Hb.
      destruct (Z.eq_dec (table_of f) (h + 1)) as [Eq|]; [rewrite Eq in Hb; lia|].
      pose proof (start_mono (h + 1) (table_of f) ltac:(lia)). pose proof (cap_range (h + 1)). lia. }
    split; [by intros [= <- _ _]|]. intros _. exists 0, w, m. split; [done|by left]. }
  assert (start h < len E) as Hst' by (apply Hst; lia).
  destruct (reader_get w m h HQm Hr ltac:(lia) Hst') as (rc & q & w1 & Eg & Hr1 & Hs1 & Hok). rewrite Eg. cbn [mbind outcome_bind].
  destruct (Z.eqb_spec rc SQLITE_OK) as [->|Hne]; cbn [negb]; [|split; [by intros [= ? _ _ _]|intros _; exists rc, w1, m; eauto]].
  rewrite (Hok eq_refl). remember (find_in_table _ _ _ _ _ _ _ _ _ _ _) as res eqn:Eres.
  rewrite (r_snapshot _ Hr1), (s_min _ _ Hs1), Hlo in Eres. rewrite assert_true by (apply Z.ltb_lt; lia). cbn [mbind outcome_bind].
  destruct (table_answer lo m n h _ HQm ltac:(lia) Hst' collisions Habove res Eres) as (Hhit & Hmiss & Hret). clear Eres.
  destruct res as [[[[rc R] m1] n1]| | | |]; cbn [mbind outcome_bind];
    [|split; [done|intros Hcalm; by destruct (Hret Hcalm) as (? & ? & ? & ?)]..].
  assert (0 <= h - 1 -> start (h - 1) < len E) as Hst1.
  { intros. pose proof (start_mono (h - 1) h ltac:(lia)). pose proof (cap_range (h - 1)). lia. }
  destruct (Z.eqb_spec rc SQLITE_OK) as [->|Hne]; cbn [negb].
  2: { split; [by intros [= ? _ _ _]|]. intros Hcalm. destruct (Hret Hcalm) as (? & ? & ? & [= ? _ _ _]). done. }
  destruct (Z.eqb_spec R 0) as [->|HR]; cbn [negb].
  - destruct (Hmiss _ _ eq_refl) as [HQ1 Hab].
    destruct (IH w1 m1 n1 (h - 1) iRead w' m' HQ1 Hr1) as [IH1 IH2]; try done; [by rewrite (s_min _ _ Hs1)|lia|lia|by replace (h - 1 + 1) with h by lia|].
    split; [done|]. intros Hcalm. destruct (IH2 Hcalm) as (rc & w2 & m2 & Hs2 & Hres). exists rc, w2, m2. split; [by etrans|done].
  - rewrite (Hhit _ _ _ eq_refl HR). split; [by intros [= <- _ _]|]. intros _. exists 0, w1, m1. split; [done|by left].
Qed.

(** The whole search. *)
Lemma find_frame_spec w m : Q m -> reader w ->
  let res := walFindFrame CORRUPT_DB env w m p in
  let answer := if (len E =? 0) || ((readLock w =? 0) && negb (bShmUnreliable w)) then 0 else latest E.*1 (minFrame w) p in
  (forall iRead w' m', res = Ret (SQLITE_OK, iRead, w', m') -> iRead = answer) /\
  (calm -> exists rc w' m', same w w' /\ (res = Ret (SQLITE_OK, answer, w', m') \/ rc <> SQLITE_OK /\ res = Ret (rc, 0, w', m'))).
Proof using All.
  intros HQm Hr. unfold walFindFrame. rewrite assert_true by (apply Z.leb_le, (r_lock _ Hr)). cbn [mbind outcome_bind].
  rewrite (r_snapshot _ Hr). destruct (_ || _) eqn:Eskip.
  { split; [by intros ? ? ? [= <- _ _]|]. intros _. exists 0, w, m. split; [done|by left]. }
  apply orb_false_elim in Eskip as [El _]. apply Z.eqb_neq in El. pose proof (log_len_nonneg E).
  pose proof (h_len _ _ (HQ _ HQm)) as Hmax. pose proof (r_min _ Hr) as Hmin.
  rewrite (proj1 (frame_page (minFrame w) Hmin)). cbn [mbind outcome_bind].
  rewrite (proj1 (frame_page (len E) ltac:(lia))). cbn [mbind outcome_bind].
  pose proof (table_of_bounds (len E) ltac:(lia)) as Hb. pose proof (table_of_nonneg (len E) ltac:(lia)) as Hn.
  pose proof (table_of_nonneg (minFrame w) ltac:(lia)).
  set (fuel := (2 + Z.to_nat (table_of (len E) - table_of (minFrame w)))%nat).
  assert (forall iRead w' m', _) as Hspec by (intros iRead w' m'; refine (find_tables_spec (minFrame w) (table_of (minFrame w)) fuel w m 0 (table_of (len E)) iRead w' m' HQm Hr eq_refl _ eq_refl _ _ _ _);
    [lia|lia|lia|subst fuel; lia|intros f [Hf _]; rewrite start_next by done; lia]).
  split; [intros R w' m' Hf; exact (proj1 (Hspec R w' m') Hf)|exact (proj2 (Hspec 0 w m))].
Qed.

End Search.
