(* ===== verification/WalLog.v ===== *)
(** * Snapshots of the log

    One connection writes, rolls back, returns to savepoints, commits or dies
    while others read.  [step] is what may happen to the shared memory of the
    index between two reads; the abstract log says which frames are committed.
    A reader finds in every later memory what was committed when it began. *)

From S2P Require Import Prelude Words Bitvec Page PageSpace Wal WalFrame WalWrite WalIndex WalFind.

Section Log.
Context {BD : Build} {SHM : Shm} {SOK : ShmOk}.
Variable BE : Z.

(** ** The header *)

Lemma len_hdr_bytes h : Page.len (aSalt h) = 8 -> Page.len (hdr_bytes BE h) = 40.
Proof.
  unfold Page.len, hdr_bytes, bytes32, bytes16. intros Hs. rewrite !length_app.
  destruct (BE =? 0); rewrite ?length_reverse; cbn [length]; lia.
Qed.

Lemma bytes_app l r : bytes l -> bytes r -> bytes (l ++ r).
Proof.
  intros Hl Hr k. unfold Page.at_. destruct (Nat.lt_ge_cases (Z.to_nat k) (length l)).
  - rewrite app_nth1 by done. apply (Hl k).
  - rewrite app_nth2 by done. rewrite <- (Nat2Z.id (_ - _)). apply Hr.
Qed.

Lemma bytes_hdr_bytes h : bytes (aSalt h) -> bytes (hdr_bytes BE h).
Proof.
  intros Hs. unfold hdr_bytes, bytes32, bytes16.
  repeat apply bytes_app; try done; try (destruct (BE =? 0)); apply bytes_Forall; try apply Forall_reverse;
    repeat constructor; apply uchar_bytes.
Qed.

(** The header is written to both copies; only its version, its mark and its own checksum differ from the connection's. *)
Lemma write_hdr_ok w m : conn w -> writeLock w = true -> Page.len (aSalt (hdr w)) = 8 -> bytes (aSalt (hdr w)) ->
  exists h, walIndexWriteHdr BE w m = Ret (with_hdr w h, {| blocks := blocks m; header := (h, h) |}) /\
    mxFrame h = mxFrame (hdr w) /\ nPage h = nPage (hdr w) /\ aFrameCksum h = aFrameCksum (hdr w) /\ aSalt h = aSalt (hdr w) /\
    bigEndCksum h = bigEndCksum (hdr w) /\ hdr_szPage h = hdr_szPage (hdr w).
Proof.
  intros Hc Hl Hs Hb. unfold walIndexWriteHdr, walIndexHdr. rewrite (c_zero _ Hc), bool_decide_true by done.
  rewrite !assert_true by done. cbn [mbind outcome_bind].
  set (h0 := with_version (hdr w) WALINDEX_MAX_VERSION).
  rewrite (checksum_ok BE (negb (BE =? 0))).
  - cbn [mbind outcome_bind]. eexists. split; [reflexivity|]. done.
  - by apply bytes_hdr_bytes.
  - lia.
  - rewrite len_hdr_bytes by done. lia.
  - lia.
  - done.
  - by destruct (BE =? 0).
Qed.

(** ** Entering the frames of a transaction *)

Definition valid_pages (ps : list PgHdr) : Prop := Forall (fun p => 0 < pgno p < 2 ^ 32) ps.

(** The tables of the frames from [c] on are mapped. *)
Definition tables_mapped (w : Wal) (c x : Z) : Prop := forall f, 1 <= f -> c <= f <= x -> mapped w (table_of f).

(** What a run of entries leaves. [E'] may have frames that the connection does not count yet. *)
Record entering (w : Wal) (E : list (Z * Z)) (w' : Wal) (m' : store) (E' F : list (Z * Z)) : Prop := {
  n_same : same w w'; n_writer : writer w' m'; n_log : E' = E ++ F; n_holds : holds m' E'; n_ready : ready w' m' E'
}.

Lemma tables_mapped_same w w' c x : tables_mapped w c x -> same w w' -> tables_mapped w' c x.
Proof. intros Ht Hs f H1 Hf. apply (s_ptr _ _ Hs). by apply Ht. Qed.

Lemma append_one w m E p c : writer w m -> holds m E -> ready w m E -> 0 < p < 2 ^ 32 -> len E < MAX_FRAME -> tables_mapped w c (len E) ->
  exists rc w' m' F, walIndexAppend w m (u32 (len E + 1)) p = Ret (rc, w', m') /\ header m' = header m /\
    entering w E w' m' (E ++ F) F /\ tables_mapped w' c (len (E ++ F)) /\
    (rc <> SQLITE_OK /\ F = [] \/ rc = SQLITE_OK /\ exists d, F = [(p, d)]).
Proof using SOK.
  intros Hw Hh Hr Hp Hl Ht. pose proof (log_len_nonneg E). unfold MAX_FRAME in Hl. rewrite u32_id by lia.
  destruct (append_spec w m E p Hw Hh Hr Hp ltac:(unfold MAX_FRAME; lia)) as (rc & w' & m' & Ea & Hs & Hw' & Hhd & _ & [(Hrc & Hh' & Hr')|(Hrc & Hm & d & Hh' & Hn)]).
  - exists rc, w', m', []. rewrite app_nil_r. split_and!; eauto using tables_mapped_same. by split; rewrite ?app_nil_r.
  - exists rc, w', m', [(p, d)]. split_and!; eauto.
    + split; try done. by right.
    + intros f H1 Hf. rewrite log_len_app in Hf. change (len [(p, d)]) with 1 in Hf.
      destruct (Z.eq_dec f (len E + 1)) as [->|]; [done|]. apply (s_ptr _ _ Hs), Ht; lia.
Qed.

Lemma entering_trans w E w1 m1 E1 F1 w2 m2 E2 F2 : entering w E w1 m1 E1 F1 -> entering w1 E1 w2 m2 E2 F2 -> entering w E w2 m2 E2 (F1 ++ F2).
Proof.
  intros [S1 W1 L1 H1 R1] [S2 W2 L2 H2 R2]. split; try done; [by etrans|]. by rewrite L2, L1, app_assoc.
Qed.

(** The pages that were appended to the file. *)
Definition appended (ps : list PgHdr) : list Z := map pgno (filter (fun p => wal_append p = true) ps).

(** Entries for pages of the list. *)
Definition from_list (ps : list PgHdr) (F : list (Z * Z)) : Prop := Forall (fun e => exists p, p ∈ ps /\ e.1 = pgno p) F.

Lemma from_list_cons p ps F : from_list ps F -> from_list (p :: ps) F.
Proof. intros HF. eapply Forall_impl; [exact HF|]. intros e (q & Hq & He). exists q. split; [by right|done]. Qed.

Lemma entering_refl w m E : writer w m -> holds m E -> ready w m E -> entering w E w m (E ++ []) [].
Proof. rewrite app_nil_r. intros. split; try done. by rewrite app_nil_r. Qed.

Lemma index_pages_spec ps : forall w m E c, writer w m -> holds m E -> ready w m E -> valid_pages ps ->
  len E + Z.of_nat (length ps) <= MAX_FRAME -> tables_mapped w c (len E) ->
  exists rc iFrame w' m' F, index_pages w m (len E) SQLITE_OK ps = Ret (rc, iFrame, w', m') /\ header m' = header m /\
    entering w E w' m' (E ++ F) F /\ tables_mapped w' c (len (E ++ F)) /\ from_list ps F /\ len F <= Z.of_nat (length ps) /\
    (rc = SQLITE_OK -> F.*1 = appended ps /\ iFrame = len (E ++ F)).
Proof using SOK.
  induction ps as [|p ps IH]; intros w m E c Hw Hh Hr Hv Hl Ht; cbn [index_pages].
  { exists SQLITE_OK, (len E), w, m, []. rewrite app_nil_r. pose proof (entering_refl w m E Hw Hh Hr) as He. rewrite app_nil_r in He.
    split_and!; try done; by constructor. }
  apply Forall_cons in Hv as [Hp Hv]. cbn [length] in Hl. change (negb (SQLITE_OK =? SQLITE_OK)) with false. cbn [negb].
  unfold appended. rewrite filter_cons. destruct (wal_append p) eqn:Ew; cbn [negb].
  2: { destruct (IH w m E c) as (rc & iF & w' & m' & F & Eq & Hhd & He & Ht' & Hf & Hn & Hok); try done; [lia|].
       exists rc, iF, w', m', F. rewrite decide_False by done. split_and!; try done; [by apply from_list_cons|cbn [length]; lia]. }
  rewrite decide_True by done.
  destruct (append_one w m E (pgno p) c Hw Hh Hr Hp ltac:(lia) Ht) as (rc & w1 & m1 & F1 & -> & Hhd1 & He1 & Ht1 & Hcase).
  cbn [mbind outcome_bind]. destruct Hcase as [[Hrc ->]|[-> [d ->]]].
  - rewrite app_nil_r in *. exists rc, (u32 (len E + 1)), w1, m1, []. rewrite app_nil_r.
    assert (index_pages w1 m1 (u32 (len E + 1)) rc ps = Ret (rc, u32 (len E + 1), w1, m1)) as ->.
    { destruct ps; cbn [index_pages]; [done|]. by rewrite (proj2 (Z.eqb_neq rc SQLITE_OK)). }
    split_and!; try done; first [by constructor|unfold len; cbn; lia].
  - assert (u32 (len E + 1) = len (E ++ [(pgno p, d)])) as ->.
    { rewrite log_len_app. change (len [(pgno p, d)]) with 1. pose proof (log_len_nonneg E). unfold MAX_FRAME in Hl. rewrite u32_id; lia. }
    destruct (IH w1 m1 (E ++ [(pgno p, d)]) c) as (rc & iF & w' & m' & F & Eq & Hhd & He & Ht' & Hf & Hn & Hok);
      [apply (n_writer _ _ _ _ _ _ He1)|apply (n_holds _ _ _ _ _ _ He1)|apply (n_ready _ _ _ _ _ _ He1)|done| |done|].
    { rewrite log_len_app. change (len [(pgno p, d)]) with 1. lia. }
    exists rc, iF, w', m', ((pgno p, d) :: F). rewrite <- app_assoc in *. cbn [app] in *. rewrite Eq.
    split_and!; try done.
    + congruence.
    + change ((pgno p, d) :: F) with ([(pgno p, d)] ++ F). eapply entering_trans; [exact He1|exact He].
    + constructor; [|by apply from_list_cons]. exists p. split; [by left|done].
    + unfold len in *. cbn [length] in *. lia.
    + intros Hrc. destruct (Hok Hrc) as [Hfst ->]. split; [|done]. cbn [map]. cbn. by rewrite Hfst.
Qed.

(** The copies of the last frame are entered like pages. *)
Lemma index_extra_pages n p : forall w m i rc, index_extra n w m i rc (Some p) = index_pages w m i rc (replicate n (with_append p true)).
Proof.
  induction n as [|n IH]; intros w m i rc; cbn [index_extra replicate index_pages]; [done|].
  destruct (negb (rc =? SQLITE_OK)); [done|]. cbn [wal_append with_append negb]. change (pgno (with_append p true)) with (pgno p).
  destruct (walIndexAppend _ _ _ _) as [[[? ?] ?]| | | |]; cbn [mbind outcome_bind]; try done.
Qed.

Lemma index_pages_app ps qs : forall w m i rc, index_pages w m i rc (ps ++ qs) =
  '(rc, i, w, m) ← index_pages w m i rc ps; index_pages w m i rc qs.
Proof.
  induction ps as [|p ps IH]; intros w m i rc; cbn [index_pages app]; [done|].
  destruct (negb (rc =? SQLITE_OK)) eqn:Erc.
  - cbn [mbind outcome_bind]. destruct qs; cbn [index_pages]; [done|]. by rewrite Erc.
  - destruct (wal_append p); cbn [negb]; [|done].
    destruct (walIndexAppend _ _ _ _) as [[[? ?] ?]| | | |]; cbn [mbind outcome_bind]; done.
Qed.

(** All pages that [walFrames] enters, with the copies for the padding. *)
Definition entered_pages (ps : list PgHdr) (pLast : option PgHdr) (nExtra : Z) : list PgHdr :=
  ps ++ match pLast with Some p => replicate (Z.to_nat nExtra) (with_append p true) | None => [] end.

(** What a connection has before and after it writes frames. *)
Record writing (w : Wal) (m : store) (E : list (Z * Z)) (c : Z) : Prop := {
  g_writer : writer w m;
  g_holds : holds m E;
  g_count : mxFrame (hdr w) = len E;
  g_committed : 0 <= c <= len E;
  g_mapped : tables_mapped w c (len E);
  g_salt : Page.len (aSalt (hdr w)) = 8 /\ bytes (aSalt (hdr w))
}.

(** What a connection knows of the file. *)
Definition same_file (w w' : Wal) : Prop :=
  szPage w' = szPage w /\ aSalt (hdr w') = aSalt (hdr w) /\ bigEndCksum (hdr w') = bigEndCksum (hdr w) /\
  aFrameCksum (hdr w') = aFrameCksum (hdr w).

Lemma index_frames_spec w m E c ps pLast nExtra sz nTruncate isCommit : writing w m E c ->
  valid_pages (entered_pages ps pLast nExtra) -> len E + Z.of_nat (length (entered_pages ps pLast nExtra)) <= MAX_FRAME ->
  0 <= nExtra -> nExtra = 0 \/ is_Some pLast ->
  exists rc w' m' F, index_frames BE w m SQLITE_OK ps pLast nExtra sz nTruncate isCommit = Ret (rc, w', m') /\
    from_list (entered_pages ps pLast nExtra) F /\ holds m' (E ++ F) /\
    (rc <> SQLITE_OK -> writing w' m' E c /\ hdr w' = hdr w /\ header m' = header m) /\
    (rc = SQLITE_OK -> writing w' m' (E ++ F) c /\ F.*1 = appended (entered_pages ps pLast nExtra) /\
       header m' = (if isCommit then (hdr w', hdr w') else header m) /\
       same_file w w' /\ nPage (hdr w') = if isCommit then nTruncate else nPage (hdr w)).
Proof using SOK.
  intros [Hw Hh Hc Hcc Hm [Hs Hsb]] Hv Hl Hn Hlast. unfold index_frames.
  assert (forall w1 m1 i rc, (_ ← assert_ (bool_decide (is_Some pLast) || (nExtra =? 0)); index_extra (Z.to_nat nExtra) w1 m1 i rc pLast) =
    index_pages w1 m1 i rc (match pLast with Some p => replicate (Z.to_nat nExtra) (with_append p true) | None => [] end)) as Hextra.
  { intros. destruct pLast as [p|].
    - rewrite assert_true by done. cbn [mbind outcome_bind]. apply index_extra_pages.
    - destruct Hlast as [-> |[? ?]]; [|done]. rewrite assert_true by done. done. }
  destruct (index_pages_spec (entered_pages ps pLast nExtra) w m E c Hw Hh (or_introl Hc) Hv Hl Hm)
    as (rc & iF & w1 & m1 & F & Ei & Hhd & He & Hm1 & Hf & Hlen & Hok).
  rewrite Hc. unfold entered_pages in Ei at 1. rewrite index_pages_app in Ei.
  destruct (index_pages w m (len E) SQLITE_OK ps) as [[[[rc0 i0] w0] m0]| | | |]; try discriminate Ei. cbn [mbind outcome_bind] in *.
  specialize (Hextra w0 m0 i0 rc0). rewrite Ei in Hextra.
  destruct (assert_ _); try discriminate Hextra. cbn [mbind outcome_bind] in *. rewrite Hextra. cbn [mbind outcome_bind].
  destruct He as [Hsame Hw1 _ Hh1 Hr1]. pose proof (s_hdr _ _ Hsame) as Ehdr.
  destruct (Z.eqb_spec rc SQLITE_OK) as [->|Hrc]; cbn [negb].
  - destruct (Hok eq_refl) as [Hfst ->]. pose proof (log_len_nonneg F).
    set (h := with_mxFrame _ _). destruct isCommit.
    + set (w2 := with_hdr w1 _). assert (conn w2 /\ writeLock w2 = true) as [Hc2 Hl2].
      { destruct (w_conn _ _ Hw1). split; [by split|apply (w_lock _ _ Hw1)]. }
      destruct (write_hdr_ok w2 m1 Hc2 Hl2) as (h2 & -> & Hmx & Hnp & Hck & Hsalt & Hbig & _); [cbn; by rewrite Ehdr|cbn; by rewrite Ehdr|].
      cbn [mbind outcome_bind]. eexists _, _, _, F. split; [reflexivity|]. split_and!; try done; [by destruct Hh1; split|].
      intros _. split_and!; try done; [|repeat split; cbn; rewrite ?Hck, ?Hsalt, ?Hbig; cbn; rewrite ?Ehdr; try done; apply (s_size _ _ Hsame)]. destruct Hw1 as [[] ? ? ?]. split; try done.
      * by destruct Hh1; split.
      * rewrite log_len_app. lia.
      * cbn. rewrite Hsalt. cbn. by rewrite Ehdr.
    + cbn [mbind outcome_bind]. eexists _, _, _, F. split; [reflexivity|]. split_and!; try done.
      intros _. split_and!; try done; [|repeat split; cbn; rewrite ?Ehdr; try done; apply (s_size _ _ Hsame)|cbn; by rewrite Ehdr]. destruct Hw1 as [[] ? ? ?]. split; try done.
      * rewrite log_len_app. lia.
      * cbn. by rewrite Ehdr.
  - eexists _, _, _, F. split; [reflexivity|]. split_and!; try done. intros _. split_and!; try done. split; try done.
    + eauto using holds_prefix.
    + by rewrite Ehdr.
    + intros f H1 Hf1. apply Hm1; [done|]. rewrite log_len_app. pose proof (log_len_nonneg F). lia.
    + by rewrite Ehdr.
Qed.

(** ** Undoing *)

Lemma frame_pgno w m E f : holds m E -> mapped w (table_of f) -> 1 <= f <= len E -> walFramePgno w m f = Ret (pg E f).
Proof using SOK.
  intros Hh Hm Hf. pose proof (h_len _ _ Hh) as Hmax. unfold walFramePgno.
  destruct (frame_page f ltac:(lia)) as [-> Hc]. cbn [mbind outcome_bind]. rewrite (proj2 (Z.ltb_ge _ 0)) by (destruct Hc; lia).
  unfold mapped in Hm. rewrite Hm. pose proof (table_of_bounds f ltac:(lia)) as Hb. set (h := table_of f) in *.
  destruct Hc as [Hh0 _]. pose proof (start_nonneg h Hh0).
  destruct (h_table _ _ Hh h Hh0) as (b & cnt & Hblk & T); [lia|]. unfold block_of. rewrite Hblk. cbn [from_option mbind outcome_bind].
  pose proof (sz_words _ (t_sized _ _ _ _ T)) as Hw. pose proof (t_page _ _ _ _ T (f - start h) ltac:(lia) ltac:(lia)) as Hp.
  replace (start h + (f - start h)) with f in Hp by lia. rewrite <- Hp. unfold place, off. unfold MAX_FRAME in Hmax.
  unfold start, cap in *. destruct (Z.eqb_spec h 0).
  - change (WALINDEX_HDR_SIZE / 4) with 34. rewrite u64_id by lia. rewrite nth_at_ok by lia. f_equal. f_equal. lia.
  - change HASHTABLE_NPAGE_ONE with 4062. change HASHTABLE_NPAGE with 4096. rewrite u32_id by lia. rewrite u64_id by lia.
    assert ((f - 1 - 4062) mod 4096 = f - 4096 * h + 33) as ->.
    { symmetry. apply (Z.mod_unique _ _ (h - 1)); [left|]; lia. }
    rewrite nth_at_ok by lia. f_equal. f_equal. lia.
Qed.

Lemma undo_frames_ok xUndo w m E c : (forall p, xUndo p = SQLITE_OK) -> holds m E -> tables_mapped w c (len E) ->
  (forall f, c < f <= len E -> pg E f <> 1) -> forall fuel f, 0 <= c < f -> len E - f + 2 <= Z.of_nat fuel -> (0 < fuel)%nat -> f <= len E + 1 ->
  exists l, undo_frames xUndo fuel w m f (len E) SQLITE_OK = Ret (SQLITE_OK, l).
Proof using SOK.
  intros Hx Hh Ht H1. pose proof (h_len _ _ Hh) as Hmax. unfold MAX_FRAME in Hmax.
  induction fuel as [|fuel IH]; intros f Hc Hf Hf0 Hle; [lia|]. cbn [undo_frames]. rewrite (assert_true (SQLITE_OK =? SQLITE_OK)) by done.
  cbn [mbind outcome_bind]. change (SQLITE_OK =? SQLITE_OK) with true. cbn [andb]. destruct (Z.leb_spec f (len E)); [|by eexists].
  rewrite (frame_pgno w m E f) by (done || lia || (apply Ht; lia)). cbn [mbind outcome_bind].
  rewrite assert_true by (apply negb_true_iff, Z.eqb_neq, H1; lia). cbn [mbind outcome_bind]. rewrite Hx, u32_id by lia.
  destruct (IH (f + 1)) as [l ->]; [lia..|]. cbn [mbind outcome_bind]. by eexists.
Qed.

(** Back to the first [k] entries. *)
Lemma undo_writing w m E F c h : writing w m (E ++ F) c -> mxFrame h = len E -> c <= len E -> Page.len (aSalt h) = 8 -> bytes (aSalt h) ->
  writer (with_hdr w h) m /\ holds m E /\ mxFrame (hdr (with_hdr w h)) = len E /\
  (len E = 0 \/ mapped (with_hdr w h) (table_of (len E))) /\
  forall m', writer (with_hdr w h) m' -> holds m' E -> writing (with_hdr w h) m' E c.
Proof.
  intros [[Hc Hl Ht Hp] Hh Hmx Hcc Hm Hs] Hx Hce Hsl Hsb. rewrite log_len_app in *. pose proof (log_len_nonneg F). pose proof (log_len_nonneg E).
  split_and!; eauto using holds_prefix.
  - split; try done. by destruct Hc; split.
  - destruct (Z.eq_dec (len E) 0); [by left|right]. apply Hm; lia.
  - intros m' Hw' Hh'. split; try done; try lia. intros f H1 Hf. apply Hm; lia.
Qed.

Lemma cleanup_writing w m E c : writer w m -> holds m E -> mxFrame (hdr w) = len E -> (len E = 0 \/ mapped w (table_of (len E))) ->
  (forall m', writer w m' -> holds m' E -> writing w m' E c) ->
  exists m', walCleanupHash w m = Ret (w, m') /\ writing w m' E c /\ header m' = header m.
Proof using SOK.
  intros Hw Hh Hx Hm Hwr. destruct (cleanup_spec w m E Hw Hh Hx Hm) as (m' & E1 & Hw' & Hh' & _ & _ & Hhd). exists m'. eauto.
Qed.

Lemma undo_spec xUndo w m E F : (forall p, xUndo p = SQLITE_OK) -> writing w m (E ++ F) (len E) -> mxFrame (header m).1 = len E ->
  Page.len (aSalt (header m).1) = 8 -> bytes (aSalt (header m).1) -> Forall (fun e => e.1 <> 1) F ->
  exists l w' m', sqlite3WalUndo xUndo w m = Ret (SQLITE_OK, l, w', m') /\ writing w' m' E (len E) /\ hdr w' = (header m).1 /\ header m' = header m.
Proof using SOK.
  intros Hx Hwr Hmx Hsl Hsb HF. destruct Hwr as [Hw Hh Hcount Hcc Hmap Hs] eqn:Ewr. clear Ewr. pose proof (w_conn _ _ Hw) as Hc.
  pose proof (log_len_nonneg E). pose proof (log_len_nonneg F). pose proof (h_len _ _ Hh) as Hmax. unfold MAX_FRAME in Hmax. rewrite log_len_app in Hmax, Hcount.
  destruct (undo_writing w m E F (len E) (header m).1 Hwr Hmx ltac:(lia) Hsl Hsb) as (Hw1 & Hh1 & Hx1 & Hm1 & Hend).
  unfold sqlite3WalUndo, walIndexHdr. rewrite (w_lock _ _ Hw), (assert_true true) by done. cbn [mbind outcome_bind].
  rewrite (c_zero _ Hc), bool_decide_true by done. rewrite (assert_true true) by done. cbn [mbind outcome_bind].
  rewrite Hcount, Hx1, u32_id by lia.
  assert (forall f, len E < f <= len (E ++ F) -> pg (E ++ F) f <> 1) as Hne.
  { intros f Hf. rewrite log_len_app in Hf. unfold pg. rewrite app_nth2 by (unfold len in *; lia).
    set (k := (_ - _)%nat). assert (k < length F)%nat as Hk by (unfold len in *; lia).
    destruct (lookup_lt_is_Some_2 F k Hk) as [e He]. rewrite (nth_lookup_Some _ _ _ _ He). exact (proj1 (Forall_lookup _ _) HF _ _ He). }
  destruct (undo_frames_ok xUndo (with_hdr w (header m).1) m (E ++ F) (len E) Hx Hh) with (fuel := (2 + Z.to_nat (len E + len F - len E))%nat) (f := len E + 1) as [l El];
    try done; rewrite ?log_len_app; try lia. rewrite log_len_app in El. rewrite El. cbn [mbind outcome_bind].
  destruct (Z.eqb_spec (len E + len F) (len E)) as [Eq|_]; cbn [negb].
  - cbn [mbind outcome_bind]. eexists _, _, _. split; [reflexivity|]. split_and!; try done. by apply Hend.
  - destruct (cleanup_writing (with_hdr w (header m).1) m E (len E) Hw1 Hh1 Hx1 Hm1 Hend) as (m' & -> & Hwr' & Hhd).
    cbn [mbind outcome_bind]. eexists _, _, _. split; [reflexivity|]. by split_and!.
Qed.

(** A savepoint of this transaction: the first [k] of its frames stay. *)
Lemma savepoint_undo_spec w m E F c ck : writing w m (E ++ F) c -> c <= len E ->
  exists w' m', sqlite3WalSavepointUndo w m (len E, ck, nCkpt w) = Ret (SQLITE_OK, (len E, ck, nCkpt w), w', m') /\
    writing w' m' E c /\ header m' = header m.
Proof using SOK.
  intros Hwr Hce. destruct Hwr as [Hw Hh Hcount Hcc Hmap [Hsl Hsb]] eqn:Ewr. clear Ewr. pose proof (log_len_nonneg F). rewrite log_len_app in Hcount.
  unfold sqlite3WalSavepointUndo. rewrite (w_lock _ _ Hw), Z.eqb_refl. cbn [negb]. rewrite Hcount.
  rewrite !assert_true by (cbn; by (apply Z.leb_le; lia) || done). cbn [mbind outcome_bind].
  destruct (Z.ltb_spec (len E) (len E + len F)).
  - set (h := with_aFrameCksum (with_mxFrame (hdr w) (len E)) ck).
    destruct (undo_writing w m E F c h Hwr eq_refl Hce Hsl Hsb) as (Hw1 & Hh1 & Hx1 & Hm1 & Hend).
    destruct (cleanup_writing (with_hdr w h) m E c Hw1 Hh1 Hx1 Hm1 Hend) as (m' & -> & Hwr' & Hhd).
    cbn [mbind outcome_bind]. eexists _, _. split; [reflexivity|]. by split_and!.
  - assert (F = []) as -> by (destruct F; [done|unfold len in *; cbn [length] in *; lia]). rewrite app_nil_r in Hwr. by eexists _, _.
Qed.

(** The same by the number of the last frame that stays. *)
Lemma savepoint_return w m E F frame ck : writing w m (E ++ F) (len E) -> len E <= frame <= mxFrame (hdr w) ->
  exists w' m', sqlite3WalSavepointUndo w m (frame, ck, nCkpt w) = Ret (SQLITE_OK, (frame, ck, nCkpt w), w', m') /\
    writing w' m' (E ++ take (Z.to_nat (frame - len E)) F) (len E) /\ header m' = header m /\ mxFrame (hdr w') = frame.
Proof using SOK.
  intros Hwr Hf. pose proof (g_count _ _ _ _ Hwr) as Hc. rewrite log_len_app in Hc. set (k := Z.to_nat (frame - len E)).
  assert (len (E ++ take k F) = frame) as Hk by (rewrite log_len_app; unfold len in *; rewrite length_take; lia).
  rewrite <- (take_drop k F), app_assoc in Hwr.
  destruct (savepoint_undo_spec w m (E ++ take k F) (drop k F) (len E) ck Hwr) as (w1 & m1 & Eu & Hwr1 & Hhd1); [lia|].
  rewrite Hk in Eu. exists w1, m1. split_and!; [done|done|done|]. by rewrite (g_count _ _ _ _ Hwr1).
Qed.

(** ** The log as others see it *)

(** The shared memory, and the connection that holds the lock of the writer. *)
Record world := { shm : store; owner : option Wal }.

(** A connection that has read the header it starts to write from. The search
    for page 1, which every transaction makes, maps the table of the last frame. *)
Record may_write (w : Wal) (m : store) : Prop := {
  b_conn : conn w;
  b_there : forall h, mapped w h -> is_Some (blocks m !! h);
  b_heap : exclusiveMode w = WAL_HEAPMEMORY_MODE -> forall h, is_Some (blocks m !! h) -> mapped w h;
  b_last : 1 <= mxFrame (hdr w) -> mapped w (table_of (mxFrame (hdr w)));
  b_rest : readOnly w = 0 /\ 0 <= readLock w /\ writeLock w = false /\ iReCksum w = 0
}.

Inductive event :=
| Begin
| Write (ps : list Z) (** pages that were spilled *)
| Commit (ps : list Z)
| Fail
| Undo
| Return (k : Z) (** to a savepoint after [k] frames of the transaction *)
| End_
| Die.

(** What happens to the index between two reads of some other connection. *)
Inductive step : world -> event -> world -> Prop :=
| step_begin m w w' : may_write w m -> sqlite3WalBeginWriteTransaction SQLITE_OK w m = Ret (SQLITE_OK, w') ->
    step {| shm := m; owner := None |} Begin {| shm := m; owner := Some w' |}
| step_write m w ps pLast nExtra sz nTruncate isCommit rc w' m' :
    valid_pages (entered_pages ps pLast nExtra) -> 0 <= nExtra -> nExtra = 0 \/ is_Some pLast ->
    (isCommit = false -> Forall (fun p => pgno p <> 1) (entered_pages ps pLast nExtra)) ->
    mxFrame (hdr w) + Z.of_nat (length (entered_pages ps pLast nExtra)) <= MAX_FRAME ->
    index_frames BE w m SQLITE_OK ps pLast nExtra sz nTruncate isCommit = Ret (rc, w', m') ->
    step {| shm := m; owner := Some w |}
      (if negb (rc =? SQLITE_OK) then Fail
       else if isCommit then Commit (appended (entered_pages ps pLast nExtra)) else Write (appended (entered_pages ps pLast nExtra)))
      {| shm := m'; owner := Some w' |}
| step_undo m w xUndo rc l w' m' : (forall p, xUndo p = SQLITE_OK) -> sqlite3WalUndo xUndo w m = Ret (rc, l, w', m') ->
    step {| shm := m; owner := Some w |} Undo {| shm := m'; owner := Some w' |}
| step_return m w frame ck rc sp w' m' : mxFrame (header m).1 <= frame <= mxFrame (hdr w) ->
    sqlite3WalSavepointUndo w m (frame, ck, nCkpt w) = Ret (rc, sp, w', m') ->
    step {| shm := m; owner := Some w |} (Return (frame - mxFrame (header m).1)) {| shm := m'; owner := Some w' |}
| step_end m w : mxFrame (hdr w) = mxFrame (header m).1 -> step {| shm := m; owner := Some w |} End_ {| shm := m; owner := None |}
| step_die m w : step {| shm := m; owner := Some w |} Die {| shm := m; owner := None |}.

Inductive steps : world -> list event -> world -> Prop :=
| steps_nil s : steps s [] s
| steps_cons s e s1 es s2 : step s e s1 -> steps s1 es s2 -> steps s (e :: es) s2.

(** The log of the specification: the pages of the committed frames, and those
    of the transaction that is going on. *)
Definition spec : Type := list Z * option (list Z).

Definition spec_step (a : spec) (e : event) : option spec :=
  match e, a with
  | Begin, (L, None) => Some (L, Some [])
  | Write ps, (L, Some P) => Some (L, Some (P ++ ps))
  | Commit ps, (L, Some P) => Some (L ++ P ++ ps, Some [])
  | Fail, (L, Some P) => Some (L, Some P)
  | Undo, (L, Some P) => Some (L, Some [])
  | Return k, (L, Some P) => Some (L, Some (take (Z.to_nat k) P))
  | End_, (L, Some []) => Some (L, None)
  | Die, (L, Some P) => Some (L, None)
  | _, _ => None
  end.
Fixpoint spec_steps (a : spec) (es : list event) : option spec :=
  match es with [] => Some a | e :: es => a ← spec_step a e; spec_steps a es end.

(** The entries [E] of the committed frames, and the world around them. *)
Record refines (s : world) (E : list (Z * Z)) (a : spec) : Prop := {
  f_header : (header (shm s)).2 = (header (shm s)).1;
  f_count : mxFrame (header (shm s)).1 = len E;
  f_salt : Page.len (aSalt (header (shm s)).1) = 8 /\ bytes (aSalt (header (shm s)).1);
  f_holds : holds (shm s) E;
  f_log : a.1 = E.*1;
  f_owner : match owner s, a.2 with
            | None, None => True
            | Some w, Some P => exists F, writing w (shm s) (E ++ F) (len E) /\ F.*1 = P /\ Forall (fun e => e.1 <> 1) F
            | _, _ => False
            end
}.

Lemma len_fmap (F : list (Z * Z)) : Z.of_nat (length F.*1) = len F.
Proof. by rewrite length_fmap. Qed.

Lemma begin_ok w m w' : may_write w m -> sqlite3WalBeginWriteTransaction SQLITE_OK w m = Ret (SQLITE_OK, w') ->
  hdr w = (header m).1 /\ w' = with_writeLock w true.
Proof.
  intros [Hc _ _ _ (Hro & Hrl & Hwl & Hrc)]. unfold sqlite3WalBeginWriteTransaction, walIndexHdr. rewrite Hro, Hrc, Hwl.
  rewrite (assert_true (0 <=? readLock w)) by (by apply Z.leb_le). rewrite (assert_true (negb false && (0 =? 0))) by done. cbn [mbind outcome_bind].
  change (negb (0 =? 0)) with false. change (negb (SQLITE_OK =? SQLITE_OK)) with false. cbn iota.
  change (apWiData (with_writeLock w true)) with (apWiData w). rewrite (c_zero _ Hc), bool_decide_true by done.
  rewrite (assert_true true) by done. cbn [mbind outcome_bind]. change (hdr (with_writeLock w true)) with (hdr w).
  destruct (bool_decide _) eqn:Eb; [|discriminate]. intros [= <-]. apply bool_decide_eq_true in Eb. done.
Qed.

Lemma begin_returns lock w m : may_write w m -> returns (sqlite3WalBeginWriteTransaction lock w m) = true.
Proof.
  intros [Hc _ _ _ (Hro & Hrl & Hwl & Hrc)]. unfold sqlite3WalBeginWriteTransaction, walIndexHdr. rewrite Hro, Hrc, Hwl.
  rewrite (assert_true (0 <=? readLock w)) by (by apply Z.leb_le). rewrite (assert_true (negb false && (0 =? 0))) by done. cbn [mbind outcome_bind].
  change (negb (0 =? 0)) with false. cbn iota. destruct (negb (lock =? SQLITE_OK)); [done|].
  change (apWiData (with_writeLock w true)) with (apWiData w). rewrite (c_zero _ Hc), bool_decide_true by done.
  rewrite (assert_true true) by done. cbn [mbind outcome_bind]. by destruct (bool_decide _).
Qed.

Lemma refines_begin m w w' E L : may_write w m -> sqlite3WalBeginWriteTransaction SQLITE_OK w m = Ret (SQLITE_OK, w') ->
  refines {| shm := m; owner := None |} E (L, None) -> refines {| shm := m; owner := Some w' |} E (L, Some []).
Proof.
  intros Hb Ew [H1 H2 H3 H4 H5 _]. destruct (begin_ok w m w' Hb Ew) as [Eh ->]. destruct Hb as [Hc Ht Hp Hl _].
  split; try done. cbn [shm owner fst snd] in *. exists []. rewrite app_nil_r. split_and!; [|done|by constructor].
  split; try done; cbn [hdr with_writeLock]; rewrite ?Eh; try done.
  - split; try done. by destruct Hc; split.
  - pose proof (log_len_nonneg E). lia.
  - intros f Hf1 Hf. assert (f = len E) as -> by lia. rewrite <- H2, <- Eh. apply Hl. rewrite Eh, H2. done.
Qed.

Lemma refines_write m w ps pLast nExtra sz nTruncate isCommit rc w' m' E L P :
  valid_pages (entered_pages ps pLast nExtra) -> 0 <= nExtra -> nExtra = 0 \/ is_Some pLast ->
  (isCommit = false -> Forall (fun p => pgno p <> 1) (entered_pages ps pLast nExtra)) ->
  mxFrame (hdr w) + Z.of_nat (length (entered_pages ps pLast nExtra)) <= MAX_FRAME ->
  index_frames BE w m SQLITE_OK ps pLast nExtra sz nTruncate isCommit = Ret (rc, w', m') ->
  refines {| shm := m; owner := Some w |} E (L, Some P) ->
  exists F, refines {| shm := m'; owner := Some w' |} (E ++ F)
    (if negb (rc =? SQLITE_OK) then (L, Some P)
     else if isCommit then (L ++ P ++ appended (entered_pages ps pLast nExtra), Some [])
     else (L, Some (P ++ appended (entered_pages ps pLast nExtra)))).
Proof using SOK.
  intros Hv Hn Hlast H1 Hmax Ei [Hhd Hcount Hsalt Hh Hlog (F0 & Hwr & HF0 & HF1)]. cbn [shm owner fst snd] in *.
  pose proof (g_count _ _ _ _ Hwr) as Hc. rewrite Hc in Hmax.
  destruct (index_frames_spec w m (E ++ F0) (len E) ps pLast nExtra sz nTruncate isCommit Hwr Hv Hmax Hn Hlast)
    as (rc1 & w1 & m1 & F & Ei1 & Hfrom & Hh1 & Hfail & Hok). rewrite Ei in Ei1. injection Ei1 as <- <- <-.
  destruct (Z.eqb_spec rc SQLITE_OK) as [->|Hrc]; cbn [negb].
  - destruct (Hok eq_refl) as (Hwr1 & HF & Hhd1 & _). pose proof (g_salt _ _ _ _ Hwr1) as Hs1. pose proof (g_count _ _ _ _ Hwr1) as Hc1.
    rewrite <- app_assoc in Hwr1. destruct isCommit.
    + exists (F0 ++ F). assert (len (E ++ F0 ++ F) = mxFrame (hdr w')) as Hl by (by rewrite app_assoc).
      split; cbn [shm owner fst snd]; rewrite ?Hhd1; try done.
      * by rewrite app_assoc.
      * by rewrite !fmap_app, Hlog, HF0, HF.
      * exists []. rewrite app_nil_r. split_and!; [|done|by constructor]. destruct Hwr1 as [? ? ? ? Hm ?]. split; try done.
        -- pose proof (log_len_nonneg (E ++ F0 ++ F)). lia.
        -- intros f Hf1 Hf. apply Hm; [done|]. rewrite log_len_app in *. pose proof (log_len_nonneg (F0 ++ F)). lia.
    + exists []. rewrite app_nil_r. split; cbn [shm owner fst snd]; rewrite ?Hhd1; try done.
      * rewrite <- app_assoc in Hh1. by apply holds_prefix in Hh1.
      * exists (F0 ++ F). split_and!; [done|by rewrite fmap_app, HF0, HF|]. apply Forall_app. split; [done|].
        eapply Forall_impl; [exact Hfrom|]. intros e (p & Hp & ->). specialize (H1 eq_refl). rewrite Forall_forall in H1. auto.
  - destruct (Hfail Hrc) as (Hwr1 & Eh1 & Hhd1). exists []. rewrite app_nil_r. split; cbn [shm owner fst snd]; rewrite ?Hhd1; try done.
    + rewrite <- app_assoc in Hh1. by apply holds_prefix in Hh1.
    + exists F0. done.
Qed.

Lemma refines_step s e s' E a : step s e s' -> refines s E a -> exists a' F, spec_step a e = Some a' /\ refines s' (E ++ F) a'.
Proof using SOK.
  intros Hs Hr. destruct a as [L o]. destruct Hs.
  - pose proof (f_owner _ _ _ Hr) as Ho. destruct o as [P|]; [done|]. exists (L, Some []), []. rewrite app_nil_r.
    split; [done|]. by apply (refines_begin m w).
  - pose proof (f_owner _ _ _ Hr) as Ho. destruct o as [P|]; [|done].
    destruct (refines_write m w ps pLast nExtra sz nTruncate isCommit rc w' m' E L P) as [F HF]; try done.
    eexists _, F. split; [|exact HF]. destruct (rc =? SQLITE_OK); [|done]. by destruct isCommit.
  - destruct Hr as [Hhd Hcount [Hs Hb] Hh Hlog Ho]. cbn [shm owner fst snd] in *. destruct o as [P|]; [|done]. destruct Ho as (F & Hwr & HF & H1).
    destruct (undo_spec xUndo w m E F) as (l1 & w1 & m1 & Eu & Hwr1 & Eh & Hhd1); try done.
    assert (Ret (rc, l, w', m') = Ret (SQLITE_OK, l1, w1, m1)) as Eq by congruence. injection Eq as -> -> -> ->.
    exists (L, Some []), []. rewrite app_nil_r. split; [done|]. split; cbn [shm owner fst snd]; rewrite ?Hhd1; try done.
    + apply (g_holds _ _ _ _ Hwr1).
    + exists []. rewrite app_nil_r. by split_and!.
  - destruct Hr as [Hhd Hcount [Hs Hb] Hh Hlog Ho]. cbn [shm owner fst snd] in *. destruct o as [P|]; [|done]. destruct Ho as (F & Hwr & HF & H1).
    rewrite Hcount in *. set (k := Z.to_nat (frame - len E)).
    destruct (savepoint_return w m E F frame ck Hwr) as (w1 & m1 & Eu & Hwr1 & Hhd1 & _); [done|].
    assert (Ret (rc, sp, w', m') = Ret (SQLITE_OK, (frame, ck, nCkpt w), w1, m1)) as Eq by congruence. injection Eq as -> -> -> ->.
    exists (L, Some (take k P)), []. rewrite app_nil_r. split; [done|]. split; cbn [shm owner fst snd]; rewrite ?Hhd1; try done.
    + pose proof (g_holds _ _ _ _ Hwr1) as Hx. by apply holds_prefix in Hx.
    + exists (take k F). split_and!; [done|by rewrite fmap_take, HF|by apply Forall_take].
  - destruct Hr as [Hhd Hcount [Hs Hb] Hh Hlog Ho]. cbn [shm owner fst snd] in *. destruct o as [P|]; [|done]. destruct Ho as (F & Hwr & HF & H1).
    pose proof (g_count _ _ _ _ Hwr) as Hc. rewrite log_len_app in Hc.
    assert (F = []) as -> by (destruct F; [done|unfold len in *; cbn [length] in *; lia]). cbn in HF. subst P.
    exists (L, None), []. rewrite app_nil_r. split; [done|]. by split.
  - destruct Hr as [Hhd Hcount [Hs Hb] Hh Hlog Ho]. cbn [shm owner fst snd] in *. destruct o as [P|]; [|done].
    exists (L, None), []. rewrite app_nil_r. split; [done|]. by split.
Qed.

Lemma refines_steps s es s' : steps s es s' -> forall E a, refines s E a -> exists a' F, spec_steps a es = Some a' /\ refines s' (E ++ F) a'.
Proof using SOK.
  induction 1 as [s|s e s1 es s2 Hs _ IH]; intros E a Hr; [exists a, []; by rewrite app_nil_r|].
  destruct (refines_step s e s1 E a Hs Hr) as (a1 & F1 & Ea & Hr1). destruct (IH _ _ Hr1) as (a2 & F2 & Ea2 & Hr2).
  exists a2, (F1 ++ F2). cbn [spec_steps]. rewrite Ea, app_assoc. done.
Qed.

(** The memories that the others may have made of the one of [s]. *)
Definition later (s : world) (m : store) : Prop := exists es s', steps s es s' /\ shm s' = m.

Lemma later_holds s E a m : refines s E a -> later s m -> holds m E.
Proof using SOK.
  intros Hr (es & s' & Hs & <-). destruct (refines_steps s es s' Hs E a Hr) as (a' & F & _ & Hr').
  eauto using holds_prefix, f_holds.
Qed.

Lemma steps_app s1 es1 s2 es2 s3 : steps s1 es1 s2 -> steps s2 es2 s3 -> steps s1 (es1 ++ es2) s3.
Proof. induction 1; [done|]. intros. econstructor; eauto. Qed.

Lemma later_trans s es s' m : steps s es s' -> later s' m -> later s m.
Proof. intros Hs (es' & s2 & Hs' & <-). exists (es ++ es'), s2. eauto using steps_app. Qed.

(** What a search without interference comes to. *)
Definition answer (w : Wal) (L : list Z) (p : Z) : Z :=
  if (Z.of_nat (length L) =? 0) || ((readLock w =? 0) && negb (bShmUnreliable w)) then 0 else latest L (minFrame w) p.

Lemma answer_len w E p : answer w E.*1 p =
  if (len E =? 0) || ((readLock w =? 0) && negb (bShmUnreliable w)) then 0 else latest E.*1 (minFrame w) p.
Proof. unfold answer. by rewrite len_fmap. Qed.

Lemma calm_alone m E p : holds m E -> calm E p (fun m' => m' = m).
Proof using SOK.
  intros Hh h Hh0 Hst. destruct (h_table _ _ Hh h Hh0 Hst) as (b & cnt & Hb & T). pose proof (t_cnt _ _ _ _ T). pose proof (cap_range h).
  destruct (free_slot_spec m h b p Hb (t_sized _ _ _ _ T) (Z.to_nat 8191) 0 ltac:(lia)) as [(D & _ & HD & Hz & _)|[_ Hn]].
  - exists D. split; [lia|]. intros m' b' -> Hb'. congruence.
  - pose proof (probe_ends h E b cnt p 8192 T ltac:(lia)) as Hp. exfalso. enough (8192 <= cnt) by lia. apply Hp. intros e He. apply Hn. lia.
Qed.

End Log.

(** ** Theorems *)

(** C29: Alone with the index, a search always returns the frame that a scan of
    the log from its end would find, between [minFrame] and the end of the
    reader's snapshot, or zero; it does not report corruption, and it fails only
    when a page of the index cannot be mapped. *)
Theorem find_frame_is_scan {BD : Build} {SHM : Shm} {SOK : ShmOk} CORRUPT_DB m E w p :
  holds m E -> reader E w -> 0 < p < 2 ^ 32 ->
  exists rc w' m', same w w' /\
    (walFindFrame CORRUPT_DB (fun _ m => m) w m p = Ret (SQLITE_OK, answer w E.*1 p, w', m') \/
     rc <> SQLITE_OK /\ walFindFrame CORRUPT_DB (fun _ m => m) w m p = Ret (rc, 0, w', m')).
Proof.
  intros Hh Hr Hp. rewrite answer_len.
  apply (find_frame_spec CORRUPT_DB (fun _ m => m) E p (fun m' => m' = m) Hp); try done; [by intros ? ->|by apply calm_alone].
Qed.

(** C27: Snapshots are isolated. While a search runs, another connection may begin
    a transaction, write and commit frames, fail, roll back, return to
    savepoints, or die in the middle and leave its entries behind, between any
    two loads of the reader: an answer is always the last frame of the page that
    was committed when the reader began. *)
Theorem snapshot_isolation {BD : Build} {SHM : Shm} {SOK : ShmOk} BE CORRUPT_DB s E L o w m p (env : nat -> store -> store) :
  refines s E (L, o) -> reader E w -> 0 < p < 2 ^ 32 ->
  later BE s m -> (forall n m', later BE s m' -> later BE s (env n m')) ->
  forall iRead w' m', walFindFrame CORRUPT_DB env w m p = Ret (SQLITE_OK, iRead, w', m') -> iRead = answer w L p.
Proof.
  intros Hr Hw Hp Hm Henv iRead w' m'. pose proof (f_log _ _ _ Hr) as HL. cbn [fst] in HL. rewrite HL, answer_len.
  apply (find_frame_spec CORRUPT_DB env E p (later BE s) Hp Henv); try done. intros m0. by apply (later_holds BE s E (L, o)).
Qed.

(** C28: The index refines a log. Whatever sequence of calls connections make,
    one writing at a time, the committed frames are those of an abstract log to
    which only a commit adds, and then exactly the frames that the transaction
    has written and not taken back. And no call of the writer fails an assertion
    or leaves an array: after any such sequence a connection that may write can
    ask to begin, whatever the lock answers; one that writes can set a savepoint,
    return to any of its frames, undo, and write any pages while the log has
    room. *)
Theorem index_refines_log {BD : Build} {SHM : Shm} {SOK : ShmOk} BE s es s' E a :
  refines s E a -> steps BE s es s' ->
  (exists a' F, spec_steps a es = Some a' /\ refines s' (E ++ F) a' /\ a'.1 = a.1 ++ F.*1) /\
  match owner s' with
  | None => forall lock w, may_write w (shm s') -> returns (sqlite3WalBeginWriteTransaction lock w (shm s')) = true
  | Some w =>
    sqlite3WalSavepoint w = Ret (mxFrame (hdr w), aFrameCksum (hdr w), nCkpt w) /\
    (forall frame ck, mxFrame (header (shm s')).1 <= frame <= mxFrame (hdr w) ->
       exists w' m', sqlite3WalSavepointUndo w (shm s') (frame, ck, nCkpt w) = Ret (SQLITE_OK, (frame, ck, nCkpt w), w', m') /\
         mxFrame (hdr w') = frame) /\
    (forall xUndo, (forall p, xUndo p = SQLITE_OK) -> returns (sqlite3WalUndo xUndo w (shm s')) = true) /\
    (forall ps pLast nExtra sz nTruncate isCommit, valid_pages (entered_pages ps pLast nExtra) -> 0 <= nExtra ->
       nExtra = 0 \/ is_Some pLast -> mxFrame (hdr w) + Z.of_nat (length (entered_pages ps pLast nExtra)) <= MAX_FRAME ->
       returns (index_frames BE w (shm s') SQLITE_OK ps pLast nExtra sz nTruncate isCommit) = true)
  end.
Proof.
  intros Hr Hs. destruct (refines_steps BE s es s' Hs E a Hr) as (a' & F & Ea & Hr'). split.
  { exists a', F. split_and!; try done. by rewrite (f_log _ _ _ Hr'), (f_log _ _ _ Hr), fmap_app. }
  destruct Hr' as [_ Hcount [Hs1 Hs2] _ _ Hown]. destruct (owner s') as [w|]; [|intros lock w; apply begin_returns].
  destruct a'.2 as [P|]; [|done]. destruct Hown as (F1 & Hwr & _ & H1). split_and!.
  - unfold sqlite3WalSavepoint. rewrite (w_lock _ _ (g_writer _ _ _ _ Hwr)). by rewrite assert_true.
  - intros frame ck Hf. rewrite Hcount in Hf.
    destruct (savepoint_return w (shm s') (E ++ F) F1 frame ck Hwr Hf) as (w' & m' & Eu & _ & _ & Hx). eauto.
  - intros xUndo Hx. destruct (undo_spec xUndo w (shm s') (E ++ F) F1) as (? & ? & ? & -> & _); done.
  - intros ps pLast nExtra sz nTruncate isCommit Hv Hn Hl Hmax. rewrite (g_count _ _ _ _ Hwr) in Hmax.
    by destruct (index_frames_spec BE w (shm s') _ _ ps pLast nExtra sz nTruncate isCommit Hwr Hv Hmax Hn Hl) as (? & ? & ? & ? & -> & _).
Qed.

(** ** A concrete index *)

Module Demo.

(** Shared memory in which every page can be had. *)
#[export] Instance shared : Shm := {|
  xRealloc _ := true; xMallocZero _ := true; xFaultSim _ := false;
  xShmMap m p wl := match blocks m !! p with
                    | Some _ => (SQLITE_OK, Some p, m)
                    | None => if wl then (SQLITE_OK, Some p, with_block m p zero_block) else (SQLITE_OK, None, m)
                    end |}.
#[export] Instance shared_ok : ShmOk.
Proof.
  intros m p wl rc q m' Hp. cbn. destruct (blocks m !! p) eqn:E; [|destruct wl]; intros [= <- <- <-].
  - split_and!; [by left|intros x [= <-]; eauto|done].
  - split_and!; [by right|intros x [= <-]; cbn; rewrite lookup_insert_eq; eauto|done].
  - split_and!; [by left|done|]. intros _ [[? ?]|?]; done.
Qed.

Definition m0 : store := {| blocks := {[0 := zero_block]}; header := (empty_hdr, empty_hdr) |}.
Definition w0 : Wal :=
  {| apWiData := [Some 0]; szPage := 512; readLock := 1; exclusiveMode := 0; writeLock := false; readOnly := 0;
     bShmUnreliable := false; hdr := empty_hdr; minFrame := 1; iReCksum := 0; nCkpt := 0; iCallback := 0; mxWalSize := -1;
     truncateOnCommit := false; syncHeader := false; padToSectorBoundary := false |}.
Definition page (n v : Z) : PgHdr := {| pgno := n; pData := replicate 512 v; wal_append := true |}.

Definition committing (w : Wal) (m : store) (ps : list PgHdr) : outcome (Z * Wal * store) :=
  index_frames (BD := debug_build) 0 w m SQLITE_OK ps None 0 512 5 true.
Definition run : option (Z * Wal * store) :=
  match committing (with_writeLock w0 true) m0 [page 1 7; page 2 8; page 1 9] with Ret r => Some r | _ => None end.
Definition w1 : Wal := match run with Some (_, w, _) => w | None => w0 end.
Definition m1 : store := match run with Some (_, _, m) => m | None => m0 end.

Lemma run_ok : committing (with_writeLock w0 true) m0 [page 1 7; page 2 8; page 1 9] = Ret (SQLITE_OK, w1, m1).
Proof. vm_compute. reflexivity. Qed.

Lemma conn_w0 : conn w0.
Proof. split; [done|]. intros [|[|i]] p Hp; cbn in Hp; [by injection Hp as <-|done..]. Qed.

Lemma refines_m0 : refines {| shm := m0; owner := None |} [] ([], None).
Proof.
  split; try done; cbn [shm].
  - split; [done|apply bytes_Forall; repeat constructor; lia].
  - split; [done|intros f Hf; change (len []) with 0 in Hf; lia| |intros h Hh Hs; change (len []) with 0 in Hs; pose proof (start_nonneg h Hh); lia].
    intros p b Hb. change (({[0 := zero_block]} : gmap Z block) !! p = Some b) in Hb.
    apply lookup_singleton_Some in Hb as [<- <-]. apply sized_zero.
Qed.

Lemma begin_m0 : step (BD := debug_build) 0 {| shm := m0; owner := None |} Begin {| shm := m0; owner := Some (with_writeLock w0 true) |}.
Proof.
  apply (step_begin 0 m0 w0); [|reflexivity]. pose proof conn_w0. split; try done.
  intros h Hh. assert (h = 0) as ->; [|cbn; by eexists]. unfold mapped in Hh. pose proof (c_ptr _ conn_w0 _ _ Hh) as E.
  apply lookup_lt_Some in Hh. cbn in Hh. lia.
Qed.

Lemma commit_m0 : step (BD := debug_build) 0 {| shm := m0; owner := Some (with_writeLock w0 true) |} (Commit [1; 2; 1]) {| shm := m1; owner := Some w1 |}.
Proof.
  set (ps := [page 1 7; page 2 8; page 1 9]).
  assert (Commit [1; 2; 1] = (if negb (SQLITE_OK =? SQLITE_OK) then Fail
    else if true then Commit (appended (entered_pages ps None 0)) else Write (appended (entered_pages ps None 0)))) as -> by reflexivity.
  refine (step_write 0 m0 (with_writeLock w0 true) ps None 0 512 5 true SQLITE_OK w1 m1 _ _ _ _ _ run_ok).
  - repeat constructor; done.
  - done.
  - by left.
  - done.
  - done.
Qed.

Lemma steps_m1 : steps (BD := debug_build) 0 {| shm := m0; owner := None |} [Begin; Commit [1; 2; 1]] {| shm := m1; owner := Some w1 |}.
Proof. eapply steps_cons; [exact begin_m0|]. eapply steps_cons; [exact commit_m0|]. apply steps_nil. Qed.

(** The transaction goes on with two pages that are spilled. *)
Definition spilling : option (Z * Wal * store) :=
  match index_frames (BD := debug_build) 0 w1 m1 SQLITE_OK [page 3 4; page 2 6] None 0 512 0 false with
  | Ret r => Some r | _ => None end.
Definition w2 : Wal := match spilling with Some (_, w, _) => w | None => w1 end.
Definition m2 : store := match spilling with Some (_, _, m) => m | None => m1 end.

Lemma spilling_ok : index_frames (BD := debug_build) 0 w1 m1 SQLITE_OK [page 3 4; page 2 6] None 0 512 0 false
  = Ret (SQLITE_OK, w2, m2).
Proof. vm_compute. reflexivity. Qed.

Lemma w1_count : mxFrame (hdr w1) = 3.
Proof. vm_compute. reflexivity. Qed.

Lemma write_m1 : step (BD := debug_build) 0 {| shm := m1; owner := Some w1 |} (Write [3; 2]) {| shm := m2; owner := Some w2 |}.
Proof.
  set (ps := [page 3 4; page 2 6]).
  assert (Write [3; 2] = (if negb (SQLITE_OK =? SQLITE_OK) then Fail
    else if false then Commit (appended (entered_pages ps None 0)) else Write (appended (entered_pages ps None 0)))) as -> by reflexivity.
  refine (step_write 0 m1 w1 ps None 0 512 0 false SQLITE_OK w2 m2 _ _ _ _ _ spilling_ok).
  - repeat constructor; done.
  - done.
  - by left.
  - intros _. repeat constructor; done.
  - rewrite w1_count. done.
Qed.

Lemma steps_m2 : steps (BD := debug_build) 0 {| shm := m0; owner := None |} [Begin; Commit [1; 2; 1]; Write [3; 2]]
  {| shm := m2; owner := Some w2 |}.
Proof.
  eapply steps_cons; [exact begin_m0|]. eapply steps_cons; [exact commit_m0|]. eapply steps_cons; [exact write_m1|]. apply steps_nil.
Qed.

Lemma m2_counts : mxFrame (header m2).1 = 3 /\ mxFrame (hdr w2) = 5.
Proof. split; vm_compute; reflexivity. Qed.

(** A reader of the three committed frames. *)
Definition reader1 : Wal := with_hdr w0 (header m1).1.

Lemma reader1_ok E : E.*1 = [1; 2; 1] -> reader E reader1.
Proof.
  intros HE. pose proof conn_w0 as [Hz Hp]. split.
  - by split.
  - rewrite <- len_fmap, HE. vm_compute. reflexivity.
  - done.
  - unfold MAX_FRAME. cbn. lia.
  - done.
Qed.

End Demo.
Import Demo.

Lemma find_frame_is_scan_witness : exists rc iRead,
  match walFindFrame (BD := debug_build) false (fun _ m => m) Demo.reader1 Demo.m1 1 with
  | Ret (c, i, _, _) => c = rc /\ i = iRead /\ (rc = SQLITE_OK -> i = 3) | _ => False end.
Proof.
  destruct (refines_steps (BD := debug_build) 0 _ _ _ Demo.steps_m1 [] ([], None) Demo.refines_m0) as (a & F & Ea & Hr).
  pose proof (f_log _ _ _ Hr) as HL. injection Ea as <-. cbn [app fst] in *. symmetry in HL.
  destruct (find_frame_is_scan (BD := debug_build) false Demo.m1 F Demo.reader1 1 (f_holds _ _ _ Hr) (Demo.reader1_ok F HL))
    as (rc & w' & m' & _ & [->|[Hrc ->]]); [lia|exists SQLITE_OK, 3|exists rc, 0; done].
  rewrite HL. split_and!; try done; reflexivity.
Defined.

Lemma reader1_finds : match walFindFrame (BD := debug_build) false (fun _ m => m) Demo.reader1 Demo.m1 1 with
  Ret (rc, _, _, _) => rc | _ => SQLITE_ERROR end = SQLITE_OK.
Proof. vm_compute. reflexivity. Qed.

Lemma snapshot_isolation_witness : exists w' m',
  walFindFrame (BD := debug_build) false (fun _ m => m) Demo.reader1 Demo.m1 1 = Ret (SQLITE_OK, 3, w', m').
Proof.
  pose proof reader1_finds as Hrc.
  destruct (walFindFrame (BD := debug_build) false (fun _ m => m) Demo.reader1 Demo.m1 1) as [[[[rc iRead] w'] m']| | | |] eqn:Hf; try discriminate Hrc.
  subst rc. exists w', m'.
  destruct (refines_steps (BD := debug_build) 0 _ _ _ Demo.steps_m1 [] ([], None) Demo.refines_m0) as (a & F & Ea & Hr).
  pose proof (f_log _ _ _ Hr) as HL. injection Ea as <-. cbn [app fst] in *. symmetry in HL.
  rewrite (snapshot_isolation (BD := debug_build) 0 false {| shm := m1; owner := Some w1 |} F [1; 2; 1] (Some []) reader1 m1 1
    (fun _ m => m) Hr (reader1_ok F HL)) with (iRead := iRead) (w' := w') (m' := m'); [reflexivity|lia| |done|exact Hf].
  exists [], {| shm := m1; owner := Some w1 |}. split; [apply steps_nil|done].
Defined.

(** The spilled frames are pending; the transaction returns to a savepoint
    between them. *)
Lemma index_refines_log_witness :
  (exists E, refines {| shm := m2; owner := Some w2 |} E ([1; 2; 1], Some [3; 2])) /\
  exists w' m', sqlite3WalSavepointUndo (BD := debug_build) w2 m2 (4, (0, 0), nCkpt w2)
    = Ret (SQLITE_OK, (4, (0, 0), nCkpt w2), w', m').
Proof.
  destruct (index_refines_log (BD := debug_build) 0 {| shm := m0; owner := None |} [Begin; Commit [1; 2; 1]; Write [3; 2]]
    {| shm := m2; owner := Some w2 |} [] ([], None) refines_m0 steps_m2) as [(a & F & Ea & Hr & _) Hw].
  injection Ea as <-. split; [by exists F|]. cbn [owner shm] in Hw. destruct Hw as (_ & Hu & _).
  destruct (Hu 4 (0, 0)) as (w' & m' & Eu & _); [|by exists w', m'].
  destruct m2_counts as [-> ->]. lia.
Defined.
