(* ===== verification/WalRecover.v ===== *)
(** * Recovery of the log

    What [walIndexRecover] makes of the bytes of a file: the frames up to the
    first that is not valid are entered in the index, and the last of them that
    ends a transaction is the end of the log.  [scan] says this of the bytes
    alone. *)

From S2P Require Import Prelude Words Bitvec Chars Page PageSpace PageList PageFill Wal WalFrame WalWrite WalIndex WalFind WalLog.

(** ** The file *)

(** What is documented of reading: after success the buffer has the bytes of the file. *)
Class VfsRead `{Vfs} : Prop := {
  read_bytes file n off buf : 0 <= n -> 0 <= off -> xRead file n off = (SQLITE_OK, buf) ->
    off + n <= Page.len file /\ buf = from_to file off n;
  size_bytes file n : xFileSize file = (SQLITE_OK, n) -> n = Page.len file
}.

Definition frame_hdr (file : list Z) (sz i : Z) : list Z := from_to file (walFrameOffset i sz) WAL_FRAME_HDRSIZE.
Definition frame_data (file : list Z) (sz i : Z) : list Z := from_to file (walFrameOffset i sz + WAL_FRAME_HDRSIZE) sz.

(** The number of whole frames. *)
Definition frames_in (file : list Z) (sz : Z) : Z := (Page.len file - WAL_HDRSIZE) / (sz + WAL_FRAME_HDRSIZE).

(** ** The frames that count *)

(** The header of a log: byte order of the checksums, size of the pages, salt
    and the checksum of the header itself. *)
Record log_header := { g_big : bool; g_size : Z; g_ckpt : Z; g_salt_of : list Z; g_sum : cksum }.

(** A frame on top of a log with checksum [c] is valid, and the checksum with it. *)
Definition next_sum (g : log_header) (file : list Z) (i : Z) (c : cksum) : cksum :=
  frame_sum (g_big g) (g_size g) (frame_data file (g_size g) i) (frame_hdr file (g_size g) i) c.
Definition valid_frame (g : log_header) (file : list Z) (i : Z) (c : cksum) : bool :=
  let h := frame_hdr file (g_size g) i in
  bool_decide (from_to h 8 8 = g_salt_of g) && negb (get4 h 0 =? 0)
  && ((next_sum g file i c).1 =? get4 h 16) && ((next_sum g file i c).2 =? get4 h 20).

(** The last commit: its frame, the size of the database and the checksum there. *)
Record commit := { k_frame : Z; k_pages : Z; k_sum : cksum }.
Definition no_commit : commit := {| k_frame := 0; k_pages := 0; k_sum := (0, 0) |}.

Fixpoint scan (g : log_header) (file : list Z) (n : nat) (i : Z) (c : cksum) (k : commit) : list Z * commit :=
  match n with
  | O => ([], k)
  | S n =>
      if valid_frame g file i c then
        let h := frame_hdr file (g_size g) i in
        let c := next_sum g file i c in
        let k := if get4 h 4 =? 0 then k else {| k_frame := i; k_pages := get4 h 4; k_sum := c |} in
        let '(l, k) := scan g file n (i + 1) c k in (get4 h 0 :: l, k)
      else ([], k)
  end.

(** The header that a file begins with, if it is one. *)
Definition log_header_of (file : list Z) : option log_header :=
  let magic := get4 file 0 in
  let sz := get4 file 8 in
  let g := {| g_big := negb (Z.land magic 1 =? 0); g_size := sz; g_ckpt := get4 file 12; g_salt_of := from_to file 16 8;
              g_sum := sum_pairs (negb (Z.land magic 1 =? 0)) file 0 3 (0, 0) |} in
  if (Z.land magic 0xFFFFFFFE =? WAL_MAGIC) && (Z.land sz (sz - 1) =? 0) && (512 <=? sz) && (sz <=? SQLITE_MAX_PAGE_SIZE)
     && ((g_sum g).1 =? get4 file 24) && ((g_sum g).2 =? get4 file 28)
  then Some g else None.

(** The pages of the committed frames in a file, and the last commit. *)
Definition recovered (file : list Z) : list Z * commit :=
  if Page.len file <=? WAL_HDRSIZE then ([], no_commit)
  else match log_header_of file with
       | None => ([], no_commit)
       | Some g =>
           let '(l, k) := scan g file (Z.to_nat (frames_in file (g_size g))) 1 (g_sum g) no_commit in
           (take (Z.to_nat (k_frame k)) l, k)
       end.

Lemma from_to_twice l p n a k : 0 <= p -> 0 <= a -> 0 <= k -> a + k <= n -> from_to (from_to l p n) a k = from_to l (p + a) k.
Proof.
  intros. unfold from_to. rewrite skipn_firstn_comm, drop_drop, take_take. f_equal; [lia|f_equal; lia].
Qed.

Lemma frame_offset i sz : walFrameOffset (i + 1) sz = walFrameOffset i sz + (sz + 24).
Proof. unfold walFrameOffset, WAL_FRAME_HDRSIZE. lia. Qed.
Lemma frame_offset_range i sz : 1 <= i -> 0 <= sz -> 32 <= walFrameOffset i sz.
Proof. intros. unfold walFrameOffset, WAL_HDRSIZE, WAL_FRAME_HDRSIZE. nia. Qed.

(** ** Pages of the index *)

Section Pages.
Context {BD : Build} {SHM : Shm} {SOK : ShmOk}.

(** A page that is handed out is mapped. *)
Lemma index_page_mapped w m h rc x w' m' : walIndexPage w m h = Ret (rc, Some x, w', m') -> apWiData w' !! Z.to_nat h = Some (Some x).
Proof.
  unfold walIndexPage. destruct (h <? 0); [done|].
  assert (walIndexPageRealloc w m h = Ret (rc, Some x, w', m') -> apWiData w' !! Z.to_nat h = Some (Some x)) as Hreal.
  { unfold walIndexPageRealloc. case_match; [done|]. intros Hr. inv_ret. destruct a0 as [[rc0 w0] m0]. inv_ret.
    match goal with H : default None (apWiData w' !! _) = Some x |- _ => by destruct (apWiData w' !! Z.to_nat h) as [[y|]|]; cbn in H; simplify_eq end. }
  destruct (apWiData w !! Z.to_nat h) as [[p|]|] eqn:E; [by intros [= <- <- <- <-]|done..].
Qed.

Lemma writer_page w m h : writer w m -> 0 <= h ->
  exists rc q w' m', walIndexPage w m h = Ret (rc, q, w', m') /\ same w w' /\ writer w' m' /\ grown m m' h /\
    (forall x, q = Some x -> x = h /\ mapped w' h) /\ (rc = SQLITE_OK -> is_Some q) /\ (h = 0 -> rc = SQLITE_OK).
Proof using SOK.
  intros [Hc Hl Ht Hp] Hh. destruct (index_page w m h Hc Hh) as (rc & q & w' & m' & E & (Hs & Hc' & Hg & Hk & Hb & Hheap & Hok) & Hz); [split; auto|].
  exists rc, q, w', m'. split_and!; try done.
  - split; [done|by rewrite (s_lock _ _ Hs)|..].
    + intros k Hmk. destruct (decide (k = h)) as [->|Hne]; [auto|]. specialize (Hk k Hne Hmk). apply Ht in Hk.
      destruct Hg as [->|[_ ->]]; [done|]. cbn. by rewrite lookup_insert_ne.
    + intros He k Hsk. rewrite (s_excl _ _ Hs) in He. destruct (decide (k = h)) as [->|Hne]; [auto|].
      assert (is_Some (blocks m !! k)) as Hmk.
      { destruct Hg as [->|[_ ->]]; [done|]. cbn in Hsk. by rewrite lookup_insert_ne in Hsk. }
      by apply (s_ptr _ _ Hs), Hp.
  - intros x ->. pose proof (index_page_mapped _ _ _ _ _ _ _ E) as Hx. pose proof (c_ptr _ Hc' _ _ Hx) as ->.
    unfold mapped. rewrite Z2Nat.id in * by lia. done.
  - intros Hrc. destruct (Hok Hrc) as (-> & _). by eexists.
Qed.

End Pages.

(** ** The loops *)

Section Recover.
Context {BD : Build} {SHM : Shm} {SOK : ShmOk} {VFS : Vfs} {VR : VfsRead}.
Variable BE : Z.
Hypothesis HBE : BE = 0 \/ BE = 1.
Variable (file : list Z) (g : log_header).
Let sz := g_size g.
Let N := frames_in file sz.
Hypothesis Hbytes : bytes file.
Hypothesis Hsz : page_size sz.
Hypothesis Hsalt : Page.len (g_salt_of g) = 8 /\ bytes (g_salt_of g).
Hypothesis Hmax : 0 <= N <= MAX_FRAME.

(** The connection in the middle of recovery: it has entered [E]; [k] is the last commit. *)
Record recovering (w : Wal) (m : store) (E : list (Z * Z)) (k : commit) : Prop := {
  v_writer : writer w m;
  v_holds : holds m E;
  v_size : szPage w = sz;
  v_salt : aSalt (hdr w) = g_salt_of g;
  v_big : bigEndCksum (hdr w) = if g_big g then 1 else 0;
  v_commit : mxFrame (hdr w) = k_frame k /\ nPage (hdr w) = k_pages k /\ 0 <= k_frame k <= len E
}.

(** It goes on: [c] is the checksum so far, and the rest of the file follows. *)
Record reading (w : Wal) (m : store) (E : list (Z * Z)) (c : cksum) (k : commit) : Prop := {
  v_ready : ready w m E;
  v_sum : aFrameCksum (hdr w) = c /\ is_cksum c;
  v_scan : scan g file (Z.to_nat N) 1 (g_sum g) no_commit =
    let '(l, k') := scan g file (Z.to_nat (N - len E)) (len E + 1) c k in (E.*1 ++ l, k')
}.

Lemma recovering_log_ok w m E c k : recovering w m E k -> reading w m E c k -> log_ok w.
Proof using Hsz Hsalt.
  intros R [_ [Ec Hc] _]. split.
  - rewrite (v_size _ _ _ _ R). exact Hsz.
  - rewrite (v_salt _ _ _ _ R). apply Hsalt.
  - rewrite (v_salt _ _ _ _ R). apply Hsalt.
  - by rewrite Ec.
  - rewrite (v_big _ _ _ _ R). destruct (g_big g); auto.
Qed.

Lemma recovering_accepts w m E c k i : recovering w m E k -> reading w m E c k ->
  accepts w (frame_data file sz i) (frame_hdr file sz i) = valid_frame g file i c /\
  conn_sum w (frame_data file sz i) (frame_hdr file sz i) = next_sum g file i c.
Proof.
  intros R [_ [Ec _] _].
  assert (conn_sum w (frame_data file sz i) (frame_hdr file sz i) = next_sum g file i c) as Es.
  { unfold conn_sum, next_sum, big_sum. rewrite Ec, (v_size _ _ _ _ R), (v_big _ _ _ _ R). by destruct (g_big g). }
  split; [|done]. unfold accepts, valid_frame. rewrite Es, (v_salt _ _ _ _ R). done.
Qed.

(** A frame that was read is the one in the file. *)
Lemma read_frame i buf : 1 <= i -> xRead file (sz + WAL_FRAME_HDRSIZE) (walFrameOffset i sz) = (SQLITE_OK, buf) ->
  from_to buf WAL_FRAME_HDRSIZE sz = frame_data file sz i /\ from_to buf 0 WAL_FRAME_HDRSIZE = frame_hdr file sz i /\
  Page.len (frame_data file sz i) = sz /\ Page.len (frame_hdr file sz i) = 24 /\ bytes (frame_data file sz i) /\ bytes (frame_hdr file sz i).
Proof using Hbytes Hsz VR.
  intros Hi Hr. destruct Hsz as [Hs _]. pose proof (frame_offset_range i sz Hi ltac:(lia)) as Ho.
  destruct (read_bytes file (sz + WAL_FRAME_HDRSIZE) (walFrameOffset i sz) buf) as [Hin ->]; [unfold WAL_FRAME_HDRSIZE; lia|lia|done|].
  unfold frame_data, frame_hdr, WAL_FRAME_HDRSIZE in *.
  rewrite !from_to_twice, Z.add_0_r by lia. split_and!; try done; try (apply len_from_to; lia); by apply bytes_from_to.
Qed.

Lemma writer_hdr w m h : writer w m -> writer (with_hdr w h) m.
Proof. intros [[] ? ? ?]. by split. Qed.

Lemma next_sum_ok i c : is_cksum c -> is_cksum (next_sum g file i c).
Proof. intros. by apply sum_pairs_range, sum_pairs_range. Qed.

(** What is left to scan when the next frame is valid. *)
Definition step_commit (i : Z) (c : cksum) (k : commit) : commit :=
  let h := frame_hdr file sz i in
  if get4 h 4 =? 0 then k else {| k_frame := i; k_pages := get4 h 4; k_sum := next_sum g file i c |}.

Lemma scan_next w m E c k l : reading w m E c k -> len E < N -> Z.to_nat (N - len E) = S l ->
  scan g file (Z.to_nat N) 1 (g_sum g) no_commit =
  if valid_frame g file (len E + 1) c then
    let '(l, k') := scan g file l (len E + 2) (next_sum g file (len E + 1) c) (step_commit (len E + 1) c k) in
    (E.*1 ++ get4 (frame_hdr file sz (len E + 1)) 0 :: l, k')
  else (E.*1, k).
Proof.
  intros D Hl El. rewrite (v_scan _ _ _ _ _ D), El. cbn [scan]. replace (len E + 1 + 1) with (len E + 2) by lia. unfold step_commit.
  destruct (valid_frame _ _ _ _); [|by rewrite app_nil_r]. fold sz. by destruct (scan _ _ _ _ _ _).
Qed.

(** A valid frame is entered and counts from then on; [h] is the header that the loop leaves. *)
Lemma recovering_next w w' m m' E c k d : let i := len E + 1 in
  recovering w m E k -> reading w m E c k -> len E < N -> valid_frame g file i c = true ->
  same (set_cksum w (next_sum g file i c)) w' -> writer w' m' ->
  holds m' (E ++ [(get4 (frame_hdr file sz i) 0, d)]) -> next_free m' (E ++ [(get4 (frame_hdr file sz i) 0, d)]) ->
  forall h, (aSalt h = aSalt (hdr w') /\ bigEndCksum h = bigEndCksum (hdr w') /\ aFrameCksum h = aFrameCksum (hdr w')) ->
  (if get4 (frame_hdr file sz i) 4 =? 0 then h = hdr w' else mxFrame h = i /\ nPage h = get4 (frame_hdr file sz i) 4) ->
  recovering (with_hdr w' h) m' (E ++ [(get4 (frame_hdr file sz i) 0, d)]) (step_commit i c k) /\
  reading (with_hdr w' h) m' (E ++ [(get4 (frame_hdr file sz i) 0, d)]) (next_sum g file i c) (step_commit i c k).
Proof.
  intros i [Hw Hh Hs1 Hs2 Hs3 (Hc1 & Hc2 & Hc3)] D Hl Hv Hsame Hw' Hh' Hn' h (Ha & Hb & Hc) Hcase. pose proof (s_hdr _ _ Hsame) as Eh. pose proof (log_len_nonneg E).
  assert (len (E ++ [(get4 (frame_hdr file sz i) 0, d)]) = i) as Hlen by (by rewrite log_len_app).
  destruct (v_sum _ _ _ _ _ D) as [Ec Hck]. split; split; rewrite ?Hlen; cbn [hdr with_hdr szPage]; try done.
  - by apply writer_hdr.
  - by rewrite (s_size _ _ Hsame).
  - by rewrite Ha, Eh.
  - by rewrite Hb, Eh.
  - unfold step_commit. destruct (_ =? 0).
    + subst h. rewrite Eh. cbn. split_and!; (done || lia).
    + destruct Hcase as [-> ->]. cbn [k_frame k_pages]. split_and!; (done || lia).
  - by right.
  - rewrite Hc, Eh. split; [done|]. by apply next_sum_ok.
  - rewrite (scan_next w m E c k (Z.to_nat (N - i)) D Hl) by lia. fold i. rewrite Hv.
    replace (len E + 2) with (i + 1) by lia. destruct (scan _ _ _ _ _ _). by rewrite fmap_app, <- app_assoc.
Qed.

Lemma recover_frames_spec h fuel : forall w m E c k iLast rc, recovering w m E k -> reading w m E c k -> mapped w h -> 0 <= h ->
  start h <= len E <= iLast -> iLast <= N -> iLast <= start h + cap h -> iLast - len E < Z.of_nat fuel ->
  rc = SQLITE_OK \/ len E < iLast ->
  exists rc' E' k' w' m', recover_frames BE fuel w m file (len E + 1) iLast rc (k_sum k) sz = Ret (rc', len E' + 1, k_sum k', w', m') /\
    recovering w' m' E' k' /\ mapped w' h /\ header m' = header m /\ len E' <= iLast /\
    (len E' = iLast -> rc' = SQLITE_OK /\ exists c', reading w' m' E' c' k') /\
    (len E' < iLast -> rc' = SQLITE_OK -> scan g file (Z.to_nat N) 1 (g_sum g) no_commit = (E'.*1, k')).
Proof using Hbytes Hsz VR HBE Hsalt Hmax SOK.
  induction fuel as [|fuel IH]; intros w m E c k iLast rc R D Hm Hh0 Hl HN Hcap Hfuel Hrc; [lia|]. cbn [recover_frames].
  pose proof (log_len_nonneg E) as Hl0. unfold MAX_FRAME in Hmax.
  destruct (Z.leb_spec (len E + 1) iLast) as [Hle|Hgt].
  2: { exists rc, E, k, w, m. split_and!; try done; try lia. intros _. split; [|by exists c]. destruct Hrc; [done|lia]. }
  destruct (xRead file _ _) as [rr buf] eqn:Er. destruct (Z.eqb_spec rr SQLITE_OK) as [->|Hrr]; cbn [negb].
  2: { exists rr, E, k, w, m. split_and!; try done; lia. }
  destruct (read_frame (len E + 1) buf ltac:(lia) Er) as (-> & -> & Ld & Lf & Bd & Bf). pose proof (recovering_log_ok w m E c k R D) as Hlog.
  destruct (recovering_accepts w m E c k (len E + 1) R D) as [Ea Es].
  destruct (decode_spec BE HBE w (frame_data file sz (len E + 1)) (frame_hdr file sz (len E + 1)) Hlog Bd Bf) as (w1 & Ed & Eok & Eany); [|done|].
  { by rewrite (v_size _ _ _ _ R). }
  rewrite Ed, Ea. cbn [mbind outcome_bind]. rewrite Ea, Es in *. clear Ed Ea.
  destruct (valid_frame g file (len E + 1) c) eqn:Ev.
  2: { exists SQLITE_OK, E, k, w1, m. split_and!; try done; try lia.
       - destruct Eany as [-> | ->]; [done|]. destruct R as [? ? ? ? ? ?]. split; try done. by apply writer_hdr.
       - by destruct Eany as [-> | ->].
       - intros _ _. rewrite (scan_next w m E c k (Z.to_nat (N - len E - 1)) D), Ev by lia. done. }
  rewrite (Eok eq_refl) in *. clear w1 Eok Eany. set (w1 := set_cksum w (next_sum g file (len E + 1) c)) in *.
  set (p := get4 (frame_hdr file sz (len E + 1)) 0) in *.
  assert (0 < p < 2 ^ 32) as Hp.
  { unfold valid_frame in Ev. rewrite !andb_true_iff, negb_true_iff, Z.eqb_neq in Ev. fold sz p in Ev. pose proof (get4_range (frame_hdr file sz (len E + 1)) 0 Bf). fold p in H. lia. }
  assert (table_of (len E + 1) = h) as Hth by (apply table_of_spec; lia).
  destruct (append_spec w1 m E p) as (rc' & w' & m' & Eapp & Hsame & Hw' & Hhd & HOK & Hcase); try done.
  { apply writer_hdr, (v_writer _ _ _ _ R). } { apply (v_holds _ _ _ _ R). } { apply (v_ready _ _ _ _ _ D). } { unfold MAX_FRAME. lia. }
  rewrite Hth in HOK, Hcase. rewrite (HOK Hm) in *. destruct Hcase as [(? & _)|(_ & Hm' & d & Hh' & Hn')]; [done|].
  rewrite Eapp. cbn [mbind outcome_bind]. unfold NEVER. change (negb (SQLITE_OK =? SQLITE_OK)) with false.
  rewrite (assert_true (negb false)) by done. cbn [mbind outcome_bind].
  pose proof (recovering_next w w' m m' E c k d R D ltac:(lia) Ev Hsame Hw' Hh' Hn') as Hnext. fold p in Hnext.
  assert (len (E ++ [(p, d)]) = len E + 1) as Hlen by (by rewrite log_len_app). rewrite u32_id by lia. unfold step_commit in Hnext.
  destruct (get4 (frame_hdr file sz (len E + 1)) 4 =? 0) eqn:E4; cbn [negb].
  - destruct (Hnext (hdr w') ltac:(done) ltac:(done)) as [R' D']. replace (with_hdr w' (hdr w')) with w' in * by (by destruct w').
    destruct (IH w' m' (E ++ [(p, d)]) _ k iLast SQLITE_OK R' D' Hm') as (rc2 & E2 & k2 & w2 & m2 & Ef & ? & ? & ? & ? & ? & ?); rewrite ?Hlen; try lia.
    rewrite Hlen in Ef. exists rc2, E2, k2, w2, m2. split_and!; try done; congruence.
  - set (hh := with_mxFrame _ _). destruct (Hnext hh ltac:(done) ltac:(done)) as [R' D'].
    assert (aFrameCksum hh = next_sum g file (len E + 1) c) as Ehh by (cbn; by rewrite (s_hdr _ _ Hsame)).
    destruct (IH (with_hdr w' hh) m' (E ++ [(p, d)]) _ _ iLast SQLITE_OK R' D' Hm') as (rc2 & E2 & k2 & w2 & m2 & Ef & ? & ? & ? & ? & ? & ?); rewrite ?Hlen; try lia.
    rewrite Hlen in Ef. cbn [k_sum] in Ef. rewrite Ehh. exists rc2, E2, k2, w2, m2. split_and!; try done; congruence.
Qed.

(** Another page of the index is to be filled in: what the others see of it is replaced by a private block. *)
Lemma recovering_page w m w1 m1 E c k h priv : recovering w m E k -> reading w m E c k -> same w w1 -> writer w1 m1 ->
  grown m m1 h -> mapped w1 h -> 0 <= h -> len E = start h -> sized priv ->
  recovering w1 (with_block m1 h priv) E k /\ reading w1 (with_block m1 h priv) E c k.
Proof.
  intros [Hw Hh Hs1 Hs2 Hs3 Hc] [Hr Hs Hsc] Hsame Hw1 Hg Hm Hh0 Hl Hp. pose proof (s_hdr _ _ Hsame) as Eh. split; split; rewrite ?Eh; try done.
  - apply writer_block; [done|]. by apply (w_there _ _ Hw1).
  - apply holds_update; [by eapply holds_grown|done|lia].
  - by rewrite (s_size _ _ Hsame).
  - right. left. rewrite Hl. by rewrite table_of_start by lia.
Qed.

Lemma last_of_ok h : 0 <= h <= table_of N -> last_of N h = Z.min N (start h + cap h) /\ first_of h = start h + 1.
Proof.
  intros Hh. unfold MAX_FRAME in Hmax. assert (table_of N < 2 ^ 19) by (unfold table_of; apply Z.div_lt_upper_bound; lia).
  unfold last_of, first_of, start, cap. change HASHTABLE_NPAGE_ONE with 4062. unfold HASHTABLE_NPAGE.
  rewrite (u32_id (h * 4096)), u64_id by lia. rewrite u32_id by lia.
  destruct (Z.eqb_spec h 0) as [->|]; [split; [f_equal; lia|done]|].
  rewrite (u32_id (h - 1)), (u32_id ((h - 1) * 4096)), u64_id, u32_id by lia. split; [f_equal|]; lia.
Qed.

Lemma start_before h : 0 <= h <= table_of N -> start h <= N /\ (h <> 0 -> start h < N).
Proof.
  intros Hh. destruct (Z.eq_dec N 0) as [E0|]; [rewrite E0 in *; assert (h = 0) as -> by (change (table_of 0) with 0 in Hh; lia); done|].
  pose proof (table_of_bounds N ltac:(lia)). destruct (Z.eq_dec h (table_of N)) as [->|]; [lia|].
  pose proof (start_mono h (table_of N) ltac:(lia)). pose proof (cap_range h). lia.
Qed.

Lemma recover_pages_spec fuel : forall w m E c k priv h, recovering w m E k -> reading w m E c k -> sized priv ->
  0 <= h <= table_of N + 1 -> len E = Z.min N (start h) -> table_of N + 1 - h < Z.of_nat fuel ->
  exists rc E' k' w' m', recover_pages BE fuel w m file priv h N (table_of N) SQLITE_OK (k_sum k) sz = Ret (rc, k_sum k', w', m') /\
    recovering w' m' E' k' /\ header m' = header m /\
    (rc = SQLITE_OK -> scan g file (Z.to_nat N) 1 (g_sum g) no_commit = (E'.*1, k')).
Proof using Hbytes Hsz VR HBE Hsalt Hmax SOK.
  induction fuel as [|fuel IH]; intros w m E c k priv h R D Hp Hh Hl Hf; [lia|]. cbn [recover_pages].
  pose proof (log_len_nonneg E). assert (0 <= table_of N < 2 ^ 19) as Hbig by (unfold MAX_FRAME in Hmax; unfold table_of; split; [apply Z.div_pos; lia|apply Z.div_lt_upper_bound; lia]).
  destruct (Z.leb_spec h (table_of N)) as [Hle|Hgt].
  2: { exists SQLITE_OK, E, k, w, m. split_and!; try done. intros _. rewrite (v_scan _ _ _ _ _ D).
       assert (len E = N) as ->; [|rewrite Z.sub_diag; change (Z.to_nat 0) with 0%nat; cbn [scan]; by rewrite app_nil_r].
       replace h with (table_of N + 1) in Hl by lia. rewrite start_next in Hl by lia.
       destruct (Z.eq_dec N 0) as [E0|]; [lia|]. pose proof (table_of_bounds N ltac:(lia)). lia. }
  destruct (last_of_ok h ltac:(lia)) as [-> ->]. destruct (start_before h ltac:(lia)) as [Hb1 Hb2].
  destruct (writer_page w m h (v_writer _ _ _ _ R) ltac:(lia)) as (rc & q & w1 & m1 & -> & Hsame & Hw1 & Hg & Hq & Hok & Hz). cbn [mbind outcome_bind].
  rewrite assert_true by (destruct (Z.eqb_spec rc SQLITE_OK); [rewrite bool_decide_true by auto; done|by rewrite orb_true_r]).
  cbn [mbind outcome_bind]. assert (header m1 = header m) as Hhd1 by (by destruct Hg as [->|[_ ->]]).
  destruct q as [x|].
  2: { exists rc, E, k, w1, m1. destruct R as [? ? ? ? ? ?]. split_and!; try done.
       - split; rewrite ?(s_hdr _ _ Hsame), ?(s_size _ _ Hsame); try done. by eapply holds_grown.
       - intros Hrc. by destruct (Hok Hrc). }
  destruct (Hq x eq_refl) as [-> Hm1]. assert (len E = start h) as Est by lia. rewrite <- Est.
  destruct (recovering_page w m w1 m1 E c k h priv R D Hsame Hw1 Hg Hm1) as [R1 D1]; [lia|lia|done|].
  pose proof (cap_range h) as Hcap.
  destruct (recover_frames_spec h (2 + Z.to_nat (Z.min N (len E + cap h) - (len E + 1))) w1 _ E c k (Z.min N (len E + cap h)) rc R1 D1 Hm1)
    as (rc2 & E2 & k2 & w2 & m2 & -> & R2 & Hm2 & Hhd2 & Hl2 & Hfull & Hpart); try lia.
  cbn [mbind outcome_bind]. destruct (w_there _ _ (v_writer _ _ _ _ R2) h Hm2) as [b Hb]. unfold block_of. rewrite Hb. cbn [from_option mbind outcome_bind].
  destruct (Z.leb_spec (len E2 + 1) (Z.min N (len E + cap h))).
  - exists rc2, E2, k2, w2, m2. split_and!; try done; [cbn in Hhd2; congruence|]. apply Hpart. lia.
  - destruct (Hfull ltac:(lia)) as (-> & c2 & D2). rewrite u32_id by lia.
    destruct (IH w2 m2 E2 c2 k2 b (h + 1) R2 D2) as (rc3 & E3 & k3 & w3 & m3 & Ef & R3 & Hhd3 & Hs3); try lia.
    + apply (h_sized _ _ (v_holds _ _ _ _ R2) h b Hb).
    + rewrite start_next by lia. lia.
    + exists rc3, E3, k3, w3, m3. split_and!; try done. cbn in Hhd2. congruence.
Qed.

End Recover.

(** ** The header of the file *)

Lemma header_word file k : 0 <= k <= 28 -> 32 <= Page.len file -> get4 (from_to file 0 32) k = get4 file k.
Proof. intros. apply get4_frame. intros j Hj. by rewrite at_from_to by lia. Qed.

Lemma header_sum file big : 32 <= Page.len file -> sum_pairs big (from_to file 0 32) 0 3 (0, 0) = sum_pairs big file 0 3 (0, 0).
Proof. intros. apply sum_pairs_frame. intros k Hk. by rewrite at_from_to by lia. Qed.

(** A power of two that is large enough is a multiple of 8. *)
Lemma power_of_two sz : 512 <= sz <= 65536 -> Z.land sz (sz - 1) = 0 -> sz mod 8 = 0.
Proof.
  intros Hs Hl. destruct (Z.eq_dec (sz mod 8) 0) as [|Hm]; [done|]. exfalso.
  assert (Z.shiftr (Z.land sz (sz - 1)) 3 = Z.shiftr sz 3) as E.
  { rewrite Z.shiftr_land. replace (Z.shiftr (sz - 1) 3) with (Z.shiftr sz 3) by (rewrite !Z.shiftr_div_pow2 by lia; Z.to_euclidean_division_equations; lia).
    apply Z.land_diag. }
  rewrite Hl, (Z.shiftr_div_pow2 sz) in E by lia. change (Z.shiftr 0 3) with 0 in E. pose proof (Z.div_mod sz (2 ^ 3)). pose proof (Z.mod_pos_bound sz (2 ^ 3)). lia.
Qed.

Lemma land_1 x : Z.land x 1 = 0 \/ Z.land x 1 = 1.
Proof. pose proof (Z.land_ones x 1 ltac:(lia)) as E. change (Z.ones 1) with 1 in E. pose proof (Z.mod_pos_bound x (2 ^ 1)). lia. Qed.

Lemma log_header_inv file g : bytes file -> 32 <= Page.len file -> log_header_of file = Some g ->
  page_size (g_size g) /\ Page.len (g_salt_of g) = 8 /\ bytes (g_salt_of g) /\ is_cksum (g_sum g) /\
  g_size g = get4 file 8 /\ g_salt_of g = from_to file 16 8 /\ g_big g = negb (Z.land (get4 file 0) 1 =? 0) /\ g_ckpt g = get4 file 12.
Proof.
  intros B Hl. unfold log_header_of. set (g0 := Build_log_header _ _ _ _ _). destruct (_ && _) eqn:E; [|done]. intros [= <-].
  rewrite !andb_true_iff, !Z.eqb_eq, !Z.leb_le in E. destruct E as [[[[[_ E1] E2] E3] _] _]. subst g0. cbn [g_size g_salt_of g_sum g_big g_ckpt]. unfold SQLITE_MAX_PAGE_SIZE in *. split_and!; try done.
  - split; [lia|by apply power_of_two].
  - apply len_from_to; lia.
  - by apply bytes_from_to.
  - apply sum_pairs_range; done.
Qed.

(** ** The whole *)

Section Whole.
Context {BD : Build} {SHM : Shm} {SOK : ShmOk} {VFS : Vfs} {VR : VfsRead}.
Variable BE : Z.
Hypothesis HBE : BE = 0 \/ BE = 1.
Variable file : list Z.
Hypothesis Hbytes : bytes file.
(** The frames can be counted, and the size of the page is not one for which the test of the code leaves the range of [int]. *)
Hypothesis Hmax : forall g, log_header_of file = Some g -> frames_in file (g_size g) <= MAX_FRAME.
Hypothesis Hsize : get4 file 8 <> 2 ^ 31.

Lemma holds_nil m : (forall p b, blocks m !! p = Some b -> sized b) -> holds m [].
Proof.
  intros Hs. split; try done.
  - intros f Hf. change (len []) with 0 in Hf. lia.
  - intros h Hh Hst. pose proof (start_nonneg h Hh). change (len []) with 0 in Hst. lia.
Qed.

(** What recovery finds: the entries are those of the valid frames, the header is that of the last commit. *)
Definition found (w : Wal) (m : store) (ck : cksum) : Prop := exists E k, writer w m /\ holds m E /\
  recovered file = (take (Z.to_nat (k_frame k)) E.*1, k) /\ 0 <= k_frame k <= len E /\
  mxFrame (hdr w) = k_frame k /\ nPage (hdr w) = k_pages k /\ ck = k_sum k /\
  Page.len (aSalt (hdr w)) = 8 /\ bytes (aSalt (hdr w)).

Lemma found_nothing w m : writer w m -> (forall p b, blocks m !! p = Some b -> sized b) -> recovered file = ([], no_commit) ->
  mxFrame (hdr w) = 0 -> nPage (hdr w) = 0 -> Page.len (aSalt (hdr w)) = 8 -> bytes (aSalt (hdr w)) -> found w m (0, 0).
Proof.
  intros Hw Hs Hr Hm Hn H1 H2. exists [], no_commit. split_and!; try done. by apply holds_nil.
Qed.

Lemma recover_log_spec w m priv : writer w m -> hdr w = empty_hdr -> (forall p b, blocks m !! p = Some b -> sized b) -> sized priv ->
  32 < Page.len file ->
  exists error rc ck w' m', recover_log BE w m file (Page.len file) priv = Ret (error, rc, ck, w', m') /\
    (error = true -> rc <> SQLITE_OK) /\ (rc = SQLITE_OK -> found w' m' ck).
Proof.
  intros Hw Hhdr Hblk Hpriv Hlen. unfold recover_log. destruct (xRead file WAL_HDRSIZE 0) as [rc buf] eqn:Er.
  destruct (Z.eqb_spec rc SQLITE_OK) as [->|Hrc]; cbn [negb]; [|by eexists _, _, _, _, _].
  destruct (read_bytes file WAL_HDRSIZE 0 buf) as [_ ->]; [done|done|done|]. change WAL_HDRSIZE with 32 in *.
  assert (Page.len (from_to file 0 32) = 32) as Lb by (apply len_from_to; lia). pose proof (bytes_from_to file 0 32 Hbytes) as Bb.
  rewrite !get4byte_ok by (done || lia). cbn [mbind outcome_bind]. rewrite !header_word by lia.
  pose proof (get4_range file 8 Hbytes) as Hr8. set (magic := get4 file 0) in *. set (sz := get4 file 8) in *.
  destruct (_ && (i32 sz =? _)) eqn:Eu.
  { exfalso. apply andb_prop in Eu as [_ Eu%Z.eqb_eq]. unfold i32 in Eu. pose proof (Z.div_mod (sz + 2 ^ 31) (2 ^ 32)). lia. }
  assert (log_header_of file = None -> recovered file = ([], no_commit)) as Hnone.
  { intros En. unfold recovered. change WAL_HDRSIZE with 32. by rewrite (proj2 (Z.leb_gt _ _)), En by lia. }
  assert (log_header_of file = None -> found w m (0, 0)) as Hnone1.
  { intros En. apply found_nothing; rewrite ?Hhdr; auto. apply bytes_Forall. repeat constructor; lia. }
  destruct (_ || (i32 sz <? 512)) eqn:Ecase.
  { eexists false, SQLITE_OK, (0, 0), w, m. split_and!; try done. intros _. apply Hnone1. unfold log_header_of. fold magic sz.
    destruct ((Z.land magic _ =? _) && _ && _ && _ && _ && _) eqn:E; [exfalso|done]. rewrite !andb_true_iff, !Z.leb_le in E. destruct E as [[[[[E1 E2] E3] E4] _] _].
    unfold SQLITE_MAX_PAGE_SIZE in *. rewrite i32_id in Ecase by lia. rewrite E1, E2 in Ecase. cbn [negb orb] in Ecase.
    rewrite orb_true_iff, !Z.ltb_lt in Ecase. lia. }
  rewrite !orb_false_iff, !negb_false_iff, !Z.ltb_ge in Ecase. destruct Ecase as [[[E1 E2] E4] E3]. unfold SQLITE_MAX_PAGE_SIZE in E4.
  assert (i32 sz = sz) as Ei by (unfold i32 in *; pose proof (Z.div_mod (sz + 2 ^ 31) (2 ^ 32)); pose proof (Z.mod_pos_bound (sz + 2 ^ 31) (2 ^ 32)); lia).
  rewrite Ei in *. rewrite from_to_twice by lia. change (0 + 16) with 16.
  set (w1 := with_nCkpt _ _). assert (writer w1 m) as Hw1 by (destruct Hw as [[] ? ? ?]; by split).
  set (big := negb (Z.land magic 1 =? 0)). set (c := sum_pairs big file 0 3 (0, 0)).
  assert (nativeCksum BE w1 = eqb big (negb (BE =? 0))) as Hnative.
  { subst big. change (nativeCksum BE w1) with (Z.land magic 1 =? BE). by destruct HBE as [-> | ->], (land_1 magic) as [-> | ->]. }
  change (32 - 2 * 4) with 24. rewrite (checksum_ok BE big) by (done || lia).
  cbn [mbind outcome_bind default]. change (Z.to_nat (24 / 8)) with 3%nat. rewrite header_sum by lia. fold c.
  assert (writer (set_cksum w1 c) m) as Hw2 by (by apply writer_hdr).
  destruct (negb (c.1 =? _) || negb (c.2 =? _)) eqn:Ec.
  { eexists false, SQLITE_OK, (0, 0), (set_cksum w1 c), m. split_and!; try done. intros _. apply found_nothing; auto.
    - apply Hnone. unfold log_header_of. fold magic sz big c. cbn [g_sum].
      destruct (c.1 =? _), (c.2 =? _); cbn in Ec; try done; by rewrite ?andb_false_r.
    - cbn. by rewrite Hhdr.
    - cbn. by rewrite Hhdr.
    - apply len_from_to; lia.
    - by apply bytes_from_to. }
  destruct (negb (get4 file 4 =? _)); [by eexists _, _, _, _, _|]. destruct (negb (xMalloc _)); [by eexists _, _, _, _, _|].
  set (g := {| g_big := big; g_size := sz; g_ckpt := get4 file 12; g_salt_of := from_to file 16 8; g_sum := c |}).
  assert (log_header_of file = Some g) as Eg.
  { unfold log_header_of. fold magic sz big c. fold g. cbn [g_sum g]. rewrite orb_false_iff, !negb_false_iff in Ec. destruct Ec as [-> ->].
    rewrite E1, E2, (proj2 (Z.leb_le _ _)), (proj2 (Z.leb_le _ _)) by (unfold SQLITE_MAX_PAGE_SIZE; lia). done. }
  destruct (log_header_inv file g Hbytes ltac:(lia) Eg) as (Hsz & Hs1 & Hs2 & Hck & _). cbn [g_size g] in Hsz.
  pose proof (Hmax g Eg) as HN. cbn [g_size g] in HN. unfold WAL_FRAME_HDRSIZE, MAX_FRAME in *.
  assert (Z.quot (Page.len file - 32) (sz + 24) = frames_in file sz) as -> by (rewrite Z.quot_div_nonneg by lia; done).
  set (N := frames_in file sz) in *. assert (0 <= N) as HN0 by (apply Z.div_pos; unfold WAL_HDRSIZE, WAL_FRAME_HDRSIZE; lia).
  destruct (frame_page N) as [Hf [Hc0 Hc1]]; [unfold MAX_FRAME; lia|]. rewrite u32_id, Hf by lia. cbn [mbind outcome_bind]. rewrite u32_id by lia.
  destruct (recover_pages_spec BE HBE file g Hbytes Hsz (conj Hs1 Hs2) (conj HN0 HN) (2 + Z.to_nat (table_of N)) (set_cksum w1 c) m [] c no_commit priv 0)
    as (rc & E & k & w' & m' & Ef & R & Hhd & Hscan).
  - split; try done; [by apply holds_nil|cbn; rewrite Hhdr; done..| |].
    + cbn. subst big. by destruct (land_1 magic) as [-> | ->].
    + cbn. rewrite Hhdr. by split_and!.
  - split; [|by split|].
    + left. cbn. by rewrite Hhdr.
    + change (len []) with 0. rewrite Z.sub_0_r. cbn [g_sum g]. by destruct (scan _ _ _ _ _ _).
  - done.
  - change (0 <= 0 <= table_of N + 1). lia.
  - change (0 = Z.min N 0). lia.
  - change (table_of N + 1 - 0 < Z.of_nat (2 + Z.to_nat (table_of N))). lia.
  - change (recover_pages BE (2 + Z.to_nat (table_of N)) (set_cksum w1 c) m file priv 0 N (table_of N) SQLITE_OK (0, 0) sz = Ret (rc, k_sum k, w', m')) in Ef.
    rewrite Ef. cbn [mbind outcome_bind]. eexists false, rc, (k_sum k), w', m'. split_and!; try done.
    intros Hrc. exists E, k. destruct R as [Hw' Hh' _ Hsalt _ (Hk1 & Hk2 & Hk3)]. split_and!; try done; try lia; try (by rewrite Hsalt).
    unfold recovered. change WAL_HDRSIZE with 32. rewrite (proj2 (Z.leb_gt _ _)), Eg by lia. specialize (Hscan Hrc).
    change (scan g file (Z.to_nat N) 1 (g_sum g) no_commit = (E.*1, k)) in Hscan. cbn [g_size g]. fold N. by rewrite Hscan.
Qed.

End Whole.

(** ** Theorems *)

(** C26: Recovery reads the log that the file says.  Whatever the index held, and
    whatever a crash left in the file, [walIndexRecover] returns; and when it
    reports success the index refines the log of [recovered]: its frames are
    the valid frames of the file up to the last that ends a transaction, the
    header has that commit's frame, size of the database and checksum, and the
    frames behind it, which belong to no transaction that was committed, are
    not part of it. *)
Theorem recovery_refines_file {BD : Build} {SHM : Shm} {SOK : ShmOk} {VFS : Vfs} {VR : VfsRead} BE lock w m file priv :
  BE = 0 \/ BE = 1 -> bytes file -> writer w m -> (forall p b, blocks m !! p = Some b -> sized b) -> sized priv ->
  (forall g, log_header_of file = Some g -> frames_in file (g_size g) <= MAX_FRAME) -> get4 file 8 <> 2 ^ 31 ->
  exists rc w' m', walIndexRecover BE lock w m file priv = Ret (rc, w', m') /\
    (rc = SQLITE_OK ->
     let '(L, k) := recovered file in
     (exists E, E.*1 = L /\ refines {| shm := m'; owner := None |} E (L, None)) /\
     hdr w' = (header m').1 /\ mxFrame (hdr w') = k_frame k /\ nPage (hdr w') = k_pages k /\ aFrameCksum (hdr w') = k_sum k).
Proof.
  intros HBE Hb Hw Hs Hp Hmax Hsz. unfold walIndexRecover. rewrite (w_lock _ _ Hw), (assert_true true) by done. cbn [mbind outcome_bind].
  destruct (Z.eqb_spec lock SQLITE_OK) as [->|]; cbn [negb]; [|by eexists _, _, _].
  destruct (xFileSize file) as [rc n] eqn:Ef. destruct (Z.eqb_spec rc SQLITE_OK) as [->|]; cbn [negb]; [|by eexists _, _, _].
  rewrite (size_bytes _ _ Ef). set (w1 := with_hdr w empty_hdr). assert (writer w1 m) as Hw1 by (by apply writer_hdr).
  assert (exists error rc ck w2 m2,
    (if WAL_HDRSIZE <? Page.len file then recover_log BE w1 m file (Page.len file) priv else Ret (false, SQLITE_OK, (0, 0), w1, m))
    = Ret (error, rc, ck, w2, m2) /\ (error = true -> rc <> SQLITE_OK) /\ (rc = SQLITE_OK -> found file w2 m2 ck))
    as (error & rc & ck & w2 & m2 & -> & Herr & Hfound).
  { destruct (Z.ltb_spec WAL_HDRSIZE (Page.len file)) as [Hl|Hl]; [by apply recover_log_spec|].
    eexists _, _, _, _, _. split_and!; try done. intros _. apply found_nothing; try done.
    - unfold recovered. by rewrite (proj2 (Z.leb_le _ _)) by lia.
    - apply bytes_Forall. repeat constructor; lia. }
  cbn [mbind outcome_bind]. destruct error; [eexists _, _, _; split; [done|]; intros Hrc; by destruct Herr|].
  destruct (Z.eqb_spec rc SQLITE_OK) as [->|]; [|by eexists _, _, _].
  destruct (Hfound eq_refl) as (E & k & Hw2 & Hh2 & Er & Hk & Hmx & Hnp & -> & Hs1 & Hs2).
  assert (writer (set_cksum w2 (k_sum k)) m2) as Hw3 by (by apply writer_hdr).
  destruct (write_hdr_ok BE (set_cksum w2 (k_sum k)) m2 (w_conn _ _ Hw3) (w_lock _ _ Hw3)) as (h & -> & E1 & E2 & E3 & E4 & _); [done..|].
  cbn [mbind outcome_bind]. eexists _, _, _. split; [reflexivity|]. intros _. rewrite Er. cbn in E1, E2, E3, E4. split_and!; try done.
  2-3: cbn; congruence.
  exists (take (Z.to_nat (k_frame k)) E). split; [apply fmap_take|]. split; cbn [shm owner header fst snd]; try done.
  - rewrite E1, Hmx. unfold len in *. rewrite length_take. lia.
  - by rewrite E4.
  - apply (holds_prefix _ _ (drop (Z.to_nat (k_frame k)) E)). rewrite take_drop. by destruct Hh2; split.
  - symmetry. apply fmap_take.
Qed.

(** ** A concrete file *)

Module LogFile.
Import Demo.

Definition put_file (f c : list Z) (o : Z) : list Z :=
  Page.store (f ++ replicate (Z.to_nat (o + Page.len c) - length f) 0) o c.
#[export] Instance disk : Vfs := {|
  xWrite f c o := (SQLITE_OK, put_file f c o); xSync _ _ := SQLITE_OK;
  xRead f n o := if Page.len f <? o + n then (522, replicate (Z.to_nat n) 0) else (SQLITE_OK, from_to f o n);
  xFileSize f := (SQLITE_OK, Page.len f); xTruncate f n := (SQLITE_OK, take (Z.to_nat n) f);
  xSectorSize := 512; xMalloc _ := true; xRandomness := [1; 2; 3; 4; 5; 6; 7; 8] |}.
#[export] Instance disk_read : VfsRead.
Proof.
  split; [|by intros ? ? [= <-]]. intros f n o buf Hn Ho. cbn. destruct (Z.ltb_spec (Page.len f) (o + n)); [done|]. by intros [= <-].
Qed.

Definition frames (w : Wal) (m : store) (f : list Z) (ps : list PgHdr) (nTruncate : Z) : outcome (Z * Wal * store * list Z) :=
  walFrames (BD := debug_build) (SHM := Demo.shared) true 0 (fun n => replicate (Z.to_nat n) 0) (fun w m => (SQLITE_OK, w, m))
    w m f 512 ps nTruncate (negb (nTruncate =? 0)) 0.
Abbreviation recover := (walIndexRecover (BD := debug_build) (SHM := Demo.shared) 0 SQLITE_OK).
Definition writer0 : Wal := with_writeLock Demo.w0 true.

(** Two pages in an empty log. *)
Definition run : outcome (Z * Wal * store * list Z) := frames writer0 Demo.m0 [] [Demo.page 1 7; Demo.page 2 8] 2.
Definition file2 : list Z := match run with Ret (_, _, _, f) => f | _ => [] end.
Definition writer2 : Wal := match run with Ret (_, w, _, _) => w | _ => writer0 end.
Definition m2 : store := match run with Ret (_, _, m, _) => m | _ => Demo.m0 end.
Lemma run_two : exists w m f, walFrames (BD := debug_build) (SHM := Demo.shared) true 0 (fun n => replicate (Z.to_nat n) 0) (fun w m => (SQLITE_OK, w, m))
  writer0 Demo.m0 [] 512 [Demo.page 1 7; Demo.page 2 8] 2 true 0 = Ret (SQLITE_OK, w, m, f) /\ mxFrame (header m).1 = 2 /\ f = file2.
Proof. exists writer2, m2, file2. split; [vm_compute; reflexivity|]. split; [vm_compute; reflexivity|done]. Qed.

End LogFile.
Import Demo LogFile.

Lemma file2_bytes : bytes LogFile.file2.
Proof. apply bytes_Forall. vm_compute. repeat (constructor; [split; done|]). constructor. Qed.
Lemma file2_frames g : log_header_of LogFile.file2 = Some g -> frames_in LogFile.file2 (g_size g) <= MAX_FRAME.
Proof.
  intros Hg. assert (from_option g_size 0 (log_header_of LogFile.file2) = 512) as Hs by (vm_compute; reflexivity). rewrite Hg in Hs. cbn in Hs. rewrite Hs.
  assert (frames_in LogFile.file2 512 = 2) as -> by (vm_compute; reflexivity). unfold MAX_FRAME. lia.
Qed.
Lemma file2_size : get4 LogFile.file2 8 = 512.
Proof. vm_compute. reflexivity. Qed.
Lemma file2_len : Page.len LogFile.file2 = 1104.
Proof. vm_compute. reflexivity. Qed.
Lemma file2_log : (recovered LogFile.file2).1 = [1; 2].
Proof. vm_compute. reflexivity. Qed.
Lemma file2_recovers : match LogFile.recover LogFile.writer0 Demo.m0 LogFile.file2 zero_block with Ret (rc, _, _) => rc | _ => SQLITE_ERROR end = SQLITE_OK.
Proof. vm_compute. reflexivity. Qed.

Lemma writer0_ok : writer LogFile.writer0 Demo.m0.
Proof.
  pose proof Demo.conn_w0 as Hc. split; [by destruct Hc; split|done|..|done].
  intros h Hh. assert (h = 0) as ->; [|cbn; by eexists]. unfold mapped in Hh. pose proof (c_ptr _ Hc _ _ Hh) as Ep.
  apply lookup_lt_Some in Hh. cbn in Hh. lia.
Qed.
Lemma m0_sized p b : blocks Demo.m0 !! p = Some b -> sized b.
Proof.
  intros Hb. change (({[0 := zero_block]} : gmap Z block) !! p = Some b) in Hb.
  apply lookup_singleton_Some in Hb as [<- <-]. apply sized_zero.
Qed.

Lemma recovery_refines_file_witness : exists w' m',
  LogFile.recover LogFile.writer0 Demo.m0 LogFile.file2 zero_block = Ret (SQLITE_OK, w', m') /\
  exists E, E.*1 = [1; 2] /\ refines {| shm := m'; owner := None |} E ([1; 2], None).
Proof.
  pose proof file2_recovers as Hrc. pose proof file2_log as Hlog. pose proof file2_size as Hsz.
  destruct (recovery_refines_file (BD := debug_build) (SHM := Demo.shared) 0 SQLITE_OK LogFile.writer0 Demo.m0 LogFile.file2 zero_block
    (or_introl eq_refl) file2_bytes writer0_ok m0_sized sized_zero file2_frames) as (rc & w' & m' & E & Hok).
  { rewrite Hsz. lia. }
  rewrite E in Hrc. subst rc. exists w', m'. split; [exact E|]. specialize (Hok eq_refl).
  destruct (recovered LogFile.file2) as [L k]. cbn [fst] in Hlog. subst L. exact (proj1 Hok).
Defined.

(** A rollback to a savepoint can lose a transaction that commits later.
    After a commit of two frames, a transaction writes pages 3 and 4, writes
    page 4 again over its frame, goes back to its savepoint and commits one
    page.  Every call reports success, and the header says three frames; but
    [iReCksum] still names frame 4, so frame 3 was written without salt and
    checksum, and recovery ends at frame 2. *)
Example savepoint_loses_commit : exists f w w' m',
  (let step w m f ps n k := '(rc, w, m, f) ← LogFile.frames w m f ps n; _ ← assert_ (H := debug_build) (rc =? SQLITE_OK); k w m f in
   step LogFile.writer0 Demo.m0 [] [Demo.page 1 11; Demo.page 2 12] 2 (fun w m f =>
   sp ← sqlite3WalSavepoint (BD := debug_build) w;
   step w m f [Demo.page 3 13] 0 (fun w m f =>
   step w m f [Demo.page 4 14] 0 (fun w m f =>
   step w m f [Demo.page 4 24] 0 (fun w m f =>
   '(rc, _, w, m) ← sqlite3WalSavepointUndo (BD := debug_build) w m sp; _ ← assert_ (H := debug_build) (rc =? SQLITE_OK);
   step w m f [Demo.page 1 15] 5 (fun w m f =>
   '(rc, w', m') ← LogFile.recover w m f zero_block; _ ← assert_ (H := debug_build) (rc =? SQLITE_OK);
   Ret (f, w, w', m'))))))) = Ret (f, w, w', m') /\
  mxFrame (hdr w) = 3 /\ nPage (hdr w) = 5 /\ iReCksum w = 0 /\
  mxFrame (header m').1 = 2 /\ nPage (header m').1 = 2 /\ (recovered f).1 = [1; 2].
Proof. eexists _, _, _, _. split; [vm_compute; reflexivity|]. vm_compute. split_and!; reflexivity. Qed.
