(* ===== verification/WalDurable.v ===== *)
(** * What a commit leaves in the file

    [walFrames] appends the pages of a transaction to the log; after a commit
    the file says so by itself: whatever is written behind it later, and however
    much of that a crash leaves, recovery finds the frames up to this commit. *)

From S2P Require Import Prelude Words Bitvec Chars Page PageSpace PageList PageFill Wal WalFrame WalWrite WalIndex WalFind WalLog WalRecover.

(** ** The file *)

(** What is documented of writing: success puts the bytes in place, also when
    they go over the end; truncation leaves a prefix or nothing changed; random
    numbers are bytes. *)
Class VfsWrite `{Vfs} : Prop := {
  write_bytes file c off file' : 0 <= off <= Page.len file -> xWrite file c off = (SQLITE_OK, file') -> file' = Page.store file off c;
  truncate_bytes file n : 0 <= n <= Page.len file -> (xTruncate file n).2 = file \/ (xTruncate file n).2 = from_to file 0 n;
  random_bytes : Page.len xRandomness = 8 /\ bytes xRandomness
}.

(** Two files with the same first [n] bytes. *)
Definition agree (n : Z) (f f' : list Z) : Prop := n <= Page.len f /\ n <= Page.len f' /\ from_to f 0 n = from_to f' 0 n.

Lemma agree_from_to n f f' p k : agree n f f' -> 0 <= p -> 0 <= k -> p + k <= n -> from_to f p k = from_to f' p k.
Proof.
  intros (_ & _ & E) Hp Hk Hn. pose proof (from_to_twice f 0 n p k) as H1. pose proof (from_to_twice f' 0 n p k) as H2.
  rewrite Z.add_0_l in H1, H2. by rewrite <- H1, <- H2, E by lia.
Qed.

Lemma agree_less n k f f' : agree n f f' -> 0 <= k <= n -> agree k f f'.
Proof. intros A Hk. pose proof A as (? & ? & _). split_and!; [lia..|]. apply (agree_from_to n); (done || lia). Qed.

Lemma agree_trans n f g h : agree n f g -> agree n g h -> agree n f h.
Proof. intros (? & ? & E) (? & ? & E'). split_and!; try done. congruence. Qed.

Lemma from_to_app_here l c r k : Z.of_nat (length l) = k -> from_to (l ++ c ++ r) k (Page.len c) = c.
Proof.
  intros <-. unfold from_to, Page.len. rewrite !Nat2Z.id, drop_app_length. apply take_app_length.
Qed.

Lemma len_store_end f off c : 0 <= off <= Page.len f -> Page.len (Page.store f off c) = Z.max (Page.len f) (off + Page.len c).
Proof. unfold Page.len, Page.store. intros. rewrite !length_app, length_take, length_drop. unfold Page.len in *. lia. Qed.

Lemma store_here f off c : 0 <= off <= Page.len f -> from_to (Page.store f off c) off (Page.len c) = c.
Proof. intros. unfold Page.store. apply from_to_app_here. rewrite length_take. unfold Page.len in *. lia. Qed.

Lemma store_before f off c : 0 <= off <= Page.len f -> agree off f (Page.store f off c).
Proof.
  intros. pose proof (len_store_end f off c H). split_and!; [lia|unfold Page.len in *; lia|].
  unfold from_to, Page.store. rewrite !drop_0. rewrite take_app_le by (rewrite length_take; unfold Page.len in *; lia). by rewrite take_take, Nat.min_id.
Qed.

Lemma store_store f off c d : 0 <= off <= Page.len f -> Page.store (Page.store f off c) (off + Page.len c) d = Page.store f off (c ++ d).
Proof.
  intros H. assert (length (take (Z.to_nat off) f) = Z.to_nat off) as Hl by (rewrite length_take; unfold Page.len in *; lia).
  unfold Page.store at 1 3. rewrite Z2Nat.inj_add by (unfold Page.len in *; lia). unfold Page.len at 1 2. rewrite Nat2Z.id.
  assert (take (Z.to_nat off + length c) (Page.store f off c) = take (Z.to_nat off) f ++ c) as ->.
  { unfold Page.store. rewrite app_assoc. rewrite take_app_length'; [done|]. rewrite length_app, Hl. done. }
  rewrite <- !app_assoc. do 3 f_equal. unfold Page.store. rewrite drop_app, Hl, (drop_ge (take _ _)) by lia. cbn [app].
  rewrite drop_app, (drop_ge c) by lia. cbn [app]. rewrite drop_drop, length_app. f_equal. lia.
Qed.

Lemma bytes_store_end f off c : 0 <= off <= Page.len f -> bytes f -> bytes c -> bytes (Page.store f off c).
Proof.
  intros H Bf Bc. unfold Page.store. pose proof (bytes_from_to f 0 off Bf) as B1. unfold from_to in B1. rewrite drop_0 in B1.
  apply bytes_app; [done|]. apply bytes_app; [done|]. intros k. unfold Page.at_. rewrite nth_lookup, lookup_drop, <- nth_lookup.
  rewrite <- (Nat2Z.id (_ + _)). apply Bf.
Qed.

(** ** Frames that are all valid *)

(** The pages of [n] valid frames from [i] on, the checksum behind them and the last commit. *)
Fixpoint run (g : log_header) (file : list Z) (n : nat) (i : Z) (c : cksum) (k : commit) : option (list Z * cksum * commit) :=
  match n with
  | O => Some ([], c, k)
  | S n =>
      if valid_frame g file i c then
        '(l, c', k') ← run g file n (i + 1) (next_sum g file i c) (step_commit file g i c k);
        Some (get4 (frame_hdr file (g_size g) i) 0 :: l, c', k')
      else None
  end.

Section Run.
Variables (g : log_header) (file : list Z).

Lemma run_scan n r : forall i c k l c' k', run g file n i c k = Some (l, c', k') ->
  scan g file (n + r) i c k = let '(l2, k2) := scan g file r (i + Z.of_nat n) c' k' in (l ++ l2, k2).
Proof.
  induction n as [|n IH]; intros i c k l c' k' Hr; cbn [run Nat.add scan] in *.
  - injection Hr as <- <- <-. replace (i + Z.of_nat 0) with i by lia. by destruct (scan g file r i c k).
  - destruct (valid_frame g file i c); [|done].
    destruct (run g file n (i + 1) _ _) as [[[l1 c1] k1]|] eqn:E; [|done]. cbn [mbind option_bind] in Hr. injection Hr as <- <- <-.
    specialize (IH _ _ _ _ _ _ E). unfold step_commit in IH. rewrite IH. replace (i + 1 + Z.of_nat n) with (i + Z.of_nat (S n)) by lia.
    by destruct (scan g file r (i + Z.of_nat (S n)) c1 k1).
Qed.

Lemma run_app n r : forall i c k l c' k', run g file n i c k = Some (l, c', k') ->
  run g file (n + r) i c k = '(l2, c2, k2) ← run g file r (i + Z.of_nat n) c' k'; Some (l ++ l2, c2, k2).
Proof.
  induction n as [|n IH]; intros i c k l c' k' Hr; cbn [run Nat.add] in *.
  - injection Hr as <- <- <-. replace (i + Z.of_nat 0) with i by lia. by destruct (run g file r i c k) as [[[? ?] ?]|].
  - destruct (valid_frame g file i c); [|done].
    destruct (run g file n (i + 1) _ _) as [[[l1 c1] k1]|] eqn:E; [|done]. cbn [mbind option_bind] in Hr. injection Hr as <- <- <-.
    rewrite (IH _ _ _ _ _ _ E). replace (i + 1 + Z.of_nat n) with (i + Z.of_nat (S n)) by lia.
    by destruct (run g file r (i + Z.of_nat (S n)) c1 k1) as [[[? ?] ?]|].
Qed.

Lemma run_length n : forall i c k l c' k', run g file n i c k = Some (l, c', k') -> length l = n.
Proof.
  induction n as [|n IH]; intros i c k l c' k' Hr; cbn [run] in Hr; [by injection Hr as <-|].
  destruct (valid_frame g file i c); [|done].
  destruct (run g file n (i + 1) _ _) as [[[l1 c1] k1]|] eqn:E; [|done]. cbn [mbind option_bind] in Hr. injection Hr as <- <- <-.
  cbn. by rewrite (IH _ _ _ _ _ _ E).
Qed.

Lemma run_sum n : forall i c k l c' k', is_cksum c -> run g file n i c k = Some (l, c', k') -> is_cksum c'.
Proof.
  induction n as [|n IH]; intros i c k l c' k' Hc Hr; cbn [run] in Hr; [by injection Hr as _ <- _|].
  destruct (valid_frame g file i c); [|done].
  destruct (run g file n (i + 1) _ _) as [[[l1 c1] k1]|] eqn:E; [|done]. cbn [mbind option_bind] in Hr. injection Hr as _ <- _.
  refine (IH _ _ _ _ _ _ _ E). by apply next_sum_ok.
Qed.

(** A later commit in the rest of the file. *)
Lemma scan_commit n : forall i c k l k', scan g file n i c k = (l, k') -> k' = k \/ i <= k_frame k' < i + Z.of_nat (length l).
Proof.
  induction n as [|n IH]; intros i c k l k' Hs; cbn [scan] in Hs; [left; congruence|].
  destruct (valid_frame g file i c); [|left; congruence].
  destruct (scan g file n (i + 1) _ _) as [l1 k1] eqn:E. injection Hs as <- <-.
  destruct (IH _ _ _ _ _ E) as [->|Hk]; [|right; cbn [length]; lia].
  destruct (get4 (frame_hdr file (g_size g) i) 4 =? 0); [by left|right; cbn [length k_frame]; lia].
Qed.

Lemma scan_short n : forall i c k l k', scan g file n i c k = (l, k') -> (length l <= n)%nat.
Proof.
  induction n as [|n IH]; intros i c k l k' Hs; cbn [scan] in Hs; [by injection Hs as <- _|].
  destruct (valid_frame g file i c); [|injection Hs as <- _; cbn; lia].
  destruct (scan g file n (i + 1) _ _) as [l1 k1] eqn:E. injection Hs as <- _. apply IH in E. cbn. lia.
Qed.

End Run.

Lemma run_agree g f f' n : 0 <= g_size g -> forall i c k, 1 <= i -> agree (walFrameOffset (i + Z.of_nat n) (g_size g)) f f' ->
  run g f' n i c k = run g f n i c k.
Proof.
  intros Hsz. induction n as [|n IH]; intros i c k Hi A; cbn [run]; [done|].
  pose proof (frame_offset_range i (g_size g) Hi Hsz) as Ho. pose proof (frame_offset i (g_size g)) as Hn.
  assert (walFrameOffset (i + 1) (g_size g) <= walFrameOffset (i + Z.of_nat (S n)) (g_size g)) as Hle by (unfold walFrameOffset, WAL_FRAME_HDRSIZE; nia).
  assert (frame_hdr f' (g_size g) i = frame_hdr f (g_size g) i /\ frame_data f' (g_size g) i = frame_data f (g_size g) i) as [Eh Ed].
  { unfold frame_hdr, frame_data, WAL_FRAME_HDRSIZE. split; symmetry; apply (agree_from_to _ _ _ _ _ A); lia. }
  assert (forall c, next_sum g f' i c = next_sum g f i c) as En by (intros; unfold next_sum; by rewrite Eh, Ed).
  assert (valid_frame g f' i c = valid_frame g f i c) as -> by (unfold valid_frame; by rewrite Eh, En).
  assert (step_commit f' g i c k = step_commit f g i c k) as -> by (unfold step_commit; by rewrite Eh, En).
  rewrite Eh, En. destruct (valid_frame g f i c); [|done]. rewrite IH; [done|lia|].
  by replace (i + 1 + Z.of_nat n) with (i + Z.of_nat (S n)) by lia.
Qed.

(** ** A file that holds a log *)

Record logged (g : log_header) (file : list Z) (n : Z) (L : list Z) (c : cksum) (k : commit) : Prop := {
  lg_head : log_header_of file = Some g;
  lg_run : run g file (Z.to_nat n) 1 (g_sum g) no_commit = Some (L, c, k);
  lg_len : 0 <= n /\ walFrameOffset (n + 1) (g_size g) <= Page.len file;
  lg_bytes : bytes file
}.

Lemma logged_len g file n L c k : logged g file n L c k -> 32 <= Page.len file /\ page_size (g_size g) /\ Z.of_nat (length L) = n /\ is_cksum c.
Proof.
  intros [Hh Hr [Hn Hl] Hb]. assert (32 <= Page.len file) as H32.
  { destruct (Z_lt_le_dec (Page.len file) 32) as [Hlt|]; [|done]. exfalso. assert (0 <= g_size g) as Hs.
    { unfold log_header_of in Hh. set (g0 := Build_log_header _ _ _ _ _) in Hh. destruct (_ && _) in Hh; [|done].
      injection Hh as <-. cbn. pose proof (get4_range file 8 Hb). lia. }
    pose proof (frame_offset_range (n + 1) (g_size g) ltac:(lia) Hs). lia. }
  destruct (log_header_inv file g Hb H32 Hh) as (Hps & _ & _ & Hc & _). split_and!; try done.
  - rewrite (run_length _ _ _ _ _ _ _ _ _ Hr). lia.
  - by apply (run_sum _ _ _ _ _ _ _ _ _ Hc Hr).
Qed.

(** The header of the log is in the first 32 bytes. *)
Lemma log_header_agree f f' : agree 32 f f' -> log_header_of f' = log_header_of f.
Proof.
  intros A. assert (forall k, 0 <= k <= 28 -> get4 f' k = get4 f k) as E.
  { intros k Hk. destruct A as (H1 & H2 & A). rewrite <- (header_word f k), <- (header_word f' k) by lia. by rewrite A. }
  unfold log_header_of. rewrite !E by lia.
  assert (from_to f' 16 8 = from_to f 16 8) as -> by (symmetry; apply (agree_from_to _ _ _ _ _ A); lia).
  assert (forall b, sum_pairs b f' 0 3 (0, 0) = sum_pairs b f 0 3 (0, 0)) as Es.
  { intros b. destruct A as (H1 & H2 & A). by rewrite <- (header_sum f b), <- (header_sum f' b), A by lia. }
  by rewrite Es.
Qed.

(** A log survives what is written behind it. *)
Lemma logged_agree g f f' n L c k : logged g f n L c k -> agree (walFrameOffset (n + 1) (g_size g)) f f' -> bytes f' -> logged g f' n L c k.
Proof.
  intros Hlg A Hb. destruct (logged_len _ _ _ _ _ _ Hlg) as (Hl & [Hs _] & _). destruct Hlg as [Hh Hr [Hn Hlen] _].
  pose proof (frame_offset_range (n + 1) (g_size g) ltac:(lia) ltac:(lia)) as Ho. split; try done.
  - rewrite (log_header_agree f f'); [done|]. apply (agree_less _ _ _ _ A). lia.
  - rewrite (run_agree g f f'); [done|lia|lia|]. by replace (1 + Z.of_nat (Z.to_nat n)) with (n + 1) by lia.
  - by destruct A as (_ & ? & _).
Qed.

(** Recovery finds it. *)
Lemma logged_recovered g file n L c k : logged g file n L c k -> k_frame k <= n ->
  exists L' k', recovered file = (L', k') /\
    (k' = k /\ L' = take (Z.to_nat (k_frame k)) L \/ n < k_frame k' /\ exists l, L' = L ++ l) /\
    (Page.len file < walFrameOffset (n + 2) (g_size g) -> k' = k).
Proof.
  intros Hlg Hk. destruct (logged_len _ _ _ _ _ _ Hlg) as (Hl & [Hs _] & HL & _). destruct Hlg as [Hh Hr [Hn Hlen] _].
  unfold recovered. change WAL_HDRSIZE with 32. destruct (Z.leb_spec (Page.len file) 32) as [Hle|Hgt].
  - pose proof (frame_offset_range (n + 1) (g_size g) ltac:(lia) ltac:(lia)). assert (n = 0) as -> by (unfold walFrameOffset, WAL_HDRSIZE, WAL_FRAME_HDRSIZE in *; nia).
    cbn in Hr. injection Hr as <- _ <-. eexists _, _. split; [done|]. split; [|done]. left. by rewrite take_nil.
  - rewrite Hh. set (N := frames_in file (g_size g)).
    assert (n <= N) as HnN by (unfold N, frames_in; apply Z.div_le_lower_bound; unfold walFrameOffset, WAL_HDRSIZE, WAL_FRAME_HDRSIZE in *; lia).
    replace (Z.to_nat N) with (Z.to_nat n + Z.to_nat (N - n))%nat by lia. rewrite (run_scan _ _ _ _ _ _ _ _ _ _ Hr).
    destruct (scan g file (Z.to_nat (N - n)) _ c k) as [l2 k2] eqn:Esc. eexists _, _. split; [done|].
    destruct (scan_commit _ _ _ _ _ _ _ _ Esc) as [->|Hk2]; split.
    + left. split; [done|]. rewrite take_app_le by lia. done.
    + done.
    + right. split; [lia|]. exists (take (Z.to_nat (k_frame k2) - length L) l2). rewrite take_app, take_ge by lia. done.
    + intros Hend. exfalso. apply scan_short in Esc. assert (N < n + 1) by (unfold N, frames_in; apply Z.div_lt_upper_bound; unfold walFrameOffset, WAL_HDRSIZE, WAL_FRAME_HDRSIZE in *; lia).
      assert (length l2 = 0%nat) by lia. lia.
Qed.

(** ** Appending a frame *)

(** A connection and the log it writes have the same parameters. *)
Definition speaks (g : log_header) (w : Wal) : Prop :=
  szPage w = g_size g /\ aSalt (hdr w) = g_salt_of g /\ bigEndCksum (hdr w) = if g_big g then 1 else 0.

Lemma accepts_valid g w file i : speaks g w ->
  accepts w (frame_data file (g_size g) i) (frame_hdr file (g_size g) i) = valid_frame g file i (aFrameCksum (hdr w)) /\
  conn_sum w (frame_data file (g_size g) i) (frame_hdr file (g_size g) i) = next_sum g file i (aFrameCksum (hdr w)).
Proof.
  intros (E1 & E2 & E3).
  assert (conn_sum w (frame_data file (g_size g) i) (frame_hdr file (g_size g) i) = next_sum g file i (aFrameCksum (hdr w))) as Es.
  { unfold conn_sum, next_sum, big_sum. rewrite E1, E3. by destruct (g_big g). }
  split; [|done]. unfold accepts, valid_frame. rewrite Es, E2. done.
Qed.

Lemma speaks_set_cksum g w c : speaks g w -> speaks g (set_cksum w c).
Proof. by destruct 1 as (? & ? & ?). Qed.

Lemma from_to_all l n : n = Page.len l -> from_to l 0 n = l.
Proof. intros ->. unfold from_to, Page.len. rewrite drop_0, take_ge; [done|lia]. Qed.

(** A page that can be written. *)
Definition good_page (sz : Z) (p : PgHdr) : Prop := 0 < pgno p < 2 ^ 32 /\ Page.len (pData p) = sz /\ bytes (pData p).

Section Write.
Context {BD : Build} {SHM : Shm} {VFS : Vfs} {VW : VfsWrite}.
Variable BE : Z.
Hypothesis HBE : BE = 0 \/ BE = 1.
Variable garbage : Z -> list Z.
Hypothesis Hgarbage : forall n, 0 <= n -> Page.len (garbage n) = n /\ bytes (garbage n).

(** A write is one write also when it is cut at the point of synchronisation. *)
Lemma write_to_log wr file content n off : n = Page.len content -> 0 <= off <= Page.len file ->
  iSyncPoint wr = 0 \/ WAL_SYNC_FLAGS (syncFlags wr) <> 0 ->
  exists rc file', walWriteToLog wr file content n off = Ret (rc, file') /\ (rc = SQLITE_OK -> file' = Page.store file off content).
Proof using VW.
  intros -> Ho Hs. unfold walWriteToLog. destruct ((off <? iSyncPoint wr) && _) eqn:E.
  - apply andb_prop in E as [E1%Z.ltb_lt E2%Z.leb_le]. set (a := iSyncPoint wr - off).
    destruct (xWrite file (from_to content 0 a) off) as [rc f1] eqn:Ew.
    destruct (Z.eqb_spec rc SQLITE_OK) as [->|Hrc]; cbn [negb]; [|by eexists _, _].
    pose proof (write_bytes _ _ _ _ Ho Ew) as Ef1.
    rewrite (assert_true (negb (WAL_SYNC_FLAGS _ =? 0))) by (apply negb_true_iff, Z.eqb_neq; destruct Hs; [lia|done]). cbn [mbind outcome_bind].
    assert (Page.len (from_to content 0 a) = a) as La by (apply len_from_to; lia).
    destruct (Z.eqb_spec (Page.len content - a) 0) as [Ea|Ea]; cbn [orb].
    + eexists _, _. split; [done|]. intros _. by rewrite Ef1, from_to_all by lia.
    + destruct (Z.eqb_spec (xSync f1 (WAL_SYNC_FLAGS (syncFlags wr))) SQLITE_OK) as [Es|Es]; cbn [negb]; [|by eexists _, _].
      destruct (xWrite f1 (from_to content a (Page.len content - a)) (off + a)) as [rc f2] eqn:Ew2.
      eexists _, _. split; [done|]. intros ->.
      assert (0 <= off + a <= Page.len f1) as Ho2 by (rewrite Ef1, len_store_end by lia; lia).
      rewrite (write_bytes _ _ _ _ Ho2 Ew2), Ef1. rewrite <- La at 2. rewrite store_store by done. f_equal.
      unfold from_to. rewrite drop_0. rewrite (take_ge (drop _ _)) by (rewrite length_drop; unfold Page.len in *; lia). apply take_drop.
  - rewrite from_to_all by done. destruct (xWrite file content off) as [rc f1] eqn:Ew. eexists _, _. split; [done|].
    intros ->. by apply write_bytes.
Qed.

Variable g : log_header.
Let sz := g_size g.

Lemma write_one wr w file n L k p nTruncate : speaks g w -> Page.len (g_salt_of g) = 8 /\ bytes (g_salt_of g) -> iReCksum w = 0 ->
  logged g file n L (aFrameCksum (hdr w)) k -> good_page sz p -> 0 <= nTruncate < 2 ^ 32 ->
  w_szPage wr = sz -> iSyncPoint wr = 0 \/ WAL_SYNC_FLAGS (syncFlags wr) <> 0 ->
  exists rc w' file', walWriteOneFrame BE garbage wr w file p nTruncate (walFrameOffset (n + 1) sz) = Ret (rc, w', file') /\
    (exists c, w' = set_cksum w c) /\
    (rc = SQLITE_OK -> logged g file' (n + 1) (L ++ [pgno p]) (aFrameCksum (hdr w'))
       (if nTruncate =? 0 then k else {| k_frame := n + 1; k_pages := nTruncate; k_sum := aFrameCksum (hdr w') |})).
Proof using HBE Hgarbage VW.
  intros Hsp [Hs1 Hs2] Hr Hlg (Hp1 & Hp2 & Hp3) Ht Hw Hsy. destruct (logged_len _ _ _ _ _ _ Hlg) as (H32 & Hps & HL & Hck).
  pose proof Hlg as [Hh Hrun [Hn Hlen] Hb]. change (page_size sz) in Hps. pose proof Hps as [Hsz _].
  change (walFrameOffset (n + 1) sz <= Page.len file) in Hlen. pose proof Hsp as (Es1 & Es2 & Es3).
  pose proof (frame_offset_range (n + 1) sz ltac:(lia) ltac:(lia)) as Hoff. set (off := walFrameOffset (n + 1) sz) in *.
  assert (log_ok w) as Hlog.
  { split; rewrite ?Es1, ?Es2; try done. rewrite Es3. destruct (g_big g); auto. }
  destruct (Hgarbage WAL_FRAME_HDRSIZE ltac:(done)) as [Hg1 Hg2].
  destruct (encode_spec BE HBE w (pgno p) nTruncate (pData p) (garbage WAL_FRAME_HDRSIZE) Hlog Hr Hp3 Hg2) as (aF & Ee & Lf & Bf & E0 & E4 & E8 & E16 & E20);
    [rewrite Es1; exact Hp2|done|lia|lia|]. set (c' := conn_sum w (pData p) aF) in *.
  unfold walWriteOneFrame. rewrite Ee. cbn [mbind outcome_bind].
  destruct (write_to_log wr file aF WAL_FRAME_HDRSIZE off ltac:(done) ltac:(lia) Hsy) as (rc1 & f1 & -> & Hf1). cbn [mbind outcome_bind].
  destruct (Z.eqb_spec rc1 SQLITE_OK) as [->|Hrc]; cbn [negb]; [|eexists _, _, _; split; [done|]; split; [by eexists|done]].
  specialize (Hf1 eq_refl).
  destruct (write_to_log wr f1 (pData p) (w_szPage wr) (off + WAL_FRAME_HDRSIZE)) as (rc2 & f2 & -> & Hf2); [congruence| |done|].
  { rewrite Hf1, len_store_end, Lf by lia. unfold WAL_FRAME_HDRSIZE. lia. }
  cbn [mbind outcome_bind]. eexists _, _, _. split; [done|]. split; [by eexists|]. intros Hrc. specialize (Hf2 Hrc).
  rewrite Hf1 in Hf2. replace WAL_FRAME_HDRSIZE with (Page.len aF) in Hf2 by done. rewrite store_store in Hf2 by lia.
  assert (Page.len (aF ++ pData p) = 24 + sz) as Lc by (unfold Page.len in *; rewrite length_app; lia).
  assert (agree off file f2) as A by (rewrite Hf2; apply store_before; lia).
  assert (from_to f2 off (24 + sz) = aF ++ pData p) as Ehere by (rewrite Hf2, <- Lc; apply store_here; lia).
  assert (frame_hdr f2 sz (n + 1) = aF) as EF.
  { unfold frame_hdr, WAL_FRAME_HDRSIZE. fold off. pose proof (from_to_twice f2 off (24 + sz) 0 24) as Et. rewrite Z.add_0_r in Et.
    rewrite <- Et, Ehere, <- Lf by lia. apply (from_to_app_here [] aF (pData p)). done. }
  assert (frame_data f2 sz (n + 1) = pData p) as ED.
  { unfold frame_data, WAL_FRAME_HDRSIZE. fold off. rewrite <- (from_to_twice f2 off (24 + sz) 24 sz), Ehere by lia.
    pose proof (from_to_app_here aF (pData p) [] 24) as Ea. rewrite app_nil_r, Hp2 in Ea. by apply Ea. }
  destruct (accepts_valid g w f2 (n + 1) Hsp) as [Ea Ec]. fold sz in Ea, Ec. rewrite EF, ED in Ea, Ec. fold c' in Ec.
  destruct (encoded_accepted w w (pgno p) nTruncate (pData p) aF Hlog Hlog) as [Ha _]; try done; [lia|]. rewrite Ha in Ea.
  split.
  - rewrite (log_header_agree file f2); [done|]. apply (agree_less _ _ _ _ A). lia.
  - replace (Z.to_nat (n + 1)) with (Z.to_nat n + 1)%nat by lia.
    assert (run g f2 (Z.to_nat n) 1 (g_sum g) no_commit = Some (L, aFrameCksum (hdr w), k)) as Hr2.
    { rewrite (run_agree g file f2); [done|fold sz; lia|lia|]. by replace (1 + Z.of_nat (Z.to_nat n)) with (n + 1) by lia. }
    rewrite (run_app _ _ _ _ _ _ _ _ _ _ Hr2). replace (1 + Z.of_nat (Z.to_nat n)) with (n + 1) by lia. cbn [run].
    rewrite <- Ea, <- Ec. cbn [mbind option_bind]. unfold step_commit. fold sz. rewrite EF, E0, E4, <- Ec. done.
  - split; [lia|]. fold sz. rewrite Hf2, len_store_end, Lc by lia. pose proof (frame_offset (n + 1) sz). fold off in H. lia.
  - rewrite Hf2. apply bytes_store_end; [lia|done|]. by apply bytes_app.
Qed.

End Write.

(** ** The header of a new log *)

Section Header.
Context {BD : Build} {SHM : Shm} {VFS : Vfs} {VW : VfsWrite}.
Variable BE : Z.
Hypothesis HBE : BE = 0 \/ BE = 1.

Lemma file_header_spec w sz buf : page_size sz -> Z.land sz (sz - 1) = 0 -> 0 <= nCkpt w < 2 ^ 32 ->
  Page.len (aSalt (hdr w)) = 8 -> bytes (aSalt (hdr w)) -> Page.len buf = 32 -> bytes buf ->
  exists l c, wal_file_header BE w sz buf = Ret (l, c) /\ Page.len l = 32 /\ bytes l /\
    log_header_of l = Some {| g_big := negb (BE =? 0); g_size := sz; g_ckpt := nCkpt w; g_salt_of := aSalt (hdr w); g_sum := c |}.
Proof using HBE.
  intros [Hsz _] Hpow Hn Ls Bs Lb Bb. unfold wal_file_header. set (magic := Z.lor WAL_MAGIC BE).
  assert (0 <= magic < 2 ^ 32 /\ Z.land magic 0xFFFFFFFE = WAL_MAGIC /\ Z.land magic 1 = BE) as (Hm1 & Hm2 & Hm3).
  { subst magic. by destruct HBE as [-> | ->]. }
  rewrite put4byte_ok by lia. cbn [mbind outcome_bind]. set (l0 := put4 buf 0 magic).
  assert (Page.len l0 = 32 /\ bytes l0) as [L0 B0] by (subst l0; rewrite len_put4 by lia; split; [done|by apply bytes_put4; try lia]).
  rewrite put4byte_ok by lia. cbn [mbind outcome_bind]. set (l1 := put4 l0 4 WAL_MAX_VERSION).
  assert (Page.len l1 = 32 /\ bytes l1) as [L1 B1] by (subst l1; rewrite len_put4 by lia; split; [done|by apply bytes_put4; try lia]).
  rewrite put4byte_ok by lia. cbn [mbind outcome_bind]. set (l2 := put4 l1 8 sz).
  assert (Page.len l2 = 32 /\ bytes l2) as [L2 B2] by (subst l2; rewrite len_put4 by lia; split; [done|by apply bytes_put4; try lia]).
  rewrite put4byte_ok by lia. cbn [mbind outcome_bind]. set (l3 := put4 l2 12 (nCkpt w)).
  assert (Page.len l3 = 32 /\ bytes l3) as [L3 B3] by (subst l3; rewrite len_put4 by lia; split; [done|by apply bytes_put4; try lia]).
  rewrite memcpy_ok by lia. cbn [mbind outcome_bind]. rewrite from_to_all by done. set (l4 := Page.store l3 16 (aSalt (hdr w))).
  assert (Page.len l4 = 32) as L4 by (subst l4; rewrite len_store; lia). assert (bytes l4) as B4 by (apply bytes_store; try lia; done).
  change (WAL_HDRSIZE - 2 * 4) with 24.
  rewrite (checksum_ok BE (negb (BE =? 0))) by (done || lia || by destruct (BE =? 0)). cbn [mbind outcome_bind default].
  change (Z.to_nat (24 / 8)) with 3%nat. set (c := sum_pairs _ l4 0 3 (0, 0)).
  assert (is_cksum c) as [Hc1 Hc2] by (apply sum_pairs_range; done).
  rewrite put4byte_ok by lia. cbn [mbind outcome_bind]. set (l5 := put4 l4 24 c.1).
  assert (Page.len l5 = 32 /\ bytes l5) as [L5 B5] by (subst l5; rewrite len_put4 by lia; split; [done|by apply bytes_put4; try lia]).
  rewrite put4byte_ok by lia. cbn [mbind outcome_bind]. set (l6 := put4 l5 28 c.2).
  assert (Page.len l6 = 32 /\ bytes l6) as [L6 B6] by (subst l6; rewrite len_put4 by lia; split; [done|by apply bytes_put4; try lia]).
  assert (forall j, 0 <= j < 24 -> at_ l6 j = at_ l4 j) as E64.
  { intros j Hj. subst l6 l5. rewrite !at_put4 by lia. by rewrite !(proj2 (Z.leb_gt _ j)) by lia. }
  assert (forall j, 0 <= j < 16 -> at_ l6 j = at_ l3 j) as E63.
  { intros j Hj. rewrite E64 by lia. subst l4. rewrite at_store by lia. by rewrite (proj2 (Z.leb_gt _ j)) by lia. }
  assert (get4 l6 0 = magic) as G0.
  { rewrite (get4_frame l0); [by apply get4_put4; try lia|]. intros j Hj. rewrite E63 by lia. subst l3 l2 l1. rewrite !at_put4 by lia. by rewrite !(proj2 (Z.leb_gt _ j)) by lia. }
  assert (get4 l6 8 = sz) as G8.
  { rewrite (get4_frame l2); [by apply get4_put4; try lia|]. intros j Hj. rewrite E63 by lia. subst l3. rewrite !at_put4 by lia. by rewrite !(proj2 (Z.leb_gt _ j)) by lia. }
  assert (get4 l6 12 = nCkpt w) as G12.
  { rewrite (get4_frame l3); [by apply get4_put4; try lia|]. intros j Hj. apply E63. lia. }
  assert (get4 l6 24 = c.1) as G24.
  { rewrite (get4_frame l5); [by apply get4_put4; try lia|]. intros j Hj. subst l6. rewrite at_put4 by lia. by rewrite (proj2 (Z.leb_gt _ j)) by lia. }
  assert (get4 l6 28 = c.2) as G28 by (by apply get4_put4; try lia).
  assert (from_to l6 16 8 = aSalt (hdr w)) as G16.
  { rewrite <- Ls at 1. rewrite <- (store_here l3 16 (aSalt (hdr w))) at 2 by lia. fold l4. rewrite Ls. symmetry. apply (agree_from_to 24); [|lia..].
    split_and!; [lia|lia|]. apply (nth_ext _ _ 0 0); [unfold from_to; rewrite !length_take, !length_drop; unfold Page.len in *; lia|].
    intros i Hi. rewrite <- (Nat2Z.id i). change (at_ (from_to l4 0 24) (Z.of_nat i) = at_ (from_to l6 0 24) (Z.of_nat i)).
    unfold from_to in Hi. rewrite length_take, length_drop in Hi. rewrite !at_from_to by lia. rewrite E64; [done|lia]. }
  eexists l6, c. split; [done|]. split_and!; try done. unfold log_header_of. rewrite G0, G8, G12, G16, G24, G28, Hm2, Hm3, Z.eqb_refl, Hpow.
  assert (sum_pairs (negb (BE =? 0)) l6 0 3 (0, 0) = c) as Ec.
  { apply sum_pairs_frame. intros j Hj. apply E64. lia. }
  cbn [g_sum]. rewrite Ec, !Z.eqb_refl, (proj2 (Z.leb_le _ _)), (proj2 (Z.leb_le _ _)) by (unfold SQLITE_MAX_PAGE_SIZE; lia). done.
Qed.

End Header.

(** ** [walFrames] *)

(** The last commit is at the end of the log. *)
Definition at_commit (n t : Z) (c : cksum) : commit := {| k_frame := n; k_pages := t; k_sum := c |}.

Section Frames.
Context {BD : Build} {SHM : Shm} {SOK : ShmOk} {VFS : Vfs} {VR : VfsRead} {VW : VfsWrite}.
Variable CORRUPT_DB : bool.
Variable BE : Z.
Hypothesis HBE : BE = 0 \/ BE = 1.
Variable garbage : Z -> list Z.
Hypothesis Hgarbage : forall n, 0 <= n -> Page.len (garbage n) = n /\ bytes (garbage n).

Lemma set_cksum_twice w c c' : set_cksum (set_cksum w c) c' = set_cksum w c'.
Proof. done. Qed.

Section Append.
Variable g : log_header.
Let sz := g_size g.
Hypothesis Hsalt : Page.len (g_salt_of g) = 8 /\ bytes (g_salt_of g).

(** What [walFrames] has in its loops: the log in the file is that of the connection. *)
Record appending (s : progress) (n : Z) (L : list Z) (k : commit) : Prop := {
  ap_speaks : speaks g (p_wal s);
  ap_clean : iReCksum (p_wal s) = 0;
  ap_log : logged g (p_file s) n L (aFrameCksum (hdr (p_wal s))) k;
  ap_offset : p_offset s = walFrameOffset (n + 1) sz
}.

(** Nothing but the checksum of the connection has changed. *)
Definition only_sum (w w' : Wal) : Prop := exists c, w' = set_cksum w c.

Lemma only_sum_trans w w1 w2 : only_sum w w1 -> only_sum w1 w2 -> only_sum w w2.
Proof. intros [c ->] [c' ->]. by exists c'. Qed.

(** One frame behind the log. *)
Lemma append_frame wr s n L k p nTruncate i : appending s n L k -> good_page sz p -> 0 <= nTruncate < 2 ^ 32 ->
  w_szPage wr = sz -> iSyncPoint wr = 0 \/ WAL_SYNC_FLAGS (syncFlags wr) <> 0 ->
  exists rc w file, walWriteOneFrame BE garbage wr (p_wal s) (p_file s) p nTruncate (p_offset s) = Ret (rc, w, file) /\ only_sum (p_wal s) w /\
    (rc = SQLITE_OK -> appending {| p_wal := w; p_shm := p_shm s; p_file := file; p_frame := i; p_offset := p_offset s + (w_szPage wr + WAL_FRAME_HDRSIZE) |}
       (n + 1) (L ++ [pgno p]) (if nTruncate =? 0 then k else at_commit (n + 1) nTruncate (aFrameCksum (hdr w)))).
Proof using HBE Hgarbage Hsalt VW.
  intros [Hsp Hcl Hlg Ho] Hp Ht Hw Hsy. rewrite Ho.
  destruct (write_one BE HBE garbage Hgarbage g wr (p_wal s) (p_file s) n L k p nTruncate Hsp Hsalt Hcl Hlg Hp Ht Hw Hsy)
    as (rc & w & file & E & [c ->] & Hok).
  exists rc, (set_cksum (p_wal s) c), file. split; [exact E|]. split; [by exists c|]. intros Hrc. specialize (Hok Hrc).
  split; cbn [p_wal p_file p_offset]; try done. rewrite (frame_offset (n + 1) sz), Hw. unfold WAL_FRAME_HDRSIZE. lia.
Qed.

Lemma write_pages_ok wr nTruncate isCommit ps : w_szPage wr = sz -> iSyncPoint wr = 0 -> 0 <= nTruncate < 2 ^ 32 ->
  (isCommit = true -> nTruncate <> 0) -> Forall (good_page sz) ps ->
  forall pLast s L k, appending s (p_frame s) L k -> p_frame s + Z.of_nat (length ps) < 2 ^ 32 ->
  exists rc l pl s', write_pages CORRUPT_DB BE garbage wr 0 nTruncate isCommit ps pLast s = Ret (rc, l, pl, s') /\
    p_shm s' = p_shm s /\ only_sum (p_wal s) (p_wal s') /\ (ps = [] -> s' = s) /\
    (rc = SQLITE_OK -> l = map (fun p => with_append p true) ps /\ pl = match last ps with Some p => Some p | None => pLast end /\
       p_frame s' = p_frame s + Z.of_nat (length ps) /\
       appending s' (p_frame s') (L ++ map pgno ps)
         (if isCommit && negb (bool_decide (ps = [])) then at_commit (p_frame s') nTruncate (aFrameCksum (hdr (p_wal s'))) else k)).
Proof using HBE Hgarbage Hsalt VW.
  intros Hw Hsy Ht Hc Hps. induction ps as [|p ps IH]; intros pLast s L k A Hf; cbn [write_pages].
  { exists SQLITE_OK, [], pLast, s. split_and!; try done; [exists (aFrameCksum (hdr (p_wal s))); destruct (p_wal s) as [? ? ? ? ? ? ? [] ? ? ? ? ? ? ? ?]; done|].
    intros _. cbn [length map]. rewrite andb_false_r, app_nil_r, Z.add_0_r. done. }
  apply Forall_cons in Hps as [Hp Hps]. specialize (IH Hps). cbn [length] in Hf. pose proof (lg_len _ _ _ _ _ _ (ap_log _ _ _ _ A)) as [Hn _].
  change (negb (0 =? 0)) with false. cbn [andb mbind outcome_bind]. rewrite u32_id by lia.
  rewrite assert_true by (apply Z.eqb_eq; rewrite (ap_offset _ _ _ _ A), Hw; done). cbn [mbind outcome_bind].
  set (t := if isCommit && bool_decide (ps = []) then nTruncate else 0).
  destruct (append_frame wr s (p_frame s) L k p t (p_frame s + 1) A Hp) as (rc & w1 & f1 & -> & Hs1 & Hok1);
    [subst t; by destruct (isCommit && bool_decide (ps = []))|done|by left|]. cbn [mbind outcome_bind].
  destruct (Z.eqb_spec rc SQLITE_OK) as [->|Hrc]; cbn [negb]; [|by eexists _, _, _, _].
  specialize (Hok1 eq_refl). set (s1 := {| p_wal := w1; p_shm := p_shm s; p_file := f1; p_frame := p_frame s + 1; p_offset := _ |}) in *.
  destruct (IH (Some p) s1 _ _ Hok1) as (rc & l & pl & s' & -> & Hm & Hs' & Hnil & Hok); [cbn; lia|]. cbn [mbind outcome_bind].
  exists rc, (with_append p true :: l), pl, s'. split_and!; try done; [by eapply only_sum_trans|]. intros Hrc.
  destruct (Hok Hrc) as (-> & -> & Hfr & A'). rewrite last_cons. cbn [length map]. split_and!; try done.
  - by destruct (last ps).
  - rewrite Hfr. cbn. lia.
  - rewrite <- app_assoc in A'. cbn [app] in A'. destruct isCommit; cbn [andb] in *; [|subst t; done].
    destruct ps as [|q ps]; cbn [bool_decide negb] in *; [|subst t; done].
    rewrite (Hnil eq_refl) in *. subst t. cbn [andb]. rewrite bool_decide_true in A' by done. cbn [negb p_frame s1 p_wal] in *.
    by rewrite (proj2 (Z.eqb_neq nTruncate 0)) in A' by auto.
Qed.
(** Copies of the last frame keep the commit at the end of the log. *)
Lemma pad_frames_ok wr p t : w_szPage wr = sz -> iSyncPoint wr = 0 \/ WAL_SYNC_FLAGS (syncFlags wr) <> 0 -> 0 < t < 2 ^ 32 -> good_page sz p ->
  forall fuel s n L x, appending s n L (at_commit n t (aFrameCksum (hdr (p_wal s)))) -> iSyncPoint wr - p_offset s < Z.of_nat fuel -> (0 < fuel)%nat ->
  exists rc e s', pad_frames BE garbage fuel wr (Some p) t s x = Ret (rc, x + e, s') /\ 0 <= e <= Z.max 0 (iSyncPoint wr - p_offset s) /\
    p_shm s' = p_shm s /\ p_frame s' = p_frame s /\ only_sum (p_wal s) (p_wal s') /\
    (rc = SQLITE_OK -> appending s' (n + e) (L ++ replicate (Z.to_nat e) (pgno p)) (at_commit (n + e) t (aFrameCksum (hdr (p_wal s'))))).
Proof using HBE Hgarbage Hsalt VW.
  intros Hw Hsy Ht Hp fuel. induction fuel as [|fuel IH]; intros s n L x A Hf Hf0; [lia|].
  cbn [pad_frames]. destruct (Z.ltb_spec (p_offset s) (iSyncPoint wr)) as [Hlt|Hge].
  2: { exists SQLITE_OK, 0, s. rewrite !Z.add_0_r, app_nil_r. split_and!; try done; [lia|].
       exists (aFrameCksum (hdr (p_wal s))). by destruct (p_wal s) as [? ? ? ? ? ? ? [] ? ? ? ? ? ? ? ?]. }
  destruct (append_frame wr s n L _ p t (p_frame s) A Hp ltac:(lia) Hw Hsy) as (rc & w1 & f1 & -> & Hs1 & Hok1). cbn [mbind outcome_bind].
  destruct (Z.eqb_spec rc SQLITE_OK) as [->|Hrc]; cbn [negb].
  2: { eexists rc, 0, _. rewrite !Z.add_0_r. split; [reflexivity|]. split_and!; try done. lia. }
  specialize (Hok1 eq_refl). rewrite (proj2 (Z.eqb_neq t 0)) in Hok1 by lia.
  set (s1 := {| p_wal := w1; p_shm := p_shm s; p_file := f1; p_frame := p_frame s; p_offset := _ |}) in *.
  destruct (logged_len _ _ _ _ _ _ (ap_log _ _ _ _ A)) as (_ & [Hsz _] & _). change (512 <= sz <= 65536) in Hsz.
  assert (p_offset s1 = p_offset s + (sz + 24)) as Eo by (subst s1; cbn; by rewrite Hw).
  destruct (IH s1 (n + 1) _ (x + 1) Hok1) as (rc & e & s' & E & He & Hm & Hfr & Hs' & Hok); [rewrite Eo; lia|lia|].
  exists rc, (e + 1), s'. replace (x + (e + 1)) with (x + 1 + e) by lia. rewrite Eo in He. split; [exact E|]. split_and!; try done; [lia|lia|by eapply only_sum_trans|].
  intros Hrc. specialize (Hok Hrc). replace (n + (e + 1)) with (n + 1 + e) by lia.
  replace (Z.to_nat (e + 1)) with (S (Z.to_nat e)) by lia. cbn [replicate]. by rewrite <- app_assoc in Hok.
Qed.

(** The end of a commit: padding and synchronisation. *)
Lemma finish_commit_ok wr p t s L : w_szPage wr = sz -> WAL_SYNC_FLAGS (syncFlags wr) <> 0 -> 0 < xSectorSize -> 0 < t < 2 ^ 32 -> good_page sz p ->
  appending s (p_frame s) L (at_commit (p_frame s) t (aFrameCksum (hdr (p_wal s)))) ->
  exists stop rc e s', finish_commit BE garbage wr (Some p) t s = Ret (stop, rc, e, s') /\ 0 <= e <= xSectorSize /\
    p_shm s' = p_shm s /\ p_frame s' = p_frame s /\ only_sum (p_wal s) (p_wal s') /\ (stop = true -> rc <> SQLITE_OK) /\
    (stop = false -> appending s' (p_frame s + e) (L ++ replicate (Z.to_nat e) (pgno p)) (at_commit (p_frame s + e) t (aFrameCksum (hdr (p_wal s'))))).
Proof using HBE Hgarbage Hsalt VW.
  intros Hw Hsy Hsec Ht Hp A. unfold finish_commit.
  assert (only_sum (p_wal s) (p_wal s)) as Hrefl by (exists (aFrameCksum (hdr (p_wal s))); by destruct (p_wal s) as [? ? ? ? ? ? ? [] ? ? ? ? ? ? ? ?]).
  destruct (padToSectorBoundary (p_wal s)).
  2: { eexists false, _, 0, s. rewrite Z.add_0_r, app_nil_r. split; [reflexivity|]. split_and!; (done || lia). }
  destruct (logged_len _ _ _ _ _ _ (ap_log _ _ _ _ A)) as (_ & [Hsz _] & _). change (512 <= sz <= 65536) in Hsz.
  pose proof (lg_len _ _ _ _ _ _ (ap_log _ _ _ _ A)) as [Hn _].
  pose proof (frame_offset_range (p_frame s + 1) sz ltac:(lia) ltac:(lia)) as Ho. rewrite <- (ap_offset _ _ _ _ A) in Ho.
  set (sync := Z.quot (p_offset s + xSectorSize - 1) xSectorSize * xSectorSize).
  assert (p_offset s <= sync <= p_offset s + xSectorSize - 1) as Hsync.
  { subst sync. rewrite Z.quot_div_nonneg by lia. pose proof (Z.div_mod (p_offset s + xSectorSize - 1) xSectorSize). pose proof (Z.mod_pos_bound (p_offset s + xSectorSize - 1) xSectorSize). lia. }
  set (wr' := {| iSyncPoint := sync; syncFlags := syncFlags wr; w_szPage := w_szPage wr |}).
  destruct (pad_frames_ok wr' p t Hw (or_intror Hsy) Ht Hp (2 + Z.to_nat (sync - p_offset s)) s (p_frame s) L 0 A) as (rc & e & s' & -> & He & Hm & Hfr & Hs' & Hok);
    [cbn [iSyncPoint wr']; lia|lia|]. cbn [mbind outcome_bind iSyncPoint wr'] in *. rewrite Z.add_0_l.
  destruct (Z.eqb_spec rc SQLITE_OK) as [->|Hrc]; cbn [negb].
  - eexists false, _, e, s'. split; [reflexivity|]. split_and!; try done; [lia|lia|]. auto.
  - eexists true, _, e, s'. split; [reflexivity|]. split_and!; (done || lia).
Qed.

(** The size limit does not reach the frames that count. *)
Lemma limit_log_ok s isCommit e n L c k : 0 <= p_frame s -> 0 <= e -> n = p_frame s + e -> n + 1 < 2 ^ 32 -> logged g (p_file s) n L c k ->
  p_shm (limit_log s isCommit e sz) = p_shm s /\ logged g (p_file (limit_log s isCommit e sz)) n L c k /\
  (p_wal (limit_log s isCommit e sz) = p_wal s \/ p_wal (limit_log s isCommit e sz) = with_truncateOnCommit (p_wal s) false).
Proof using VR VW.
  intros H1 H2 -> H3 Hlg. unfold limit_log. destruct (isCommit && _ && _); [|split_and!; [done..|by left]]. cbn [p_shm p_file p_wal].
  split_and!; [done| |by right]. rewrite u32_id by lia. set (nMax := if _ <? _ then _ else _).
  assert (walFrameOffset (p_frame s + e + 1) sz <= nMax) as Hmax by (subst nMax; destruct (Z.ltb_spec (mxWalSize (p_wal s)) (walFrameOffset (p_frame s + e + 1) sz)); lia).
  destruct (logged_len _ _ _ _ _ _ Hlg) as (_ & [Hsz _] & _). change (512 <= sz <= 65536) in Hsz.
  pose proof (frame_offset_range (p_frame s + e + 1) sz ltac:(lia) ltac:(lia)) as Ho.
  unfold walLimitSize. destruct (xFileSize (p_file s)) as [rx n] eqn:Ex. destruct (Z.eqb_spec rx SQLITE_OK) as [->|]; cbn [andb]; [|done].
  rewrite (size_bytes _ _ Ex). destruct (Z.ltb_spec nMax (Page.len (p_file s))) as [Hlt|]; [|done].
  destruct (truncate_bytes (p_file s) nMax ltac:(lia)) as [-> | ->]; [done|].
  apply (logged_agree g (p_file s)); [done| |apply bytes_from_to, (lg_bytes _ _ _ _ _ _ Hlg)].
  assert (Page.len (from_to (p_file s) 0 nMax) = nMax) as Ln by (apply len_from_to; lia). split_and!; [fold sz; lia|fold sz; lia|].
  fold sz. pose proof (from_to_twice (p_file s) 0 nMax 0 (walFrameOffset (p_frame s + e + 1) sz)) as Et. rewrite Z.add_0_l in Et. by rewrite Et by lia.
Qed.

End Append.

(** What the calls of [walFrames] leave of a connection for the index. *)
Record like (w w' : Wal) : Prop := {
  lk_ptr : apWiData w' = apWiData w; lk_lock : writeLock w' = writeLock w; lk_excl : exclusiveMode w' = exclusiveMode w;
  lk_count : mxFrame (hdr w') = mxFrame (hdr w); lk_clean : iReCksum w' = iReCksum w
}.

Lemma like_trans w w1 w2 : like w w1 -> like w1 w2 -> like w w2.
Proof. intros [] []. split; congruence. Qed.
Lemma like_sum w w' : only_sum w w' -> like w w'.
Proof. by intros [c ->]. Qed.

Lemma writing_like w w' m E c : writing w m E c -> like w w' -> Page.len (aSalt (hdr w')) = 8 /\ bytes (aSalt (hdr w')) -> writing w' m E c.
Proof.
  intros [[[Hz Hp] Hl Ht Hh] Ho Hc Hcc Hm _] [E1 E2 E3 E4 _] Hs. split; try done; [|by rewrite E4|].
  - split; [split; rewrite E1; done|by rewrite E2|..]; unfold mapped; rewrite E1; [done|rewrite E3; done].
  - intros f H1 H2. unfold mapped. rewrite E1. by apply Hm.
Qed.

(** The first frame of a log is preceded by its header. *)
Lemma begin_log_ok w file sz sync_flags : page_size sz -> Z.land sz (sz - 1) = 0 -> 0 <= nCkpt w < 2 ^ 32 ->
  Page.len (aSalt (hdr w)) = 8 -> bytes (aSalt (hdr w)) -> bytes file ->
  exists rc w' file', begin_log BE garbage w file sz sync_flags = Ret (rc, w', file') /\ like w w' /\
    (rc = SQLITE_OK -> exists g, g_size g = sz /\ (Page.len (g_salt_of g) = 8 /\ bytes (g_salt_of g)) /\ speaks g w' /\
       logged g file' 0 [] (aFrameCksum (hdr w')) no_commit).
Proof using HBE Hgarbage VW.
  intros Hps Hpow Hn Hs1 Hs2 Hb. unfold begin_log.
  set (w1 := if nCkpt w =? 0 then _ else w).
  assert (like w w1 /\ nCkpt w1 = nCkpt w /\ Page.len (aSalt (hdr w1)) = 8 /\ bytes (aSalt (hdr w1))) as (Hl1 & Hn1 & Hs3 & Hs4).
  { subst w1. destruct random_bytes as [? ?]. by destruct (nCkpt w =? 0). }
  destruct (Hgarbage WAL_HDRSIZE ltac:(done)) as [Hg1 Hg2].
  destruct (file_header_spec BE HBE w1 sz (garbage WAL_HDRSIZE) Hps Hpow) as (l & c & -> & Ll & Bl & Hg); [lia|done..|].
  cbn [mbind outcome_bind]. set (w2 := with_truncateOnCommit _ true). assert (like w w2) as Hl2 by (by destruct Hl1).
  destruct (xWrite file l 0) as [rc f] eqn:Ew. destruct (Z.eqb_spec rc SQLITE_OK) as [->|]; cbn [negb]; [|by eexists _, _, _].
  set (g := {| g_big := _; g_size := _; g_ckpt := _; g_salt_of := _; g_sum := _ |}) in Hg.
  assert (exists g, g_size g = sz /\ (Page.len (g_salt_of g) = 8 /\ bytes (g_salt_of g)) /\ speaks g w2 /\
    logged g f 0 [] (aFrameCksum (hdr w2)) no_commit) as Hdone.
  { pose proof (Z.le_refl 0). assert (0 <= 0 <= Page.len file) as H0 by (unfold Page.len; lia). pose proof (write_bytes _ _ _ _ H0 Ew) as ->.
    exists g. split_and!; try done.
    - subst g w2. cbn. by destruct HBE as [-> | ->].
    - assert (agree 32 l (Page.store file 0 l)) as A.
      { split_and!; [lia|rewrite len_store_end by lia; lia|]. rewrite from_to_all by done. symmetry. rewrite <- Ll. by apply store_here. }
      split; [|done| |by apply bytes_store_end].
      + by rewrite (log_header_agree l).
      + split; [done|]. destruct A as (_ & HA & _). change (walFrameOffset (0 + 1) (g_size g)) with 32. done. }
  destruct (syncHeader w2); [|by eexists _, _, _]. eexists _, _, _. split; [done|]. by split.
Qed.

(** Nothing is entered after an error. *)
Lemma index_frames_err w m rc ps p e sz t isCommit : rc <> SQLITE_OK -> 0 <= e ->
  index_frames BE w m rc ps (Some p) e sz t isCommit = Ret (rc, w, m).
Proof.
  intros Hrc He. unfold index_frames. pose proof (proj2 (Z.eqb_neq rc SQLITE_OK) Hrc) as Hb.
  assert (index_pages w m (mxFrame (hdr w)) rc ps = Ret (rc, mxFrame (hdr w), w, m)) as -> by (destruct ps; cbn [index_pages]; by rewrite ?Hb).
  cbn [mbind outcome_bind]. rewrite assert_true by done. cbn [mbind outcome_bind].
  assert (index_extra (Z.to_nat e) w m (mxFrame (hdr w)) rc (Some p) = Ret (rc, mxFrame (hdr w), w, m)) as -> by (destruct (Z.to_nat e); cbn [index_extra]; by rewrite ?Hb).
  cbn [mbind outcome_bind]. by rewrite Hb.
Qed.

(** ** A transaction *)

(** The file holds the log [L] of the connection, with the last commit [k]; an empty log needs no file. *)
Definition recorded (w : Wal) (file : list Z) (L : list Z) (k : commit) : Prop :=
  L = [] /\ k = no_commit \/
  exists g, speaks g w /\ logged g file (Z.of_nat (length L)) L (aFrameCksum (hdr w)) k /\ k_frame k <= Z.of_nat (length L).

Lemma appended_all ps p e : appended (entered_pages (map (fun p => with_append p true) ps) (Some p) e) = map pgno ps ++ replicate (Z.to_nat e) (pgno p).
Proof.
  unfold appended, entered_pages. rewrite filter_app, map_app. f_equal.
  - induction ps as [|q ps IH]; [done|]. cbn [map]. rewrite filter_cons, decide_True by done. cbn [map]. by rewrite IH.
  - induction (Z.to_nat e) as [|k IH]; [done|]. cbn [replicate]. rewrite filter_cons, decide_True by done. cbn [map]. by rewrite IH.
Qed.

Lemma last_good {A} (P : A -> Prop) l : l <> [] -> Forall P l -> exists x, last l = Some x /\ P x.
Proof.
  induction l as [|x l IH]; [done|]. intros _ [Hx Hl]%Forall_cons. rewrite last_cons. destruct l as [|y l]; [by exists x|].
  destruct (IH ltac:(done) Hl) as (z & -> & ?). by exists z.
Qed.

(** The pages after the loop, once more or less padded, fit in the index. *)
Lemma entered_valid sz ps p e : Forall (good_page sz) ps -> good_page sz p -> valid_pages (entered_pages (map (fun p => with_append p true) ps) (Some p) e).
Proof.
  intros Hps (Hp & _). apply Forall_app. split.
  - apply Forall_map. eapply Forall_impl; [exact Hps|]. by intros q (? & _).
  - by apply Forall_replicate.
Qed.
Lemma entered_length ps p e : 0 <= e -> Z.of_nat (length (entered_pages (map (fun p => with_append p true) ps) (Some p) e)) = Z.of_nat (length ps) + e.
Proof. intros. unfold entered_pages. rewrite length_app, length_map, length_replicate. lia. Qed.

Lemma refines_like m w w' E L P : refines {| shm := m; owner := Some w |} E (L, Some P) -> like w w' ->
  Page.len (aSalt (hdr w')) = 8 /\ bytes (aSalt (hdr w')) -> refines {| shm := m; owner := Some w' |} E (L, Some P).
Proof.
  intros [? ? ? ? ? (F & Hw & ? & ?)] Hl Hs. split; try done. exists F. split_and!; try done. by apply (writing_like w).
Qed.

Section Transaction.
Variables (w : Wal) (m : store) (file : list Z) (E : list (Z * Z)) (L : list Z) (k : commit) (sz t : Z) (ps : list PgHdr) (isCommit : bool).
Hypothesis Hr : refines {| shm := m; owner := Some w |} E (L, Some []).
Hypothesis Hlive : hdr w = (header m).1.
Hypothesis Hlock : readLock w <> 0.
Hypothesis Hclean : iReCksum w = 0.
Hypothesis Hckpt : 0 <= nCkpt w < 2 ^ 32.
Hypothesis Hfile : bytes file.
Hypothesis Hrec : recorded w file L k.
Hypothesis Hsz : page_size sz /\ Z.land sz (sz - 1) = 0.
Hypothesis Hps : Forall (good_page sz) ps /\ ps <> [].
Hypothesis Ht : 0 <= t < 2 ^ 32 /\ isCommit = negb (t =? 0).
Hypothesis Hone : isCommit = false -> Forall (fun p => pgno p <> 1) ps.
Hypothesis Hsector : 0 < xSectorSize.
Hypothesis Hmax : Z.of_nat (length L) + Z.of_nat (length ps) + xSectorSize < MAX_FRAME.

(** The beginning of [walFrames]: afterwards there is a log in the file. *)
Lemma start_log sync_flags : exists rc w1 f1,
  (if mxFrame (hdr w) =? 0 then begin_log BE garbage w file sz sync_flags else Ret (SQLITE_OK, w, file)) = Ret (rc, w1, f1) /\ like w w1 /\
  (rc = SQLITE_OK -> szPage w1 = sz -> exists g, g_size g = sz /\ (Page.len (g_salt_of g) = 8 /\ bytes (g_salt_of g)) /\ speaks g w1 /\
     logged g f1 (mxFrame (hdr w)) L (aFrameCksum (hdr w1)) k /\ k_frame k <= mxFrame (hdr w)).
Proof using HBE Hgarbage VW Hr Hlive Hckpt Hfile Hrec Hsz.
  clear Hps Ht Hone Hsector Hmax Hlock Hclean.
  destruct (f_salt _ _ _ Hr) as [Hs1 Hs2]. cbn [shm] in Hs1, Hs2. rewrite <- Hlive in Hs1, Hs2.
  assert (mxFrame (hdr w) = Z.of_nat (length L)) as Hmx.
  { pose proof (f_count _ _ _ Hr) as Hc. pose proof (f_log _ _ _ Hr) as HL. cbn in Hc, HL. by rewrite Hlive, Hc, HL, len_fmap. }
  rewrite Hmx. destruct (Z.eqb_spec (Z.of_nat (length L)) 0) as [E0|E0].
  - destruct (begin_log_ok w file sz sync_flags (proj1 Hsz) (proj2 Hsz) Hckpt Hs1 Hs2 Hfile) as (rc & w1 & f1 & -> & Hl & Hok).
    exists rc, w1, f1. split_and!; try done. intros Hrc _. destruct (Hok Hrc) as (g & ? & [? ?] & ? & ?). exists g.
    assert (L = []) as -> by (destruct L; [done|cbn in E0; lia]). assert (k = no_commit) as ->; [|by split_and!].
    destruct Hrec as [[_ ->]|(g' & _ & Hlg & _)]; [done|]. pose proof (lg_run _ _ _ _ _ _ Hlg) as Hrun. cbn in Hrun. by injection Hrun.
  - exists SQLITE_OK, w, file. split_and!; try done. intros _ Esz. destruct Hrec as [[-> _]|(g & Hsp & Hlg & Hk)]; [done|].
    exists g. pose proof Hsp as (E1 & E2 & _). split_and!; try done; [congruence|by rewrite <- E2..].
Qed.

(** The end of a commit after the loop over the pages. *)
Lemma finish_ok g sync_flags wr s p : Page.len (g_salt_of g) = 8 /\ bytes (g_salt_of g) -> w_szPage wr = g_size g -> syncFlags wr = sync_flags -> good_page (g_size g) p ->
  appending g s (p_frame s) (L ++ map pgno ps) (if isCommit then at_commit (p_frame s) t (aFrameCksum (hdr (p_wal s))) else k) ->
  exists stop rc e s', (if isCommit && negb (WAL_SYNC_FLAGS sync_flags =? 0) then finish_commit BE garbage wr (Some p) t s else Ret (false, SQLITE_OK, 0, s))
    = Ret (stop, rc, e, s') /\ 0 <= e <= xSectorSize /\ p_shm s' = p_shm s /\ p_frame s' = p_frame s /\ only_sum (p_wal s) (p_wal s') /\
    (stop = true -> rc <> SQLITE_OK) /\
    (stop = false -> appending g s' (p_frame s + e) (L ++ map pgno ps ++ replicate (Z.to_nat e) (pgno p))
       (if isCommit then at_commit (p_frame s + e) t (aFrameCksum (hdr (p_wal s'))) else k)).
Proof using HBE Hgarbage VW Ht Hsector.
  clear Hone Hps Hmax.
  intros Hsalt Hw Hf Hp A. destruct (isCommit && negb (WAL_SYNC_FLAGS sync_flags =? 0)) eqn:Ec.
  - apply andb_prop in Ec as [Ec Ef]. rewrite Ec in *. apply negb_true_iff, Z.eqb_neq in Ef. rewrite <- Hf in Ef.
    assert (0 < t < 2 ^ 32) as Ht' by (destruct Ht as [? Hc]; symmetry in Hc; apply negb_true_iff, Z.eqb_neq in Hc; lia).
    destruct (finish_commit_ok g Hsalt wr p t s _ Hw Ef Hsector Ht' Hp A) as (stop & rc & e & s' & -> & ? & ? & ? & ? & ? & Hok).
    exists stop, rc, e, s'. rewrite app_assoc. split_and!; (done || lia).
  - exists false, SQLITE_OK, 0, s. rewrite Z.add_0_r. cbn [replicate]. rewrite app_nil_r. split_and!; try done; [lia|].
    exists (aFrameCksum (hdr (p_wal s))). by destruct (p_wal s) as [? ? ? ? ? ? ? [] ? ? ? ? ? ? ? ?].
Qed.

(** A call that succeeds leaves the pages in the file and in the index. *)
Lemma walFrames_ok restart sync_flags : exists rc w' m' file',
  walFrames CORRUPT_DB BE garbage restart w m file sz ps t isCommit sync_flags = Ret (rc, w', m', file') /\
  (rc = SQLITE_OK -> exists p e, last ps = Some p /\ 0 <= e <= xSectorSize /\
     let P := map pgno ps ++ replicate (Z.to_nat e) (pgno p) in
     (exists F, refines {| shm := m'; owner := Some w' |} (E ++ F) (if isCommit then (L ++ P, Some []) else (L, Some P))) /\
     exists g, g_size g = sz /\ speaks g w' /\
       logged g file' (Z.of_nat (length (L ++ P))) (L ++ P) (aFrameCksum (hdr w'))
         (if isCommit then at_commit (Z.of_nat (length (L ++ P))) t (aFrameCksum (hdr w')) else k)).
Proof using HBE Hgarbage VW VR SOK Hr Hlive Hckpt Hfile Hrec Hsz Hlock Hclean Hps Ht Hone Hsector Hmax.
  destruct Hps as [Hpg Hne], Ht as [Htr Hc]. destruct (last_good _ ps Hne Hpg) as (p & Hlast & Hp).
  assert (writing w m E (len E)) as Hwr.
  { destruct (f_owner _ _ _ Hr) as (F & Hwr & HF & _). destruct F; [|done]. by rewrite app_nil_r in Hwr. }
  pose proof (g_writer _ _ _ _ Hwr) as Hw. pose proof (g_count _ _ _ _ Hwr) as Hmx.
  assert (len E = Z.of_nat (length L)) as HlenL by (pose proof (f_log _ _ _ Hr) as HL; cbn in HL; by rewrite HL, len_fmap).
  unfold walFrames, walIndexHdr. rewrite (w_lock _ _ Hw), (c_zero _ (w_conn _ _ Hw)), (bool_decide_true (Some (Some 0) = _)) by done.
  rewrite (bool_decide_false (ps = [])) by done. rewrite (assert_true (negb false)), (assert_true true) by done. cbn [mbind outcome_bind].
  rewrite assert_true by (rewrite Hc; apply eqb_reflx). rewrite (bool_decide_true (hdr w = _)) by done. cbn [mbind outcome_bind].
  unfold walRestartLog. rewrite (proj2 (Z.eqb_neq (readLock w) 0)) by done. change (negb (SQLITE_OK =? SQLITE_OK)) with false. cbn iota.
  destruct (start_log sync_flags) as (rc & w1 & f1 & -> & Hl1 & Hok1). cbn [mbind outcome_bind].
  destruct (Z.eqb_spec rc SQLITE_OK) as [->|]; cbn [negb]; [|by eexists _, _, _, _].
  destruct (Z.eqb_spec (szPage w1) sz) as [Es|]; cbn [negb]; [|by eexists _, _, _, _].
  destruct (Hok1 eq_refl Es) as (g & <- & Hsalt & Hsp & Hlg & Hk).
  set (wr := {| iSyncPoint := 0; syncFlags := sync_flags; w_szPage := g_size g |}).
  set (s0 := {| p_wal := w1; p_shm := m; p_file := f1; p_frame := mxFrame (hdr w); p_offset := _ |}).
  assert (appending g s0 (p_frame s0) L k) as A0 by (split; cbn; try done; by rewrite (lk_clean _ _ Hl1)).
  destruct (write_pages_ok g Hsalt wr t isCommit ps eq_refl eq_refl Htr) with (pLast := @None PgHdr) (s := s0) (L := L) (k := k)
    as (rc & l & pl & s1 & -> & Hm1 & Hs1 & _ & Hok2); try done.
  { intros ->. destruct (Z.eqb_spec t 0); [done|lia]. } { cbn. unfold MAX_FRAME in Hmax. lia. }
  cbn [mbind outcome_bind]. destruct (Z.eqb_spec rc SQLITE_OK) as [->|]; cbn [negb]; [|by eexists _, _, _, _].
  destruct (Hok2 eq_refl) as (-> & -> & Hfr1 & A1). rewrite Hlast. clear Hok1 Hok2.
  rewrite (ap_clean _ _ _ _ _ A1), andb_false_r. cbn [mbind outcome_bind]. change (negb (SQLITE_OK =? SQLITE_OK)) with false. cbn iota.
  rewrite (bool_decide_false (ps = [])) in A1 by done. cbn [negb] in A1. rewrite andb_true_r in A1.
  destruct (finish_ok g sync_flags wr s1 p Hsalt eq_refl eq_refl Hp A1) as (stop & rc & e & s2 & -> & He & Hm2 & Hfr2 & Hs2 & Hstop & Hok).
  cbn [mbind outcome_bind]. destruct stop; [by eexists _, _, _, _; split; [done|]; intros; destruct Hstop|]. specialize (Hok eq_refl).
  cbn [p_frame s0] in Hfr1. rewrite Hfr1, Hmx, HlenL in *. unfold MAX_FRAME in Hmax.
  destruct Hok as [Hsp2 Hcl2 Hlg2 _].
  destruct (limit_log_ok g s2 isCommit e _ _ _ _ ltac:(lia) (proj1 He) ltac:(by rewrite Hfr2) ltac:(lia) Hlg2) as (Hm3 & Hlg3 & Hw3).
  set (s3 := limit_log s2 isCommit e (g_size g)) in *.
  assert (like w (p_wal s3) /\ speaks g (p_wal s3) /\ aFrameCksum (hdr (p_wal s3)) = aFrameCksum (hdr (p_wal s2))) as (Hl3 & Hsp3 & Hck3).
  { assert (like w (p_wal s2)) as Hl2 by (eapply like_trans; [exact Hl1|]; eapply like_trans; [apply like_sum; exact Hs1|apply like_sum; exact Hs2]).
    destruct Hw3 as [-> | ->]; [done|]. split_and!; [by destruct Hl2|done|done]. }
  assert (Page.len (aSalt (hdr (p_wal s3))) = 8 /\ bytes (aSalt (hdr (p_wal s3)))) as Hs3 by (destruct Hsp3 as (_ & -> & _); done).
  rewrite Hm3, Hm2, Hm1. cbn [p_shm s0].
  destruct (Z.eqb_spec rc SQLITE_OK) as [->|Hrc]; [|rewrite index_frames_err by (done || lia); by eexists _, _, _, _].
  set (qs := map (fun p => with_append p true) ps). pose proof (entered_valid _ ps p e Hpg Hp) as Hvalid. pose proof (entered_length ps p e (proj1 He)) as Hlen.
  fold qs in Hvalid, Hlen.
  assert (mxFrame (hdr (p_wal s3)) + Z.of_nat (length (entered_pages qs (Some p) e)) <= MAX_FRAME) as Hmx3.
  { rewrite (lk_count _ _ Hl3), Hmx, Hlen. unfold MAX_FRAME. lia. }
  pose proof (refines_like m w (p_wal s3) E L [] Hr Hl3 Hs3) as Hr3.
  assert (writing (p_wal s3) m E (len E)) as Hwr3 by (rewrite HlenL; by apply (writing_like w)).
  destruct (index_frames_spec BE (p_wal s3) m E (len E) qs (Some p) e (g_size g) t isCommit Hwr3 Hvalid) as (rc & w' & m' & F & Ei & _ & _ & _ & Hokx);
    [by rewrite <- (g_count _ _ _ _ Hwr3)|lia|right; by eexists|].
  rewrite Ei. cbn [mbind outcome_bind]. eexists rc, w', m', _. split; [done|]. intros ->. exists p, e. split_and!; [done|lia|lia|..].
  - destruct (refines_write BE m (p_wal s3) qs (Some p) e (g_size g) t isCommit SQLITE_OK w' m' E L [] Hvalid (proj1 He)) as [F' HF']; try done.
    + right. by eexists.
    + intros Hc'. apply Forall_app. split; [apply Forall_map; eapply Forall_impl; [exact (Hone Hc')|intros q Hq; exact Hq]|]. apply Forall_replicate.
      pose proof (Hone Hc') as Ho1. rewrite Forall_forall in Ho1. apply (Ho1 p). apply last_Some in Hlast as [l' ->]. apply elem_of_app. right. by left.
    + exists F'. subst qs. rewrite appended_all in HF'. cbn [app] in HF'. by destruct isCommit.
  - destruct (Hokx eq_refl) as (_ & _ & _ & (e1 & e2 & e3 & e4) & _). exists g. destruct Hsp3 as (E1 & E2 & E3). split_and!; [done|unfold speaks; by rewrite e1, e2, e3|].
    rewrite e4, Hck3. rewrite !length_app, length_map, length_replicate.
    replace (Z.of_nat (length L + (length ps + Z.to_nat e))) with (Z.of_nat (length L) + Z.of_nat (length ps) + e) by lia. exact Hlg3.
Qed.

End Transaction.
End Frames.

(** ** Theorems *)

(** C25: What the first call of [walFrames] in a transaction commits is durable.
    The transaction has begun on a log that the file records, empty or not, and
    has written nothing yet (its header is the shared one, no overwritten frame
    is noted, it does not read from the database alone); the pages fit in the
    log.  The call always returns.  When it succeeds, the pages are appended to
    the log of the index and of the file alike, with the copies that fill the
    last sector.  Whatever comes behind these frames in the file after that, what
    a crash leaves of later writes included, recovery finds the log up to here:
    all of it if the call was a commit, and only what was committed before when
    the pages were spilled and the file ends there.  Not covered are commits
    after earlier calls in the same transaction; [savepoint_loses_commit] shows
    that for them it is not true in general. *)
Theorem commit_is_durable {BD : Build} {SHM : Shm} {SOK : ShmOk} {VFS : Vfs} {VR : VfsRead} {VW : VfsWrite}
    CORRUPT_DB BE garbage restart w m file E L k sz t ps isCommit sync_flags :
  BE = 0 \/ BE = 1 -> (forall n, 0 <= n -> Page.len (garbage n) = n /\ bytes (garbage n)) ->
  refines {| shm := m; owner := Some w |} E (L, Some []) -> hdr w = (header m).1 -> readLock w <> 0 -> iReCksum w = 0 -> 0 <= nCkpt w < 2 ^ 32 ->
  bytes file -> recorded w file L k -> page_size sz /\ Z.land sz (sz - 1) = 0 -> Forall (good_page sz) ps /\ ps <> [] ->
  0 <= t < 2 ^ 32 /\ isCommit = negb (t =? 0) -> (isCommit = false -> Forall (fun p => pgno p <> 1) ps) ->
  0 < xSectorSize -> Z.of_nat (length L) + Z.of_nat (length ps) + xSectorSize < MAX_FRAME ->
  exists rc w' m' file', walFrames CORRUPT_DB BE garbage restart w m file sz ps t isCommit sync_flags = Ret (rc, w', m', file') /\
    (rc = SQLITE_OK -> exists p e k', last ps = Some p /\ 0 <= e <= xSectorSize /\
       let L' := L ++ map pgno ps ++ replicate (Z.to_nat e) (pgno p) in
       let n := Z.of_nat (length L') in
       (exists F, refines {| shm := m'; owner := Some w' |} (E ++ F) (if isCommit then (L', Some []) else (L, Some (drop (length L) L')))) /\
       recorded w' file' L' k' /\ (if isCommit then k_frame k' = n /\ k_pages k' = t else k' = k) /\
       forall crash, agree (walFrameOffset (n + 1) sz) file' crash -> bytes crash ->
         exists Lc kc, recovered crash = (Lc, kc) /\
           (isCommit = true -> n <= k_frame kc /\ take (length L') Lc = L') /\
           (Page.len crash < walFrameOffset (n + 2) sz -> kc = k' /\ Lc = take (Z.to_nat (k_frame k')) L')).
Proof.
  intros HBE Hg Hr Hlive Hlock Hclean Hckpt Hfile Hrec Hsz Hps Ht Hone Hsec Hmax.
  destruct (walFrames_ok CORRUPT_DB BE HBE garbage Hg w m file E L k sz t ps isCommit Hr Hlive Hlock Hclean Hckpt Hfile Hrec Hsz Hps Ht Hone Hsec Hmax restart sync_flags)
    as (rc & w' & m' & file' & Ew & Hok).
  exists rc, w', m', file'. split; [exact Ew|]. intros Hrc. destruct (Hok Hrc) as (p & e & Hlast & He & HF & g & Eg & Hsp & Hlg).
  set (P := map pgno ps ++ replicate (Z.to_nat e) (pgno p)) in *. cbn zeta in *.
  set (k' := if isCommit then at_commit (Z.of_nat (length (L ++ P))) t (aFrameCksum (hdr w')) else k) in *.
  assert (k_frame k' <= Z.of_nat (length (L ++ P))) as Hk'.
  { subst k'. destruct isCommit; [cbn; lia|]. rewrite length_app. destruct Hrec as [[_ ->]|(? & _ & _ & ?)]; cbn; lia. }
  exists p, e, k'. split_and!; try done; try lia.
  - destruct HF as [F HF]. exists F. by rewrite drop_app_length.
  - right. exists g. by split_and!.
  - subst k'. by destruct isCommit.
  - intros crash A Hb. rewrite <- Eg in *. pose proof (logged_agree g file' crash _ _ _ _ Hlg A Hb) as Hlc.
    destruct (logged_recovered g crash _ _ _ _ Hlc Hk') as (Lc & kc & Ec & Hcase & Hend). exists Lc, kc. split; [done|]. split.
    + intros Hc. assert (k_frame k' = Z.of_nat (length (L ++ P))) as Hkn by (subst k'; by rewrite Hc).
      destruct Hcase as [[-> ->]|[Hlt [l ->]]].
      * assert (take (length (L ++ P)) (L ++ P) = L ++ P) as Et by (apply take_ge; lia). rewrite Hkn, Nat2Z.id, !Et. fold P. split; [lia|exact Et].
      * fold P. split; [lia|]. by rewrite take_app_length.
    + intros Hl. specialize (Hend Hl). destruct Hcase as [[_ ->]|[Hlt _]]; [done|]. subst kc. lia.
Qed.

(** ** A concrete transaction *)

Import Demo LogFile.

#[local] Instance disk_write : VfsWrite.
Proof.
  split.
  - intros f c o f' Ho [= <-]. unfold put_file, Page.store, Page.len in *. rewrite take_app_le by lia. f_equal. f_equal.
    rewrite drop_app. replace (drop _ (replicate _ _)) with (@nil Z); [by rewrite app_nil_r|].
    symmetry. apply drop_ge. rewrite length_replicate. lia.
  - intros f n Hn. right. cbn. unfold from_to. by rewrite drop_0.
  - split; [done|]. apply bytes_Forall. repeat constructor; done.
Qed.

Lemma writer0_refines : refines {| shm := Demo.m0; owner := Some LogFile.writer0 |} [] ([], Some []).
Proof.
  pose proof Demo.begin_m0 as Hb. inversion Hb as [m w w' Hm Hw| | | | |]. subst.
  exact (refines_begin (BD := debug_build) _ _ _ _ _ Hm Hw Demo.refines_m0).
Qed.

Lemma demo_page_good n v : 0 < n < 2 ^ 32 -> 0 <= v < 256 -> good_page 512 (Demo.page n v).
Proof. intros Hn Hv. split; [done|]. split; [done|]. by apply bytes_replicate. Qed.

Lemma agree_app n f r : n = Page.len f -> agree n f (f ++ r).
Proof.
  intros ->. unfold agree, from_to, Page.len. rewrite length_app, !drop_0, take_app_le by lia. split_and!; [lia|lia|done].
Qed.

Lemma commit_is_durable_witness : exists Lc kc,
  recovered (LogFile.file2 ++ replicate 600 255) = (Lc, kc) /\ take 2 Lc = [1; 2] /\ 2 <= k_frame kc.
Proof.
  destruct (commit_is_durable (BD := debug_build) (SHM := Demo.shared) true 0 (fun n => replicate (Z.to_nat n) 0) (fun w m => (SQLITE_OK, w, m))
    LogFile.writer0 Demo.m0 [] [] [] no_commit 512 2 [Demo.page 1 7; Demo.page 2 8] true 0) as (rc & w' & m' & f & Er & Hok).
  - by left.
  - intros n Hn. split; [unfold Page.len; rewrite length_replicate; lia|by apply bytes_replicate].
  - exact writer0_refines.
  - reflexivity.
  - done.
  - reflexivity.
  - done.
  - apply bytes_Forall. constructor.
  - by left.
  - done.
  - split; [|done]. repeat constructor; try apply demo_page_good; lia.
  - done.
  - done.
  - done.
  - done.
  - destruct LogFile.run_two as (w2 & m2 & f2 & Hrun & Hcount & Hf). rewrite Er in Hrun. injection Hrun as -> -> -> ->.
    destruct (Hok eq_refl) as (p & e & k' & Hp & He & [F HF] & _ & Hk & Hcrash). cbn [Demo.page last] in Hp. injection Hp as <-.
    pose proof (f_count _ _ _ HF) as Hc. pose proof (f_log _ _ _ HF) as HL. cbn [shm fst app] in Hc, HL. rewrite Hcount, <- len_fmap, <- HL in Hc.
    cbn [map pgno app] in *. cbn [length] in Hc. rewrite length_replicate in Hc. assert (e = 0) as -> by lia. cbn [Z.to_nat replicate] in *.
    rewrite Hf in *. destruct (Hcrash (LogFile.file2 ++ replicate 600 255)) as (Lc & kc & Ec & Hd & _).
    + apply agree_app. rewrite file2_len. reflexivity.
    + apply bytes_app; [exact file2_bytes|apply bytes_replicate; lia].
    + exists Lc, kc. destruct (Hd eq_refl) as [Hn Ht]. split_and!; done.
Defined.
